(* ===== verification/_CoqProject ===== *)
-Q . S2P
Prelude.v
NumParse.v
Glob.v
Timer.v
Utf8.v
WebSocket.v
Codec.v
Digest.v
Calendar.v
Hash.v
Arena.v
Sym.v
WireLz.v
WireDl.v
WireVal.v
WireWrite.v
WireRead.v
WireFrame.v
WireTrip.v
WireSafe.v
HeapMem.v
Buddy.v
BuddyGeo.v
BuddyInv.v
BuddyOps.v
BuddyHeap.v
BuddySpec.v
BuddyMain.v
SortArr.v
SortKey.v
Pool.v
Radix.v
RadixSort.v
PackedSort.v
MsdSort.v
SortCol.v
SortOrd.v
SortMerge.v
SortSym.v
SortEnc.v
SortIdx.v
SortPack.v
SortMulti.v
Tok.v
TokStr.v
TokSafe.v
TokLit.v
TokStrSafe.v
Fmt.v
TokScan.v
TokTrip.v
LitTrip.v
