(* ===== verification/Prelude.v ===== *)
(** * peachq verification library: shared definitions

    peachq is a q language implementation over a columnar engine, in C.  This
    library models the parts of it whose logic is self-contained and whose
    mistakes are the costly ones: what parses untrusted bytes, what keeps an
    invariant over a shared structure, and what must invert something else.
    Paths below are relative to the root of the repository.

    ** How the program is put together, and where the models sit

    The engine ([src/core], [src/mem], [src/table], [src/vec], [src/ops],
    [src/lang]) holds vectors, symbols and tables, and runs the timers and the
    event loop.  The q layer ([src/qlang]) parses and evaluates q over it, and
    talks to other processes: q IPC frames carry values in the wire format,
    and the same port speaks WebSocket.  A message arrives in the read pump of
    [src/core/ipc.c], a WebSocket frame is delivered to the connection machine
    of [q_ws.c] (text payloads checked by its UTF-8 validator), an IPC frame is
    decompressed and read back into a value by [q_wire.c]; symbols of such a
    value are interned in the global table of [sym.c], which hashes them with
    [hash.h] and stores them in the arena of [arena.c].  Literals, globs, dates
    and digests are the leaves that the parser and the evaluator call, and the console
    prints values in the spelling that the literal scanner reads.  Every value lives in
    a block of the buddy heap of [src/mem/heap.c], whose header holds its
    reference count and whose last reference frees it.  The columnar operators
    split their work over the threads of [src/core/pool.c]; the sorts of
    [src/ops/sort.c] run on it, and grade the rows that a query orders.

    The files and the code each one models:
    - [NumParse]: [src/core/numparse.c], all parsers, operation by operation
      ([ray_parse_i64], [ray_parse_u64_hex], [ray_parse_f64] and the SWAR tests);
    - [Glob]: [src/ops/glob.c], the matcher with its remembered star
      ([glob_impl]) and the pre-compiled shapes ([ray_glob_compile],
      [ray_glob_match_compiled]);
    - [Timer]: [src/core/timer.c]; [ray_timers_t] is the heap as a list with
      its capacity and the next id, one definition per entry point;
    - [Utf8]: [src/qlang/base/q_utf8.c] and [q_ws_utf8_ok];
    - [WebSocket]: [src/qlang/net/q_ws.c] and the WebSocket branch of the pump
      in [src/core/ipc.c]; the connection is the record [q_ws_conn], a fed
      buffer is [q_ws_feed], and sends and handler calls are events;
    - [Codec] and [Digest]: base64, MD5 and SHA-1 of [src/qlang/ops/q_codec.c];
    - [Calendar]: [src/lang/cal.h] and [src/qlang/base/q_calendar.c];
    - [Hash]: [src/ops/hash.h]; [Arena]: [src/mem/arena.c];
    - [Sym]: [src/table/sym.c], the table as the record [sym_table_t] over a
      [ray_arena], one definition per operation, composed as the code does;
    - [WireLz], [WireDl], [WireVal], [WireWrite], [WireRead], [WireFrame],
      [WireTrip], [WireSafe]: [src/qlang/net/q_wire.c].  [WireVal] is the value
      type the codec sees ([include/rayforce.h], [src/core/types.c], and the
      list collapse and attribute stamps of [src/qlang/ops]); [WireWrite] the
      writer over its buffer with the measure mode; [WireRead] the reader over
      the bytes that remain; [WireLz] the compression; [WireDl] the text of a
      library call; the last three hold the theorems across them;
    - [HeapMem] and [Buddy]: the buddy heap of [src/mem/heap.c] and
      [src/mem/heap.h], the reservation of [src/core/platform.c] and the counts
      of [src/mem/cow.c].  [HeapMem] is the memory the heap reads and writes,
      block headers by address, with the circular free lists threaded through
      them; [Buddy] the record [ray_heap_t] and one definition per operation,
      from [heap_split_block] and [heap_coalesce] to [ray_alloc], [ray_free],
      [ray_release] and the slab flush.  [BuddyGeo] is the abstract heap, the
      blocks the pools are cut into with their status; [BuddyInv] relates it to
      the memory; [BuddyOps] and [BuddyHeap] show that the operations follow
      it; [BuddySpec] and [BuddyMain] state what a client of the heap sees;
    - [Pool]: [src/core/pool.c]; how a dispatch is cut into tasks, and the ring,
      the claims, the admission of workers, cancellation and the barrier as a
      step relation on the record [pool], one step per atomic operation of
      [worker_loop], [pool_claim] and the main thread;
    - the sorts of [src/ops/sort.c], from the leaves up: [SortArr] the loops on
      arrays that the file repeats for each element type; [SortKey] the
      introsort of (key, row) pairs; [Radix] one radix pass with its
      histograms, offsets and write-combining scatter; [RadixSort] the passes,
      the number of key bytes and the sortedness tests; [PackedSort] what the
      packed words mean; [MsdSort] the sort by the top byte and its buckets;
      [SortCol] the columns and the comparator [sort_cmp], [SortOrd] its order;
      [SortMerge] the merge-sort fallback; [SortSym] the ranks of symbols;
      [SortEnc] the keys of a column and their decoding; [SortIdx] the grade of
      one column, [sort_indices_ex] with [n_cols = 1]; [SortPack] the values of
      several columns, their ranges and the composite key; [SortMulti] the grade
      of several columns, and [sort_indices_ex] as a whole;
    - the text of values.  [Tok] is the literal scanner of the parser,
      [src/qlang/parse/q_tok.c] up to [q_tok_literal]: the clock grammar
      [tok_clock_scan], one magnitude ([q_tok_magnitude], with the four arms of
      [q_tok_temporal]), the strand of them and the choice of its type.
      [TokStr] is the rest of that file, the readers of whole strings behind
      [$] ([q_tok]).  [Fmt] is what the console prints for an atom,
      [atom_tok] of [src/qlang/q_fmt.c] over the formatters of
      [src/lang/format.c].  [TokSafe] and [TokLit] hold the safety of the
      literals, [TokStrSafe] that of the strings; [TokScan] says what the
      scanners find on a text of known shape, [TokTrip] and [LitTrip] that
      they read back what is printed.

    ** Conventions

    A machine integer is a [Z] kept in range by an explicit [u8], [u32], [u64]
    or signed [i32], [i64] wherever the C operation can leave it.  Bytes are a
    [list Z].  An access outside an array, a read of a byte never written and
    a loop out of its fuel are [None] (or [Fault] in [Timer]), so a theorem
    that a call is [Some] is memory safety and termination together.  C code
    that can fail returns an option, a sum or an error code with the state it
    leaves.  Allocators, clocks and callbacks are parameters: [alloc n] and
    [realloc_ok n] say whether the system grants [n] bytes and the theorems
    hold for every answer unless they say otherwise.  A callback of the
    timers takes the timer, the time and the heap, and gives the heap it leaves.

    What runs on several threads is sequential consistency over explicit
    steps.  In [Pool] the steps interleave freely, but for the publication of a
    dispatch: the stores of [pending] and [task_limit] and the posts of the
    semaphore are the one step [publish].  A worker acts on a dispatch only
    through the limit, whose store comes after that of [pending], and a post
    only lets a waiting worker look at it.  The sorts rely on what is
    proved there, that every task runs exactly once: a task of a scatter is the
    list of its writes, and [sched] any order of the writes of all tasks
    ([runs_all]); a range dispatch is the list [run] of its calls with their
    workers, in any order ([run_of]); a dispatch of numbered tasks that share no
    memory is any order of the numbers.  Two C arrays moved in step, such as
    [keys] and [idx], are one list of pairs.  A column ([col]) has its type, the
    flag that it may hold nulls, its words (doubles by their bits) or its byte
    strings, and the domain of a symbol column.

    A source of the literal scanner is a C string: its bytes with the NUL that
    ends it ([b ++ [0]]), so that a look at the next byte is a lookup and one
    behind the NUL is [None]; a string given to [q_tok] is its bytes alone.  In
    the scanners that also answer that a text is not theirs, [None] is the
    access outside or the overflow of a signed operation the code does not
    check ([chk]), and [Some None], [Miss] or [Bad] the refusal.  A printed
    token has no NUL.

    Fuel is always discharged by a theorem.  The glob matcher carries a
    quadratic bound in the lengths of pattern and subject; the probe loops of
    the symbol table the number of buckets, which exceeds the number of
    occupied ones; [grow_to] 64 doublings, since lengths stay below [2^63]; the
    compressor's loop one more than the number of bytes, each turn consuming
    at least one; the decompressor's one more than the size it was promised,
    each turn producing at least one; the reader recurses on its depth budget,
    [Q_WIRE_MAX_DEPTH] as in the code.  In the heap a split takes one turn per
    order it descends, coalescing at most one per order up to the pool's, the
    flush one per cached block; the scan for a free list is given 80 turns and
    drops one of at most 64 bits of [avail] in each.  In the sorts a halving of a
    length is given 64 turns, the bytes of a key 9, the doublings of a width of
    32 bits 33.  A strand of literals is given the length of its source, of which
    each element takes a byte; the introsort recurses on the depth it is given, and a merge on
    its length.  The firing loop of the timers is the
    one that need not end: its termination when what falls due by the last
    reading of the clock has positive intervals, callbacks that add and delete
    timers included, and its divergence on a zero interval are theorems.

    ** What the theorems show

    - Untrusted input: the wire reader and the decompressor end inside their
      buffers on every byte string ([q_wire_reader_total],
      [q_wire_uncompress_safe]); every reachable WebSocket connection stays
      within its bounds ([ws_conn_bounds]) and refines a frame-level
      specification ([ws_frames_refine]); the UTF-8 validator, the header
      parser, the base64 decoder and the library-call scanner accept exactly
      the encodings of something.
    - The timers: the firing loop ends, with nothing left that is due, under
      conditions on the intervals, the clock and the callbacks that its theorem
      lists ([fire_expired_terminates]), and does not end once a forever timer
      with a zero interval is due, whatever else is in the heap
      ([fire_zero_tic_diverges]).
    - Round trips: values through the wire in every mode
      ([q_wire_obj_roundtrip], [q_wire_frame_roundtrip]), compression
      ([q_wire_compress_correct]), frames, base64, dates and timestamps; the
      measured length of a frame is the length of the frame
      ([q_wire_serialize_len_exact]).
    - Invariants of shared state: every timer heap reachable by adds and
      deletes is ordered, with unique ids; every reachable symbol table answers
      lookups exactly and marks dotted names exactly; blocks of the arena are
      aligned, inside their chunk and disjoint; interning is atomic under
      allocation failure.
    - The heap: every heap reachable by allocations, releases, flushes and the
      client's writes hands out blocks that are aligned to their size, inside
      their pools and disjoint, and no later operation faults
      ([heap_reachable_safe]); allocating adds one block of the right order and
      leaves the others' memory ([ray_alloc_spec]), freeing removes exactly its
      block ([ray_free_spec]); with all returned and flushed the pools are
      whole again ([heap_drained]).
    - The pool: whatever the interleaving, with surplus wake-ups, late workers
      and cancellation, the tasks of a dispatch run at most once, and exactly
      once when it returns without a cancellation ([pool_dispatch_once]); no
      reachable state is stuck ([pool_dispatch_returns]).
    - The sorts: the comparator is a total preorder ([sort_cmp_total_preorder]);
      keys compare as the rows do, except for exactly two kinds of pairs, the
      zeros of different signs and a null with the largest long where the
      null's key is all ones ([keys_compare_as_rows]); symbols compare by their
      ranks ([enum_ranks_order]); keys decode to the values
      ([decode_inverts_encode]).  The radix sorts compute the sort of the pairs
      ([radix_sorts_rows]), the fallback the stable grade
      ([sort_fallback_grades]).  Put together, a grade of one column is a
      permutation along which the comparator never falls
      ([sort_indices_1_sorts]), and the stable one but for zeros of both signs
      and where [packed_path_reverses_ties] shows it is not; a grade of
      several columns is the stable one ([sort_indices_ex_sorts]).  Up to 64
      rows, where the rows are compared, this holds of any columns.  Above, of
      columns other than pooled strings whose nulls are where they are by
      default (for one column this matters only to 32 and 64-bit integers),
      and for several columns of doubles that are [floats_ok]:
      [composite_floats_by_sign] shows a sort of others that fails.
    - The text of values: reading a literal from any source, and any string as
      a value of a type, stays inside the text and the scanner's arrays and
      answers a value of the type ([q_tok_literal_safe], [q_tok_safe]), with
      one overflow left in the code ([q_tok_literal_overflow]).  What becomes
      of the text that the console prints for an atom is said of every payload:
      as a literal ([value_roundtrip]) it is the atom again exactly in
      [lit_dom], and the theorem says what a date or month outside the years 1
      to 9999 and a clock of a hundred hours or more give; through [$]
      ([element_roundtrip]) it is the atom again exactly in [tok_dom], and the
      null of its type elsewhere, negative clocks and timespans included.
    - Optimised code against references: SWAR parsing, the compiled globs, the
      iterative matcher, the double-precision year guess, the 128-bit product.

    ** What is not modelled

    - Wire: the failure of the last allocation of [q_wire_compress] and
      [q_wire_uncompress_payload], that of their result; enumerations, mapped splays and provider pointers, which the
      dispatcher converts or refuses before writing; allocation failures of
      the reader; the evaluator, the function registry and the library loader,
      which are the fields of the record [wire_env], each theorem naming what
      it relies on.  Reals are their bit patterns, a 32-bit signalling NaN
      aside; the writer is the little-endian one, the reader is given
      little-endian frames in the round trips.
    - WebSocket: a handler that closes the connection while its message is
      delivered; the bytes of a header that is incomplete or bad, which no
      later call looks at; the handshake beyond its token tests, the entropy source of
      the masks, and the choice of opcode for a q value.
    - Overflow of [now + tic] in [ray_timers_add] is written as wrap-around.
    - In the glob matcher the specification shares [match_class] with the code:
      the classes in brackets are not specified on their own.
    - The spin lock of the symbol table, which makes the operations atomic;
      the reference counts of interned strings; the contents of arena blocks.
    - Of the heap: several heaps at once (the queue of foreign blocks, merging,
      destroying and reclaiming pools), the scratch arena, copies and
      reallocation, mapped and attached blocks, the statistics but
      [bytes_allocated] (kept here always, in the code under [RAY_MEM_STATS]), the debug
      detector, and the atomicity of counts.  Releasing what a block owns,
      [ray_release_owned_refs], is an argument of the model.
    - Of the pool: shutdown, the lazy singleton, a change of the number of
      active workers, and memory orders weaker than sequential consistency.
    - Of the sorts: the byte-radix sort of more than 64 pooled strings, top-k,
      slices of columns, the sorted keys handed out with a grade, and the verbs
      that gather by one.
    - [strtod] and [pow], parameters of the float parser, and [round] and
      [nextafter] in the datetime conversions.
    - Of the text of values: the tokens of doubles and datetimes (printf and
      the shortest form), of symbols and of containers; that interning a
      symbol or allocating an atom fails.
    - The query engine, the evaluators and parsers, the stores and the
      bindings (DuckDB, Kafka, OpenSSL, FFI, RE2), which the manifest lists
      part by part.

    ** Plan

    Next in order: top-k and the string sort of [src/ops/sort.c]; the
    several heaps of [src/mem/heap.c]; row selections and the dictionary and
    vector operations under the wire's values; the parser of
    [src/qlang/parse/q_parse.c] over the literal scanner; prefix rejection and big-endian frames for the
    wire reader; the WebSocket handshake and gzip framing. *)
From Stdlib Require Import ZArith Lia.
From stdpp Require Export base numbers option relations list.

Open Scope Z_scope.
Coercion Z.of_nat : nat >-> Z.
#[global] Arguments Nat.leb : simpl never.
#[global] Arguments Nat.ltb : simpl never.
#[global] Arguments Nat.eqb : simpl never.
#[global] Arguments Nat.sub : simpl never.
#[global] Arguments Nat.div : simpl never.
#[global] Arguments Nat.modulo : simpl never.
#[global] Arguments Z.div : simpl never.
#[global] Arguments Z.modulo : simpl never.
#[global] Arguments Z.eqb : simpl never.
#[global] Arguments Z.ltb : simpl never.
#[global] Arguments Z.leb : simpl never.
#[global] Arguments Z.gtb : simpl never.
#[global] Arguments Z.geb : simpl never.
#[global] Arguments Z.land : simpl never.
#[global] Arguments Z.lor : simpl never.
#[global] Arguments Z.lxor : simpl never.

(** ** Machine integers

    A [w]-bit unsigned integer is a [Z] in [[0, 2^w)]; every C operation that
    can leave that range is followed by an explicit [uN]. *)
Definition wrap (w z : Z) : Z := z mod 2 ^ w.
Definition u8 (z : Z) : Z := wrap 8 z.
Definition u16 (z : Z) : Z := wrap 16 z.
Definition u32 (z : Z) : Z := wrap 32 z.
Definition u64 (z : Z) : Z := wrap 64 z.

(** Two's-complement reinterpretation of an unsigned value, [(intN_t)x]. *)
Definition sgn (w z : Z) : Z :=
  let r := wrap w z in if r <? 2 ^ (w - 1) then r else r - 2 ^ w.
Definition i32 (z : Z) : Z := sgn 32 z.
Definition i64 (z : Z) : Z := sgn 64 z.

Definition INT64_MAX : Z := 9223372036854775807.
Definition INT64_MIN : Z := -9223372036854775808.
Definition UINT32_MAX : Z := 4294967295.

(** ** Bytes and byte strings *)
Definition byte_ok (b : Z) : Prop := 0 <= b < 256.
Definition bytes_ok (s : list Z) : Prop := Forall byte_ok s.

(** [s.[i]] reads byte [i]; every use below is under the bounds test the C
    code makes, so the default is never observed. *)
Definition rd (s : list Z) (i : nat) : Z := default 0 (s !! i).

Declare Scope pq_scope.
Delimit Scope pq_scope with pq.
Notation "s .[ i ]" := (rd s i) (at level 1, i at level 200, left associativity, format "s .[ i ]") : pq_scope.
Open Scope pq_scope.

(** [l[i] = v], inside the array only. *)
Definition aset {A} (l : list A) (i : nat) (v : A) : option (list A) :=
  if (i <? length l)%nat then Some (<[i := v]> l) else None.

(** Fold of a fallible step. *)
Fixpoint fold_opt {S X} (f : S -> X -> option S) (s : S) (xs : list X) : option S :=
  match xs with
  | [] => Some s
  | x :: xs => s ← f s x; fold_opt f s xs
  end.

(** [memcpy(&x, p, n)] of [n] bytes on a little-endian machine. *)
Fixpoint le_load (bs : list Z) : Z :=
  match bs with
  | [] => 0
  | b :: bs' => b + 256 * le_load bs'
  end.

(** Big-endian composition, as the wire formats use it. *)
Definition be_load (bs : list Z) : Z := foldl (fun acc b => acc * 256 + b) 0 bs.

(** Value of a digit string in base [r], most significant digit first. *)
Definition digits_val (r : Z) (ds : list Z) : Z := foldl (fun acc d => acc * r + d) 0 ds.

(** The [n] low bytes of [v], most significant first. *)
Fixpoint be_bytes (n : nat) (v : Z) : list Z :=
  match n with
  | O => []
  | S n => (v / 256 ^ n) mod 256 :: be_bytes n v
  end.

(** The longest prefix of [s] whose elements satisfy [f]. *)
Fixpoint prefix_while (f : Z -> bool) (s : list Z) : list Z :=
  match s with
  | c :: s' => if f c then c :: prefix_while f s' else []
  | [] => []
  end.

(** ** Automation *)

(** [bsimpl]: turn boolean comparisons in the context into propositions. *)
Ltac bprop :=
  repeat match goal with
  | H : (_ && _)%bool = true |- _ => apply andb_prop in H; destruct H
  | H : (_ && _)%bool = false |- _ => apply andb_false_iff in H
  | H : (_ || _)%bool = true |- _ => apply orb_prop in H
  | H : (_ || _)%bool = false |- _ => apply orb_false_elim in H; destruct H
  | H : negb _ = true |- _ => apply negb_true_iff in H
  | H : negb _ = false |- _ => apply negb_false_iff in H
  | H : (_ =? _) = true |- _ => apply Z.eqb_eq in H
  | H : (_ =? _) = false |- _ => apply Z.eqb_neq in H
  | H : (_ <? _) = true |- _ => apply Z.ltb_lt in H
  | H : (_ <? _) = false |- _ => apply Z.ltb_ge in H
  | H : (_ <=? _) = true |- _ => apply Z.leb_le in H
  | H : (_ <=? _) = false |- _ => apply Z.leb_gt in H
  | H : (_ <? _)%nat = true |- _ => apply Nat.ltb_lt in H
  | H : (_ <? _)%nat = false |- _ => apply Nat.ltb_ge in H
  | H : (_ <=? _)%nat = true |- _ => apply Nat.leb_le in H
  | H : (_ <=? _)%nat = false |- _ => apply Nat.leb_gt in H
  | H : (_ =? _)%nat = true |- _ => apply Nat.eqb_eq in H
  | H : (_ =? _)%nat = false |- _ => apply Nat.eqb_neq in H
  end.

(** [bif]: case on the condition of an [if] of the goal and turn it into
    propositions. *)
Ltac bif :=
  match goal with
  | |- context [if ?b then _ else _] =>
      lazymatch type of b with
      | bool => let E := fresh "E" in destruct b eqn:E; bprop
      end
  end.

(** ** Lemmas on machine integers *)
Lemma wrap_small w z : 0 <= z < 2 ^ w -> wrap w z = z.
Proof. intros. by apply Z.mod_small. Qed.

Lemma wrap_range w z : 0 <= w -> 0 <= wrap w z < 2 ^ w.
Proof. intros. apply Z.mod_pos_bound. lia. Qed.

Lemma u8_small z : 0 <= z < 256 -> u8 z = z.
Proof. apply (wrap_small 8). Qed.
Lemma u32_small z : 0 <= z < 4294967296 -> u32 z = z.
Proof. apply (wrap_small 32). Qed.
Lemma u64_small z : 0 <= z < 18446744073709551616 -> u64 z = z.
Proof. apply (wrap_small 64). Qed.

Lemma u8_range z : 0 <= u8 z < 256.
Proof. apply (wrap_range 8). lia. Qed.
Lemma u32_range z : 0 <= u32 z < 4294967296.
Proof. apply (wrap_range 32). lia. Qed.
Lemma u64_range z : 0 <= u64 z < 18446744073709551616.
Proof. apply (wrap_range 64). lia. Qed.

Lemma i64_small z : INT64_MIN <= z <= INT64_MAX -> i64 z = z.
Proof.
  unfold i64, sgn, wrap, INT64_MIN, INT64_MAX. change (64 - 1) with 63. intros.
  bif; Z.to_euclidean_division_equations; lia.
Qed.

Lemma u64_sub_i64 z : INT64_MIN <= - z <= 0 -> i64 (u64 (0 - z)) = - z.
Proof.
  unfold i64, u64, sgn, wrap, INT64_MIN, INT64_MAX. change (64 - 1) with 63. intros.
  rewrite Zmod_mod. bif; Z.to_euclidean_division_equations; lia.
Qed.

(** Splitting a bitwise operation at a lane boundary. *)
Section lanes.
  Context (k : Z) (Hk : 0 <= k).

Lemma lane_testbit a x i :
    0 <= a < 2 ^ k -> 0 <= i ->
    Z.testbit (a + 2 ^ k * x) i = if i <? k then Z.testbit a i else Z.testbit x (i - k).
  Proof using Hk.
    intros Ha Hi.
    assert (Hlo : (a + 2 ^ k * x) mod 2 ^ k = a).
    { rewrite (Z.mul_comm (2 ^ k)), Z_mod_plus_full. by apply Z.mod_small. }
    assert (Hhi : (a + 2 ^ k * x) / 2 ^ k = x).
    { rewrite (Z.mul_comm (2 ^ k)), Z.div_add by lia. rewrite Z.div_small by done. lia. }
    bif.
    - rewrite <- Hlo at 2. by rewrite Z.mod_pow2_bits_low.
    - rewrite <- Hhi at 2. rewrite Z.div_pow2_bits by lia. f_equal. lia.
  Qed.

Lemma lane_land a b x y :
    0 <= a < 2 ^ k -> 0 <= b < 2 ^ k ->
    Z.land (a + 2 ^ k * x) (b + 2 ^ k * y) = Z.land a b + 2 ^ k * Z.land x y.
  Proof using Hk.
    intros Ha Hb. apply Z.bits_inj'. intros i Hi.
    assert (0 <= Z.land a b < 2 ^ k).
    { rewrite <- (Z.mod_small a (2 ^ k)), <- Z.land_ones, <- Z.land_assoc by done.
      rewrite (Z.land_comm _ b), Z.land_assoc, Z.land_ones by done.
      apply Z.mod_pos_bound. lia. }
    rewrite Z.land_spec, !lane_testbit by done.
    bif; by rewrite Z.land_spec.
  Qed.

Lemma lane_lor a b x y :
    0 <= a < 2 ^ k -> 0 <= b < 2 ^ k ->
    Z.lor (a + 2 ^ k * x) (b + 2 ^ k * y) = Z.lor a b + 2 ^ k * Z.lor x y.
  Proof using Hk.
    intros Ha Hb. apply Z.bits_inj'. intros i Hi.
    assert (0 <= Z.lor a b < 2 ^ k).
    { rewrite <- (Z.mod_small a (2 ^ k)), <- (Z.mod_small b (2 ^ k)) by done.
      rewrite <- !Z.land_ones, <- Z.land_lor_distr_l, Z.land_ones by done.
      apply Z.mod_pos_bound. lia. }
    rewrite Z.lor_spec, !lane_testbit by done.
    bif; by rewrite Z.lor_spec.
  Qed.
End lanes.

Lemma lor_shiftl_add a b k :
  0 <= k -> 0 <= b < 2 ^ k -> Z.lor (Z.shiftl a k) b = a * 2 ^ k + b.
Proof.
  intros Hk Hb. rewrite Z.shiftl_mul_pow2 by done.
  replace (a * 2 ^ k) with (0 + 2 ^ k * a) by lia.
  replace b with (b + 2 ^ k * 0) at 1 by lia.
  rewrite lane_lor by lia. rewrite Z.lor_0_r, Z.lor_0_l. lia.
Qed.

Lemma land_mask x k : 0 <= k -> Z.land x (2 ^ k - 1) = x mod 2 ^ k.
Proof. intros. by rewrite <- Z.land_ones, Z.ones_equiv by done. Qed.

Lemma wrap_land w z : 0 <= w -> Z.land z (2 ^ w - 1) = wrap w z.
Proof. apply land_mask. Qed.

(** A bitwise combination of two [w]-bit values is a [w]-bit value. *)
Lemma bits_range w z : 0 <= w -> 0 <= z -> (forall i, w <= i -> Z.testbit z i = false) -> z < 2 ^ w.
Proof.
  intros Hw Hz Hb. destruct (decide (z < 2 ^ w)) as [|Hn]; [done|exfalso].
  assert (Hl : w <= Z.log2 z) by (apply Z.log2_le_pow2; lia).
  pose proof (Z.bit_log2 z ltac:(lia)) as Ht. by rewrite Hb in Ht.
Qed.

Lemma testbit_high w z i : 0 <= z < 2 ^ w -> w <= i -> Z.testbit z i = false.
Proof.
  intros Hz Hi. destruct (decide (z = 0)) as [->|]; [apply Z.bits_0|].
  apply Z.bits_above_log2; [lia|]. assert (Z.log2 z < w) by (apply Z.log2_lt_pow2; lia). lia.
Qed.

Lemma lxor_range w a b : 0 <= w -> 0 <= a < 2 ^ w -> 0 <= b < 2 ^ w -> 0 <= Z.lxor a b < 2 ^ w.
Proof.
  intros Hw Ha Hb. assert (0 <= Z.lxor a b) by (apply Z.lxor_nonneg; lia). split; [done|].
  apply bits_range; [done..|]. intros i Hi. by rewrite Z.lxor_spec, !(testbit_high w) by lia.
Qed.

Lemma lor_range w a b : 0 <= w -> 0 <= a < 2 ^ w -> 0 <= b < 2 ^ w -> 0 <= Z.lor a b < 2 ^ w.
Proof.
  intros Hw Ha Hb. assert (0 <= Z.lor a b) by (apply Z.lor_nonneg; lia). split; [done|].
  apply bits_range; [done..|]. intros i Hi. by rewrite Z.lor_spec, !(testbit_high w) by lia.
Qed.

Lemma le_load_range bs : bytes_ok bs -> 0 <= le_load bs < 256 ^ length bs.
Proof.
  induction 1 as [|b bs Hb _ IH]; [simpl; lia|]. cbn [le_load length].
  rewrite Nat2Z.inj_succ, Z.pow_succ_r by lia. unfold byte_ok in Hb. lia.
Qed.

(** ** Lemmas on folds *)
Lemma fold_opt_snoc {S X} (f : S -> X -> option S) s xs x :
  fold_opt f s (xs ++ [x]) = (s ← fold_opt f s xs; f s x).
Proof.
  revert s. induction xs as [|y xs IH]; intros s; cbn [fold_opt app mbind option_bind]; [by destruct (f s x)|].
  destruct (f s y); cbn [mbind option_bind]; [apply IH|done].
Qed.

Lemma fold_opt_ext {S X} (f g : S -> X -> option S) s xs :
  (forall s x, f s x = g s x) -> fold_opt f s xs = fold_opt g s xs.
Proof. intros Hfg. revert s. induction xs as [|x xs IH]; intros s; cbn [fold_opt]; [done|]. rewrite Hfg. by destruct (g s x); cbn. Qed.

(** ** Lemmas on byte strings and digit strings *)
Lemma rd_cons_0 c s : rd (c :: s) 0 = c.
Proof. done. Qed.
Lemma rd_cons_S c s i : rd (c :: s) (S i) = rd s i.
Proof. done. Qed.
Lemma rd_drop s i j : rd (drop i s) j = rd s (i + j).
Proof. unfold rd. by rewrite lookup_drop. Qed.

Lemma rd_byte_ok s i : bytes_ok s -> byte_ok (rd s i).
Proof.
  intros Hs. unfold rd. destruct (s !! i) eqn:E; simpl.
  - by eapply Forall_lookup_1 in E.
  - unfold byte_ok. lia.
Qed.

Lemma drop_rd_cons (s : list Z) i :
  (i < length s)%nat -> drop i s = rd s i :: drop (S i) s.
Proof.
  intros [x Hx]%lookup_lt_is_Some. unfold rd. rewrite Hx. simpl.
  by apply drop_S.
Qed.

Lemma digits_val_acc r ds acc :
  foldl (fun a d => a * r + d) acc ds = acc * r ^ length ds + digits_val r ds.
Proof.
  unfold digits_val. revert acc. induction ds as [|d ds IH]; intros acc; simpl.
  - lia.
  - rewrite IH, (IH (0 * r + d)). rewrite Nat2Z.inj_succ, Z.pow_succ_r by lia. lia.
Qed.

Lemma digits_val_app r xs ys :
  digits_val r (xs ++ ys) = digits_val r xs * r ^ length ys + digits_val r ys.
Proof. unfold digits_val at 1. rewrite foldl_app. apply digits_val_acc. Qed.

Lemma digits_val_cons r d ds :
  digits_val r (d :: ds) = d * r ^ length ds + digits_val r ds.
Proof. unfold digits_val at 1. simpl. rewrite digits_val_acc. lia. Qed.

Lemma digits_val_snoc r ds d : digits_val r (ds ++ [d]) = digits_val r ds * r + d.
Proof. unfold digits_val. by rewrite foldl_app. Qed.

Lemma digits_val_bounds r ds :
  1 < r -> Forall (fun d => 0 <= d < r) ds -> 0 <= digits_val r ds < r ^ length ds.
Proof.
  intros Hr. induction 1 as [|d ds Hd _ IH].
  - unfold digits_val. simpl. lia.
  - rewrite digits_val_cons. simpl length. rewrite Nat2Z.inj_succ, Z.pow_succ_r by lia. nia.
Qed.

Lemma be_load_digits bs : be_load bs = digits_val 256 bs.
Proof. done. Qed.

Lemma length_be_bytes n v : length (be_bytes n v) = n.
Proof. induction n as [|n IH]; simpl; [done|by rewrite IH]. Qed.

Lemma be_bytes_ok n v : bytes_ok (be_bytes n v).
Proof. induction n as [|n IH]; constructor; [|done]. by apply Z.mod_pos_bound. Qed.

Lemma be_load_bytes n v : be_load (be_bytes n v) = v mod 256 ^ n.
Proof.
  induction n as [|n IH]; [by rewrite Z.mod_1_r|]. cbn [be_bytes].
  rewrite be_load_digits, digits_val_cons, <- be_load_digits, IH, length_be_bytes.
  rewrite Nat2Z.inj_succ, Z.pow_succ_r, (Z.mul_comm 256) by lia.
  rewrite Z.rem_mul_r by lia. lia.
Qed.

Lemma be_bytes_snoc n v : be_bytes (S n) v = be_bytes n (v / 256) ++ [v mod 256].
Proof.
  induction n as [|n IH]; [simpl; by rewrite Z.div_1_r|].
  change (be_bytes (S (S n)) v) with ((v / 256 ^ S n) mod 256 :: be_bytes (S n) v). rewrite IH.
  cbn [be_bytes app]. f_equal. rewrite Nat2Z.inj_succ, Z.pow_succ_r by lia.
  rewrite <- Z.div_div by lia. done.
Qed.

Lemma be_bytes_high n v k m : (n <= m)%nat -> be_bytes n (v + k * 256 ^ m) = be_bytes n v.
Proof.
  induction n as [|n IH]; intros Hn; [done|]. cbn [be_bytes]. rewrite IH by lia. f_equal.
  replace (k * 256 ^ m) with (k * 256 ^ (m - S n) * 256 * 256 ^ n) by
    (rewrite <- !Z.mul_assoc; f_equal; rewrite <- Z.pow_succ_r, <- Z.pow_add_r by lia; f_equal; lia).
  rewrite Z.div_add by lia. by rewrite Z_mod_plus_full.
Qed.

Lemma be_bytes_load bs : bytes_ok bs -> be_bytes (length bs) (be_load bs) = bs.
Proof.
  intros Hb. induction Hb as [|b bs Hb Hbs IH]; [done|].
  cbn [length be_bytes]. rewrite be_load_digits, digits_val_cons, <- be_load_digits.
  pose proof (digits_val_bounds 256 bs ltac:(lia) Hbs) as Hr. rewrite <- be_load_digits in Hr. f_equal.
  - rewrite Z.add_comm, Z.div_add, (Z.div_small (be_load bs)) by lia. by apply Z.mod_small.
  - rewrite Z.add_comm, be_bytes_high by done. done.
Qed.

(** The [n] low digits of [v] in base [r], most significant first. *)
Fixpoint digits_of (r : Z) (n : nat) (v : Z) : list Z :=
  match n with
  | O => []
  | S n => (v / r ^ n) mod r :: digits_of r n v
  end.

Section digits_of.
Context (r : Z) (Hr : 1 < r).

Lemma length_digits_of n v : length (digits_of r n v) = n.
Proof using Type. induction n as [|n IH]; simpl; [done|by rewrite IH]. Qed.

Lemma digits_of_range n v : Forall (fun d => 0 <= d < r) (digits_of r n v).
Proof using Hr. induction n as [|n IH]; constructor; [|done]. apply Z.mod_pos_bound. lia. Qed.

Lemma digits_of_high n v k m : (n <= m)%nat -> digits_of r n (v + k * r ^ m) = digits_of r n v.
Proof using Hr.
  induction n as [|n IH]; intros Hn; [done|]. cbn [digits_of]. rewrite IH by lia. f_equal.
  pose proof (Z.pow_pos_nonneg r n ltac:(lia) ltac:(lia)).
  replace (k * r ^ m) with (k * r ^ (m - S n) * r * r ^ n) by
    (rewrite <- !Z.mul_assoc; f_equal; rewrite <- Z.pow_succ_r, <- Z.pow_add_r by lia; f_equal; lia).
  rewrite Z.div_add by lia. by rewrite Z_mod_plus_full.
Qed.

Lemma digits_of_val ds : Forall (fun d => 0 <= d < r) ds -> digits_of r (length ds) (digits_val r ds) = ds.
Proof using Hr.
  intros Hb. induction Hb as [|b bs Hb Hbs IH]; [done|].
  cbn [length digits_of]. rewrite digits_val_cons.
  pose proof (digits_val_bounds r bs ltac:(lia) Hbs) as Hv.
  pose proof (Z.pow_pos_nonneg r (length bs) ltac:(lia) ltac:(lia)). f_equal.
  - rewrite Z.add_comm, Z.div_add, (Z.div_small (digits_val r bs)) by lia. by apply Z.mod_small.
  - rewrite Z.add_comm, digits_of_high by done. done.
Qed.

Lemma digits_val_of n v : digits_val r (digits_of r n v) = v mod r ^ n.
Proof using Hr.
  induction n as [|n IH]; [by rewrite Z.mod_1_r|]. cbn [digits_of].
  rewrite digits_val_cons, IH, length_digits_of. pose proof (Z.pow_pos_nonneg r n ltac:(lia) ltac:(lia)).
  rewrite Nat2Z.inj_succ, Z.pow_succ_r, (Z.mul_comm r) by lia. rewrite Z.rem_mul_r by lia. lia.
Qed.

(** Splitting a number at a digit boundary. *)
Lemma digits_of_app (n m : nat) a b :
  0 <= b < r ^ m -> digits_of r (n + m) (a * r ^ m + b) = digits_of r n a ++ digits_of r m b.
Proof using Hr.
  intros Hb. induction n as [|n IH]; cbn [digits_of Nat.add app].
  - rewrite Z.add_comm. by apply digits_of_high.
  - rewrite IH. f_equal. rewrite Nat2Z.inj_add, Z.pow_add_r by lia.
    pose proof (Z.pow_pos_nonneg r n ltac:(lia) ltac:(lia)).
    rewrite (Z.mul_comm (r ^ n)), <- Z.div_div by lia.
    by rewrite Z.div_add_l, (Z.div_small b), Z.add_0_r by lia.
Qed.
End digits_of.

Lemma prefix_while_Forall f s : Forall (fun c => f c = true) (prefix_while f s).
Proof. induction s as [|c s IH]; simpl; [done|]. destruct (f c) eqn:E; by constructor. Qed.

Lemma prefix_while_app f xs ys :
  Forall (fun c => f c = true) xs -> prefix_while f (xs ++ ys) = xs ++ prefix_while f ys.
Proof. induction 1 as [|x xs Hx _ IH]; simpl; [done|]. by rewrite Hx, IH. Qed.

Lemma prefix_while_length f s : (length (prefix_while f s) <= length s)%nat.
Proof. induction s as [|c s IH]; simpl; [done|]. destruct (f c); simpl; lia. Qed.

(** A decidable fact on bytes, by trying all 256 of them. *)
Lemma byte_all (P : Z -> Prop) `{forall b, Decision (P b)} :
  forallb (fun b => bool_decide (P b)) (seqZ 0 256) = true -> forall b, byte_ok b -> P b.
Proof.
  intros Hf b Hb. rewrite forallb_forall in Hf. apply (bool_decide_eq_true_1 _), Hf.
  apply list_elem_of_In, elem_of_seqZ. unfold byte_ok in Hb. lia.
Qed.

Ltac byte_exhaust H :=
  match type of H with
  | byte_ok ?c => pattern c; lazymatch goal with |- ?P _ => refine (byte_all P _ c H); by vm_compute end
  end.

Lemma ex_iff {A} (P Q : A -> Prop) : (forall x, P x <-> Q x) -> (exists x, P x) <-> exists x, Q x.
Proof. intros H. split; intros [x Hx]; exists x; by apply H. Qed.

Create HintDb pq discriminated.
#[export] Hint Resolve u8_range u32_range u64_range rd_byte_ok : pq.
#[export] Hint Resolve prefix_while_Forall : pq.
Create Rewrite HintDb pq.
#[export] Hint Rewrite rd_cons_0 rd_cons_S rd_drop : pq.
