(* ===== verification/NumParse.v ===== *)
(** * Number parsing: [src/core/numparse.c]

    The SWAR digit tests and folds, the integer parser, the hexadecimal parser
    and the decimal scanner of the float parser, with the theorems that each
    computes what a character-by-character reading of the text computes. *)
From Stdlib Require Import Floats.SpecFloat.
From S2P Require Import Prelude.

(** ** Characters *)
Definition ch0 : Z := 48.
Definition chPlus : Z := 43.
Definition chMinus : Z := 45.
Definition IS_DIGIT (c : Z) : bool := (48 <=? c) && (c <? 58).

(** ** SWAR digit detection *)
Definition LANE8_BIT : Z := 0x8080808080808080.
Definition LANE4_BIT : Z := 0x80808080.

Definition ray_is_8_digits (p : list Z) : bool :=
  let chunk := le_load (take 8 p) in
  let under := u64 (chunk - 0x3030303030303030) in
  let over := u64 (chunk + 0x4646464646464646) in
  Z.land (Z.lor under over) LANE8_BIT =? 0.

Definition ray_is_4_digits (p : list Z) : bool :=
  let chunk := le_load (take 4 p) in
  let under := u32 (chunk - 0x30303030) in
  let over := u32 (chunk + 0x46464646) in
  Z.land (Z.lor under over) LANE4_BIT =? 0.

(** ** SWAR digit accumulation *)
Definition ray_parse_8_digits (p : list Z) : Z :=
  let chunk := u64 (le_load (take 8 p) - 0x3030303030303030) in
  let tens := Z.land chunk 0x000F000F000F000F in
  let ones := Z.land (Z.shiftr chunk 8) 0x000F000F000F000F in
  let pairs := u64 (tens * 10 + ones) in
  let p_hi := Z.land pairs 0x000000FF000000FF in
  let p_lo := Z.land (Z.shiftr pairs 16) 0x000000FF000000FF in
  let quads := u64 (p_hi * 100 + p_lo) in
  u64 (Z.land quads 0xFFFFFFFF * 10000 + Z.shiftr quads 32).

Definition ray_parse_4_digits (p : list Z) : Z :=
  let chunk := u32 (le_load (take 4 p) - 0x30303030) in
  let tens := Z.land chunk 0x000F000F in
  let ones := Z.land (Z.shiftr chunk 8) 0x000F000F in
  let pairs := u32 (tens * 10 + ones) in
  u32 (Z.land pairs 0xFFFF * 100 + Z.shiftr pairs 16).

(** ** Integer parser *)

(** [while (i < len && src[i] == '0') i++], over the unread suffix [s]. *)
Fixpoint skip_zeros (s : list Z) (i : nat) : nat :=
  match s with
  | c :: s' => if c =? ch0 then skip_zeros s' (S i) else i
  | [] => i
  end.

(** The scalar tail with its 19-digit cap and its wrap test. *)
Fixpoint i64_tail (s : list Z) (sig_start i : nat) (result : Z) : option (nat * Z) :=
  match s with
  | c :: s' =>
      if IS_DIGIT c then
        if (19 <=? i - sig_start)%nat then None
        else
          let prev := result in
          let result := u64 (u64 (result * 10) + (c - ch0)) in
          if result <? prev then None else i64_tail s' sig_start (S i) result
      else Some (i, result)
  | [] => Some (i, result)
  end.

(** The two 8-digit SWAR chunks. *)
Definition i64_swar (src : list Z) (i : nat) : nat * Z :=
  let len := length src in
  if (i + 8 <=? len)%nat && ray_is_8_digits (drop i src) then
    let result := ray_parse_8_digits (drop i src) in
    let i := (i + 8)%nat in
    if (i + 8 <=? len)%nat && (result <=? 922337203) && ray_is_8_digits (drop i src) then
      ((i + 8)%nat, u64 (u64 (result * 100000000) + ray_parse_8_digits (drop i src)))
    else (i, result)
  else (i, 0).

(** [Some (consumed, *dst)], or [None] when the code returns 0. *)
Definition ray_parse_i64 (src : list Z) : option (nat * Z) :=
  let len := length src in
  if (len =? 0)%nat then None
  else
    let neg := src.[0] =? chMinus in
    let i := if neg then 1%nat else if src.[0] =? chPlus then 1%nat else 0%nat in
    if (i =? len)%nat then None
    else
      let digit_start := i in
      let i := skip_zeros (drop i src) i in
      let sig_start := i in
      let '(i, result) := i64_swar src i in
      match i64_tail (drop i src) sig_start i result with
      | None => None
      | Some (i, result) =>
          if (i =? digit_start)%nat then None
          else if neg then
            if result >? INT64_MAX + 1 then None
            else Some (i, i64 (u64 (0 - result)))
          else
            if result >? INT64_MAX then None
            else Some (i, i64 result)
      end.

(** ** Hexadecimal parser *)
Definition hex_digit (c : Z) : option Z :=
  if (48 <=? c) && (c <=? 57) then Some (c - 48)
  else if (97 <=? c) && (c <=? 102) then Some (c - 97 + 10)
  else if (65 <=? c) && (c <=? 70) then Some (c - 65 + 10)
  else None.

Fixpoint hex_loop (s : list Z) (i : nat) (v : Z) : nat * Z :=
  match s with
  | c :: s' =>
      if (i <? 16)%nat then
        match hex_digit c with
        | Some d => hex_loop s' (S i) (Z.lor (u64 (Z.shiftl v 4)) d)
        | None => (i, v)
        end
      else (i, v)
  | [] => (i, v)
  end.

Definition ray_parse_u64_hex (src : list Z) : option (nat * Z) :=
  let '(i, v) := hex_loop src 0 0 in
  if (i =? 0)%nat then None else Some (i, v).

(** ** Float parser: the decimal scan

    State of the scan: position, captured mantissa, number of captured
    significant digits, power of ten still to apply, and whether any digit was
    seen.  The [int] counters are unbounded here; they stay below the text
    length plus 10000. *)
Record f64_scan := F64Scan {
  fs_i : nat; fs_mantissa : Z; fs_digits : Z; fs_offset : Z; fs_have : bool
}.

(** Leading zeros of the integer part. *)
Fixpoint f64_int_zeros (s : list Z) (st : f64_scan) : f64_scan :=
  match s with
  | c :: s' =>
      if c =? ch0 then
        f64_int_zeros s' (F64Scan (S (fs_i st)) (fs_mantissa st) (fs_digits st) (fs_offset st) true)
      else st
  | [] => st
  end.

Definition f64_int_swar (src : list Z) (st : f64_scan) : f64_scan :=
  let len := length src in
  let i := fs_i st in
  if (i + 8 <=? len)%nat && ray_is_8_digits (drop i src) then
    let mantissa := ray_parse_8_digits (drop i src) in
    let i := (i + 8)%nat in
    if (i + 8 <=? len)%nat && ray_is_8_digits (drop i src) then
      F64Scan (i + 8) (u64 (u64 (mantissa * 100000000) + ray_parse_8_digits (drop i src)))
              16 (fs_offset st) true
    else F64Scan i mantissa 8 (fs_offset st) true
  else st.

Fixpoint f64_int_tail (s : list Z) (st : f64_scan) : f64_scan :=
  match s with
  | c :: s' =>
      if IS_DIGIT c then
        f64_int_tail s'
          (if fs_digits st <? 18 then
             F64Scan (S (fs_i st)) (u64 (u64 (fs_mantissa st * 10) + (c - ch0)))
                     (fs_digits st + 1) (fs_offset st) true
           else F64Scan (S (fs_i st)) (fs_mantissa st) (fs_digits st) (fs_offset st + 1) true)
      else st
  | [] => st
  end.

(** Zeros just after the point, read only while the mantissa is still 0. *)
Fixpoint f64_frac_zeros (s : list Z) (st : f64_scan) : f64_scan :=
  match s with
  | c :: s' =>
      if c =? ch0 then
        f64_frac_zeros s' (F64Scan (S (fs_i st)) (fs_mantissa st) (fs_digits st) (fs_offset st - 1) true)
      else st
  | [] => st
  end.

Definition f64_frac_swar (src : list Z) (st : f64_scan) : f64_scan :=
  let i := fs_i st in
  if (i + 8 <=? length src)%nat && (fs_digits st + 8 <=? 18) && ray_is_8_digits (drop i src) then
    F64Scan (i + 8) (u64 (u64 (fs_mantissa st * 100000000) + ray_parse_8_digits (drop i src)))
            (fs_digits st + 8) (fs_offset st - 8) true
  else st.

Fixpoint f64_frac_tail (s : list Z) (st : f64_scan) : f64_scan :=
  match s with
  | c :: s' =>
      if IS_DIGIT c then
        f64_frac_tail s'
          (if fs_digits st <? 18 then
             F64Scan (S (fs_i st)) (u64 (u64 (fs_mantissa st * 10) + (c - ch0)))
                     (fs_digits st + 1) (fs_offset st - 1) true
           else F64Scan (S (fs_i st)) (fs_mantissa st) (fs_digits st) (fs_offset st) true)
      else st
  | [] => st
  end.

Definition f64_fraction (src : list Z) (st : f64_scan) : f64_scan :=
  let i := fs_i st in
  if (i <? length src)%nat && (src.[i] =? 46) then
    let st := F64Scan (S i) (fs_mantissa st) (fs_digits st) (fs_offset st) (fs_have st) in
    let st := if fs_mantissa st =? 0 then f64_frac_zeros (drop (fs_i st) src) st else st in
    let st := f64_frac_swar src st in
    f64_frac_tail (drop (fs_i st) src) st
  else st.

(** The exponent digits: position, [exp_v] and the [exp_capped] flag. *)
Fixpoint exp_loop (s : list Z) (i : nat) (exp_v : Z) (exp_capped : bool) : nat * Z * bool :=
  match s with
  | c :: s' =>
      if IS_DIGIT c then
        if exp_v <=? 999 then exp_loop s' (S i) (exp_v * 10 + (c - ch0)) exp_capped
        else exp_loop s' (S i) exp_v true
      else (i, exp_v, exp_capped)
  | [] => (i, exp_v, exp_capped)
  end.

Definition f64_exponent (src : list Z) (st : f64_scan) : f64_scan :=
  let i := fs_i st in
  let len := length src in
  if (i <? len)%nat && ((src.[i] =? 101) || (src.[i] =? 69)) then
    let i := S i in
    let e_neg := (i <? len)%nat && (src.[i] =? chMinus) in
    let i := if (i <? len)%nat && ((src.[i] =? chMinus) || (src.[i] =? chPlus)) then S i else i in
    let e_start := i in
    let '(i, exp_v, exp_capped) := exp_loop (drop i src) i 0 false in
    if (i =? e_start)%nat then st
    else
      let e := if exp_capped : bool then 10000 else exp_v in
      F64Scan i (fs_mantissa st) (fs_digits st)
              (fs_offset st + (if e_neg then - e else e)) (fs_have st)
  else st.

(** The scan of an unsigned literal that starts at [i]: [None] when the text
    has no digit, which is the code's [return 0]. *)
Definition f64_scan_number (src : list Z) (i : nat) : option f64_scan :=
  let st := f64_int_zeros (drop i src) (F64Scan i 0 0 0 false) in
  let st := f64_int_swar src st in
  let st := f64_int_tail (drop (fs_i st) src) st in
  let st := f64_fraction src st in
  if fs_have st then Some (f64_exponent src st) else None.

(** ** Float parser: the value

    A [double] is a [spec_float] at precision 53 and exponent bound 1024, with
    the language's round-to-nearest-even multiplication and division.  The sign
    and payload of a NaN are not represented.  [strtod] and [pow] are libc's;
    [buf_ok] says whether the internal allocator serves the copy of a literal
    longer than the 128-byte stack buffer. *)
Definition fmul : spec_float -> spec_float -> spec_float := SFmul 53 1024.
Definition fdiv : spec_float -> spec_float -> spec_float := SFdiv 53 1024.
Definition double_of_u64 (m : Z) : spec_float := binary_normalize 53 1024 m 0 false.
Definition NULL_F64 : spec_float := S754_nan.
Definition f64_inf (neg : bool) : spec_float := S754_infinity neg.

(** Table entry [1e<k>], the double nearest to the decimal literal. *)
Definition g_pow10 (k : Z) : spec_float := double_of_u64 (10 ^ k).

Definition icmp3 (p : list Z) (a b c : Z) : bool :=
  ((p.[0] =? a) || (p.[0] =? Z.lxor a 32)) &&
  ((p.[1] =? b) || (p.[1] =? Z.lxor b 32)) &&
  ((p.[2] =? c) || (p.[2] =? Z.lxor c 32)).

Section float_value.
Context (strtod : list Z -> nat * spec_float) (pow10 : Z -> spec_float) (buf_ok : nat -> bool).

(** The chained division of [scale_pow10]; [fuel] bounds the number of
    [1e22] steps, [ne/22 + 1] of them suffice. *)
Fixpoint scale_div (fuel : nat) (val : spec_float) (ne : Z) : spec_float :=
  match fuel with
  | O => fdiv val (g_pow10 ne)
  | S fuel' =>
      if 22 <? ne then
        let val := fdiv val (g_pow10 22) in
        if SFeqb val (S754_zero false) then val else scale_div fuel' val (ne - 22)
      else fdiv val (g_pow10 ne)
  end.

Definition scale_pow10 (val : spec_float) (e : Z) : spec_float :=
  if e =? 0 then val
  else if 0 <? e then
    if e <=? 22 then fmul val (g_pow10 e) else fmul val (pow10 e)
  else
    let ne := - e in
    if ne <=? 22 then fdiv val (g_pow10 ne)
    else scale_div (Z.to_nat (ne / 22 + 1)) val ne.

(** [val = mantissa * 10^dec_offset], and the strtod detour.  [inl v] is a
    value that still takes the sign, [inr v] one that strtod already signed. *)
Definition f64_finalize (src : list Z) (st : f64_scan) : spec_float + spec_float :=
  let m := fs_mantissa st in
  let off := fs_offset st in
  if m =? 0 then inl (S754_zero false)
  else if 308 <? off then inl (f64_inf false)
  else if off <? -342 then inl (S754_zero false)
  else if (fs_digits st <=? 15) && (-22 <=? off) && (off <=? 22) then
    inl (if 0 <? off then fmul (double_of_u64 m) (g_pow10 off)
         else if off <? 0 then fdiv (double_of_u64 m) (g_pow10 (- off))
         else double_of_u64 m)
  else
    let i := fs_i st in
    let '(endp, v) := strtod (take i src) in
    if ((i + 1 <=? 128)%nat || buf_ok (i + 1)%nat) && (endp =? i)%nat then inr v
    else inl (scale_pow10 (double_of_u64 m) off).

Definition ray_parse_f64 (src : list Z) : option (nat * spec_float) :=
  let len := length src in
  if (len =? 0)%nat then None
  else
    let neg := src.[0] =? chMinus in
    let i := if neg then 1%nat else if src.[0] =? chPlus then 1%nat else 0%nat in
    if (i + 3 <=? len)%nat && icmp3 (drop i src) 110 97 110 then Some ((i + 3)%nat, NULL_F64)
    else if (i + 3 <=? len)%nat && icmp3 (drop i src) 105 110 102 then Some ((i + 3)%nat, f64_inf neg)
    else if (i + 2 <=? len)%nat && (src.[i] =? ch0) && ((src.[i + 1] =? 119) || (src.[i + 1] =? 87))
    then Some ((i + 2)%nat, f64_inf neg)
    else if (i =? len)%nat then None
    else
      match f64_scan_number src i with
      | None => None
      | Some st =>
          match f64_finalize src st with
          | inr v => Some (fs_i st, v)
          | inl val => Some (fs_i st, if neg then SFopp val else val)
          end
      end.
End float_value.

(** Reference reading of an unsigned decimal literal at position [i]: integer
    digits [ip], optional point and fraction digits [fp], optional exponent. *)
Definition f64_digits (src : list Z) (i : nat) : list Z * list Z * nat :=
  let ip := prefix_while IS_DIGIT (drop i src) in
  let j := (i + length ip)%nat in
  if (j <? length src)%nat && (src.[j] =? 46) then
    let fp := prefix_while IS_DIGIT (drop (S j) src) in (ip, fp, (S j + length fp)%nat)
  else (ip, [], j).

(** The exponent that follows position [j]: its value (clamped to [10000], far
    beyond any double) and the position after it. *)
Definition f64_exp_ref (src : list Z) (j : nat) : Z * nat :=
  if (j <? length src)%nat && ((src.[j] =? 101) || (src.[j] =? 69)) then
    let neg := (S j <? length src)%nat && (src.[S j] =? chMinus) in
    let k := if (S j <? length src)%nat && ((src.[S j] =? chMinus) || (src.[S j] =? chPlus))
             then S (S j) else S j in
    let es := prefix_while IS_DIGIT (drop k src) in
    if (length es =? 0)%nat then (0, j)
    else
      let e := Z.min 10000 (digits_val 10 ((fun c => c - 48) <$> es)) in
      ((if neg then - e else e), (k + length es)%nat)
  else (0, j).

(** ** Reference reading of an integer literal

    An optional sign, then every leading decimal digit; the value must fit the
    signed 64-bit range. *)
Definition dval (c : Z) : Z := c - 48.

Definition i64_spec (src : list Z) : option (nat * Z) :=
  let '(neg, k) :=
    match src with
    | c :: _ => if c =? chMinus then (true, 1%nat)
                else if c =? chPlus then (false, 1%nat) else (false, 0%nat)
    | [] => (false, 0%nat)
    end in
  let ds := prefix_while IS_DIGIT (drop k src) in
  let v := digits_val 10 (dval <$> ds) in
  let x := if neg : bool then - v else v in
  if (0 <? length ds)%nat && (INT64_MIN <=? x) && (x <=? INT64_MAX)
  then Some ((k + length ds)%nat, x) else None.

(** ** SWAR lemmas *)
Fixpoint rep (c : Z) (n : nat) : Z :=
  match n with O => 0 | S n' => c + 256 * rep c n' end.

Lemma le_load_bounds bs : bytes_ok bs -> 0 <= le_load bs < 256 ^ length bs.
Proof.
  induction 1 as [|b bs Hb _ IH]; simpl le_load; simpl length; [lia|].
  unfold byte_ok in Hb. rewrite Nat2Z.inj_succ, Z.pow_succ_r by lia. lia.
Qed.

(** The bit test on one lane, by enumeration of the 256 bytes. *)
Lemma lane_digit_test b :
  48 <= b < 186 ->
  (Z.land (Z.lor (b - 48) (b + 70)) 128 =? 0) = IS_DIGIT b.
Proof.
  intros Hb.
  assert (Hall : forallb (fun n => let b := 48 + Z.of_nat n in
    Bool.eqb (Z.land (Z.lor (b - 48) (b + 70)) 128 =? 0) (IS_DIGIT b)) (seq 0 138) = true)
    by (vm_compute; reflexivity).
  rewrite forallb_forall in Hall.
  specialize (Hall (Z.to_nat (b - 48))). cbv zeta in Hall.
  replace (48 + Z.of_nat (Z.to_nat (b - 48))) with b in Hall by lia.
  apply eqb_prop, Hall, in_seq. lia.
Qed.

Lemma lane_high_bit x : 128 <= x < 256 -> Z.land x 128 = 128.
Proof.
  intros Hx.
  assert (Hall : forallb (fun n => Z.land (128 + Z.of_nat n) 128 =? 128) (seq 0 128) = true)
    by (vm_compute; reflexivity).
  rewrite forallb_forall in Hall.
  specialize (Hall (Z.to_nat (x - 128))).
  replace (128 + Z.of_nat (Z.to_nat (x - 128))) with x in Hall by lia.
  apply Z.eqb_eq, Hall, in_seq. lia.
Qed.

Lemma lane_mod lo hi m :
  0 <= lo < 256 -> 0 < m -> (lo + 256 * hi) mod (256 * m) = lo + 256 * (hi mod m).
Proof.
  intros Hlo Hm. rewrite Z.rem_mul_r by lia.
  rewrite (Z.mul_comm 256 hi), Z_mod_plus_full, Z.mod_small by done.
  rewrite Z.div_add, (Z.div_small lo) by lia. done.
Qed.

Lemma lane_high_lor x y : 128 <= x < 256 -> Z.land (Z.lor x y) 128 <> 0.
Proof.
  intros Hx Hz. rewrite Z.land_lor_distr_l, lane_high_bit in Hz by done.
  apply Z.lor_eq_0_iff in Hz. lia.
Qed.

(** One SWAR step: the low lane is tested, the rest is the same test on the
    remaining lanes, whatever borrow or carry the low lane produced. *)
Lemma swar_step b u o U O m M :
  0 < m -> 0 <= u < 256 -> 0 <= o < 256 ->
  U = u + 256 * b -> O = o + 256 * M ->
  forall L, (Z.land (Z.lor (U mod (256 * m)) (O mod (256 * m))) (128 + 256 * L) =? 0)
  = (Z.land (Z.lor u o) 128 =? 0) && (Z.land (Z.lor (b mod m) (M mod m)) L =? 0).
Proof.
  intros Hm Hu Ho -> -> L. rewrite !lane_mod by done.
  pose proof (Z.mod_pos_bound b m Hm). pose proof (Z.mod_pos_bound M m Hm).
  change 256 with (2 ^ 8) in *. rewrite lane_lor by lia.
  assert (Hlor : 0 <= Z.lor u o < 2 ^ 8).
  { split; [apply Z.lor_nonneg; lia|].
    destruct (Z.eq_dec (Z.lor u o) 0) as [->|]; [lia|].
    apply Z.log2_lt_pow2; [pose proof (proj2 (Z.lor_nonneg u o)); lia|].
    rewrite Z.log2_lor by lia. apply Z.max_lub_lt.
    - destruct (Z.eq_dec u 0) as [->|]; [done|]. apply Z.log2_lt_pow2; lia.
    - destruct (Z.eq_dec o 0) as [->|]; [done|]. apply Z.log2_lt_pow2; lia. }
  rewrite lane_land by lia.
  assert (0 <= Z.land (Z.lor u o) 128) by (apply Z.land_nonneg; lia).
  assert (0 <= Z.land (Z.lor (b mod m) (M mod m)) L).
  { apply Z.land_nonneg. left. apply Z.lor_nonneg. lia. }
  destruct (Z.eqb_spec (Z.land (Z.lor u o) 128) 0), (Z.eqb_spec (Z.land (Z.lor (b mod m) (M mod m)) L) 0);
    simpl; apply Z.eqb_eq || apply Z.eqb_neq; lia.
Qed.

Lemma swar_digits bs :
  bytes_ok bs ->
  (Z.land (Z.lor ((le_load bs - rep 48 (length bs)) mod 256 ^ length bs)
                 ((le_load bs + rep 70 (length bs)) mod 256 ^ length bs))
          (rep 128 (length bs)) =? 0) = forallb IS_DIGIT bs.
Proof.
  induction 1 as [|b bs Hb Hbs IH]; [done|].
  simpl le_load. simpl length. simpl rep. simpl forallb.
  rewrite Nat2Z.inj_succ, Z.pow_succ_r by lia.
  set (c := le_load bs) in *. set (n := length bs) in *.
  assert (Hm : 0 < 256 ^ n) by lia. unfold byte_ok in Hb.
  destruct (Z_lt_le_dec b 48); [|destruct (Z_lt_le_dec b 186)].
  - rewrite (swar_step (c - rep 48 n - 1) (b + 208) (b + 70) _ _ (256 ^ n) (c + rep 70 n)) by lia.
    replace (IS_DIGIT b) with false by (unfold IS_DIGIT; symmetry; apply andb_false_iff; lia).
    apply andb_false_iff. left. apply Z.eqb_neq, lane_high_lor. lia.
  - rewrite (swar_step (c - rep 48 n) (b - 48) (b + 70) _ _ (256 ^ n) (c + rep 70 n)) by lia.
    by rewrite lane_digit_test, IH by lia.
  - rewrite (swar_step (c - rep 48 n) (b - 48) (b - 186) _ _ (256 ^ n) (c + rep 70 n + 1)) by lia.
    replace (IS_DIGIT b) with false by (unfold IS_DIGIT; symmetry; apply andb_false_iff; lia).
    apply andb_false_iff. left. apply Z.eqb_neq, lane_high_lor. lia.
Qed.

Lemma bytes_ok_take n s : bytes_ok s -> bytes_ok (take n s).
Proof. apply Forall_take. Qed.
Lemma bytes_ok_drop n s : bytes_ok s -> bytes_ok (drop n s).
Proof. apply Forall_drop. Qed.
#[local] Hint Resolve bytes_ok_take bytes_ok_drop : pq.

Lemma is_8_digits_forallb p :
  bytes_ok p -> (8 <= length p)%nat -> ray_is_8_digits p = forallb IS_DIGIT (take 8 p).
Proof.
  intros Hp Hlen. unfold ray_is_8_digits, u64, wrap.
  rewrite <- swar_digits by auto with pq.
  rewrite length_take, Nat.min_l by done. reflexivity.
Qed.

(** ** The SWAR folds compute the decimal value *)
Lemma small_land_mask a k : 0 <= k -> 0 <= a < 2 ^ k -> Z.land a (Z.ones k) = a.
Proof. intros. rewrite Z.land_ones by done. by apply Z.mod_small. Qed.

(** [land] with a mask whose low [k] bits are set keeps a low lane [a] and
    passes the rest to the rest of the mask. *)
Lemma land_keep k a x m :
  0 <= k -> 0 <= a < 2 ^ k ->
  Z.land (a + 2 ^ k * x) (Z.ones k + 2 ^ k * m) = a + 2 ^ k * Z.land x m.
Proof.
  intros Hk Ha. rewrite lane_land; [|done|done|rewrite Z.ones_equiv; lia].
  by rewrite small_land_mask.
Qed.

(** ... and a zero low lane of the mask drops the lane. *)
Lemma land_skip k a x m :
  0 <= k -> 0 <= a < 2 ^ k ->
  Z.land (a + 2 ^ k * x) (2 ^ k * m) = 2 ^ k * Z.land x m.
Proof.
  intros Hk Ha. replace (2 ^ k * m) with (0 + 2 ^ k * m) by lia.
  rewrite lane_land by lia. rewrite Z.land_0_r. lia.
Qed.

Lemma tens_mask8 x0 x1 x2 x3 x4 x5 x6 x7 :
  0 <= x0 < 16 -> 0 <= x1 < 256 -> 0 <= x2 < 16 -> 0 <= x3 < 256 ->
  0 <= x4 < 16 -> 0 <= x5 < 256 -> 0 <= x6 < 16 -> 0 <= x7 < 256 ->
  Z.land (x0 + 256 * (x1 + 256 * (x2 + 256 * (x3 + 256 * (x4 + 256 * (x5 + 256 * (x6 + 256 * x7)))))))
         0x000F000F000F000F
  = x0 + 65536 * (x2 + 65536 * (x4 + 65536 * x6)).
Proof.
  intros.
  assert (step : forall a b x m, 0 <= a < 16 -> 0 <= b < 256 ->
    Z.land (a + 256 * (b + 256 * x)) (15 + 65536 * m) = a + 65536 * Z.land x m).
  { intros a b x m Ha Hb.
    replace (15 + 65536 * m) with (15 + 2 ^ 8 * (2 ^ 8 * m)) by lia.
    change 256 with (2 ^ 8) in *. rewrite lane_land by lia.
    rewrite land_skip by lia. change 15 with (Z.ones 4).
    rewrite small_land_mask by (simpl; lia). lia. }
  change 0x000F000F000F000F with (15 + 65536 * (15 + 65536 * (15 + 65536 * (15 + 65536 * 0)))).
  rewrite !step by lia. 
  replace (x6 + 256 * x7) with (x6 + 256 * (x7 + 256 * 0)) by lia.
  rewrite step by lia. rewrite Z.land_0_r. lia.
Qed.

Lemma pair_mask4 q0 q1 q2 q3 :
  0 <= q0 < 256 -> 0 <= q1 < 65536 -> 0 <= q2 < 256 -> 0 <= q3 < 65536 ->
  Z.land (q0 + 65536 * (q1 + 65536 * (q2 + 65536 * q3))) 0x000000FF000000FF
  = q0 + 4294967296 * q2.
Proof.
  intros.
  assert (step : forall a b x m, 0 <= a < 256 -> 0 <= b < 65536 ->
    Z.land (a + 65536 * (b + 65536 * x)) (255 + 4294967296 * m) = a + 4294967296 * Z.land x m).
  { intros a b x m Ha Hb.
    replace (255 + 4294967296 * m) with (255 + 2 ^ 16 * (2 ^ 16 * m)) by lia.
    change 65536 with (2 ^ 16) in *. rewrite lane_land by lia.
    rewrite land_skip by lia. change 255 with (Z.ones 8).
    rewrite small_land_mask by (simpl; lia). lia. }
  change 0x000000FF000000FF with (255 + 4294967296 * (255 + 4294967296 * 0)).
  replace (q2 + 65536 * q3) with (q2 + 65536 * (q3 + 65536 * 0)) by lia.
  rewrite !step by lia. rewrite Z.land_0_r. lia.
Qed.

Lemma parse_8_val d0 d1 d2 d3 d4 d5 d6 d7 s :
  forallb IS_DIGIT [d0; d1; d2; d3; d4; d5; d6; d7] = true ->
  ray_parse_8_digits (d0 :: d1 :: d2 :: d3 :: d4 :: d5 :: d6 :: d7 :: s)
  = digits_val 10 (dval <$> [d0; d1; d2; d3; d4; d5; d6; d7]).
Proof.
  intros Hd. unfold IS_DIGIT in Hd. simpl forallb in Hd. bprop.
  unfold ray_parse_8_digits, digits_val, dval. simpl take. simpl le_load. simpl foldl.
  set (e0 := d0 - 48); set (e1 := d1 - 48); set (e2 := d2 - 48); set (e3 := d3 - 48);
  set (e4 := d4 - 48); set (e5 := d5 - 48); set (e6 := d6 - 48); set (e7 := d7 - 48).
  rewrite (u64_small (_ - _)) by lia.
  replace (_ - 0x3030303030303030) with
    (e0 + 256 * (e1 + 256 * (e2 + 256 * (e3 + 256 * (e4 + 256 * (e5 + 256 * (e6 + 256 * e7)))))))
    by lia.
  rewrite Z.shiftr_div_pow2 by lia. change (2 ^ 8) with 256.
  replace (_ / 256) with
    (e1 + 256 * (e2 + 256 * (e3 + 256 * (e4 + 256 * (e5 + 256 * (e6 + 256 * (e7 + 256 * 0)))))))
    by (apply Z.div_unique with e0; lia).
  rewrite !tens_mask8 by lia.
  rewrite (u64_small (_ * 10 + _)) by lia.
  set (q0 := e0 * 10 + e1); set (q1 := e2 * 10 + e3);
  set (q2 := e4 * 10 + e5); set (q3 := e6 * 10 + e7).
  replace (_ * 10 + _) with (q0 + 65536 * (q1 + 65536 * (q2 + 65536 * q3))) by lia.
  rewrite Z.shiftr_div_pow2 by lia. change (2 ^ 16) with 65536.
  replace (_ / 65536) with (q1 + 65536 * (q2 + 65536 * (q3 + 65536 * 0)))
    by (apply Z.div_unique with q0; lia).
  rewrite !pair_mask4 by lia.
  rewrite (u64_small (_ * 100 + _)) by lia.
  replace (_ * 100 + _) with (q0 * 100 + q1 + 4294967296 * (q2 * 100 + q3)) by lia.
  change 0xFFFFFFFF with (Z.ones 32). rewrite Z.land_ones, Z.shiftr_div_pow2 by lia.
  change (2 ^ 32) with 4294967296.
  replace (_ mod _) with (q0 * 100 + q1) by (apply Z.mod_unique with (q2 * 100 + q3); lia).
  replace (_ / _) with (q2 * 100 + q3) by (apply Z.div_unique with (q0 * 100 + q1); lia).
  rewrite u64_small by lia. lia.
Qed.

Lemma parse_8_digits_val p :
  (8 <= length p)%nat -> forallb IS_DIGIT (take 8 p) = true ->
  ray_parse_8_digits p = digits_val 10 (dval <$> take 8 p).
Proof.
  intros Hlen. do 8 (destruct p as [|? p]; [simpl in Hlen; lia|]).
  intros Hd. by apply parse_8_val.
Qed.

(** ** The integer parser against its reference *)
Definition dv (xs : list Z) : Z := digits_val 10 (dval <$> xs).

Lemma IS_DIGIT_dval c : IS_DIGIT c = true -> 0 <= dval c < 10.
Proof. unfold IS_DIGIT, dval. intros. bprop. lia. Qed.

Lemma dv_app xs ys : dv (xs ++ ys) = dv xs * 10 ^ length ys + dv ys.
Proof. unfold dv. by rewrite fmap_app, digits_val_app, length_fmap. Qed.

Lemma dv_cons c xs : dv (c :: xs) = dval c * 10 ^ length xs + dv xs.
Proof. unfold dv. by rewrite fmap_cons, digits_val_cons, length_fmap. Qed.

Lemma dv_bounds xs : Forall (fun c => IS_DIGIT c = true) xs -> 0 <= dv xs < 10 ^ length xs.
Proof.
  intros H. unfold dv. rewrite <- (length_fmap dval xs).
  apply digits_val_bounds; [lia|].
  apply Forall_fmap. eapply Forall_impl; [exact H|]. apply IS_DIGIT_dval.
Qed.

Lemma forallb_Forall_digits xs :
  forallb IS_DIGIT xs = true <-> Forall (fun c => IS_DIGIT c = true) xs.
Proof.
  induction xs as [|c xs IH]; simpl; [done|].
  by rewrite andb_true_iff, Forall_cons, IH.
Qed.

Lemma skip_zeros_split s k :
  exists z ds', skip_zeros s k = (k + z)%nat /\
    prefix_while IS_DIGIT s = replicate z ch0 ++ ds' /\
    ds' = prefix_while IS_DIGIT (drop z s) /\
    (forall c r, ds' = c :: r -> 1 <= dval c) /\ (z <= length s)%nat.
Proof.
  revert k. induction s as [|c s IH]; intros k; simpl.
  - exists 0%nat, []. repeat split; try lia; done.
  - destruct (c =? ch0) eqn:E; bprop.
    + destruct (IH (S k)) as (z & ds' & Hs & Hp & Hd & Hnz & Hl). subst c.
      exists (S z), ds'. simpl. rewrite Hs, Hp. repeat split; [lia|done|done|lia].
    + exists 0%nat. simpl. eexists. repeat split; [lia| |lia].
      destruct (IS_DIGIT c) eqn:Ed; [|done].
      intros ? ? [= <- _]. apply IS_DIGIT_dval in Ed. unfold dval, ch0 in *. lia.
Qed.

Lemma dv_replicate_zero z xs : dv (replicate z ch0 ++ xs) = dv xs.
Proof.
  induction z as [|z IH]; simpl; [done|].
  rewrite dv_cons, IH. unfold dval, ch0. lia.
Qed.

Lemma i64_tail_spec s sig xs :
  Forall (fun c => IS_DIGIT c = true) xs -> (length xs <= 19)%nat ->
  i64_tail s sig (sig + length xs) (dv xs) =
  let ds := xs ++ prefix_while IS_DIGIT s in
  if (length ds <=? 19)%nat then Some ((sig + length ds)%nat, dv ds) else None.
Proof.
  revert xs. induction s as [|c s IH]; intros xs Hxs Hlen; simpl.
  - rewrite app_nil_r. by rewrite (proj2 (Nat.leb_le _ _)).
  - destruct (IS_DIGIT c) eqn:Ec.
    2: { rewrite app_nil_r. by rewrite (proj2 (Nat.leb_le _ _)). }
    replace (sig + length xs - sig)%nat with (length xs) by lia.
    destruct (19 <=? length xs)%nat eqn:E; bprop.
    { rewrite (proj2 (Nat.leb_gt _ _)); [done|]. rewrite length_app. simpl. lia. }
    pose proof (dv_bounds _ Hxs) as Hb. pose proof (IS_DIGIT_dval _ Ec) as Hc.
    assert (10 ^ length xs <= 10 ^ 18) by (apply Z.pow_le_mono_r; lia).
    fold (dval c). change (c - ch0) with (dval c).
    rewrite (u64_small (dv xs * 10)), u64_small by lia.
    rewrite (proj2 (Z.ltb_ge _ _)) by lia.
    replace (dv xs * 10 + dval c) with (dv (xs ++ [c]))
      by (rewrite dv_app; unfold dv at 2, digits_val; simpl; lia).
    replace (S (sig + length xs)) with (sig + length (xs ++ [c]))%nat
      by (rewrite length_app; simpl; lia).
    rewrite IH; [|by apply Forall_app; auto|rewrite length_app; simpl; lia].
    by rewrite <- !app_assoc.
Qed.

(** A block the SWAR test accepts is a block of leading digits, and its fold
    is their value. *)
Lemma swar_chunk src j :
  bytes_ok src -> (j + 8 <= length src)%nat -> ray_is_8_digits (drop j src) = true ->
  exists xs, length xs = 8%nat /\ Forall (fun c => IS_DIGIT c = true) xs /\
    ray_parse_8_digits (drop j src) = dv xs /\
    drop j src = xs ++ drop (j + 8) src.
Proof.
  intros Hok Hj Hd. assert (8 <= length (drop j src))%nat by (rewrite length_drop; lia).
  rewrite is_8_digits_forallb in Hd by auto with pq.
  exists (take 8 (drop j src)).
  split; [rewrite length_take; lia|]. split; [by apply forallb_Forall_digits|].
  split; [by apply parse_8_digits_val|].
  by rewrite <- (take_drop 8 (drop j src)) at 1; rewrite drop_drop.
Qed.

(** What the two SWAR chunks leave behind: a whole number of the leading
    digits of the unread text, with their value. *)
Lemma i64_swar_spec src i :
  bytes_ok src -> (i <= length src)%nat ->
  exists xs, i64_swar src i = ((i + length xs)%nat, dv xs) /\
    Forall (fun c => IS_DIGIT c = true) xs /\ (length xs <= 16)%nat /\
    prefix_while IS_DIGIT (drop i src) = xs ++ prefix_while IS_DIGIT (drop (i + length xs) src).
Proof.
  intros Hok Hi. unfold i64_swar.
  destruct (i + 8 <=? length src)%nat eqn:E1; simpl; bprop.
  2: { exists []. simpl. rewrite Nat.add_0_r. split_and!; auto; lia. }
  destruct (ray_is_8_digits (drop i src)) eqn:D1.
  2: { exists []. simpl. rewrite Nat.add_0_r. split_and!; auto; lia. }
  destruct (swar_chunk src i Hok E1 D1) as (xs & L1 & F1 & V1 & P1).
  pose proof (dv_bounds _ F1) as B1. rewrite L1 in B1. rewrite V1.
  destruct ((i + 8 + 8 <=? length src)%nat && _ && _) eqn:E2.
  - bprop. destruct (swar_chunk src (i + 8)) as (ys & L2 & F2 & V2 & P2); [done|lia|done|].
    pose proof (dv_bounds _ F2) as B2. rewrite L2 in B2. exists (xs ++ ys).
    rewrite length_app, L1, L2, V2, (u64_small (_ * 100000000)), u64_small, dv_app, L2 by lia.
    split_and!; [f_equal; lia|by apply Forall_app|lia|].
    rewrite P1, P2, app_assoc, prefix_while_app by (by apply Forall_app). do 3 f_equal. lia.
  - exists xs. rewrite L1. split_and!; auto; [lia|]. by rewrite P1, prefix_while_app.
Qed.

Lemma i64_sig_limit xs c r :
  xs = c :: r -> Forall (fun c => IS_DIGIT c = true) xs -> 1 <= dval c ->
  (19 < length xs)%nat -> INT64_MAX + 1 < dv xs.
Proof.
  intros -> HF Hc Hl. apply Forall_cons in HF as [_ HF].
  rewrite dv_cons. pose proof (dv_bounds _ HF). simpl in Hl.
  assert (10 ^ 19 <= 10 ^ length r) by (apply Z.pow_le_mono_r; lia).
  unfold INT64_MAX. nia.
Qed.

(** Everything after the sign: [src] read from position [k]. *)
Definition i64_body (src : list Z) (neg : bool) (k : nat) : option (nat * Z) :=
  let i := skip_zeros (drop k src) k in
  let sig_start := i in
  let '(i, result) := i64_swar src i in
  match i64_tail (drop i src) sig_start i result with
  | None => None
  | Some (i, result) =>
      if (i =? k)%nat then None
      else if neg then
        if result >? INT64_MAX + 1 then None
        else Some (i, i64 (u64 (0 - result)))
      else
        if result >? INT64_MAX then None
        else Some (i, i64 result)
  end.

Lemma i64_body_spec src neg k :
  bytes_ok src -> (k <= length src)%nat ->
  i64_body src neg k =
  let ds := prefix_while IS_DIGIT (drop k src) in
  let x := if neg then - dv ds else dv ds in
  if (0 <? length ds)%nat && (INT64_MIN <=? x) && (x <=? INT64_MAX)
  then Some ((k + length ds)%nat, x) else None.
Proof.
  intros Hok Hk. unfold i64_body.
  destruct (skip_zeros_split (drop k src) k) as (z & ds' & Hz & Hp & Hd & Hnz & Hzl).
  rewrite drop_drop in Hd. rewrite length_drop in Hzl. rewrite Hz, Hp.
  destruct (i64_swar_spec src (k + z)) as (xs & Hs & HF & Hl & Hpre); [done|lia|].
  rewrite Hs, i64_tail_spec by (done || lia). cbv zeta.
  rewrite <- Hpre, <- Hd, dv_replicate_zero, length_app, length_replicate.
  assert (HF' : Forall (fun c => IS_DIGIT c = true) ds') by (rewrite Hd; auto with pq).
  pose proof (dv_bounds _ HF') as Hb.
  destruct (length ds' <=? 19)%nat eqn:E; bprop.
  - replace (k + z + length ds' =? k)%nat with (negb (0 <? z + length ds')%nat)
      by (destruct (Nat.ltb_spec 0 (z + length ds')), (Nat.eqb_spec (k + z + length ds') k); simpl; lia).
    destruct (0 <? z + length ds')%nat; simpl; [|done]. rewrite Nat.add_assoc.
    destruct neg; rewrite Z.gtb_ltb; unfold INT64_MIN, INT64_MAX in *.
    + destruct (Z.ltb_spec (9223372036854775807 + 1) (dv ds')).
      * by rewrite (proj2 (Z.leb_gt (-9223372036854775808) _)) by lia.
      * rewrite !(proj2 (Z.leb_le _ _)) by lia. simpl.
        by rewrite u64_sub_i64 by (unfold INT64_MIN; lia).
    + destruct (Z.ltb_spec 9223372036854775807 (dv ds')).
      * rewrite (proj2 (Z.leb_gt (dv ds') _)) by lia. by rewrite andb_false_r.
      * rewrite !(proj2 (Z.leb_le _ _)) by lia. simpl.
        by rewrite i64_small by (unfold INT64_MIN, INT64_MAX; lia).
  - destruct ds' as [|c r]; [simpl in *; lia|].
    pose proof (i64_sig_limit _ c r eq_refl HF' (Hnz _ _ eq_refl) E).
    bif; [exfalso|done]. unfold INT64_MIN, INT64_MAX in *. destruct neg; lia.
Qed.

Lemma ray_parse_i64_ref (src : list Z) : bytes_ok src -> ray_parse_i64 src = i64_spec src.
Proof.
  intros Hok. destruct src as [|c s]; [done|].
  change (ray_parse_i64 (c :: s)) with
    (let neg := c =? chMinus in
     let k := if neg then 1%nat else if c =? chPlus then 1%nat else 0%nat in
     if (k =? length (c :: s))%nat then None else i64_body (c :: s) neg k).
  cbv zeta. rewrite i64_body_spec; [|done|repeat bif; simpl; lia].
  unfold i64_spec, dv. destruct (c =? chMinus), (c =? chPlus); cbv zeta;
    (destruct (_ =? length (c :: s))%nat eqn:E; bprop; [|done]);
    simpl in E; try discriminate; by (destruct s; [|discriminate E]).
Qed.

(** C24. [ray_parse_i64] is exactly the character-by-character reading: the
    SWAR chunks, the leading-zero strip and the 19-digit cap neither accept an
    out-of-range literal, nor reject one that fits, nor change its value, and
    [consumed] is the sign plus every leading digit. *)
Theorem ray_parse_i64_spec (src : list Z) :
  bytes_ok src -> ray_parse_i64 src = i64_spec src.
Proof. apply ray_parse_i64_ref. Qed.

Lemma ray_parse_i64_spec_witness :
  bytes_ok [45; 48; 57; 50; 50; 51; 51; 55; 50; 48; 51; 54; 56; 53; 52; 55; 55; 53; 56; 48; 56; 44] /\
  ray_parse_i64 [45; 48; 57; 50; 50; 51; 51; 55; 50; 48; 51; 54; 56; 53; 52; 55; 55; 53; 56; 48; 56; 44]
  = Some (21%nat, INT64_MIN).
Proof.
  assert (H : bytes_ok [45; 48; 57; 50; 50; 51; 51; 55; 50; 48; 51; 54; 56; 53; 52; 55; 55; 53; 56; 48; 56; 44])
    by (repeat constructor; unfold byte_ok; lia).
  split; [exact H|]. rewrite (ray_parse_i64_spec _ H). vm_compute. reflexivity.
Defined.

(** ** The SWAR primitives *)
Lemma is_4_digits_forallb p :
  bytes_ok p -> (4 <= length p)%nat -> ray_is_4_digits p = forallb IS_DIGIT (take 4 p).
Proof.
  intros Hp Hlen. unfold ray_is_4_digits, u32, wrap.
  rewrite <- swar_digits by auto with pq.
  rewrite length_take, Nat.min_l by done. reflexivity.
Qed.

Lemma tens_mask4 x0 x1 x2 x3 :
  0 <= x0 < 16 -> 0 <= x1 < 256 -> 0 <= x2 < 16 -> 0 <= x3 < 256 ->
  Z.land (x0 + 256 * (x1 + 256 * (x2 + 256 * x3))) 0x000F000F = x0 + 65536 * x2.
Proof.
  intros. pose proof (tens_mask8 x0 x1 x2 x3 0 0 0 0) as H8.
  change 0x000F000F with (Z.land 0x000F000F000F000F (Z.ones 32)). rewrite Z.land_assoc.
  rewrite <- (Z.add_0_r x3).
  change (x3 + 0) with (x3 + 256 * (0 + 256 * (0 + 256 * (0 + 256 * 0)))).
  rewrite H8, Z.land_ones by lia. rewrite Z.mod_small; lia.
Qed.

Lemma parse_4_digits_val p :
  (4 <= length p)%nat -> forallb IS_DIGIT (take 4 p) = true ->
  ray_parse_4_digits p = dv (take 4 p).
Proof.
  intros Hlen. do 4 (destruct p as [|? p]; [simpl in Hlen; lia|]). intros Hd.
  unfold IS_DIGIT in Hd. simpl in Hd. bprop.
  unfold ray_parse_4_digits, dv, digits_val, dval. simpl take. simpl le_load. simpl foldl.
  rewrite (u32_small (_ - _)) by lia.
  set (e0 := z - 48); set (e1 := z0 - 48); set (e2 := z1 - 48); set (e3 := z2 - 48).
  replace (_ - 0x30303030) with (e0 + 256 * (e1 + 256 * (e2 + 256 * e3))) by lia.
  rewrite Z.shiftr_div_pow2 by lia. change (2 ^ 8) with 256.
  replace (_ / 256) with (e1 + 256 * (e2 + 256 * (e3 + 256 * 0)))
    by (apply Z.div_unique with e0; lia).
  rewrite !tens_mask4 by lia. rewrite (u32_small (_ * 10 + _)) by lia.
  change 0xFFFF with (Z.ones 16). rewrite Z.land_ones, Z.shiftr_div_pow2 by lia.
  change (2 ^ 16) with 65536.
  replace (_ mod _) with (e0 * 10 + e1) by (apply Z.mod_unique with (e2 * 10 + e3); lia).
  replace (_ / _) with (e2 * 10 + e3) by (apply Z.div_unique with (e0 * 10 + e1); lia).
  rewrite u32_small by lia. lia.
Qed.

(** The SWAR primitives: the 8- and 4-byte tests accept exactly the blocks
    of decimal digits, whatever the bytes are (borrows and carries between
    lanes included), and on such blocks the folds give the decimal value. *)
Theorem swar_primitives (p : list Z) :
  bytes_ok p -> (8 <= length p)%nat ->
  ray_is_8_digits p = forallb IS_DIGIT (take 8 p) /\
  ray_is_4_digits p = forallb IS_DIGIT (take 4 p) /\
  (ray_is_8_digits p = true -> ray_parse_8_digits p = dv (take 8 p)) /\
  (ray_is_4_digits p = true -> ray_parse_4_digits p = dv (take 4 p)).
Proof.
  intros Hok Hl. rewrite is_8_digits_forallb, is_4_digits_forallb by (done || lia).
  split_and!; [done..| |]; intros Hd.
  - by apply parse_8_digits_val.
  - apply parse_4_digits_val; [lia|done].
Qed.

Lemma swar_primitives_witness :
  ray_is_8_digits [50; 48; 50; 52; 49; 50; 51; 49; 47] = true /\
  ray_parse_8_digits [50; 48; 50; 52; 49; 50; 51; 49; 47] = 20241231.
Proof.
  assert (Hok : bytes_ok [50; 48; 50; 52; 49; 50; 51; 49; 47])
    by (repeat constructor; unfold byte_ok; lia).
  destruct (swar_primitives [50; 48; 50; 52; 49; 50; 51; 49; 47] Hok ltac:(simpl; lia))
    as (H1 & _ & H3 & _).
  assert (Hd : ray_is_8_digits [50; 48; 50; 52; 49; 50; 51; 49; 47] = true)
    by (rewrite H1; reflexivity).
  split; [exact Hd|]. rewrite (H3 Hd). reflexivity.
Defined.

(** ** The hexadecimal parser *)
Definition is_hex (c : Z) : bool := match hex_digit c with Some _ => true | None => false end.
Definition hexval (c : Z) : Z := default 0 (hex_digit c).

Lemma hex_digit_range c d : hex_digit c = Some d -> 0 <= d < 16.
Proof. unfold hex_digit. repeat bif; intros [= <-]; lia. Qed.

Lemma hex_loop_spec s xs :
  (length xs <= 16)%nat -> Forall (fun d => 0 <= d < 16) xs ->
  hex_loop s (length xs) (digits_val 16 xs) =
  let ds := xs ++ take (16 - length xs) (hexval <$> prefix_while is_hex s) in
  (length ds, digits_val 16 ds).
Proof.
  revert xs. induction s as [|c s IH]; intros xs Hl HF; simpl.
  - by rewrite take_nil, app_nil_r.
  - destruct (length xs <? 16)%nat eqn:E; bprop.
    2: { replace (16 - length xs)%nat with 0%nat by lia. by rewrite app_nil_r. }
    assert (Hi : is_hex c = match hex_digit c with Some _ => true | None => false end) by done.
    assert (Hv : hexval c = default 0 (hex_digit c)) by done.
    destruct (hex_digit c) as [d|] eqn:Ed; rewrite Hi.
    2: { simpl. by rewrite take_nil, app_nil_r. }
    pose proof (hex_digit_range _ _ Ed) as Hd.
    pose proof (digits_val_bounds 16 xs ltac:(lia) HF) as Hb.
    assert (16 ^ length xs <= 16 ^ 15) by (apply Z.pow_le_mono_r; lia).
    rewrite u64_small by (rewrite Z.shiftl_mul_pow2; lia).
    rewrite lor_shiftl_add by lia. change (2 ^ 4) with 16. rewrite <- digits_val_snoc.
    replace (S (length xs)) with (length (xs ++ [d])) by (rewrite length_app; simpl; lia).
    rewrite IH.
    + rewrite length_app. simpl length. simpl fmap.
      replace (16 - length xs)%nat with (S (16 - (length xs + 1))) by lia. simpl take.
      rewrite Hv. simpl. by rewrite <- !app_assoc.
    + rewrite length_app. simpl. lia.
    + apply Forall_app. auto.
Qed.

(** [ray_parse_u64_hex] reads at most sixteen hex digits, in either case,
    as their base-16 value with no bit shifted out, and fails exactly when the
    text does not start with one. *)
Theorem ray_parse_u64_hex_spec (src : list Z) :
  let ds := take 16 (hexval <$> prefix_while is_hex src) in
  ray_parse_u64_hex src =
    (if (length ds =? 0)%nat then None else Some (length ds, digits_val 16 ds)) /\
  0 <= digits_val 16 ds < 2 ^ 64.
Proof.
  intros ds. unfold ray_parse_u64_hex.
  pose proof (hex_loop_spec src [] ltac:(simpl; lia) (Forall_nil_2 _)) as H.
  simpl in H. change (digits_val 16 []) with 0 in H. rewrite H. split; [done|].
  assert (HF : Forall (fun d => 0 <= d < 16) ds).
  { apply Forall_take, Forall_fmap. eapply Forall_impl; [apply (prefix_while_Forall is_hex)|].
    intros c Hc. unfold is_hex in Hc. unfold hexval. simpl.
    destruct (hex_digit c) eqn:E; [|discriminate]. by apply hex_digit_range in E. }
  pose proof (digits_val_bounds 16 ds ltac:(lia) HF).
  assert (16 ^ length ds <= 16 ^ 16); [|lia].
  apply Z.pow_le_mono_r; [lia|]. unfold ds. rewrite length_take. lia.
Qed.

(** ** The decimal scan against its reference *)
Fixpoint strip0 (s : list Z) : list Z :=
  match s with c :: s' => if c =? ch0 then strip0 s' else s | [] => [] end.

(** The scan state after the significant digits [xs] were read, [nf] of all
    the digits read so far being fraction digits. *)
Definition scanned (xs : list Z) (nf : Z) (i : nat) (h : bool) : f64_scan :=
  F64Scan i (dv (take 18 xs)) (Z.min 18 (length xs)) (Z.max 0 (length xs - 18) - nf) h.

Definition digits_ok (xs : list Z) : Prop := Forall (fun c => IS_DIGIT c = true) xs.

Lemma dv_take_snoc xs c :
  dv (take 18 (xs ++ [c])) = if Z.min 18 (length xs) <? 18 then dv (take 18 xs) * 10 + dval c
                             else dv (take 18 xs).
Proof.
  bif.
  - rewrite !take_ge by (rewrite ?length_app; simpl; lia).
    rewrite dv_app. unfold dv at 2, digits_val. simpl. lia.
  - rewrite take_app_le by lia. done.
Qed.

Lemma dv_take_bound xs : digits_ok xs -> 0 <= dv (take 18 xs) < 10 ^ Z.min 18 (length xs).
Proof.
  intros H. pose proof (dv_bounds (take 18 xs) (Forall_take _ _ _ H)) as Hb.
  rewrite length_take in Hb. replace (Z.min 18 (length xs)) with (Z.of_nat (18 `min` length xs)) by lia.
  done.
Qed.

Lemma dv_take_step xs c :
  digits_ok xs -> IS_DIGIT c = true -> Z.min 18 (length xs) < 18 ->
  u64 (u64 (dv (take 18 xs) * 10) + (c - ch0)) = dv (take 18 (xs ++ [c])).
Proof.
  intros Hx Hc Hl. pose proof (dv_take_bound xs Hx). apply IS_DIGIT_dval in Hc.
  assert (10 ^ Z.min 18 (length xs) <= 10 ^ 17) by (apply Z.pow_le_mono_r; lia).
  change (c - ch0) with (dval c). rewrite (u64_small (_ * 10)), u64_small by lia.
  rewrite dv_take_snoc. by rewrite (proj2 (Z.ltb_lt _ _)).
Qed.

Lemma f64_int_tail_spec s xs i h :
  digits_ok xs ->
  f64_int_tail s (scanned xs 0 i h) =
  let ds := prefix_while IS_DIGIT s in
  scanned (xs ++ ds) 0 (i + length ds) (h || (0 <? length ds)%nat).
Proof.
  revert xs i h. induction s as [|c s IH]; intros xs i h Hx; simpl.
  { by rewrite app_nil_r, Nat.add_0_r, orb_false_r. }
  destruct (IS_DIGIT c) eqn:Ec.
  2: { by rewrite app_nil_r, Nat.add_0_r, orb_false_r. }
  assert (Hx' : digits_ok (xs ++ [c])) by (apply Forall_app; auto).
  transitivity (f64_int_tail s (scanned (xs ++ [c]) 0 (S i) true)).
  - f_equal. unfold scanned. rewrite length_app. simpl.
    pose proof (dv_take_snoc xs c). bif; bprop.
    + rewrite dv_take_step by (done || lia). f_equal; lia.
    + rewrite H. f_equal; lia.
  - rewrite IH by done. cbv zeta. rewrite <- app_assoc, orb_true_r. f_equal; simpl; lia.
Qed.

Lemma f64_frac_tail_spec s xs nf i h :
  digits_ok xs ->
  f64_frac_tail s (scanned xs nf i h) =
  let ds := prefix_while IS_DIGIT s in
  scanned (xs ++ ds) (nf + length ds) (i + length ds) (h || (0 <? length ds)%nat).
Proof.
  revert xs nf i h. induction s as [|c s IH]; intros xs nf i h Hx; simpl.
  { by rewrite app_nil_r, Nat.add_0_r, orb_false_r, Z.add_0_r. }
  destruct (IS_DIGIT c) eqn:Ec.
  2: { by rewrite app_nil_r, Nat.add_0_r, orb_false_r, Z.add_0_r. }
  assert (Hx' : digits_ok (xs ++ [c])) by (apply Forall_app; auto).
  transitivity (f64_frac_tail s (scanned (xs ++ [c]) (nf + 1) (S i) true)).
  - f_equal. unfold scanned. rewrite length_app. simpl.
    pose proof (dv_take_snoc xs c). bif; bprop.
    + rewrite dv_take_step by (done || lia). f_equal; lia.
    + rewrite H. f_equal; lia.
  - rewrite IH by done. cbv zeta. rewrite <- app_assoc, orb_true_r. f_equal; simpl; lia.
Qed.

Lemma zeros_split s :
  exists z, prefix_while (Z.eqb ch0) s = replicate z ch0 /\ (z <= length s)%nat /\
    prefix_while IS_DIGIT s = replicate z ch0 ++ prefix_while IS_DIGIT (drop z s) /\
    strip0 (prefix_while IS_DIGIT s) = prefix_while IS_DIGIT (drop z s).
Proof.
  induction s as [|c s (z & H1 & H2 & H3 & H4)].
  - by exists 0%nat.
  - simpl. destruct (Z.eqb_spec ch0 c) as [<-|Hc].
    + exists (S z). simpl. rewrite H1, H3. split_and!; [done|lia|done|]. by rewrite <- H3.
    + exists 0%nat. simpl. split_and!; [done|lia|done|].
      destruct (IS_DIGIT c); [|done]. simpl. by rewrite (proj2 (Z.eqb_neq c ch0)) by congruence.
Qed.

Lemma f64_int_zeros_spec s i h :
  f64_int_zeros s (scanned [] 0 i h) =
  let z := length (prefix_while (Z.eqb ch0) s) in
  scanned [] 0 (i + z) (h || (0 <? z)%nat).
Proof.
  revert i h. induction s as [|c s IH]; intros i h; simpl.
  { by rewrite Nat.add_0_r, orb_false_r. }
  rewrite (Z.eqb_sym c). destruct (ch0 =? c); simpl.
  - change (F64Scan _ _ _ _ true) with (scanned [] 0 (S i) true).
    rewrite IH. cbv zeta. rewrite orb_true_r. f_equal; lia.
  - by rewrite Nat.add_0_r, orb_false_r.
Qed.

Lemma f64_frac_zeros_spec s nf i h :
  f64_frac_zeros s (scanned [] nf i h) =
  let z := length (prefix_while (Z.eqb ch0) s) in
  scanned [] (nf + z) (i + z) (h || (0 <? z)%nat).
Proof.
  revert nf i h. induction s as [|c s IH]; intros nf i h; simpl.
  { by rewrite Nat.add_0_r, orb_false_r, Z.add_0_r. }
  rewrite (Z.eqb_sym c). destruct (ch0 =? c); simpl.
  - replace (F64Scan _ _ _ _ true) with (scanned [] (nf + 1) (S i) true)
      by (unfold scanned; simpl; f_equal; lia).
    rewrite IH. cbv zeta. rewrite orb_true_r. f_equal; lia.
  - by rewrite Nat.add_0_r, orb_false_r, Z.add_0_r.
Qed.

Lemma f64_int_swar_spec src i h :
  bytes_ok src -> (i <= length src)%nat ->
  exists ys, f64_int_swar src (scanned [] 0 i h) =
      scanned ys 0 (i + length ys) (h || (0 <? length ys)%nat) /\
    digits_ok ys /\ drop i src = ys ++ drop (i + length ys) src.
Proof.
  intros Hok Hi. unfold f64_int_swar. simpl fs_i.
  destruct (i + 8 <=? length src)%nat eqn:E1; simpl; bprop.
  2: { exists []. simpl. rewrite Nat.add_0_r, orb_false_r. split_and!; [done|constructor|done]. }
  destruct (ray_is_8_digits (drop i src)) eqn:D1.
  2: { exists []. simpl. rewrite Nat.add_0_r, orb_false_r. split_and!; [done|constructor|done]. }
  destruct (swar_chunk src i Hok E1 D1) as (xs & L1 & F1 & V1 & P1).
  pose proof (dv_bounds _ F1) as B1. rewrite L1 in B1. rewrite V1.
  destruct ((i + 8 + 8 <=? length src)%nat && _) eqn:E2; bprop.
  - destruct (swar_chunk src (i + 8)) as (ys & L2 & F2 & V2 & P2); [done|lia|done|].
    pose proof (dv_bounds _ F2) as B2. rewrite L2 in B2. exists (xs ++ ys).
    rewrite V2, (u64_small (_ * 100000000)), u64_small by lia.
    unfold scanned. rewrite take_ge, length_app, L1, L2, dv_app, L2 by (rewrite length_app; lia).
    rewrite orb_true_r. split_and!; [f_equal; lia|by apply Forall_app|].
    rewrite P1 at 1. rewrite P2, app_assoc. do 2 f_equal. lia.
  - exists xs. unfold scanned. rewrite take_ge, L1, orb_true_r by lia. auto.
Qed.

Lemma f64_frac_swar_spec src xs nf i h :
  bytes_ok src -> (i <= length src)%nat -> digits_ok xs ->
  exists ys, f64_frac_swar src (scanned xs nf i h) =
      scanned (xs ++ ys) (nf + length ys) (i + length ys) (h || (0 <? length ys)%nat) /\
    digits_ok (xs ++ ys) /\ drop i src = ys ++ drop (i + length ys) src.
Proof.
  intros Hok Hi Hx. unfold f64_frac_swar. simpl fs_i. simpl fs_digits.
  bif.
  2: { exists []. simpl. by rewrite app_nil_r, Nat.add_0_r, Z.add_0_r, orb_false_r. }
  destruct (swar_chunk src i) as (ys & L & F & V & P); [done|lia|done|].
  pose proof (dv_bounds _ F) as B. rewrite L in B. exists ys.
  rewrite V. unfold scanned. simpl. rewrite !take_ge by (rewrite ?length_app; lia).
  pose proof (dv_bounds _ Hx).
  assert (10 ^ length xs <= 10 ^ 10) by (apply Z.pow_le_mono_r; lia).
  rewrite (u64_small (_ * 100000000)), u64_small by lia.
  rewrite dv_app, length_app, L, orb_true_r. split_and!; [f_equal; lia|by apply Forall_app|done].
Qed.

Lemma orb_lengths h (a b : nat) :
  (h || (0 <? a)%nat) || (0 <? b)%nat = h || (0 <? a + b)%nat.
Proof. destruct h, (Nat.ltb_spec 0 a), (Nat.ltb_spec 0 b), (Nat.ltb_spec 0 (a + b)); simpl; lia || done. Qed.

Lemma int_part_spec src i h :
  bytes_ok src -> (i <= length src)%nat ->
  let st := f64_int_zeros (drop i src) (scanned [] 0 i h) in
  let st := f64_int_swar src st in
  let ip := prefix_while IS_DIGIT (drop i src) in
  f64_int_tail (drop (fs_i st) src) st =
  scanned (strip0 ip) 0 (i + length ip) (h || (0 <? length ip)%nat).
Proof.
  intros Hok Hi. cbv zeta. rewrite f64_int_zeros_spec. cbv zeta.
  destruct (zeros_split (drop i src)) as (z & H1 & H2 & H3 & H4).
  rewrite H1, length_replicate, H4, H3, length_app, length_replicate.
  rewrite length_drop in H2. rewrite drop_drop in *.
  destruct (f64_int_swar_spec src (i + z) (h || (0 <? z)%nat)) as (ys & -> & Hy & Hd); [done|lia|].
  simpl fs_i. rewrite f64_int_tail_spec by done. cbv zeta. rewrite Hd, prefix_while_app by done.
  rewrite length_app, !orb_lengths. f_equal. lia.
Qed.

Lemma frac_rest_spec src xs nf i h :
  bytes_ok src -> (i <= length src)%nat -> digits_ok xs ->
  let st := f64_frac_swar src (scanned xs nf i h) in
  let pw := prefix_while IS_DIGIT (drop i src) in
  f64_frac_tail (drop (fs_i st) src) st =
  scanned (xs ++ pw) (nf + length pw) (i + length pw) (h || (0 <? length pw)%nat).
Proof.
  intros Hok Hi Hx. cbv zeta.
  destruct (f64_frac_swar_spec src xs nf i h Hok Hi Hx) as (ys & -> & Hy & Hd).
  simpl fs_i. rewrite f64_frac_tail_spec by done. cbv zeta.
  rewrite Hd, prefix_while_app by (by apply Forall_app in Hy as [_ ?]).
  rewrite length_app, orb_lengths, <- app_assoc. f_equal; lia.
Qed.

Lemma strip0_nonzero s c r : strip0 s = c :: r -> digits_ok s -> 1 <= dval c.
Proof.
  induction s as [|d s IH]; simpl; [done|]. intros E [Hd Hs]%Forall_cons.
  destruct (d =? ch0) eqn:E0; bprop; [by apply IH|].
  injection E as -> ->. apply IS_DIGIT_dval in Hd. unfold dval, ch0 in *. lia.
Qed.

Lemma strip0_ok s : digits_ok s -> digits_ok (strip0 s).
Proof.
  unfold digits_ok. induction s as [|d s IH]; simpl; [done|].
  intros H. destruct (d =? ch0); [|done]. apply IH. by apply Forall_cons in H as [_ ?].
Qed.

Lemma strip0_app s t : strip0 (s ++ t) = match strip0 s with [] => strip0 t | xs => xs ++ t end.
Proof. induction s as [|d s IH]; simpl; [done|]. by destruct (d =? ch0). Qed.

Lemma mantissa_zero s : digits_ok s -> (dv (take 18 (strip0 s)) =? 0) = (length (strip0 s) =? 0)%nat.
Proof.
  intros Hs. destruct (strip0 s) as [|c r] eqn:E; [done|].
  pose proof (strip0_nonzero _ _ _ E Hs). pose proof (strip0_ok _ Hs) as Hr. rewrite E in Hr.
  simpl take. rewrite dv_cons. apply Forall_cons in Hr as [_ Hr].
  pose proof (dv_bounds (take 17 r) (Forall_take _ _ _ Hr)).
  rewrite (proj2 (Z.eqb_neq _ _)); [done|nia].
Qed.

Lemma fraction_spec src ip j h :
  bytes_ok src -> (j < length src)%nat -> src.[j] = 46 -> digits_ok ip ->
  let fp := prefix_while IS_DIGIT (drop (S j) src) in
  f64_fraction src (scanned (strip0 ip) 0 j h) =
  scanned (strip0 (ip ++ fp)) (length fp) (S j + length fp) (h || (0 <? length fp)%nat).
Proof.
  intros Hok Hj Hdot Hip. cbv zeta. unfold f64_fraction. simpl fs_i. simpl fs_have.
  rewrite (proj2 (Nat.ltb_lt _ _) Hj), Hdot, Z.eqb_refl. cbv beta iota delta [andb].
  change (F64Scan (S j) _ _ _ h) with (scanned (strip0 ip) 0 (S j) h). simpl fs_mantissa.
  rewrite mantissa_zero, strip0_app by done.
  destruct (strip0 ip) as [|c r] eqn:E; simpl (length _ =? 0)%nat.
  - change (0 =? 0)%nat with true. cbv iota. simpl fs_i. rewrite f64_frac_zeros_spec. cbv zeta.
    destruct (zeros_split (drop (S j) src)) as (z & H1 & H2 & H3 & H4).
    rewrite H4, H3, H1, length_app, length_replicate. rewrite length_drop in H2.
    rewrite drop_drop in *. rewrite frac_rest_spec by (done || constructor || lia).
    rewrite orb_lengths. simpl app. f_equal; lia.
  - change (S (length r) =? 0)%nat with false. cbv iota.
    assert (digits_ok (c :: r)) by (rewrite <- E; by apply strip0_ok).
    rewrite frac_rest_spec by (done || lia). done.
Qed.

Lemma exp_loop_spec s i v cap :
  0 <= v <= 9999 ->
  let es := prefix_while IS_DIGIT s in
  let '(i', v', cap') := exp_loop s i v cap in
  i' = (i + length es)%nat /\
  (if cap' : bool then 10000 else v') =
  (if cap : bool then 10000 else Z.min 10000 (v * 10 ^ length es + dv es)).
Proof.
  revert i v cap. induction s as [|c s IH]; intros i v cap Hv; simpl.
  { split; [lia|]. destruct cap; [done|]. unfold dv, digits_val. simpl. lia. }
  destruct (IS_DIGIT c) eqn:Ec; simpl.
  2: { split; [lia|]. destruct cap; [done|]. unfold dv, digits_val. simpl. lia. }
  pose proof (IS_DIGIT_dval _ Ec) as Hc. unfold dval, ch0 in *. set (es := prefix_while IS_DIGIT s) in *.
  assert (Hes : 0 <= dv es) by (apply dv_bounds, prefix_while_Forall).
  rewrite dv_cons, Nat2Z.inj_succ, Z.pow_succ_r by lia. unfold dval.
  assert (0 < 10 ^ length es) by lia.
  bif.
  - specialize (IH (S i) (v * 10 + (c - 48)) cap ltac:(lia)). cbv zeta in IH.
    destruct (exp_loop _ _ _ _) as [[i' v'] cap']. destruct IH as [-> ->].
    split; [lia|]. destruct cap; [done|]. f_equal. lia.
  - specialize (IH (S i) v true ltac:(lia)). cbv zeta in IH.
    destruct (exp_loop _ _ _ _) as [[i' v'] cap']. destruct IH as [-> ->].
    split; [lia|]. destruct cap; [done|]. rewrite Z.min_l; [done|]. nia.
Qed.

Lemma f64_exponent_spec src st :
  f64_exponent src st =
  let '(e, k) := f64_exp_ref src (fs_i st) in
  F64Scan k (fs_mantissa st) (fs_digits st) (fs_offset st + e) (fs_have st).
Proof.
  assert (Hid : st = F64Scan (fs_i st) (fs_mantissa st) (fs_digits st) (fs_offset st + 0) (fs_have st))
    by (destruct st; simpl; f_equal; lia).
  unfold f64_exponent, f64_exp_ref. bif; [|exact Hid]. cbv zeta.
  set (k := if _ : bool then S (S (fs_i st)) else S (fs_i st)).
  pose proof (exp_loop_spec (drop k src) k 0 false ltac:(lia)) as Hx. cbv zeta in Hx.
  destruct (exp_loop _ _ _ _) as [[i' v'] cap']. destruct Hx as [-> ->].
  change (digits_val 10 _) with (dv (prefix_while IS_DIGIT (drop k src))).
  set (es := prefix_while IS_DIGIT (drop k src)).
  replace (k + length es =? k)%nat with (length es =? 0)%nat
    by (destruct (Nat.eqb_spec (length es) 0), (Nat.eqb_spec (k + length es) k); lia || done).
  destruct (length es =? 0)%nat; [exact Hid|]. simpl. by rewrite Z.mul_0_l.
Qed.

(** The float scanner reads a decimal literal exactly: the position after
    it, the value of its first eighteen significant digits (never wrapped), how
    many those are, and the power of ten that the dropped digits, the fraction
    and the exponent leave to apply; no digit means no number, and an exponent
    mark without digits is left unread. *)
Theorem f64_scan_number_spec (src : list Z) (i : nat) :
  bytes_ok src -> (i <= length src)%nat ->
  f64_scan_number src i =
  let '(ip, fp, j) := f64_digits src i in
  let sig := strip0 (ip ++ fp) in
  if (length (ip ++ fp) =? 0)%nat then None
  else
    let '(e, k) := f64_exp_ref src j in
    Some (F64Scan k (dv (take 18 sig)) (Z.min 18 (length sig))
            (Z.max 0 (length sig - 18) - length fp + e) true).
Proof.
  intros Hok Hi. unfold f64_scan_number.
  change (F64Scan i 0 0 0 false) with (scanned [] 0 i false).
  rewrite int_part_spec by done. unfold f64_digits.
  set (ip := prefix_while IS_DIGIT (drop i src)).
  set (j := (i + length ip)%nat).
  assert (Hip : digits_ok ip) by apply prefix_while_Forall.
  destruct ((j <? length src)%nat && _) eqn:Edot; bprop.
  - rewrite fraction_spec by done.
    simpl fs_have. rewrite length_app. destruct (length ip + _ =? 0)%nat eqn:El; bprop.
    + replace (length ip) with 0%nat by lia. by replace (length (prefix_while _ _)) with 0%nat by lia.
    + rewrite f64_exponent_spec. simpl fs_i.
      destruct (f64_exp_ref src _) as [e k].
      destruct (Nat.ltb_spec 0 (length ip)), (Nat.ltb_spec 0 (length (prefix_while IS_DIGIT (drop (S j) src))));
        done || lia.
  - assert (Hf : f64_fraction src (scanned (strip0 ip) 0 j (false || (0 <? length ip)%nat)) =
                 scanned (strip0 ip) 0 j (0 <? length ip)%nat).
    { unfold f64_fraction. simpl fs_i.
      destruct ((j <? length src)%nat && (src.[j] =? 46)) eqn:E; [bprop|done].
      destruct Edot; bprop; lia. }
    rewrite Hf, app_nil_r. simpl fs_have.
    destruct (length ip =? 0)%nat eqn:El; bprop; [by rewrite El|].
    rewrite (proj2 (Nat.ltb_lt _ _)) by lia. rewrite f64_exponent_spec. simpl fs_i.
    destruct (f64_exp_ref src j) as [e k]. unfold scanned. simpl. f_equal. 
Qed.

(** [-0.001230e+2x] from its second character. *)
Lemma f64_scan_number_spec_witness :
  f64_scan_number [45; 48; 46; 48; 48; 49; 50; 51; 48; 101; 43; 50; 120] 1
  = Some (F64Scan 12 1230 4 (-4) true).
Proof.
  assert (Hok : bytes_ok [45; 48; 46; 48; 48; 49; 50; 51; 48; 101; 43; 50; 120])
    by (repeat constructor; unfold byte_ok; lia).
  rewrite (f64_scan_number_spec _ 1 Hok) by (simpl; lia). vm_compute. reflexivity.
Defined.

(** ** How far the parsers read *)
Lemma prefix_in_src (src : list Z) (k : nat) :
  (k <= length src)%nat -> (k + length (prefix_while IS_DIGIT (drop k src)) <= length src)%nat.
Proof. intros Hk. pose proof (prefix_while_length IS_DIGIT (drop k src)) as Hl. rewrite length_drop in Hl. lia. Qed.

Lemma i64_used src u v : bytes_ok src -> ray_parse_i64 src = Some (u, v) ->
  (0 < u <= length src)%nat /\ INT64_MIN <= v <= INT64_MAX.
Proof.
  intros Hok. rewrite ray_parse_i64_ref by done. unfold i64_spec.
  set (nk := match src with [] => _ | _ => _ end). assert (Hk : (nk.2 <= length src)%nat).
  { unfold nk. destruct src as [|c s]; [simpl; lia|]. destruct (c =? chMinus), (c =? chPlus); simpl; lia. }
  destruct nk as [neg k]. cbn [snd] in Hk. cbv zeta. destruct (_ && _ && _) eqn:E; [|done]. bprop. intros [= <- <-].
  pose proof (prefix_in_src src k Hk). lia.
Qed.

Lemma f64_exp_in_src src j : (j <= length src)%nat -> ((f64_exp_ref src j).2 <= length src)%nat.
Proof.
  intros Hj. unfold f64_exp_ref. destruct (_ && _) eqn:E; [|done]. bprop. cbv zeta.
  set (k := if _ : bool then S (S j) else S j). assert (Hk : (k <= length src)%nat) by (unfold k; bif; lia).
  bif; [done|]. by apply prefix_in_src.
Qed.

Lemma f64_scan_used src i st : bytes_ok src -> (i <= length src)%nat -> f64_scan_number src i = Some st -> (fs_i st <= length src)%nat.
Proof.
  intros Hok Hi. rewrite f64_scan_number_spec by done. unfold f64_digits. pose proof (prefix_in_src src i Hi) as Hp.
  assert (Hj : forall ip fp j, (j <= length src)%nat ->
    (let sig := strip0 (ip ++ fp) in
     if (length (ip ++ fp) =? 0)%nat then None
     else let '(e, k) := f64_exp_ref src j in
       Some (F64Scan k (dv (take 18 sig)) (Z.min 18 (length sig)) (Z.max 0 (length sig - 18) - length fp + e) true)) = Some st ->
    (fs_i st <= length src)%nat).
  { intros ip fp j Hj. cbv zeta. destruct (_ =? _)%nat; [done|]. pose proof (f64_exp_in_src src j Hj) as He.
    destruct (f64_exp_ref src j) as [e k]. by intros [= <-]. }
  cbv zeta. destruct (_ && _) eqn:E; bprop; apply Hj; [|done]. apply prefix_in_src. lia.
Qed.

Lemma f64_used strtod pow10 buf_ok src u v : bytes_ok src -> ray_parse_f64 strtod pow10 buf_ok src = Some (u, v) -> (u <= length src)%nat.
Proof.
  intros Hok. unfold ray_parse_f64. cbv zeta. destruct (length src =? 0)%nat eqn:E0; [done|]. bprop.
  set (i := if _ : bool then 1%nat else _). assert (Hi : (i <= length src)%nat) by (unfold i; repeat bif; lia).
  destruct (_ && icmp3 _ 110 97 110) eqn:E1; [intros [= <- _]; bprop; lia|].
  destruct (_ && icmp3 _ 105 110 102) eqn:E2; [intros [= <- _]; bprop; lia|].
  destruct (_ && (_ =? ch0) && _) eqn:E3; [intros [= <- _]; bprop; lia|].
  destruct (i =? length src)%nat; [done|]. destruct (f64_scan_number src i) as [st|] eqn:Es; [|done].
  pose proof (f64_scan_used src i st Hok Hi Es). destruct (f64_finalize _ _ _ _ _); by intros [= <- _].
Qed.
