(* ===== verification/Glob.v ===== *)
(** * Glob matching: [src/ops/glob.c]

    The iterative matcher with its single remembered star, the character
    classes, and the pre-compiled shapes, against a declarative matching
    relation.  A character is a [Z], the value of the [char]. *)
From S2P Require Import Prelude.

Definition cStar : Z := 42.
Definition cQuest : Z := 63.
Definition cOpen : Z := 91.
Definition cClose : Z := 93.
Definition cBang : Z := 33.
Definition cDash : Z := 45.

(** ** The matcher *)
Definition to_lower (c : Z) : Z := if (65 <=? c) && (c <=? 90) then c + 32 else c.
Definition fold_case (ci : bool) (c : Z) : Z := if ci then to_lower c else c.

(** The loop of [match_class] over the unread part [s] of the pattern, from
    position [i]; the result is the position after the class and [matched]. *)
Fixpoint class_loop (s : list Z) (i : nat) (first matched : bool) (ch : Z) (ci : bool)
  : nat * bool :=
  match s with
  | [] => (i, matched)
  | x :: s1 =>
      if first || negb (x =? cClose) then
        let lo := fold_case ci x in
        match s1 with
        | y :: z :: s3 =>
            if (y =? cDash) && negb (z =? cClose) then
              let hi := fold_case ci z in
              class_loop s3 (i + 3) false (matched || ((lo <=? ch) && (ch <=? hi))) ch ci
            else class_loop s1 (S i) false (matched || (ch =? lo)) ch ci
        | _ => class_loop s1 (S i) false (matched || (ch =? lo)) ch ci
        end
      else (S i, matched)
  end.

Definition match_class (p : list Z) (pi : nat) (c : Z) (ci : bool) : nat * bool :=
  let neg := (pi <? length p)%nat && (p.[pi] =? cBang) in
  let i := if neg then S pi else pi in
  let '(i, matched) := class_loop (drop i p) i true false (fold_case ci c) ci in
  (i, if neg then negb matched else matched).

(** [while (si < sn)]: [Some (Some pi)] when the loop ends with the input
    consumed, [Some None] for [return false], [None] when [fuel] runs out. *)
Fixpoint glob_loop (fuel : nat) (s p : list Z) (ci : bool) (si pi : nat)
  (star : option (nat * nat)) : option (option nat) :=
  match fuel with
  | O => None
  | S fuel =>
      if (si <? length s)%nat then
        let backtrack :=
          match star with
          | Some (star_pi, star_si) =>
              glob_loop fuel s p ci (S star_si) (S star_pi) (Some (star_pi, S star_si))
          | None => Some None
          end in
        if (pi <? length p)%nat && (p.[pi] =? cStar) then
          glob_loop fuel s p ci si (S pi) (Some (pi, si))
        else if (pi <? length p)%nat && (p.[pi] =? cQuest) then
          glob_loop fuel s p ci (S si) (S pi) star
        else if (pi <? length p)%nat && (p.[pi] =? cOpen) then
          let '(cls_pi, m) := match_class p (S pi) s.[si] ci in
          if m then glob_loop fuel s p ci (S si) cls_pi star else backtrack
        else if (pi <? length p)%nat then
          if fold_case ci s.[si] =? fold_case ci p.[pi]
          then glob_loop fuel s p ci (S si) (S pi) star else backtrack
        else backtrack
      else Some (Some pi)
  end.

(** [while (pi < pn && p[pi] == '*') pi++], over the unread pattern. *)
Fixpoint skip_stars (s : list Z) (pi : nat) : nat :=
  match s with
  | c :: s' => if c =? cStar then skip_stars s' (S pi) else pi
  | [] => pi
  end.

Definition glob_fuel (s p : list Z) : nat := S (S (length s) * S (length p)).

Definition glob_impl (s p : list Z) (ci : bool) : bool :=
  match glob_loop (glob_fuel s p) s p ci 0 0 None with
  | Some (Some pi) => (skip_stars (drop pi p) pi =? length p)%nat
  | _ => false
  end.

Definition ray_glob_match (s p : list Z) : bool := glob_impl s p false.
Definition ray_glob_match_ci (s p : list Z) : bool := glob_impl s p true.

(** ** Pre-compiled shapes *)
Inductive ray_glob_shape_t :=
  RAY_GLOB_SHAPE_NONE | RAY_GLOB_SHAPE_EXACT | RAY_GLOB_SHAPE_PREFIX
| RAY_GLOB_SHAPE_SUFFIX | RAY_GLOB_SHAPE_CONTAINS | RAY_GLOB_SHAPE_ANY.

#[export] Instance shape_eq_dec : EqDecision ray_glob_shape_t.
Proof. solve_decision. Defined.

Record ray_glob_compiled_t := Compiled { shape : ray_glob_shape_t; lit : list Z }.

Definition is_meta (ch : Z) : bool := (ch =? cStar) || (ch =? cQuest) || (ch =? cOpen).

Definition ray_glob_compile (p : list Z) : ray_glob_compiled_t :=
  let pn := length p in
  if (pn =? 0)%nat then Compiled RAY_GLOB_SHAPE_EXACT p
  else
    let leading_star := p.[0] =? cStar in
    let trailing_star := (0 <? pn)%nat && (p.[pn - 1] =? cStar) && ((1 <? pn)%nat || negb leading_star) in
    let lo := if leading_star then 1%nat else 0%nat in
    let hi := if trailing_star then (pn - 1)%nat else pn in
    let mid := take (hi - lo) (drop lo p) in
    if existsb is_meta mid then Compiled RAY_GLOB_SHAPE_NONE []
    else
      Compiled
        (if leading_star && trailing_star then
           if (length mid =? 0)%nat then RAY_GLOB_SHAPE_ANY else RAY_GLOB_SHAPE_CONTAINS
         else if leading_star then RAY_GLOB_SHAPE_SUFFIX
         else if trailing_star then RAY_GLOB_SHAPE_PREFIX
         else RAY_GLOB_SHAPE_EXACT) mid.

Definition memeq (a b : list Z) : bool := bool_decide (a = b).

(** [memmem(s, sn, lit, lit_len) != NULL]: [lit] occurs in [s]. *)
Fixpoint memmem (s lit : list Z) : bool :=
  memeq (take (length lit) s) lit || match s with _ :: s' => memmem s' lit | [] => false end.

Definition ray_glob_match_compiled (c : ray_glob_compiled_t) (s : list Z) : bool :=
  let n := length (lit c) in
  match shape c with
  | RAY_GLOB_SHAPE_ANY => true
  | RAY_GLOB_SHAPE_EXACT => (length s =? n)%nat && memeq s (lit c)
  | RAY_GLOB_SHAPE_PREFIX => (n <=? length s)%nat && memeq (take n s) (lit c)
  | RAY_GLOB_SHAPE_SUFFIX => (n <=? length s)%nat && memeq (drop (length s - n) s) (lit c)
  | RAY_GLOB_SHAPE_CONTAINS =>
      if (n =? 0)%nat then true else if (length s <? n)%nat then false else memmem s (lit c)
  | RAY_GLOB_SHAPE_NONE => false
  end.

(** ** The matching relation

    [elem p ci pi c] is the position after the pattern element at [pi] when
    that element (not a star) accepts the character [c]. *)
Definition elem (p : list Z) (ci : bool) (pi : nat) (c : Z) : option nat :=
  if (length p <=? pi)%nat then None
  else if p.[pi] =? cQuest then Some (S pi)
  else if p.[pi] =? cOpen then
    let '(e, m) := match_class p (S pi) c ci in if m then Some e else None
  else if fold_case ci c =? fold_case ci p.[pi] then Some (S pi) else None.

Definition star_at (p : list Z) (pi : nat) : bool :=
  (pi <? length p)%nat && (p.[pi] =? cStar).

(** [gmatch pi l]: the pattern from position [pi] matches all of [l]. *)
Inductive gmatch (p : list Z) (ci : bool) : nat -> list Z -> Prop :=
| gm_end : gmatch p ci (length p) []
| gm_star pi l1 l2 : star_at p pi = true -> gmatch p ci (S pi) l2 -> gmatch p ci pi (l1 ++ l2)
| gm_elem pi pi' c l : star_at p pi = false -> elem p ci pi c = Some pi' ->
    gmatch p ci pi' l -> gmatch p ci pi (c :: l).

(** ** Lemmas on pattern elements *)
Lemma class_loop_cons x s1 i first m ch ci :
  class_loop (x :: s1) i first m ch ci =
  if first || negb (x =? cClose) then
    match s1 with
    | y :: z :: s3 =>
        if (y =? cDash) && negb (z =? cClose) then
          class_loop s3 (i + 3) false
            (m || ((fold_case ci x <=? ch) && (ch <=? fold_case ci z))) ch ci
        else class_loop s1 (S i) false (m || (ch =? fold_case ci x)) ch ci
    | _ => class_loop s1 (S i) false (m || (ch =? fold_case ci x)) ch ci
    end
  else (S i, m).
Proof. by destruct s1 as [|y [|z s3]]. Qed.

(** Induction for [class_loop]: it consumes one or three characters. *)
Lemma list_ind13 (Q : list Z -> Prop) :
  Q [] -> (forall x s1, Q s1 -> (forall y z s3, s1 = y :: z :: s3 -> Q s3) -> Q (x :: s1)) ->
  forall s, Q s.
Proof.
  intros H0 Hc s. assert (H : forall n s, (length s <= n)%nat -> Q s); [|by apply (H (length s))].
  clear s. induction n as [|n IH]; intros [|x s1] Hl; simpl in Hl; [done|lia|done|].
  apply Hc; [apply IH; lia|]. intros y z s3 ->. apply IH. simpl in Hl. lia.
Qed.

Lemma class_loop_end s i first m m' ch ch' ci :
  fst (class_loop s i first m ch ci) = fst (class_loop s i first m' ch' ci).
Proof.
  revert i first m m'. induction s as [|x s1 IH IH3] using list_ind13; intros i first m m'; [done|].
  rewrite !class_loop_cons. destruct (first || _); [|done].
  destruct s1 as [|y [|z s3]]; [apply IH..|].
  destruct ((y =? cDash) && _); [by eapply IH3|apply IH].
Qed.

Lemma class_loop_bound s i first m ch ci :
  (i <= fst (class_loop s i first m ch ci) <= i + length s)%nat.
Proof.
  revert i first m. induction s as [|x s1 IH IH3] using list_ind13; intros i first m; [simpl; lia|].
  rewrite class_loop_cons. simpl (length (x :: s1)). destruct (first || _); [|simpl; lia].
  pose proof (IH (S i) false (m || (ch =? fold_case ci x))).
  destruct s1 as [|y [|z s3]]; [lia..|].
  destruct ((y =? cDash) && _); [|lia].
  pose proof (IH3 y z s3 eq_refl (i + 3)%nat false
    (m || ((fold_case ci x <=? ch) && (ch <=? fold_case ci z)))). simpl in *. lia.
Qed.

Section matcher.
Context (p : list Z) (ci : bool).
#[local] Abbreviation elem := (elem p ci).
#[local] Abbreviation gmatch := (gmatch p ci).
#[local] Abbreviation star_at := (star_at p).

(** The position after an element does not depend on the character. *)
Definition elem_next (pi : nat) : nat :=
  if p.[pi] =? cQuest then S pi
  else if p.[pi] =? cOpen then fst (match_class p (S pi) 0 ci) else S pi.

Lemma match_class_end pi c c' : fst (match_class p pi c ci) = fst (match_class p pi c' ci).
Proof.
  unfold match_class. cbv zeta.
  pose proof (class_loop_end (drop (if (pi <? length p)%nat && (p.[pi] =? cBang) then S pi else pi) p)
    (if (pi <? length p)%nat && (p.[pi] =? cBang) then S pi else pi) true false false
    (fold_case ci c) (fold_case ci c') ci) as H.
  destruct (class_loop _ _ _ _ (fold_case ci c) _), (class_loop _ _ _ _ (fold_case ci c') _).
  exact H.
Qed.

Lemma match_class_bound pi c :
  (pi <= length p)%nat -> (pi <= fst (match_class p pi c ci) <= length p)%nat.
Proof.
  intros Hpi. unfold match_class. cbv zeta.
  set (i := if _ : bool then S pi else pi).
  assert (pi <= i <= length p)%nat.
  { unfold i. destruct (Nat.ltb_spec pi (length p)), (p.[pi] =? cBang); simpl; lia. }
  pose proof (class_loop_bound (drop i p) i true false (fold_case ci c) ci) as H1.
  rewrite length_drop in H1. destruct (class_loop _ _ _ _ _ _). simpl in *. lia.
Qed.

Lemma elem_spec pi c pi' :
  elem pi c = Some pi' -> (pi < length p)%nat /\ pi' = elem_next pi /\ (pi < pi' <= length p)%nat.
Proof.
  unfold Glob.elem, elem_next.
  destruct (length p <=? pi)%nat eqn:E; bprop; [done|].
  destruct (p.[pi] =? cQuest); [intros [= <-]; lia|].
  destruct (p.[pi] =? cOpen).
  - pose proof (match_class_bound (S pi) c ltac:(lia)) as H1.
    rewrite (match_class_end (S pi) 0 c). destruct (match_class _ _ _ _) as [e []]; [|done].
    simpl in *. intros [= <-]. lia.
  - bif; [|done]. intros [= <-]. lia.
Qed.

(** A star-free run of [k] elements from [a] to [b]. *)
Inductive path : nat -> nat -> nat -> Prop :=
| path_nil a : path 0 a a
| path_snoc k a b : path k a b -> star_at b = false -> (b < length p)%nat ->
    path (S k) a (elem_next b).

Lemma path_match k a b :
  path k a b -> forall l, gmatch a l -> (k <= length l)%nat /\ gmatch b (drop k l).
Proof.
  induction 1 as [a|k a b _ IH Hs Hb]; intros l Hl; [split; [lia|done]|].
  destruct (IH l Hl) as [Hk Hg]. remember (drop k l) as d eqn:Hd.
  destruct Hg as [|? l1 l2 Hst|? pi' c l' _ He Hm]; [lia|congruence|].
  apply elem_spec in He as (_ & -> & _).
  assert (Hlen : length (drop k l) = S (length l')) by (by rewrite <- Hd).
  rewrite length_drop in Hlen.
  replace (drop (S k) l) with l'; [split; [lia|done]|].
  by rewrite <- Nat.add_1_r, <- drop_drop, <- Hd.
Qed.

Lemma skip_stars_match pi :
  (pi <= length p)%nat ->
  (skip_stars (drop pi p) pi =? length p)%nat = true <-> gmatch pi [].
Proof.
  intros Hpi. remember (length p - pi)%nat as n eqn:Hn. revert pi Hpi Hn.
  induction n as [|n IH]; intros pi Hpi Hn.
  - rewrite drop_ge by lia. simpl. replace pi with (length p) by lia.
    rewrite Nat.eqb_refl. split; [constructor|done].
  - rewrite drop_rd_cons by lia. simpl.
    destruct (p.[pi] =? cStar) eqn:Es.
    + rewrite IH by lia. assert (Hst : star_at pi = true)
        by (unfold Glob.star_at; rewrite Es, (proj2 (Nat.ltb_lt _ _)) by lia; done).
      split; intros H.
      * by apply (gm_star p ci pi [] []).
      * remember [] as l eqn:Hl. destruct H as [|? l1 l2 _ H2|]; [lia| |done].
        by apply app_eq_nil in Hl as [-> ->].
    + split; intros H.
      * bprop. lia.
      * remember [] as l eqn:Hl. destruct H as [|? l1 l2 Hst _|]; [lia| |done].
        unfold Glob.star_at in Hst. by rewrite Es, andb_false_r in Hst.
Qed.

Lemma gmatch_star pi l :
  star_at pi = true ->
  gmatch pi l <-> exists t, (t <= length l)%nat /\ gmatch (S pi) (drop t l).
Proof.
  intros Hst. split.
  - destruct 1 as [|? l1 l2 _ H2|? ? ? ? Hn].
    + unfold Glob.star_at in Hst. rewrite Nat.ltb_irrefl in Hst. done.
    + exists (length l1). rewrite length_app, drop_app_length. split; [lia|done].
    + congruence.
  - intros (t & Ht & Hg). rewrite <- (take_drop t l). by constructor.
Qed.

(** ** The loop *)
Context (s : list Z).

(** One iteration, in terms of [elem]. *)
Lemma glob_loop_step fuel si pi star :
  (si < length s)%nat ->
  glob_loop (S fuel) s p ci si pi star =
  if star_at pi then glob_loop fuel s p ci si (S pi) (Some (pi, si))
  else match elem pi s.[si] with
       | Some pi' => glob_loop fuel s p ci (S si) pi' star
       | None => match star with
                 | Some (sp, ss) => glob_loop fuel s p ci (S ss) (S sp) (Some (sp, S ss))
                 | None => Some None
                 end
       end.
Proof.
  intros Hsi. cbn [glob_loop]. rewrite (proj2 (Nat.ltb_lt _ _) Hsi).
  unfold Glob.star_at, Glob.elem. rewrite Nat.leb_antisym.
  destruct (pi <? length p)%nat; simpl; [|done].
  destruct (p.[pi] =? cStar); [done|]. destruct (p.[pi] =? cQuest); [done|].
  destruct (p.[pi] =? cOpen).
  - by destruct (match_class _ _ _ _) as [e []].
  - by destruct (fold_case ci s.[si] =? fold_case ci p.[pi]).
Qed.

(** The loop state: the characters since the remembered star were consumed by
    star-free elements. *)
Definition loop_inv (si pi : nat) (star : option (nat * nat)) : Prop :=
  (si <= length s)%nat /\ (pi <= length p)%nat /\
  match star with
  | Some (sp, ss) => star_at sp = true /\ (ss <= si)%nat /\ path (si - ss) (S sp) pi
  | None => True
  end.

(** What is still to be decided: the current alternative, or a longer run for
    the remembered star. *)
Definition loop_target (si pi : nat) (star : option (nat * nat)) : Prop :=
  gmatch pi (drop si s) \/
  match star with
  | Some (sp, ss) => exists t, (ss < t <= length s)%nat /\ gmatch (S sp) (drop t s)
  | None => False
  end.

Definition loop_result (r : option nat) : Prop :=
  match r with Some pi => (skip_stars (drop pi p) pi =? length p)%nat = true | None => False end.

Definition loop_measure (pi : nat) (star : option (nat * nat)) : nat :=
  (length s - match star with Some (_, ss) => ss | None => 0 end) * S (length p) + (length p - pi).

Lemma star_at_lt pi : star_at pi = true -> (pi < length p)%nat.
Proof. unfold Glob.star_at. intros H. bprop. done. Qed.

Lemma target_done pi star :
  loop_inv (length s) pi star ->
  loop_result (Some pi) <-> loop_target (length s) pi star.
Proof.
  intros (_ & Hpi & Hst). unfold loop_result, loop_target.
  rewrite skip_stars_match, drop_ge by done. split; [by left|].
  intros [H|H]; [done|exfalso]. destruct star as [[sp ss]|]; [|done].
  destruct Hst as (_ & Hss & Hp), H as (t & Ht & Hg).
  apply (path_match _ _ _ Hp) in Hg as [Hk _]. rewrite length_drop in Hk. lia.
Qed.

Lemma target_star si pi star :
  loop_inv si pi star -> star_at pi = true ->
  loop_target si pi star <-> loop_target si (S pi) (Some (pi, si)).
Proof.
  intros (Hsi & _ & Hinv) Hst. transitivity (gmatch pi (drop si s)).
  - unfold loop_target. split; [|by left]. intros [H|H]; [done|].
    destruct star as [[sp ss]|]; [|done].
    destruct Hinv as (_ & Hss & Hp), H as (t & Ht & Hg).
    apply (path_match _ _ _ Hp) in Hg as [Hk Hg]. rewrite length_drop in Hk.
    apply gmatch_star in Hg as (u & Hu & Hg); [|done]. rewrite !length_drop in Hu.
    apply gmatch_star; [done|]. exists (t + (si - ss) + u - si)%nat.
    rewrite !drop_drop in Hg. rewrite drop_drop, length_drop. split; [lia|].
    replace (si + (t + (si - ss) + u - si))%nat with (t + (si - ss + u))%nat by lia. done.
  - rewrite gmatch_star by done. unfold loop_target. split.
    + intros (t & Ht & Hg). rewrite length_drop, drop_drop in *. destruct t as [|t].
      * left. by rewrite Nat.add_0_r in Hg.
      * right. exists (si + S t)%nat. split; [lia|done].
    + intros [H|(t & Ht & Hg)].
      * exists 0%nat. split; [lia|]. by rewrite drop_0.
      * exists (t - si)%nat. rewrite length_drop, drop_drop.
        replace (si + (t - si))%nat with t by lia. split; [lia|done].
Qed.

Lemma gmatch_elem_inv si pi :
  (si < length s)%nat -> star_at pi = false ->
  gmatch pi (drop si s) <->
  match elem pi s.[si] with Some pi' => gmatch pi' (drop (S si) s) | None => False end.
Proof.
  intros Hsi Hst. rewrite (drop_rd_cons s si) by done. split.
  - remember (s.[si] :: drop (S si) s) as l eqn:Hl.
    destruct 1 as [|? l1 l2 Hst' _|? ? c l' _ He Hm]; [done|congruence|].
    injection Hl as -> ->. by rewrite He.
  - destruct (elem pi s.[si]) eqn:He; [|done]. by apply gm_elem.
Qed.

Lemma glob_loop_spec fuel si pi star :
  loop_inv si pi star -> (loop_measure pi star < fuel)%nat ->
  exists r, glob_loop fuel s p ci si pi star = Some r /\
            (loop_result r <-> loop_target si pi star).
Proof.
  revert si pi star. induction fuel as [|fuel IH]; intros si pi star Hinv Hm; [lia|].
  destruct (decide (si < length s)%nat) as [Hsi|Hsi].
  2: { exists (Some pi). assert (si = length s) as -> by (destruct Hinv; lia).
       split; [|by apply target_done].
       cbn [glob_loop]. by rewrite Nat.ltb_irrefl. }
  rewrite glob_loop_step by done. unfold loop_measure in *.
  destruct (star_at pi) eqn:Hst.
  - pose proof (star_at_lt _ Hst).
    destruct (IH si (S pi) (Some (pi, si))) as (r & -> & Hr).
    + split_and!; [lia..|done|lia|]. rewrite Nat.sub_diag. constructor.
    + destruct Hinv as (_ & _ & Hinv). destruct star as [[sp ss]|]; [|nia].
      destruct Hinv as (_ & ? & _). nia.
    + exists r. split; [done|]. by rewrite target_star.
  - pose proof (gmatch_elem_inv si pi Hsi Hst) as Hg.
    destruct (elem pi s.[si]) as [pi'|] eqn:He.
    + apply elem_spec in He as (Hlt & -> & Hb).
      assert (Hinv' : loop_inv (S si) (elem_next pi) star).
      { destruct Hinv as (_ & _ & Hinv). split_and!; [lia..|].
        destruct star as [[sp ss]|]; [|done]. destruct Hinv as (H1 & H2 & H3).
        split_and!; [done|lia|]. replace (S si - ss)%nat with (S (si - ss)) by lia.
        by constructor. }
      destruct (IH _ _ _ Hinv') as (r & -> & Hr); [nia|].
      exists r. split; [done|]. rewrite Hr. unfold loop_target. by rewrite Hg.
    + destruct star as [[sp ss]|].
      * destruct Hinv as (_ & _ & Hsp & Hss & _). pose proof (star_at_lt _ Hsp).
        destruct (IH (S ss) (S sp) (Some (sp, S ss))) as (r & -> & Hr).
        { split_and!; [lia..|done|lia|]. rewrite Nat.sub_diag. constructor. }
        { nia. }
        exists r. split; [done|]. rewrite Hr. unfold loop_target. rewrite Hg. split.
        -- intros [H'|(t & Ht & H')]; right; [exists (S ss)|exists t]; split; lia || done.
        -- intros [[]|(t & Ht & H')]. destruct (decide (t = S ss)) as [->|]; [by left|].
           right. exists t. split; lia || done.
      * exists None. split; [done|]. unfold loop_result, loop_target. tauto.
Qed.
End matcher.

(** ** Patterns without metacharacters *)
Lemma gmatch_end_inv p ci l : gmatch p ci (length p) l -> l = [].
Proof.
  remember (length p) as n eqn:Hn. destruct 1 as [|? l1 l2 Hst|? pi' c l Hst He]; [done|..]; subst.
  - apply star_at_lt in Hst. lia.
  - apply elem_spec in He. lia.
Qed.

Lemma gmatch_star_end p ci l :
  (0 < length p)%nat -> p.[length p - 1] = cStar -> gmatch p ci (length p - 1) l.
Proof.
  intros Hp Hl. rewrite <- (app_nil_r l). apply gm_star.
  - unfold star_at. rewrite Hl, Z.eqb_refl, (proj2 (Nat.ltb_lt _ _)) by lia. done.
  - replace (S (length p - 1)) with (length p) by lia. constructor.
Qed.

Lemma gmatch_lit p a n l :
  (a + n <= length p)%nat -> existsb is_meta (take n (drop a p)) = false ->
  gmatch p false a l <-> exists l', l = take n (drop a p) ++ l' /\ gmatch p false (a + n) l'.
Proof.
  revert a l. induction n as [|n IH]; intros a l Hn Hm.
  - simpl. rewrite Nat.add_0_r. split; [eauto|]. by intros (l' & -> & H).
  - rewrite (drop_rd_cons p a) in Hm |- * by lia. simpl in Hm |- *.
    apply orb_false_iff in Hm as [Hc Hm]. unfold is_meta in Hc. bprop.
    assert (Hst : star_at p a = false)
      by (unfold star_at; rewrite (proj2 (Z.eqb_neq _ _)) by done; apply andb_false_r).
    assert (He : forall c, elem p false a c = if c =? p.[a] then Some (S a) else None).
    { intros c. unfold elem, fold_case. rewrite (proj2 (Nat.leb_gt _ _)) by lia.
      rewrite !(proj2 (Z.eqb_neq _ _)) by done. done. }
    replace (a + S n)%nat with (S a + n)%nat by lia. split.
    + intros Hg0. remember a as x eqn:Hx in Hg0.
      destruct Hg0 as [|x l1 l2 Hst'|x pi' c l Hst' Hel Hg]; [lia|subst x; congruence|subst x].
      rewrite He in Hel. destruct (Z.eqb_spec c p.[a]) as [->|]; [|done]. injection Hel as <-.
      apply (IH (S a)) in Hg as (l' & -> & Hg); [by exists l'|lia|done].
    + intros (l' & -> & Hg). apply gm_elem with (S a); [done|by rewrite He, Z.eqb_refl|].
      apply IH; [lia|done|by exists l'].
Qed.

Lemma memmem_spec s w :
  memmem s w = true <-> exists t, (t <= length s)%nat /\ take (length w) (drop t s) = w.
Proof.
  induction s as [|c s IH].
  - simpl. unfold memeq. rewrite orb_false_r, bool_decide_eq_true. split.
    + intros H. exists 0%nat. split; [lia|done].
    + intros (t & _ & H). by rewrite drop_nil in H.
  - simpl. unfold memeq. rewrite orb_true_iff, bool_decide_eq_true, IH. split.
    + intros [H|(t & Ht & H)]; [exists 0%nat|exists (S t)]; split; simpl; lia || done.
    + intros ([|t] & Ht & H); [by left|right; exists t; split; [lia|done]].
Qed.

Lemma take_eq_app (w l : list Z) : take (length w) l = w <-> exists l', l = w ++ l'.
Proof.
  split.
  - intros H. exists (drop (length w) l). by rewrite <- H at 1; rewrite take_drop.
  - intros (l' & ->). apply take_app_length.
Qed.

(** ** The claims *)

(** C23. The matcher is correct and its work is bounded: it returns within
    [(|s|+1)(|p|+1)] iterations for every pattern (no exponential backtracking),
    and it answers true exactly when the pattern matches the text. *)
Theorem glob_impl_correct (s p : list Z) (ci : bool) :
  (exists r, glob_loop (glob_fuel s p) s p ci 0 0 None = Some r) /\
  (glob_impl s p ci = true <-> gmatch p ci 0 s).
Proof.
  destruct (glob_loop_spec p ci s (glob_fuel s p) 0 0 None) as (r & Hr & Hspec).
  - split_and!; lia || done.
  - unfold loop_measure, glob_fuel. lia.
  - split; [by exists r|]. unfold glob_impl. rewrite Hr.
    unfold loop_target in Hspec. rewrite drop_0 in Hspec.
    destruct r as [pi|]; simpl in Hspec; [rewrite Hspec; tauto|].
    split; [done|]. intros. tauto.
Qed.

(** What each shape says of the pattern, once its middle [mid] has no
    metacharacter. *)
Lemma exact_correct s p :
  existsb is_meta p = false -> gmatch p false 0 s <-> s = p.
Proof.
  intros Hm. rewrite (gmatch_lit p 0 (length p)) by (rewrite ?drop_0, ?firstn_all; done || lia).
  rewrite drop_0, firstn_all. split.
  - intros (l' & -> & ->%gmatch_end_inv). by rewrite app_nil_r.
  - intros ->. exists []. rewrite app_nil_r. split; [done|constructor].
Qed.

Lemma prefix_correct s p :
  (0 < length p)%nat -> p.[length p - 1] = cStar ->
  existsb is_meta (take (length p - 1) p) = false ->
  gmatch p false 0 s <-> exists l', s = take (length p - 1) p ++ l'.
Proof.
  intros Hp Hl Hm. rewrite (gmatch_lit p 0 (length p - 1)) by (rewrite ?drop_0; done || lia).
  rewrite drop_0. split; [by intros (l' & ? & _); exists l'|].
  intros (l' & ->). exists l'. split; [done|by apply gmatch_star_end].
Qed.

Lemma suffix_correct s p :
  (0 < length p)%nat -> p.[0] = cStar -> existsb is_meta (drop 1 p) = false ->
  gmatch p false 0 s <-> exists t, (t <= length s)%nat /\ drop t s = drop 1 p.
Proof.
  intros Hp H0 Hm. rewrite gmatch_star by
    (unfold star_at; rewrite H0, (proj2 (Nat.ltb_lt _ _)) by done; done).
  apply ex_iff. intros t. apply and_iff_compat_l.
  assert (Hfull : take (length p - 1) (drop 1 p) = drop 1 p)
    by (apply take_ge; rewrite length_drop; lia).
  rewrite (gmatch_lit p 1 (length p - 1)) by (rewrite ?Hfull; done || lia). rewrite Hfull.
  replace (1 + (length p - 1))%nat with (length p) by lia. split.
  - intros (l' & -> & ->%gmatch_end_inv). by rewrite app_nil_r.
  - intros ->. exists []. rewrite app_nil_r. split; [done|constructor].
Qed.

Lemma contains_correct s p :
  (1 < length p)%nat -> p.[0] = cStar -> p.[length p - 1] = cStar ->
  existsb is_meta (take (length p - 2) (drop 1 p)) = false ->
  gmatch p false 0 s <->
  exists t, (t <= length s)%nat /\ exists l', drop t s = take (length p - 2) (drop 1 p) ++ l'.
Proof.
  intros Hp H0 Hl Hm. rewrite gmatch_star by
    (unfold star_at; rewrite H0, (proj2 (Nat.ltb_lt _ _)) by lia; done).
  apply ex_iff. intros t. apply and_iff_compat_l.
  rewrite (gmatch_lit p 1 (length p - 2)) by (done || lia).
  replace (1 + (length p - 2))%nat with (length p - 1)%nat by lia. split.
  - intros (l' & ? & _). by exists l'.
  - intros (l' & ->). exists l'. split; [done|]. apply gmatch_star_end; [lia|done].
Qed.

Lemma compiled_exact s w :
  ray_glob_match_compiled (Compiled RAY_GLOB_SHAPE_EXACT w) s = true <-> s = w.
Proof.
  cbn. unfold memeq. rewrite andb_true_iff, bool_decide_eq_true, Nat.eqb_eq.
  split; [tauto|]. by intros ->.
Qed.

Lemma compiled_prefix s w :
  ray_glob_match_compiled (Compiled RAY_GLOB_SHAPE_PREFIX w) s = true <-> exists l', s = w ++ l'.
Proof.
  cbn. unfold memeq. rewrite andb_true_iff, bool_decide_eq_true, Nat.leb_le, take_eq_app.
  split; [tauto|]. intros [l' ->]. rewrite length_app. split; [lia|by exists l'].
Qed.

Lemma compiled_suffix s w :
  ray_glob_match_compiled (Compiled RAY_GLOB_SHAPE_SUFFIX w) s = true <->
  exists t, (t <= length s)%nat /\ drop t s = w.
Proof.
  cbn. unfold memeq. rewrite andb_true_iff, bool_decide_eq_true, Nat.leb_le. split.
  - intros [Hl Hd]. exists (length s - length w)%nat. split; [lia|done].
  - intros (t & Ht & <-). rewrite length_drop. split; [lia|].
    f_equal. lia.
Qed.

Lemma compiled_contains s w :
  ray_glob_match_compiled (Compiled RAY_GLOB_SHAPE_CONTAINS w) s = true <->
  exists t, (t <= length s)%nat /\ exists l', drop t s = w ++ l'.
Proof.
  cbn. transitivity (exists t, (t <= length s)%nat /\ take (length w) (drop t s) = w).
  2: { apply ex_iff. intros t. by rewrite take_eq_app. }
  destruct (length w =? 0)%nat eqn:E0; [|destruct (length s <? length w)%nat eqn:E1]; bprop.
  - destruct w; [|discriminate E0]. split; [|done]. intros _. exists 0%nat. split; [lia|done].
  - split; [done|]. intros (t & Ht & H). apply (f_equal length) in H.
    rewrite length_take, length_drop in H. lia.
  - apply memmem_spec.
Qed.

(** C38. A pattern that compiles to a simple shape is matched by the shape's
    prefix, suffix, substring or equality test exactly as by the general
    matcher. *)
Theorem ray_glob_compile_correct (s p : list Z) :
  shape (ray_glob_compile p) <> RAY_GLOB_SHAPE_NONE ->
  ray_glob_match_compiled (ray_glob_compile p) s = ray_glob_match s p.
Proof.
  intros Hshape. apply eq_true_iff_eq. unfold ray_glob_match.
  rewrite (proj2 (glob_impl_correct s p false)).
  revert Hshape. unfold ray_glob_compile. cbv zeta.
  destruct (length p =? 0)%nat eqn:E0; bprop.
  { destruct p; [|discriminate E0]. by rewrite compiled_exact, exact_correct. }
  destruct (p.[0] =? cStar) eqn:Elead;
    destruct ((0 <? length p)%nat && (p.[length p - 1] =? cStar) && _) eqn:Etrail;
    set (w := take _ (drop _ p)); cbn [andb];
    (destruct (existsb is_meta w) eqn:Em; [by intros []|intros _]); bprop.
  - assert (Hlen : (1 < length p)%nat) by (by destruct H0; bprop).
    assert (Hw : take (length p - 2) (drop 1 p) = w) by (unfold w; f_equal; lia).
    rewrite contains_correct by (rewrite ?Hw; done). rewrite Hw, <- compiled_contains.
    destruct (length w =? 0)%nat eqn:Ew; [|done]. cbn. by rewrite Ew.
  - rewrite suffix_correct by (done || lia || by rewrite <- (take_ge (drop 1 p) (length p - 1))
      by (rewrite length_drop; lia)).
    rewrite compiled_suffix. unfold w. rewrite take_ge by (rewrite length_drop; lia). done.
  - assert (Hw : take (length p - 1) p = w) by (unfold w; rewrite drop_0; f_equal; lia).
    rewrite prefix_correct by (rewrite ?Hw; done || lia). by rewrite Hw, compiled_prefix.
  - assert (Hw : p = w) by (unfold w; rewrite drop_0, take_ge by lia; done).
    rewrite compiled_exact, exact_correct by (rewrite Hw; done). by rewrite <- Hw.
Qed.

Lemma ray_glob_compile_correct_witness :
  shape (ray_glob_compile [42; 98; 97; 42]) <> RAY_GLOB_SHAPE_NONE /\
  ray_glob_match [97; 98; 97; 99] [42; 98; 97; 42] = true.
Proof.
  assert (H : shape (ray_glob_compile [42; 98; 97; 42]) <> RAY_GLOB_SHAPE_NONE)
    by (vm_compute; discriminate).
  split; [exact H|]. rewrite <- (ray_glob_compile_correct [97; 98; 97; 99] _ H).
  vm_compute. reflexivity.
Defined.
