(* ===== verification/Timer.v ===== *)
(** * The timer heap: [src/core/timer.c]

    A min-heap on (deadline, id) with the add, delete and fire operations.  The
    array [heap[0..n)] is a list of [n] timers and [cap] its allocated size; a
    write at or past [cap] is an explicit [Fault]. *)
From S2P Require Import Prelude.
From Stdlib Require Import Permutation Zify ZifyNat.
#[local] Ltac Zify.zify_post_hook ::= Z.to_euclidean_division_equations.

(** ** Data *)
Record ray_timer_t := Timer { id : Z; tic_ms : Z; exp_ms : Z; num : Z; fn : Z }.
Record ray_timers_t := Timers { heap : list ray_timer_t; cap : nat; next_id : Z }.

#[export] Instance timer_eq_dec : EqDecision ray_timer_t.
Proof. solve_decision. Defined.
#[export] Instance timer_inhabited : Inhabited ray_timer_t := populate (Timer 0 0 0 0 0).

Definition nt (t : ray_timers_t) : nat := length (heap t).

(** ** Heap primitives *)
Definition heap_less (a b : ray_timer_t) : bool :=
  if negb (exp_ms a =? exp_ms b) then exp_ms a <? exp_ms b else id a <? id b.

Definition heap_swap (h : list ray_timer_t) (i j : nat) : list ray_timer_t :=
  <[j := h !!! i]> (<[i := h !!! j]> h).

(** [fuel] bounds the climb; the index itself is enough. *)
Fixpoint heap_up (fuel : nat) (h : list ray_timer_t) (i : nat) : list ray_timer_t :=
  match fuel with
  | O => h
  | S fuel =>
      if (0 <? i)%nat then
        let parent := ((i - 1) / 2)%nat in
        if heap_less (h !!! i) (h !!! parent) then heap_up fuel (heap_swap h i parent) parent
        else h
      else h
  end.

(** The smallest of a node and its children below [n]. *)
Definition heap_best (h : list ray_timer_t) (n i : nat) : nat :=
  let l := (2 * i + 1)%nat in
  let r := (2 * i + 2)%nat in
  let best := i in
  let best := if (l <? n)%nat && heap_less (h !!! l) (h !!! best) then l else best in
  if (r <? n)%nat && heap_less (h !!! r) (h !!! best) then r else best.

(** [n - i] is enough fuel for the descent. *)
Fixpoint heap_down (fuel : nat) (h : list ray_timer_t) (n i : nat) : list ray_timer_t :=
  match fuel with
  | O => h
  | S fuel =>
      let best := heap_best h n i in
      if (best =? i)%nat then h else heap_down fuel (heap_swap h i best) n best
  end.

(** ** Operations

    [grow_ok] and [alloc_ok] say whether the system allocator served the call;
    [now] is the reading of the monotonic clock. *)
Definition ray_timers_create (initial_cap : Z) : ray_timers_t :=
  Timers [] (Z.to_nat (if initial_cap <? 1 then 1 else initial_cap)) 0.

(** [t->heap[t->n] = timer; heap_up; t->n++]: [None] is a write past the array. *)
Definition heap_push (t : ray_timers_t) (timer : ray_timer_t) : option ray_timers_t :=
  if (nt t <? cap t)%nat then
    Some (Timers (heap_up (nt t) (heap t ++ [timer]) (nt t)) (cap t) (next_id t))
  else None.

Definition heap_grow (grow_ok : bool) (t : ray_timers_t) : option ray_timers_t :=
  if grow_ok then Some (Timers (heap t) (cap t * 2) (next_id t)) else None.

(** Result [(-1)] leaves the heap as it was, grown or not. *)
Definition ray_timers_add (grow_ok alloc_ok : bool) (now : Z) (t : ray_timers_t)
  (tic num : Z) (f : Z) : option (ray_timers_t * Z) :=
  let grown := if (cap t <=? nt t)%nat then heap_grow grow_ok t else Some t in
  match grown with
  | None => Some (t, -1)
  | Some t =>
      if alloc_ok then
        let tid := next_id t in
        let timer := Timer tid tic (i64 (now + tic)) num f in
        t' ← heap_push (Timers (heap t) (cap t) (i64 (tid + 1))) timer;
        Some (t', tid)
      else Some (t, -1)
  end.

(** Position of the timer with this id, as the linear scan finds it. *)
Fixpoint find_id (h : list ray_timer_t) (tid : Z) (i : nat) : option nat :=
  match h with
  | a :: h' => if id a =? tid then Some i else find_id h' tid (S i)
  | [] => None
  end.

Definition remove_at (h : list ray_timer_t) (i : nat) : list ray_timer_t :=
  let n := (length h - 1)%nat in
  let last := h !!! n in
  let h := take n h in
  if (i <? n)%nat then
    let h := <[i := last]> h in
    heap_up i (heap_down (n - i) h n i) i
  else h.

Definition ray_timers_del (t : ray_timers_t) (tid : Z) : ray_timers_t * bool :=
  match find_id (heap t) tid 0 with
  | Some i => (Timers (remove_at (heap t) i) (cap t) (next_id t), true)
  | None => (t, false)
  end.

Definition ray_timers_next_deadline_ms (t : ray_timers_t) : Z :=
  if (nt t =? 0)%nat then INT64_MAX else exp_ms (heap t !!! 0%nat).

(** Pop of the head: the tail takes its place and sifts down. *)
Definition heap_pop (t : ray_timers_t) : ray_timers_t :=
  let h := heap t in
  let n := (length h - 1)%nat in
  let last := h !!! n in
  let h := take n h in
  Timers (if (0 <? n)%nat then heap_down n (<[0%nat := last]> h) n 0 else h) (cap t) (next_id t).

(** ** Firing

    [call_fn1 timer now t] is the heap after the callback ran: a callback may
    itself add and delete timers. *)
Section fire.
Context (call_fn1 : ray_timer_t -> Z -> ray_timers_t -> ray_timers_t).

Inductive fired := Fired (t : ray_timers_t) | Fault.

(** One turn of the [while] body of [ray_timers_fire_expired]. *)
Definition fire_head (now : Z) (t : ray_timers_t) : fired :=
  let timer := heap t !!! 0%nat in
  let t := call_fn1 timer now (heap_pop t) in
  let again (k : Z) :=
    match heap_push t (Timer (id timer) (tic_ms timer) (i64 (exp_ms timer + tic_ms timer)) k (fn timer)) with
    | Some t => Fired t
    | None => Fault
    end in
  if num timer =? 0 then again 0
  else if 1 <? num timer then again (num timer - 1)
  else Fired t.

(** [clock k] is the [k]-th reading of the clock; [None]: out of fuel. *)
Fixpoint fire_loop (fuel : nat) (clock : nat -> Z) (k : nat) (t : ray_timers_t) : option fired :=
  if (0 <? nt t)%nat && (exp_ms (heap t !!! 0%nat) <=? clock k) then
    match fuel with
    | O => None
    | S fuel =>
        match fire_head (clock k) t with
        | Fired t => fire_loop fuel clock (S k) t
        | Fault => Some Fault
        end
    end
  else Some (Fired t).

Definition ray_timers_fire_expired (fuel : nat) (clock : nat -> Z) (t : ray_timers_t) : option fired :=
  if (nt t =? 0)%nat then Some (Fired t) else fire_loop fuel clock 0 t.
End fire.

(** ** Invariant *)
Definition tle (a b : ray_timer_t) : Prop := heap_less b a = false.
Definition par (i : nat) : nat := ((i - 1) / 2)%nat.

Definition heap_ok (h : list ray_timer_t) : Prop :=
  forall j, (0 < j < length h)%nat -> tle (h !!! par j) (h !!! j).

Record timers_wf (t : ray_timers_t) : Prop := {
  wf_order : heap_ok (heap t);
  wf_cap : (nt t <= cap t)%nat;
  wf_cap_pos : (0 < cap t)%nat;
  wf_ids : NoDup (id <$> heap t);
  wf_next : Forall (fun a => 0 <= id a < next_id t) (heap t);
  wf_next_pos : 0 <= next_id t
}.

(** ** The order *)
Lemma heap_less_spec a b :
  heap_less a b = true <-> exp_ms a < exp_ms b \/ (exp_ms a = exp_ms b /\ id a < id b).
Proof. unfold heap_less. bif; bprop; rewrite Z.ltb_lt; lia. Qed.

Lemma tle_spec a b : tle a b <-> exp_ms a < exp_ms b \/ (exp_ms a = exp_ms b /\ id a <= id b).
Proof. unfold tle, heap_less. destruct (Z.eqb_spec (exp_ms a) (exp_ms b)), (Z.eqb_spec (exp_ms b) (exp_ms a)); simpl; rewrite Z.ltb_ge; lia. Qed.

Lemma less_false_tle a b : heap_less a b = false <-> tle b a.
Proof. done. Qed.

Ltac tord := rewrite ?less_false_tle, ?tle_spec, ?heap_less_spec in *; lia.

Lemma tle_refl a : tle a a. Proof. tord. Qed.
Lemma tle_trans a b c : tle a b -> tle b c -> tle a c. Proof. intros; tord. Qed.
Lemma less_tle a b : heap_less a b = true -> tle a b. Proof. intros; tord. Qed.
#[local] Hint Resolve tle_refl less_tle : pq.

(** ** Exchange *)
Section swap.
Context (h : list ray_timer_t) (i j : nat) (Hi : (i < length h)%nat) (Hj : (j < length h)%nat).

Lemma swap_length : length (heap_swap h i j) = length h.
Proof using Type. unfold heap_swap. by rewrite !length_insert. Qed.

Lemma swap_lookup k :
  heap_swap h i j !!! k =
  if decide (k = j) then h !!! i else if decide (k = i) then h !!! j else h !!! k.
Proof using Hi Hj.
  unfold heap_swap. destruct (decide (k = j)) as [->|].
  - by rewrite list_lookup_total_insert_eq by (rewrite length_insert; done).
  - rewrite list_lookup_total_insert_ne by done. destruct (decide (k = i)) as [->|].
    + by rewrite list_lookup_total_insert_eq.
    + by rewrite list_lookup_total_insert_ne by done.
Qed.

Lemma swap_perm : heap_swap h i j ≡ₚ h.
Proof using Hi Hj.
  unfold heap_swap. apply lookup_lt_is_Some in Hi as [x Hx]. apply lookup_lt_is_Some in Hj as [y Hy].
  rewrite (list_lookup_total_correct _ _ _ Hx), (list_lookup_total_correct _ _ _ Hy).
  by apply Permutation_insert_swap.
Qed.
End swap.


(** ** Sifting *)
Lemma heap_up_length fuel h i : length (heap_up fuel h i) = length h.
Proof.
  revert h i. induction fuel as [|fuel IH]; intros h i; simpl; [done|].
  repeat bif; [|done..]. by rewrite IH, swap_length.
Qed.

Lemma heap_down_length fuel h n i : length (heap_down fuel h n i) = length h.
Proof.
  revert h i. induction fuel as [|fuel IH]; intros h i; simpl; [done|].
  bif; [done|]. by rewrite IH, swap_length.
Qed.

Lemma heap_up_perm fuel h i : (i < length h)%nat -> heap_up fuel h i ≡ₚ h.
Proof.
  revert h i. induction fuel as [|fuel IH]; intros h i Hi; simpl; [done|].
  fold (par i). assert (Hp : (par i < length h)%nat) by (unfold par; lia).
  repeat bif; [|done..]. rewrite IH by (rewrite swap_length; lia). by apply swap_perm.
Qed.

Lemma heap_best_cases h n i :
  let b := heap_best h n i in
  (b = i \/ (b = 2 * i + 1 \/ b = 2 * i + 2) /\ b < n /\ heap_less (h !!! b) (h !!! i) = true)%nat /\
  ((2 * i + 1 < n)%nat -> tle (h !!! b) (h !!! (2 * i + 1)%nat)) /\
  ((2 * i + 2 < n)%nat -> tle (h !!! b) (h !!! (2 * i + 2)%nat)).
Proof.
  cbv zeta. unfold heap_best. set (l := (2 * i + 1)%nat). set (r := (2 * i + 2)%nat).
  destruct ((l <? n)%nat && heap_less (h !!! l) (h !!! i)) eqn:E1; bprop.
  - destruct ((r <? n)%nat && heap_less (h !!! r) (h !!! l)) eqn:E2; bprop.
    + split_and!; [right; split_and!; [lia|done|tord]|auto with pq..].
    + split_and!; [right; auto|auto with pq|]. intros. destruct E2; bprop; [lia|done].
  - destruct ((r <? n)%nat && heap_less (h !!! r) (h !!! i)) eqn:E2; bprop.
    + split_and!; [right; auto| |auto with pq]. intros. destruct E1; bprop; [lia|tord].
    + split_and!; [by left|intros; destruct E1; bprop; lia || done|intros; destruct E2; bprop; lia || done].
Qed.

Lemma heap_down_perm fuel h n i :
  (n <= length h)%nat -> (i < n)%nat -> heap_down fuel h n i ≡ₚ h.
Proof.
  revert h i. induction fuel as [|fuel IH]; intros h i Hn Hi; simpl; [done|].
  destruct (heap_best_cases h n i) as ([Hb|(_ & Hb & _)] & _).
  - rewrite Hb, Nat.eqb_refl. done.
  - bif; [done|]. rewrite IH by (rewrite ?swap_length; lia). apply swap_perm; lia.
Qed.

(** Every edge is ordered except possibly the one above [i], whose two sides
    are ordered across [i]. *)
Definition up_hole (h : list ray_timer_t) (i : nat) : Prop :=
  (forall j, (0 < j < length h)%nat -> j <> i -> tle (h !!! par j) (h !!! j)) /\
  (forall j, (0 < j < length h)%nat -> par j = i -> (0 < i)%nat -> tle (h !!! par i) (h !!! j)).

(** ... and the ones below [i]. *)
Definition down_hole (h : list ray_timer_t) (i : nat) : Prop :=
  (forall j, (0 < j < length h)%nat -> j <> i -> par j <> i -> tle (h !!! par j) (h !!! j)) /\
  (forall j, (0 < j < length h)%nat -> par j = i -> (0 < i)%nat -> tle (h !!! par i) (h !!! j)).

Lemma heap_up_ok fuel h i :
  (i <= fuel)%nat -> (i < length h)%nat -> up_hole h i -> heap_ok (heap_up fuel h i).
Proof.
  revert h i. induction fuel as [|fuel IH]; intros h i Hf Hi [He Hc]; simpl.
  { intros j Hj. apply He; lia. }
  fold (par i). destruct (0 <? i)%nat eqn:E0; bprop.
  2: { intros j Hj. apply He; lia. }
  assert (Hp : (par i < i)%nat) by (unfold par; lia).
  destruct (heap_less (h !!! i) (h !!! par i)) eqn:El.
  2: { intros j Hj. destruct (decide (j = i)) as [->|]; [done|]. by apply He. }
  apply IH; [lia|rewrite swap_length; lia|]. split.
  - intros j. rewrite swap_length. intros Hj Hne. rewrite !swap_lookup by lia.
    destruct (decide (j = par i)) as [|_]; [done|].
    destruct (decide (j = i)) as [->|Hji].
    + rewrite decide_True by done. by apply less_tle.
    + destruct (decide (par j = par i)) as [Hpp|]; [|destruct (decide (par j = i)) as [Hpi|]].
      * eapply tle_trans; [by apply less_tle|]. rewrite <- Hpp. by apply He.
      * apply Hc; lia || done.
      * by apply He.
  - intros j. rewrite swap_length. intros Hj Hpj Hpos. rewrite !swap_lookup by lia.
    assert (par (par i) < par i)%nat by (unfold par in *; lia).
    rewrite (decide_False (P := par (par i) = par i)), (decide_False (P := par (par i) = i)) by lia.
    rewrite (decide_False (P := j = par i)) by (unfold par in *; lia).
    destruct (decide (j = i)) as [->|].
    + apply He; lia.
    + eapply tle_trans; [apply He; lia|]. rewrite <- Hpj. by apply He.
Qed.

Lemma heap_down_lt fuel h n i k :
  (n <= length h)%nat -> (i < n)%nat -> (k < i)%nat -> heap_down fuel h n i !!! k = h !!! k.
Proof.
  revert h i. induction fuel as [|fuel IH]; intros h i Hn Hi Hk; simpl; [done|].
  destruct (heap_best_cases h n i) as ([Hb|(Hb1 & Hb & _)] & _).
  - by rewrite Hb, Nat.eqb_refl.
  - bif; [done|]. rewrite IH by (rewrite ?swap_length; lia).
    rewrite swap_lookup by lia. rewrite !decide_False by lia. done.
Qed.

Lemma heap_down_ok fuel h i :
  (length h - i <= fuel)%nat -> (i < length h)%nat -> down_hole h i ->
  up_hole (heap_down fuel h (length h) i) i /\
  (forall v, tle v (h !!! i) -> (forall j, (0 < j < length h)%nat -> par j = i -> tle v (h !!! j)) ->
     tle v (heap_down fuel h (length h) i !!! i)).
Proof.
  revert h i. induction fuel as [|fuel IH]; intros h i Hf Hi [He Hc]; [lia|simpl].
  destruct (heap_best_cases h (length h) i) as (Hb & Hl & Hr).
  set (b := heap_best h (length h) i) in *.
  assert (Hmin : forall j, (0 < j < length h)%nat -> par j = i -> tle (h !!! b) (h !!! j)).
  { intros j Hj Hpj. assert (j = 2 * i + 1 \/ j = 2 * i + 2)%nat as [-> | ->]
      by (unfold par in *; lia); [apply Hl|apply Hr]; lia. }
  destruct Hb as [Hb|(Hbi & Hbn & Hless)].
  { rewrite Hb, Nat.eqb_refl in *. split; [split; [|done]|auto].
    intros j Hj Hne. destruct (decide (par j = i)) as [<-|]; [by apply Hmin|by apply He]. }
  rewrite (proj2 (Nat.eqb_neq _ _)) by lia.
  assert (Hparb : par b = i) by (unfold par; lia).
  set (h1 := heap_swap h i b) in *.
  assert (Hlen : length h1 = length h) by apply swap_length.
  assert (Hlk : forall k, h1 !!! k = if decide (k = b) then h !!! i else if decide (k = i) then h !!! b else h !!! k)
    by (intros; by apply swap_lookup).
  assert (Hh1i : h1 !!! i = h !!! b) by (rewrite Hlk; rewrite decide_False, decide_True by lia; done).
  assert (Hh1b : h1 !!! b = h !!! i) by (rewrite Hlk; rewrite decide_True by lia; done).
  assert (Hother : forall k, k <> i -> k <> b -> h1 !!! k = h !!! k)
    by (intros k ? ?; rewrite Hlk, !decide_False by done; done).
  destruct (IH h1 b) as ([He' Hc'] & Hv'); [lia|lia| |].
  { split; rewrite Hlen.
    - intros j Hj Hjb Hpb. destruct (decide (par j = i)) as [Hpi|Hpi].
      + rewrite Hpi, Hh1i, Hother by (unfold par in *; lia). by apply Hmin.
      + rewrite (Hother (par j)) by done. destruct (decide (j = i)) as [->|].
        * rewrite Hh1i. by apply Hc; lia || done.
        * rewrite Hother by done. by apply He.
    - intros j Hj Hpj _. rewrite Hparb, Hh1i. rewrite Hother by (unfold par in *; lia).
      rewrite <- Hpj. apply He; unfold par in *; lia. }
  rewrite Hlen in *. set (h2 := heap_down fuel h1 (length h) b) in *.
  assert (Hh2i : h2 !!! i = h !!! b).
  { unfold h2. rewrite heap_down_lt by (unfold par in *; lia). done. }
  assert (Hlen2 : length h2 = length h) by (unfold h2; rewrite heap_down_length; lia).
  assert (Hbot : tle (h !!! b) (h2 !!! b)).
  { apply Hv'; [rewrite Hh1b; by apply less_tle|]. intros j Hj Hpj.
    rewrite Hother by (unfold par in *; lia). rewrite <- Hpj. apply He; unfold par in *; lia. }
  split; [split; rewrite Hlen2 in *|].
  - intros j Hj Hne. destruct (decide (j = b)) as [->|]; [by rewrite Hparb, Hh2i|by apply He'].
  - intros j Hj Hpj Hpos. assert (Hpi : h2 !!! par i = h !!! par i).
    { unfold h2. rewrite heap_down_lt by (unfold par in *; lia). apply Hother; unfold par in *; lia. }
    rewrite Hpi. apply tle_trans with (h !!! b); [apply Hc; lia || done|].
    destruct (decide (j = b)) as [->|]; [done|]. rewrite <- Hh2i, <- Hpj. by apply He'.
  - intros v Hvx Hvc. rewrite Hh2i. apply Hvc; [lia|done].
Qed.

(** ** Whole-heap facts *)
Lemma heap_root h a : heap_ok h -> a ∈ h -> tle (h !!! 0%nat) a.
Proof.
  intros Hh [i Hi]%list_elem_of_lookup.
  rewrite <- (list_lookup_total_correct _ _ _ Hi). apply lookup_lt_Some in Hi. clear a.
  induction i as [i IH] using lt_wf_ind. destruct (decide (i = 0)%nat) as [->|]; [apply tle_refl|].
  apply tle_trans with (h !!! par i); [apply IH|apply Hh]; unfold par; lia.
Qed.

Lemma snoc_lookup_total (h : list ray_timer_t) a i :
  (i < length h)%nat -> (h ++ [a]) !!! i = h !!! i.
Proof. intros. by rewrite lookup_total_app_l. Qed.

Lemma heap_push_ok h a : heap_ok h -> heap_ok (heap_up (length h) (h ++ [a]) (length h)).
Proof.
  intros Hh. apply heap_up_ok; [lia|rewrite length_app; simpl; lia|].
  split; intros j; rewrite length_app; simpl; intros Hj Hne.
  - rewrite !snoc_lookup_total by (unfold par in *; lia). apply Hh. lia.
  - unfold par in *. lia.
Qed.

Lemma heap_push_perm h a : heap_up (length h) (h ++ [a]) (length h) ≡ₚ a :: h.
Proof. rewrite heap_up_perm by (rewrite length_app; simpl; lia). by rewrite Permutation_app_comm. Qed.

Lemma split_last (h : list ray_timer_t) :
  (0 < length h)%nat -> h = take (length h - 1) h ++ [h !!! (length h - 1)%nat].
Proof.
  intros Hn. destruct (lookup_lt_is_Some_2 h (length h - 1)) as [x Hx]; [lia|].
  rewrite (list_lookup_total_correct _ _ _ Hx). rewrite <- (take_drop (length h - 1) h) at 1.
  f_equal. rewrite (drop_S _ x _ Hx). rewrite drop_ge by lia. done.
Qed.

Section remove.
Context (h : list ray_timer_t) (i : nat) (Hi : (i < length h)%nat).

Lemma remove_at_perm : h ≡ₚ (h !!! i) :: remove_at h i.
Proof using Hi.
  unfold remove_at. set (n := (length h - 1)%nat). set (last := h !!! n).
  assert (Hl : length (take n h) = n) by (rewrite length_take; lia).
  pose proof (split_last h ltac:(lia)) as Hs. fold n last in Hs. bif.
  - rewrite heap_up_perm by (rewrite heap_down_length, length_insert; lia).
    rewrite heap_down_perm by (rewrite ?length_insert; lia).
    assert (Hx : take n h !! i = Some (h !!! i))
      by (rewrite lookup_take_lt by done; by apply list_lookup_lookup_total_lt).
    rewrite Hs at 1. rewrite (Permutation_app_comm _ [last]). simpl.
    rewrite <- (take_drop_middle _ _ _ Hx) at 1.
    rewrite insert_take_drop by lia. rewrite <- !Permutation_middle. constructor.
  - assert (i = n) as -> by lia. rewrite Hs at 1. by rewrite (Permutation_app_comm _ [_]).
Qed.

Lemma remove_at_ok : heap_ok h -> heap_ok (remove_at h i).
Proof using Hi.
  intros Hh. unfold remove_at. set (n := (length h - 1)%nat). set (last := h !!! n).
  assert (Hl : length (take n h) = n) by (rewrite length_take; lia).
  assert (Ht : forall k, (k < n)%nat -> take n h !!! k = h !!! k)
    by (intros k Hk; rewrite !list_lookup_total_alt, lookup_take_lt by done; done).
  bif.
  2: { intros j Hj. rewrite !Ht by (unfold par; lia). apply Hh. lia. }
  set (h2 := <[i:=last]> (take n h)).
  assert (Hl2 : length h2 = n) by (unfold h2; rewrite length_insert; done).
  assert (Hne : forall k, (k < n)%nat -> k <> i -> h2 !!! k = h !!! k)
    by (intros; unfold h2; rewrite list_lookup_total_insert_ne by done; by apply Ht).
  apply heap_up_ok; [done|rewrite heap_down_length; lia|]. rewrite <- Hl2 at 2.
  apply heap_down_ok; [lia|lia|]. split; rewrite Hl2.
  - intros j Hj ? ?. rewrite !Hne by (unfold par in *; lia). apply Hh; lia.
  - intros j Hj Hpj Hpos. rewrite !Hne by (unfold par in *; lia).
    apply tle_trans with (h !!! par j); [rewrite Hpj; apply Hh; lia|apply Hh; lia].
Qed.
End remove.

Lemma heap_pop_remove t : heap (heap_pop t) = remove_at (heap t) 0.
Proof. unfold remove_at. by rewrite Nat.sub_0_r. Qed.

Lemma find_id_spec h tid k :
  match find_id h tid k with
  | Some i => exists j, i = (k + j)%nat /\ (j < length h)%nat /\ id (h !!! j) = tid
  | None => tid ∉ id <$> h
  end.
Proof.
  revert k. induction h as [|a h IH]; intros k; simpl; [apply not_elem_of_nil|]. bif.
  - exists 0%nat. simpl. split_and!; [lia|lia|done].
  - specialize (IH (S k)). destruct (find_id h tid (S k)) as [i|].
    + destruct IH as (j & -> & ? & ?). exists (S j). simpl. split_and!; [lia|lia|done].
    + rewrite not_elem_of_cons. split; [congruence|done].
Qed.

(** ** Steps a program can take on the heap *)
Inductive timer_step : ray_timers_t -> ray_timers_t -> Prop :=
  | step_add grow_ok alloc_ok now tic num f t t' r :
      next_id t < INT64_MAX ->
      ray_timers_add grow_ok alloc_ok now t tic num f = Some (t', r) -> timer_step t t'
  | step_del tid t : timer_step t (ray_timers_del t tid).1.

(** What a sequence of steps can do to the ids: keep some and add fresh ones. *)
Record evolves (t t' : ray_timers_t) : Prop := {
  ev_wf : timers_wf t';
  ev_next : next_id t <= next_id t';
  ev_ids : Forall (fun a => id a ∈ id <$> heap t \/ next_id t <= id a) (heap t')
}.

Lemma evolves_refl t : timers_wf t -> evolves t t.
Proof.
  intros Hw. split; [done|lia|]. apply Forall_forall. intros a Ha. left. by apply list_elem_of_fmap_2.
Qed.

Lemma evolves_trans t1 t2 t3 : evolves t1 t2 -> evolves t2 t3 -> evolves t1 t3.
Proof.
  intros [? ? H1] [? ? H2]. split; [done|lia|]. eapply Forall_impl; [exact H2|]. simpl.
  intros a [(b & Hab & Hb)%list_elem_of_fmap|]; [|right; lia].
  rewrite Hab. by apply (proj1 (Forall_forall _ _) H1).
Qed.

(** A push of a timer whose id is known and free. *)
Lemma push_wf t a c nx :
  timers_wf t -> (nt t < c)%nat -> id a ∉ id <$> heap t -> 0 <= id a < nx -> next_id t <= nx ->
  timers_wf (Timers (heap_up (nt t) (heap t ++ [a]) (nt t)) c nx).
Proof.
  intros [Ho Hc Hcp Hi Hn Hp] Hlt Hf Ha Hx.
  split; unfold nt in *; simpl; rewrite ?heap_up_length, ?length_app; simpl; [|lia|lia| | |lia].
  - by apply heap_push_ok.
  - rewrite heap_push_perm. by constructor.
  - rewrite heap_push_perm. constructor; [done|]. eapply Forall_impl; [exact Hn|]. simpl. lia.
Qed.

Lemma remove_wf t i :
  timers_wf t -> (i < nt t)%nat -> timers_wf (Timers (remove_at (heap t) i) (cap t) (next_id t)).
Proof.
  intros [Ho Hc Hcp Hi Hn Hp] Hlt. unfold nt in *.
  pose proof (remove_at_perm (heap t) i Hlt) as HP.
  assert (HL : length (heap t) = S (length (remove_at (heap t) i))) by (by rewrite HP at 1).
  rewrite HP in Hi, Hn. apply NoDup_cons in Hi as [_ Hi]. apply Forall_cons in Hn as [_ Hn].
  split; unfold nt; simpl; try done; [by apply remove_at_ok|lia].
Qed.

Lemma fresh_id t : timers_wf t -> next_id t ∉ id <$> heap t.
Proof.
  intros Hw (a & Ha & Hin)%list_elem_of_fmap.
  pose proof (proj1 (Forall_forall _ _) (wf_next _ Hw) a Hin). simpl in *. lia.
Qed.

Lemma timers_add_cases grow_ok alloc_ok now t tic num f :
  timers_wf t -> next_id t < INT64_MAX ->
  exists t' r, ray_timers_add grow_ok alloc_ok now t tic num f = Some (t', r) /\ timers_wf t' /\
  ((r = -1 /\ heap t' = heap t /\ next_id t' = next_id t /\ grow_ok && alloc_ok = false) \/
   (r = next_id t /\ next_id t' = next_id t + 1 /\
    heap t' ≡ₚ Timer r tic (i64 (now + tic)) num f :: heap t)).
Proof.
  intros Hw Hmax. unfold ray_timers_add, heap_grow, heap_push. pose proof Hw as [Ho Hc Hcp Hi Hn Hp].
  assert (Hi64 : i64 (next_id t + 1) = next_id t + 1)
    by (apply i64_small; unfold INT64_MIN, INT64_MAX in *; lia).
  assert (Hgrow : timers_wf (Timers (heap t) (cap t * 2) (next_id t)))
    by (split; unfold nt in *; simpl; done || lia).
  assert (Hpush : forall c a, (nt t < c)%nat -> id a = next_id t ->
            timers_wf (Timers (heap_up (nt t) (heap t ++ [a]) (nt t)) c (next_id t + 1)))
    by (intros c a ? Ha; apply push_wf; rewrite ?Ha; [done|done|by apply fresh_id|lia|lia]).
  destruct (cap t <=? nt t)%nat eqn:Ec; bprop; [destruct grow_ok|]; [|eauto 10|];
    (destruct alloc_ok; simpl; [|rewrite ?andb_false_r; eauto 10]).
  all: rewrite Hi64; change (nt (Timers (heap t) _ _)) with (nt t); bif; unfold nt in *; simpl in *; [|lia];
    eexists _, _; split_and!; [done|by apply Hpush|right; split_and!; [done|done|apply heap_push_perm]].
Qed.

Lemma timers_del_cases t tid :
  timers_wf t ->
  timers_wf (ray_timers_del t tid).1 /\ next_id (ray_timers_del t tid).1 = next_id t /\
  (if (ray_timers_del t tid).2
   then exists a, id a = tid /\ heap t ≡ₚ a :: heap (ray_timers_del t tid).1
   else (ray_timers_del t tid).1 = t /\ tid ∉ id <$> heap t).
Proof.
  intros Hw. unfold ray_timers_del. pose proof (find_id_spec (heap t) tid 0) as Hf.
  destruct (find_id (heap t) tid 0) as [i|]; simpl; [|done].
  destruct Hf as (j & -> & Hj & Hid). rewrite Nat.add_0_l. split_and!; [by apply remove_wf|done|].
  exists (heap t !!! j). split; [done|by apply remove_at_perm].
Qed.

Lemma timer_step_evolves t t' : timers_wf t -> timer_step t t' -> evolves t t'.
Proof.
  intros Hw Hs. destruct Hs as [grow_ok alloc_ok now tic num f t t' r Hm Ha|tid t].
  - destruct (timers_add_cases grow_ok alloc_ok now t tic num f Hw Hm) as (t1 & r1 & E & Hw1 & Hc).
    rewrite Ha in E. injection E as <- <-.
    destruct Hc as [(_ & Hh & Hn & _)|(Hr & Hn & Hh)]; split; [done|lia| |done|lia|].
    + rewrite Hh. apply (ev_ids _ _ (evolves_refl t Hw)).
    + rewrite Hh. constructor; [simpl; right; lia|]. apply (ev_ids _ _ (evolves_refl t Hw)).
  - destruct (timers_del_cases t tid Hw) as (Hw1 & Hn & Hc). split; [done|lia|].
    pose proof (ev_ids _ _ (evolves_refl t Hw)) as Hid.
    destruct (ray_timers_del t tid) as [t1 []]; simpl in *.
    + destruct Hc as (a & _ & Hp). apply Forall_forall. intros x Hx.
      apply (proj1 (Forall_forall _ _) Hid). rewrite Hp. by right.
    + by destruct Hc as [-> _].
Qed.

Lemma timer_steps_evolve t t' : timers_wf t -> rtc timer_step t t' -> evolves t t'.
Proof.
  intros Hw Hs. induction Hs as [t|t t1 t2 H1 _ IH]; [by apply evolves_refl|].
  pose proof (timer_step_evolves _ _ Hw H1) as He.
  eapply evolves_trans; [exact He|apply IH, He].
Qed.

(** ** Firing *)
Lemma heap_pop_facts t :
  timers_wf t -> (0 < nt t)%nat ->
  timers_wf (heap_pop t) /\ heap t ≡ₚ (heap t !!! 0%nat) :: heap (heap_pop t) /\
  cap (heap_pop t) = cap t /\ next_id (heap_pop t) = next_id t /\ (nt (heap_pop t) < cap t)%nat.
Proof.
  intros Hw Hn. assert (Hp : heap t ≡ₚ (heap t !!! 0%nat) :: heap (heap_pop t))
    by (rewrite heap_pop_remove; by apply remove_at_perm).
  split_and!; [|done..|].
  - replace (heap_pop t) with (Timers (remove_at (heap t) 0) (cap t) (next_id t))
      by (unfold heap_pop, remove_at; by rewrite Nat.sub_0_r).
    by apply remove_wf.
  - pose proof (wf_cap _ Hw). unfold nt in *. apply Permutation_length in Hp. cbn [length] in Hp. lia.
Qed.

(** The head's id is not in the heap once popped, nor after any steps. *)
Lemma popped_id_free t t' :
  timers_wf t -> (0 < nt t)%nat -> evolves (heap_pop t) t' ->
  (id (heap t !!! 0%nat) ∉ (id <$> heap t')) /\ 0 <= id (heap t !!! 0%nat) < next_id t'.
Proof.
  intros Hw Hn [Hw' Hnx Hids]. destruct (heap_pop_facts t Hw Hn) as (_ & Hp & _ & Hpn & _).
  pose proof (wf_next _ Hw) as Hf. pose proof (wf_ids _ Hw) as Hd.
  rewrite Hp in Hf, Hd. apply Forall_cons in Hf as [Hf _]. apply NoDup_cons in Hd as [Hd _].
  split; [|lia]. intros (a & Ha & Hin)%list_elem_of_fmap.
  destruct (proj1 (Forall_forall _ _) Hids a Hin) as [Hx|Hx]; [by rewrite <- Ha in Hx|lia].
Qed.

Definition rescheduled (a : ray_timer_t) : option ray_timer_t :=
  let again k := Some (Timer (id a) (tic_ms a) (i64 (exp_ms a + tic_ms a)) k (fn a)) in
  if num a =? 0 then again 0 else if 1 <? num a then again (num a - 1) else None.

Lemma fire_head_cases cb now t :
  timers_wf t -> (0 < nt t)%nat ->
  let a := heap t !!! 0%nat in
  let t1 := cb a now (heap_pop t) in
  evolves (heap_pop t) t1 ->
  match fire_head cb now t with
  | Fired t' => timers_wf t' /\ cap t' = cap t1 /\ next_id t' = next_id t1 /\
      heap t' ≡ₚ option_list (rescheduled a) ++ heap t1
  | Fault => is_Some (rescheduled a) /\ nt t1 = cap t1
  end.
Proof.
  intros Hw Hn a t1 Hev. destruct (popped_id_free t t1 Hw Hn Hev) as [Hfree Hid].
  assert (Hagain : forall k, match heap_push t1 (Timer (id a) (tic_ms a) (i64 (exp_ms a + tic_ms a)) k (fn a)) with
     | Some t' => timers_wf t' /\ cap t' = cap t1 /\ next_id t' = next_id t1 /\
        heap t' ≡ₚ Timer (id a) (tic_ms a) (i64 (exp_ms a + tic_ms a)) k (fn a) :: heap t1
     | None => nt t1 = cap t1 end).
  { intros k. unfold heap_push. pose proof (wf_cap _ (ev_wf _ _ Hev)). bif; [|lia].
    split_and!; [|done|done|by apply heap_push_perm]. apply push_wf; [apply Hev|done|done|done|lia]. }
  unfold fire_head, rescheduled. fold a t1. repeat bif; simpl.
  - specialize (Hagain 0). destruct (heap_push _ _); simpl; eauto.
  - specialize (Hagain (num a - 1)). destruct (heap_push _ _); simpl; eauto.
  - split_and!; [apply Hev|done..].
Qed.

(** Milliseconds by which the timers are overdue at [T], which bounds the
    number of fires when every interval is at least one millisecond. *)
Definition overdue (T : Z) (h : list ray_timer_t) : nat :=
  sum_list_with (fun a => Z.to_nat (T - exp_ms a + 1)) h.

#[export] Instance overdue_proper T : Proper ((≡ₚ) ==> eq) (overdue T).
Proof.
  intros h h' Hp. unfold overdue. induction Hp; simpl; lia.
Qed.

(** An interval that makes progress and cannot overflow before [T]. *)
Definition ticks (T : Z) (a : ray_timer_t) : Prop :=
  0 < tic_ms a /\ INT64_MIN <= exp_ms a /\ T + tic_ms a <= INT64_MAX.

(** The timers due by [T] tick. *)
Definition due_tick (T : Z) (h : list ray_timer_t) : Prop := Forall (fun a => exp_ms a <= T -> ticks T a) h.

#[export] Instance due_tick_proper T : Proper ((≡ₚ) ==> iff) (due_tick T).
Proof. intros h h' Hp. unfold due_tick. by rewrite Hp. Qed.

Lemma rescheduled_cases a :
  match rescheduled a with
  | Some b => id b = id a /\ tic_ms b = tic_ms a /\ exp_ms b = i64 (exp_ms a + tic_ms a) /\ fn b = fn a /\
      ((num a = 0 /\ num b = 0) \/ (1 < num a /\ num b = num a - 1))
  | None => num a = 1 \/ num a < 0
  end.
Proof. unfold rescheduled. repeat bif; simpl; [|split_and!|]; try done; auto; lia. Qed.

Lemma reschedule_overdue T a h :
  ticks T a -> exp_ms a <= T ->
  (overdue T (option_list (rescheduled a) ++ h) < overdue T (a :: h))%nat /\
  due_tick T (option_list (rescheduled a)).
Proof.
  intros (Htic & Hmin & Hmax) Hexp. pose proof (rescheduled_cases a) as Hr.
  destruct (rescheduled a) as [b|]; unfold overdue, due_tick; simpl; [|split; [lia|done]].
  destruct Hr as (_ & Hb & Hbe & _). rewrite i64_small in Hbe by lia.
  split; [lia|]. apply Forall_singleton. intros _. split; lia.
Qed.

(** Timers that were there, or are due after [T], add nothing. *)
Lemma overdue_later T h h' :
  NoDup h' -> (forall b, b ∈ h' -> b ∈ h \/ T < exp_ms b) -> (overdue T h' <= overdue T h)%nat.
Proof.
  revert h. induction h' as [|b h' IH]; intros h Hd Hin; [unfold overdue; simpl; lia|].
  apply NoDup_cons in Hd as [Hb Hd]. destruct (Hin b ltac:(left)) as [Hbh|Hlate].
  - apply elem_of_Permutation in Hbh as [h1 Hp]. specialize (IH h1 Hd). rewrite (overdue_proper T _ _ Hp).
    unfold overdue in *. cbn [sum_list_with]. assert (forall c, c ∈ h' -> c ∈ h1 \/ T < exp_ms c).
    { intros c Hc. destruct (Hin c ltac:(by right)) as [Hch|]; [|by right]. rewrite Hp in Hch. apply elem_of_cons in Hch as [->|]; [done|by left]. }
    specialize (IH ltac:(done)). lia.
  - specialize (IH h Hd ltac:(intros c Hc; apply Hin; by right)). unfold overdue in *. cbn [sum_list_with]. lia.
Qed.

(** A callback that adds and deletes timers, leaves room in the array for the
    timer that fired, and relates the heaps by [Q]. *)
Definition callback_ok (cb : ray_timer_t -> Z -> ray_timers_t -> ray_timers_t) (Q : ray_timers_t -> ray_timers_t -> Prop) : Prop :=
  forall a now t, timers_wf t -> (nt t < cap t)%nat ->
  rtc timer_step t (cb a now t) /\ (nt (cb a now t) < cap (cb a now t))%nat /\ Q t (cb a now t).

(** No timer is added that is due by [T]. *)
Definition adds_later (T : Z) (t t' : ray_timers_t) : Prop := forall b, b ∈ heap t' -> b ∈ heap t \/ T < exp_ms b.

(** The timer [a] is not deleted. *)
Definition keeps (a : ray_timer_t) (t t' : ray_timers_t) : Prop := a ∈ heap t -> a ∈ heap t'.

(** With such a callback a turn does not fault, and changes the heap by what the
    callback does to the others and the timer put back. *)
Lemma fire_head_ok cb Q now t :
  callback_ok cb Q -> timers_wf t -> (0 < nt t)%nat ->
  exists t' h, fire_head cb now t = Fired t' /\ timers_wf t' /\
    heap t ≡ₚ (heap t !!! 0%nat) :: heap (heap_pop t) /\
    heap t' ≡ₚ option_list (rescheduled (heap t !!! 0%nat)) ++ heap h /\ timers_wf h /\ Q (heap_pop t) h.
Proof.
  intros Hcb Hw Hn. destruct (heap_pop_facts t Hw Hn) as (Hwp & Hp & Hcap & _ & Hlt).
  destruct (Hcb (heap t !!! 0%nat) now (heap_pop t) Hwp ltac:(lia)) as (Hs & Hroom & HQ).
  pose proof (timer_steps_evolve _ _ Hwp Hs) as Hev. pose proof (fire_head_cases cb now t Hw Hn Hev) as Hc. cbv zeta in Hc.
  destruct (fire_head cb now t) as [t'|]; [|destruct Hc; lia]. destruct Hc as (Hw' & _ & _ & Hp').
  exists t', (cb (heap t !!! 0%nat) now (heap_pop t)). split_and!; [done..|apply Hev|done].
Qed.

Lemma nt_pos t a : a ∈ heap t -> (0 < nt t)%nat.
Proof. unfold nt. destruct (heap t); [by intros ?%elem_of_nil|simpl; lia]. Qed.

Section fire_ends.
Context (T : Z) (clock : nat -> Z) (Hclock : forall k, clock k <= T).
Context (cb : ray_timer_t -> Z -> ray_timers_t -> ray_timers_t) (Hcb : callback_ok cb (adds_later T)).

Lemma fire_head_progress now t :
  timers_wf t -> due_tick T (heap t) -> (0 < nt t)%nat -> exp_ms (heap t !!! 0%nat) <= T ->
  exists t', fire_head cb now t = Fired t' /\ timers_wf t' /\ due_tick T (heap t') /\
    (overdue T (heap t') < overdue T (heap t))%nat.
Proof using Hcb.
  intros Hw Ht Hn He. destruct (fire_head_ok cb _ now t Hcb Hw Hn) as (t' & h & Hf & Hw' & Hp & Hp' & Hwh & Hlater).
  rewrite Hp in Ht. apply Forall_cons in Ht as [Hta Ht]. specialize (Hta He).
  destruct (reschedule_overdue T _ (heap (heap_pop t)) Hta He) as [Ho Hr].
  assert (Hle : (overdue T (heap h) <= overdue T (heap (heap_pop t)))%nat).
  { apply overdue_later; [|exact Hlater]. eapply NoDup_fmap_1, (wf_ids _ Hwh). }
  exists t'. split_and!; [done|done| |].
  - rewrite Hp'. apply Forall_app. split; [done|]. apply Forall_forall. intros b Hb Hbe.
    destruct (Hlater b Hb) as [Hin|]; [|lia]. by apply (proj1 (Forall_forall _ _) Ht b Hin).
  - rewrite Hp', (overdue_proper T _ _ Hp). unfold overdue in *. rewrite !sum_list_with_app in *. lia.
Qed.

Lemma fire_loop_done fuel k t :
  timers_wf t -> due_tick T (heap t) -> (overdue T (heap t) <= fuel)%nat ->
  exists t' k', fire_loop cb fuel clock k t = Some (Fired t') /\ timers_wf t' /\
    Forall (fun a => clock k' < exp_ms a) (heap t').
Proof using Hclock Hcb.
  revert k t. induction fuel as [|fuel IH]; intros k t Hw Ht Hf; simpl.
  all: destruct ((0 <? nt t)%nat && (exp_ms (heap t !!! 0%nat) <=? clock k)) eqn:E; bprop;
    [|exists t, k; split_and!; [done..|]; apply Forall_forall; intros a Ha; pose proof (heap_root _ _ (wf_order _ Hw) Ha);
      pose proof (nt_pos t a Ha); destruct E; bprop; [lia|tord]].
  all: destruct (fire_head_progress (clock k) t Hw Ht H) as (t' & Hfh & Hw' & Ht' & Ho); [specialize (Hclock k); lia|].
  - lia.
  - rewrite Hfh. apply IH; [done..|lia].
Qed.
End fire_ends.

(** ** Properties *)

(** C18. After any sequence of adds (served or refused by the allocator) and
    deletes on a new heap: the array is a heap on (deadline, id), fits its
    allocation, has pairwise distinct ids below [next_id]; and
    [ray_timers_next_deadline_ms] is the least deadline, [INT64_MAX] when
    there is no timer. *)
Theorem timers_reachable_wf c t :
  rtc timer_step (ray_timers_create c) t ->
  timers_wf t /\
  (heap t = [] -> ray_timers_next_deadline_ms t = INT64_MAX) /\
  (forall a, a ∈ heap t -> ray_timers_next_deadline_ms t <= exp_ms a) /\
  (heap t <> [] -> exists a, a ∈ heap t /\ ray_timers_next_deadline_ms t = exp_ms a).
Proof.
  intros Hs. assert (Hw0 : timers_wf (ray_timers_create c)).
  { unfold ray_timers_create. split; unfold nt; simpl; [|lia|bif; lia|apply NoDup_nil_2|done|lia].
    intros j. simpl. lia. }
  destruct (timer_steps_evolve _ _ Hw0 Hs) as [Hw _ _].
  unfold ray_timers_next_deadline_ms, nt. split_and!; [done|by intros ->| |].
  - intros a Ha. destruct (heap t) as [|b h] eqn:Eh; [by apply elem_of_nil in Ha|].
    rewrite <- Eh in *. pose proof (heap_root _ _ (wf_order _ Hw) Ha).
    rewrite Eh at 1. simpl. tord.
  - destruct (heap t) as [|b h]; [done|]. intros _. exists b. split; [by left|done].
Qed.

Lemma timers_reachable_wf_witness :
  let t1 := default (ray_timers_create 0) (fst <$> ray_timers_add true true 100 (ray_timers_create 0) 50 0 7) in
  rtc timer_step (ray_timers_create 0) t1 /\ ray_timers_next_deadline_ms t1 = 150 /\ timers_wf t1.
Proof.
  cbv zeta. assert (Hs : rtc timer_step (ray_timers_create 0)
    (default (ray_timers_create 0) (fst <$> ray_timers_add true true 100 (ray_timers_create 0) 50 0 7))).
  { apply rtc_once. eapply (step_add true true 100 50 0 7); [reflexivity|vm_compute; reflexivity]. }
  split; [exact Hs|split; [reflexivity|]]. exact (proj1 (timers_reachable_wf 0 _ Hs)).
Defined.

(** [ray_timers_add] on a well-formed heap never writes past the array:
    it doubles the array first when it is full.  When the allocator serves it,
    the heap gains exactly the new timer, under a fresh id that is returned;
    otherwise it returns -1 and the timers are untouched. *)
Theorem ray_timers_add_spec grow_ok alloc_ok now t tic num f :
  timers_wf t -> next_id t < INT64_MAX ->
  exists t' r, ray_timers_add grow_ok alloc_ok now t tic num f = Some (t', r) /\ timers_wf t' /\
  (grow_ok && alloc_ok = true -> r <> -1) /\
  ((r = -1 /\ heap t' = heap t /\ next_id t' = next_id t) \/
   (r = next_id t /\ (r ∉ (id <$> heap t)) /\ next_id t' = r + 1 /\
    heap t' ≡ₚ Timer r tic (i64 (now + tic)) num f :: heap t)).
Proof.
  intros Hw Hm. pose proof (wf_next_pos _ Hw). pose proof (fresh_id _ Hw).
  destruct (timers_add_cases grow_ok alloc_ok now t tic num f Hw Hm) as
    (t' & r & -> & Hw' & [(-> & ? & ? & Hg)|(-> & ? & ?)]); eexists _, _; split_and!; eauto; [congruence|].
  intros _. lia.
Qed.

Lemma ray_timers_add_spec_witness :
  let t := Timers [Timer 0 5 10 0 1] 1 1 in
  timers_wf t /\ exists t', ray_timers_add true true 3 t 4 2 9 = Some (t', 1) /\
    timers_wf t' /\ heap t' = [Timer 1 4 7 2 9; Timer 0 5 10 0 1] /\ cap t' = 2%nat.
Proof.
  cbv zeta. assert (Hw : timers_wf (Timers [Timer 0 5 10 0 1] 1 1)).
  { split; unfold nt; simpl; try lia; [intros j; simpl; lia|apply NoDup_singleton|repeat constructor; simpl; lia]. }
  split; [exact Hw|].
  destruct (ray_timers_add_spec true true 3 _ 4 2 9 Hw eq_refl) as (t' & r & E & Hw' & _).
  vm_compute in E. injection E as <- <-. eexists. split; [reflexivity|]. split; [exact Hw'|]. split; reflexivity.
Defined.

(** [ray_timers_del] removes exactly the timer with the given id, keeps
    the heap well-formed, and reports whether there was one. *)
Theorem ray_timers_del_spec t tid :
  timers_wf t ->
  let '(t', found) := ray_timers_del t tid in
  timers_wf t' /\ (tid ∉ (id <$> heap t')) /\
  (found = true <-> tid ∈ (id <$> heap t)) /\
  (found = true -> exists a, id a = tid /\ heap t ≡ₚ a :: heap t') /\ (found = false -> t' = t).
Proof.
  intros Hw. pose proof (timers_del_cases t tid Hw) as (Hw' & _ & Hc).
  pose proof (wf_ids _ Hw) as Hd. destruct (ray_timers_del t tid) as [t' []]; simpl in *.
  - destruct Hc as (a & <- & Hp). rewrite Hp in Hd. apply NoDup_cons in Hd as [Hd _].
    split_and!; [done|done| |by exists a|done]. split; [|done]. intros _. rewrite Hp. by left.
  - destruct Hc as [-> Hc]. split_and!; done.
Qed.

Lemma ray_timers_del_spec_witness :
  let t := Timers [Timer 0 5 1 0 1; Timer 1 5 9 0 1; Timer 2 5 3 0 1] 4 3 in
  timers_wf t /\ timers_wf (ray_timers_del t 0).1 /\
  heap (ray_timers_del t 0).1 = [Timer 2 5 3 0 1; Timer 1 5 9 0 1].
Proof.
  cbv zeta. assert (Hw : timers_wf (Timers [Timer 0 5 1 0 1; Timer 1 5 9 0 1; Timer 2 5 3 0 1] 4 3)).
  { split; unfold nt; simpl; try lia.
    - intros j Hj. simpl in Hj. assert (j = 1 \/ j = 2)%nat as [-> | ->] by lia; vm_compute; reflexivity.
    - apply (bool_decide_unpack _). vm_compute. exact I.
    - repeat constructor; simpl; lia. }
  split; [exact Hw|]. pose proof (ray_timers_del_spec _ 0 Hw) as Hd.
  vm_compute ray_timers_del in *. split; [exact (proj1 Hd)|reflexivity].
Defined.

(** One turn of [ray_timers_fire_expired] whose callback is any sequence
    of adds and deletes.  The popped timer is the (deadline, id)-least; it is
    put back one interval later with its count decremented (0 means forever),
    or dropped after its last fire; nothing else of the callback's heap
    changes.  The turn writes past the array exactly when the timer is to be
    put back and the callback left the array full. *)
Theorem fire_head_spec cb now t :
  timers_wf t -> (0 < nt t)%nat ->
  rtc timer_step (heap_pop t) (cb (heap t !!! 0%nat) now (heap_pop t)) ->
  let a := heap t !!! 0%nat in
  let t1 := cb a now (heap_pop t) in
  (forall b, b ∈ heap t -> tle a b) /\ heap t ≡ₚ a :: heap (heap_pop t) /\
  (fire_head cb now t = Fault <-> is_Some (rescheduled a) /\ nt t1 = cap t1) /\
  (forall t', fire_head cb now t = Fired t' ->
     timers_wf t' /\ heap t' ≡ₚ option_list (rescheduled a) ++ heap t1).
Proof.
  intros Hw Hn Hcb a t1. destruct (heap_pop_facts t Hw Hn) as (Hwp & Hp & _).
  pose proof (timer_steps_evolve _ _ Hwp Hcb) as Hev.
  pose proof (fire_head_cases cb now t Hw Hn Hev) as Hc. fold a t1 in Hc.
  split_and!; [intros b; by apply heap_root, Hw|done| |].
  - destruct (fire_head cb now t) as [t'|] eqn:E; [|split; auto]. split; [done|].
    intros [[b Hb] Hfull]. destruct Hc as (Hwt' & Hct' & _ & Hpt').
    pose proof (wf_cap _ Hwt'). unfold nt in *. apply Permutation_length in Hpt'.
    rewrite Hb in Hpt'. simpl in Hpt'. lia.
  - intros t' E. rewrite E in Hc. by destruct Hc as (? & _ & _ & ?).
Qed.

(** The callback adds a timer, which fills the array of one. *)
Lemma fire_head_spec_witness :
  let t := Timers [Timer 0 5 1 0 1] 1 1 in
  let cb := fun (_ : ray_timer_t) now t => default t (fst <$> ray_timers_add true true now t 5 1 2) in
  timers_wf t /\ fire_head cb 3 t = Fault.
Proof.
  cbv zeta. assert (Hw : timers_wf (Timers [Timer 0 5 1 0 1] 1 1)).
  { split; unfold nt; simpl; try lia; [intros j; simpl; lia|apply NoDup_singleton|repeat constructor; simpl; lia]. }
  split; [exact Hw|].
  eapply (fire_head_spec (fun _ now t => default t (fst <$> ray_timers_add true true now t 5 1 2)) 3 _ Hw).
  - unfold nt. simpl. lia.
  - apply rtc_once. eapply (step_add true true 3 5 1 2); [reflexivity|vm_compute; reflexivity].
  - split; [vm_compute; eexists; reflexivity|vm_compute; reflexivity].
Defined.

(** C39. [ray_timers_fire_expired] terminates, without fault and with no
    timer left that is due at its last clock reading, under these conditions:
    the clock stays at or below some [T]; every timer due by [T] has a positive
    interval, which does not overflow the deadline; and the callbacks, which may
    add and delete timers, leave room in the array and add none that is due by
    [T].  The milliseconds by which the timers are overdue at [T] bound the
    number of turns. *)
Theorem fire_expired_terminates T clock cb fuel t :
  (forall k, clock k <= T) -> callback_ok cb (adds_later T) -> timers_wf t -> due_tick T (heap t) ->
  (overdue T (heap t) <= fuel)%nat ->
  exists t' k, ray_timers_fire_expired cb fuel clock t = Some (Fired t') /\
    timers_wf t' /\ Forall (fun a => clock k < exp_ms a) (heap t').
Proof.
  intros Hc Hcb Hw Ht Hf. unfold ray_timers_fire_expired. bif.
  - exists t, 0%nat. unfold nt in E. destruct (heap t) eqn:Eh; [|done]. rewrite ?Eh. auto.
  - by apply (fire_loop_done T).
Qed.

(** A callback that deletes timer 1. *)
Definition del_one (_ : ray_timer_t) (_ : Z) (t : ray_timers_t) : ray_timers_t := (ray_timers_del t 1).1.

Lemma del_one_ok (Q : ray_timers_t -> ray_timers_t -> Prop) :
  (forall t, timers_wf t -> Q t (ray_timers_del t 1).1) -> callback_ok del_one Q.
Proof.
  intros HQ a now t Hw Hn. split_and!; [apply rtc_once, step_del| |by apply HQ]. unfold del_one.
  pose proof (timers_del_cases t 1 Hw) as (_ & _ & Hc). assert (Hcap : cap (ray_timers_del t 1).1 = cap t) by (unfold ray_timers_del; by destruct (find_id _ _ _)).
  rewrite Hcap. destruct (ray_timers_del t 1) as [t' []]; cbn [fst snd] in *; [|by destruct Hc as [-> _]].
  destruct Hc as (b & _ & Hp). unfold nt in *. apply Permutation_length in Hp. simpl in Hp. lia.
Qed.

Lemma del_one_subset t b : timers_wf t -> b ∈ heap (ray_timers_del t 1).1 -> b ∈ heap t.
Proof.
  intros Hw. pose proof (timers_del_cases t 1 Hw) as (_ & _ & Hc). destruct (ray_timers_del t 1) as [t' []]; cbn [fst snd] in *; [|by destruct Hc as [-> _]].
  destruct Hc as (c & _ & ->). by right.
Qed.

(** Timer 0 deletes timer 1, which is also due. *)
Lemma fire_expired_terminates_witness :
  let t := Timers [Timer 0 5 1 0 1; Timer 1 5 2 2 1] 2 2 in
  exists t', ray_timers_fire_expired del_one 100 (fun _ => 9) t = Some (Fired t') /\
    timers_wf t' /\ Forall (fun a => 9 < exp_ms a) (heap t') /\ heap t' = [Timer 0 5 11 0 1].
Proof.
  cbv zeta. destruct (fire_expired_terminates 9 (fun _ => 9) del_one 100 (Timers [Timer 0 5 1 0 1; Timer 1 5 2 2 1] 2 2))
    as (t' & k & E & Hw & Hf).
  - intros. lia.
  - apply del_one_ok. intros t Hw b Hb. left. by apply (del_one_subset t b).
  - split; unfold nt; simpl; try lia.
    + intros j Hj. simpl in Hj. assert (j = 1)%nat as -> by lia. vm_compute. reflexivity.
    + apply (bool_decide_unpack _). vm_compute. exact I.
    + repeat constructor; simpl; lia.
  - repeat constructor; vm_compute; congruence.
  - vm_compute. lia.
  - exists t'. vm_compute in E. injection E as <-.
    split; [vm_compute; reflexivity|]. split; [exact Hw|]. split; [exact Hf|reflexivity].
Defined.

(** C40. Any heap that holds a forever timer with a zero interval makes
    [ray_timers_fire_expired] run for ever once that timer is due, whatever the
    other timers are: no amount of fuel is enough.  The callbacks may add and
    delete timers, as long as they leave room in the array and do not delete
    that one. *)
Theorem fire_zero_tic_diverges cb fuel clock t a :
  timers_wf t -> a ∈ heap t -> num a = 0 -> tic_ms a = 0 -> INT64_MIN <= exp_ms a <= INT64_MAX ->
  (forall k, exp_ms a <= clock k) -> callback_ok cb (keeps a) ->
  ray_timers_fire_expired cb fuel clock t = None.
Proof.
  intros Hw Ha Hnum Htic He Hk Hcb. unfold ray_timers_fire_expired. pose proof (nt_pos t a Ha) as Hn.
  rewrite (proj2 (Nat.eqb_neq (nt t) 0)) by lia. clear Hn. generalize 0%nat as k.
  revert t Hw Ha. induction fuel as [|fuel IH]; intros t Hw Ha k; cbn [fire_loop].
  all: pose proof (nt_pos t a Ha) as Hn; rewrite (proj2 (Nat.ltb_lt _ _)) by done.
  all: pose proof (heap_root _ _ (wf_order _ Hw) Ha) as Hroot; pose proof (Hk k) as Hkk.
  all: rewrite (proj2 (Z.leb_le _ _)) by tord; cbn [andb].
  { done. }
  destruct (fire_head_ok cb _ (clock k) t Hcb Hw Hn) as (t' & h & -> & Hw' & Hp & Hp' & _ & Hkeep).
  apply IH; [done|]. rewrite Hp'. apply elem_of_app. rewrite Hp in Ha. apply elem_of_cons in Ha as [E|Ha]; [left; rewrite <- E|right; by apply Hkeep].
  unfold rescheduled. rewrite Hnum, Htic, Z.add_0_r, i64_small by done. change (0 =? 0) with true. cbv iota.
  destruct a; cbn in *; subst. by left.
Qed.

(** Another timer fires before the one that does not move. *)
Lemma fire_zero_tic_diverges_witness :
  ray_timers_fire_expired del_one 1000 (fun _ => 7) (Timers [Timer 1 3 2 5 1; Timer 0 0 7 0 1] 2 2) = None.
Proof.
  apply (fire_zero_tic_diverges del_one 1000 (fun _ => 7) (Timers [Timer 1 3 2 5 1; Timer 0 0 7 0 1] 2 2) (Timer 0 0 7 0 1)).
  - split; unfold nt; simpl; try lia.
    + intros j Hj. simpl in Hj. assert (j = 1)%nat as -> by lia. vm_compute. reflexivity.
    + apply (bool_decide_unpack _). vm_compute. exact I.
    + repeat constructor; simpl; lia.
  - right. left.
  - reflexivity.
  - reflexivity.
  - split; vm_compute; congruence.
  - intros k. simpl. lia.
  - apply del_one_ok. intros t Hw Hin. pose proof (timers_del_cases t 1 Hw) as (_ & _ & Hc).
    destruct (ray_timers_del t 1) as [t' []]; cbn [fst snd] in *; [|destruct Hc as [-> _]; exact Hin].
    destruct Hc as (b & Hb & Hp). rewrite Hp in Hin. apply elem_of_cons in Hin as [<-|Hin]; [discriminate Hb|exact Hin].
Defined.
