(* ===== verification/Utf8.v ===== *)
(** * UTF-8: [src/qlang/base/q_utf8.c] and [q_ws_utf8_ok] of [src/qlang/net/q_ws.c]

    The encoder of one code point and the validator the WebSocket layer runs
    on a text message: the validator accepts exactly the byte strings that the
    encoder produces from sequences of Unicode scalar values. *)
From S2P Require Import Prelude.
From Stdlib Require Import Zify.
#[local] Ltac Zify.zify_post_hook ::= Z.to_euclidean_division_equations.

(** ** Encoder *)

(** The [for] loop: bytes [n-1 .. 1] are filled from the low end; the result is
    the tail and the code point that is left for the first byte. *)
Fixpoint enc_tail (i : nat) (cp : Z) (acc : list Z) : Z * list Z :=
  match i with
  | O => (cp, acc)
  | S i => enc_tail i (Z.shiftr cp 6) (Z.lor 0x80 (Z.land cp 63) :: acc)
  end.

Definition q_utf8_enc (cp : Z) : list Z :=
  if cp <? 0x80 then [cp]
  else
    let n := if cp <? 0x800 then 2 else if cp <? 0x10000 then 3 else 4 in
    let '(cp, tl) := enc_tail (Z.to_nat (n - 1)) cp [] in
    u8 (Z.lor (Z.shiftr 0xF00 n) cp) :: tl.

(** ** Validator *)

(** [need], [cp] and [min] from a lead byte; [None] is [return false]. *)
Definition utf8_lead (c : Z) : option (nat * Z * Z) :=
  if Z.land c 0xE0 =? 0xC0 then Some (1%nat, Z.land c 0x1F, 0x80)
  else if Z.land c 0xF0 =? 0xE0 then Some (2%nat, Z.land c 0x0F, 0x800)
  else if Z.land c 0xF8 =? 0xF0 then Some (3%nat, Z.land c 0x07, 0x10000)
  else None.

(** The continuation loop over the [need] bytes after the lead byte. *)
Fixpoint utf8_cont (k : nat) (p : list Z) (cp : Z) : option Z :=
  match k, p with
  | O, _ => Some cp
  | S k, c :: p' =>
      if negb (Z.land c 0xC0 =? 0x80) then None
      else utf8_cont k p' (Z.lor (u32 (Z.shiftl cp 6)) (Z.land c 0x3F))
  | S _, [] => None
  end.

(** [while (i < n)] over the unread bytes; every turn reads at least one, so
    their number is enough fuel. *)
Fixpoint utf8_loop (fuel : nat) (p : list Z) : bool :=
  match p with
  | [] => true
  | c :: rest =>
      match fuel with
      | O => false
      | S fuel =>
          if c <? 0x80 then utf8_loop fuel rest
          else
            match utf8_lead c with
            | None => false
            | Some (need, cp, min) =>
                if (length p <=? need)%nat then false
                else
                  match utf8_cont need rest cp with
                  | None => false
                  | Some cp =>
                      if (cp <? min) || (0x10FFFF <? cp) then false
                      else if (0xD800 <=? cp) && (cp <=? 0xDFFF) then false
                      else utf8_loop fuel (drop need rest)
                  end
            end
      end
  end.

Definition q_ws_utf8_ok (p : list Z) : bool := utf8_loop (length p) p.

(** ** Specification *)
Definition scalar (cp : Z) : Prop :=
  0 <= cp <= 0x10FFFF /\ ~ (0xD800 <= cp <= 0xDFFF).

Definition utf8_valid (p : list Z) : Prop :=
  exists cps, Forall scalar cps /\ p = mjoin (q_utf8_enc <$> cps).

(** The same bytes by arithmetic. *)
Definition enc_arith (cp : Z) : list Z :=
  if cp <? 0x80 then [cp]
  else if cp <? 0x800 then [192 + cp / 64; 128 + cp mod 64]
  else if cp <? 0x10000 then [224 + cp / 4096; 128 + cp / 64 mod 64; 128 + cp mod 64]
  else [240 + cp / 262144; 128 + cp / 4096 mod 64; 128 + cp / 64 mod 64; 128 + cp mod 64].

Lemma lor_disjoint k a b : 0 <= k -> 0 <= b < 2 ^ k -> Z.lor (2 ^ k * a) b = 2 ^ k * a + b.
Proof.
  intros Hk Hb. replace (2 ^ k * a) with (0 + 2 ^ k * a) by lia.
  replace b with (b + 2 ^ k * 0) at 1 by lia. rewrite lane_lor by lia.
  rewrite Z.lor_0_r, Z.lor_0_l. lia.
Qed.

Lemma enc_cont_byte x : Z.lor 0x80 (Z.land x 63) = 128 + x mod 64.
Proof. change 63 with (2 ^ 6 - 1). rewrite land_mask by done. apply (lor_disjoint 6 2); [done|]. lia. Qed.

Lemma q_utf8_enc_arith cp : 0 <= cp <= 0x10FFFF -> q_utf8_enc cp = enc_arith cp.
Proof.
  intros Hcp. unfold q_utf8_enc, enc_arith. repeat bif; [done|..]; simpl enc_tail; cbv iota beta;
    rewrite !enc_cont_byte, ?Z.shiftr_div_pow2 by done; change (2 ^ 6) with 64.
  all: rewrite ?Z.div_div by lia; f_equal; try (f_equal; lia).
  - change (3840 / 2 ^ 2) with (2 ^ 5 * 30). rewrite lor_disjoint by (try done; lia). unfold u8, wrap. lia.
  - change (3840 / 2 ^ 3) with (2 ^ 5 * 15). rewrite lor_disjoint by (try done; lia). unfold u8, wrap. lia.
  - change (3840 / 2 ^ 4) with (2 ^ 4 * 15). rewrite lor_disjoint by (try done; lia). unfold u8, wrap. lia.
Qed.

(** ** Lemmas on single bytes *)
Lemma utf8_lead_spec c :
  byte_ok c ->
  utf8_lead c =
  if (192 <=? c) && (c <? 224) then Some (1%nat, c - 192, 128)
  else if (224 <=? c) && (c <? 240) then Some (2%nat, c - 224, 2048)
  else if (240 <=? c) && (c <? 248) then Some (3%nat, c - 240, 65536)
  else None.
Proof.
  intros Hc. byte_exhaust Hc.
Qed.

Lemma utf8_cont_byte c :
  byte_ok c -> ((Z.land c 0xC0 =? 0x80) = (128 <=? c) && (c <? 192)) /\ Z.land c 0x3F = c mod 64.
Proof.
  intros Hc. byte_exhaust Hc.
Qed.

Definition is_cont (c : Z) : bool := (128 <=? c) && (c <? 192).
Definition cont_val (cp : Z) (p : list Z) : Z := foldl (fun a c => a * 64 + (c - 128)) cp p.

(** The continuation loop accepts exactly [k] bytes [128 + d] with [d < 64],
    and appends the [d]s to the code point in base 64. *)
Lemma utf8_cont_spec k p cp :
  bytes_ok p -> (k <= length p)%nat -> 0 <= cp -> (cp + 1) * 64 ^ k <= 2 ^ 32 ->
  utf8_cont k p cp = if forallb is_cont (take k p) then Some (cont_val cp (take k p)) else None.
Proof.
  revert p cp. induction k as [|k IH]; intros p cp Hp Hk Hcp Hb; [done|].
  destruct p as [|c p]; simpl in Hk; [lia|]. apply Forall_cons in Hp as [Hc Hp].
  rewrite Nat2Z.inj_succ, Z.pow_succ_r in Hb by lia. pose proof (Z.pow_pos_nonneg 64 k ltac:(lia) ltac:(lia)).
  simpl. destruct (utf8_cont_byte c Hc) as [-> Hm]. fold (is_cont c). destruct (is_cont c) eqn:E; simpl; [|done].
  unfold is_cont in E. bprop. rewrite Hm, Z.shiftl_mul_pow2, u32_small by (try done; change (2 ^ 6) with 64; nia).
  rewrite (Z.mul_comm cp), (lor_disjoint 6) by (try done; lia). change (2 ^ 6) with 64.
  replace (64 * cp + c mod 64) with (cp * 64 + (c - 128)) by lia.
  apply IH; [done|lia|lia|nia].
Qed.

Lemma drop_cons_0 {A} (l : list A) : drop 0 l = l. Proof. done. Qed.

Ltac bytes_inv :=
  repeat match goal with
  | H : bytes_ok (_ :: _) |- _ => apply Forall_cons in H as [? H]
  end.

(** One turn of the loop at a lead byte. *)
Definition utf8_turn (p : list Z) : option (Z * list Z) :=
  match p with
  | [] => None
  | c :: rest =>
      if c <? 0x80 then Some (c, rest)
      else match utf8_lead c with
           | None => None
           | Some (need, cp, min) =>
               if (length p <=? need)%nat then None
               else match utf8_cont need rest cp with
                    | None => None
                    | Some cp =>
                        if (cp <? min) || (0x10FFFF <? cp) then None
                        else if (0xD800 <=? cp) && (cp <=? 0xDFFF) then None
                        else Some (cp, drop need rest)
                    end
           end
  end.

Lemma utf8_loop_turn fuel p :
  p <> [] -> utf8_loop (S fuel) p = match utf8_turn p with Some (_, r) => utf8_loop fuel r | None => false end.
Proof.
  destruct p as [|c rest]; [done|]. intros _. cbn [utf8_loop utf8_turn]. bif; [done|].
  destruct (utf8_lead c) as [[[need cp] min]|]; [|done]. bif; [done|].
  destruct (utf8_cont need rest cp); [|done]. repeat bif; done.
Qed.

Ltac split_conts :=
  repeat match goal with
  | H : forallb is_cont (_ :: _) = true |- _ => cbn [forallb] in H; bprop
  | H : is_cont _ = true |- _ => unfold is_cont in H; bprop
  end.

Lemma enc_cont_val cp c0 lo (bs : list Z) :
  forallb is_cont bs = true -> cp = cont_val lo bs -> 0 <= lo ->
  (length bs = 1%nat -> c0 = 192 + lo /\ lo < 32 /\ 128 <= cp -> enc_arith cp = c0 :: bs) /\
  (length bs = 2%nat -> c0 = 224 + lo /\ lo < 16 /\ 2048 <= cp -> enc_arith cp = c0 :: bs) /\
  (length bs = 3%nat -> c0 = 240 + lo /\ lo < 8 /\ 65536 <= cp <= 0x10FFFF -> enc_arith cp = c0 :: bs).
Proof.
  intros Hb -> Hlo. split_and!; intros Hl (-> & ? & ?); unfold enc_arith.
  - destruct bs as [|b1 []]; try done. split_conts. unfold cont_val in *; simpl in *.
    repeat bif; try lia. f_equal; [lia|]. f_equal; lia.
  - destruct bs as [|b1 [|b2 []]]; try done. split_conts. unfold cont_val in *; simpl in *.
    repeat bif; try lia. f_equal; [lia|]. f_equal; [lia|]. f_equal; lia.
  - destruct bs as [|b1 [|b2 [|b3 []]]]; try done. split_conts. unfold cont_val in *; simpl in *.
    repeat bif; try lia. f_equal; [lia|]. f_equal; [lia|]. f_equal; [lia|]. f_equal; lia.
Qed.

Lemma utf8_turn_sound p cp r :
  bytes_ok p -> utf8_turn p = Some (cp, r) -> scalar cp /\ p = enc_arith cp ++ r.
Proof.
  destruct p as [|c rest]; [done|]. intros Hp. bytes_inv. unfold utf8_turn, scalar.
  assert (Hc : 0 <= c < 256) by done. destruct (c <? 128) eqn:Ec; bprop.
  { intros [= <- <-]. split; [lia|]. unfold enc_arith. bif; [done|lia]. }
  rewrite utf8_lead_spec by done.
  repeat (destruct (_ && _) eqn:?; bprop); try done; cbv iota beta; bif; try done; cbn [length] in *;
    (rewrite utf8_cont_spec by (try done; cbn; lia); bif; [|done]; cbv iota beta; repeat bif; try done; intros [= <- <-];
     match goal with H : forallb is_cont ?bs = true |- context [cont_val ?lo _] =>
       destruct (enc_cont_val _ c lo bs H eq_refl) as (Q1 & Q2 & Q3); [lia|] end; split; [lia|]).
  - rewrite Q1 by (rewrite ?length_take; lia). simpl. by rewrite take_drop.
  - rewrite Q2 by (rewrite ?length_take; lia). simpl app. by rewrite take_drop.
  - rewrite Q3 by (rewrite ?length_take; lia). simpl app. by rewrite take_drop.
Qed.

Lemma enc_arith_bytes cp : scalar cp -> bytes_ok (enc_arith cp).
Proof. unfold scalar, enc_arith. intros. repeat bif; repeat constructor; lia. Qed.

Lemma utf8_turn_complete cp r :
  scalar cp -> bytes_ok r -> utf8_turn (enc_arith cp ++ r) = Some (cp, r).
Proof.
  intros Hs Hr. pose proof (enc_arith_bytes cp Hs) as Hb. unfold scalar in Hs. revert Hb. unfold enc_arith.
  repeat bif; intros Hb; cbn [app utf8_turn]; bytes_inv;
    [rewrite (proj2 (Z.ltb_lt _ _)) by lia; done|..];
    rewrite (proj2 (Z.ltb_ge _ _)) by lia; rewrite utf8_lead_spec by done;
    repeat bif; try (exfalso; cbn [length] in *; lia); cbv iota beta;
    (rewrite utf8_cont_spec; [|repeat (constructor; [unfold byte_ok; lia|]); exact Hr|cbn [length]; lia|lia|cbn; lia]);
    cbn [take forallb drop cont_val foldl length]; unfold is_cont; simpl in *; try (exfalso; lia).
  all: match goal with |- context [@Some Z ?v] => replace v with cp by lia end.
  all: rewrite ?andb_true_r; repeat (match goal with
    | |- context [?a <=? ?b] =>
        first [rewrite (proj2 (Z.leb_le a b)) by lia | rewrite (proj2 (Z.leb_gt a b)) by lia | destruct (a <=? b) eqn:?]
    | |- context [?a <? ?b] =>
        first [rewrite (proj2 (Z.ltb_lt a b)) by lia | rewrite (proj2 (Z.ltb_ge a b)) by lia | destruct (a <? b) eqn:?]
    end; cbn [andb orb]); bprop; try done; exfalso; lia.
Qed.

Lemma utf8_loop_spec fuel p :
  bytes_ok p -> (length p <= fuel)%nat -> utf8_loop fuel p = true <->
  exists cps, Forall scalar cps /\ p = mjoin (enc_arith <$> cps).
Proof.
  revert p. induction fuel as [|fuel IH]; intros p Hp Hl.
  { destruct p; simpl in Hl; [|lia]. simpl. split; [|done]. by exists []. }
  destruct p as [|c p'] eqn:Ep; [simpl; split; [by exists []|done]|].
  rewrite <- Ep in *. rewrite utf8_loop_turn by (by subst). split.
  - destruct (utf8_turn p) as [[cp r]|] eqn:Et; [|done]. intros Hr.
    destruct (utf8_turn_sound _ _ _ Hp Et) as [Hs Hpr]. rewrite Hpr in Hp, Hl.
    apply Forall_app in Hp as [_ Hp]. rewrite length_app in Hl.
    apply IH in Hr as (cps & Hcps & ->); [|done|unfold enc_arith in Hl; revert Hl; repeat bif; simpl; lia].
    exists (cp :: cps). split; [by constructor|done].
  - intros ([|cp cps] & Hcps & Hj); [by subst|]. apply Forall_cons in Hcps as [Hs Hcps].
    cbn in Hj. change (mjoin (enc_arith <$> cps)) with (mjoin (enc_arith <$> cps)) in Hj.
    rewrite Hj in Hp, Hl |- *. apply Forall_app in Hp as [_ Hp]. rewrite length_app in Hl.
    rewrite utf8_turn_complete by done.
    apply IH; [done|unfold enc_arith in Hl at 1; revert Hl; repeat bif; simpl; lia|by exists cps].
Qed.

Lemma enc_join cps :
  Forall scalar cps -> mjoin (q_utf8_enc <$> cps) = mjoin (enc_arith <$> cps).
Proof.
  induction 1 as [|cp cps Hs _ IH]; [done|]. rewrite !fmap_cons. cbn [mjoin list_join].
  rewrite q_utf8_enc_arith by apply Hs. by f_equal.
Qed.

(** C32. The validator accepts a byte string exactly when it is the
    concatenation of the encodings, by [q_utf8_enc], of Unicode scalar values:
    no overlong form, surrogate, truncated or out-of-range sequence passes, and
    every encoded text does. *)
Theorem q_ws_utf8_ok_correct (p : list Z) :
  bytes_ok p -> q_ws_utf8_ok p = true <-> utf8_valid p.
Proof.
  intros Hp. unfold q_ws_utf8_ok. rewrite utf8_loop_spec by done. unfold utf8_valid.
  split; intros (cps & Hc & ->); exists cps; (split; [done|]); [symmetry|]; by apply enc_join.
Qed.

Lemma q_ws_utf8_ok_correct_witness :
  bytes_ok [0x24; 0xC2; 0xA2; 0xE2; 0x82; 0xAC; 0xF0; 0x90; 0x8D; 0x88] /\
  utf8_valid [0x24; 0xC2; 0xA2; 0xE2; 0x82; 0xAC; 0xF0; 0x90; 0x8D; 0x88] /\
  ~ utf8_valid [0xC0; 0x80] /\ ~ utf8_valid [0xED; 0xA0; 0x80].
Proof.
  assert (Hb : forall l, forallb (fun b => (0 <=? b) && (b <? 256)) l = true -> bytes_ok l).
  { intros l Hl. apply Forall_forall. intros b Hb%list_elem_of_In.
    rewrite forallb_forall in Hl. specialize (Hl b Hb). unfold byte_ok. lia. }
  split; [apply Hb; reflexivity|].
  split; [apply q_ws_utf8_ok_correct; [apply Hb; reflexivity|vm_compute; reflexivity]|].
  split; intros Hv; apply q_ws_utf8_ok_correct in Hv; try discriminate; apply Hb; reflexivity.
Defined.
