(* ===== verification/WebSocket.v ===== *)
(** * WebSocket framing: [src/qlang/net/q_ws.c]

    The frame codec, the client mask generator, the per-connection state
    machine fed by the read pump, and the token tests of the handshake.  What
    the program does outside the connection (frames sent, handlers called) is
    the list of events of a step; the outcome of a send, of an allocation and
    whether [.z.ws] is set are parameters. *)
From S2P Require Import Prelude Utf8.
From Stdlib Require Import Zify ZifyNat.
#[local] Ltac Zify.zify_post_hook ::= Z.to_euclidean_division_equations.

Definition Q_WS_MAX_MSG : Z := 32 * 1024 * 1024.
Definition Q_WS_MAX_FRAGS : Z := 65536.
Definition Q_WS_OP_CONT : Z := 0.
Definition Q_WS_OP_TEXT : Z := 1.
Definition Q_WS_OP_BIN : Z := 2.
Definition Q_WS_OP_CLOSE : Z := 8.
Definition Q_WS_OP_PING : Z := 9.
Definition Q_WS_OP_PONG : Z := 10.

(** ** Frame codec *)
Record q_ws_hdr_t := Hdr {
  h_fin : Z; h_rsv : Z; h_opcode : Z; h_masked : Z; h_len : Z; h_mask : list Z; h_hdr_len : nat
}.

(** Result of [q_ws_hdr_parse]: positive, 0 and -1. *)
Inductive hdr_result := HdrDone (h : q_ws_hdr_t) | HdrMore | HdrBad.

(** [len = (len << 8) | b], in a [uint64_t]. *)
Definition len_bytes (bs : list Z) : Z := foldl (fun len b => Z.lor (u64 (Z.shiftl len 8)) b) 0 bs.

(** The payload length and the position after it, from the 7-bit length. *)
Definition hdr_ext_len (b : list Z) (len : Z) : hdr_result + (Z * nat) :=
  let n := length b in
  if len =? 126 then
    if (n <? 4)%nat then inl HdrMore
    else let len := Z.lor (Z.shiftl b.[2] 8) b.[3] in
         if len <? 126 then inl HdrBad else inr (len, 4%nat)
  else if len =? 127 then
    if (n <? 10)%nat then inl HdrMore
    else if negb (Z.land b.[2] 0x80 =? 0) then inl HdrBad
    else let len := len_bytes (take 8 (drop 2 b)) in
         if len <? 65536 then inl HdrBad else inr (len, 10%nat)
  else inr (len, 2%nat).

Definition q_ws_hdr_parse (b : list Z) : hdr_result :=
  let n := length b in
  if (n <? 2)%nat then HdrMore
  else
    let fin := Z.land (Z.shiftr b.[0] 7) 1 in
    let rsv := Z.land (Z.shiftr b.[0] 4) 7 in
    let opcode := Z.land b.[0] 0xF in
    let masked := Z.land (Z.shiftr b.[1] 7) 1 in
    let len := Z.land b.[1] 0x7F in
    match hdr_ext_len b len with
    | inl r => r
    | inr (len, pos) =>
        if negb (masked =? 0) then
          if (n <? pos + 4)%nat then HdrMore
          else HdrDone (Hdr fin rsv opcode masked len (take 4 (drop pos b)) (pos + 4))
        else HdrDone (Hdr fin rsv opcode masked len [0; 0; 0; 0] pos)
    end.

Definition q_ws_hdr_encode (fin : bool) (opcode len : Z) : list Z :=
  u8 (Z.lor (if fin then 0x80 else 0) (Z.land opcode 0xF)) ::
  (if len <=? 125 then [u8 len]
   else if len <=? 65535 then [126; u8 (Z.shiftr len 8); u8 len]
   else 127 :: ((fun i => u8 (Z.shiftr len (8 * (7 - i)))) <$> seqZ 0 8)).

(** [key[(off + i) & 3]] *)
Fixpoint q_ws_mask_apply (p : list Z) (key : list Z) (off : nat) : list Z :=
  match p with
  | b :: p' => Z.lxor b key.[off mod 4] :: q_ws_mask_apply p' key (S off)
  | [] => []
  end.

(** ** Mask keys and frames on the wire *)
Definition ws_mask_next (seed rng : Z) : Z * Z :=
  let x := if rng =? 0 then seed else rng in
  let x := Z.lxor x (Z.shiftr x 12) in
  let x := Z.lxor x (u64 (Z.shiftl x 25)) in
  let x := Z.lxor x (Z.shiftr x 27) in
  (Z.shiftr (u64 (x * 0x2545F4914F6CDD1D)) 32, x).

Definition key_bytes (k : Z) : list Z := [u8 (Z.shiftr k 24); u8 (Z.shiftr k 16); u8 (Z.shiftr k 8); u8 k].

(** [hdr[1] |= 0x80] *)
Definition set_mask_bit (hdr : list Z) : list Z := <[1%nat := Z.lor hdr.[1] 0x80]> hdr.

(** The bytes one [ws_frame_send] puts on the socket when its sends succeed,
    and the generator after it; [None]: the masked copy was not allocated. *)
Definition ws_frame_send (alloc : nat -> bool) (seed rng : Z) (opcode : Z) (payload : list Z) (mask : bool)
  : option (list Z * Z) :=
  let n := length payload in
  let hdr := q_ws_hdr_encode true opcode n in
  if mask then
    let '(k, rng) := ws_mask_next seed rng in
    let key := key_bytes k in
    if (0 <? n)%nat && negb ((n <=? 256)%nat || alloc n) then None
    else Some (set_mask_bit hdr ++ key ++ q_ws_mask_apply payload key 0, rng)
  else Some (hdr ++ payload, rng).

(** ** Connection state *)
Inductive ws_st := WS_HDR | WS_HDREXT | WS_PAYLOAD.
Inductive q_ws_role_t := Q_WS_SERVER | Q_WS_CLIENT.
#[export] Instance role_eq_dec : EqDecision q_ws_role_t.
Proof. solve_decision. Defined.
#[export] Instance ws_st_eq_dec : EqDecision ws_st.
Proof. solve_decision. Defined.

(** [hlen] and [msg_len] are the lengths of [hbuf] and [msg]. *)
Record q_ws_conn := Conn {
  st : ws_st; role : q_ws_role_t; hbuf : list Z; h : q_ws_hdr_t;
  msg : list Z; msg_cap : Z; msg_op : Z; msg_frames : Z; want : Z
}.

Definition no_hdr : q_ws_hdr_t := Hdr 0 0 0 0 0 [0; 0; 0; 0] 0.

Definition q_ws_conn_new_role (is_client : bool) : q_ws_conn :=
  Conn WS_HDR (if is_client then Q_WS_CLIENT else Q_WS_SERVER) [] no_hdr [] 0 0 0 2.

(** What a step does outside: a frame handed to [ws_frame_send], a call of
    [.z.ws], a message dropped with a line on stderr. *)
Inductive ws_event :=
  | EvSend (opcode : Z) (payload : list Z) (mask : bool)
  | EvHook (opcode : Z) (payload : list Z)
  | EvDrop.

Section machine.
Context (zws_set : bool) (alloc : Z -> bool) (arg_ok : list Z -> bool) (send_ok : Z -> list Z -> bool).

Definition ws_close_send (code : Z) (mask : bool) : ws_event :=
  EvSend Q_WS_OP_CLOSE (if code =? 0 then [] else [u8 (Z.shiftr code 8); u8 code]) mask.

Definition ws_dispatch (c : q_ws_conn) (opcode : Z) (p : list Z) : list ws_event :=
  if negb zws_set then
    if (opcode =? Q_WS_OP_BIN) && bool_decide (role c = Q_WS_SERVER)
    then [EvSend Q_WS_OP_BIN p false] else [EvDrop]
  else if arg_ok p then [EvHook opcode p] else [EvDrop].

(** [while (cap < need) cap *= 2]; the loop is run at most 64 times, enough
    for any [size_t]. *)
Fixpoint grow_cap (fuel : nat) (cap need : Z) : Z :=
  match fuel with
  | O => cap
  | S fuel => if cap <? need then grow_cap fuel (cap * 2) need else cap
  end.

Definition msg_append (c : q_ws_conn) (p : list Z) : option q_ws_conn :=
  let n := length p in
  if (n =? 0)%nat then Some c
  else
    let need := length (msg c) + n in
    let with_cap cap := Conn (st c) (role c) (hbuf c) (h c) (msg c ++ p) cap (msg_op c) (msg_frames c) (want c) in
    if msg_cap c <? need then
      let cap := grow_cap 64 (if msg_cap c =? 0 then 4096 else msg_cap c * 2) need in
      if alloc cap then Some (with_cap cap) else None
    else Some (with_cap (msg_cap c)).

(** The connection, the next [want] (0: close) and what was done. *)
Definition step_result : Type := q_ws_conn * Z * list ws_event.

Definition set_msg (c : q_ws_conn) (op frames : Z) : q_ws_conn :=
  Conn (st c) (role c) (hbuf c) (h c) (msg c) (msg_cap c) op frames (want c).

Definition ws_process (c : q_ws_conn) (p : list Z) : step_result :=
  let op := h_opcode (h c) in
  let fin := negb (h_fin (h c) =? 0) in
  let mask := bool_decide (role c = Q_WS_CLIENT) in
  let n := length p in
  let c := Conn WS_HDR (role c) [] (h c) (msg c) (msg_cap c) (msg_op c) (msg_frames c) 2 in
  if op =? Q_WS_OP_PING then
    (c, if send_ok Q_WS_OP_PONG p then want c else 0, [EvSend Q_WS_OP_PONG p mask])
  else if op =? Q_WS_OP_PONG then (c, want c, [])
  else if op =? Q_WS_OP_CLOSE then
    if (n =? 1)%nat then (c, 0, [ws_close_send 1002 mask])
    else
      let code := if (2 <=? n)%nat then Z.lor (Z.shiftl p.[0] 8) p.[1] else 0 in
      (c, 0, [ws_close_send code mask])
  else if (op =? Q_WS_OP_TEXT) || (op =? Q_WS_OP_BIN) then
    if negb fin then
      let c := set_msg c op 1 in
      match msg_append c p with
      | None => (c, 0, [ws_close_send 1009 mask])
      | Some c => (c, want c, [])
      end
    else if (op =? Q_WS_OP_TEXT) && negb (q_ws_utf8_ok p) then (c, 0, [ws_close_send 1007 mask])
    else (c, want c, ws_dispatch c op p)
  else
    match msg_append c p with
    | None => (c, 0, [ws_close_send 1009 mask])
    | Some c =>
        if negb fin then (c, want c, [])
        else
          let m := msg c in
          let mop := msg_op c in
          let c := Conn (st c) (role c) (hbuf c) (h c) [] 0 0 0 (want c) in
          if (mop =? Q_WS_OP_TEXT) && negb (q_ws_utf8_ok m) then (c, 0, [ws_close_send 1007 mask])
          else (c, want c, ws_dispatch c mop m)
    end.

(** The checks between a complete header and its payload: a close code, or
    the connection with its fragment count advanced. *)
Definition hdr_check (c : q_ws_conn) : Z + q_ws_conn :=
  let want_masked := if bool_decide (role c = Q_WS_SERVER) then 1 else 0 in
  let hd := h c in
  if negb (h_masked hd =? want_masked) || negb (h_rsv hd =? 0) then inl 1002
  else
    let shape : Z + q_ws_conn :=
      if 8 <=? h_opcode hd then
        if (Q_WS_OP_PONG <? h_opcode hd) || (h_fin hd =? 0) || (125 <? h_len hd) then inl 1002 else inr c
      else if Q_WS_OP_BIN <? h_opcode hd then inl 1002
      else if h_opcode hd =? Q_WS_OP_CONT then
        if msg_op c =? 0 then inl 1002
        else
          let frames := u32 (msg_frames c + 1) in
          if Q_WS_MAX_FRAGS <? frames then inl 1009 else inr (set_msg c (msg_op c) frames)
      else if negb (msg_op c =? 0) then inl 1002
      else inr c in
    match shape with
    | inl code => inl code
    | inr c =>
        if (h_opcode hd <? 8) &&
           ((Q_WS_MAX_MSG <? h_len hd) || (Q_WS_MAX_MSG <? u64 (length (msg c) + h_len hd)))
        then inl 1009 else inr c
    end.

Definition with_hdr (c : q_ws_conn) (s : ws_st) (hb : list Z) (hd : q_ws_hdr_t) (w : Z) : q_ws_conn :=
  Conn s (role c) hb hd (msg c) (msg_cap c) (msg_op c) (msg_frames c) w.

(** Bytes of a header from its first two. *)
Definition hdr_full (b1 : Z) : nat :=
  let len7 := Z.land b1 0x7F in
  (2 + (if (len7 =? 126)%Z then 2 else if (len7 =? 127)%Z then 8 else 0)
     + (if negb (Z.land b1 0x80 =? 0)%Z then 4 else 0))%nat.

(** A complete header: close, process an empty payload, or wait for it. *)
Definition after_hdr (c : q_ws_conn) : step_result :=
  let m := bool_decide (role c = Q_WS_CLIENT) in
  match hdr_check c with
  | inl code => (c, 0, [ws_close_send code m])
  | inr c =>
      if h_len (h c) =? 0 then ws_process c []
      else (with_hdr c WS_PAYLOAD (hbuf c) (h c) (h_len (h c)), h_len (h c), [])
  end.

Definition q_ws_feed (c : q_ws_conn) (data : list Z) : step_result :=
  let m := bool_decide (role c = Q_WS_CLIENT) in
  if decide (st c = WS_PAYLOAD) then
    ws_process c (if negb (h_masked (h c) =? 0) then q_ws_mask_apply data (h_mask (h c)) 0 else data)
  else if (14 <? length (hbuf c) + length data)%nat then (c, 0, [ws_close_send 1002 m])
  else
    let hb := hbuf c ++ data in
    match q_ws_hdr_parse hb with
    | HdrBad => (with_hdr c (st c) hb (h c) (want c), 0, [ws_close_send 1002 m])
    | HdrMore =>
        let w := hdr_full hb.[1] - length hb in
        (with_hdr c WS_HDREXT hb (h c) w, w, [])
    | HdrDone hd => after_hdr (with_hdr c (st c) hb hd (want c))
    end.

(** The read pump ([ipc_read_ws] of [src/core/ipc.c]): exact-size reads of
    [w] bytes from the stream [s], each fed to the connection. *)
Inductive pump_result := Waiting (c : q_ws_conn) (w : Z) (s : list Z) | Closed.

Fixpoint ipc_read_ws (fuel : nat) (c : q_ws_conn) (w : Z) (s : list Z)
  : option (pump_result * list ws_event) :=
  if length s <? w then Some (Waiting c w s, [])
  else
    match fuel with
    | O => None
    | S fuel =>
        let n := Z.to_nat w in
        let '(c, w, ev) := q_ws_feed c (take n s) in
        if w <=? 0 then Some (Closed, ev)
        else
          match ipc_read_ws fuel c w (drop n s) with
          | Some (r, ev') => Some (r, ev ++ ev')
          | None => None
          end
    end.
End machine.

(** ** The wire format of a header *)
#[local] Arguments Z.pow : simpl never.

Lemma be_bytes_2 v : be_bytes 2 v = [v / 256 mod 256; v mod 256].
Proof. cbn. change (256 ^ 1%nat) with 256. change (256 ^ 0%nat) with 1. by rewrite Z.div_1_r. Qed.

Lemma be_bytes_8_cons v : be_bytes 8 v = (v / 2 ^ 56) mod 256 :: be_bytes 7 v.
Proof. done. Qed.
Definition ext_bytes (len : Z) : list Z :=
  if len <=? 125 then [] else if len <=? 65535 then be_bytes 2 len else be_bytes 8 len.
Definition len7 (len : Z) : Z := if len <=? 125 then len else if len <=? 65535 then 126 else 127.
Definition mask_bytes (hd : q_ws_hdr_t) : list Z := if h_masked hd =? 0 then [] else h_mask hd.

Definition hdr_wire (hd : q_ws_hdr_t) : list Z :=
  (128 * h_fin hd + 16 * h_rsv hd + h_opcode hd) :: (128 * h_masked hd + len7 (h_len hd)) ::
  ext_bytes (h_len hd) ++ mask_bytes hd.

Record hdr_wf (hd : q_ws_hdr_t) : Prop := {
  wf_fin : 0 <= h_fin hd < 2;
  wf_rsv : 0 <= h_rsv hd < 8;
  wf_opcode : 0 <= h_opcode hd < 16;
  wf_masked : 0 <= h_masked hd < 2;
  wf_len : 0 <= h_len hd < 2 ^ 63;
  wf_mask : length (h_mask hd) = 4%nat /\ bytes_ok (h_mask hd) /\ (h_masked hd = 0 -> h_mask hd = [0; 0; 0; 0]);
  wf_hdr_len : h_hdr_len hd = length (hdr_wire hd)
}.

Lemma hdr_byte0 b :
  byte_ok b ->
  Z.land (Z.shiftr b 7) 1 = b / 128 /\ Z.land (Z.shiftr b 4) 7 = b / 16 mod 8 /\
  Z.land b 0xF = b mod 16 /\ Z.land b 0x7F = b mod 128 /\ (Z.land b 0x80 =? 0) = (b <? 128).
Proof. intros Hb. byte_exhaust Hb. Qed.

Lemma len_bytes_be bs : bytes_ok bs -> (length bs <= 8)%nat -> len_bytes bs = be_load bs.
Proof.
  unfold len_bytes, be_load. intros Hb Hl.
  assert (Hg : forall a, 0 <= a -> (a + 1) * 256 ^ length bs <= 2 ^ 64 ->
    foldl (fun len b => Z.lor (u64 (Z.shiftl len 8)) b) a bs = foldl (fun acc b => acc * 256 + b) a bs).
  2: { apply Hg; [lia|]. transitivity (256 ^ 8); [|done]. rewrite Z.mul_1_l. apply Z.pow_le_mono_r; lia. }
  clear Hl. induction Hb as [|b bs Hb _ IH]; intros a Ha Hm; [done|].
  cbn [length] in Hm. rewrite Nat2Z.inj_succ, Z.pow_succ_r in Hm by lia. unfold byte_ok in Hb.
  pose proof (Z.pow_pos_nonneg 256 (length bs) ltac:(lia) ltac:(lia)). simpl.
  rewrite Z.shiftl_mul_pow2, u64_small by (try done; change (2 ^ 8) with 256; nia).
  rewrite (Z.mul_comm a), (lor_disjoint 8) by (try done; lia). change (2 ^ 8) with 256.
  rewrite (Z.mul_comm 256). apply IH; nia.
Qed.

Lemma ext_bytes_ok len : bytes_ok (ext_bytes len).
Proof. unfold ext_bytes. repeat bif; [constructor|apply be_bytes_ok..]. Qed.

(** The extended length field: what the parser accepts is the canonical form. *)
Lemma hdr_ext_complete b0 b1 len rest :
  0 <= len < 2 ^ 63 -> bytes_ok rest ->
  hdr_ext_len (b0 :: b1 :: ext_bytes len ++ rest) (len7 len) = inr (len, (2 + length (ext_bytes len))%nat).
Proof.
  intros Hlen Hr. unfold hdr_ext_len, len7, ext_bytes.
  destruct (Z.leb_spec len 125); [repeat bif; (done || lia)|].
  destruct (Z.leb_spec len 65535).
  - change (126 =? 126) with true. rewrite be_bytes_2. cbn. unfold rd; cbn.
    rewrite lor_shiftl_add by (try done; lia). change (2 ^ 8) with 256.
    replace ((len / 256) mod 256 * 256 + len mod 256) with len by lia.
    bif; [lia|]. bif; [lia|done].
  - change (127 =? 126) with false. change (127 =? 127) with true. cbv iota.
    bif; [cbn in *; lia|]. rewrite rd_cons_S, rd_cons_S, be_bytes_8_cons. cbn [app]. rewrite rd_cons_0.
    destruct (hdr_byte0 ((len / 2 ^ 56) mod 256)) as (_ & _ & _ & _ & ->); [unfold byte_ok; lia|].
    rewrite (proj2 (Z.ltb_lt _ 128)) by lia. cbn [negb].
    rewrite app_comm_cons, <- be_bytes_8_cons. cbn [drop].
    rewrite drop_0, take_app_length' by (by rewrite length_be_bytes).
    rewrite len_bytes_be, be_load_bytes by (apply be_bytes_ok || rewrite length_be_bytes; lia).
    rewrite Z.mod_small by (change (256 ^ 8%nat) with (2 ^ 64); lia).
    bif; [lia|done].
Qed.

Lemma hdr_ext_sound b0 b1 b l7 len pos :
  bytes_ok b -> 0 <= l7 < 128 -> hdr_ext_len (b0 :: b1 :: b) l7 = inr (len, pos) ->
  0 <= len < 2 ^ 63 /\ l7 = len7 len /\ pos = (2 + length (ext_bytes len))%nat /\
  b = ext_bytes len ++ drop (length (ext_bytes len)) b.
Proof.
  intros Hb Hl7. unfold hdr_ext_len. destruct (Z.eqb_spec l7 126) as [->|]; [|destruct (Z.eqb_spec l7 127) as [->|]].
  - bif; [done|]. destruct b as [|b2 [|b3 b]]; simpl in E; [lia|lia|]. unfold rd; simpl.
    apply Forall_cons in Hb as [H2 Hb]. apply Forall_cons in Hb as [H3 Hb]. unfold byte_ok in *.
    rewrite lor_shiftl_add by (try done; lia). change (2 ^ 8) with 256. bif; [done|]. intros [= <- <-].
    unfold len7, ext_bytes. rewrite !(proj2 (Z.leb_gt _ 125)), !(proj2 (Z.leb_le _ 65535)) by lia.
    split_and!; [lia|lia|done|done|]. simpl. f_equal; [lia|]. f_equal; lia.
  - bif; [done|]. simpl in E. rename E into Hn.
    assert (Hb8 : bytes_ok (take 8 b)) by (by apply Forall_take).
    assert (H8 : length (take 8 b) = 8%nat) by (rewrite length_take; lia).
    assert (H2 : rd (b0 :: b1 :: b) 2 = rd (take 8 b) 0) by (destruct b; [simpl in *; lia|done]).
    rewrite H2. destruct (hdr_byte0 (rd (take 8 b) 0)) as (_ & _ & _ & _ & Hbit); [by apply rd_byte_ok|].
    rewrite Hbit. bif; [done|]. cbn [drop]. rewrite drop_0, len_bytes_be by (try done; lia). bif; [done|].
    intros [= <- <-]. pose proof (be_bytes_load (take 8 b) Hb8) as Hbe. rewrite H8 in Hbe.
    assert (Hlt : 0 <= be_load (take 8 b) < 2 ^ 63).
    { pose proof (digits_val_bounds 256 (take 8 b) ltac:(lia) Hb8) as Hd. rewrite <- be_load_digits in Hd. split; [lia|].
      destruct (take 8 b) as [|t0 tl] eqn:Et; [done|]. rewrite be_load_digits, digits_val_cons.
      apply Forall_cons in Hb8 as [Ht0 Htl]. pose proof (digits_val_bounds 256 tl ltac:(lia) Htl) as Hd2.
      simpl in H8. assert (length tl = 7%nat) as Hl by lia. rewrite Hl in *. change (256 ^ 7%nat) with (2 ^ 56) in *.
      change (rd (t0 :: tl) 0) with t0 in *. lia. }
    unfold len7, ext_bytes. rewrite !(proj2 (Z.leb_gt _ 125)), !(proj2 (Z.leb_gt _ 65535)) by lia.
    rewrite length_be_bytes, Hbe. rewrite take_drop. done.
  - intros [= <- <-]. unfold len7, ext_bytes. rewrite !(proj2 (Z.leb_le _ 125)) by lia. split_and!; (lia || done).
Qed.

Lemma hdr_parse_complete hd rest :
  hdr_wf hd -> bytes_ok rest -> q_ws_hdr_parse (hdr_wire hd ++ rest) = HdrDone hd.
Proof.
  destruct hd as [fin rsv op masked len mask hl]. intros [Hf Hr Ho Hm Hl (Hml & Hmo & Hm0) Hhl] Hrest.
  unfold hdr_wire, q_ws_hdr_parse, mask_bytes in *.
  cbn [h_fin h_rsv h_opcode h_masked h_len h_mask h_hdr_len length app] in *.
  assert (H7 : 0 <= len7 len < 128) by (unfold len7; repeat bif; lia).
  set (x0 := 128 * fin + 16 * rsv + op). set (x1 := 128 * masked + len7 len).
  destruct (hdr_byte0 x0) as (E1 & E2 & E3 & _); [unfold byte_ok; lia|].
  destruct (hdr_byte0 x1) as (E4 & _ & _ & E5 & _); [unfold byte_ok; lia|].
  rewrite rd_cons_S, !rd_cons_0, E1, E2, E3, E4, E5.
  replace (x0 / 128) with fin by lia. replace (x0 / 16 mod 8) with rsv by lia.
  replace (x0 mod 16) with op by lia. replace (x1 / 128) with masked by lia.
  replace (x1 mod 128) with (len7 len) by lia. clear E1 E2 E3 E4 E5.
  assert (Hmb : bytes_ok (if masked =? 0 then [] else mask)) by (bif; [constructor|done]).
  rewrite <- app_assoc, hdr_ext_complete by (try done; by apply Forall_app).
  bif; [cbn [length] in *; lia|]. clear E. bif.
  - rewrite (proj2 (Z.eqb_neq _ 0)) in Hhl |- * by done. bif.
    { cbn [length] in *. rewrite !length_app in E0. lia. }
    cbn [drop Nat.add]. rewrite drop_app_length, take_app_length' by done.
    by rewrite Hhl, length_app, Hml.
  - rewrite Hm0 by done. f_equal. f_equal. rewrite Hhl, E. change (0 =? 0) with true. cbv iota.
    by rewrite app_nil_r.
Qed.

Lemma hdr_parse_sound b hd :
  bytes_ok b -> q_ws_hdr_parse b = HdrDone hd -> hdr_wf hd /\ b = hdr_wire hd ++ drop (h_hdr_len hd) b.
Proof.
  intros Hb. unfold q_ws_hdr_parse. bif; [done|]. destruct b as [|b0 [|b1 b]]; simpl in E; [lia|lia|].
  rewrite rd_cons_S, !rd_cons_0.
  apply Forall_cons in Hb as [H0 Hb]. apply Forall_cons in Hb as [H1 Hb].
  destruct (hdr_byte0 b0 H0) as (-> & -> & -> & _). destruct (hdr_byte0 b1 H1) as (-> & _ & _ & -> & _).
  unfold byte_ok in H0, H1.
  destruct (hdr_ext_len (b0 :: b1 :: b) (b1 mod 128)) as [r|[len pos]] eqn:Ex.
  { intros ->. revert Ex. unfold hdr_ext_len. repeat bif; done. }
  apply hdr_ext_sound in Ex as (Hlen & H7 & -> & Hbx); [|done|lia].
  set (e := length (ext_bytes len)) in *.
  assert (Hle : (e <= length b)%nat) by (rewrite Hbx, length_app; unfold e; lia).
  bif.
  - bif; [done|]. cbn [length] in E1. intros [= <-]. cbn [drop Nat.add] in *.
    assert (Hml : length (take 4 (drop e b)) = 4%nat) by (rewrite length_take, length_drop; lia).
    assert (Hw : hdr_wire (Hdr (b0 / 128) (b0 / 16 mod 8) (b0 mod 16) (b1 / 128) len (take 4 (drop e b)) (S (S (e + 4))))
      = b0 :: b1 :: ext_bytes len ++ take 4 (drop e b)).
    { unfold hdr_wire, mask_bytes. cbn [h_fin h_rsv h_opcode h_masked h_len h_mask].
      rewrite (proj2 (Z.eqb_neq _ 0)) by done. rewrite <- H7. f_equal; [lia|]. f_equal. lia. }
    split.
    + split; rewrite ?Hw; cbn [h_fin h_rsv h_opcode h_masked h_len h_mask h_hdr_len length]; try lia.
      * split_and!; [done|by apply Forall_take, Forall_drop|lia].
      * rewrite length_app, Hml. fold e. lia.
    + rewrite Hw. cbn [h_hdr_len drop app]. f_equal. f_equal. rewrite <- app_assoc, <- drop_drop, take_drop. done.
  - intros [= <-]. cbn [Nat.add]. assert (Hw : hdr_wire (Hdr (b0 / 128) (b0 / 16 mod 8) (b0 mod 16) (b1 / 128) len [0; 0; 0; 0] (S (S e)))
      = b0 :: b1 :: ext_bytes len).
    { unfold hdr_wire, mask_bytes. cbn [h_fin h_rsv h_opcode h_masked h_len h_mask].
      rewrite E0. change (0 =? 0) with true. cbv iota. rewrite app_nil_r, <- H7. f_equal; [lia|]. f_equal. lia. }
    split.
    + split; rewrite ?Hw; cbn [h_fin h_rsv h_opcode h_masked h_len h_mask h_hdr_len length]; try lia.
      split_and!; [done|repeat constructor; lia|done].
    + rewrite Hw. cbn [h_hdr_len drop app Nat.add]. f_equal. by f_equal.
Qed.

Definition mk_hdr (fin op : Z) (mask : option (list Z)) (len : Z) : q_ws_hdr_t :=
  Hdr fin 0 op (match mask with Some _ => 1 | None => 0 end) len (default [0; 0; 0; 0] mask)
    (2 + length (ext_bytes len) + match mask with Some _ => 4 | None => 0 end).

Lemma mk_hdr_wf fin op mask len :
  0 <= fin < 2 -> 0 <= op < 16 -> 0 <= len < 2 ^ 63 ->
  (forall k, mask = Some k -> length k = 4%nat /\ bytes_ok k) -> hdr_wf (mk_hdr fin op mask len).
Proof.
  intros Hf Ho Hl Hm. split; try (simpl; destruct mask; lia).
  - destruct mask as [k|]; simpl; [destruct (Hm k eq_refl); by split_and!|].
    split_and!; [done|repeat constructor; lia|done].
  - unfold hdr_wire, mask_bytes. destruct mask as [k|]; simpl.
    + rewrite length_app, (proj1 (Hm k eq_refl)). lia.
    + rewrite app_nil_r. lia.
Qed.

Lemma u8_mod z : u8 z = z mod 256.
Proof. done. Qed.

Lemma q_ws_hdr_encode_wire fin op len :
  0 <= op < 16 -> 0 <= len < 2 ^ 63 ->
  q_ws_hdr_encode fin op len = hdr_wire (mk_hdr (if fin then 1 else 0) op None len).
Proof.
  intros Ho Hl. unfold q_ws_hdr_encode, hdr_wire, mask_bytes, mk_hdr.
  cbn [h_fin h_rsv h_opcode h_masked h_len h_mask default]. change (0 =? 0) with true. cbv iota.
  rewrite app_nil_r. f_equal.
  - change 15 with (2 ^ 4 - 1). rewrite land_mask by done. change (2 ^ 4) with 16.
    rewrite (Z.mod_small op 16) by done. destruct fin.
    + change 128 with (2 ^ 7 * 1) at 1. rewrite lor_disjoint by lia. unfold u8, wrap. lia.
    + rewrite Z.lor_0_l. unfold u8, wrap. lia.
  - unfold len7, ext_bytes. bif; [|bif]; rewrite ?be_bytes_2, ?Z.shiftr_div_pow2, ?u8_mod by done.
    + f_equal. lia.
    + change (2 ^ 8) with 256. repeat f_equal; lia.
    + change (seqZ 0 8) with [0; 1; 2; 3; 4; 5; 6; 7]. cbn [fmap list_fmap].
      rewrite !Z.shiftr_div_pow2, !u8_mod by lia. done.
Qed.

Lemma q_ws_mask_apply_length p key off : length (q_ws_mask_apply p key off) = length p.
Proof. revert off. induction p as [|b p IH]; intros off; simpl; [done|by rewrite IH]. Qed.

Lemma q_ws_mask_apply_involutive p key off : q_ws_mask_apply (q_ws_mask_apply p key off) key off = p.
Proof.
  revert off. induction p as [|b p IH]; intros off; simpl; [done|].
  by rewrite IH, Z.lxor_assoc, Z.lxor_nilpotent, Z.lxor_0_r.
Qed.

Lemma q_ws_mask_apply_app p1 p2 key off :
  q_ws_mask_apply (p1 ++ p2) key off = q_ws_mask_apply p1 key off ++ q_ws_mask_apply p2 key (off + length p1).
Proof.
  revert off. induction p1 as [|b p1 IH]; intros off; simpl; [by rewrite Nat.add_0_r|].
  rewrite IH. do 2 f_equal. f_equal. lia.
Qed.

Lemma lxor_byte a b : byte_ok a -> byte_ok b -> byte_ok (Z.lxor a b).
Proof.
  unfold byte_ok. intros Ha Hb. assert (0 <= Z.lxor a b) by (apply Z.lxor_nonneg; lia). split; [done|].
  destruct (decide (Z.lxor a b = 0)) as [->|]; [lia|]. apply (Z.log2_lt_pow2 _ 8); [lia|].
  pose proof (Z.log2_lxor a b ltac:(lia) ltac:(lia)).
  assert (Hlog : forall x, 0 <= x < 256 -> Z.log2 x < 8).
  { intros x Hx. destruct (decide (x = 0)) as [->|]; [done|]. apply Z.log2_lt_pow2; lia. }
  pose proof (Hlog a Ha). pose proof (Hlog b Hb). lia.
Qed.

Lemma q_ws_mask_apply_bytes p key off :
  bytes_ok p -> bytes_ok key -> bytes_ok (q_ws_mask_apply p key off).
Proof.
  intros Hp Hk. revert off. induction Hp as [|b p Hb _ IH]; intros off; simpl; constructor; [|apply IH].
  apply lxor_byte; [done|by apply rd_byte_ok].
Qed.

Lemma key_bytes_ok k : length (key_bytes k) = 4%nat /\ bytes_ok (key_bytes k).
Proof. split; [done|]. repeat constructor; apply u8_range. Qed.

Lemma ws_frame_send_wire alloc seed rng op payload mask wire rng' :
  0 <= op < 16 -> bytes_ok payload -> length payload < 2 ^ 63 ->
  ws_frame_send alloc seed rng op payload mask = Some (wire, rng') ->
  exists key, (mask = false -> key = None) /\ (mask = true -> is_Some key) /\
   (forall k, key = Some k -> length k = 4%nat /\ bytes_ok k) /\
   wire = hdr_wire (mk_hdr 1 op key (length payload)) ++
     match key with Some k => q_ws_mask_apply payload k 0 | None => payload end.
Proof.
  intros Ho Hp Hl. unfold ws_frame_send. destruct mask.
  - destruct (ws_mask_next seed rng) as [k r]. bif; [done|]. intros [<- <-]%(inj Some)%pair_equal_spec.
    exists (Some (key_bytes k)). split_and!; [done|by eexists|intros ? [= <-]; apply key_bytes_ok|].
    rewrite app_assoc. f_equal. rewrite q_ws_hdr_encode_wire by lia.
    unfold hdr_wire, set_mask_bit, mask_bytes, mk_hdr.
    cbn [h_fin h_rsv h_opcode h_masked h_len h_mask default].
    change (0 =? 0) with true. change (1 =? 0) with false. cbv iota. rewrite app_nil_r.
    rewrite rd_cons_S, rd_cons_0. cbn. f_equal. f_equal.
    assert (H7 : 0 <= len7 (length payload) < 128) by (unfold len7; repeat bif; lia).
    change (128 * 0) with 0. rewrite Z.add_0_l, Z.lor_comm. apply (lor_disjoint 7 1); lia.
  - intros [<- <-]%(inj Some)%pair_equal_spec. exists None. split_and!; [done..|]. by rewrite q_ws_hdr_encode_wire by lia.
Qed.

(** ** Bounds of the state machine *)
Lemma grow_cap_spec (fuel : nat) cap need :
  0 < cap -> need <= cap * 2 ^ fuel -> need <= grow_cap fuel cap need /\
  (grow_cap fuel cap need <= Z.max cap (2 * need)).
Proof.
  revert cap. induction fuel as [|fuel IH]; intros cap Hc Hn; cbn [grow_cap].
  - change (2 ^ 0%nat) with 1 in Hn. lia.
  - rewrite Nat2Z.inj_succ, Z.pow_succ_r in Hn by lia. bif; [|lia].
    destruct (IH (cap * 2)) as [H1 H2]; [lia|lia|]. split; [done|]. lia.
Qed.

(** The message accumulator between steps. *)
Record msg_inv (c : q_ws_conn) : Prop := {
  mi_cap : length (msg c) <= msg_cap c;
  mi_len : length (msg c) <= Q_WS_MAX_MSG;
  mi_cap_max : msg_cap c <= 2 * Q_WS_MAX_MSG;
  mi_frames : 0 <= msg_frames c <= Q_WS_MAX_FRAGS;
  mi_op : msg_op c = 0 \/ msg_op c = 1 \/ msg_op c = 2;
  mi_idle : msg_op c = 0 -> msg c = []
}.

(** The header in [h c] may be followed by a payload of [n] bytes. *)
Record proc_ok (c : q_ws_conn) (n : Z) : Prop := {
  po_size : h_opcode (h c) < 8 -> length (msg c) + n <= Q_WS_MAX_MSG;
  po_cont : h_opcode (h c) = 0 -> msg_op c <> 0;
  po_first : h_opcode (h c) = 1 \/ h_opcode (h c) = 2 -> msg_op c = 0;
  po_opcode : h_opcode (h c) = 0 \/ h_opcode (h c) = 1 \/ h_opcode (h c) = 2 \/
     h_opcode (h c) = 8 \/ h_opcode (h c) = 9 \/ h_opcode (h c) = 10
}.

Record conn_inv (c : q_ws_conn) (w : Z) : Prop := {
  ci_want : w = want c /\ 0 < w <= Q_WS_MAX_MSG;
  ci_hbuf : bytes_ok (hbuf c);
  ci_msg : msg_inv c;
  ci_st : match st c with
          | WS_HDR => hbuf c = [] /\ w = 2
          | WS_HDREXT => exists b0 b1, hbuf c = [b0; b1] /\ w = hdr_full b1 - 2
          | WS_PAYLOAD => w = h_len (h c) /\ proc_ok c w
          end
}.

Lemma msg_append_inv alloc c p c' :
  msg_inv c -> length (msg c) + length p <= Q_WS_MAX_MSG -> msg_append alloc c p = Some c' ->
  exists cap, c' = Conn (st c) (role c) (hbuf c) (h c) (msg c ++ p) cap (msg_op c) (msg_frames c) (want c) /\
    length (msg c ++ p) <= cap /\ cap <= 2 * Q_WS_MAX_MSG.
Proof.
  intros [H1 _ H2 _ _ _] H3. unfold msg_append. bif.
  - intros [= <-]. exists (msg_cap c). destruct p; [|done]. rewrite app_nil_r. by destruct c.
  - bif.
    2: { intros [= <-]. eexists. split; [done|]. rewrite length_app. lia. }
    set (c0 := if msg_cap c =? 0 then 4096 else msg_cap c * 2).
    set (need := (length (msg c) + length p) : Z) in *.
    assert (Hc0 : 0 < c0) by (unfold c0; bif; lia).
    assert (Hc0' : c0 <= 4096 \/ c0 = msg_cap c * 2) by (unfold c0; bif; lia).
    destruct (grow_cap_spec 64 c0 need) as [G1 G2].
    + lia.
    + change (2 ^ 64%nat) with 18446744073709551616. unfold Q_WS_MAX_MSG in *. lia.
    + generalize dependent (grow_cap 64 c0 need). intros g G1 G2. bif; [|done]. intros [= <-].
      exists g. split; [done|]. rewrite length_app. unfold Q_WS_MAX_MSG in *. lia.
Qed.

Lemma hdr_full_spec b1 :
  byte_ok b1 ->
  hdr_full b1 = (2 + (if (b1 mod 128 =? 126)%Z then 2 else if (b1 mod 128 =? 127)%Z then 8 else 0)
     + (if (b1 <? 128)%Z then 0 else 4))%nat.
Proof. intros Hb. byte_exhaust Hb. Qed.

Lemma hdr_more b0 b1 b :
  byte_ok b1 -> q_ws_hdr_parse (b0 :: b1 :: b) = HdrMore -> (2 + length b < hdr_full b1)%nat.
Proof.
  intros Hb. destruct (hdr_byte0 b1 Hb) as (E1 & _ & _ & E4 & _). rewrite hdr_full_spec by done.
  unfold q_ws_hdr_parse. rewrite rd_cons_S, !rd_cons_0, E1, E4. cbn [length]. unfold byte_ok in Hb.
  assert (Hm : (if b1 <? 128 then 0%nat else 4%nat) = (if b1 / 128 =? 0 then 0%nat else 4%nat)).
  { destruct (Z.ltb_spec b1 128), (Z.eqb_spec (b1 / 128) 0); lia. }
  rewrite Hm. bif; [lia|]. unfold hdr_ext_len. cbn [length].
  destruct (b1 mod 128 =? 126) eqn:E126; [|destruct (b1 mod 128 =? 127) eqn:E127].
  all: destruct (b1 / 128 =? 0) eqn:Ek; cbn [negb]; repeat bif; try done; cbv iota beta; repeat bif; try done; intros _; lia.
Qed.

(** The checks on a complete header let through only what [ws_process] may
    be given. *)
Lemma hdr_check_inv c c' :
  msg_inv c -> hdr_wf (h c) -> hdr_check c = inr c' ->
  exists fr, c' = set_msg c (msg_op c) fr /\ msg_inv c' /\ proc_ok c' (h_len (h c)) /\ h_len (h c) <= Q_WS_MAX_MSG.
Proof.
  intros [H1 H2 H3 H4 H5 H6] [Hfin Hrsv Hop Hmk Hlen _ _]. unfold hdr_check. bif; [done|].
  assert (Hset : set_msg c (msg_op c) (msg_frames c) = c) by (by destruct c).
  assert (Hu : u64 (length (msg c) + h_len (h c)) = length (msg c) + h_len (h c))
    by (apply u64_small; unfold Q_WS_MAX_MSG in *; lia).
  unfold Q_WS_OP_PONG, Q_WS_OP_BIN, Q_WS_OP_CONT.
  destruct (8 <=? h_opcode (h c)) eqn:E8; bprop.
  { bif; [done|]. rewrite (proj2 (Z.ltb_ge _ 8)) by lia. cbn [andb]. intros [= <-].
    exists (msg_frames c). rewrite Hset. split_and!; [done|by split| |unfold Q_WS_MAX_MSG; lia].
    split; simpl; lia. }
  destruct (2 <? h_opcode (h c)) eqn:E2; bprop; [done|].
  destruct (h_opcode (h c) =? 0) eqn:E0; bprop.
  - destruct (msg_op c =? 0) eqn:Em; bprop; [done|].
    bif; [done|]. cbn [length set_msg msg]. rewrite Hu. rewrite (proj2 (Z.ltb_lt _ 8)) by lia. cbn [andb].
    bif; [done|]. intros [= <-]. exists (u32 (msg_frames c + 1)).
    assert (u32 (msg_frames c + 1) = msg_frames c + 1) as Hu32 by (apply u32_small; unfold Q_WS_MAX_FRAGS in *; lia).
    split_and!; [done| |split; simpl; lia|lia].
    split; simpl; try done. rewrite Hu32 in *. lia.
  - destruct (msg_op c =? 0) eqn:Em; bprop; [cbn [negb]|done].
    rewrite Hu, (proj2 (Z.ltb_lt _ 8)) by lia. cbn [andb]. bif; [done|]. intros [= <-].
    exists (msg_frames c). rewrite Hset. split_and!; [done|by split|split; simpl; lia|lia].
Qed.

Section bounds.
Context (zws_set : bool) (alloc : Z -> bool) (arg_ok : list Z -> bool) (send_ok : Z -> list Z -> bool).
#[local] Abbreviation feed := (q_ws_feed zws_set alloc arg_ok send_ok).
#[local] Abbreviation process := (ws_process zws_set alloc arg_ok send_ok).

Lemma ws_process_inv c p c' w' ev :
  msg_inv c -> proc_ok c (length p) -> process c p = (c', w', ev) -> w' <> 0 -> conn_inv c' w'.
Proof.
  intros Hm [Hs Hc Hf Ho] Hp Hw'. pose proof Hm as [H1 H2 H3 H4 H5 H6].
  set (c0 := Conn WS_HDR (role c) [] (h c) (msg c) (msg_cap c) (msg_op c) (msg_frames c) 2).
  assert (Hm0 : msg_inv c0) by (split; done).
  assert (Hfresh : forall c1 w, msg_inv c1 -> st c1 = WS_HDR -> hbuf c1 = [] -> want c1 = 2 -> w = want c1 -> conn_inv c1 w).
  { intros c1 w ? E1 E2 E3 ->. split; [by rewrite E3|rewrite E2; constructor|done|]. by rewrite E1. }
  assert (Happ : forall op fr c1, op = 1 \/ op = 2 -> 0 <= fr <= Q_WS_MAX_FRAGS -> h_opcode (h c) < 8 ->
    msg_append alloc (set_msg c0 op fr) p = Some c1 -> msg_inv c1 /\ st c1 = WS_HDR /\ hbuf c1 = [] /\ want c1 = 2 /\
      msg_op c1 = op).
  { intros op fr c1 Hop Hfr H8 Ha.
    assert (Hm1 : msg_inv (set_msg c0 op fr)) by (split; simpl; auto; destruct Hop; congruence).
    apply msg_append_inv in Ha as (cap & -> & Hl & Hcap); [|done|by apply Hs].
    split_and!; [split; simpl; auto|done..]; [rewrite length_app; specialize (Hs H8); lia|intros ->; destruct Hop; done]. }
  revert Hp. unfold ws_process. fold c0.
  bif; [bif; intros [= <- <- <-]; [by apply Hfresh|done]|].
  bif; [intros [= <- <- <-]; by apply Hfresh|].
  bif; [bif; intros [= <- <- <-]; done|].
  bif.
  - assert (h_opcode (h c) = 1 \/ h_opcode (h c) = 2) as Hop by (unfold Q_WS_OP_TEXT, Q_WS_OP_BIN in *; lia).
    bif; [|bif; intros [= <- <- <-]; [done|by apply Hfresh]].
    destruct (msg_append _ _ _) as [c1|] eqn:Ea; intros [= <- <- <-]; [|done].
    apply Happ in Ea as (? & ? & ? & Hwt & ?); [by apply Hfresh|done|unfold Q_WS_MAX_FRAGS; lia|lia].
  - assert (h_opcode (h c) = 0) as Hop by (unfold Q_WS_OP_TEXT, Q_WS_OP_BIN, Q_WS_OP_PING, Q_WS_OP_PONG, Q_WS_OP_CLOSE in *; lia).
    destruct (msg_append _ _ _) as [c1|] eqn:Ea; [|intros [= <- <- <-]; done].
    replace c0 with (set_msg c0 (msg_op c0) (msg_frames c0)) in Ea by done.
    apply Happ in Ea as (Hm1 & ? & ? & Hwt & Hop1); [|specialize (Hc Hop); simpl; lia|done|lia].
    bif; [intros [= <- <- <-]; by apply Hfresh|].
    bif; intros [= <- <- <-]; [done|]. apply Hfresh; [|done..].
    split; simpl; unfold Q_WS_MAX_MSG, Q_WS_MAX_FRAGS; try lia; auto.
Qed.

Lemma after_hdr_inv c c' w' ev :
  msg_inv c -> hdr_wf (h c) -> bytes_ok (hbuf c) ->
  after_hdr zws_set alloc arg_ok send_ok c = (c', w', ev) -> w' <> 0 -> conn_inv c' w'.
Proof.
  intros Hm Hh Hb. unfold after_hdr. destruct (hdr_check c) as [code|c1] eqn:Ec; [intros [= <- <- <-]; done|].
  apply hdr_check_inv in Ec as (fr & -> & Hm1 & Hp & Hl); [|done|done]. bif.
  - apply ws_process_inv; [done|]. simpl in E. by rewrite E in Hp.
  - intros [= <- <- <-] _. destruct Hm1, Hp, Hh. split; simpl in *; [split; [done|lia]|done|by split|].
    split; [done|]. by split.
Qed.

Lemma q_ws_feed_inv c w data c' w' ev :
  conn_inv c w -> bytes_ok data -> length data = w :> Z -> feed c data = (c', w', ev) -> w' <> 0 -> conn_inv c' w'.
Proof.
  intros [[Hw Hwb] Hhb Hm Hst] Hd Hl. unfold q_ws_feed.
  assert (Hm1 : forall s hb hd w1, msg_inv (with_hdr c s hb hd w1)) by (intros; by destruct Hm).
  destruct (st c) eqn:Es.
  - destruct Hst as [Hh ->]. rewrite decide_False by done. rewrite Hh. cbn [length app].
    destruct data as [|b0 [|b1 []]]; cbn [length] in Hl; try lia. bif; [simpl in *; lia|].
    destruct (q_ws_hdr_parse [b0; b1]) as [hd| |] eqn:Ep; [| |intros [= <- <- <-]; done].
    + apply hdr_parse_sound in Ep as [Hwf _]; [|done]. by apply after_hdr_inv.
    + apply Forall_cons in Hd as [H0 Hd]. apply Forall_cons in Hd as [H1 _]. apply hdr_more in Ep; [|done].
      intros [= <- <- <-] _. rewrite rd_cons_S, rd_cons_0. cbn [length] in *.
      assert (hdr_full b1 <= 14)%nat by (rewrite hdr_full_spec by done; repeat bif; lia).
      split; simpl; [split; [done|unfold Q_WS_MAX_MSG; lia]|by apply Forall_cons_2, Forall_cons_2|apply Hm1|].
      by exists b0, b1.
  - destruct Hst as (b0 & b1 & Hh & ->). rewrite decide_False by done. rewrite Hh in *. cbn [length app].
    apply Forall_cons in Hhb as [H0 Hb']. apply Forall_cons in Hb' as [H1 _].
    assert (Hb2 : bytes_ok (b0 :: b1 :: data)) by (by apply Forall_cons_2, Forall_cons_2).
    assert (hdr_full b1 <= 14)%nat by (rewrite hdr_full_spec by done; repeat bif; lia). bif; [lia|].
    destruct (q_ws_hdr_parse (b0 :: b1 :: data)) as [hd| |] eqn:Ep; [| |intros [= <- <- <-]; done].
    + apply hdr_parse_sound in Ep as [Hwf _]; [|done]. by apply after_hdr_inv.
    + apply hdr_more in Ep; [lia|done].
  - destruct Hst as [-> Hp]. rewrite decide_True by done. apply ws_process_inv; [done|].
    bif; rewrite ?q_ws_mask_apply_length, ?Hl; done.
Qed.
End bounds.


Inductive ws_reach (zws_set : bool) (alloc : Z -> bool) (arg_ok : list Z -> bool) (send_ok : Z -> list Z -> bool)
  : q_ws_conn -> Z -> Prop :=
  | reach_new is_client : ws_reach zws_set alloc arg_ok send_ok (q_ws_conn_new_role is_client) 2
  | reach_feed c w data c' w' ev :
      ws_reach zws_set alloc arg_ok send_ok c w -> bytes_ok data -> length data = w :> Z ->
      q_ws_feed zws_set alloc arg_ok send_ok c data = (c', w', ev) -> w' <> 0 ->
      ws_reach zws_set alloc arg_ok send_ok c' w'.

(** ** Frame-level specification

    What a peer that sends whole frames should see: the in-flight fragmented
    message is its opcode, the bytes so far and the number of fragments; the
    outcome of a frame is [None] when the connection closes. *)
Definition inflight : Type := option (Z * list Z * Z).

Record frame := Frame { fr_hdr : q_ws_hdr_t; fr_payload : list Z }.

Definition frame_wf (f : frame) : Prop :=
  hdr_wf (fr_hdr f) /\ bytes_ok (fr_payload f) /\ h_len (fr_hdr f) = length (fr_payload f).

Definition frame_wire (f : frame) : list Z :=
  hdr_wire (fr_hdr f) ++
  if h_masked (fr_hdr f) =? 0 then fr_payload f else q_ws_mask_apply (fr_payload f) (h_mask (fr_hdr f)) 0.

Definition inflight_len (m : inflight) : Z := match m with Some (_, bs, _) => length bs | None => 0 end.

Section spec.
Context (zws_set : bool) (arg_ok : list Z -> bool) (send_ok : Z -> list Z -> bool) (r : q_ws_role_t).
Let client : bool := bool_decide (r = Q_WS_CLIENT).

Definition close_frame (code : Z) : ws_event :=
  EvSend 8 (if code =? 0 then [] else [code / 256; code mod 256]) client.

(** The reason to refuse a frame from its header alone. *)
Definition frame_refused (m : inflight) (hd : q_ws_hdr_t) : option Z :=
  if bool_decide (h_masked hd <> if client then 0 else 1) || negb (h_rsv hd =? 0) then Some 1002
  else if 8 <=? h_opcode hd then
    if (h_opcode hd <=? 10) && (h_fin hd =? 1) && (h_len hd <=? 125) then None else Some 1002
  else
    let size := if inflight_len m + h_len hd <=? 32 * 1024 * 1024 then None else Some 1009 in
    match h_opcode hd, m with
    | 0, None => Some 1002
    | 0, Some (_, _, k) => if 65536 <=? k then Some 1009 else size
    | 1, None | 2, None => size
    | _, _ => Some 1002
    end.

(** A complete message: invalid text closes, anything else is delivered. *)
Definition deliver (op : Z) (bs : list Z) : option inflight * list ws_event :=
  if (op =? 1) && negb (q_ws_utf8_ok bs) then (None, [close_frame 1007])
  else
    (Some None,
     if zws_set then if arg_ok bs then [EvHook op bs] else [EvDrop]
     else if (op =? 2) && negb client then [EvSend 2 bs false] else [EvDrop]).

Definition frame_step (m : inflight) (f : frame) : option inflight * list ws_event :=
  let hd := fr_hdr f in
  let p := fr_payload f in
  match frame_refused m hd with
  | Some code => (None, [close_frame code])
  | None =>
      let fin := h_fin hd =? 1 in
      match h_opcode hd, m with
      | 9, _ => (if send_ok 10 p then Some m else None, [EvSend 10 p client])
      | 10, _ => (Some m, [])
      | 8, _ =>
          (None, [close_frame (match p with [] => 0 | [_] => 1002 | a :: b :: _ => 256 * a + b end)])
      | 0, Some (op, bs, k) => if fin then deliver op (bs ++ p) else (Some (Some (op, bs ++ p, k + 1)), [])
      | op, _ => if fin then deliver op p else (Some (Some (op, p, 1)), [])
      end
  end.

Fixpoint frames_run (m : inflight) (fs : list frame) : option inflight * list ws_event :=
  match fs with
  | [] => (Some m, [])
  | f :: fs =>
      match frame_step m f with
      | (None, ev) => (None, ev)
      | (Some m, ev) => let '(o, ev') := frames_run m fs in (o, ev ++ ev')
      end
  end.
End spec.

(** ** The connection implements the frame-level specification *)
Section refine.
Context (zws_set : bool) (arg_ok : list Z -> bool) (send_ok : Z -> list Z -> bool) (r : q_ws_role_t).
#[local] Abbreviation feed := (q_ws_feed zws_set (fun _ => true) arg_ok send_ok).
#[local] Abbreviation process := (ws_process zws_set (fun _ => true) arg_ok send_ok).
#[local] Abbreviation after := (after_hdr zws_set (fun _ => true) arg_ok send_ok).
#[local] Abbreviation fstep := (frame_step zws_set arg_ok send_ok r).

(** The connection's accumulator holds the in-flight message [m]. *)
Record holds (c : q_ws_conn) (m : inflight) : Prop := {
  ho_role : role c = r;
  ho_inv : msg_inv c;
  ho_msg : match m with
           | None => msg_op c = 0
           | Some (op, bs, k) => msg_op c = op /\ (op = 1 \/ op = 2) /\ msg c = bs /\ msg_frames c = k
           end
}.

Definition idle (c : q_ws_conn) (m : inflight) : Prop :=
  holds c m /\ st c = WS_HDR /\ hbuf c = [] /\ want c = 2.

Lemma close_send_frame code : 0 <= code < 65536 ->
  ws_close_send code (bool_decide (r = Q_WS_CLIENT)) = close_frame r code.
Proof.
  intros. unfold ws_close_send, close_frame. bif; [done|].
  rewrite Z.shiftr_div_pow2, !u8_mod by done. change (2 ^ 8) with 256.
  by rewrite (Z.mod_small (code / 256)) by lia.
Qed.

Lemma dispatch_deliver c op bs :
  role c = r -> op = 1 \/ op = 2 -> (op =? 1) && negb (q_ws_utf8_ok bs) = false ->
  deliver zws_set arg_ok r op bs = (Some None, ws_dispatch zws_set arg_ok c op bs).
Proof.
  intros Hr Hop Hu. unfold deliver, ws_dispatch. rewrite Hu, Hr. f_equal.
  destruct zws_set; [done|]. cbn [negb]. destruct r; unfold Q_WS_OP_BIN; destruct (op =? 2); done.
Qed.

Lemma msg_append_true c p :
  msg_inv c -> length (msg c) + length p <= Q_WS_MAX_MSG ->
  exists cap, msg_append (fun _ => true) c p =
    Some (Conn (st c) (role c) (hbuf c) (h c) (msg c ++ p) cap (msg_op c) (msg_frames c) (want c)) /\
    length (msg c ++ p) <= cap /\ cap <= 2 * Q_WS_MAX_MSG.
Proof.
  intros Hm Hl. destruct (msg_append (fun _ => true) c p) as [c1|] eqn:E.
  - apply msg_append_inv in E as (cap & -> & ? & ?); [|done|done]. by exists cap.
  - exfalso. revert E. unfold msg_append. repeat bif; done.
Qed.

(** The header checks agree with the specification. *)
Lemma hdr_check_refines c m :
  holds c m -> hdr_wf (h c) ->
  match hdr_check c with
  | inl code => frame_refused r m (h c) = Some code /\ 0 < code < 65536
  | inr c1 => frame_refused r m (h c) = None /\
      c1 = set_msg c (msg_op c) (if h_opcode (h c) =? 0 then msg_frames c + 1 else msg_frames c)
  end.
Proof.
  intros [Hr [H1 H2 H3 H4 H5 H6] Hm] [Hfin Hrsv Hop Hmk Hlen _ _].
  assert (Hset : set_msg c (msg_op c) (msg_frames c) = c) by (by destruct c).
  assert (Hu : u64 (length (msg c) + h_len (h c)) = length (msg c) + h_len (h c))
    by (apply u64_small; unfold Q_WS_MAX_MSG in *; lia).
  assert (Hinl : inflight_len m = length (msg c)).
  { destruct m as [[[op bs] k]|]; simpl; [by destruct Hm as (_ & _ & -> & _)|]. by rewrite H6. }
  unfold hdr_check, frame_refused, Q_WS_OP_PONG, Q_WS_OP_BIN, Q_WS_OP_CONT, Q_WS_MAX_MSG, Q_WS_MAX_FRAGS in *.
  rewrite Hr, Hinl.
  assert (Hmask : negb (h_masked (h c) =? (if bool_decide (r = Q_WS_SERVER) then 1 else 0)) =
     bool_decide (h_masked (h c) <> if bool_decide (r = Q_WS_CLIENT) then 0 else 1)).
  { destruct r; simpl; apply eq_true_iff_eq; rewrite negb_true_iff, bool_decide_eq_true, Z.eqb_neq; done. }
  rewrite Hmask. bif; [done|].
  destruct (8 <=? h_opcode (h c)) eqn:E8; bprop.
  { rewrite (proj2 (Z.ltb_ge (h_opcode (h c)) 8)), (proj2 (Z.eqb_neq (h_opcode (h c)) 0)), Hset by lia. cbn [andb].
    destruct (Z.ltb_spec 10 (h_opcode (h c))), (Z.eqb_spec (h_fin (h c)) 0), (Z.ltb_spec 125 (h_len (h c)));
      destruct (Z.leb_spec (h_opcode (h c)) 10), (Z.eqb_spec (h_fin (h c)) 1), (Z.leb_spec (h_len (h c)) 125);
      cbn [orb andb]; try lia; done. }
  rewrite (proj2 (Z.ltb_lt (h_opcode (h c)) 8)) by lia. cbn [andb].
  assert (Hsz : (32 * 1024 * 1024 <? h_len (h c)) || (32 * 1024 * 1024 <? u64 (length (msg c) + h_len (h c))) =
    negb (length (msg c) + h_len (h c) <=? 32 * 1024 * 1024)).
  { rewrite Hu. destruct (Z.ltb_spec (32 * 1024 * 1024) (h_len (h c))),
      (Z.ltb_spec (32 * 1024 * 1024) (length (msg c) + h_len (h c))),
      (Z.leb_spec (length (msg c) + h_len (h c)) (32 * 1024 * 1024)); cbn; lia || done. }
  assert (Hopc : h_opcode (h c) = 0 \/ h_opcode (h c) = 1 \/ h_opcode (h c) = 2 \/ 2 < h_opcode (h c)) by lia.
  destruct Hopc as [Eo|[Eo|[Eo|Eo]]].
  4: { rewrite (proj2 (Z.ltb_lt _ _)) by done.
       assert (h_opcode (h c) = 3 \/ h_opcode (h c) = 4 \/ h_opcode (h c) = 5 \/ h_opcode (h c) = 6 \/ h_opcode (h c) = 7)
         as [-> |[-> |[-> |[-> | -> ]]]] by lia; done. }
  all: rewrite Eo; repeat match goal with |- context [?a <? ?b] =>
        first [change (a <? b) with true | change (a <? b) with false] end;
      repeat match goal with |- context [?a =? ?b] =>
        first [change (a =? b) with true | change (a =? b) with false] end; cbv iota.
  all: destruct m as [[[op bs] k]|]; [destruct Hm as (Hop' & Hop12 & Hbs & Hk)|rename Hm into Hop'].
  all: rewrite ?(proj2 (Z.eqb_neq (msg_op c) 0)) by lia; rewrite ?(proj2 (Z.eqb_eq (msg_op c) 0)) by lia; cbn [negb]; try done.
  - assert (Hu32 : u32 (msg_frames c + 1) = msg_frames c + 1) by (apply u32_small; lia). rewrite Hu32, <- Hk.
    destruct (Z.ltb_spec 65536 (msg_frames c + 1)), (Z.leb_spec 65536 (msg_frames c)); try lia; [done|].
    cbn [set_msg msg]. rewrite Hsz. destruct (length (msg c) + h_len (h c) <=? 32 * 1024 * 1024); done.
  - rewrite Hsz, Hset. destruct (length (msg c) + h_len (h c) <=? 32 * 1024 * 1024); done.
  - rewrite Hsz, Hset. destruct (length (msg c) + h_len (h c) <=? 32 * 1024 * 1024); done.
Qed.

Lemma refused_none m hd :
  0 <= h_opcode hd -> frame_refused r m hd = None ->
  (h_opcode hd = 8 \/ h_opcode hd = 9 \/ h_opcode hd = 10) \/
  (exists op bs k, h_opcode hd = 0 /\ m = Some (op, bs, k) /\ k < 65536 /\ length bs + h_len hd <= Q_WS_MAX_MSG) \/
  ((h_opcode hd = 1 \/ h_opcode hd = 2) /\ m = None /\ h_len hd <= Q_WS_MAX_MSG).
Proof.
  intros H0. unfold frame_refused. bif; [done|]. bif.
  { bif; [|done]. intros _. left. lia. }
  intros Hs. right. assert (h_opcode hd = 0 \/ h_opcode hd = 1 \/ h_opcode hd = 2 \/ 2 < h_opcode hd) as [Eo|[Eo|[Eo|Eo]]] by lia.
  1-3: rewrite Eo in *; destruct m as [[[op bs] k]|]; try done; revert Hs; repeat bif; try done; intros _.
  - left. exists op, bs, k. unfold Q_WS_MAX_MSG. simpl in *. auto.
  - right. unfold Q_WS_MAX_MSG. simpl in *. auto with lia.
  - right. unfold Q_WS_MAX_MSG. simpl in *. auto with lia.
  - exfalso. assert (h_opcode hd = 3 \/ h_opcode hd = 4 \/ h_opcode hd = 5 \/ h_opcode hd = 6 \/ h_opcode hd = 7)
      as [Ex|[Ex|[Ex|[Ex|Ex]]]] by lia; rewrite Ex in Hs; done.
Qed.

Definition hdr_state (c : q_ws_conn) : q_ws_conn :=
  Conn WS_HDR (role c) [] (h c) (msg c) (msg_cap c) (msg_op c) (msg_frames c) 2.

Lemma hdr_state_idle c m : holds c m -> idle (hdr_state c) m.
Proof. intros [Hr Hi Hm]. split; [|done]. split; [done|by destruct Hi|done]. Qed.

Lemma close_code_frame a b :
  byte_ok a -> byte_ok b ->
  ws_close_send (Z.lor (Z.shiftl a 8) b) (bool_decide (r = Q_WS_CLIENT)) = close_frame r (256 * a + b).
Proof.
  unfold byte_ok. intros Ha Hb. rewrite lor_shiftl_add by (done || lia). change (2 ^ 8) with 256.
  rewrite (Z.mul_comm a). apply close_send_frame. lia.
Qed.

(** A control payload. *)
Lemma process_control c m p c' w' ev :
  holds c m -> h_opcode (h c) = 8 \/ h_opcode (h c) = 9 \/ h_opcode (h c) = 10 ->
  frame_refused r m (h c) = None -> bytes_ok p -> process c p = (c', w', ev) ->
  let '(o, ev') := fstep m (Frame (h c) p) in
  ev = ev' /\ match o with Some m' => w' = 2 /\ idle c' m' | None => w' = 0 end.
Proof.
  intros Hh Hop Href Hp. pose proof (hdr_state_idle c m Hh) as Hidle. destruct Hh as [Hr _ _].
  unfold frame_step, ws_process. cbn [fr_hdr fr_payload]. fold (hdr_state c). rewrite Href, Hr.
  destruct Hop as [-> |[-> | -> ]].
  - change (8 =? Q_WS_OP_PING) with false. change (8 =? Q_WS_OP_PONG) with false. change (8 =? Q_WS_OP_CLOSE) with true.
    destruct p as [|a [|b p]]; cbn [length]; cbv iota; intros [= <- <- <-]; (split; [|done]); [done|done|].
    apply Forall_cons in Hp as [Ha Hp]. apply Forall_cons in Hp as [Hb _].
    rewrite rd_cons_S, !rd_cons_0. f_equal. by apply close_code_frame.
  - change (9 =? Q_WS_OP_PING) with true. cbv iota. unfold Q_WS_OP_PONG.
    intros [= <- <- <-]. split; [done|]. by destruct (send_ok 10 p).
  - change (10 =? Q_WS_OP_PING) with false. change (10 =? Q_WS_OP_PONG) with true. cbv iota.
    by intros [= <- <- <-].
Qed.

Lemma frame_step_first hd p :
  h_opcode hd = 1 \/ h_opcode hd = 2 -> frame_refused r None hd = None ->
  fstep None (Frame hd p) =
  if h_fin hd =? 1 then deliver zws_set arg_ok r (h_opcode hd) p else (Some (Some (h_opcode hd, p, 1)), []).
Proof. intros Hop Href. unfold frame_step. cbn [fr_hdr fr_payload]. rewrite Href. destruct Hop as [-> | ->]; done. Qed.

(** A whole or a first data frame. *)
Lemma process_first c p c' w' ev :
  holds c None -> h_opcode (h c) = 1 \/ h_opcode (h c) = 2 ->
  frame_refused r None (h c) = None -> 0 <= h_fin (h c) < 2 -> length p <= Q_WS_MAX_MSG ->
  process c p = (c', w', ev) ->
  let '(o, ev') := fstep None (Frame (h c) p) in
  ev = ev' /\ match o with Some m' => w' = 2 /\ idle c' m' | None => w' = 0 end.
Proof.
  intros Hh Hop Href Hfin Hlen. pose proof (hdr_state_idle c None Hh) as Hidle. destruct Hh as [Hr Hinv Hm].
  rewrite frame_step_first by done. unfold ws_process. fold (hdr_state c). rewrite Hr.
  set (op := h_opcode (h c)) in *.
  assert (Hred : (op =? Q_WS_OP_PING) = false /\ (op =? Q_WS_OP_PONG) = false /\ (op =? Q_WS_OP_CLOSE) = false /\
     (op =? Q_WS_OP_TEXT) || (op =? Q_WS_OP_BIN) = true) by (destruct Hop as [-> | ->]; done).
  destruct Hred as (-> & -> & -> & ->).
  assert (Hf : (h_fin (h c) =? 1) = negb (h_fin (h c) =? 0))
    by (destruct (Z.eqb_spec (h_fin (h c)) 0), (Z.eqb_spec (h_fin (h c)) 1); cbn; lia || done).
  rewrite Hf, negb_involutive. destruct (h_fin (h c) =? 0); cbn [negb].
  - destruct Hidle as ([_ Hi _] & _). destruct Hinv as [H1 H2 H3 H4 H5 H6]. simpl in Hm.
    destruct (msg_append_true (set_msg (hdr_state c) op 1) p) as (cap & -> & Hl & Hc).
    { split; simpl; auto; unfold Q_WS_MAX_FRAGS; lia. }
    { simpl. rewrite H6 by done. simpl. lia. }
    intros [= <- <- <-]. split; [done|]. split; [done|].
    split; [|done]. split; simpl; [done| |by rewrite H6]. simpl in Hl. rewrite H6 in * by done.
    split; simpl; auto; unfold Q_WS_MAX_FRAGS; lia.
  - destruct ((op =? Q_WS_OP_TEXT) && negb (q_ws_utf8_ok p)) eqn:Et.
    + unfold deliver. unfold Q_WS_OP_TEXT in Et. rewrite Et. intros [= <- <- <-]. done.
    + rewrite (dispatch_deliver (hdr_state c)) by done. intros [= <- <- <-]. split; [done|]. split; [done|]. done.
Qed.

(** A continuation frame. *)
Lemma process_cont c op bs k p c' w' ev :
  let m := Some (op, bs, k) in
  holds c m -> h_opcode (h c) = 0 -> frame_refused r m (h c) = None -> 0 <= h_fin (h c) < 2 ->
  k < 65536 -> length bs + length p <= Q_WS_MAX_MSG ->
  process (set_msg c (msg_op c) (msg_frames c + 1)) p = (c', w', ev) ->
  let '(o, ev') := fstep m (Frame (h c) p) in
  ev = ev' /\ match o with Some m' => w' = 2 /\ idle c' m' | None => w' = 0 end.
Proof.
  intros m Hh Hop Href Hfin Hk Hlen. destruct Hh as [Hr Hinv (Hmop & Hop12 & Hbs & Hfr)].
  pose proof Hinv as [H1 H2 H3 H4 H5 H6].
  unfold frame_step, ws_process. cbn [fr_hdr fr_payload]. rewrite Href. cbn [h set_msg role msg msg_cap msg_op msg_frames want].
  rewrite Hr, Hop. change (0 =? Q_WS_OP_PING) with false. change (0 =? Q_WS_OP_PONG) with false.
  change (0 =? Q_WS_OP_CLOSE) with false. change (0 =? Q_WS_OP_TEXT) with false. change (0 =? Q_WS_OP_BIN) with false.
  cbv iota. cbn [orb].
  assert (Hf : (h_fin (h c) =? 1) = negb (h_fin (h c) =? 0))
    by (destruct (Z.eqb_spec (h_fin (h c)) 0), (Z.eqb_spec (h_fin (h c)) 1); cbn; lia || done).
  rewrite Hf, negb_involutive.
  destruct (msg_append_true (Conn WS_HDR r [] (h c) (msg c) (msg_cap c) (msg_op c) (msg_frames c + 1) 2) p) as (cap & -> & Hl & Hc).
  { split; simpl; auto. unfold Q_WS_MAX_FRAGS; lia. }
  { simpl. rewrite Hbs. lia. }
  cbn [st role hbuf h msg msg_op msg_frames want] in *. subst m. rewrite Hmop, Hbs, Hfr in *.
  destruct (h_fin (h c) =? 0); cbn [negb].
  - intros [= <- <- <-]. split; [done|]. split; [done|]. split; [|done]. split; simpl; [done| |done].
    rewrite length_app in Hl. split; simpl; rewrite ?length_app; auto; try lia; unfold Q_WS_MAX_FRAGS; lia.
  - destruct ((op =? Q_WS_OP_TEXT) && negb (q_ws_utf8_ok (bs ++ p))) eqn:Et.
    + unfold deliver. unfold Q_WS_OP_TEXT in Et. rewrite Et. intros [= <- <- <-]. done.
    + rewrite (dispatch_deliver (Conn WS_HDR r [] (h c) [] 0 0 0 2)) by done.
      intros [= <- <- <-]. split; [done|]. split; [done|]. split; [|done]. split; simpl; [done| |done].
      split; simpl; unfold Q_WS_MAX_MSG, Q_WS_MAX_FRAGS; auto; lia.
Qed.

(** ** The pump *)
#[local] Abbreviation read_ws := (ipc_read_ws zws_set (fun _ => true) arg_ok send_ok).

Lemma read_ws_mono fuel fuel' c w s R :
  read_ws fuel c w s = Some R -> (fuel <= fuel')%nat -> read_ws fuel' c w s = Some R.
Proof.
  revert fuel' c w s R. induction fuel as [|fuel IH]; intros fuel' c w s R; simpl.
  - bif; [|done]. intros Hr _. destruct fuel'; simpl; by rewrite (proj2 (Z.ltb_lt _ _)) by done.
  - intros Hr Hf. destruct fuel' as [|fuel']; [lia|]. simpl. revert Hr. bif; [done|].
    destruct (feed c (take (Z.to_nat w) s)) as [[c1 w1] ev]. bif; [done|].
    destruct (read_ws fuel c1 w1 _) as [[R1 ev1]|] eqn:Er; [|done].
    by rewrite (IH fuel' _ _ _ _ Er) by lia.
Qed.

Lemma read_ws_enough fuel c w s :
  0 < w -> (length s <= fuel)%nat -> is_Some (read_ws fuel c w s).
Proof.
  revert c w s. induction fuel as [|fuel IH]; intros c w s Hw Hf; simpl.
  - bif; [done|lia].
  - bif; [done|]. destruct (feed c (take (Z.to_nat w) s)) as [[c1 w1] ev]. bif; [done|].
    destruct (IH c1 w1 (drop (Z.to_nat w) s)) as [[R1 ev1] ->]; [done|rewrite length_drop; lia|done].
Qed.

Definition pumps (c : q_ws_conn) (w : Z) (s : list Z) (R : pump_result * list ws_event) : Prop :=
  exists fuel, read_ws fuel c w s = Some R.

(** The pump, resumed with the result of a feed. *)
Definition pumps_res (x : step_result) (s : list Z) (R : pump_result * list ws_event) : Prop :=
  let '(c, w, ev) := x in
  if w <=? 0 then R = (Closed, ev) else exists ev', R.2 = ev ++ ev' /\ pumps c w s (R.1, ev').

Lemma pumps_step c w s R :
  w <= length s -> pumps_res (feed c (take (Z.to_nat w) s)) (drop (Z.to_nat w) s) R -> pumps c w s R.
Proof.
  intros Hw. unfold pumps_res. destruct (feed c _) as [[c1 w1] ev] eqn:Ef. bif.
  - intros ->. exists 1%nat. simpl. rewrite (proj2 (Z.ltb_ge _ _)), Ef by done. by rewrite (proj2 (Z.leb_le _ _)).
  - intros (ev' & Hev & fuel & Hr). exists (S fuel). simpl. rewrite (proj2 (Z.ltb_ge _ _)), Ef by done.
    rewrite (proj2 (Z.leb_gt _ _)), Hr, <- Hev by done. by destruct R.
Qed.

Lemma wire_bytes hd : hdr_wf hd -> bytes_ok (hdr_wire hd).
Proof.
  intros [Hf Hr Ho Hm Hl (Hml & Hmo & _) _]. unfold hdr_wire.
  assert (H7 : 0 <= len7 (h_len hd) < 128) by (unfold len7; repeat bif; lia).
  repeat (apply Forall_cons; split; [unfold byte_ok; lia|]). apply Forall_app. split; [apply ext_bytes_ok|].
  unfold mask_bytes. bif; [constructor|done].
Qed.

Lemma hdr_wire_full hd b0 b1 more :
  hdr_wf hd -> byte_ok b1 -> hdr_wire hd = b0 :: b1 :: more -> length (hdr_wire hd) = hdr_full b1.
Proof.
  intros [? ? ? ? ? (Hml & _) _] H1 Ew. rewrite hdr_full_spec by done.
  unfold hdr_wire in Ew. injection Ew as _ Eb1 _.
  assert (H7 : 0 <= len7 (h_len hd) < 128) by (unfold len7; repeat bif; lia).
  replace (b1 mod 128) with (len7 (h_len hd)) by lia.
  unfold hdr_wire, mask_bytes. cbn [length]. rewrite length_app.
  destruct (Z.eqb_spec (h_masked hd) 0), (Z.ltb_spec b1 128); try lia; rewrite ?Hml; cbn [length];
    unfold len7, ext_bytes in *; repeat bif; rewrite ?length_be_bytes; cbn [length]; lia.
Qed.

(** Two bytes of a longer header are not a header. *)
Lemma hdr_two_more hd b0 b1 b2 more :
  byte_ok b0 -> byte_ok b1 -> bytes_ok (b2 :: more) -> hdr_wire hd = b0 :: b1 :: b2 :: more ->
  q_ws_hdr_parse (b0 :: b1 :: b2 :: more) = HdrDone hd -> q_ws_hdr_parse [b0; b1] = HdrMore.
Proof.
  intros H0 H1 Hmore Ew Hfull. destruct (q_ws_hdr_parse [b0; b1]) as [hd2| |] eqn:E2; [|done|].
  - exfalso. apply hdr_parse_sound in E2 as [Hwf2 Heq]; [|by repeat apply Forall_cons_2; [..|constructor]].
    pose proof (hdr_parse_complete hd2 (b2 :: more) Hwf2 Hmore) as Hc.
    assert (Hh2 : hdr_wire hd2 = [b0; b1]).
    { pose proof (wf_hdr_len _ Hwf2) as Hl2. unfold hdr_wire in Heq, Hl2 |- *. cbn [length] in Hl2.
      rewrite Hl2 in Heq. cbn [drop app] in Heq. injection Heq as E1 E2 E3.
      symmetry in E3. apply app_eq_nil in E3 as [E3 _]. by rewrite <- E1, <- E2, E3. }
    rewrite Hh2 in Hc. change ([b0; b1] ++ b2 :: more) with (b0 :: b1 :: b2 :: more) in Hc.
    rewrite Hfull in Hc. injection Hc as <-. by rewrite Hh2 in Ew.
  - exfalso. revert E2. unfold q_ws_hdr_parse, hdr_ext_len. cbn [length].
    repeat (bif; cbv iota beta); try done; intros _; lia.
Qed.

(** A header arrives in one read of two bytes or in two reads. *)
Lemma pumps_header c m hd rest :
  idle c m -> hdr_wf hd ->
  exists s0 w0, forall R, pumps_res (after (with_hdr c s0 (hdr_wire hd) hd w0)) rest R ->
    pumps c 2 (hdr_wire hd ++ rest) R.
Proof.
  intros (_ & Hst & Hb & _) Hwf. pose proof (wire_bytes hd Hwf) as Hbytes.
  pose proof (hdr_parse_complete hd [] Hwf ltac:(constructor)) as Hfull. rewrite app_nil_r in Hfull.
  destruct (hdr_wire hd) as [|b0 [|b1 more]] eqn:Ew; [done|done|].
  apply Forall_cons in Hbytes as [H0 Hbytes]. apply Forall_cons in Hbytes as [H1 Hmore].
  assert (Hfeed1 : feed c [b0; b1] = match q_ws_hdr_parse [b0; b1] with
     | HdrBad => (with_hdr c WS_HDR [b0; b1] (h c) (want c), 0, [ws_close_send 1002 (bool_decide (role c = Q_WS_CLIENT))])
     | HdrMore => let w := hdr_full b1 - 2%nat in (with_hdr c WS_HDREXT [b0; b1] (h c) w, w, [])
     | HdrDone hd => after (with_hdr c WS_HDR [b0; b1] hd (want c)) end).
  { unfold q_ws_feed. rewrite Hst, Hb. rewrite decide_False by done. done. }
  assert (Hfl : length (b0 :: b1 :: more) = hdr_full b1) by (rewrite <- Ew; by eapply hdr_wire_full).
  destruct more as [|b2 more].
  - exists WS_HDR, (want c). intros R HR. apply pumps_step; [simpl; lia|].
    change (take (Z.to_nat 2) ([b0; b1] ++ rest)) with [b0; b1]. change (drop (Z.to_nat 2) ([b0; b1] ++ rest)) with rest.
    rewrite Hfeed1, Hfull. done.
  - set (w := hdr_full b1 - 2%nat) in *. exists WS_HDREXT, w. intros R HR. apply pumps_step; [simpl; lia|].
    change (take (Z.to_nat 2) ((b0 :: b1 :: b2 :: more) ++ rest)) with [b0; b1].
    change (drop (Z.to_nat 2) ((b0 :: b1 :: b2 :: more) ++ rest)) with ((b2 :: more) ++ rest).
    assert (Hp2 : q_ws_hdr_parse [b0; b1] = HdrMore) by (by eapply hdr_two_more).
    rewrite Hfeed1, Hp2. cbv zeta. unfold pumps_res at 1. fold w.
    cbn [length] in Hfl. rewrite (proj2 (Z.leb_gt _ _)) by lia.
    exists R.2. split; [done|]. rewrite <- surjective_pairing. apply pumps_step; [rewrite length_app; simpl length; lia|].
    replace (Z.to_nat w) with (length (b2 :: more)) by (simpl; lia). rewrite take_app_length, drop_app_length.
    unfold q_ws_feed. cbn [st with_hdr hbuf]. rewrite decide_False by done. cbn [app].
    rewrite (proj2 (Nat.ltb_ge _ _)) by (rewrite hdr_full_spec in Hfl by done; revert Hfl; repeat bif; simpl; lia).
    by rewrite Hfull.
Qed.

Lemma process_refines c m f c1 c' w' ev :
  holds c m -> frame_wf f -> h c = fr_hdr f -> hdr_check c = inr c1 ->
  process c1 (fr_payload f) = (c', w', ev) ->
  frame_refused r m (h c) = None /\
  let '(o, ev') := fstep m f in
  ev = ev' /\ match o with Some m' => w' = 2 /\ idle c' m' | None => w' = 0 end.
Proof.
  intros Hh (Hwf & Hpb & Hlen) Hhd Hc Hp. destruct f as [hd p]. cbn [fr_hdr fr_payload] in *. subst hd.
  pose proof (hdr_check_refines c m Hh Hwf) as Href. rewrite Hc in Href. destruct Href as [Href ->].
  split; [done|]. destruct Hwf as [Hfin _ Hop _ _ _ _].
  assert (Hsame : h_opcode (h c) <> 0 -> set_msg c (msg_op c) (if h_opcode (h c) =? 0 then msg_frames c + 1 else msg_frames c) = c).
  { intros. rewrite (proj2 (Z.eqb_neq _ 0)) by done. by destruct c. }
  destruct (refused_none m (h c) ltac:(lia) Href) as [Hctl|[(op & bs & k & H0 & -> & Hk & Hl)|(H12 & -> & Hl)]].
  - rewrite Hsame in Hp by lia. eapply process_control; done.
  - rewrite H0 in Hp. change (0 =? 0) with true in Hp. cbv iota in Hp.
    eapply process_cont; try done. rewrite <- Hlen. done.
  - rewrite Hsame in Hp by lia. eapply process_first; try done. by rewrite <- Hlen.
Qed.

(** One frame through the pump. *)
Lemma pumps_body c m f rest :
  holds c m -> frame_wf f -> h c = fr_hdr f ->
  let body := if h_masked (fr_hdr f) =? 0 then fr_payload f else q_ws_mask_apply (fr_payload f) (h_mask (fr_hdr f)) 0 in
  match fstep m f with
  | (None, ev) => pumps_res (after c) (body ++ rest) (Closed, ev)
  | (Some m', ev) => exists c', idle c' m' /\
      forall R ev', pumps c' 2 rest (R, ev') -> pumps_res (after c) (body ++ rest) (R, ev ++ ev')
  end.
Proof.
  intros Hh Hf Hhd body. pose proof Hf as (Hwf & Hpb & Hlen). rewrite <- Hhd in Hwf.
  pose proof (hdr_check_refines c m Hh Hwf) as Hck. unfold after_hdr. rewrite (ho_role _ _ Hh).
  destruct (hdr_check c) as [code|c1] eqn:Ec.
  { destruct Hck as [Href Hcode]. unfold frame_step. rewrite <- Hhd, Href. unfold pumps_res. simpl.
    by rewrite close_send_frame by lia. }
  destruct Hck as [Href Hc1].
  assert (Hmain : forall pre, pumps_res (process c1 (fr_payload f)) rest pre -> 
     (pumps_res (if h_len (h c1) =? 0 then process c1 []
        else (with_hdr c1 WS_PAYLOAD (hbuf c1) (h c1) (h_len (h c1)), h_len (h c1), [])) (body ++ rest) pre)).
  { intros R HR. assert (Hh1 : h c1 = h c) by (by subst c1). rewrite Hh1, Hhd, Hlen in *. bif.
    - destruct (fr_payload f) as [|x p] eqn:Ep; [|simpl in E; lia]. unfold body. destruct (h_masked (fr_hdr f) =? 0); done.
    - unfold pumps_res at 1. rewrite (proj2 (Z.leb_gt _ _)) by lia. exists R.2. split; [done|].
      rewrite <- surjective_pairing. assert (Hbl : length body = length (fr_payload f))
        by (unfold body; bif; [done|apply q_ws_mask_apply_length]).
      apply pumps_step; [rewrite length_app; lia|].
      rewrite Nat2Z.id, <- Hbl, take_app_length, drop_app_length. unfold q_ws_feed.
      cbn [st with_hdr]. rewrite decide_True by done. cbn [h with_hdr].
      assert (Hun : (if negb (h_masked (fr_hdr f) =? 0) then q_ws_mask_apply body (h_mask (fr_hdr f)) 0 else body) = fr_payload f).
      { unfold body. destruct (h_masked (fr_hdr f) =? 0); [done|]. apply q_ws_mask_apply_involutive. }
      rewrite Hun. unfold ws_process in *. cbn [h with_hdr role msg msg_cap msg_op msg_frames] in *.
      rewrite Hh1 in *. exact HR. }
  destruct (process c1 (fr_payload f)) as [[c' w'] ev] eqn:Ep.
  destruct (process_refines c m f c1 c' w' ev Hh Hf Hhd Ec Ep) as [_ Hr].
  destruct (fstep m f) as [[m'|] ev1].
  - destruct Hr as (<- & -> & Hi). exists c'. split; [done|]. intros R ev' HR. apply Hmain.
    unfold pumps_res. change (2 <=? 0) with false. cbv iota. by exists ev'.
  - destruct Hr as (<- & ->). by apply Hmain.
Qed.

Lemma pumps_frame c m f rest :
  idle c m -> frame_wf f ->
  match fstep m f with
  | (None, ev) => pumps c 2 (frame_wire f ++ rest) (Closed, ev)
  | (Some m', ev) => exists c', idle c' m' /\
      forall R ev', pumps c' 2 rest (R, ev') -> pumps c 2 (frame_wire f ++ rest) (R, ev ++ ev')
  end.
Proof.
  intros Hi Hf. pose proof Hf as (Hwf & _ & _). unfold frame_wire. rewrite <- app_assoc.
  edestruct (pumps_header c m (fr_hdr f)) as (s0 & w0 & Hpump); [done|done|].
  assert (Hh : holds (with_hdr c s0 (hdr_wire (fr_hdr f)) (fr_hdr f) w0) m).
  { destruct Hi as [[? [] ?] _]. split; [done|by split|done]. }
  pose proof (pumps_body _ m f rest Hh Hf eq_refl) as Hb. cbv zeta in Hb.
  destruct (fstep m f) as [[m'|] ev].
  - destruct Hb as (c' & Hi' & Hb). exists c'. split; [done|]. intros R ev' HR. apply Hpump. by apply Hb.
  - by apply Hpump.
Qed.

Lemma pumps_frames c m fs :
  idle c m -> Forall frame_wf fs ->
  let '(o, ev) := frames_run zws_set arg_ok send_ok r m fs in
  exists R, pumps c 2 (mjoin (frame_wire <$> fs)) (R, ev) /\
    match o with Some m' => exists c', R = Waiting c' 2 [] /\ idle c' m' | None => R = Closed end.
Proof.
  intros Hi Hf. revert c m Hi. induction Hf as [|f fs Hf _ IH]; intros c m Hi.
  { simpl. exists (Waiting c 2 []). split; [by exists 0%nat|]. eauto. }
  cbn [frames_run fmap list_fmap mjoin list_join]. pose proof (pumps_frame c m f (mjoin (frame_wire <$> fs)) Hi Hf) as Hp.
  destruct (fstep m f) as [[m'|] ev].
  - destruct Hp as (c' & Hi' & Hp). specialize (IH c' m' Hi').
    destruct (frames_run zws_set arg_ok send_ok r m' fs) as [o ev']. destruct IH as (R & HR & Ho).
    exists R. split; [by apply Hp|done].
  - by exists Closed.
Qed.

Lemma new_conn_idle : idle (q_ws_conn_new_role (bool_decide (r = Q_WS_CLIENT))) None.
Proof.
  split; [|done]. split; [by destruct r| |done]. split; simpl; unfold Q_WS_MAX_MSG, Q_WS_MAX_FRAGS; auto; lia.
Qed.

Lemma pump_frames_fuel fs fuel :
  Forall frame_wf fs -> (length (mjoin (frame_wire <$> fs)) <= fuel)%nat ->
  let '(o, ev) := frames_run zws_set arg_ok send_ok r None fs in
  exists R, read_ws fuel (q_ws_conn_new_role (bool_decide (r = Q_WS_CLIENT))) 2 (mjoin (frame_wire <$> fs)) = Some (R, ev) /\
    match o with Some m' => exists c', R = Waiting c' 2 [] /\ idle c' m' | None => R = Closed end.
Proof.
  intros Hf Hl. pose proof (pumps_frames _ _ fs new_conn_idle Hf) as Hp.
  destruct (frames_run zws_set arg_ok send_ok r None fs) as [o ev]. destruct Hp as (R & (f2 & HR) & Ho).
  exists R. split; [|done].
  destruct (read_ws_enough fuel (q_ws_conn_new_role (bool_decide (r = Q_WS_CLIENT))) 2 (mjoin (frame_wire <$> fs)) ltac:(lia) Hl) as [R2 H2]. rewrite H2. f_equal.
  eapply (read_ws_mono _ (Nat.max fuel f2)) in HR, H2; [|lia..]. congruence.
Qed.
End refine.

(** A fragment of a client message: masked with [key]. *)
Definition fragment (fin op : Z) (kp : list Z * list Z) : frame :=
  Frame (mk_hdr fin op (Some kp.1) (length kp.2)) kp.2.

(** The frames of a message in the fragments [first :: rest]. *)
Fixpoint cont_frames (rest : list (list Z * list Z)) : list frame :=
  match rest with
  | [] => []
  | [kp] => [fragment 1 0 kp]
  | kp :: rest => fragment 0 0 kp :: cont_frames rest
  end.

Definition message_frames (op : Z) (first : list Z * list Z) (rest : list (list Z * list Z)) : list frame :=
  fragment (match rest with [] => 1 | _ => 0 end) op first :: cont_frames rest.

Definition part_wf (kp : list Z * list Z) : Prop :=
  length kp.1 = 4%nat /\ bytes_ok kp.1 /\ bytes_ok kp.2 /\ length kp.2 < 2 ^ 63.

Lemma fragment_wf fin op kp : 0 <= fin < 2 -> 0 <= op < 16 -> part_wf kp -> frame_wf (fragment fin op kp).
Proof.
  intros Hf Ho (Hk & Hkb & Hp & Hl). split; [|done]. apply mk_hdr_wf; [done|done|lia|]. by intros k [= <-].
Qed.

Lemma message_frames_wf op first rest :
  op = 1 \/ op = 2 -> part_wf first -> Forall part_wf rest -> Forall frame_wf (message_frames op first rest).
Proof.
  intros Hop H1 H2. constructor; [apply fragment_wf; [destruct rest; lia|lia|done]|].
  induction H2 as [|kp rest Hkp Hr IH]; [constructor|].
  destruct rest; (constructor; [apply fragment_wf; lia || done|done]).
Qed.
Section assembly.
Context (zws_set : bool) (arg_ok : list Z -> bool) (send_ok : Z -> list Z -> bool).
#[local] Abbreviation run := (frames_run zws_set arg_ok send_ok Q_WS_SERVER).

Lemma deliver_ok op bs :
  op = 1 \/ op = 2 -> (op = 1 -> q_ws_utf8_ok bs = true) ->
  exists ev, deliver zws_set arg_ok Q_WS_SERVER op bs = (Some None, ev).
Proof.
  intros Hop Hu. unfold deliver. rewrite (proj2 (andb_false_iff _ _)); [by eexists|].
  destruct Hop as [-> | ->]; [right|by left]. by rewrite Hu.
Qed.

Lemma cont_frames_run op bs k rest :
  rest <> [] -> op = 1 \/ op = 2 -> k + length rest <= 65536 ->
  length bs + length (mjoin (snd <$> rest)) <= 32 * 1024 * 1024 ->
  (op = 1 -> q_ws_utf8_ok (bs ++ mjoin (snd <$> rest)) = true) ->
  run (Some (op, bs, k)) (cont_frames rest) = deliver zws_set arg_ok Q_WS_SERVER op (bs ++ mjoin (snd <$> rest)).
Proof.
  intros Hne Hop. revert bs k. induction rest as [|kp rest IH]; intros bs k Hk Hl Hu; [done|]. clear Hne.
  change (mjoin (snd <$> kp :: rest)) with (kp.2 ++ mjoin (snd <$> rest)) in *. rewrite length_app in Hl. cbn [length] in Hk.
  assert (Hstep : forall fin, 0 <= fin < 2 -> frame_step zws_set arg_ok send_ok Q_WS_SERVER (Some (op, bs, k)) (fragment fin 0 kp) =
    if fin =? 1 then deliver zws_set arg_ok Q_WS_SERVER op (bs ++ kp.2) else (Some (Some (op, bs ++ kp.2, k + 1)), [])).
  { intros fin Hfin. unfold frame_step, frame_refused. cbn [fr_hdr fragment mk_hdr h_masked h_rsv h_opcode h_fin h_len fr_payload inflight_len].
    change (8 <=? 0) with false. rewrite bool_decide_false by (simpl; auto). change (negb (0 =? 0)) with false. cbv iota. cbn [orb].
    rewrite (proj2 (Z.leb_gt 65536 k)) by lia. rewrite (proj2 (Z.leb_le _ _)) by lia. done. }
  destruct rest as [|kp2 rest].
  - cbn [cont_frames frames_run]. rewrite Hstep by lia. change (1 =? 1) with true. cbv iota.
    cbn [fmap list_fmap mjoin list_join] in *. rewrite app_nil_r in *.
    destruct (deliver_ok op _ Hop Hu) as [ev ->]. by rewrite app_nil_r.
  - change (cont_frames (kp :: kp2 :: rest)) with (fragment 0 0 kp :: cont_frames (kp2 :: rest)). cbn [frames_run].
    rewrite Hstep by lia. change (0 =? 1) with false. cbv iota.
    rewrite IH; [|done|cbn [length] in *; lia|rewrite length_app; lia|by rewrite <- app_assoc].
    rewrite <- app_assoc. by destruct (deliver_ok op _ Hop Hu) as [ev ->].
Qed.

Lemma message_frames_run op first rest :
  op = 1 \/ op = 2 -> length rest < 65536 ->
  length (first.2 ++ mjoin (snd <$> rest)) <= 32 * 1024 * 1024 ->
  (op = 1 -> q_ws_utf8_ok (first.2 ++ mjoin (snd <$> rest)) = true) ->
  run None (message_frames op first rest) = deliver zws_set arg_ok Q_WS_SERVER op (first.2 ++ mjoin (snd <$> rest)).
Proof.
  intros Hop Hk Hl Hu. rewrite length_app in Hl. unfold message_frames. cbn [frames_run].
  assert (Href : frame_refused Q_WS_SERVER None (fr_hdr (fragment (match rest with [] => 1 | _ => 0 end) op first)) = None).
  { unfold frame_refused. cbn [fr_hdr fragment mk_hdr h_masked h_rsv h_opcode h_fin h_len fr_payload inflight_len].
    rewrite bool_decide_false by (simpl; auto). rewrite (proj2 (Z.leb_le _ (32 * 1024 * 1024))) by lia.
    destruct Hop as [-> | ->]; done. }
  unfold fragment at 1. rewrite frame_step_first by done. cbn [h_fin mk_hdr h_opcode].
  destruct rest as [|kp rest].
  - change (1 =? 1) with true. cbv iota. cbn [cont_frames frames_run].
    cbn [fmap list_fmap mjoin list_join] in *. rewrite app_nil_r in *.
    destruct (deliver_ok op _ Hop Hu) as [ev ->]. by rewrite app_nil_r.
  - change (0 =? 1) with false. cbv iota. rewrite cont_frames_run; [|done|done|lia|lia|done].
    by destruct (deliver_ok op _ Hop Hu) as [ev ->].
Qed.

End assembly.
(** C36. The header parser accepts a byte string exactly when it starts with
    the canonical wire form of a header (minimal length encoding, top bit of
    the 64-bit length clear), and returns that header and its size; the parse
    of a header is unique and independent of the bytes that follow. *)
Theorem q_ws_hdr_parse_correct b hd :
  bytes_ok b ->
  q_ws_hdr_parse b = HdrDone hd <-> hdr_wf hd /\ exists rest, b = hdr_wire hd ++ rest.
Proof.
  intros Hb. split.
  - intros Hp. destruct (hdr_parse_sound b hd Hb Hp) as [Hw Heq]. split; [done|by eexists].
  - intros (Hw & rest & ->). apply Forall_app in Hb as [_ Hr]. by apply hdr_parse_complete.
Qed.

Lemma q_ws_hdr_parse_correct_witness :
  q_ws_hdr_parse ([0x82; 0xFE; 0x01; 0x00; 1; 2; 3; 4; 99]) = HdrDone (Hdr 1 0 2 1 256 [1; 2; 3; 4] 8) /\
  hdr_wf (Hdr 1 0 2 1 256 [1; 2; 3; 4] 8).
Proof.
  assert (Hp : q_ws_hdr_parse ([0x82; 0xFE; 0x01; 0x00; 1; 2; 3; 4; 99]) = HdrDone (Hdr 1 0 2 1 256 [1; 2; 3; 4] 8))
    by reflexivity.
  split; [exact Hp|]. apply q_ws_hdr_parse_correct in Hp; [exact (proj1 Hp)|].
  repeat constructor; vm_compute; congruence.
Defined.

(** C37. A frame that [ws_frame_send] writes, masked or not, is read back by
    the header parser as a final frame of that opcode and length, and undoing
    its mask on the bytes after the header gives the payload. *)
Theorem ws_frame_send_roundtrip alloc seed rng op payload mask wire rng' :
  0 <= op < 16 -> bytes_ok payload -> length payload < 2 ^ 63 ->
  ws_frame_send alloc seed rng op payload mask = Some (wire, rng') ->
  exists hd, q_ws_hdr_parse wire = HdrDone hd /\
    h_fin hd = 1 /\ h_rsv hd = 0 /\ h_opcode hd = op /\ h_len hd = length payload /\
    h_masked hd = (if mask then 1 else 0) /\
    (if mask then q_ws_mask_apply (drop (h_hdr_len hd) wire) (h_mask hd) 0 else drop (h_hdr_len hd) wire) = payload.
Proof.
  intros Ho Hp Hl Hs. destruct (ws_frame_send_wire _ _ _ _ _ _ _ _ Ho Hp Hl Hs) as (key & Hk0 & Hk1 & Hkb & ->).
  set (hd := mk_hdr 1 op key (length payload)).
  assert (Hw : hdr_wf hd) by (apply mk_hdr_wf; (lia || done)).
  exists hd. rewrite hdr_parse_complete; [|done|].
  2: { destruct key as [k|]; [|done]. apply q_ws_mask_apply_bytes; [done|]. by apply Hkb. }
  split_and!; [done..| |].
  - destruct key, mask; try done; [by specialize (Hk0 eq_refl)|by destruct (Hk1 eq_refl)].
  - rewrite (wf_hdr_len _ Hw), drop_app_length. destruct mask.
    + destruct (Hk1 eq_refl) as [k ->]. apply q_ws_mask_apply_involutive.
    + by rewrite (Hk0 eq_refl).
Qed.

Lemma ws_frame_send_roundtrip_witness :
  exists wire rng' hd, ws_frame_send (fun _ => true) 7 0 1 [104; 105] true = Some (wire, rng') /\
    q_ws_hdr_parse wire = HdrDone hd /\ h_len hd = 2 /\ length wire = 8%nat.
Proof.
  destruct (ws_frame_send (fun _ => true) 7 0 1 [104; 105] true) as [[wire rng']|] eqn:E; [|discriminate].
  destruct (ws_frame_send_roundtrip (fun _ => true) 7 0 1 [104; 105] true wire rng') as (hd & Hp & _ & _ & _ & Hl & _).
  - lia.
  - repeat constructor; vm_compute; congruence.
  - vm_compute. reflexivity.
  - exact E.
  - exists wire, rng', hd. split; [reflexivity|]. split; [exact Hp|]. split; [exact Hl|].
    vm_compute in E. injection E as <- _. reflexivity.
Defined.

(** C35. Whatever bytes arrive, fed in the sizes the connection asks for, the
    connection stays within its bounds: the next read is between 1 byte and
    the message limit, a fragmented message never exceeds 32 MiB or 65536
    fragments nor its buffer, the buffer stays below 64 MiB, and the 14-byte
    header accumulator is never overrun. *)
Theorem ws_conn_bounds zws_set alloc arg_ok send_ok c w :
  ws_reach zws_set alloc arg_ok send_ok c w ->
  w = want c /\ 0 < w <= Q_WS_MAX_MSG /\
  length (msg c) <= msg_cap c <= 2 * Q_WS_MAX_MSG /\ length (msg c) <= Q_WS_MAX_MSG /\
  0 <= msg_frames c <= Q_WS_MAX_FRAGS /\
  (st c <> WS_PAYLOAD -> length (hbuf c) + w <= 14).
Proof.
  intros Hr. assert (Hi : conn_inv c w).
  { induction Hr as [is_client|c w data c' w' ev _ IH Hd Hl Hf Hw].
    - split; simpl; [unfold Q_WS_MAX_MSG; lia|constructor| |done].
      split; simpl; unfold Q_WS_MAX_MSG, Q_WS_MAX_FRAGS; auto; lia.
    - by eapply q_ws_feed_inv. }
  destruct Hi as [[Hw Hwb] Hb [H1 H2 H3 H4 H5 H6] Hst]. split_and!; try lia.
  intros Hne. destruct (st c); [|destruct Hst as (b0 & b1 & Hh & ->)|done].
  - destruct Hst as [-> ->]. simpl. lia.
  - rewrite Hh in *. apply Forall_cons in Hb as [_ Hb]. apply Forall_cons in Hb as [Hb1 _].
    rewrite hdr_full_spec in * by done. revert Hwb. repeat bif; simpl; lia.
Qed.

Lemma ws_conn_bounds_witness :
  let c' := (q_ws_feed true (fun _ => true) (fun _ => true) (fun _ _ => true) (q_ws_conn_new_role false) [0x82; 0xFE]).1.1 in
  st c' = WS_HDREXT /\ want c' = 6 /\ length (hbuf c') + 6 <= 14.
Proof.
  cbv zeta.
  destruct (q_ws_feed true (fun _ => true) (fun _ => true) (fun _ _ => true) (q_ws_conn_new_role false) [0x82; 0xFE])
    as [[c' w'] ev] eqn:E.
  assert (Hr : ws_reach true (fun _ => true) (fun _ => true) (fun _ _ => true) c' w').
  { apply (reach_feed _ _ _ _ (q_ws_conn_new_role false) 2 [0x82; 0xFE] c' w' ev);
      [apply reach_new| |reflexivity|exact E|].
    - repeat constructor; vm_compute; congruence.
    - vm_compute in E. injection E as <- <- <-. discriminate. }
  pose proof (ws_conn_bounds _ _ _ _ _ _ Hr) as (_ & _ & _ & _ & _ & Hb).
  vm_compute in E. injection E as <- <- <-. split; [reflexivity|]. split; [reflexivity|]. apply Hb. discriminate.
Defined.

(** C14. The connection implements the frame-level specification: for any
    sequence of well-formed frames (any opcodes, reserved bits, mask flags and
    fragmentation), reading their wire bytes through the pump performs exactly
    the events of [frames_run], closes exactly when it does, and otherwise
    ends waiting for the next header with the specified in-flight message. *)
Theorem ws_frames_refine zws_set arg_ok send_ok (is_client : bool) fs fuel :
  let r := if is_client then Q_WS_CLIENT else Q_WS_SERVER in
  Forall frame_wf fs -> (length (mjoin (frame_wire <$> fs)) <= fuel)%nat ->
  let '(o, ev) := frames_run zws_set arg_ok send_ok r None fs in
  exists R, ipc_read_ws zws_set (fun _ => true) arg_ok send_ok fuel (q_ws_conn_new_role is_client) 2
      (mjoin (frame_wire <$> fs)) = Some (R, ev) /\
    match o with Some m' => exists c', R = Waiting c' 2 [] /\ idle r c' m' | None => R = Closed end.
Proof.
  intros r Hf Hl. pose proof (pump_frames_fuel zws_set arg_ok send_ok r fs fuel Hf Hl) as Hp.
  replace (bool_decide (r = Q_WS_CLIENT)) with is_client in Hp by (by destruct is_client). done.
Qed.

Lemma ws_frames_refine_witness :
  exists R, ipc_read_ws true (fun _ => true) (fun _ => true) (fun _ _ => true) 100 (q_ws_conn_new_role false) 2
    (mjoin (frame_wire <$> [fragment 1 9 ([1; 2; 3; 4], [7]); fragment 1 3 ([1; 2; 3; 4], [])])) = Some (R, [EvSend 10 [7] false; EvSend 8 [3; 234] false])
    /\ R = Closed.
Proof.
  assert (Hf : Forall frame_wf [fragment 1 9 ([1; 2; 3; 4], [7]); fragment 1 3 ([1; 2; 3; 4], [])]).
  { repeat (apply Forall_cons; split); [..|apply Forall_nil; exact I];
      (split; [apply mk_hdr_wf; [lia|lia|simpl; lia|]; intros k Hk; injection Hk as <-; split; [reflexivity|];
        repeat constructor; vm_compute; congruence|]; split; [repeat constructor; vm_compute; congruence|reflexivity]). }
  pose proof (ws_frames_refine true (fun _ => true) (fun _ _ => true) false _ 100 Hf) as Hr.
  cbv zeta iota in Hr. specialize (Hr ltac:(vm_compute; lia)).
  change (frames_run _ _ _ _ _ _) with (@None inflight, [EvSend 10 [7] false; EvSend 8 [3; 234] false]) in Hr.
  exact Hr.
Defined.

(** A text or binary message that a client sends in any number of masked
    fragments (at most 65536, 32 MiB in all, valid UTF-8 when text) reaches the
    [.z.ws] handler of a server connection exactly once, whole, and leaves the
    connection ready for the next message. *)
Theorem fragmented_message_delivered op first rest fuel send_ok :
  op = 1 \/ op = 2 -> part_wf first -> Forall part_wf rest -> length rest < 65536 ->
  length (first.2 ++ mjoin (snd <$> rest)) <= 32 * 1024 * 1024 ->
  (op = 1 -> utf8_valid (first.2 ++ mjoin (snd <$> rest))) ->
  (length (mjoin (frame_wire <$> message_frames op first rest)) <= fuel)%nat ->
  exists c, ipc_read_ws true (fun _ => true) (fun _ => true) send_ok fuel (q_ws_conn_new_role false) 2
      (mjoin (frame_wire <$> message_frames op first rest)) =
      Some (Waiting c 2 [], [EvHook op (first.2 ++ mjoin (snd <$> rest))]) /\ idle Q_WS_SERVER c None.
Proof.
  intros Hop H1 H2 Hk Hl Hu Hfuel. set (m := first.2 ++ mjoin (snd <$> rest)) in *.
  assert (Hmb : bytes_ok m).
  { apply Forall_app. split; [apply H1|]. clear - H2. induction H2 as [|kp l Hkp _ IH]; [constructor|].
    change (mjoin (snd <$> kp :: l)) with (kp.2 ++ mjoin (snd <$> l)). apply Forall_app. split; [apply Hkp|done]. }
  assert (Hu' : op = 1 -> q_ws_utf8_ok m = true).
  { intros Ho. unfold q_ws_utf8_ok. apply utf8_loop_spec; [done|done|].
    destruct (Hu Ho) as (cps & Hc & ->). exists cps. split; [done|]. by apply enc_join. }
  pose proof (pump_frames_fuel true (fun _ => true) send_ok Q_WS_SERVER _ fuel (message_frames_wf op first rest Hop H1 H2) Hfuel) as Hp.
  rewrite message_frames_run in Hp by done. fold m in Hp.
  replace (deliver true (fun _ => true) Q_WS_SERVER op m) with (Some (None : inflight), [EvHook op m]) in Hp.
  - destruct Hp as (R & HR & c & -> & Hi). exists c. by split.
  - unfold deliver. rewrite (proj2 (andb_false_iff _ _)); [done|].
    destruct Hop as [-> | ->]; [right|by left]. by rewrite Hu'.
Qed.

Lemma fragmented_message_delivered_witness :
  exists c, ipc_read_ws true (fun _ => true) (fun _ => true) (fun _ _ => true) 100 (q_ws_conn_new_role false) 2
    (mjoin (frame_wire <$> message_frames 2 ([1; 2; 3; 4], [10; 11]) [([5; 6; 7; 8], []); ([9; 9; 9; 9], [12])])) =
    Some (Waiting c 2 [], [EvHook 2 [10; 11; 12]]) /\ msg c = [].
Proof.
  assert (Hpart : forall k p, length k = 4%nat -> forallb (fun b => (0 <=? b) && (b <? 256)) (k ++ p) = true ->
    length p < 2 ^ 63 -> part_wf (k, p)).
  { intros k p Hk Hb Hl. assert (Hkp : bytes_ok (k ++ p)).
    { apply Forall_forall. intros b Hin. apply list_elem_of_In in Hin. rewrite forallb_forall in Hb.
      specialize (Hb b Hin). unfold byte_ok. lia. }
    apply Forall_app in Hkp as [? ?]. split; [exact Hk|]. split; [assumption|]. split; assumption. }
  destruct (fragmented_message_delivered 2 ([1; 2; 3; 4], [10; 11]) [([5; 6; 7; 8], []); ([9; 9; 9; 9], [12])] 100 (fun _ _ => true))
    as (c & Hc & ([_ [_ _ _ _ _ Hidle] Hm] & _)).
  - right. reflexivity.
  - apply Hpart; reflexivity.
  - repeat (apply Forall_cons_2); [apply Hpart; reflexivity..|apply Forall_nil_2].
  - reflexivity.
  - vm_compute. congruence.
  - discriminate.
  - vm_compute. lia.
  - exists c. split; [exact Hc|exact (Hidle Hm)].
Defined.
