(* ===== verification/Codec.v ===== *)
(** * Byte codecs: [src/qlang/ops/q_codec.c]

    Base64, MD5 and SHA-1.  The gzip wrapper only calls the framing of
    [q_gz.c] and is not here. *)
From S2P Require Import Prelude.
From Stdlib Require Import Ascii String Zify ZifyNat.
#[local] Ltac Zify.zify_post_hook ::= Z.to_euclidean_division_equations.

#[local] Abbreviation length := Datatypes.length.

(** ** Base64 *)
Definition codes (s : String.string) : list Z := (fun a => Z.of_N (N_of_ascii a)) <$> String.list_ascii_of_string s.

Definition Q_B64_ALPHA : list Z :=
  Eval vm_compute in codes "ABCDEFGHIJKLMNOPQRSTUVWXYZabcdefghijklmnopqrstuvwxyz0123456789+/"%string.

Definition b64_alpha (i : Z) : Z := Q_B64_ALPHA.[Z.to_nat i].
Definition chPad : Z := 61.

(** The body of the encoding loop, then the remainder of one or two bytes. *)
Fixpoint codec_b64_encode (src : list Z) : list Z :=
  match src with
  | a :: b :: c :: src' =>
      let v := Z.lor (Z.lor (Z.shiftl a 16) (Z.shiftl b 8)) c in
      b64_alpha (Z.land (Z.shiftr v 18) 63) :: b64_alpha (Z.land (Z.shiftr v 12) 63) ::
      b64_alpha (Z.land (Z.shiftr v 6) 63) :: b64_alpha (Z.land v 63) :: codec_b64_encode src'
  | [a; b] =>
      let v := Z.lor (Z.shiftl a 16) (Z.shiftl b 8) in
      [b64_alpha (Z.land (Z.shiftr v 18) 63); b64_alpha (Z.land (Z.shiftr v 12) 63);
       b64_alpha (Z.land (Z.shiftr v 6) 63); chPad]
  | [a] =>
      let v := Z.shiftl a 16 in
      [b64_alpha (Z.land (Z.shiftr v 18) 63); b64_alpha (Z.land (Z.shiftr v 12) 63); chPad; chPad]
  | [] => []
  end.

(** [rev[c]] after the two initialisation loops. *)
Definition b64_rev (c : Z) : Z :=
  foldl (fun r i => if b64_alpha i =? c then i else r) (-1) (seqZ 0 64).

Record b64_state := B64 { b_out : list Z; b_acc : Z; b_nbits : Z; b_pad : Z; b_ngroup : Z }.

Definition is_ws (c : Z) : bool := (c =? 32) || (c =? 10) || (c =? 13) || (c =? 9).

(** One alphabet character of value [d]. *)
Definition b64_push (s : b64_state) (d : Z) : b64_state :=
  let acc := Z.lor (u32 (Z.shiftl (b_acc s) 6)) d in
  let nbits := b_nbits s + 6 in
  let ngroup := b_ngroup s + 1 in
  if 8 <=? nbits then
    let nbits := nbits - 8 in
    B64 (b_out s ++ [Z.land (Z.shiftr acc nbits) 0xFF]) acc nbits (b_pad s) ngroup
  else B64 (b_out s) acc nbits (b_pad s) ngroup.

(** The decoding loop; [None] when it breaks with [*bad = 1]. *)
Fixpoint b64_loop (src : list Z) (s : b64_state) : option b64_state :=
  match src with
  | [] => Some s
  | c :: src =>
      if is_ws c then b64_loop src s
      else if c =? chPad then
        b64_loop src (B64 (b_out s) (b_acc s) (b_nbits s) (b_pad s + 1) (b_ngroup s + 1))
      else if negb (b_pad s =? 0) then None
      else
        let d := b64_rev c in
        if d <? 0 then None else b64_loop src (b64_push s d)
  end.

Definition b64_start : b64_state := B64 [] 0 0 0 0.

(** [None] is the [*bad] outcome. *)
Definition codec_b64_decode (src : list Z) : option (list Z) :=
  match b64_loop src b64_start with
  | None => None
  | Some s =>
      if negb (b_ngroup s mod 4 =? 0) || (2 <? b_pad s) ||
         (negb (b_nbits s =? 0) && negb (Z.land (b_acc s) (Z.shiftl 1 (b_nbits s) - 1) =? 0))
      then None else Some (b_out s)
  end.

(** ** Verbs: an argument that is text or a byte vector is its bytes; the
    allocator may refuse the output. *)
Inductive qerr := QE_TYPE | QE_DOMAIN | QE_WSFULL.

Definition q_dotq_btoa_fn (malloc_ok : bool) (x : option (list Z)) : qerr + list Z :=
  match x with
  | None => inl QE_TYPE
  | Some p => if malloc_ok then inr (codec_b64_encode p) else inl QE_WSFULL
  end.

Definition q_dotq_atob_fn (malloc_ok : bool) (x : option (list Z)) : qerr + list Z :=
  match x with
  | None => inl QE_TYPE
  | Some p =>
      if malloc_ok then match codec_b64_decode p with None => inl QE_DOMAIN | Some r => inr r end
      else inl QE_WSFULL
  end.

(** ** The alphabet *)
Lemma b64_alpha_rev d :
  0 <= d < 64 -> b64_rev (b64_alpha d) = d /\ is_ws (b64_alpha d) = false /\ (b64_alpha d =? chPad) = false.
Proof.
  intros Hd. assert (Hf : forallb (fun d => (b64_rev (b64_alpha d) =? d) && negb (is_ws (b64_alpha d)) &&
    negb (b64_alpha d =? chPad)) (seqZ 0 64) = true) by (by vm_compute).
  rewrite forallb_forall in Hf. specialize (Hf d). rewrite <- list_elem_of_In, elem_of_seqZ in Hf.
  specialize (Hf ltac:(lia)). bprop. split_and!; [done|done|by apply Z.eqb_neq].
Qed.

Lemma b64_rev_alpha c : byte_ok c -> b64_rev c < 0 \/ (0 <= b64_rev c < 64 /\ b64_alpha (b64_rev c) = c).
Proof. intros Hc. byte_exhaust Hc. Qed.

Lemma land_63 x : Z.land x 63 = x mod 64.
Proof. change 63 with (Z.ones 6). by rewrite Z.land_ones. Qed.

(** The encoding as base-64 digits: [L] bytes, shifted left to a whole number
    of digits, then the padding. *)
Definition enc_digits (L : nat) : nat := ((8 * L + 5) / 6)%nat.
Definition enc_shift (L : nat) : Z := 6 * enc_digits L - 8 * L.
Definition enc_pads (L : nat) : nat := ((3 - L mod 3) mod 3)%nat.

Definition b64_spec (bs : list Z) : list Z :=
  (b64_alpha <$> digits_of 64 (enc_digits (length bs)) (be_load bs * 2 ^ enc_shift (length bs)))
  ++ replicate (enc_pads (length bs)) chPad.

Lemma be_load_cons b bs : be_load (b :: bs) = b * 256 ^ length bs + be_load bs.
Proof. apply digits_val_cons. Qed.

Lemma be_load_bounds bs : bytes_ok bs -> 0 <= be_load bs < 256 ^ length bs.
Proof. apply digits_val_bounds. lia. Qed.

Lemma three_bytes a b c :
  byte_ok a -> byte_ok b -> byte_ok c ->
  Z.lor (Z.lor (Z.shiftl a 16) (Z.shiftl b 8)) c = a * 65536 + b * 256 + c.
Proof.
  unfold byte_ok. intros Ha Hb Hc. replace (Z.shiftl a 16) with (Z.shiftl (Z.shiftl a 8) 8) by (by rewrite Z.shiftl_shiftl).
  rewrite <- Z.shiftl_lor, (lor_shiftl_add a b 8), lor_shiftl_add by lia. lia.
Qed.

#[local] Ltac b64_digits :=
  change (64 ^ 2%nat) with 4096; change (64 ^ 1%nat) with 64; change (64 ^ 0%nat) with 1;
  repeat match goal with
  | |- b64_alpha _ :: _ = b64_alpha _ :: _ => apply (f_equal2 cons); [f_equal; lia|]
  end; done.

Lemma b64_encode_spec bs : bytes_ok bs -> codec_b64_encode bs = b64_spec bs.
Proof.
  assert (Hs : forall n, Forall byte_ok bs -> (length bs < n)%nat -> codec_b64_encode bs = b64_spec bs); [|intros; apply (Hs (S (length bs))); [done|lia]].
  intros n. revert bs. induction n as [|n IH]; intros bs Hb Hn; [lia|].
  destruct bs as [|a [|b [|c bs]]]; [done|..]; repeat (apply Forall_cons in Hb as [? Hb]); unfold byte_ok in *.
  - cbn [codec_b64_encode]. unfold b64_spec. cbn [length]. rewrite !land_63, !Z.shiftr_div_pow2, Z.shiftl_mul_pow2 by done.
    change (enc_digits 1) with 2%nat. change (enc_shift 1) with 4. change (enc_pads 1) with 2%nat.
    cbn [digits_of fmap list_fmap replicate app]. unfold be_load; simpl. b64_digits.
  - cbn [codec_b64_encode]. unfold b64_spec. cbn [length]. rewrite !land_63, !Z.shiftr_div_pow2 by done.
    replace (Z.lor (Z.shiftl a 16) (Z.shiftl b 8)) with (a * 65536 + b * 256)
      by (rewrite (Z.shiftl_mul_pow2 b), lor_shiftl_add by lia; lia).
    change (enc_digits 2) with 3%nat. change (enc_shift 2) with 2. change (enc_pads 2) with 1%nat.
    cbn [digits_of fmap list_fmap replicate app]. unfold be_load; simpl. b64_digits.
  - cbn [codec_b64_encode]. rewrite IH by (done || simpl in *; lia). rewrite three_bytes by done.
    unfold b64_spec. cbn [length]. set (L := length bs).
    assert (Hd : enc_digits (S (S (S L))) = (4 + enc_digits L)%nat) by (unfold enc_digits; lia).
    assert (Hp : enc_pads (S (S (S L))) = enc_pads L) by (unfold enc_pads; lia).
    assert (Hk : enc_shift (S (S (S L))) = enc_shift L) by (unfold enc_shift; lia).
    rewrite Hd, Hp, Hk. assert (Hk0 : 0 <= enc_shift L) by (unfold enc_shift, enc_digits; lia).
    assert (H64 : 64 ^ enc_digits L = 256 ^ L * 2 ^ enc_shift L).
    { change 64 with (2 ^ 6). change 256 with (2 ^ 8). rewrite <- !Z.pow_mul_r, <- Z.pow_add_r by lia. f_equal.
      unfold enc_shift. lia. }
    pose proof (be_load_bounds bs Hb) as Hbd. fold L in Hbd. pose proof (Z.pow_pos_nonneg 2 (enc_shift L) ltac:(lia) Hk0).
    replace (be_load (a :: b :: c :: bs) * 2 ^ enc_shift L)
      with ((a * 65536 + b * 256 + c) * 64 ^ enc_digits L + be_load bs * 2 ^ enc_shift L).
    2: { rewrite !be_load_cons, H64. cbn [length]. fold L. rewrite !Nat2Z.inj_succ, !Z.pow_succ_r by lia. ring. }
    rewrite digits_of_app by (lia || (rewrite H64; nia)). rewrite fmap_app, <- app_assoc.
    rewrite !land_63, !Z.shiftr_div_pow2 by done. cbn [digits_of fmap list_fmap app].
    change (64 ^ 3%nat) with (2 ^ 18). change (64 ^ 2%nat) with (2 ^ 12). change (64 ^ 1%nat) with (2 ^ 6).
    change (64 ^ 0%nat) with 1. by rewrite Z.div_1_r.
Qed.

(** ** The decoder *)
Definition clean (s : list Z) : list Z := filter (fun c => is_ws c = false) s.

Lemma b64_loop_clean s st : b64_loop s st = b64_loop (clean s) st.
Proof.
  unfold clean. revert st. induction s as [|c s IH]; intros st; [done|]. rewrite filter_cons. simpl.
  destruct (is_ws c) eqn:E; [by rewrite decide_False|].
  rewrite decide_True by done. simpl. rewrite E. repeat bif; done.
Qed.

Definition digit_ok (d : Z) : Prop := 0 <= d < 64.

Record b64_inv (ds : list Z) (s : b64_state) : Prop := {
  bi_bits : b_nbits s = 6 * length ds - 8 * length (b_out s);
  bi_range : 0 <= b_nbits s < 8;
  bi_acc : b_acc s = u32 (digits_val 64 ds);
  bi_out : b_out s = be_bytes (length (b_out s)) (digits_val 64 ds / 2 ^ b_nbits s);
  bi_group : b_ngroup s = length ds + b_pad s
}.

Lemma acc_step V d : 0 <= V -> 0 <= d < 64 -> Z.lor (u32 (Z.shiftl (u32 V) 6)) d = u32 (V * 64 + d).
Proof.
  intros HV Hd. rewrite Z.shiftl_mul_pow2 by done. unfold u32, wrap.
  assert (Hm : (V mod 2 ^ 32 * 2 ^ 6) mod 2 ^ 32 = 2 ^ 6 * (V mod 2 ^ 26)) by lia. rewrite Hm.
  replace (2 ^ 6 * (V mod 2 ^ 26)) with (Z.shiftl (V mod 2 ^ 26) 6) by (rewrite Z.shiftl_mul_pow2; lia).
  rewrite lor_shiftl_add by lia. lia.
Qed.

Lemma low_byte x k : 0 <= k -> Z.land (Z.shiftr x k) 0xFF = (x / 2 ^ k) mod 256.
Proof. intros. rewrite Z.shiftr_div_pow2 by done. change 0xFF with (Z.ones 8). by rewrite Z.land_ones. Qed.

Lemma digits_val_nonneg r ds : 1 < r -> Forall (fun d => 0 <= d < r) ds -> 0 <= digits_val r ds.
Proof. intros Hr Hd. by apply digits_val_bounds. Qed.

Lemma b64_push_inv ds s d :
  b64_inv ds s -> Forall digit_ok ds -> digit_ok d -> b64_inv (ds ++ [d]) (b64_push s d).
Proof.
  intros [Hb Hr Ha Ho Hg] Hds Hd. unfold digit_ok in Hd. pose proof (digits_val_nonneg 64 ds ltac:(lia) Hds) as HV.
  unfold b64_push. rewrite Ha, acc_step by done.
  assert (Hn : b_nbits s = 0 \/ b_nbits s = 2 \/ b_nbits s = 4 \/ b_nbits s = 6) by lia.
  bif; split; simpl; rewrite ?length_app, ?digits_val_snoc; simpl; try lia.
  - rewrite low_byte by lia. rewrite Nat.add_comm. cbn [Nat.add]. rewrite be_bytes_snoc. f_equal.
    + rewrite Ho at 1. f_equal. unfold u32, wrap. destruct Hn as [Hn|[Hn|[Hn|Hn]]]; rewrite Hn in *; simpl; lia.
    + f_equal. unfold u32, wrap. destruct Hn as [Hn|[Hn|[Hn|Hn]]]; rewrite Hn in *; simpl; lia.
  - rewrite Ho at 1. f_equal. destruct Hn as [Hn|[Hn|[Hn|Hn]]]; rewrite Hn in *; simpl; lia.
Qed.

Lemma b64_loop_digits ds0 ds rest s :
  b64_inv ds0 s -> b_pad s = 0 -> Forall digit_ok ds0 -> Forall digit_ok ds ->
  exists s', b64_loop ((b64_alpha <$> ds) ++ rest) s = b64_loop rest s' /\ b64_inv (ds0 ++ ds) s' /\ b_pad s' = 0.
Proof.
  intros Hi Hp H0 Hds. revert ds0 s Hi Hp H0. induction Hds as [|d ds Hd Hds IH]; intros ds0 s Hi Hp H0.
  - exists s. by rewrite app_nil_r.
  - simpl. destruct (b64_alpha_rev d Hd) as (-> & -> & ->). rewrite Hp. change (0 =? 0) with true. cbn [negb].
    rewrite (proj2 (Z.ltb_ge d 0)) by (unfold digit_ok in Hd; lia).
    destruct (IH (ds0 ++ [d]) (b64_push s d)) as (s' & Hl & Hi' & Hp').
    + by apply b64_push_inv.
    + unfold b64_push. by bif.
    + apply Forall_app. split; [done|]. by apply Forall_cons_2.
    + exists s'. split; [done|]. by rewrite <- app_assoc in Hi'.
Qed.

Lemma b64_loop_pads n s :
  b64_loop (replicate n chPad) s = Some (B64 (b_out s) (b_acc s) (b_nbits s) (b_pad s + n) (b_ngroup s + n)).
Proof.
  revert s. induction n as [|n IH]; intros s; simpl; [by destruct s; rewrite !Z.add_0_r|].
  change (chPad =? chPad) with true. change (is_ws chPad) with false. cbv iota. rewrite IH. simpl. do 2 f_equal; lia.
Qed.

(** What the loop accepts. *)
Lemma b64_loop_shape s st st' :
  bytes_ok s -> Forall (fun c => is_ws c = false) s -> 0 <= b_pad st -> b64_loop s st = Some st' ->
  exists ds p, Forall digit_ok ds /\ s = (b64_alpha <$> ds) ++ replicate p chPad /\ (b_pad st <> 0 -> ds = []).
Proof.
  revert st. induction s as [|c s IH]; intros st Hb Hw Hp; simpl; [by exists [], 0%nat|].
  apply Forall_cons in Hb as [Hc Hb]. apply Forall_cons in Hw as [-> Hw].
  destruct (Z.eqb_spec c chPad) as [->|Hne].
  - intros Hl. apply IH in Hl as (ds & p & Hds & -> & Hnil); [|done|done|simpl; lia].
    rewrite (Hnil ltac:(simpl; lia)). by exists [], (S p).
  - destruct (b_pad st =? 0) eqn:E0; bprop; [cbn [negb]|done]. bif; [done|]. intros Hl.
    assert (Hp' : b_pad (b64_push st (b64_rev c)) = b_pad st) by (unfold b64_push; by bif).
    apply IH in Hl as (ds & p & Hds & -> & _); [|done|done|lia].
    destruct (b64_rev_alpha c Hc) as [?|[Hd Hal]]; [lia|].
    exists (b64_rev c :: ds), p. split_and!; [by apply Forall_cons_2|by rewrite fmap_cons, Hal|done].
Qed.

Lemma b64_decode_digits ds p :
  Forall digit_ok ds ->
  exists s, b64_inv ds s /\ b_pad s = 0 /\
    b64_loop ((b64_alpha <$> ds) ++ replicate p chPad) b64_start =
      Some (B64 (b_out s) (b_acc s) (b_nbits s) p (length ds + p)).
Proof.
  intros Hds. destruct (b64_loop_digits [] ds (replicate p chPad) b64_start) as (s & Hl & Hi & Hp); [|done|done|done|].
  { split; simpl; done || lia. }
  exists s. split; [done|]. split; [done|]. rewrite Hl, b64_loop_pads, Hp, (bi_group _ _ Hi), Hp. f_equal. f_equal. rewrite app_nil_l. lia.
Qed.

Lemma acc_low V k : 0 <= k < 8 -> (Z.land (u32 V) (Z.shiftl 1 k - 1) =? 0) = (V mod 2 ^ k =? 0).
Proof.
  intros Hk. rewrite Z.shiftl_mul_pow2, Z.mul_1_l by lia. change (2 ^ k - 1) with (Z.pred (2 ^ k)); rewrite <- Z.ones_equiv.
  rewrite Z.land_ones by lia. unfold u32, wrap. f_equal.
  replace (2 ^ 32) with (2 ^ k * 2 ^ (32 - k)) by (rewrite <- Z.pow_add_r by lia; f_equal; lia).
  rewrite Z.rem_mul_r by (try apply Z.pow_nonzero; lia). rewrite Z.mul_comm, Z_mod_plus_full. by apply Zmod_mod.
Qed.

(** The decoder on a list of digits and pads. *)
Lemma b64_decode_spec ds p bs :
  Forall digit_ok ds ->
  codec_b64_decode ((b64_alpha <$> ds) ++ replicate p chPad) = Some bs <->
  (p <= 2)%nat /\ (length ds + p) mod 4 = 0 /\
  bytes_ok bs /\ length bs = (6 * length ds / 8)%nat /\
  digits_val 64 ds = be_load bs * 2 ^ (6 * length ds - 8 * length bs).
Proof.
  intros Hds. unfold codec_b64_decode. destruct (b64_decode_digits ds p Hds) as (s & [Hb Hr Ha Ho Hg] & Hp & ->).
  cbn [b_out b_acc b_nbits b_pad b_ngroup].
  pose proof (digits_val_nonneg 64 ds ltac:(lia) Hds) as HV.
  pose proof (digits_val_bounds 64 ds ltac:(lia) Hds) as HVb.
  rewrite Ha, acc_low by done. set (V := digits_val 64 ds) in *. set (k := b_nbits s) in *.
  pose proof (Z.pow_pos_nonneg 2 k ltac:(lia) ltac:(lia)) as Hk.
  assert (Hlen : length (b_out s) = (6 * length ds / 8)%nat) by lia.
  assert (Hload : be_load (b_out s) = V / 2 ^ k).
  { rewrite Ho, be_load_bytes. apply Z.mod_small. split; [apply Z.div_pos; lia|].
    apply Z.div_lt_upper_bound; [lia|]. eapply Z.lt_le_trans; [apply HVb|].
    change 64 with (2 ^ 6). change 256 with (2 ^ 8). rewrite <- !Z.pow_mul_r, <- Z.pow_add_r by lia.
    apply Z.pow_le_mono_r; lia. }
  assert (Hbytes : bytes_ok (b_out s)) by (rewrite Ho; apply be_bytes_ok).
  assert (Hlow : negb (k =? 0) && negb (V mod 2 ^ k =? 0) = negb (V mod 2 ^ k =? 0)).
  { destruct (Z.eqb_spec k 0) as [->|]; [by rewrite Z.mod_1_r|done]. }
  rewrite Hlow. split.
  - bif; [done|]. intros [= <-]. split_and!; try lia; try done.
    replace (6 * length ds - 8 * length (b_out s)) with k by lia. rewrite Hload.
    pose proof (Z.div_mod V (2 ^ k) ltac:(lia)). lia.
  - intros (Hp2 & H4 & Hbs & Hbl & HVeq).
    assert (Hkk : 6 * length ds - 8 * length bs = k) by lia. rewrite Hkk in HVeq.
    rewrite (proj2 (Z.eqb_eq ((length ds + p) mod 4) 0)) by lia. rewrite (proj2 (Z.ltb_ge 2 p)) by lia.
    rewrite (proj2 (Z.eqb_eq (V mod 2 ^ k) 0)) by (rewrite HVeq; by apply Z_mod_mult). cbn [negb orb]. f_equal.
    rewrite HVeq, Z.div_mul in Hload by lia.
    rewrite <- (be_bytes_load _ Hbytes), <- (be_bytes_load _ Hbs), Hload. f_equal. lia.
Qed.

Lemma decode_clean s : codec_b64_decode s = codec_b64_decode (clean s).
Proof. unfold codec_b64_decode. by rewrite b64_loop_clean. Qed.

Lemma clean_no_ws s : Forall (fun c => is_ws c = false) (clean s).
Proof. apply Forall_forall. by intros c [? _]%list_elem_of_filter. Qed.

Lemma clean_bytes s : bytes_ok s -> bytes_ok (clean s).
Proof.
  intros Hs. apply Forall_forall. intros c [_ Hc]%list_elem_of_filter. by apply (proj1 (Forall_forall _ _) Hs).
Qed.

Lemma clean_id s : Forall (fun c => is_ws c = false) s -> clean s = s.
Proof. intros Hs. unfold clean. induction Hs as [|c s Hc _ IH]; [done|]. rewrite filter_cons_True by done. by rewrite IH. Qed.

(** The encoder's output, in the form the decoder lemmas use. *)
Lemma encode_shape bs :
  bytes_ok bs ->
  exists ds p, codec_b64_encode bs = (b64_alpha <$> ds) ++ replicate p chPad /\ Forall digit_ok ds /\
    codec_b64_decode ((b64_alpha <$> ds) ++ replicate p chPad) = Some bs.
Proof.
  intros Hb. rewrite b64_encode_spec by done. unfold b64_spec. set (n := enc_digits (length bs)).
  set (V := be_load bs * 2 ^ enc_shift (length bs)). exists (digits_of 64 n V), (enc_pads (length bs)).
  assert (Hds : Forall digit_ok (digits_of 64 n V)) by (apply digits_of_range; lia).
  split; [done|]. split; [done|]. apply b64_decode_spec; [done|]. rewrite length_digits_of.
  assert (Hk0 : 0 <= enc_shift (length bs)) by (unfold enc_shift, enc_digits; lia).
  split_and!; [unfold enc_pads; lia|unfold n, enc_pads, enc_digits; lia|done|unfold n, enc_digits; lia|].
  change (6 * n - 8 * length bs) with (enc_shift (length bs)). fold V.
  pose proof (be_load_bounds bs Hb). pose proof (Z.pow_pos_nonneg 2 (enc_shift (length bs)) ltac:(lia) Hk0).
  assert (HV : 0 <= V < 64 ^ n).
  { replace (64 ^ n) with (256 ^ length bs * 2 ^ enc_shift (length bs)); [unfold V; nia|].
    change 64 with (2 ^ 6). change 256 with (2 ^ 8). rewrite <- !Z.pow_mul_r, <- Z.pow_add_r by lia. f_equal.
    unfold enc_shift, n. lia. }
  rewrite digits_val_of by lia. by apply Z.mod_small.
Qed.

Lemma encode_no_ws bs : bytes_ok bs -> Forall (fun c => is_ws c = false) (codec_b64_encode bs).
Proof.
  intros Hb. destruct (encode_shape bs Hb) as (ds & p & -> & Hds & _). apply Forall_app. split.
  - apply Forall_fmap. eapply Forall_impl; [exact Hds|]. intros d Hd. by apply b64_alpha_rev.
  - apply Forall_replicate. done.
Qed.

(** Base64 decoding inverts encoding on every byte string, through any
    spaces, tabs and line ends inserted in the text. *)
Theorem b64_roundtrip bs s :
  bytes_ok bs -> clean s = codec_b64_encode bs -> codec_b64_decode s = Some bs.
Proof.
  intros Hb Hs. destruct (encode_shape bs Hb) as (ds & p & He & _ & Hd). rewrite decode_clean, Hs, He. exact Hd.
Qed.

Lemma b64_roundtrip_witness :
  codec_b64_encode [104; 105; 33; 0] = [97; 71; 107; 104; 65; 65; 61; 61] /\
  codec_b64_decode [97; 71; 10; 107; 104; 32; 65; 65; 61; 61] = Some [104; 105; 33; 0].
Proof.
  split; [reflexivity|]. apply b64_roundtrip; [repeat constructor; vm_compute; congruence|reflexivity].
Defined.

(** The decoder accepts nothing but canonical encodings: it answers
    [bs] exactly when its input, spaces removed, is the encoding of [bs]; every
    other input (foreign characters, data after padding, wrong padding,
    non-zero residual bits) is a ['domain] error of [.Q.atob]. *)
Theorem b64_decode_canonical s :
  bytes_ok s ->
  (forall bs, codec_b64_decode s = Some bs <-> bytes_ok bs /\ clean s = codec_b64_encode bs) /\
  ((forall bs, bytes_ok bs -> clean s <> codec_b64_encode bs) -> q_dotq_atob_fn true (Some s) = inl QE_DOMAIN).
Proof.
  intros Hs. assert (Hiff : forall bs, codec_b64_decode s = Some bs <-> bytes_ok bs /\ clean s = codec_b64_encode bs).
  { intros bs. rewrite decode_clean. pose proof (clean_bytes s Hs) as Hcb. pose proof (clean_no_ws s) as Hcw.
    generalize dependent (clean s). clear s Hs. intros s Hs Hw. split.
    - intros Hd. assert (Hl : exists st, b64_loop s b64_start = Some st).
      { unfold codec_b64_decode in Hd. destruct (b64_loop s b64_start); [by eexists|done]. }
      destruct Hl as [st Hl]. apply b64_loop_shape in Hl as (ds & p & Hds & -> & _); [|done|done|done].
      apply b64_decode_spec in Hd as (Hp & H4 & Hb & Hlen & HV); [|done]. split; [done|].
      rewrite b64_encode_spec by done. unfold b64_spec.
      assert (Hn : enc_digits (length bs) = length ds) by (unfold enc_digits; lia).
      assert (Hpd : enc_pads (length bs) = p) by (unfold enc_pads; lia).
      unfold enc_shift. rewrite Hn, Hpd, <- HV, digits_of_val by (done || lia). done.
    - intros [Hb ->]. destruct (encode_shape bs Hb) as (ds & p & -> & _ & Hd). exact Hd. }
  split; [exact Hiff|]. intros Hno. unfold q_dotq_atob_fn.
  destruct (codec_b64_decode s) as [bs|] eqn:E; [|done].
  destruct (proj1 (Hiff bs) eq_refl) as [Hb Hc]. by destruct (Hno bs Hb).
Qed.

Lemma b64_decode_canonical_witness :
  bytes_ok [81; 82; 61; 61] /\ (forall bs, bytes_ok bs -> clean [81; 82; 61; 61] <> codec_b64_encode bs) /\
  codec_b64_decode [81; 82; 61; 61] = None.
Proof.
  assert (Hb : bytes_ok [81; 82; 61; 61]) by (repeat constructor; vm_compute; congruence).
  split; [exact Hb|]. split; [|reflexivity].
  intros bs Hbs Hc. destruct (proj1 (b64_decode_canonical _ Hb) bs) as [_ Hd].
  specialize (Hd (conj Hbs Hc)). discriminate.
Defined.
