(* ===== verification/Digest.v ===== *)
(** * Message digests: MD5 and SHA-1 of [src/qlang/ops/q_codec.c] *)
From S2P Require Import Prelude.
From Stdlib Require Import Ascii String Zify ZifyNat.
#[local] Ltac Zify.zify_post_hook ::= Z.to_euclidean_division_equations.
#[local] Abbreviation length := Datatypes.length.

Definition not32 (x : Z) : Z := Z.lxor x 0xFFFFFFFF.
Definition rol32 (v b : Z) : Z := Z.lor (u32 (Z.shiftl v b)) (Z.shiftr v (32 - b)).

(** ** MD5 *)
Definition md5_K : list Z := [
  0xd76aa478; 0xe8c7b756; 0x242070db; 0xc1bdceee; 0xf57c0faf; 0x4787c62a; 0xa8304613; 0xfd469501;
  0x698098d8; 0x8b44f7af; 0xffff5bb1; 0x895cd7be; 0x6b901122; 0xfd987193; 0xa679438e; 0x49b40821;
  0xf61e2562; 0xc040b340; 0x265e5a51; 0xe9b6c7aa; 0xd62f105d; 0x02441453; 0xd8a1e681; 0xe7d3fbc8;
  0x21e1cde6; 0xc33707d6; 0xf4d50d87; 0x455a14ed; 0xa9e3e905; 0xfcefa3f8; 0x676f02d9; 0x8d2a4c8a;
  0xfffa3942; 0x8771f681; 0x6d9d6122; 0xfde5380c; 0xa4beea44; 0x4bdecfa9; 0xf6bb4b60; 0xbebfbc70;
  0x289b7ec6; 0xeaa127fa; 0xd4ef3085; 0x04881d05; 0xd9d4d039; 0xe6db99e5; 0x1fa27cf8; 0xc4ac5665;
  0xf4292244; 0x432aff97; 0xab9423a7; 0xfc93a039; 0x655b59c3; 0x8f0ccc92; 0xffeff47d; 0x85845dd1;
  0x6fa87e4f; 0xfe2ce6e0; 0xa3014314; 0x4e0811a1; 0xf7537e82; 0xbd3af235; 0x2ad7d2bb; 0xeb86d391 ].
Definition md5_S : list Z := [
  7; 12; 17; 22; 7; 12; 17; 22; 7; 12; 17; 22; 7; 12; 17; 22;
  5; 9; 14; 20; 5; 9; 14; 20; 5; 9; 14; 20; 5; 9; 14; 20;
  4; 11; 16; 23; 4; 11; 16; 23; 4; 11; 16; 23; 4; 11; 16; 23;
  6; 10; 15; 21; 6; 10; 15; 21; 6; 10; 15; 21; 6; 10; 15; 21 ].

(** [n] bytes of [v], low byte first. *)
Fixpoint le_bytes (n : nat) (v : Z) : list Z :=
  match n with
  | O => []
  | S n => u8 v :: le_bytes n (Z.shiftr v 8)
  end.

Definition md5_nblk (len : nat) : nat := ((len + 8) / 64 + 1)%nat.

(** [buf] after the copy, the 0x80 mark and the bit length; the rest is the
    zeros of [calloc]. *)
Definition md5_pad (msg : list Z) : list Z :=
  let len := length msg in
  msg ++ 0x80 :: replicate (md5_nblk len * 64 - len - 9) 0 ++ le_bytes 8 (u64 (len * 8)).

Definition md5_word (q : list Z) : Z :=
  Z.lor (Z.lor (Z.lor q.[0] (Z.shiftl q.[1] 8)) (Z.shiftl q.[2] 16)) (Z.shiftl q.[3] 24).

Definition md5_state : Type := Z * Z * Z * Z.

Definition md5_round (M : list Z) (st : md5_state) (i : nat) : md5_state :=
  let '(A, B, C, D) := st in
  let '(F, g) :=
    if (i <? 16)%nat then (Z.lor (Z.land B C) (Z.land (not32 B) D), i)
    else if (i <? 32)%nat then (Z.lor (Z.land D B) (Z.land (not32 D) C), ((5 * i + 1) mod 16)%nat)
    else if (i <? 48)%nat then (Z.lxor (Z.lxor B C) D, ((3 * i + 5) mod 16)%nat)
    else (Z.lxor C (Z.lor B (not32 D)), ((7 * i) mod 16)%nat) in
  let F := u32 (F + A + md5_K.[i] + M.[g]) in
  (D, u32 (B + rol32 F md5_S.[i]), B, C).

Definition md5_block (st : md5_state) (buf : list Z) : md5_state :=
  let M := (fun i => md5_word (take 4 (drop (i * 4) buf))) <$> seq 0 16 in
  let '(a0, b0, c0, d0) := st in
  let '(A, B, C, D) := foldl (md5_round M) st (seq 0 64) in
  (u32 (a0 + A), u32 (b0 + B), u32 (c0 + C), u32 (d0 + D)).

Definition blocks (buf : list Z) : list (list Z) :=
  (fun k => take 64 (drop (k * 64) buf)) <$> seq 0 (length buf / 64).

Definition codec_md5_compute (msg : list Z) : list Z :=
  let '(a0, b0, c0, d0) := foldl md5_block (0x67452301, 0xefcdab89, 0x98badcfe, 0x10325476) (blocks (md5_pad msg)) in
  mjoin (le_bytes 4 <$> [a0; b0; c0; d0]).

(** ** SHA-1 *)

(** [while (total % 64 != 56) total++]: 63 turns are enough. *)
Fixpoint sha1_total (fuel : nat) (total : nat) : nat :=
  match fuel with
  | O => total
  | S fuel => if (total mod 64 =? 56)%nat then total else sha1_total fuel (S total)
  end.

(** [n] bytes of [v], high byte first, as [v >> (8 * i)]. *)
Definition be_shift_bytes (n : nat) (v : Z) : list Z := rev (le_bytes n v).

Definition sha1_pad (msg : list Z) : list Z :=
  let n := length msg in
  let total := (sha1_total 64 (n + 1) + 8)%nat in
  msg ++ 0x80 :: replicate (total - n - 9) 0 ++ be_shift_bytes 8 (u64 (n * 8)).

Definition sha1_word (p : list Z) : Z :=
  Z.lor (Z.lor (Z.lor (Z.shiftl p.[0] 24) (Z.shiftl p.[1] 16)) (Z.shiftl p.[2] 8)) p.[3].

(** [w[16..80)] from the sixteen words of the block. *)
Definition sha1_schedule (w : list Z) : list Z :=
  foldl (fun w i => w ++ [rol32 (Z.lxor (Z.lxor (Z.lxor w.[i - 3] w.[i - 8]) w.[i - 14]) w.[i - 16]) 1]) w (seq 16 64).

Definition sha1_state : Type := Z * Z * Z * Z * Z.

Definition sha1_round (w : list Z) (st : sha1_state) (i : nat) : sha1_state :=
  let '(a, b, c, d, e) := st in
  let '(f, k) :=
    if (i <? 20)%nat then (Z.lor (Z.land b c) (Z.land (not32 b) d), 0x5A827999)
    else if (i <? 40)%nat then (Z.lxor (Z.lxor b c) d, 0x6ED9EBA1)
    else if (i <? 60)%nat then (Z.lor (Z.lor (Z.land b c) (Z.land b d)) (Z.land c d), 0x8F1BBCDC)
    else (Z.lxor (Z.lxor b c) d, 0xCA62C1D6) in
  let tmp := u32 (rol32 a 5 + f + e + k + w.[i]) in
  (tmp, a, rol32 b 30, c, d).

Definition sha1_block (st : sha1_state) (buf : list Z) : sha1_state :=
  let w := sha1_schedule ((fun i => sha1_word (take 4 (drop (i * 4) buf))) <$> seq 0 16) in
  let '(h0, h1, h2, h3, h4) := st in
  let '(a, b, c, d, e) := foldl (sha1_round w) st (seq 0 80) in
  (u32 (h0 + a), u32 (h1 + b), u32 (h2 + c), u32 (h3 + d), u32 (h4 + e)).

Definition codec_sha1_compute (msg : list Z) : list Z :=
  let '(h0, h1, h2, h3, h4) :=
    foldl sha1_block (0x67452301, 0xEFCDAB89, 0x98BADCFE, 0x10325476, 0xC3D2E1F0) (blocks (sha1_pad msg)) in
  mjoin (be_shift_bytes 4 <$> [h0; h1; h2; h3; h4]).

(** ** Padding *)
Lemma length_le_bytes n v : length (le_bytes n v) = n.
Proof. revert v. induction n as [|n IH]; intros v; simpl; [done|by rewrite IH]. Qed.

Lemma le_bytes_ok n v : bytes_ok (le_bytes n v).
Proof. revert v. induction n as [|n IH]; intros v; constructor; [apply u8_range|apply IH]. Qed.

Lemma le_load_bytes n v : le_load (le_bytes n v) = v mod 256 ^ n.
Proof.
  revert v. induction n as [|n IH]; intros v; [by rewrite Z.mod_1_r|]. cbn [le_bytes le_load]. rewrite IH.
  rewrite Z.shiftr_div_pow2 by done. change (2 ^ 8) with 256. unfold u8, wrap. change (2 ^ 8) with 256.
  rewrite Nat2Z.inj_succ, Z.pow_succ_r, Z.rem_mul_r by lia. lia.
Qed.

Lemma le_bytes_inj (n : nat) v w : 0 <= v < 256 ^ n -> 0 <= w < 256 ^ n -> le_bytes n v = le_bytes n w -> v = w.
Proof. intros Hv Hw He. apply (f_equal le_load) in He. rewrite !le_load_bytes, !Z.mod_small in He; done. Qed.

Lemma sha1_total_spec fuel total :
  (total <= 56 + 64 * ((total + 7) / 64) <= total + fuel)%nat ->
  sha1_total fuel total = (56 + 64 * ((total + 7) / 64))%nat.
Proof.
  revert total. induction fuel as [|fuel IH]; intros total Hf; cbn [sha1_total]; [lia|].
  bif; [lia|]. assert (((S total + 7) / 64 = (total + 7) / 64)%nat) as Heq by lia.
  rewrite IH by lia. lia.
Qed.

(** The two padding computations agree: the least multiple of 64 that holds
    the message, the mark and the length. *)
Definition padded_length (n : nat) : nat := (64 * ((n + 9 + 63) / 64))%nat.

Lemma md5_pad_length msg : length (md5_pad msg) = padded_length (length msg).
Proof.
  unfold md5_pad, md5_nblk, padded_length. rewrite length_app. cbn [length].
  rewrite length_app, length_replicate, length_le_bytes. lia.
Qed.

Lemma sha1_pad_length msg : length (sha1_pad msg) = padded_length (length msg).
Proof.
  unfold sha1_pad, padded_length, be_shift_bytes. rewrite length_app. cbn [length].
  rewrite length_app, length_replicate, length_rev, length_le_bytes, sha1_total_spec by lia. lia.
Qed.

(** Any padding of this shape determines the message. *)
Lemma pad_injective (enc : Z -> list Z) (m1 m2 : list Z) z1 z2 :
  (forall v, length (enc v) = 8%nat) ->
  (forall v w, 0 <= v < 2 ^ 64 -> 0 <= w < 2 ^ 64 -> enc v = enc w -> v = w) ->
  length m1 < 2 ^ 61 -> length m2 < 2 ^ 61 ->
  m1 ++ 0x80 :: replicate z1 0 ++ enc (u64 (length m1 * 8)) = m2 ++ 0x80 :: replicate z2 0 ++ enc (u64 (length m2 * 8)) ->
  m1 = m2.
Proof.
  intros Hl Hinj H1 H2 He. rewrite !u64_small in He by lia.
  rewrite !app_comm_cons, !app_assoc in He. apply app_inj_2 in He as [He Henc]; [|by rewrite !Hl].
  apply Hinj in Henc; [|lia|lia]. assert (length m1 = length m2) as Hlen by lia.
  by apply app_inj_1 in He as [? _].
Qed.

Lemma length_join_words (f : Z -> list Z) k ws :
  (forall w, length (f w) = k) -> (forall w, bytes_ok (f w)) ->
  length (mjoin (f <$> ws)) = (length ws * k)%nat /\ bytes_ok (mjoin (f <$> ws)).
Proof.
  intros Hl Hb. induction ws as [|w ws [IH1 IH2]]; [split; [done|constructor]|].
  change (mjoin (f <$> w :: ws)) with (f w ++ mjoin (f <$> ws)). rewrite length_app, Hl, IH1. split; [done|].
  apply Forall_app. split; [apply Hb|done].
Qed.

Lemma be_shift_bytes_ok n v : length (be_shift_bytes n v) = n /\ bytes_ok (be_shift_bytes n v).
Proof. unfold be_shift_bytes. rewrite length_rev, length_le_bytes. split; [done|]. apply Forall_rev, le_bytes_ok. Qed.

(** Both digests pad a message to the least multiple of 64 bytes that
    holds it with the 0x80 mark and the 8-byte bit length (MD5 by a division,
    SHA-1 by its counting loop, which ends), the message is a prefix, the
    length field is little-endian for MD5 and big-endian for SHA-1, and two
    different messages never have the same padding. *)
Theorem digest_padding m1 m2 :
  length m1 < 2 ^ 61 -> length m2 < 2 ^ 61 ->
  length (md5_pad m1) = padded_length (length m1) /\ length (sha1_pad m1) = padded_length (length m1) /\
  (length m1 + 9 <= padded_length (length m1) < length m1 + 9 + 64)%nat /\
  le_load (drop (length (md5_pad m1) - 8) (md5_pad m1)) = 8 * length m1 /\
  be_load (drop (length (sha1_pad m1) - 8) (sha1_pad m1)) = 8 * length m1 /\
  (md5_pad m1 = md5_pad m2 -> m1 = m2) /\ (sha1_pad m1 = sha1_pad m2 -> m1 = m2).
Proof.
  intros H1 H2. assert (Hu : u64 (length m1 * 8) = 8 * length m1) by (rewrite u64_small; lia).
  assert (Htail : forall pre e : list Z, length e = 8%nat -> drop (length (pre ++ e) - 8) (pre ++ e) = e).
  { intros pre e He. rewrite length_app, He. replace (length pre + 8 - 8)%nat with (length pre) by lia. apply drop_app_length. }
  split_and!; [apply md5_pad_length|apply sha1_pad_length|unfold padded_length; lia|unfold padded_length; lia|..].
  - unfold md5_pad. rewrite app_comm_cons, !app_assoc, Htail by apply length_le_bytes.
    rewrite le_load_bytes, Hu. apply Z.mod_small. change (256 ^ 8%nat) with (2 ^ 64). lia.
  - unfold sha1_pad. rewrite app_comm_cons, !app_assoc, Htail by apply be_shift_bytes_ok.
    rewrite Hu. unfold be_shift_bytes. assert (Hr : forall l, be_load (rev l) = le_load l).
    { induction l as [|x l IH]; [done|]. cbn [rev le_load]. rewrite be_load_digits, digits_val_snoc, <- be_load_digits, IH. lia. }
    rewrite Hr, le_load_bytes. apply Z.mod_small. change (256 ^ 8%nat) with (2 ^ 64). lia.
  - apply (pad_injective (le_bytes 8)); [apply length_le_bytes| |done|done].
    intros v w Hv Hw. by apply le_bytes_inj.
  - apply (pad_injective (be_shift_bytes 8)); [apply be_shift_bytes_ok| |done|done].
    intros v w Hv Hw He. apply (f_equal (@rev Z)) in He. unfold be_shift_bytes in He. rewrite !rev_involutive in He.
    by apply (le_bytes_inj 8).
Qed.

Lemma digest_padding_witness :
  length (md5_pad (replicate 56 1)) = 128%nat /\ length (sha1_pad (replicate 55 1)) = 64%nat /\
  (md5_pad [0x80] = md5_pad [0x80; 0] -> [0x80] = [0x80; 0] :> list Z).
Proof.
  destruct (digest_padding (replicate 56 1) [] eq_refl eq_refl) as (Hm & _).
  destruct (digest_padding (replicate 55 1) [] eq_refl eq_refl) as (_ & Hs & _).
  destruct (digest_padding [0x80] [0x80; 0] eq_refl eq_refl) as (_ & _ & _ & _ & _ & Hi & _).
  split; [exact Hm|]. split; [exact Hs|exact Hi].
Defined.

Definition text (s : string) : list Z := (fun a => Z.of_N (N_of_ascii a)) <$> list_ascii_of_string s.
Definition hex (ds : list Z) : Z := be_load ds.

(** A digest is 16 (MD5) or 20 (SHA-1) bytes for every message, and the
    test suites of RFC 1321 (appendix A.5) and of FIPS 180 come out right. *)
Theorem digest_known_answers :
  (forall m, length (codec_md5_compute m) = 16%nat /\ bytes_ok (codec_md5_compute m) /\
             length (codec_sha1_compute m) = 20%nat /\ bytes_ok (codec_sha1_compute m)) /\
  hex (codec_md5_compute (text "")) = 0xd41d8cd98f00b204e9800998ecf8427e /\
  hex (codec_md5_compute (text "a")) = 0x0cc175b9c0f1b6a831c399e269772661 /\
  hex (codec_md5_compute (text "abc")) = 0x900150983cd24fb0d6963f7d28e17f72 /\
  hex (codec_md5_compute (text "message digest")) = 0xf96b697d7cb7938d525a2f31aaf161d0 /\
  hex (codec_md5_compute (text "ABCDEFGHIJKLMNOPQRSTUVWXYZabcdefghijklmnopqrstuvwxyz0123456789")) = 0xd174ab98d277d9f5a5611c2c9f419d9f /\
  hex (codec_sha1_compute (text "")) = 0xda39a3ee5e6b4b0d3255bfef95601890afd80709 /\
  hex (codec_sha1_compute (text "abc")) = 0xa9993e364706816aba3e25717850c26c9cd0d89d /\
  hex (codec_sha1_compute (text "abcdbcdecdefdefgefghfghighijhijkijkljklmklmnlmnomnopnopq")) = 0x84983e441c3bd26ebaae4aa1f95129e5e54670f1.
Proof.
  split; [|split_and!; vm_compute; reflexivity]. intros m. unfold codec_md5_compute, codec_sha1_compute.
  destruct (foldl md5_block _ _) as [[[a0 b0] c0] d0]. destruct (foldl sha1_block _ _) as [[[[h0 h1] h2] h3] h4].
  destruct (length_join_words (le_bytes 4) 4 [a0; b0; c0; d0]) as [-> ?]; [apply length_le_bytes|apply le_bytes_ok|].
  destruct (length_join_words (be_shift_bytes 4) 4 [h0; h1; h2; h3; h4]) as [-> ?]; [apply be_shift_bytes_ok..|].
  done.
Qed.
