(* ===== verification/Calendar.v ===== *)
(** * The calendar: [src/lang/cal.h] and [src/qlang/base/q_calendar.c]

    Dates are days since 2000.01.01, timestamps nanoseconds since then.  C's
    [/] and [%] truncate: [Z.quot] and [Z.rem].  [date_to_ymd] divides in
    double precision; a positive double is a pair of a significand below 2^53
    and a binary exponent, and its operations round to nearest, ties to even. *)
From S2P Require Import Prelude.
From Stdlib Require Import Zify ZifyNat.
#[local] Ltac Zify.zify_post_hook ::= Z.to_euclidean_division_equations.

Definition RAY_DATE_EPOCH : Z := 2000.
Definition NS_PER_DAY : Z := 86400000000000.

Definition MONTHDAYS (leap : bool) : list Z :=
  if leap then [0; 31; 60; 91; 121; 152; 182; 213; 244; 274; 305; 335; 366]
  else [0; 31; 59; 90; 120; 151; 181; 212; 243; 273; 304; 334; 365].

Definition date_leap_year (year : Z) : bool :=
  ((Z.rem year 4 =? 0) && negb (Z.rem year 100 =? 0)) || (Z.rem year 400 =? 0).

Definition date_years_by_days (yy : Z) : Z :=
  i32 (yy * 365 + Z.quot yy 4 - Z.quot yy 100 + Z.quot yy 400).

(** ** Positive doubles *)
Definition double : Type := Z * Z.

(** [num / den] rounded to 53 bits; exponents are unbounded, the values below
    stay far from overflow and underflow. *)
Definition fl_round (num den : Z) : double :=
  let e0 := Z.log2 num - Z.log2 den - 53 in
  let scaled e := if 0 <=? e then (num, den * 2 ^ e) else (num * 2 ^ (- e), den) in
  let e := if let '(n, d) := scaled e0 in n / d <? 2 ^ 53 then e0 else e0 + 1 in
  let '(n, d) := scaled e in
  let q := n / d in
  let r := n mod d in
  let up := (d <? 2 * r) || ((2 * r =? d) && Z.odd q) in
  ((if up then q + 1 else q), e).

(** [a / b], [a + 0.5] and truncation. *)
Definition fl_div_const (a b_num b_den : Z) : double :=
  let '(bm, be) := fl_round b_num b_den in
  if 0 <=? be then fl_round a (bm * 2 ^ be) else fl_round (a * 2 ^ (- be)) bm.

Definition fl_add_half (x : double) : double :=
  let '(m, e) := x in
  if 0 <=? e then fl_round (2 * m * 2 ^ e + 1) 2 else fl_round (2 * m + 2 ^ (- e)) (2 * 2 ^ (- e)).

Definition fl_trunc (x : double) : Z := let '(m, e) := x in if 0 <=? e then m * 2 ^ e else m / 2 ^ (- e).

(** [(int32_t)(offset / 365.2425 +- 0.5)]; negation is exact on doubles. *)
Definition years_approx (offset : Z) : Z :=
  if offset =? 0 then 0
  else if 0 <? offset then fl_trunc (fl_add_half (fl_div_const offset 3652425 10000))
  else - fl_trunc (fl_add_half (fl_div_const (- offset) 3652425 10000)).

(** The [for] loop from [mid = 12] down. *)
Fixpoint find_month (mid : nat) (leap : bool) (rem : Z) : nat :=
  match mid with
  | O => O
  | S m =>
      if negb ((MONTHDAYS leap).[mid] =? 0) && negb (Z.quot rem (MONTHDAYS leap).[mid] =? 0) then mid
      else find_month m leap rem
  end.

Definition date_to_ymd (days : Z) : Z * Z * Z :=
  let offset := i32 (u32 days + u32 (date_years_by_days (RAY_DATE_EPOCH - 1))) in
  let years := years_approx offset in
  let years := if offset <? date_years_by_days years then years - 1 else years in
  let rem := offset - date_years_by_days years in
  let yy := years + 1 in
  let leap := date_leap_year yy in
  let mid := find_month 12 leap rem in
  let mid := if (mid =? 12)%nat then 0%nat else mid in
  (yy, 1 + Z.rem mid 12, 1 + rem - (MONTHDAYS leap).[mid]).

Definition ymd_to_date (year month day : Z) : Z :=
  let yy := if 0 <? year then year - 1 else 0 in
  let ydays := date_years_by_days yy in
  let leap := date_leap_year year in
  let mm := if 0 <? month then month - 1 else 0 in
  let mdays := (MONTHDAYS leap).[Z.to_nat mm] in
  i32 (ydays - date_years_by_days (RAY_DATE_EPOCH - 1) + mdays + day - 1).

(** ** Timestamps *)
Definition ts_days_floor (ns : Z) : Z :=
  let q := Z.quot ns NS_PER_DAY in if ns - q * NS_PER_DAY <? 0 then q - 1 else q.

Definition ts_ns_in_day (ns : Z) : Z :=
  let r := Z.rem ns NS_PER_DAY in if r <? 0 then r + NS_PER_DAY else r.

Definition ts_compose_checked (days tod_ns : Z) : option Z :=
  let ns := days * NS_PER_DAY + tod_ns in
  if (INT64_MAX <? ns) || (ns <? - INT64_MAX) then None else Some ns.

(** ** [q_calendar.c] *)
Definition q_calendar_days_from_civil (y m d : Z) : Z :=
  let y := if m <=? 2 then y - 1 else y in
  let era := Z.quot (if 0 <=? y then y else y - 399) 400 in
  let yoe := y - era * 400 in
  let doy := Z.quot (153 * (m + (if 2 <? m then -3 else 9)) + 2) 5 + d - 1 in
  let doe := yoe * 365 + Z.quot yoe 4 - Z.quot yoe 100 + doy in
  era * 146097 + doe - 719468 - 10957.

Definition month_lengths : list Z := [31; 28; 31; 30; 31; 30; 31; 31; 30; 31; 30; 31].

Definition q_calendar_date_valid (y m d : Z) : bool :=
  if (y <? 1) || (9999 <? y) || (m <? 1) || (12 <? m) || (d <? 1) then false
  else
    let leap := (Z.rem y 4 =? 0) && (negb (Z.rem y 100 =? 0) || (Z.rem y 400 =? 0)) in
    d <=? month_lengths.[Z.to_nat (m - 1)] + (if (m =? 2) && leap then 1 else 0).

Definition q_calendar_ts_compose (days tod_ns : Z) : Z :=
  match ts_compose_checked days tod_ns with
  | Some ns => ns
  | None => if days * 86400000000000 + tod_ns <? 0 then - INT64_MAX else INT64_MAX
  end.

Definition q_calendar_week_start (days start : Z) : Z :=
  let n := Z.rem (Z.rem start 7 + 7) 7 in
  days - Z.rem (Z.rem (days - n) 7 + 7) 7.

Definition q_calendar_month_from_days (days : Z) : Z * bool :=
  let z := days + 10957 + 719468 in
  let era := Z.quot (if 0 <=? z then z else z - 146096) 146097 in
  let doe := z - era * 146097 in
  let yoe := (doe - doe / 1460 + doe / 36524 - doe / 146096) / 365 in
  let y := yoe + era * 400 in
  let doy := doe - (365 * yoe + yoe / 4 - yoe / 100) in
  let mp := (5 * doy + 2) / 153 in
  let d := doy - (153 * mp + 2) / 5 + 1 in
  let m := if mp <? 10 then mp + 3 else mp - 9 in
  let y := if m <=? 2 then y + 1 else y in
  (12 * (y - 2000) + m - 1, d =? 1).

(** ** The double division of [date_to_ymd] *)
#[local] Arguments Z.pow : simpl never.

Lemma fl_round_near num den :
  0 < num -> 0 < den -> num < den * 2 ^ 24 ->
  exists m k, fl_round num den = (m, - k) /\ 20 <= k /\ 0 <= m /\
    2 * (m * den - num * 2 ^ k) <= den /\ 2 * (num * 2 ^ k - m * den) <= den.
Proof.
  intros Hn Hd Hlt. unfold fl_round.
  assert (Hlog : Z.log2 num <= Z.log2 den + 24).
  { rewrite Z.add_comm, <- Z.log2_mul_pow2 by lia. apply Z.log2_le_mono. lia. }
  set (e0 := Z.log2 num - Z.log2 den - 53).
  assert (He0 : e0 <= -29) by lia.
  rewrite (proj2 (Z.leb_gt 0 e0)) by lia.
  set (e := if num * 2 ^ (- e0) / den <? 2 ^ 53 then e0 else e0 + 1).
  assert (He : e <= -28) by (unfold e; bif; lia).
  rewrite (proj2 (Z.leb_gt 0 e)) by lia.
  set (n := num * 2 ^ (- e)). assert (Hn0 : 0 <= n) by (unfold n; pose proof (Z.pow_nonneg 2 (- e)); nia).
  pose proof (Z.div_mod n den ltac:(lia)) as Hdm. pose proof (Z.mod_pos_bound n den Hd) as Hmb.
  pose proof (Z.div_pos n den Hn0 Hd) as Hq.
  eexists _, (- e). rewrite Z.opp_involutive. split; [reflexivity|]. fold n. split; [lia|].
  destruct (den <? 2 * (n mod den)) eqn:E1; [|destruct (2 * (n mod den) =? den) eqn:E2]; bprop; cbn [orb andb]; [lia| |lia].
  destruct (Z.odd _); lia.
Qed.

(** [365.2425] as a double. *)
Definition year_double : Z * Z := Eval vm_compute in fl_round 3652425 10000.

Lemma scale_down D p1 p2 : 0 < p1 -> 2 ^ 20 <= p2 -> D * p2 <= p1 -> 2 ^ 20 * D <= p1.
Proof. intros. destruct (Z.le_gt_cases D 0); nia. Qed.

Lemma years_approx_near x :
  0 < x < 2 ^ 31 ->
  2 ^ 21 * years_approx x * year_double.1 <= 2 ^ 21 * (x * 2 ^ 44) + (2 ^ 20 + 2) * year_double.1 /\
  2 ^ 21 * (x * 2 ^ 44) < 2 ^ 21 * (years_approx x + 1) * year_double.1 - (2 ^ 20 - 2) * year_double.1.
Proof.
  intros Hx. unfold years_approx. rewrite (proj2 (Z.eqb_neq x 0)), (proj2 (Z.ltb_lt 0 x)) by lia.
  unfold fl_div_const. change (fl_round 3652425 10000) with year_double. change year_double with (6425414011327611, -44).
  cbv iota beta. change (0 <=? -44) with false. cbv iota. change (- -44) with 44. cbn [fst].
  set (A := x * 2 ^ 44).
  destruct (fl_round_near A 6425414011327611) as (m1 & k1 & -> & Hk1 & Hm1 & Hu1 & Hl1); [lia|lia|lia|].
  set (p1 := 2 ^ k1) in *. assert (Hp1 : 2 ^ 20 <= p1) by (apply Z.pow_le_mono_r; lia).
  unfold fl_add_half. rewrite (proj2 (Z.leb_gt 0 (- k1))) by lia. rewrite Z.opp_involutive. fold p1.
  assert (Hmb : m1 < p1 * 2 ^ 23).
  { change (2 ^ 23) with 8388608. assert (HA : A <= 37778931862957161709568) by lia.
    assert (A * p1 <= 37778931862957161709568 * p1) by (apply Z.mul_le_mono_nonneg_r; lia). lia. }
  destruct (fl_round_near (2 * m1 + p1) (2 * p1)) as (m2 & k2 & -> & Hk2 & Hm2 & Hu2 & Hl2); [lia|lia|lia|].
  set (p2 := 2 ^ k2) in *. assert (Hp2 : 2 ^ 20 <= p2) by (apply Z.pow_le_mono_r; lia).
  unfold fl_trunc. rewrite (proj2 (Z.leb_gt 0 (- k2))) by lia. rewrite Z.opp_involutive. fold p2.
  pose proof (Z.div_mod m2 p2 ltac:(lia)) as Hdm. pose proof (Z.mod_pos_bound m2 p2 ltac:(lia)) as Hmod.
  set (t := m2 / p2) in *. split.
  - assert (HD : (2 * t * p1 - 2 * m1 - p1) * p2 <= p1) by nia.
    apply scale_down in HD; [|lia|done].
    apply (Z.mul_le_mono_pos_r _ _ p1); [lia|]. nia.
  - assert (HD : (2 * m1 + p1 - 2 * (t + 1) * p1) * p2 <= p1) by nia.
    apply scale_down in HD; [|lia|done].
    apply (Z.mul_lt_mono_pos_r p1); [lia|]. nia.
Qed.

(** ** Years *)
Definition year_start (yy : Z) : Z := yy * 365 + yy / 4 - yy / 100 + yy / 400.

Lemma i32_small z : - 2 ^ 31 <= z < 2 ^ 31 -> i32 z = z.
Proof. unfold i32, sgn, wrap. change (32 - 1) with 31. intros. bif; lia. Qed.

Lemma date_years_by_days_start yy : 0 <= yy <= 5879610 -> date_years_by_days yy = year_start yy.
Proof. intros. unfold date_years_by_days, year_start. rewrite i32_small; lia. Qed.

Lemma year_bracket x t :
  0 <= x < 2 ^ 31 - 365 -> 0 <= t ->
  2 ^ 21 * t * 6425414011327611 <= 2 ^ 21 * (x * 2 ^ 44) + (2 ^ 20 + 2) * 6425414011327611 ->
  2 ^ 21 * (x * 2 ^ 44) < 2 ^ 21 * (t + 1) * 6425414011327611 - (2 ^ 20 - 2) * 6425414011327611 ->
  (year_start t <= x -> x < year_start (t + 1)) /\ (x < year_start t -> 0 < t /\ year_start (t - 1) <= x).
Proof. unfold year_start. intros Hx Ht H1 H2. split; lia. Qed.

Lemma date_years_exact x :
  0 <= x < 2 ^ 31 - 366 ->
  let t := years_approx x in
  let years := if x <? date_years_by_days t then t - 1 else t in
  0 <= years <= 5879609 /\ year_start years <= x < year_start (years + 1) /\ date_years_by_days years = year_start years.
Proof.
  intros Hx t. assert (Ht : 0 <= t <= 5879610 /\ (year_start t <= x -> x < year_start (t + 1)) /\
    (x < year_start t -> 0 < t /\ year_start (t - 1) <= x)).
  { destruct (decide (x = 0)) as [->|]; [unfold t, years_approx, year_start; simpl; lia|].
    destruct (years_approx_near x) as [H1 H2]; [lia|]. fold t in H1, H2. change year_double.1 with 6425414011327611 in *.
    assert (0 <= t) by lia. split; [lia|]. by apply year_bracket; [lia|..]. }
  destruct Ht as (Htr & Hup & Hdown). rewrite (date_years_by_days_start t) by done. cbv zeta.
  destruct (x <? year_start t) eqn:E; bprop.
  - destruct (Hdown E) as [? ?]. rewrite date_years_by_days_start by lia. replace (t - 1 + 1) with t by lia. lia.
  - rewrite date_years_by_days_start by done. specialize (Hup E). split; [|done].
    split; [lia|]. unfold year_start in *. lia.
Qed.

Definition is_leap (y : Z) : bool := ((y mod 4 =? 0) && negb (y mod 100 =? 0)) || (y mod 400 =? 0).

Lemma date_leap_year_spec y : 0 <= y -> date_leap_year y = is_leap y.
Proof. intros. unfold date_leap_year, is_leap. by rewrite !Z.rem_mod_nonneg by lia. Qed.

Lemma is_leap_cases y :
  (is_leap y = true /\ (y mod 4 = 0 /\ y mod 100 <> 0 \/ y mod 400 = 0)) \/
  (is_leap y = false /\ (y mod 4 <> 0 \/ y mod 100 = 0) /\ y mod 400 <> 0).
Proof.
  unfold is_leap. destruct (Z.eqb_spec (y mod 4) 0), (Z.eqb_spec (y mod 100) 0), (Z.eqb_spec (y mod 400) 0); cbn; auto 6.
Qed.

Lemma year_length y : year_start y - year_start (y - 1) = if is_leap y then 366 else 365.
Proof.
  unfold year_start. destruct (is_leap_cases y) as [[-> H]|[-> H]]; lia.
Qed.

(** ** Months *)
Definition month_len (leap : bool) (m : Z) : Z :=
  (MONTHDAYS leap).[Z.to_nat m] - (MONTHDAYS leap).[Z.to_nat (m - 1)].

Definition month_days_ok (leap : bool) (rem : Z) : bool :=
  let mid := find_month 12 leap rem in
  (mid <? 12)%nat && ((MONTHDAYS leap).[mid] <=? rem) && (rem <? (MONTHDAYS leap).[S mid]).

Lemma find_month_spec (leap : bool) rem :
  0 <= rem < (if leap then 366 else 365) -> month_days_ok leap rem = true.
Proof.
  intros Hr. assert (Hf : forallb (month_days_ok leap) (seqZ 0 (if leap then 366 else 365)) = true)
    by (destruct leap; by vm_compute).
  rewrite forallb_forall in Hf. apply Hf, list_elem_of_In, elem_of_seqZ. lia.
Qed.

Lemma find_month_unique leap m rem :
  1 <= m <= 12 -> (MONTHDAYS leap).[Z.to_nat (m - 1)] <= rem < (MONTHDAYS leap).[Z.to_nat m] ->
  find_month 12 leap rem = Z.to_nat (m - 1).
Proof.
  intros Hm Hr. assert (Hf : forallb (fun m => forallb (fun r => negb (((MONTHDAYS leap).[Z.to_nat (m - 1)] <=? r) &&
      (r <? (MONTHDAYS leap).[Z.to_nat m])) || (find_month 12 leap r =? Z.to_nat (m - 1))%nat) (seqZ 0 366)) (seqZ 1 12) = true)
    by (destruct leap; by vm_compute).
  rewrite forallb_forall in Hf. specialize (Hf m). rewrite <- list_elem_of_In, elem_of_seqZ in Hf. specialize (Hf ltac:(lia)).
  rewrite forallb_forall in Hf. specialize (Hf rem). rewrite <- list_elem_of_In, elem_of_seqZ in Hf.
  assert (Hb : forall k, 0 <= (MONTHDAYS leap).[k] <= 366).
  { intros k. destruct leap; do 13 (destruct k as [|k]; [vm_compute; split; discriminate|]); vm_compute; split; discriminate. }
  pose proof (Hb (Z.to_nat (m - 1))). pose proof (Hb (Z.to_nat m)). specialize (Hf ltac:(lia)).
  rewrite (proj2 (Z.leb_le _ _)), (proj2 (Z.ltb_lt rem _)) in Hf by lia. cbn in Hf. by apply Nat.eqb_eq.
Qed.

(** ** Dates *)
Definition day_number (y m d : Z) : Z :=
  year_start (y - 1) + (MONTHDAYS (is_leap y)).[Z.to_nat (m - 1)] + (d - 1) - 730119.

Lemma month_cases m : 1 <= m <= 12 -> m = 1 \/ m = 2 \/ m = 3 \/ m = 4 \/ m = 5 \/ m = 6 \/ m = 7 \/ m = 8 \/ m = 9 \/ m = 10 \/ m = 11 \/ m = 12.
Proof. lia. Qed.

Ltac months Hm := destruct (month_cases _ Hm) as [->|[->|[->|[->|[->|[->|[->|[->|[->|[->|[->| ->]]]]]]]]]]].

(** Evaluate table lookups and comparisons on literals. *)
Ltac tables :=
  repeat match goal with
  | |- context [rd ?l ?i] => let v := eval vm_compute in (rd l i) in change (rd l i) with v
  | |- context [?a =? ?b] => let v := eval vm_compute in (a =? b) in
      match v with true => idtac | false => idtac end; change (a =? b) with v
  | |- context [?a <=? ?b] => let v := eval vm_compute in (a <=? b) in
      match v with true => idtac | false => idtac end; change (a <=? b) with v
  | |- context [?a <? ?b] => let v := eval vm_compute in (a <? b) in
      match v with true => idtac | false => idtac end; change (a <? b) with v
  end; cbv beta iota delta [andb].

Lemma date_valid_spec y m d :
  q_calendar_date_valid y m d = true <->
  1 <= y <= 9999 /\ 1 <= m <= 12 /\ 1 <= d <= month_len (is_leap y) m.
Proof.
  unfold q_calendar_date_valid. bif; [split; [done|lia]|].
  assert (Hm : 1 <= m <= 12) by lia.
  assert (Hl : (Z.rem y 4 =? 0) && (negb (Z.rem y 100 =? 0) || (Z.rem y 400 =? 0)) = is_leap y).
  { rewrite !Z.rem_mod_nonneg by lia. unfold is_leap.
    destruct (Z.eqb_spec (y mod 4) 0), (Z.eqb_spec (y mod 100) 0), (Z.eqb_spec (y mod 400) 0); cbn; lia || done. }
  rewrite Hl, Z.leb_le. unfold month_len. destruct (is_leap y); months Hm; tables; lia.
Qed.

Lemma month_table leap m :
  1 <= m <= 12 -> 0 <= (MONTHDAYS leap).[Z.to_nat (m - 1)] /\
  (MONTHDAYS leap).[Z.to_nat (m - 1)] < (MONTHDAYS leap).[Z.to_nat m] <= (if leap then 366 else 365).
Proof. intros Hm. destruct leap; months Hm; vm_compute; split_and!; (done || discriminate). Qed.

Section valid.
Context (y m d : Z) (Hv : q_calendar_date_valid y m d = true).

Lemma valid_day : 0 <= d - 1 < month_len (is_leap y) m.
Proof using Hv. apply date_valid_spec in Hv. lia. Qed.

Lemma day_in_year : 0 <= (MONTHDAYS (is_leap y)).[Z.to_nat (m - 1)] + (d - 1) < (if is_leap y then 366 else 365).
Proof using Hv.
  pose proof valid_day as Hd. apply date_valid_spec in Hv as (_ & Hm & _).
  pose proof (month_table (is_leap y) m Hm). unfold month_len in Hd. lia.
Qed.

Lemma ymd_to_date_number : ymd_to_date y m d = day_number y m d.
Proof using Hv.
  pose proof day_in_year as Hd. apply date_valid_spec in Hv as (Hy & Hm & _).
  unfold ymd_to_date, day_number. rewrite (proj2 (Z.ltb_lt 0 y)), (proj2 (Z.ltb_lt 0 m)) by lia.
  rewrite date_leap_year_spec, date_years_by_days_start by lia.
  change (date_years_by_days (RAY_DATE_EPOCH - 1)) with 730119.
  rewrite i32_small; [lia|]. assert (0 <= year_start (y - 1) <= 3651695) by (unfold year_start; lia). destruct (is_leap y); lia.
Qed.

Lemma era_days yy : 0 <= yy ->
  let era := Z.quot yy 400 in
  let yoe := yy - era * 400 in
  era * 146097 + (yoe * 365 + Z.quot yoe 4 - Z.quot yoe 100) = year_start yy.
Proof using Type. intros. unfold year_start. lia. Qed.

Lemma days_from_civil_number : q_calendar_days_from_civil y m d = day_number y m d.
Proof using Hv.
  apply date_valid_spec in Hv as (Hy & Hm & _). unfold q_calendar_days_from_civil, day_number.
  set (y' := if m <=? 2 then y - 1 else y). assert (Hy' : 0 <= y') by (unfold y'; bif; lia).
  rewrite (proj2 (Z.leb_le 0 y')) by done. pose proof (era_days y' Hy') as He. cbv zeta in He.
  pose proof (year_length y) as Hl. unfold y' in *.
  destruct (is_leap y); months Hm; revert He; tables; intros He; lia.
Qed.
End valid.

Lemma year_start_mono a b : a <= b -> year_start a <= year_start b.
Proof. unfold year_start. lia. Qed.

Lemma year_start_unique a b x :
  year_start a <= x < year_start (a + 1) -> year_start b <= x < year_start (b + 1) -> a = b.
Proof.
  intros Ha Hb. destruct (Z.lt_trichotomy a b) as [Hlt|[?|Hlt]]; [|done|].
  - pose proof (year_start_mono (a + 1) b ltac:(lia)). lia.
  - pose proof (year_start_mono (b + 1) a ltac:(lia)). lia.
Qed.

(** The decoder on a day of year [years + 1]. *)
Lemma date_to_ymd_decode days :
  0 <= days + 730119 < 2 ^ 31 - 366 ->
  exists y, year_start (y - 1) <= days + 730119 < year_start y /\ 1 <= y /\
    let rem := days + 730119 - year_start (y - 1) in
    let mid := find_month 12 (is_leap y) rem in
    (mid < 12)%nat /\ (MONTHDAYS (is_leap y)).[mid] <= rem < (MONTHDAYS (is_leap y)).[S mid] /\
    date_to_ymd days = (y, 1 + mid, 1 + rem - (MONTHDAYS (is_leap y)).[mid]).
Proof.
  intros Hx. unfold date_to_ymd. change (date_years_by_days (RAY_DATE_EPOCH - 1)) with 730119.
  assert (Ho : i32 (u32 days + u32 730119) = days + 730119).
  { unfold i32, sgn, u32, wrap. change (32 - 1) with 31. bif; lia. }
  rewrite Ho. destruct (date_years_exact (days + 730119) Hx) as (Hyr & Hb & Hdyd).
  cbv zeta. set (years := if days + 730119 <? date_years_by_days (years_approx (days + 730119)) then _ else _) in *.
  exists (years + 1). replace (years + 1 - 1) with years by lia. split; [done|]. split; [lia|].
  rewrite Hdyd, date_leap_year_spec by lia.
  assert (Hrem : 0 <= days + 730119 - year_start years < if is_leap (years + 1) then 366 else 365).
  { pose proof (year_length (years + 1)) as Hl. replace (years + 1 - 1) with years in Hl by lia. lia. }
  pose proof (find_month_spec _ _ Hrem) as Hf. unfold month_days_ok in Hf. bprop.
  set (mid := find_month 12 (is_leap (years + 1)) (days + 730119 - year_start years)) in *.
  split; [done|]. split; [done|]. rewrite (proj2 (Nat.eqb_neq mid 12)) by lia.
  rewrite Z.rem_small by lia. done.
Qed.

Lemma next_mid leap (mid : nat) : (mid < 12)%nat ->
  month_len leap (1 + mid) = (MONTHDAYS leap).[S mid] - (MONTHDAYS leap).[mid].
Proof.
  intros. unfold month_len. replace (Z.to_nat (1 + mid)) with (S mid) by lia. by replace (Z.to_nat (1 + mid - 1)) with mid by lia.
Qed.

(** Every day of the domain decodes to a valid date, its own. *)
Lemma date_of_day days : -730119 <= days <= 2921939 ->
  exists y m d, date_to_ymd days = (y, m, d) /\ q_calendar_date_valid y m d = true /\ day_number y m d = days.
Proof.
  intros Hr. destruct (date_to_ymd_decode days) as (y & Hb & Hy & Hmid & Hrem & ->); [lia|].
  set (mid := find_month 12 (is_leap y) (days + 730119 - year_start (y - 1))) in *.
  assert (y <= 9999).
  { destruct (Z.le_gt_cases y 9999); [done|]. pose proof (year_start_mono 9999 (y - 1) ltac:(lia)).
    change (year_start 9999) with 3652059 in *. lia. }
  assert (Hv : q_calendar_date_valid y (1 + mid) (1 + (days + 730119 - year_start (y - 1)) - (MONTHDAYS (is_leap y)).[mid]) = true).
  { apply date_valid_spec. rewrite next_mid by done. lia. }
  eexists _, _, _. split; [done|]. split; [exact Hv|]. unfold day_number. replace (Z.to_nat (1 + mid - 1)) with mid by lia. lia.
Qed.

(** C33. On the whole date domain 0001.01.01 .. 9999.12.31 (3,652,059 days):
    the two encoders, [ymd_to_date] and Hinnant's [q_calendar_days_from_civil],
    agree on valid dates; [date_to_ymd], with its double-precision guess of the
    year, inverts them; and every day number of the domain decodes to a valid
    date that encodes back to it. *)
Theorem calendar_date_bijection :
  (forall y m d, q_calendar_date_valid y m d = true ->
     ymd_to_date y m d = q_calendar_days_from_civil y m d /\
     -730119 <= ymd_to_date y m d <= 2921939 /\
     date_to_ymd (ymd_to_date y m d) = (y, m, d)) /\
  (forall days, -730119 <= days <= 2921939 ->
     let '(y, m, d) := date_to_ymd days in
     q_calendar_date_valid y m d = true /\ ymd_to_date y m d = days).
Proof.
  split.
  - intros y m d Hv. pose proof (day_in_year y m d Hv) as Hd. pose proof (valid_day y m d Hv) as Hday.
    rewrite ymd_to_date_number, days_from_civil_number by done.
    apply date_valid_spec in Hv as (Hy & Hm & _). split; [done|].
    set (o := (MONTHDAYS (is_leap y)).[Z.to_nat (m - 1)] + (d - 1)) in *.
    assert (Hn : day_number y m d = year_start (y - 1) + o - 730119) by (unfold day_number, o; lia).
    assert (Hr : 0 <= year_start (y - 1) + o <= 3652058).
    { pose proof (year_length y). pose proof (year_start_mono y 9999 ltac:(lia)).
      pose proof (year_start_mono 0 (y - 1) ltac:(lia)). change (year_start 9999) with 3652059 in *. change (year_start 0) with 0 in *. lia. }
    split; [lia|]. destruct (date_to_ymd_decode (day_number y m d)) as (y' & Hb & Hy' & Hdec); [lia|]. cbv zeta in Hdec.
    assert (y' = y) as ->.
    { assert (y' - 1 = y - 1); [|lia]. apply (year_start_unique _ _ (day_number y m d + 730119)).
      - by replace (y' - 1 + 1) with y' by lia.
      - replace (y - 1 + 1) with y by lia. pose proof (year_length y). lia. }
    replace (day_number y m d + 730119 - year_start (y - 1)) with o in Hdec by lia.
    rewrite (find_month_unique (is_leap y) m o) in Hdec by (done || (unfold month_len in Hday; unfold o; lia)).
    destruct Hdec as (_ & _ & ->). f_equal; [f_equal; lia|unfold o; lia].
  - intros days Hr. destruct (date_of_day days Hr) as (y & m & d & -> & Hv & Hn). split; [done|]. by rewrite ymd_to_date_number.
Qed.

(** The calendar by its successor. *)
Definition next_date (y m d : Z) : Z * Z * Z :=
  if d <? month_len (is_leap y) m then (y, m, d + 1)
  else if m <? 12 then (y, m + 1, 1) else (y + 1, 1, 1).

Lemma next_date_number y m d :
  1 <= m <= 12 -> 1 <= d <= month_len (is_leap y) m ->
  let '(y', m', d') := next_date y m d in day_number y' m' d' = day_number y m d + 1.
Proof.
  intros Hm Hd. unfold next_date, day_number. destruct (d <? month_len (is_leap y) m) eqn:E; bprop; [lia|].
  assert (Hd' : d = month_len (is_leap y) m) by lia. unfold month_len in Hd'.
  destruct (m <? 12) eqn:E12; bprop.
  - replace (m + 1 - 1) with m by lia. lia.
  - assert (m = 12) as -> by lia. replace (y + 1 - 1) with y by lia. pose proof (year_length y).
    revert Hd'. destruct (is_leap y), (is_leap (y + 1)); tables; lia.
Qed.

Lemma next_date_valid y m d :
  q_calendar_date_valid y m d = true -> (y, m, d) <> (9999, 12, 31) ->
  let '(y', m', d') := next_date y m d in q_calendar_date_valid y' m' d' = true.
Proof.
  intros Hv Hne. apply date_valid_spec in Hv as (Hy & Hm & Hd). unfold next_date.
  assert (Hpos : forall leap k, 1 <= k <= 12 -> 28 <= month_len leap k) by (intros leap k Hk; unfold month_len; destruct leap; months Hk; tables; lia).
  assert (H12 : forall leap, month_len leap 12 = 31) by (by destruct leap).
  destruct (d <? month_len (is_leap y) m) eqn:E; bprop; [apply date_valid_spec; lia|].
  destruct (m <? 12) eqn:E12; bprop; apply date_valid_spec.
  - pose proof (Hpos (is_leap y) (m + 1) ltac:(lia)). lia.
  - assert (m = 12) as -> by lia. rewrite H12 in *. pose proof (Hpos (is_leap (y + 1)) 1 ltac:(lia)).
    assert (y <> 9999) by (intros ->; apply Hne; repeat f_equal; lia). lia.
Qed.

(** [q_calendar_days_from_civil] counts days: 2000.01.01 is day 0, and
    the day after a valid date (next day of the month, first of the next
    month, 1 January) is valid up to 9999.12.31 and has the next number. *)
Theorem days_from_civil_counts :
  q_calendar_days_from_civil 2000 1 1 = 0 /\
  (forall y m d, q_calendar_date_valid y m d = true -> (y, m, d) <> (9999, 12, 31) ->
     let '(y', m', d') := next_date y m d in
     q_calendar_date_valid y' m' d' = true /\
     q_calendar_days_from_civil y' m' d' = q_calendar_days_from_civil y m d + 1).
Proof.
  split; [done|]. intros y m d Hv Hne. pose proof (next_date_valid y m d Hv Hne) as Hv'.
  pose proof Hv as (_ & Hm & Hd)%date_valid_spec. pose proof (next_date_number y m d Hm Hd) as Hn.
  destruct (next_date y m d) as [[y' m'] d']. split; [done|]. by rewrite !days_from_civil_number.
Qed.

(** ** Months of a day count *)
Definition civil_of_doe (doe : Z) : Z * Z * Z :=
  let yoe := (doe - doe / 1460 + doe / 36524 - doe / 146096) / 365 in
  let doy := doe - (365 * yoe + yoe / 4 - yoe / 100) in
  let mp := (5 * doy + 2) / 153 in
  (yoe, mp, doy - (153 * mp + 2) / 5 + 1).

(** The dividend of the year of era, which grows with the day. *)
Definition yoe_num (doe : Z) : Z := doe - doe / 1460 + doe / 36524 - doe / 146096.

Lemma yoe_step x : 0 <= x < 146096 -> yoe_num x <= yoe_num (x + 1).
Proof.
  unfold yoe_num. intros Hx. assert (x / 146096 = 0) as -> by lia.
  destruct (decide (x = 146095)) as [->|]; [vm_compute; discriminate|].
  assert ((x + 1) / 146096 = 0) as -> by lia. lia.
Qed.

Lemma yoe_mono x y : 0 <= x <= y -> y <= 146096 -> yoe_num x <= yoe_num y.
Proof.
  intros Hxy. replace y with (x + (y - x)) by lia. assert (0 <= y - x) as Hk by lia. revert Hk.
  generalize (y - x). intros k Hk. revert k Hk. apply (natlike_ind (fun k => x + k <= 146096 -> yoe_num x <= yoe_num (x + k))).
  - intros _. by rewrite Z.add_0_r.
  - intros k Hk IH Hb. etransitivity; [apply IH; lia|]. replace (x + Z.succ k) with (x + k + 1) by lia. apply yoe_step. lia.
Qed.

(** First and last day of a year of the era, which starts in March. *)
Definition era_start (k : Z) : Z := 365 * k + k / 4 - k / 100.
Definition era_end (k : Z) : Z := if k =? 399 then 146096 else era_start (k + 1) - 1.

Definition era_year_ok (k : Z) : bool :=
  (yoe_num (era_start k) / 365 =? k) && (yoe_num (era_end k) / 365 =? k) &&
  (era_end k - era_start k =? if is_leap (k + 1) then 365 else 364) && (0 <=? era_start k) && (era_end k <=? 146096).

Lemma era_year_all k : 0 <= k < 400 -> era_year_ok k = true.
Proof.
  intros Hk. assert (Hf : forallb era_year_ok (seqZ 0 400) = true) by (by vm_compute).
  rewrite forallb_forall in Hf. apply Hf, list_elem_of_In, elem_of_seqZ. lia.
Qed.

Lemma era_year_find doe : 0 <= doe < 146097 -> exists k, 0 <= k < 400 /\ era_start k <= doe <= era_end k.
Proof.
  intros Hd. assert (Hs : forall n : nat, (n < 400)%nat -> doe < era_start n -> exists k, 0 <= k < 400 /\ era_start k <= doe <= era_end k).
  { induction n as [|n IH]; intros Hn Hlt; [change (era_start 0%nat) with 0 in Hlt; lia|].
    destruct (Z.lt_ge_cases doe (era_start n)); [apply IH; [lia|done]|].
    exists n. unfold era_end. rewrite (proj2 (Z.eqb_neq n 399)) by lia. replace (n + 1) with (Z.of_nat (S n)) by lia. lia. }
  destruct (Z.lt_ge_cases doe (era_start 399)); [by apply (Hs 399%nat); [lia|]|].
  exists 399. change (era_end 399) with 146096. lia.
Qed.

(** Month and day of a day of the March year. *)
Definition doy_ok (doy : Z) : bool :=
  let mp := (5 * doy + 2) / 153 in
  let d := doy - (153 * mp + 2) / 5 + 1 in
  let m := if mp <? 10 then mp + 3 else mp - 9 in
  (0 <=? mp) && (mp <? 12) && (1 <=? d) && (d <=? month_len true m) && ((365 <=? doy) || (d <=? month_len false m)).

Lemma month_len_common m : 1 <= m <= 12 ->
  month_len false m <= month_len true m /\ (m <> 2 -> month_len false m = month_len true m).
Proof. intros Hm. unfold month_len. months Hm; tables; lia. Qed.

Lemma doy_all doy : 0 <= doy <= 365 -> doy_ok doy = true.
Proof.
  intros Hk. assert (Hf : forallb doy_ok (seqZ 0 366) = true) by (by vm_compute).
  rewrite forallb_forall in Hf. apply Hf, list_elem_of_In, elem_of_seqZ. lia.
Qed.

Lemma doe_split doe :
  0 <= doe < 146097 ->
  let '(yoe, mp, d) := civil_of_doe doe in
  let m := if mp <? 10 then mp + 3 else mp - 9 in
  0 <= yoe < 400 /\ 0 <= mp < 12 /\ 1 <= d <= month_len (is_leap (if m <=? 2 then yoe + 1 else yoe)) m /\
  yoe * 365 + yoe / 4 - yoe / 100 + ((153 * mp + 2) / 5 + d - 1) = doe.
Proof.
  intros Hd. destruct (era_year_find doe Hd) as (k & Hk & Hb). pose proof (era_year_all k Hk) as Hok.
  unfold era_year_ok in Hok. bprop.
  assert (Hy : yoe_num doe / 365 = k).
  { pose proof (yoe_mono (era_start k) doe ltac:(lia) ltac:(lia)).
    pose proof (yoe_mono doe (era_end k) ltac:(lia) ltac:(lia)). lia. }
  unfold civil_of_doe. fold (yoe_num doe). rewrite Hy. fold (era_start k) in *.
  set (doy := doe - (365 * k + k / 4 - k / 100)). assert (Hdoy : doy = doe - era_start k) by done.
  assert (Hr : 0 <= doy <= 365) by (destruct (is_leap (k + 1)); lia).
  pose proof (doy_all doy Hr) as Hm. unfold doy_ok in Hm.
  set (mp := (5 * doy + 2) / 153) in *. set (m := if mp <? 10 then mp + 3 else mp - 9) in *.
  cbv zeta in Hm. fold mp in Hm. fold m in Hm. bprop. assert (Hmr : 1 <= m <= 12) by (unfold m; bif; lia).
  destruct (month_len_common m Hmr) as [Hle Heq]. cbv zeta. rewrite <- Hdoy. fold mp. fold m.
  split; [done|]. split; [lia|]. split; [split; [lia|]|unfold era_start in *; lia].
  destruct (is_leap (if m <=? 2 then k + 1 else k)) eqn:El; [done|].
  destruct (decide (m = 2)) as [E2|]; [|rewrite Heq by done; done]. rewrite E2 in El. change (2 <=? 2) with true in El. cbv iota in El.
  rewrite El in *. match goal with H : (_ = true) \/ (_ = true) |- _ => destruct H end; bprop; lia.
Qed.


Lemma is_leap_era y k : is_leap (y + k * 400) = is_leap y.
Proof.
  unfold is_leap. replace (k * 400) with (k * 100 * 4) at 1 by lia. rewrite Z_mod_plus_full.
  replace (k * 400) with (k * 4 * 100) at 1 by lia. by rewrite !Z_mod_plus_full.
Qed.

(** [q_calendar_month_from_days] finds the month of any day count: the
    payload counts months from 2000.01 of the date (any year, before or after
    the epoch) whose [q_calendar_days_from_civil] is the count, and the flag
    says whether that date is the first of its month. *)
Theorem month_from_days_correct days :
  exists y m d, 1 <= m <= 12 /\ 1 <= d <= month_len (is_leap y) m /\
    q_calendar_days_from_civil y m d = days /\
    q_calendar_month_from_days days = (12 * (y - 2000) + (m - 1), d =? 1).
Proof.
  set (z := days + 10957 + 719468). set (era := z / 146097).
  assert (Hera : Z.quot (if 0 <=? z then z else z - 146096) 146097 = era) by (unfold era; bif; lia).
  set (doe := z - era * 146097). assert (Hdoe : 0 <= doe < 146097) by (unfold doe, era; lia).
  pose proof (doe_split doe Hdoe) as Hok.
  destruct (civil_of_doe doe) as [[yoe mp] d] eqn:Ec.
  set (m := if mp <? 10 then mp + 3 else mp - 9) in *.
  destruct Hok as (Hyoe & Hmp12 & Hd & Hdoe').
  set (y := (if m <=? 2 then yoe + 1 else yoe) + era * 400).
  exists y, m, d. assert (Hm : 1 <= m <= 12) by (unfold m; bif; lia). split; [done|].
  split; [unfold y; rewrite is_leap_era; done|]. split.
  - unfold q_calendar_days_from_civil.
    assert (Hy' : (if m <=? 2 then y - 1 else y) = yoe + era * 400) by (unfold y; bif; lia). rewrite Hy'.
    assert (He2 : Z.quot (if 0 <=? yoe + era * 400 then yoe + era * 400 else yoe + era * 400 - 399) 400 = era) by (bif; lia).
    rewrite He2. replace (yoe + era * 400 - era * 400) with yoe by lia.
    assert (Hmp : m + (if 2 <? m then -3 else 9) = mp) by (unfold m; repeat bif; lia). rewrite Hmp.
    rewrite !Z.quot_div_nonneg by lia. unfold doe in *. lia.
  - unfold q_calendar_month_from_days. fold z. rewrite Hera. fold doe. unfold civil_of_doe in Ec.
    injection Ec as -> -> ->. fold m. f_equal. unfold y. bif; lia.
Qed.

Lemma month_from_days_witness :
  q_calendar_month_from_days (-1) = (-1, false) /\ q_calendar_month_from_days 59 = (1, false) /\
  q_calendar_month_from_days 60 = (2, true).
Proof. split_and!; vm_compute; reflexivity. Qed.

(** A timestamp splits into a day and a time of day in [0, 24h), floored
    also before 2000, and composing the parts gives it back; composition is
    exact whenever the result fits, and saturates to the infinities of the
    right sign otherwise, even when the day part alone overflows. *)
Theorem timestamp_split_compose ns days tod :
  0 <= ts_ns_in_day ns < NS_PER_DAY /\
  ts_days_floor ns * NS_PER_DAY + ts_ns_in_day ns = ns /\
  (- INT64_MAX <= ns <= INT64_MAX -> ts_compose_checked (ts_days_floor ns) (ts_ns_in_day ns) = Some ns) /\
  q_calendar_ts_compose days tod = Z.max (- INT64_MAX) (Z.min INT64_MAX (days * NS_PER_DAY + tod)) /\
  (ts_compose_checked days tod = None <-> INT64_MAX < Z.abs (days * NS_PER_DAY + tod)) /\
  (0 <= tod < NS_PER_DAY -> forall v, ts_compose_checked days tod = Some v -> ts_days_floor v = days /\ ts_ns_in_day v = tod).
Proof.
  assert (Hsplit : forall ns, 0 <= ts_ns_in_day ns < NS_PER_DAY /\ ts_days_floor ns * NS_PER_DAY + ts_ns_in_day ns = ns).
  { clear. intros ns. unfold ts_ns_in_day, ts_days_floor, NS_PER_DAY. repeat bif; lia. }
  destruct (Hsplit ns) as [Hr He]. split; [done|]. split; [done|].
  assert (Hcc : forall d t v, ts_compose_checked d t = Some v <-> v = d * NS_PER_DAY + t /\ - INT64_MAX <= v <= INT64_MAX).
  { intros d t v. unfold ts_compose_checked. bif; split; [done|lia|intros [= <-]; lia|].
    intros [-> _]. done. }
  split_and!.
  - intros Hb. apply Hcc. lia.
  - unfold q_calendar_ts_compose. destruct (ts_compose_checked days tod) as [v|] eqn:E.
    + apply Hcc in E. unfold INT64_MAX in *. lia.
    + revert E. unfold ts_compose_checked, NS_PER_DAY, INT64_MAX. bif; [|done]. intros _. bif; lia.
  - unfold ts_compose_checked, INT64_MAX. bif; split; try done; lia.
  - intros Ht v Hv. apply Hcc in Hv as [-> _]. destruct (Hsplit (days * NS_PER_DAY + tod)) as [H1 H2].
    unfold NS_PER_DAY in *. lia.
Qed.

Lemma timestamp_split_compose_witness :
  ts_compose_checked (ts_days_floor (-1)) (ts_ns_in_day (-1)) = Some (-1) /\
  ts_days_floor (-1) = -1 /\ q_calendar_ts_compose (-106752) 763145224193 = -INT64_MAX.
Proof.
  split; [|split; vm_compute; reflexivity].
  apply (timestamp_split_compose (-1) 0 0). vm_compute. split; discriminate.
Defined.

(** [q_calendar_week_start] is the latest day, not after the given one,
    that falls on the start day of the week: within the last seven days, of the
    right weekday (day 0 is start day 0), and unchanged on a start day; only
    the start modulo 7 matters. *)
Theorem week_start_correct days start :
  let w := q_calendar_week_start days start in
  w <= days < w + 7 /\ w mod 7 = start mod 7 /\
  q_calendar_week_start w start = w /\ q_calendar_week_start days (start + 7) = w /\
  (forall w', w' <= days < w' + 7 -> w' mod 7 = start mod 7 -> w' = w).
Proof.
  assert (Hn : forall s, Z.rem (Z.rem s 7 + 7) 7 = s mod 7) by (intros; lia).
  assert (Hw : forall ds s, q_calendar_week_start ds s = ds - (ds - s mod 7) mod 7)
    by (intros; unfold q_calendar_week_start; by rewrite !Hn).
  cbv zeta. rewrite !Hw. replace ((start + 7) mod 7) with (start mod 7) by lia.
  split_and!; lia.
Qed.
