(* ===== verification/Hash.v ===== *)
(** * wyhash ([src/ops/hash.h])

    The 64-bit hash of symbols, group keys and joins.  The 128-bit product is
    the [__SIZEOF_INT128__] variant, with the portable 32-bit-limb variant
    beside it; byte readers are the little-endian ones.  A read of [k] bytes
    at an offset outside the buffer is [None], so that the hash of a buffer
    being [Some] says every read was inside it; the block loops carry fuel,
    and running out is [None] too.  A double is its 64-bit pattern. *)
From Stdlib Require Import ZArith Lia.
From S2P Require Import Prelude.
From Stdlib Require Import Zify ZifyNat.
#[local] Ltac Zify.zify_post_hook ::= Z.to_euclidean_division_equations.

(** ** Primitives *)

(** [*A], [*B] become the low and the high half of the product. *)
Definition ray__wymum (A B : Z) : Z * Z :=
  let r := A * B in (u64 r, u64 (Z.shiftr r 64)).

(** The fallback for compilers without a 128-bit product. *)
Definition ray__wymum_portable (A B : Z) : Z * Z :=
  let ha := Z.shiftr A 32 in let la := u32 A in
  let hb := Z.shiftr B 32 in let lb := u32 B in
  let rh := u64 (ha * hb) in let rm0 := u64 (ha * lb) in
  let rm1 := u64 (hb * la) in let rl := u64 (la * lb) in
  let t := u64 (rl + u64 (Z.shiftl rm0 32)) in
  let c := if t <? rl then 1 else 0 in
  let lo := u64 (t + u64 (Z.shiftl rm1 32)) in
  let c := c + (if lo <? t then 1 else 0) in
  let hi := u64 (rh + Z.shiftr rm0 32 + Z.shiftr rm1 32 + c) in
  (lo, hi).

Definition ray__wymix (A B : Z) : Z :=
  let '(A, B) := ray__wymum A B in Z.lxor A B.

(** [k] bytes of [data] from byte [off] on, if they are inside it. *)
Definition load_at (data : list Z) (off : Z) (k : nat) : option Z :=
  if (0 <=? off) && (off + k <=? length data)
  then Some (le_load (take k (drop (Z.to_nat off) data))) else None.

Definition ray__wyr8 (data : list Z) (p : Z) : option Z := load_at data p 8.
Definition ray__wyr4 (data : list Z) (p : Z) : option Z := load_at data p 4.
Definition ray__wyr3 (data : list Z) (p k : Z) : option Z :=
  a ← load_at data p 1;
  b ← load_at data (p + Z.shiftr k 1) 1;
  c ← load_at data (p + k - 1) 1;
  Some (Z.lor (Z.lor (Z.shiftl a 16) (Z.shiftl b 8)) c).

Definition wyp0 : Z := 0x2d358dccaa6c78a5.
Definition wyp1 : Z := 0x8bb84b93962eacc9.
Definition wyp2 : Z := 0x4b33a62ed433d4a3.
Definition wyp3 : Z := 0x4d5a2da51de1aa47.

(** ** Hash of a byte buffer *)

(** The [do ... while (i >= 48)] loop over the three seeds. *)
Fixpoint wy_loop48 (fuel : nat) (data : list Z) (p i seed see1 see2 : Z) : option (Z * Z * Z) :=
  match fuel with
  | O => None
  | S fuel =>
      r0 ← ray__wyr8 data p; r1 ← ray__wyr8 data (p + 8);
      r2 ← ray__wyr8 data (p + 16); r3 ← ray__wyr8 data (p + 24);
      r4 ← ray__wyr8 data (p + 32); r5 ← ray__wyr8 data (p + 40);
      let seed := ray__wymix (Z.lxor r0 wyp1) (Z.lxor r1 seed) in
      let see1 := ray__wymix (Z.lxor r2 wyp2) (Z.lxor r3 see1) in
      let see2 := ray__wymix (Z.lxor r4 wyp3) (Z.lxor r5 see2) in
      let p := p + 48 in
      let i := i - 48 in
      if 48 <=? i then wy_loop48 fuel data p i seed see1 see2
      else Some (p, i, Z.lxor seed (Z.lxor see1 see2))
  end.

(** The [while (i > 16)] loop. *)
Fixpoint wy_loop16 (fuel : nat) (data : list Z) (p i seed : Z) : option (Z * Z * Z) :=
  match fuel with
  | O => None
  | S fuel =>
      if 16 <? i then
        r0 ← ray__wyr8 data p; r1 ← ray__wyr8 data (p + 8);
        wy_loop16 fuel data (p + 16) (i - 16) (ray__wymix (Z.lxor r0 wyp1) (Z.lxor r1 seed))
      else Some (p, i, seed)
  end.

(** The last two words [a] and [b], and the seed, of a buffer of [len] bytes. *)
Definition wy_tail (data : list Z) (seed : Z) : option (Z * Z * Z) :=
  let len := Z.of_nat (length data) in
  if len <=? 16 then
    if 4 <=? len then
      let k := Z.shiftl (Z.shiftr len 3) 2 in
      a0 ← ray__wyr4 data 0; a1 ← ray__wyr4 data k;
      b0 ← ray__wyr4 data (len - 4); b1 ← ray__wyr4 data (len - 4 - k);
      Some (Z.lor (u64 (Z.shiftl a0 32)) a1, Z.lor (u64 (Z.shiftl b0 32)) b1, seed)
    else if 0 <? len then
      a ← ray__wyr3 data 0 len; Some (a, 0, seed)
    else Some (0, 0, seed)
  else
    '(p, i, seed) ← (if 48 <=? len then wy_loop48 (length data) data 0 len seed seed seed
                     else Some (0, len, seed));
    '(p, i, seed) ← wy_loop16 (length data) data p i seed;
    a ← ray__wyr8 data (p + i - 16);
    b ← ray__wyr8 data (p + i - 8);
    Some (a, b, seed).

Definition ray_hash_bytes (data : list Z) : option Z :=
  let len := Z.of_nat (length data) in
  let seed := Z.lxor 0 (ray__wymix (Z.lxor 0 wyp0) wyp1) in
  '(a, b, seed) ← wy_tail data seed;
  let '(a, b) := ray__wymum (Z.lxor a wyp1) (Z.lxor b seed) in
  Some (ray__wymix (Z.lxor (Z.lxor a wyp0) len) (Z.lxor b wyp1)).

(** ** Hashes of fixed-width values *)
Definition ray_hash_i64 (val : Z) : Z :=
  let '(A, B) := ray__wymum (Z.lxor (u64 val) wyp0) (Z.lxor (u64 val) wyp1) in
  ray__wymix (Z.lxor A wyp0) (Z.lxor B wyp1).

Definition NEG_ZERO_BITS : Z := 0x8000000000000000.

(** The argument is the bit pattern [memcpy] reads. *)
Definition ray_hash_f64 (bits : Z) : Z :=
  let bits := if bits =? NEG_ZERO_BITS then 0 else bits in
  let '(A, B) := ray__wymum (Z.lxor bits wyp0) (Z.lxor bits wyp1) in
  ray__wymix (Z.lxor A wyp0) (Z.lxor B wyp1).

Definition ray_hash_combine (h1 h2 : Z) : Z :=
  let '(A, B) := ray__wymum (Z.lxor h1 wyp0) (Z.lxor h2 wyp1) in
  ray__wymix (Z.lxor A wyp0) (Z.lxor B wyp1).

(** ** Lemmas *)
Definition is_u64 (z : Z) : Prop := 0 <= z < 2 ^ 64.

Lemma u64_is z : is_u64 (u64 z).
Proof. apply (wrap_range 64). lia. Qed.
Lemma lxor_is a b : is_u64 a -> is_u64 b -> is_u64 (Z.lxor a b).
Proof. by apply (lxor_range 64). Qed.
Lemma wymix_is A B : is_u64 (ray__wymix A B).
Proof. unfold ray__wymix, ray__wymum. apply lxor_is; apply u64_is. Qed.
#[export] Hint Resolve u64_is lxor_is wymix_is : pq.

Lemma load_at_some data off (k : nat) :
  0 <= off -> off + k <= length data ->
  load_at data off k = Some (le_load (take k (drop (Z.to_nat off) data))).
Proof. intros. unfold load_at. bif; [done|]. destruct E; lia. Qed.

Lemma load_at_inside data off (k : nat) :
  bytes_ok data -> 0 <= off -> off + k <= length data ->
  exists v, load_at data off k = Some v /\ 0 <= v < 256 ^ k.
Proof.
  intros Hd Ho Hk. rewrite load_at_some by done. eexists. split; [done|].
  assert (Hl : length (take k (drop (Z.to_nat off) data)) = k) by (rewrite length_take, length_drop; lia).
  rewrite <- Hl at 3. apply le_load_range. by apply Forall_take, Forall_drop.
Qed.

Section bytes.
Context (data : list Z) (Hd : bytes_ok data).

Lemma wyr8_inside p : 0 <= p -> p + 8 <= length data -> exists v, ray__wyr8 data p = Some v /\ is_u64 v.
Proof using Hd. intros. destruct (load_at_inside data p 8) as (v & Hv & Hr); [done..|]. by exists v. Qed.

Lemma wyr4_inside p : 0 <= p -> p + 4 <= length data -> exists v, ray__wyr4 data p = Some v /\ 0 <= v < 2 ^ 32.
Proof using Hd. intros. destruct (load_at_inside data p 4) as (v & Hv & Hr); [done..|]. by exists v. Qed.

Lemma wyr3_inside k : 0 < k <= 3 -> k <= length data -> exists v, ray__wyr3 data 0 k = Some v /\ is_u64 v.
Proof using Hd.
  intros Hk Hl. unfold ray__wyr3.
  assert (Hs : 0 <= Z.shiftr k 1 < k) by (rewrite Z.shiftr_div_pow2 by lia; lia).
  destruct (load_at_inside data 0 1) as (a & -> & Ha); [done|lia..|].
  destruct (load_at_inside data (0 + Z.shiftr k 1) 1) as (b & -> & Hb); [done|lia..|].
  destruct (load_at_inside data (0 + k - 1) 1) as (c & -> & Hc); [done|lia..|]. simpl.
  eexists. split; [done|]. change (256 ^ 1%nat) with 256 in *.
  rewrite !Z.shiftl_mul_pow2 by lia. unfold is_u64.
  apply (lor_range 64); [lia|apply (lor_range 64); lia|lia].
Qed.

(** A successful read inside the buffer, with its range. *)
Ltac rd8 p := let v := fresh "v" in let Hv := fresh "Hv" in
  destruct (wyr8_inside p) as (v & -> & Hv); [lia..|]; cbn [mbind option_bind].
Ltac rd4 p := let v := fresh "v" in let Hv := fresh "Hv" in
  destruct (wyr4_inside p) as (v & -> & Hv); [lia..|]; cbn [mbind option_bind].

Lemma wy_loop48_some (fuel : nat) p i seed see1 see2 :
  0 <= p -> p + i = length data -> 48 <= i -> i <= 48 * fuel ->
  is_u64 seed -> is_u64 see1 -> is_u64 see2 ->
  exists p' i' seed', wy_loop48 fuel data p i seed see1 see2 = Some (p', i', seed') /\
    p < p' /\ p' + i' = length data /\ 0 <= i' < 48 /\ is_u64 seed'.
Proof using Hd.
  revert p i seed see1 see2. induction fuel as [|fuel IH]; intros p i seed see1 see2 Hp Hi H48 Hf Hs H1 H2; [lia|].
  cbn [wy_loop48]. rd8 p. rd8 (p + 8). rd8 (p + 16). rd8 (p + 24). rd8 (p + 32). rd8 (p + 40). bif.
  - edestruct (IH (p + 48) (i - 48)) as (p' & i' & s' & -> & ?); [lia..| | | |]; [apply wymix_is..|].
    exists p', i', s'. split; [done|]. intuition lia.
  - do 3 eexists. split; [done|]. split; [lia|]. split; [lia|]. split; [lia|]. auto with pq.
Qed.

Lemma wy_loop16_some (fuel : nat) p i seed :
  0 <= p -> p + i = length data -> 0 <= i -> i <= 16 * fuel -> (0 < fuel)%nat -> is_u64 seed ->
  (16 < i \/ 16 <= p) ->
  exists p' i' seed', wy_loop16 fuel data p i seed = Some (p', i', seed') /\
    16 <= p' /\ p' + i' = length data /\ 0 <= i' <= 16 /\ is_u64 seed'.
Proof using Hd.
  revert p i seed. induction fuel as [|fuel IH]; intros p i seed Hp Hi H0 Hf Hf0 Hs Hor; [lia|].
  cbn [wy_loop16]. bif.
  - rd8 p. rd8 (p + 8). destruct fuel as [|fuel]; [lia|].
    edestruct (IH (p + 16) (i - 16)) as (p' & i' & s' & -> & ?); [lia..| | |]; [apply wymix_is|lia|].
    exists p', i', s'. split; [done|]. intuition lia.
  - exists p, i, seed. split; [done|]. intuition lia.
Qed.

Lemma wy_tail_some seed : is_u64 seed -> exists a b seed', wy_tail data seed = Some (a, b, seed') /\
  is_u64 a /\ is_u64 b /\ is_u64 seed'.
Proof using Hd.
  intros Hs. unfold wy_tail. cbv zeta. bif; [bif; [|bif]|].
  - set (k := Z.shiftl (Z.shiftr (length data) 3) 2).
    assert (Hk : 0 <= k <= length data - 4).
    { unfold k. rewrite Z.shiftl_mul_pow2, Z.shiftr_div_pow2 by lia. change (2 ^ 3) with 8. change (2 ^ 2) with 4. lia. }
    rd4 0. rd4 k. rd4 (length data - 4). rd4 (length data - 4 - k).
    do 3 eexists. split; [done|]. unfold is_u64 in *.
    split_and!; [apply (lor_range 64); [lia|apply u64_is|lia]..|apply Hs|apply Hs].
  - edestruct (wyr3_inside (length data)) as (v & -> & Hv); [lia..|].
    exists v, 0, seed. split; [done|]. split_and!; [done| |done]. unfold is_u64. lia.
  - exists 0, 0, seed. split; [done|]. unfold is_u64 in *. lia.
  - assert (H48 : exists p i s, (if 48 <=? length data then wy_loop48 (length data) data 0 (length data) seed seed seed
        else Some (0, Z.of_nat (length data), seed)) = Some (p, i, s) /\
        0 <= p /\ p + i = length data /\ 0 <= i <= length data /\ is_u64 s /\ (16 < i \/ 16 <= p)).
    { destruct (48 <=? length data) eqn:E48; bprop.
      - destruct (wy_loop48_some (length data) 0 (length data) seed seed seed) as (p & i & s & -> & ?); [done || lia..|].
        exists p, i, s. split; [done|]. intuition lia.
      - exists 0, (Z.of_nat (length data)), seed. split; [done|]. intuition lia. }
    destruct H48 as (p & i & s & -> & Hp & Hpi & Hi & Hs' & Hor). cbn [mbind option_bind].
    destruct (wy_loop16_some (length data) p i s) as (p' & i' & s' & -> & Hp' & Hpi' & Hi' & Hs''); [done || lia..|].
    cbn [mbind option_bind]. rd8 (p' + i' - 16). rd8 (p' + i' - 8). by exists v, v0, s'.
Qed.
End bytes.

Lemma wymum_is A B a b : ray__wymum A B = (a, b) -> is_u64 a /\ is_u64 b.
Proof. intros [<- <-]%pair_equal_spec. split; apply u64_is. Qed.

Lemma ray_hash_bytes_some data : bytes_ok data -> exists v, ray_hash_bytes data = Some v /\ is_u64 v.
Proof.
  intros Hd. unfold ray_hash_bytes.
  destruct (wy_tail_some data Hd (Z.lxor 0 (ray__wymix (Z.lxor 0 wyp0) wyp1))) as (a & b & s & -> & _).
  { apply lxor_is; [unfold is_u64; lia|apply wymix_is]. }
  cbn [mbind option_bind]. destruct (ray__wymum _ _) as [a' b']. eexists. split; [done|]. apply wymix_is.
Qed.

(** The limb products, added with their carries, are the two halves. *)
Lemma wymum_limbs ha la hb lb :
  0 <= ha < 2 ^ 32 -> 0 <= la < 2 ^ 32 -> 0 <= hb < 2 ^ 32 -> 0 <= lb < 2 ^ 32 ->
  let rh := u64 (ha * hb) in let rm0 := u64 (ha * lb) in
  let rm1 := u64 (hb * la) in let rl := u64 (la * lb) in
  let t := u64 (rl + u64 (rm0 * 2 ^ 32)) in
  let c := if t <? rl then 1 else 0 in
  let lo := u64 (t + u64 (rm1 * 2 ^ 32)) in
  let c' := c + (if lo <? t then 1 else 0) in
  (lo, u64 (rh + rm0 / 2 ^ 32 + rm1 / 2 ^ 32 + c')) =
    (u64 ((ha * 2 ^ 32 + la) * (hb * 2 ^ 32 + lb)),
     u64 ((ha * 2 ^ 32 + la) * (hb * 2 ^ 32 + lb) / 2 ^ 64)).
Proof.
  intros Hha Hla Hhb Hlb. cbv zeta.
  assert (Hp : forall x y, 0 <= x < 2 ^ 32 -> 0 <= y < 2 ^ 32 -> 0 <= x * y <= (2 ^ 32 - 1) * (2 ^ 32 - 1)) by nia.
  pose proof (Hp ha hb Hha Hhb) as Hrh. pose proof (Hp ha lb Hha Hlb) as Hm0.
  pose proof (Hp hb la Hhb Hla) as Hm1. pose proof (Hp la lb Hla Hlb) as Hrl.
  replace ((ha * 2 ^ 32 + la) * (hb * 2 ^ 32 + lb))
    with (ha * hb * 2 ^ 64 + (ha * lb + hb * la) * 2 ^ 32 + la * lb) by lia.
  rewrite !(u64_small (ha * hb)), !(u64_small (ha * lb)), !(u64_small (hb * la)), !(u64_small (la * lb)) by lia.
  generalize dependent (ha * hb). generalize dependent (ha * lb). generalize dependent (hb * la).
  generalize dependent (la * lb). clear. intros rl Hrl m1 Hm1 m0 Hm0 rh Hrh.
  unfold u64, wrap. repeat bif; f_equal; lia.
Qed.

(** The 32-bit symbol hash, [(uint32_t)ray_hash_bytes(str, len)]. *)
Definition str_hash (str : list Z) : Z := u32 (default 0 (ray_hash_bytes str)).

Lemma str_hash_range str : 0 <= str_hash str < 2 ^ 32.
Proof. apply (wrap_range 32). lia. Qed.
#[export] Hint Resolve str_hash_range : pq.

(** ** Properties *)

(** [ray_hash_bytes] is total and memory-safe: on a buffer of any length
    the block loops terminate, every 8-, 4- and 1-byte read lies inside the
    buffer, and the result is a 64-bit value. *)
Theorem ray_hash_bytes_safe (data : list Z) :
  bytes_ok data -> exists v, ray_hash_bytes data = Some v /\ 0 <= v < 2 ^ 64.
Proof. apply ray_hash_bytes_some. Qed.

Lemma ray_hash_bytes_safe_witness :
  bytes_ok [97; 98; 99] /\ exists v, ray_hash_bytes [97; 98; 99] = Some v /\ 0 <= v < 2 ^ 64.
Proof.
  assert (H : bytes_ok [97; 98; 99]) by (repeat constructor; unfold byte_ok; lia).
  split; [exact H|exact (ray_hash_bytes_safe _ H)].
Defined.

(** The fixed-width hashes: the portable 32-bit-limb product equals the
    128-bit product on all 64-bit operands (so both builds hash alike), the
    two float zeros hash alike, any other double hashes as the integer with
    its bit pattern, and an integer hashes as the mixture of its two copies. *)
Theorem fixed_width_hashes :
  (forall A B, 0 <= A < 2 ^ 64 -> 0 <= B < 2 ^ 64 -> ray__wymum_portable A B = ray__wymum A B) /\
  ray_hash_f64 NEG_ZERO_BITS = ray_hash_f64 0 /\
  (forall v, INT64_MIN < v <= INT64_MAX -> ray_hash_f64 (u64 v) = ray_hash_i64 v) /\
  (forall v, ray_hash_i64 v = ray_hash_combine (u64 v) (u64 v)).
Proof.
  split_and!; [|done| |done].
  - intros A B HA HB. unfold ray__wymum_portable, ray__wymum.
    rewrite !Z.shiftr_div_pow2, !Z.shiftl_mul_pow2 by lia.
    pose proof (u32_range A) as HlA. pose proof (u32_range B) as HlB.
    assert (EA : A = A / 2 ^ 32 * 2 ^ 32 + u32 A) by (unfold u32, wrap; lia).
    assert (EB : B = B / 2 ^ 32 * 2 ^ 32 + u32 B) by (unfold u32, wrap; lia).
    pose proof (wymum_limbs (A / 2 ^ 32) (u32 A) (B / 2 ^ 32) (u32 B)
      ltac:(lia) ltac:(lia) ltac:(lia) ltac:(lia)) as H.
    cbv zeta in H. rewrite <- EA, <- EB in H. exact H.
  - intros v Hv. unfold ray_hash_f64, ray_hash_i64. bif; [|done].
    unfold u64, wrap, NEG_ZERO_BITS, INT64_MIN, INT64_MAX in *. lia.
Qed.
