(* ===== verification/Arena.v ===== *)
(** * Bump arena ([src/mem/arena.c])

    The arena that holds the symbol table's string atoms and segment arrays.
    An address is a pair of a chunk and a byte offset in its data; a chunk is
    named by its distance from the end of the chunk list, which prepending
    never changes.  [alloc n] says whether the system allocator grants [n]
    bytes; it never grants [2^63] or more. *)
From Stdlib Require Import ZArith Lia.
From S2P Require Import Prelude.
From Stdlib Require Import Zify ZifyNat.
#[local] Ltac Zify.zify_post_hook ::= Z.to_euclidean_division_equations.

Definition SIZE_MAX : Z := 18446744073709551615.
Definition ARENA_ALIGN : Z := 32.
Definition ARENA_ALIGN_UP (x : Z) : Z := Z.land (u64 (x + ARENA_ALIGN - 1)) (u64 (Z.lnot (ARENA_ALIGN - 1))).

Record ray_arena_chunk_t := Chunk { ch_cap : Z; ch_used : Z }.
Record ray_arena := Arena { chunks : list ray_arena_chunk_t; chunk_size : Z }.

(** [sizeof(ray_arena_chunk_t)]: a pointer and two sizes. *)
Definition chunk_hdr : Z := ARENA_ALIGN_UP 24.

Section operations.
Context (alloc : Z -> bool).

Definition arena_new_chunk (min_cap : Z) : option ray_arena_chunk_t :=
  if SIZE_MAX - chunk_hdr <? min_cap then None
  else if alloc (chunk_hdr + min_cap) then Some (Chunk min_cap 0) else None.

(** [sizeof(ray_arena_t)] is 16. *)
Definition ray_arena_new (size : Z) : option ray_arena :=
  let size := if size <? 256 then 256 else size in
  let size := ARENA_ALIGN_UP size in
  if alloc 16 then
    match arena_new_chunk size with
    | Some first => Some (Arena [first] size)
    | None => None
    end
  else None.

(** Take [block_size] bytes of the head chunk. *)
Definition bump (a : ray_arena) (block_size : Z) : option (nat * Z) * ray_arena :=
  match chunks a with
  | c :: rest =>
      (Some (length rest, ch_used c),
       Arena (Chunk (ch_cap c) (u64 (ch_used c + block_size)) :: rest) (chunk_size a))
  | [] => (None, a)
  end.

Definition ray_arena_alloc (a : ray_arena) (nbytes : Z) : option (nat * Z) * ray_arena :=
  if SIZE_MAX - 32 - (ARENA_ALIGN - 1) <? nbytes then (None, a)
  else
    let block_size := ARENA_ALIGN_UP (32 + nbytes) in
    match chunks a with
    | c :: _ =>
        if ch_cap c <? u64 (ch_used c + block_size) then
          let new_cap := chunk_size a in
          let new_cap := if new_cap <? block_size then ARENA_ALIGN_UP block_size else new_cap in
          match arena_new_chunk new_cap with
          | None => (None, a)
          | Some nc => bump (Arena (nc :: chunks a) (chunk_size a)) block_size
          end
        else bump a block_size
    | [] => (None, a)
    end.

(** The string atom and its characters: the address of the block, the offset
    of the atom's header and of the bytes.  A short string lives inside the
    header ([sdata], at its byte 25), a long one in front of it. *)
Record str_block := StrBlock { sb_chunk : nat; sb_off : Z; sb_atom : Z; sb_data : Z }.

Definition chars_block (len : Z) : Z := Z.land (u64 (32 + (len + 1) + 31)) (u64 (Z.lnot 31)).

Definition ray_arena_str (a : ray_arena) (len : Z) : option str_block * ray_arena :=
  if len <? 7 then
    match ray_arena_alloc a 0 with
    | (Some (i, o), a) => (Some (StrBlock i o o (o + 25)), a)
    | (None, a) => (None, a)
    end
  else
    match ray_arena_alloc a (chars_block len) with
    | (Some (i, o), a) => (Some (StrBlock i o (o + chars_block len) (o + 32)), a)
    | (None, a) => (None, a)
    end.

Definition ray_arena_reserve (a : ray_arena) (bytes : Z) : bool * ray_arena :=
  if bytes =? 0 then (true, a)
  else
    let enough := match chunks a with c :: _ => bytes <=? ch_cap c - ch_used c | [] => false end in
    if enough then (true, a)
    else
      let new_cap := chunk_size a in
      let new_cap := if new_cap <? bytes then ARENA_ALIGN_UP bytes else new_cap in
      match arena_new_chunk new_cap with
      | None => (false, a)
      | Some nc => (true, Arena (nc :: chunks a) (chunk_size a))
      end.
End operations.

Definition ray_arena_total_used (a : ray_arena) : Z :=
  foldl (fun total c => u64 (total + ch_used c)) 0 (chunks a).

(** Keep the head chunk, free the rest. *)
Definition ray_arena_reset (a : ray_arena) : ray_arena :=
  match chunks a with
  | keep :: _ => Arena [Chunk (ch_cap keep) 0] (chunk_size a)
  | [] => a
  end.

(** Upper bound on what a name of [len] bytes consumes ([table/sym.h]). *)
Definition ray_sym_bytes_upper (len : Z) : Z :=
  if len <? 7 then 32 else 32 + chars_block len.

(** ** Well-formedness

    [live] lists the blocks handed out: chunk, offset and size. *)
Definition block := (nat * Z * Z)%type.

Definition chunk_ok (c : ray_arena_chunk_t) : Prop :=
  0 <= ch_used c <= ch_cap c /\ ch_used c mod 32 = 0 /\ ch_cap c < 2 ^ 63.

Definition block_in (a : ray_arena) (b : block) : Prop :=
  let '(i, o, n) := b in
  exists c, reverse (chunks a) !! i = Some c /\ 0 <= o /\ o mod 32 = 0 /\ 0 < n /\ o + n <= ch_used c.

Definition disjoint_blocks (b1 b2 : block) : Prop :=
  let '(i1, o1, n1) := b1 in let '(i2, o2, n2) := b2 in
  i1 <> i2 \/ o1 + n1 <= o2 \/ o2 + n2 <= o1.

Record arena_wf (a : ray_arena) (live : list block) : Prop := {
  aw_chunks : chunks a <> [];
  aw_ok : Forall chunk_ok (chunks a);
  aw_size : 256 <= chunk_size a < 2 ^ 63;
  aw_size32 : chunk_size a mod 32 = 0;
  aw_live : Forall (block_in a) live;
  aw_disj : ForallOrdPairs disjoint_blocks live }.

(** Room left in the head chunk. *)
Definition avail (a : ray_arena) : Z :=
  match chunks a with c :: _ => ch_cap c - ch_used c | [] => 0 end.

(** ** Lemmas *)
Lemma align_up_le x : 0 <= x <= SIZE_MAX - 31 ->
  ARENA_ALIGN_UP x = (x + 31) / 32 * 32.
Proof.
  unfold SIZE_MAX. intros Hx. unfold ARENA_ALIGN_UP, ARENA_ALIGN.
  rewrite (u64_small (x + 32 - 1)) by lia. replace (x + 32 - 1) with (x + 31) by lia.
  change (u64 (Z.lnot (32 - 1))) with (Z.ldiff (2 ^ 64 - 1) (2 ^ 5 - 1)).
  apply Z.bits_inj'. intros i Hi.
  change 32 with (2 ^ 5). rewrite Z.land_spec, Z.ldiff_spec.
  change (2 ^ 64 - 1) with (Z.ones 64). change (2 ^ 5 - 1) with (Z.ones 5).
  rewrite !Z.testbit_ones_nonneg by lia. rewrite <- Z.shiftr_div_pow2, <- Z.shiftl_mul_pow2 by lia.
  rewrite Z.shiftl_spec by done. destruct (i <? 5) eqn:E5; bprop.
  - rewrite (Z.testbit_neg_r _ (i - 5)) by lia. by rewrite !andb_false_r.
  - rewrite Z.shiftr_spec by lia. replace (i - 5 + 5) with i by lia. simpl. rewrite andb_true_r.
    destruct (i <? 64) eqn:E6; bprop; [by rewrite andb_true_r|].
    rewrite andb_false_r. symmetry. apply (testbit_high 64); lia.
Qed.

Lemma chars_block_eq len : 0 <= len < 2 ^ 63 -> chars_block len = (len + 64) / 32 * 32.
Proof.
  intros Hl.
  transitivity (ARENA_ALIGN_UP (33 + len)).
  - unfold chars_block, ARENA_ALIGN_UP, ARENA_ALIGN. do 2 f_equal. lia.
  - rewrite align_up_le by (unfold SIZE_MAX; lia). f_equal. f_equal. lia.
Qed.

Lemma block_in_cons a nc b : block_in a b -> block_in (Arena (nc :: chunks a) (chunk_size a)) b.
Proof.
  destruct b as [[i o] n]. intros (c & Hc & ?). exists c. simpl. rewrite reverse_cons. split; [|done].
  by apply lookup_app_l_Some.
Qed.

Section wf.
Context (alloc : Z -> bool) (Halloc : forall n, alloc n = true -> n < 2 ^ 63).

Lemma new_chunk_ok cap c :
  0 <= cap -> arena_new_chunk alloc cap = Some c -> c = Chunk cap 0 /\ chunk_ok c.
Proof using Halloc.
  unfold arena_new_chunk. change chunk_hdr with 32. intros Hc. bif; [done|].
  destruct (alloc (32 + cap)) eqn:Ea; [|done]. intros [= <-]. apply Halloc in Ea.
  split; [done|]. split_and!; simpl; lia.
Qed.

Lemma wf_cons a live nc :
  arena_wf a live -> chunk_ok nc -> arena_wf (Arena (nc :: chunks a) (chunk_size a)) live.
Proof using Type.
  intros [Hc Hok Hs Hs32 Hl Hd] Hnc. split; simpl; [done| |done|done| |done].
  - by constructor.
  - eapply Forall_impl; [done|]. intros b. apply block_in_cons.
Qed.

(** Bumping the head chunk by a block that fits. *)
Lemma bump_wf a live n :
  arena_wf a live -> 0 < n -> n mod 32 = 0 -> n <= avail a ->
  exists i o a', bump a n = (Some (i, o), a') /\ arena_wf a' ((i, o, n) :: live) /\
    avail a' = avail a - n /\ chunk_size a' = chunk_size a.
Proof using Type.
  intros [Hc Hok Hs Hs32 Hl Hd] Hn Hn32 Hav. destruct a as [[|c rest] size]; [done|].
  unfold bump, avail in *. cbn [chunks chunk_size] in *.
  pose proof (Forall_inv Hok) as (Hu & Hu32 & Hcap). pose proof (Forall_inv_tail Hok) as Hrest.
  do 3 eexists. split; [done|]. rewrite u64_small by lia. simpl. split; [|lia].
  assert (Hhead : forall b, b ∈ live ->
     block_in (Arena (Chunk (ch_cap c) (ch_used c + n) :: rest) size) b /\
     disjoint_blocks (length rest, ch_used c, n) b).
  { intros [[i o] m] Hb. rewrite Forall_forall in Hl. destruct (Hl _ Hb) as (c' & Hc' & Ho & Ho32 & Hm & Hle).
    simpl in Hc'. rewrite reverse_cons in Hc'. simpl. rewrite reverse_cons.
    apply lookup_app_Some in Hc' as [Hc'|[Hlen Hc']].
    - split; [|left; apply lookup_lt_Some in Hc'; rewrite length_reverse in Hc'; lia].
      exists c'. split_and!; [by apply lookup_app_l_Some|done..].
    - apply list_lookup_singleton_Some in Hc' as [Hi Hcc]. rewrite length_reverse in Hlen, Hi. subst c'.
      split; [|right; right; lia]. exists (Chunk (ch_cap c) (ch_used c + n)). split_and!; [|done..|simpl; lia].
      rewrite lookup_app_r by (rewrite length_reverse; lia). rewrite length_reverse, Hi. done. }
  split; simpl; [done| |done|done| |].
  - constructor; [|done]. split_and!; simpl; lia.
  - constructor.
    + eexists. cbn [chunks]. rewrite reverse_cons, lookup_app_r by (rewrite length_reverse; lia).
      rewrite length_reverse, Nat.sub_diag. split; [done|]. simpl. lia.
    + apply Forall_forall. intros b Hb. by apply Hhead.
  - constructor; [|done]. apply Forall_forall. intros b Hb. by apply Hhead.
Qed.

(** A request that fits the head chunk is served from it, whatever the
    system allocator says. *)
Lemma arena_alloc_fits a live nbytes :
  arena_wf a live -> 0 <= nbytes < 2 ^ 63 -> ARENA_ALIGN_UP (32 + nbytes) <= avail a ->
  exists i o a', ray_arena_alloc alloc a nbytes = (Some (i, o), a') /\
    arena_wf a' ((i, o, ARENA_ALIGN_UP (32 + nbytes)) :: live) /\
    avail a' = avail a - ARENA_ALIGN_UP (32 + nbytes) /\ chunk_size a' = chunk_size a.
Proof using Type.
  intros Hw Hn Hav. unfold ray_arena_alloc.
  pose proof (align_up_le (32 + nbytes) ltac:(unfold SIZE_MAX; lia)) as Hal.
  bif; [unfold SIZE_MAX, ARENA_ALIGN in *; lia|].
  destruct (bump_wf a live (ARENA_ALIGN_UP (32 + nbytes)) Hw) as (i & o & a' & Hb & ?); [lia..|].
  exists i, o, a'. split; [|done]. pose proof (aw_ok _ _ Hw) as Hok. unfold avail in Hav.
  destruct (chunks a) as [|c rest] eqn:Ec; [by apply aw_chunks in Hw|].
  apply Forall_inv in Hok as (? & ? & ?). rewrite u64_small by lia. bif; [lia|done].
Qed.

Lemma arena_alloc_gen a live nbytes :
  arena_wf a live -> 0 <= nbytes < 2 ^ 62 ->
  (exists i o a', ray_arena_alloc alloc a nbytes = (Some (i, o), a') /\
     arena_wf a' ((i, o, ARENA_ALIGN_UP (32 + nbytes)) :: live)) \/
  (ray_arena_alloc alloc a nbytes = (None, a) /\
   alloc (32 + Z.max (chunk_size a) (ARENA_ALIGN_UP (32 + nbytes))) = false).
Proof using Halloc.
  intros Hw Hn. pose proof (align_up_le (32 + nbytes) ltac:(unfold SIZE_MAX; lia)) as Hal.
  destruct (decide (ARENA_ALIGN_UP (32 + nbytes) <= avail a)) as [Hf|Hf].
  { left. destruct (arena_alloc_fits a live nbytes) as (i & o & a' & ? & ? & ?); [done|lia|done|]. by exists i, o, a'. }
  unfold ray_arena_alloc. bif; [unfold SIZE_MAX, ARENA_ALIGN in *; lia|]. clear E. revert Hal Hf.
  generalize (ARENA_ALIGN_UP (32 + nbytes)). intros n Hal Hf.
  pose proof (aw_ok _ _ Hw) as Hok. unfold avail in Hf. pose proof (aw_size _ _ Hw). pose proof (aw_size32 _ _ Hw).
  destruct (chunks a) as [|c rest] eqn:Ec; [by apply aw_chunks in Hw|].
  apply Forall_inv in Hok as (? & ? & ?). rewrite u64_small by lia. bif; [|lia].
  assert (Hcap : (if chunk_size a <? n then ARENA_ALIGN_UP n else chunk_size a) = Z.max (chunk_size a) n).
  { bif; [rewrite align_up_le by (unfold SIZE_MAX; lia)|]; lia. }
  rewrite Hcap, <- Ec. destruct (arena_new_chunk alloc _) as [nc|] eqn:En.
  - left. apply new_chunk_ok in En as [-> Hnc]; [|lia].
    destruct (bump_wf (Arena (Chunk (Z.max (chunk_size a) n) 0 :: chunks a) (chunk_size a)) live n)
      as (i & o & a' & ? & ? & _); [by apply wf_cons|lia..|unfold avail; simpl; lia|]. by exists i, o, a'.
  - right. split; [done|]. unfold arena_new_chunk in En. change chunk_hdr with 32 in En.
    revert En. bif; [unfold SIZE_MAX in *; lia|]. by destruct (alloc _).
Qed.

Lemma arena_reserve_gen a live bytes :
  arena_wf a live -> 0 <= bytes < 2 ^ 63 ->
  (exists a', ray_arena_reserve alloc a bytes = (true, a') /\ arena_wf a' live /\ bytes <= avail a' /\
     chunk_size a' = chunk_size a) \/
  ray_arena_reserve alloc a bytes = (false, a).
Proof using Halloc.
  intros Hw Hn. unfold ray_arena_reserve. pose proof (aw_ok _ _ Hw) as Hok. pose proof (aw_size _ _ Hw).
  destruct (chunks a) as [|c rest] eqn:Ec; [by apply aw_chunks in Hw|].
  pose proof (Forall_inv Hok) as (? & ? & ?). bif.
  { left. exists a. split_and!; [done..| |done]. unfold avail. rewrite Ec. lia. }
  destruct (bytes <=? ch_cap c - ch_used c) eqn:Ef; bprop.
  { left. exists a. split_and!; [done..| |done]. unfold avail. by rewrite Ec. }
  assert (Hcap : bytes <= (if chunk_size a <? bytes then ARENA_ALIGN_UP bytes else chunk_size a)).
  { bif; [rewrite align_up_le by (unfold SIZE_MAX; lia)|]; lia. }
  destruct (arena_new_chunk alloc _) as [nc|] eqn:En; [left|by right].
  apply new_chunk_ok in En as [-> Hnc]; [|lia]. rewrite <- Ec. eexists. split; [done|].
  split; [by apply wf_cons|]. unfold avail. simpl. split; [lia|done].
Qed.

(** A string costs exactly [ray_sym_bytes_upper] of its length; its atom and
    its bytes with the terminator lie inside its block. *)
Lemma arena_str_fits a live len :
  arena_wf a live -> 0 <= len < 2 ^ 62 -> ray_sym_bytes_upper len <= avail a ->
  exists s a', ray_arena_str alloc a len = (Some s, a') /\
    arena_wf a' ((sb_chunk s, sb_off s, ray_sym_bytes_upper len) :: live) /\
    avail a' = avail a - ray_sym_bytes_upper len /\ chunk_size a' = chunk_size a.
Proof using Type.
  intros Hw Hl Hav. unfold ray_arena_str, ray_sym_bytes_upper in *. bif.
  - destruct (arena_alloc_fits a live 0) as (i & o & a' & -> & ?); [done|lia|done|].
    by exists (StrBlock i o o (o + 25)), a'.
  - pose proof (chars_block_eq len ltac:(lia)) as Hcb.
    assert (Hal : ARENA_ALIGN_UP (32 + chars_block len) = 32 + chars_block len)
      by (rewrite align_up_le by (unfold SIZE_MAX; lia); lia).
    destruct (arena_alloc_fits a live (chars_block len)) as (i & o & a' & -> & ?); [done|lia|lia|].
    rewrite Hal in *. by exists (StrBlock i o (o + chars_block len) (o + 32)), a'.
Qed.
End wf.

(** Where the parts of a string lie in its block. *)
Definition str_inside (s : str_block) (len : Z) : Prop :=
  sb_off s <= sb_data s /\ sb_data s + len + 1 <= sb_off s + ray_sym_bytes_upper len /\
  sb_off s <= sb_atom s /\ sb_atom s + 32 <= sb_off s + ray_sym_bytes_upper len /\
  (7 <= len -> sb_off s + 32 <= sb_data s /\ sb_data s + len + 1 <= sb_atom s).

Lemma arena_str_inside alloc a len s a' :
  0 <= len < 2 ^ 62 -> ray_arena_str alloc a len = (Some s, a') -> str_inside s len.
Proof.
  intros Hl. pose proof (chars_block_eq len ltac:(lia)) as Hcb. unfold ray_arena_str, str_inside, ray_sym_bytes_upper.
  bif; destruct (ray_arena_alloc _ _ _) as [[[i o]|] a1]; try done; intros [= <- <-]; simpl; lia.
Qed.

(** A request of a client: raw bytes or a string. *)
Inductive arena_req := ReqAlloc (nbytes : Z) | ReqStr (len : Z).

Definition req_ok (r : arena_req) : Prop := match r with ReqAlloc n | ReqStr n => 0 <= n < 2 ^ 62 end.
Definition charge (r : arena_req) : Z :=
  match r with ReqAlloc n => ARENA_ALIGN_UP (32 + n) | ReqStr len => ray_sym_bytes_upper len end.

Definition serve1 (alloc : Z -> bool) (a : ray_arena) (r : arena_req) : option ray_arena :=
  match r with
  | ReqAlloc n => let '(r, a) := ray_arena_alloc alloc a n in _ ← r; Some a
  | ReqStr len => let '(r, a) := ray_arena_str alloc a len in _ ← r; Some a
  end.

Fixpoint serve (alloc : Z -> bool) (a : ray_arena) (rs : list arena_req) : option ray_arena :=
  match rs with
  | [] => Some a
  | r :: rs => a ← serve1 alloc a r; serve alloc a rs
  end.

Lemma serve1_fits alloc a live r :
  arena_wf a live -> req_ok r -> charge r <= avail a ->
  exists a' live', serve1 alloc a r = Some a' /\ arena_wf a' (live' ++ live) /\ avail a' = avail a - charge r.
Proof.
  intros Hw Hr Hc. destruct r as [n|len]; simpl in *.
  - destruct (arena_alloc_fits alloc a live n) as (i & o & a' & -> & Hw' & ? & _); [done|lia|done|].
    exists a', [(i, o, ARENA_ALIGN_UP (32 + n))]. done.
  - destruct (arena_str_fits alloc a live len) as (s & a' & -> & Hw' & ? & _); [done|lia|done|].
    exists a', [(sb_chunk s, sb_off s, ray_sym_bytes_upper len)]. done.
Qed.

Definition total_charge (rs : list arena_req) : Z := foldr (fun r t => charge r + t) 0 rs.

Lemma charge_nonneg r : req_ok r -> 0 <= charge r.
Proof.
  destruct r as [n|len]; simpl; intros Hr.
  - rewrite align_up_le by (unfold SIZE_MAX; lia). lia.
  - unfold ray_sym_bytes_upper. pose proof (chars_block_eq len ltac:(lia)). bif; lia.
Qed.

Lemma total_charge_nonneg rs : Forall req_ok rs -> 0 <= total_charge rs.
Proof. induction 1 as [|r rs Hr _ IH]; simpl; [done|]. pose proof (charge_nonneg r Hr). lia. Qed.

Lemma serve_fits alloc a live rs :
  arena_wf a live -> Forall req_ok rs -> total_charge rs <= avail a ->
  exists a' live', serve alloc a rs = Some a' /\ arena_wf a' (live' ++ live).
Proof.
  intros Hw Hr. revert a live Hw. induction Hr as [|r rs Hr Hrs IH]; intros a live Hw Hc; simpl in *.
  - by exists a, [].
  - pose proof (total_charge_nonneg rs Hrs).
    destruct (serve1_fits alloc a live r) as (a1 & l1 & -> & Hw1 & Hav); [done|done|lia|]. simpl.
    destruct (IH a1 (l1 ++ live)) as (a' & l' & -> & Hw'); [done|lia|].
    exists a', (l' ++ l1). by rewrite <- app_assoc.
Qed.

(** ** Properties *)

(** C25. Allocation in the arena is safe: from a well-formed arena a request
    is either served by a fresh 32-byte-aligned block that lies inside one
    chunk and overlaps no live block, or refused with the arena unchanged,
    and then only because the system allocator refused the new chunk; a
    string's header, bytes and terminator lie inside its block. *)
Theorem ray_arena_alloc_safe (alloc : Z -> bool) (a : ray_arena) (live : list block) (n : Z)
  (Halloc : forall n, alloc n = true -> n < 2 ^ 63) (Hw : arena_wf a live) (Hn : 0 <= n < 2 ^ 61) :
  ((exists i o a', ray_arena_alloc alloc a n = (Some (i, o), a') /\
     arena_wf a' ((i, o, ARENA_ALIGN_UP (32 + n)) :: live)) \/
   (ray_arena_alloc alloc a n = (None, a) /\
    alloc (32 + Z.max (chunk_size a) (ARENA_ALIGN_UP (32 + n))) = false)) /\
  (forall s a', ray_arena_str alloc a n = (Some s, a') ->
     str_inside s n /\ arena_wf a' ((sb_chunk s, sb_off s, ray_sym_bytes_upper n) :: live)).
Proof.
  split; [apply arena_alloc_gen; [done..|lia]|]. intros s a' Hs.
  split; [eapply arena_str_inside; [|done]; lia|].
  pose proof (chars_block_eq n ltac:(lia)) as Hcb. revert Hs. unfold ray_arena_str, ray_sym_bytes_upper. bif.
  - destruct (arena_alloc_gen alloc Halloc a live 0) as [(i & o & a1 & -> & Hw1)|[-> _]]; [done|lia| |done].
    by intros [= <- <-].
  - destruct (arena_alloc_gen alloc Halloc a live (chars_block n)) as [(i & o & a1 & -> & Hw1)|[-> _]]; [done|lia| |done].
    intros [= <- <-]. simpl. rewrite align_up_le in Hw1 by (unfold SIZE_MAX; lia).
    replace ((32 + chars_block n + 31) / 32 * 32) with (32 + chars_block n) in Hw1 by lia. done.
Qed.

(** A reservation is honoured: after [ray_arena_reserve] has accepted
    [bytes], any sequence of block and string requests whose charges sum to
    at most [bytes] is served without one further call to the system
    allocator; a refused reservation leaves the arena as it was. *)
Theorem ray_arena_reserve_honoured (alloc : Z -> bool) (a : ray_arena) (live : list block) (bytes : Z) (rs : list arena_req)
  (Halloc : forall n, alloc n = true -> n < 2 ^ 63) (Hw : arena_wf a live)
  (Hb : 0 <= bytes < 2 ^ 63) (Hrs : Forall req_ok rs) (Hc : total_charge rs <= bytes) :
  match ray_arena_reserve alloc a bytes with
  | (true, a') => exists a'' live', serve (fun _ => false) a' rs = Some a'' /\ arena_wf a'' (live' ++ live)
  | (false, a') => a' = a
  end.
Proof.
  destruct (arena_reserve_gen alloc Halloc a live bytes) as [(a' & -> & Hw' & Hav & _)| ->]; [done..| |done].
  apply serve_fits; [done..|lia].
Qed.

(** A machine with a terabyte. *)
Definition alloc_1T (n : Z) : bool := n <? 2 ^ 40.

Definition arena_256 : ray_arena := Arena [Chunk 256 224] 256.

Lemma arena_256_wf : arena_wf arena_256 [].
Proof.
  split; [done| |done|done|done|constructor]. constructor; [|done]. split_and!; done.
Qed.

Lemma ray_arena_alloc_safe_witness :
  ((exists i o a', ray_arena_alloc alloc_1T arena_256 9 = (Some (i, o), a') /\
     arena_wf a' [(i, o, ARENA_ALIGN_UP (32 + 9))]) \/
   (ray_arena_alloc alloc_1T arena_256 9 = (None, arena_256) /\
    alloc_1T (32 + Z.max (chunk_size arena_256) (ARENA_ALIGN_UP (32 + 9))) = false)) /\
  (forall s a', ray_arena_str alloc_1T arena_256 9 = (Some s, a') ->
     str_inside s 9 /\ arena_wf a' [(sb_chunk s, sb_off s, ray_sym_bytes_upper 9)]).
Proof.
  apply (ray_arena_alloc_safe alloc_1T arena_256 [] 9); [|exact arena_256_wf|lia].
  unfold alloc_1T. intros n Hn%Z.ltb_lt. lia.
Defined.

Lemma ray_arena_reserve_honoured_witness :
  match ray_arena_reserve alloc_1T arena_256 160 with
  | (true, a') => exists a'' live', serve (fun _ => false) a' [ReqStr 3; ReqAlloc 16; ReqStr 6; ReqAlloc 0] = Some a'' /\
      arena_wf a'' (live' ++ [])
  | (false, a') => a' = arena_256
  end.
Proof.
  apply (ray_arena_reserve_honoured alloc_1T arena_256 [] 160 [ReqStr 3; ReqAlloc 16; ReqStr 6; ReqAlloc 0]).
  - unfold alloc_1T. intros n Hn%Z.ltb_lt. lia.
  - exact arena_256_wf.
  - lia.
  - repeat constructor; simpl; lia.
  - vm_compute. discriminate.
Defined.

(** The capacity test [used + block_size > cap] is computed in [size_t]: for
    a request within one chunk of [2^64] bytes it wraps, the block is handed
    out and the bump pointer moves back over live blocks. *)
Lemma arena_alloc_wraps :
  let '(r, a') := ray_arena_alloc alloc_1T arena_256 (SIZE_MAX - 127) in
  r = Some (0%nat, 224) /\ chunks a' = [Chunk 256 128].
Proof. done. Qed.
