(* ===== verification/Sym.v ===== *)
(** * Symbol intern table ([src/table/sym.c], [sym.h])

    The global table as a record: the open-addressing buckets, the strings by
    id, the dotted-name sidecars and the arena of the string atoms.  The two
    bitmaps are one number each, bit [id] being bit [id & 63] of word
    [id >> 6].  The spin lock serialises the operations, so each one is a
    function from the table to its result and the next table; [alloc n] says
    whether the system grants [n] bytes.  The probe loops of the source have
    no bound: here they carry the number of buckets as fuel and [None] is
    running out of it. *)
From Stdlib Require Import ZArith Lia Zify ZifyNat.
From Stdlib Require Import SpecFloat.
From S2P Require Import Prelude Hash Arena.
#[local] Ltac Zify.zify_post_hook ::= Z.to_euclidean_division_equations.

Definition SYM_INIT_CAP : Z := 256.
Definition chDot : Z := 46.

Record sym_table_t := SymTab {
  buckets : list Z;
  strings : list (list Z);
  str_cap : Z;
  dotted : Z;
  scanned : Z;
  segments : list (list Z);
  sym_arena : ray_arena }.

Definition bucket_cap (t : sym_table_t) : Z := length (buckets t).
Definition str_count (t : sym_table_t) : Z := length (strings t).

Definition set_buckets (t : sym_table_t) (b : list Z) : sym_table_t :=
  SymTab b (strings t) (str_cap t) (dotted t) (scanned t) (segments t) (sym_arena t).
Definition set_arena (t : sym_table_t) (a : ray_arena) : sym_table_t :=
  SymTab (buckets t) (strings t) (str_cap t) (dotted t) (scanned t) (segments t) a.
Definition set_scanned (t : sym_table_t) (id : Z) : sym_table_t :=
  SymTab (buckets t) (strings t) (str_cap t) (dotted t) (Z.setbit (scanned t) id) (segments t) (sym_arena t).

(** ** Hash table *)

(** [(hash32 << 32) | (id + 1)]; an empty bucket is 0. *)
Definition entry (hash id : Z) : Z := Z.lor (u64 (Z.shiftl hash 32)) (u32 (id + 1)).
Definition e_hash (e : Z) : Z := u32 (Z.shiftr e 32).
Definition e_id (e : Z) : Z := u32 (Z.land e 0xFFFFFFFF - 1).

Definition next_slot (b : list Z) (slot : Z) : Z := Z.land (slot + 1) (length b - 1).

Fixpoint ht_insert_loop (fuel : nat) (b : list Z) (e slot : Z) : option (list Z) :=
  match fuel with
  | O => None
  | S fuel =>
      if b.[Z.to_nat slot] =? 0 then Some (<[Z.to_nat slot := e]> b)
      else ht_insert_loop fuel b e (next_slot b slot)
  end.

Definition ht_insert (b : list Z) (hash id : Z) : option (list Z) :=
  ht_insert_loop (length b) b (entry hash id) (Z.land hash (length b - 1)).

(** Re-insert the used buckets [es] into [nb]. *)
Fixpoint ht_rehash (es nb : list Z) : option (list Z) :=
  match es with
  | [] => Some nb
  | e :: es =>
      if e =? 0 then ht_rehash es nb
      else nb ← ht_insert nb (e_hash e) (e_id e); ht_rehash es nb
  end.

(** [sym_probe]: the id of the string, or -1. *)
Fixpoint sym_probe_loop (fuel : nat) (b : list Z) (strs : list (list Z)) (hash : Z) (str : list Z)
  (slot : Z) : option Z :=
  match fuel with
  | O => None
  | S fuel =>
      let e := b.[Z.to_nat slot] in
      if e =? 0 then Some (-1)
      else if (e_hash e =? hash) && bool_decide (strs !! Z.to_nat (e_id e) = Some str)
      then Some (e_id e)
      else sym_probe_loop fuel b strs hash str (next_slot b slot)
  end.

Definition sym_probe (t : sym_table_t) (hash : Z) (str : list Z) : option Z :=
  sym_probe_loop (length (buckets t)) (buckets t) (strings t) hash str (Z.land hash (bucket_cap t - 1)).

(** ** Shape of dotted names *)

(** [memchr]: the offset of the first [c]. *)
Fixpoint memchr (s : list Z) (c : Z) : option nat :=
  match s with
  | [] => None
  | x :: s => if x =? c then Some 0%nat else S <$> memchr s c
  end.

Definition count_dots (s : list Z) : nat := length (filter (fun c => c = chDot) s).

Definition leading_dot (str : list Z) : bool := str.[0] =? chDot.

(** The number of segments, for a name that passes the checks on its dots. *)
Definition dotted_nsegs (str : list Z) : option nat :=
  match memchr str chDot with
  | None => None
  | Some _ =>
      if str.[length str - 1] =? chDot then None
      else if leading_dot str && bool_decide (memchr (drop 1 str) chDot = None) then None
      else
        let sep_dots := count_dots (drop (if leading_dot str then 1 else 0) str) in
        if (255 <? sep_dots + 1)%nat then None else Some (sep_dots + 1)%nat
  end.

(** The dot that ends the segment at the start of [p]; segment 0 of a name
    with a leading dot skips it. *)
Definition seg_dot (p : list Z) (lead : bool) : option nat :=
  let skip := if lead then 1%nat else 0%nat in
  if (skip <? length p)%nat then Nat.add skip <$> memchr (drop skip p) chDot else None.

Record seg_desc := SegDesc { d_str : list Z; d_hash : Z; d_id : Z }.

(** The loop that splits the name and probes its segments; [false] is an
    empty segment, where it breaks. *)
Fixpoint seg_loop (t : sym_table_t) (nsegs : nat) (p : list Z) (lead : bool) : option (list seg_desc * bool) :=
  match nsegs with
  | O => Some ([], true)
  | S nsegs =>
      if (length p =? 0)%nat then Some ([], true)
      else
        let dot := seg_dot p lead in
        let seg_len := match dot with Some k => k | None => length p end in
        if (seg_len =? 0)%nat then Some ([], false)
        else
          let seg := take seg_len p in
          let h := str_hash seg in
          id ← sym_probe t h seg;
          match dot with
          | None => Some ([SegDesc seg h id], true)
          | Some _ =>
              '(ds, valid) ← seg_loop t nsegs (drop (S seg_len) p) false;
              Some (SegDesc seg h id :: ds, valid)
          end
  end.

Definition is_new (d : seg_desc) : bool := d_id d <? 0.
Definition new_segs (ds : list seg_desc) : list seg_desc := filter (fun d => is_new d = true) ds.
Definition new_seg_bytes (ds : list seg_desc) : Z :=
  foldr (fun d n => ray_sym_bytes_upper (length (d_str d)) + n) 0 (new_segs ds).

(** Bytes of the segment array, [(32 + nsegs * 8 + 31) & ~31]. *)
Definition segs_bytes (nsegs : nat) : Z := Z.land (u64 (32 + 8 * nsegs + 31)) (u64 (Z.lnot 31)).

(** ** Operations *)
Section operations.
Context (alloc : Z -> bool).

Definition ht_grow_to (t : sym_table_t) (new_cap : Z) : option (bool * sym_table_t) :=
  if negb (alloc (8 * new_cap)) then Some (false, t)
  else
    nb ← ht_rehash (buckets t) (replicate (Z.to_nat new_cap) 0);
    Some (true, set_buckets t nb).

Definition ht_grow (t : sym_table_t) : option (bool * sym_table_t) :=
  if UINT32_MAX / 2 + 1 <=? bucket_cap t then Some (false, t) else ht_grow_to t (bucket_cap t * 2).

(** Each reallocation zero-fills the new part; the capacity changes last. *)
Definition sym_grow_str_cap (t : sym_table_t) (new_cap : Z) : bool * sym_table_t :=
  let old_cap := str_cap t in
  if new_cap <=? old_cap then (true, t)
  else
    let old_bm_words := (old_cap + 63) / 64 in
    let new_bm_words := (new_cap + 63) / 64 in
    if alloc (8 * new_cap) &&
       ((new_bm_words <=? old_bm_words) || (alloc (8 * new_bm_words) && alloc (8 * new_bm_words))) &&
       alloc (16 * new_cap)
    then (true, SymTab (buckets t) (strings t) new_cap (dotted t) (scanned t)
                  (segments t ++ replicate (Z.to_nat (new_cap - old_cap)) []) (sym_arena t))
    else (false, t).

Definition sym_commit_new (t : sym_table_t) (hash : Z) (str : list Z) : option (Z * sym_table_t) :=
  '(room, t) ← (if bucket_cap t * 70 <=? str_count t * 100 then
                  '(grown, t) ← ht_grow t;
                  Some (grown || (str_count t * 100 <? bucket_cap t * 95), t)
                else Some (true, t));
  if negb room then Some (-1, t)
  else
    let new_id := str_count t in
    let '(room, t) :=
      if str_cap t <=? new_id then
        if UINT32_MAX / 2 <=? str_cap t then (false, t) else sym_grow_str_cap t (str_cap t * 2)
      else (true, t) in
    if negb room then Some (-1, t)
    else
      match ray_arena_str alloc (sym_arena t) (length str) with
      | (None, a) => Some (-1, set_arena t a)
      | (Some _, a) =>
          b ← ht_insert (buckets t) hash new_id;
          Some (new_id, SymTab b (strings t ++ [str]) (str_cap t) (dotted t) (scanned t) (segments t) a)
      end.

(** [while (new_count * 100 >= target * 70) target *= 2]; [Some None] is the
    refusal at [2^31]. *)
Fixpoint ht_target (fuel : nat) (new_count target : Z) : option (option Z) :=
  match fuel with
  | O => None
  | S fuel =>
      if target * 70 <=? new_count * 100 then
        if UINT32_MAX / 2 + 1 <=? target then Some None else ht_target fuel new_count (target * 2)
      else Some (Some target)
  end.

Fixpoint str_target (fuel : nat) (new_count target : Z) : option (option Z) :=
  match fuel with
  | O => None
  | S fuel =>
      if target <? new_count then
        if UINT32_MAX / 2 <=? target then Some None else str_target fuel new_count (target * 2)
      else Some (Some target)
  end.

Definition sym_reserve_capacity (t : sym_table_t) (new_sym_count : nat) (arena_bytes : Z) : option (bool * sym_table_t) :=
  let new_count := str_count t + new_sym_count in
  target ← ht_target 33 new_count (bucket_cap t);
  match target with
  | None => Some (false, t)
  | Some target =>
      '(ok, t) ← (if bucket_cap t <? target then ht_grow_to t target else Some (true, t));
      if negb ok then Some (false, t)
      else
        starget ← (if str_cap t <? new_count then str_target 33 new_count (str_cap t) else Some (Some (str_cap t)));
        match starget with
        | None => Some (false, t)
        | Some starget =>
            let '(ok, t) := if str_cap t <? new_count then sym_grow_str_cap t starget else (true, t) in
            if negb ok then Some (false, t)
            else
              let '(ok, a) := if arena_bytes =? 0 then (true, sym_arena t)
                              else ray_arena_reserve alloc (sym_arena t) arena_bytes in
              Some (ok, set_arena t a)
        end
  end.

(** Create the segments that are not interned yet; the ids of all of them. *)
Fixpoint commit_segs (t : sym_table_t) (ds : list seg_desc) : option (option (list Z) * sym_table_t) :=
  match ds with
  | [] => Some (Some [], t)
  | d :: ds =>
      '(sid, t) ← (if is_new d then
                     '(sid, t) ← sym_commit_new t (d_hash d) (d_str d);
                     Some (sid, if sid <? 0 then t else set_scanned t sid)
                   else Some (d_id d, t));
      if sid <? 0 then Some (None, t)
      else
        '(ids, t) ← commit_segs t ds;
        Some (match ids with Some ids => Some (sid :: ids) | None => None end, t)
  end.

(** The segment array in the arena, and the dotted and scanned bits. *)
Definition store_segs (t : sym_table_t) (id : Z) (nsegs : nat) (ids : list Z) : bool * sym_table_t :=
  match ray_arena_alloc alloc (sym_arena t) (8 * nsegs) with
  | (None, a) => (false, set_arena t a)
  | (Some _, a) =>
      (true, SymTab (buckets t) (strings t) (str_cap t) (Z.setbit (dotted t) id) (Z.setbit (scanned t) id)
               (<[Z.to_nat id := ids]> (segments t)) a)
  end.

Definition sym_cache_segments (t : sym_table_t) (new_id : Z) (str : list Z) : option (bool * sym_table_t) :=
  if Z.testbit (scanned t) new_id then Some (true, t)
  else
    match dotted_nsegs str with
    | None => Some (true, set_scanned t new_id)
    | Some nsegs =>
        '(ds, valid) ← seg_loop t nsegs str (leading_dot str);
        if negb valid then Some (true, set_scanned t new_id)
        else
          '(ok, t) ← sym_reserve_capacity t (length (new_segs ds)) (new_seg_bytes ds + segs_bytes nsegs);
          if negb ok then Some (false, t)
          else
            '(ids, t) ← commit_segs t ds;
            match ids with
            | None => Some (false, t)
            | Some ids => Some (store_segs t new_id nsegs ids)
            end
    end.

(** Phase A.2: the number of segments, the probed segments and whether the
    name is dotted. *)
Definition sym_inspect (t : sym_table_t) (str : list Z) : option (nat * list seg_desc * bool) :=
  match dotted_nsegs str with
  | None => Some (0%nat, [], false)
  | Some nsegs => '(ds, valid) ← seg_loop t nsegs str (leading_dot str); Some (nsegs, ds, valid)
  end.

Definition sym_intern_nolock (t : sym_table_t) (hash : Z) (str : list Z) : option (Z * sym_table_t) :=
  existing ← sym_probe t hash str;
  if 0 <=? existing then
    '(_, t) ← sym_cache_segments t existing str;
    Some (existing, t)
  else
    '(nsegs, ds, is_dotted) ← sym_inspect t str;
    let arena_bytes := ray_sym_bytes_upper (length str) +
      (if is_dotted : bool then new_seg_bytes ds + segs_bytes nsegs else 0) in
    '(ok, t) ← sym_reserve_capacity t (1 + length (new_segs ds)) arena_bytes;
    if negb ok then Some (-1, t)
    else
      '(ids, t) ← (if is_dotted : bool then commit_segs t ds else Some (Some [], t));
      match ids with
      | None => Some (-1, t)
      | Some ids =>
          '(main_id, t) ← sym_commit_new t hash str;
          if main_id <? 0 then Some (-1, t)
          else if is_dotted : bool then
            let '(_, t) := store_segs t main_id nsegs ids in Some (main_id, t)
          else Some (main_id, set_scanned t main_id)
      end.

Definition ray_sym_intern (t : sym_table_t) (str : list Z) : option (Z * sym_table_t) :=
  sym_intern_nolock t (str_hash str) str.

(** [--x; x |= x >> 1; ...; x |= x >> 16; ++x] on 32 bits. *)
Definition smear (k x : Z) : Z := Z.lor x (Z.shiftr x k).

Definition round_up_pow2 (x : Z) : Z :=
  u32 (smear 16 (smear 8 (smear 4 (smear 2 (smear 1 (u32 (x - 1)))))) + 1).

(** [(double)needed / 0.7 + 1.0] in binary64. *)
Definition raw_buckets (needed : Z) : spec_float :=
  SFadd 53 1024
    (SFdiv 53 1024 (binary_normalize 53 1024 needed 0 false) (S754_finite false 6305039478318694 (-53)))
    (S754_finite false 4503599627370496 (-52)).

(** Truncation towards zero of a non-negative double. *)
Definition sf_trunc (x : spec_float) : Z :=
  match x with
  | S754_finite false m e => Z.shiftl (Z.pos m) e
  | _ => 0
  end.

Fixpoint ensure_str_cap (fuel : nat) (t : sym_table_t) (needed : Z) : option (bool * sym_table_t) :=
  match fuel with
  | O => None
  | S fuel =>
      if str_cap t <? needed then
        if UINT32_MAX / 2 <=? str_cap t then Some (false, t)
        else
          let new_str_cap := str_cap t * 2 in
          let new_str_cap := if new_str_cap <? needed then round_up_pow2 needed else new_str_cap in
          if new_str_cap =? 0 then Some (false, t)
          else
            let '(ok, t) := sym_grow_str_cap t new_str_cap in
            if negb ok then Some (false, t) else ensure_str_cap fuel t needed
      else Some (true, t)
  end.

Definition ray_sym_ensure_cap (t : sym_table_t) (needed : Z) : option (bool * sym_table_t) :=
  '(ok, t) ← ensure_str_cap 2 t needed;
  if negb ok then Some (false, t)
  else
    let raw := raw_buckets needed in
    if SFltb (S754_finite false 9007199252643840 (-21)) raw then Some (false, t)
    else
      let needed_buckets := round_up_pow2 (u32 (sf_trunc raw)) in
      if bucket_cap t <? needed_buckets then ht_grow_to t needed_buckets else Some (true, t).

(** The fresh table; id 0 is the empty string.  [None] is [RAY_ERR_OOM]. *)
Definition ray_sym_init : option sym_table_t :=
  if alloc (8 * SYM_INIT_CAP) then
    arena ← ray_arena_new alloc (1024 * 1024);
    let bm_words := (SYM_INIT_CAP + 63) / 64 in
    if alloc (8 * bm_words) && alloc (8 * bm_words) && alloc (16 * SYM_INIT_CAP) then
      '(empty_id, t) ← sym_intern_nolock
        (SymTab (replicate (Z.to_nat SYM_INIT_CAP) 0) [] SYM_INIT_CAP 0 0 (replicate (Z.to_nat SYM_INIT_CAP) []) arena)
        (str_hash []) [];
      if empty_id =? 0 then Some t else None
    else None
  else None.
End operations.

(** ** Accessors *)
Definition valid_id (t : sym_table_t) (id : Z) : bool := (0 <=? id) && (u32 id <? str_count t).

Definition ray_sym_is_dotted (t : sym_table_t) (id : Z) : bool :=
  if negb (valid_id t id) then false else Z.testbit (dotted t) (u32 id).

(** The accessors below index with the whole id: the outer [None] is a read
    outside the array, the inner one the count 0 or the null pointer. *)
Definition ray_sym_segs (t : sym_table_t) (id : Z) : option (option (list Z)) :=
  if negb (valid_id t id) then Some None
  else s ← segments t !! Z.to_nat id; Some (match s with [] => None | _ => Some s end).

Definition ray_sym_find (t : sym_table_t) (str : list Z) : option Z := sym_probe t (str_hash str) str.

Definition ray_sym_str (t : sym_table_t) (id : Z) : option (option (list Z)) :=
  if negb (valid_id t id) then Some None else Some <$> strings t !! Z.to_nat id.

Definition ray_sym_count (t : sym_table_t) : Z := str_count t.

(** * Lemmas *)
#[local] Arguments Z.pow : simpl never.
#[local] Arguments entry : simpl never.
#[local] Arguments e_hash : simpl never.
#[local] Arguments e_id : simpl never.
#[local] Arguments str_hash : simpl never.

(** ** The probe sequence *)
Definition pow2_len (b : list Z) : Prop := exists m : nat, length b = (2 ^ m)%nat.

Definition slot_of (b : list Z) (h : Z) (k : nat) : nat := Z.to_nat ((h + k) mod length b).

(** Slot [s] is found from hash [h] before any empty bucket. *)
Definition reach (b : list Z) (h : Z) (s : nat) : Prop :=
  exists k : nat, (k < length b)%nat /\ s = slot_of b h k /\
    forall j, (j < k)%nat -> b.[slot_of b h j] <> 0.

Record ht_inv (b : list Z) : Prop := {
  hi_pow2 : pow2_len b;
  hi_reach : forall s e, b !! s = Some e -> e <> 0 -> reach b (e_hash e) s }.

Definition used (b : list Z) : list Z := filter (fun e => e <> 0) b.

Lemma pow2_len_pos b : pow2_len b -> (0 < length b)%nat.
Proof. intros [m ->]. apply Nat.neq_0_lt_0, Nat.pow_nonzero. lia. Qed.

Lemma mask_mod b z : pow2_len b -> Z.land z (length b - 1) = z mod length b.
Proof. intros [m ->]. rewrite Nat2Z.inj_pow. apply land_mask. lia. Qed.

Lemma slot_of_lt b h k : pow2_len b -> (slot_of b h k < length b)%nat.
Proof. intros Hp%pow2_len_pos. unfold slot_of. lia. Qed.

Lemma slot_of_0 b h : pow2_len b -> Z.of_nat (slot_of b h 0) = Z.land h (length b - 1).
Proof. intros Hp. rewrite mask_mod by done. unfold slot_of. pose proof (pow2_len_pos b Hp). rewrite Z.add_0_r. lia. Qed.

Lemma slot_of_next b h k : pow2_len b -> next_slot b (slot_of b h k) = slot_of b h (S k).
Proof.
  intros Hp. unfold next_slot, slot_of. rewrite mask_mod by done. pose proof (pow2_len_pos b Hp).
  rewrite !Z2Nat.id by lia. rewrite Zplus_mod_idemp_l. f_equal. lia.
Qed.

Lemma slot_of_length b b' h k : length b = length b' -> slot_of b h k = slot_of b' h k.
Proof. unfold slot_of. by intros ->. Qed.

(** Every bucket is on the probe sequence of every hash. *)
Lemma slot_of_surj b h s :
  pow2_len b -> (s < length b)%nat -> exists k, (k < length b)%nat /\ slot_of b h k = s.
Proof.
  intros Hp Hs. exists (Z.to_nat ((s - h) mod length b)). pose proof (pow2_len_pos b Hp).
  split; [lia|]. unfold slot_of. rewrite Z2Nat.id by lia. rewrite Zplus_mod_idemp_r.
  replace (h + (s - h)) with (Z.of_nat s) by lia. rewrite Z.mod_small by lia. lia.
Qed.

Lemma free_slot b : (length (used b) < length b)%nat -> exists s, (s < length b)%nat /\ b.[s] = 0.
Proof.
  unfold used. induction b as [|e b IH]; simpl; [lia|]. intros Hl.
  destruct (decide (e = 0)) as [->|He]; [exists 0%nat; split; [lia|done]|].
  rewrite filter_cons_True in Hl by done. simpl in Hl.
  destruct IH as (s & ? & ?); [lia|]. exists (S s). split; [lia|done].
Qed.

(** A bounded search for a bucket that stops the probe. *)
Lemma probe_stop (P : Z -> Prop) `{!forall e, Decision (P e)} (b : list Z) h k0 :
  P b.[slot_of b h k0] ->
  exists k, (k <= k0)%nat /\ P b.[slot_of b h k] /\ forall j, (j < k)%nat -> ~ P b.[slot_of b h j].
Proof.
  induction k0 as [k0 IH] using (well_founded_induction lt_wf). intros Hk.
  destruct (decide (Exists (fun j => P b.[slot_of b h j]) (seq 0 k0))) as [He|He].
  - apply Exists_exists in He as (j & Hj%elem_of_seq & HPj).
    destruct (IH j) as (k & ? & ? & ?); [lia|done|]. exists k. split; [lia|done].
  - exists k0. split; [lia|]. split; [done|]. intros j Hj HP. apply He, Exists_exists. exists j.
    split; [apply elem_of_seq; lia|done].
Qed.

Lemma insert_loop_spec b e h k fuel :
  pow2_len b -> b.[slot_of b h k] = 0 -> (forall j, (j < k)%nat -> b.[slot_of b h j] <> 0) ->
  forall i, (i <= k)%nat -> (k - i < fuel)%nat ->
  ht_insert_loop fuel b e (slot_of b h i) = Some (<[slot_of b h k := e]> b).
Proof.
  intros Hp Hk Hj i Hi. revert i Hi. induction fuel as [|fuel IH]; intros i Hi Hf; [lia|].
  cbn [ht_insert_loop]. rewrite Nat2Z.id. destruct (decide (i = k)) as [->|Hne].
  - by rewrite Hk.
  - destruct (Z.eqb_spec b.[slot_of b h i] 0) as [E|E]; [by apply Hj in E; [|lia]|].
    rewrite slot_of_next by done. apply IH; lia.
Qed.

Lemma rd_insert_ne (b : list Z) i j e : i <> j -> (<[i := e]> b).[j] = b.[j].
Proof. intros. unfold rd. by rewrite list_lookup_insert_ne. Qed.

Lemma used_insert b s e :
  (s < length b)%nat -> b.[s] = 0 -> e <> 0 -> used (<[s := e]> b) ≡ₚ e :: used b.
Proof.
  intros Hs H0 He. assert (Hl : b !! s = Some 0).
  { apply lookup_lt_is_Some in Hs as [x Hx]. unfold rd in H0. rewrite Hx in *. by f_equal. }
  unfold used. rewrite insert_take_drop by done.
  rewrite <- (take_drop_middle b s 0 Hl) at 3. rewrite !filter_app.
  rewrite (filter_cons_True _ e) by done. rewrite (filter_cons_False _ 0) by auto.
  symmetry. apply Permutation_middle.
Qed.

(** Inserting in a table with a free bucket. *)
Lemma ht_insert_spec b h id :
  ht_inv b -> (length (used b) < length b)%nat -> 0 <= h < 2 ^ 32 -> 0 <= id < 2 ^ 32 - 1 ->
  e_hash (entry h id) = h -> entry h id <> 0 ->
  exists b', ht_insert b h id = Some b' /\ ht_inv b' /\ length b' = length b /\ used b' ≡ₚ entry h id :: used b.
Proof.
  intros [Hp Hr] Hu Hh Hid Heh He0.
  destruct (free_slot b Hu) as (s & Hs & H0). destruct (slot_of_surj b h s Hp Hs) as (k0 & Hk0 & <-).
  destruct (probe_stop (fun e => e = 0) b h k0 H0) as (k & Hk & Hz & Hnz).
  set (b' := <[slot_of b h k := entry h id]> b). exists b'.
  assert (Hlen : length b' = length b) by apply length_insert.
  assert (Hslot : (slot_of b h k < length b)%nat) by by apply slot_of_lt.
  assert (Hat : b'.[slot_of b h k] = entry h id) by (unfold rd, b'; by rewrite list_lookup_insert_eq).
  assert (Hkeep : forall j, b.[j] <> 0 -> b'.[j] = b.[j]).
  { intros j Hj. apply rd_insert_ne. by intros <-. }
  assert (Hreach : forall h' s', reach b h' s' -> reach b' h' s').
  { intros h' s' (k' & Hk' & -> & Hj). exists k'. rewrite Hlen. split; [done|].
    split; [by apply slot_of_length|]. intros j Hjk. rewrite (slot_of_length b' b) by done.
    rewrite Hkeep; by apply Hj. }
  split; [|split; [split|split]].
  - unfold ht_insert. rewrite <- slot_of_0 by done. apply insert_loop_spec; [done..|lia|lia].
  - destruct Hp as [m Hm]. exists m. by rewrite Hlen.
  - intros s' e Hs' Hne. destruct (decide (s' = slot_of b h k)) as [->|Hd].
    + unfold b' in Hs'. rewrite list_lookup_insert_eq in Hs' by done. injection Hs' as <-. rewrite Heh.
      exists k. rewrite Hlen. split; [lia|]. split; [by apply slot_of_length|].
      intros j Hj. rewrite (slot_of_length b' b) by done. rewrite Hkeep; by apply Hnz.
    + unfold b' in Hs'. rewrite list_lookup_insert_ne in Hs' by done. by apply Hreach, Hr.
  - done.
  - by apply used_insert.
Qed.

(** ** Entries *)
Lemma entry_arith h id : 0 <= h < 2 ^ 32 -> 0 <= id < 2 ^ 32 - 1 -> entry h id = h * 2 ^ 32 + (id + 1).
Proof.
  intros Hh Hi. unfold entry. rewrite u32_small by lia. rewrite u64_small by (rewrite Z.shiftl_mul_pow2 by lia; lia).
  apply lor_shiftl_add; lia.
Qed.

Lemma e_hash_entry h id : 0 <= h < 2 ^ 32 -> 0 <= id < 2 ^ 32 - 1 -> e_hash (entry h id) = h.
Proof.
  intros. rewrite entry_arith by done. unfold e_hash. rewrite Z.shiftr_div_pow2 by lia. rewrite u32_small; lia.
Qed.

Lemma e_id_entry h id : 0 <= h < 2 ^ 32 -> 0 <= id < 2 ^ 32 - 1 -> e_id (entry h id) = id.
Proof.
  intros. rewrite entry_arith by done. unfold e_id. change 0xFFFFFFFF with (2 ^ 32 - 1).
  rewrite land_mask by lia. rewrite u32_small; lia.
Qed.

Lemma entry_nonzero h id : 0 <= h < 2 ^ 32 -> 0 <= id < 2 ^ 32 - 1 -> entry h id <> 0.
Proof. intros. rewrite entry_arith by done. lia. Qed.

(** The used buckets are entries. *)
Definition is_entry (e : Z) : Prop := exists h id, 0 <= h < 2 ^ 32 /\ 0 <= id < 2 ^ 32 - 1 /\ e = entry h id.

Lemma is_entry_eta e : is_entry e -> entry (e_hash e) (e_id e) = e.
Proof. intros (h & id & Hh & Hi & ->). by rewrite e_hash_entry, e_id_entry. Qed.

Lemma e_hash_range e : 0 <= e_hash e < 2 ^ 32.
Proof. apply (wrap_range 32). lia. Qed.

Lemma e_id_range e : is_entry e -> 0 <= e_id e < 2 ^ 32 - 1.
Proof. intros (h & id & Hh & Hi & ->). by rewrite e_id_entry. Qed.

Lemma ht_rehash_spec es nb :
  ht_inv nb -> Forall is_entry (used es) -> (length (used es) + length (used nb) < length nb)%nat ->
  exists nb', ht_rehash es nb = Some nb' /\ ht_inv nb' /\ length nb' = length nb /\ used nb' ≡ₚ used es ++ used nb.
Proof.
  revert nb. induction es as [|e es IH]; intros nb Hi Hes Hl; [by exists nb|]. cbn [ht_rehash].
  unfold used in Hes, Hl. destruct (Z.eqb_spec e 0) as [->|He].
  - rewrite filter_cons_False in Hes, Hl by (intros []; done).
    destruct (IH nb) as (nb' & ? & ? & ? & ?); [done..|]. exists nb'. split_and!; [done..|].
    unfold used at 2. by rewrite filter_cons_False by (intros []; done).
  - rewrite filter_cons_True in Hes, Hl by done. apply Forall_cons in Hes as [He' Hes]. simpl in Hl.
    destruct (ht_insert_spec nb (e_hash e) (e_id e)) as (nb1 & -> & Hi1 & Hl1 & Hu1);
      [done|unfold used; lia|apply e_hash_range|by apply e_id_range|by rewrite is_entry_eta|by rewrite is_entry_eta|].
    rewrite is_entry_eta in Hu1 by done. cbn [mbind option_bind].
    destruct (IH nb1) as (nb' & ? & ? & Hl' & Hu'); [done..|rewrite Hu1; simpl; unfold used in *; lia|].
    exists nb'. split_and!; [done|done|lia|]. rewrite Hu', Hu1. unfold used at 3. rewrite filter_cons_True by done.
    simpl. symmetry. apply Permutation_middle.
Qed.

Lemma used_replicate n : used (replicate n 0) = [].
Proof. unfold used. induction n; simpl; [done|]. by rewrite filter_cons_False by (intros []; done). Qed.

Lemma ht_inv_empty m : ht_inv (replicate (2 ^ m) 0).
Proof.
  split; [exists m; apply length_replicate|]. intros s e [-> _]%lookup_replicate. done.
Qed.

(** ** Lookup *)
Definition entries (strs : list (list Z)) : list Z := imap (fun i s => entry (str_hash s) (Z.of_nat i)) strs.

Definition stops (strs : list (list Z)) (hash : Z) (str : list Z) (e : Z) : bool :=
  (e =? 0) || ((e_hash e =? hash) && bool_decide (strs !! Z.to_nat (e_id e) = Some str)).

Lemma probe_loop_spec b strs hash str h k fuel :
  pow2_len b -> stops strs hash str b.[slot_of b h k] = true ->
  (forall j, (j < k)%nat -> stops strs hash str b.[slot_of b h j] <> true) ->
  forall i, (i <= k)%nat -> (k - i < fuel)%nat ->
  sym_probe_loop fuel b strs hash str (slot_of b h i) =
    Some (if b.[slot_of b h k] =? 0 then -1 else e_id b.[slot_of b h k]).
Proof.
  intros Hp Hk Hj i Hi. revert i Hi. induction fuel as [|fuel IH]; intros i Hi Hf; [lia|].
  cbn [sym_probe_loop]. rewrite Nat2Z.id. destruct (decide (i = k)) as [->|Hne].
  - unfold stops in Hk. destruct (b.[slot_of b h k] =? 0); [done|]. rewrite orb_false_l in Hk. by rewrite Hk.
  - specialize (Hj i ltac:(lia)). unfold stops in Hj.
    destruct (b.[slot_of b h i] =? 0); [done|]. rewrite orb_false_l in Hj. destruct (_ && _); [done|].
    rewrite slot_of_next by done. apply IH; lia.
Qed.

Lemma elem_of_entries strs e :
  e ∈ entries strs <-> exists i s, strs !! i = Some s /\ e = entry (str_hash s) (Z.of_nat i).
Proof.
  unfold entries. rewrite elem_of_lookup_imap. split; intros (i & s & H1 & H2); exists i, s; done.
Qed.

Lemma entries_snoc strs s : entries (strs ++ [s]) = entries strs ++ [entry (str_hash s) (length strs)].
Proof. unfold entries. rewrite imap_app. simpl. by rewrite Nat.add_0_r. Qed.

Lemma length_entries strs : length (entries strs) = length strs.
Proof. apply length_imap. Qed.

Section probe.
Context (b : list Z) (strs : list (list Z)).
Context (Hi : ht_inv b) (Hrep : used b ≡ₚ entries strs).
Context (Hroom : (length strs < length b)%nat) (Hmax : length b <= 2 ^ 31).

Lemma entry_in_bucket s e : b !! s = Some e -> e <> 0 ->
  exists i str, strs !! i = Some str /\ e = entry (str_hash str) (Z.of_nat i).
Proof using Hrep.
  intros Hs He. apply elem_of_entries. rewrite <- Hrep. unfold used. apply list_elem_of_filter.
  split; [done|]. by eapply list_elem_of_lookup_2.
Qed.

Lemma id_small i str : strs !! i = Some str -> 0 <= Z.of_nat i < 2 ^ 32 - 1.
Proof using Hroom Hmax. intros Hl%lookup_lt_Some. lia. Qed.

Lemma bucket_of_string i str : strs !! i = Some str ->
  exists s, b !! s = Some (entry (str_hash str) (Z.of_nat i)).
Proof using Hrep.
  intros Hs. apply list_elem_of_lookup_1.
  assert (He : entry (str_hash str) i ∈ used b) by (rewrite Hrep; apply elem_of_entries; by exists i, str).
  unfold used in He. by apply list_elem_of_filter in He as [_ He].
Qed.

Lemma rd_lookup (l : list Z) s : (s < length l)%nat -> l !! s = Some l.[s].
Proof using Type. intros [x Hx]%lookup_lt_is_Some. unfold rd. by rewrite Hx. Qed.

Lemma sym_probe_loop_total hash str : 0 <= hash < 2 ^ 32 ->
  exists r, sym_probe_loop (length b) b strs hash str (Z.land hash (length b - 1)) = Some r /\
    ((0 <= r < length strs /\ strs !! Z.to_nat r = Some str) \/
     (r = -1 /\ (hash = str_hash str -> str ∉ strs))).
Proof using Hi Hrep Hroom Hmax.
  intros Hh. pose proof (hi_pow2 _ Hi) as Hp.
  destruct (free_slot b) as (s & Hs & H0); [by rewrite Hrep, length_entries|].
  destruct (slot_of_surj b hash s Hp Hs) as (k0 & Hk0 & <-).
  assert (H0' : stops strs hash str b.[slot_of b hash k0] = true) by (unfold stops; by rewrite H0).
  destruct (probe_stop (fun e => stops strs hash str e = true) b hash k0 H0') as (k & Hk & Hst & Hnst).
  eexists. split. { rewrite <- slot_of_0 by done. apply probe_loop_spec with (k := k); done || lia. }
  pose proof (rd_lookup b (slot_of b hash k) (slot_of_lt _ _ _ Hp)) as Hlk.
  destruct (Z.eqb_spec b.[slot_of b hash k] 0) as [Hz|Hnz].
  - right. split; [done|]. intros -> [i Hin]%list_elem_of_lookup_1.
    destruct (bucket_of_string i str Hin) as [s Hbs]. pose proof (id_small i str Hin) as Hid.
    pose proof (entry_nonzero (str_hash str) i (str_hash_range _) Hid) as Hne.
    destruct (hi_reach _ Hi s _ Hbs Hne) as (k' & Hk' & -> & Hj). rewrite e_hash_entry in Hbs, Hj by (done || apply str_hash_range).
    destruct (decide (k < k')%nat) as [Hlt|Hge]; [by apply (Hj k)|].
    destruct (decide (k' = k)) as [->|Hne']; [congruence|]. apply (Hnst k'); [lia|].
    unfold stops, rd. rewrite Hbs. change (default 0 (Some ?x)) with x. rewrite e_hash_entry, e_id_entry by (done || apply str_hash_range).
    rewrite Z.eqb_refl, Nat2Z.id, bool_decide_true by done. by rewrite orb_true_r.
  - left. destruct (entry_in_bucket _ _ Hlk Hnz) as (i & str' & Hstr & He). pose proof (id_small i str' Hstr) as Hid.
    unfold stops in Hst. apply Z.eqb_neq in Hnz. rewrite Hnz, orb_false_l in Hst. bprop.
    apply bool_decide_eq_true_1 in H1. rewrite He, e_id_entry in H1 |- * by (done || apply str_hash_range).
    rewrite Nat2Z.id in H1 |- *. split; [|done]. apply lookup_lt_Some in H1. lia.
Qed.
End probe.

(** ** Dotted names *)

(** A segment: not empty and without a dot, the first one after an optional
    leading dot (which may be all of it). *)
Definition plain_seg (s : list Z) : Prop := s <> [] /\ chDot ∉ s.
Definition first_seg (s : list Z) : Prop := plain_seg s \/ exists s', s = chDot :: s' /\ chDot ∉ s'.

Fixpoint join_dots (segs : list (list Z)) : list Z :=
  match segs with
  | [] => []
  | [s] => s
  | s :: segs => s ++ chDot :: join_dots segs
  end.

(** [str] is the dotted name of [segs]. *)
Definition dotted_name (str : list Z) (segs : list (list Z)) : Prop :=
  str = join_dots segs /\ (2 <= length segs <= 255)%nat /\
  exists s segs', segs = s :: segs' /\ first_seg s /\ Forall plain_seg segs'.

(** The pure splitting loop. *)
Fixpoint split_loop (nsegs : nat) (p : list Z) (lead : bool) : option (list (list Z)) :=
  match nsegs with
  | O => Some []
  | S nsegs =>
      if (length p =? 0)%nat then Some []
      else
        let dot := seg_dot p lead in
        let seg_len := match dot with Some k => k | None => length p end in
        if (seg_len =? 0)%nat then None
        else
          match dot with
          | None => Some [take seg_len p]
          | Some _ => cons (take seg_len p) <$> split_loop nsegs (drop (S seg_len) p) false
          end
  end.

Definition seg_split (str : list Z) : option (list (list Z)) :=
  match dotted_nsegs str with
  | None => None
  | Some n => split_loop n str (leading_dot str)
  end.

Lemma memchr_none s c : memchr s c = None <-> c ∉ s.
Proof.
  induction s as [|x s IH]; simpl; [split; [intros _; apply not_elem_of_nil|done]|].
  destruct (Z.eqb_spec x c) as [->|Hne].
  - split; [done|]. intros H. destruct H. apply elem_of_cons. by left.
  - rewrite fmap_None, IH, not_elem_of_cons. split; [by intros|by intros []].
Qed.

Lemma memchr_app s c r : c ∉ s -> memchr (s ++ c :: r) c = Some (length s).
Proof.
  induction s as [|x s IH]; simpl; intros Hs; [by rewrite Z.eqb_refl|].
  apply not_elem_of_cons in Hs as [Hx Hs]. destruct (Z.eqb_spec x c); [by subst|]. by rewrite IH.
Qed.

Lemma memchr_some s c k : memchr s c = Some k -> s = (take k s ++ c :: drop (S k) s) /\ (c ∉ take k s) /\ (k < length s)%nat.
Proof.
  revert k. induction s as [|x s IH]; intros k; simpl; [done|].
  destruct (Z.eqb_spec x c) as [->|Hne].
  - intros [= <-]. simpl. split; [done|]. split; [apply not_elem_of_nil|lia].
  - destruct (memchr s c) as [j|]; [|done]. intros [= <-]. destruct (IH j) as (Hs & Hn & Hl); [done|].
    simpl. split; [by f_equal|]. split; [by apply not_elem_of_cons|lia].
Qed.

Definition skip_of (lead : bool) : nat := if lead then 1%nat else 0%nat.

(** A first segment seen with its leading-dot flag. *)
Definition lead_seg (lead : bool) (s : list Z) : Prop :=
  (skip_of lead <= length s)%nat /\ s <> [] /\ (chDot ∉ drop (skip_of lead) s) /\
  (s.[0] =? chDot) = lead.

Lemma count_dots_app s r : count_dots (s ++ r) = (count_dots s + count_dots r)%nat.
Proof. unfold count_dots. by rewrite filter_app, length_app. Qed.

Lemma count_dots_none s : chDot ∉ s -> count_dots s = 0%nat.
Proof.
  unfold count_dots. induction s as [|x s IH]; [done|]. intros [Hx Hs]%not_elem_of_cons.
  rewrite filter_cons_False by auto. by apply IH.
Qed.

Lemma count_dots_dot r : count_dots (chDot :: r) = S (count_dots r).
Proof. unfold count_dots. by rewrite filter_cons_True. Qed.

Lemma count_dots_pos s : chDot ∈ s -> (0 < count_dots s)%nat.
Proof.
  intros (a & r & ->)%list_elem_of_split. rewrite count_dots_app, count_dots_dot. lia.
Qed.

Lemma lead_seg_first lead s : lead_seg lead s -> first_seg s.
Proof.
  intros (Hl & Hne & Hnd & Hd). destruct lead; simpl in *.
  - destruct s as [|x s]; [done|]. right. apply Z.eqb_eq in Hd. rewrite rd_cons_0 in Hd. subst x. by exists s.
  - left. by split.
Qed.

Lemma first_lead_seg s : first_seg s -> lead_seg (s.[0] =? chDot) s.
Proof.
  intros [[Hne Hnd]|(s' & -> & Hnd)].
  - destruct (Z.eqb_spec s.[0] chDot) as [E|E].
    + destruct s as [|x s]; [done|]. rewrite rd_cons_0 in E. subst. destruct Hnd. apply elem_of_cons. by left.
    + split_and!; simpl; [lia|done|done|by apply Z.eqb_neq].
  - rewrite rd_cons_0, Z.eqb_refl. split_and!; simpl; [lia|done|done|by rewrite rd_cons_0, Z.eqb_refl].
Qed.

Lemma plain_lead_seg s : plain_seg s -> lead_seg false s.
Proof.
  intros Hs. pose proof (first_lead_seg s (or_introl Hs)) as H.
  destruct (Z.eqb_spec s.[0] chDot) as [E|E]; [|done]. destruct Hs as [Hne Hnd].
  destruct s as [|x s]; [done|]. rewrite rd_cons_0 in E. subst. destruct Hnd. apply elem_of_cons. by left.
Qed.

Lemma seg_dot_last lead s : lead_seg lead s -> seg_dot s lead = None.
Proof.
  intros (Hl & Hne & Hnd & _). unfold seg_dot. fold (skip_of lead). bif; [|done].
  apply memchr_none in Hnd. by rewrite Hnd.
Qed.

Lemma seg_dot_app lead s r : lead_seg lead s -> seg_dot (s ++ chDot :: r) lead = Some (length s).
Proof.
  intros (Hl & Hne & Hnd & _). unfold seg_dot. fold (skip_of lead). rewrite length_app. simpl. bif; [|lia].
  rewrite drop_app_le by done. rewrite memchr_app by done. simpl. f_equal. rewrite length_drop. lia.
Qed.

Lemma seg_dot_some lead p k : seg_dot p lead = Some k ->
  p = (take k p ++ chDot :: drop (S k) p) /\ (skip_of lead <= k < length p)%nat /\
  chDot ∉ drop (skip_of lead) (take k p).
Proof.
  unfold seg_dot. fold (skip_of lead). bif; [|done].
  destruct (memchr _ _) as [j|] eqn:Ej; [|done]. intros [= <-].
  apply memchr_some in Ej as (Heq & Hnd & Hj). rewrite length_drop in Hj. rewrite drop_drop in Heq.
  split; [|split; [lia|]].
  - rewrite <- (take_drop (skip_of lead) p) at 1. rewrite Heq.
    replace (skip_of lead + S j)%nat with (S (skip_of lead + j)) by lia. rewrite app_assoc. f_equal.
    rewrite <- (take_drop (skip_of lead) (take (skip_of lead + j) p)), take_take, skipn_firstn_comm.
    by replace (Nat.min (skip_of lead) (skip_of lead + j)) with (skip_of lead) by lia;
       replace (skip_of lead + j - skip_of lead)%nat with j by lia.
  - rewrite skipn_firstn_comm. by replace (skip_of lead + j - skip_of lead)%nat with j by lia.
Qed.

Lemma length_join_pos segs : segs <> [] -> Forall (fun s => s <> []) segs -> join_dots segs <> [].
Proof.
  intros Hne Hs. destruct segs as [|s [|s' segs]]; [done|by inversion Hs|]. simpl. by intros [? ?]%app_nil.
Qed.

Lemma split_loop_join lead s segs n :
  lead_seg lead s -> Forall plain_seg segs -> (S (length segs) <= n)%nat ->
  split_loop n (join_dots (s :: segs)) lead = Some (s :: segs).
Proof.
  intros Hs Hsegs. revert lead s n Hs. induction Hsegs as [|s' segs Hs' Hsegs IH]; intros lead s n Hs Hn;
    (destruct n as [|n]; [simpl in Hn; lia|]).
  - simpl. pose proof Hs as (_ & Hne & _ & _). bif; [by destruct s|]. rewrite seg_dot_last by done.
    bif; [by destruct s|]. by rewrite firstn_all.
  - change (join_dots (s :: s' :: segs)) with (s ++ chDot :: join_dots (s' :: segs)).
    pose proof Hs as (_ & Hne & _ & _). cbn [split_loop]. rewrite seg_dot_app by done.
    rewrite take_app_length. bif; [rewrite length_app in E; simpl in E; lia|].
    bif; [by destruct s|]. replace (S (length s)) with (length s + 1)%nat by lia.
    rewrite drop_app_add. change (drop 1 (chDot :: ?x)) with x. rewrite IH; [done|by apply plain_lead_seg|simpl in Hn; lia].
Qed.

Lemma split_loop_sound n p lead segs :
  split_loop n p lead = Some segs -> n = S (count_dots (drop (skip_of lead) p)) -> p <> [] ->
  p.[length p - 1] <> chDot -> (p.[0] =? chDot) = lead \/ lead = false ->
  p = join_dots segs /\ length segs = n /\
  exists s segs', segs = s :: segs' /\ (s <> [] /\ chDot ∉ drop (skip_of lead) s) /\ Forall plain_seg segs'.
Proof.
  revert p lead segs. induction n as [|n IH]; intros p lead segs; [done|]. cbn [split_loop].
  intros Hsp Hn Hne Hlast Hlead. revert Hsp. bif; [by destruct p|].
  destruct (seg_dot p lead) as [k|] eqn:Ed.
  - apply seg_dot_some in Ed as (Hp & Hk & Hnd). bif; [done|].
    destruct (split_loop n _ false) as [segs1|] eqn:Es; [|done]. intros [= <-].
    assert (Hlt : (S k < length p)%nat).
    { destruct (decide (S k = length p)) as [Hk1|]; [|lia]. destruct Hlast.
      replace (length p - 1)%nat with k by lia. rewrite Hp. unfold rd. rewrite lookup_app_r by (rewrite length_take; lia).
      rewrite length_take. by replace (k - Nat.min k (length p))%nat with 0%nat by lia. }
    assert (Hcnt : count_dots (drop (skip_of lead) p) = S (count_dots (drop (S k) p))).
    { rewrite Hp at 1. rewrite drop_app_le by (rewrite length_take; lia).
      rewrite count_dots_app, count_dots_none, count_dots_dot by done. done. }
    destruct (IH (drop (S k) p) false segs1) as (Hj & Hlen & s1 & segs' & -> & [Hs1 Hs1'] & Hsegs').
    + done.
    + simpl. rewrite drop_0. lia.
    + intros Hnil. apply (f_equal length) in Hnil. rewrite length_drop in Hnil. simpl in Hnil. lia.
    + rewrite rd_drop, length_drop. by replace (S k + (length p - S k - 1))%nat with (length p - 1)%nat by lia.
    + by right.
    + split; [|split; [simpl; by f_equal|]].
      * rewrite Hp at 1. rewrite Hj. done.
      * exists (take k p), (s1 :: segs'). split; [done|]. split.
        { split; [|done]. intros Hnil. apply (f_equal length) in Hnil. rewrite length_take in Hnil. simpl in Hnil. lia. }
        constructor; [|done]. simpl in Hs1'. by rewrite drop_0 in Hs1'.
  - intros H. revert H. bif; [by destruct p|]. intros [= <-]. rewrite firstn_all.
    assert (Hnd : chDot ∉ drop (skip_of lead) p).
    { unfold seg_dot in Ed. fold (skip_of lead) in Ed. revert Ed. bif.
      - by intros ?%fmap_None%memchr_none.
      - intros _. rewrite drop_ge by lia. apply not_elem_of_nil. }
    rewrite count_dots_none in Hn by done. split; [done|]. split; [by rewrite Hn|].
    exists p, []. done.
Qed.

Lemma count_dots_join s segs : Forall plain_seg (s :: segs) -> count_dots (join_dots (s :: segs)) = length segs.
Proof.
  revert s. induction segs as [|s2 segs IH]; intros s [[_ Hs] Hsegs]%Forall_cons.
  - by apply count_dots_none.
  - change (join_dots (s :: s2 :: segs)) with (s ++ chDot :: join_dots (s2 :: segs)).
    rewrite count_dots_app, count_dots_none, count_dots_dot by done. cbn [Nat.add length]. f_equal. by apply IH.
Qed.

Lemma rd_last (r : list Z) s c : r <> [] -> (s ++ c :: r).[length (s ++ c :: r) - 1] = r.[length r - 1].
Proof.
  intros Hr. rewrite length_app. simpl. unfold rd. rewrite lookup_app_r by lia.
  destruct r as [|x r]; [done|]. simpl.
  replace (length s + S (S (length r)) - 1 - length s)%nat with (S (length r)) by lia. simpl.
  by replace (S (length r) - 1)%nat with (length r) by lia.
Qed.

Lemma rd_last_in (s : list Z) : s <> [] -> s.[length s - 1] ∈ s.
Proof.
  intros Hs. apply list_elem_of_lookup. exists (length s - 1)%nat. apply rd_lookup.
  destruct s; [done|]. simpl. lia.
Qed.

(** A dotted name does not end in a dot. *)
Lemma join_last s s' segs : Forall plain_seg (s' :: segs) ->
  (join_dots (s :: s' :: segs)).[length (join_dots (s :: s' :: segs)) - 1] <> chDot.
Proof.
  revert s s'. induction segs as [|s2 segs IH]; intros s s' [[Hne Hnd] Hsegs]%Forall_cons.
  - change (join_dots [s; s']) with (s ++ chDot :: s'). rewrite rd_last by done.
    intros H. apply Hnd. rewrite <- H. by apply rd_last_in.
  - change (join_dots (s :: s' :: s2 :: segs)) with (s ++ chDot :: join_dots (s' :: s2 :: segs)).
    rewrite rd_last; [by apply IH|]. apply length_join_pos; [done|]. constructor; [done|].
    eapply Forall_impl; [done|]. by intros ? [].
Qed.

Lemma split_sound str n segs :
  dotted_nsegs str = Some n -> split_loop n str (leading_dot str) = Some segs ->
  dotted_name str segs /\ length segs = n.
Proof.
  unfold dotted_nsegs, leading_dot. destruct (memchr str chDot) as [k|] eqn:Em; [|done].
  destruct (Z.eqb_spec str.[length str - 1] chDot) as [|Hlast]; [done|].
  set (lead := str.[0] =? chDot) in *. fold (skip_of lead). bif; [done|]. bif; [done|]. intros [= <-] Hs.
  assert (Hne : str <> []) by (intros ->; done).
  destruct (split_loop_sound _ _ _ _ Hs) as (Hj & Hlen & s & segs' & -> & [Hs0 Hs1] & Hsegs); [lia|done|done|by left|].
  assert (Hpos : (0 < count_dots (drop (skip_of lead) str))%nat).
  { apply count_dots_pos. destruct (decide (chDot ∈ drop (skip_of lead) str)) as [|Hn]; [done|exfalso].
    apply memchr_none in Hn. destruct lead; simpl in Hn.
    - rewrite Hn in E. rewrite bool_decide_true in E by done. by destruct E.
    - by rewrite drop_0, Em in Hn. }
  split; [|done]. split; [done|]. split; [lia|]. exists s, segs'. split; [done|]. split; [|done].
  apply (lead_seg_first lead). split_and!; [|done..|].
  - destruct s; [done|]. unfold skip_of. destruct lead; simpl; lia.
  - unfold lead. rewrite Hj. destruct s as [|x s]; [done|]. by destruct segs'.
Qed.

(** The split accepts exactly the dotted names. *)
Lemma seg_split_iff str segs : seg_split str = Some segs <-> dotted_name str segs.
Proof.
  split.
  - unfold seg_split. destruct (dotted_nsegs str) as [n|] eqn:En; [|done]. intros Hs. by eapply split_sound in Hs as [? _].
  - unfold seg_split, dotted_nsegs, leading_dot.
    intros (-> & Hlen & s & segs' & -> & Hf & Hsegs). destruct segs' as [|s' segs']; [simpl in Hlen; lia|].
    pose proof (first_lead_seg s Hf) as Hl. set (lead := s.[0] =? chDot) in *.
    set (str := join_dots (s :: s' :: segs')).
    assert (Hstr : str = s ++ chDot :: join_dots (s' :: segs')) by done.
    pose proof Hl as (Hsk & Hne & Hnd & _).
    assert (H0 : str.[0] = s.[0]) by (rewrite Hstr; by destruct s).
    assert (Hcnt : count_dots (drop (skip_of lead) str) = S (length segs')).
    { rewrite Hstr, drop_app_le by done. rewrite count_dots_app, count_dots_none, count_dots_dot by done. simpl.
      f_equal. by apply count_dots_join. }
    assert (Hlast : str.[length str - 1] <> chDot).
    { by apply join_last. }
    assert (Hdot : chDot ∈ str) by (rewrite Hstr; apply elem_of_app; right; apply elem_of_cons; by left).
    destruct (memchr str chDot) as [k|] eqn:Em; [|by apply memchr_none in Em].
    rewrite H0. fold lead. fold (skip_of lead). bif; [done|]. bif.
    { apply bool_decide_eq_true_1, memchr_none in H1. rewrite H in *. simpl in Hcnt.
      rewrite count_dots_none in Hcnt by done. done. }
    rewrite Hcnt. bif; [simpl in Hlen; lia|]. apply split_loop_join; [done|done|simpl; lia].
Qed.

Lemma first_seg_not_dotted s : first_seg s -> seg_split s = None.
Proof.
  intros Hf. unfold seg_split, dotted_nsegs. destruct (memchr s chDot) as [k|] eqn:Em; [|done].
  destruct Hf as [[_ Hn]|(s' & -> & Hn)]; [by apply memchr_none in Hn; rewrite Hn in Em|].
  bif; [done|]. unfold leading_dot. rewrite rd_cons_0, Z.eqb_refl. apply memchr_none in Hn.
  change (drop 1 (chDot :: s')) with s'. by rewrite bool_decide_true.
Qed.

(** ** Well-formed tables *)

(** The sidecars, as functions of the id: scanned ids exist, dotted ones are
    scanned and carry segments, a scanned name is marked dotted exactly when
    its shape is, and cached segments are the ids of the parts of the name. *)
Record meta_wf (strs : list (list Z)) (dt sc : Z) (sg : nat -> list Z) : Prop := {
  mw_scanned : forall i : nat, Z.testbit sc i = true -> (i < length strs)%nat;
  mw_dotted : forall i : nat, Z.testbit dt i = true -> Z.testbit sc i = true;
  mw_segs : forall i : nat, Z.testbit dt i = true <-> sg i <> [];
  mw_settled : forall (i : nat) s, strs !! i = Some s -> Z.testbit sc i = true ->
    Z.testbit dt i = true <-> is_Some (seg_split s);
  mw_ids : forall (i : nat) s, strs !! i = Some s -> sg i <> [] -> exists segs, seg_split s = Some segs /\
    Forall2 (fun id seg => 0 <= id /\ strs !! Z.to_nat id = Some seg) (sg i) segs }.

Definition segs_at (t : sym_table_t) (i : nat) : list Z := default [] (segments t !! i).

Definition MAX_NAME : Z := 2 ^ 40.

Record sym_wf (t : sym_table_t) : Prop := {
  sw_ht : ht_inv (buckets t);
  sw_rep : used (buckets t) ≡ₚ entries (strings t);
  sw_cap : 256 <= bucket_cap t <= 2 ^ 31;
  sw_load : str_count t < bucket_cap t;
  sw_count : str_count t <= str_cap t;
  sw_strcap : exists m : nat, (8 <= m <= 31)%nat /\ str_cap t = 2 ^ m;
  sw_segs : Z.of_nat (length (segments t)) = str_cap t;
  sw_arena : exists live, arena_wf (sym_arena t) live;
  sw_names : Forall (fun s : list Z => length s < MAX_NAME) (strings t);
  sw_meta : meta_wf (strings t) (dotted t) (scanned t) (segs_at t) }.

(** What a client of the table sees is unchanged. *)
Record same_syms (t t' : sym_table_t) : Prop := {
  ss_strings : strings t' = strings t;
  ss_dotted : dotted t' = dotted t;
  ss_scanned : scanned t' = scanned t;
  ss_segs : forall i, segs_at t' i = segs_at t i }.

#[export] Instance same_syms_preorder : PreOrder same_syms.
Proof.
  split; [by intros t|]. intros t1 t2 t3 [? ? ? H12] [? ? ? H23].
  split; [congruence..|]. intros i. by rewrite H23.
Qed.

Section meta.
Context (strs : list (list Z)) (dt sc : Z) (sg : nat -> list Z) (Hm : meta_wf strs dt sc sg).

Lemma meta_ext sg' : (forall i, sg' i = sg i) -> meta_wf strs dt sc sg'.
Proof using Hm.
  intros He. split; intros i.
  - by apply (mw_scanned _ _ _ _ Hm).
  - by apply (mw_dotted _ _ _ _ Hm).
  - rewrite He. by apply (mw_segs _ _ _ _ Hm).
  - by apply (mw_settled _ _ _ _ Hm).
  - rewrite He. by apply (mw_ids _ _ _ _ Hm).
Qed.

Lemma meta_push s : meta_wf (strs ++ [s]) dt sc sg.
Proof using Hm.
  assert (Hold : forall i s', (strs ++ [s]) !! i = Some s' -> Z.testbit sc (Z.of_nat i) = true -> strs !! i = Some s').
  { intros i s' Hs Hsc. apply (mw_scanned _ _ _ _ Hm) in Hsc. by rewrite lookup_app_l in Hs. }
  split.
  - intros i Hi. rewrite length_app. apply (mw_scanned _ _ _ _ Hm) in Hi. lia.
  - apply (mw_dotted _ _ _ _ Hm).
  - apply (mw_segs _ _ _ _ Hm).
  - intros i s' Hs Hsc. by apply (mw_settled _ _ _ _ Hm); [apply Hold|].
  - intros i s' Hs Hne. assert (Hsc : Z.testbit sc i = true) by by apply (mw_dotted _ _ _ _ Hm), (mw_segs _ _ _ _ Hm).
    destruct (mw_ids _ _ _ _ Hm i s') as (segs & Hsp & Hf); [by apply Hold|done|]. exists segs. split; [done|].
    eapply Forall2_impl; [done|]. intros id seg [? Hl]. split; [done|]. by apply lookup_app_l_Some.
Qed.

Lemma setbit_nat (z : Z) (i j : nat) : Z.testbit (Z.setbit z i) j = bool_decide (i = j) || Z.testbit z j.
Proof using Type. rewrite Z.setbit_eqb by lia. f_equal. destruct (Z.eqb_spec i j); case_bool_decide; lia || done. Qed.

Lemma meta_settle i s : strs !! i = Some s -> seg_split s = None -> meta_wf strs dt (Z.setbit sc (Z.of_nat i)) sg.
Proof using Hm.
  intros Hs Hsp. split.
  - intros j. rewrite setbit_nat. case_bool_decide as Hij.
    + subst. intros _. by apply lookup_lt_Some in Hs.
    + by apply (mw_scanned _ _ _ _ Hm).
  - intros j Hj. rewrite setbit_nat. rewrite (mw_dotted _ _ _ _ Hm) by done. by rewrite orb_true_r.
  - apply (mw_segs _ _ _ _ Hm).
  - intros j s' Hs'. rewrite setbit_nat. case_bool_decide as Hij; [|by apply (mw_settled _ _ _ _ Hm)].
    subst j. rewrite Hs in Hs'. injection Hs' as <-. intros _. rewrite Hsp. split; [|by intros []].
    intros Hd%(mw_segs _ _ _ _ Hm). destruct (mw_ids _ _ _ _ Hm i s Hs Hd) as (segs & Hc & _). congruence.
  - apply (mw_ids _ _ _ _ Hm).
Qed.

Lemma meta_store i s segs ids sg' :
  strs !! i = Some s -> seg_split s = Some segs -> ids <> [] ->
  Forall2 (fun id seg => 0 <= id /\ strs !! Z.to_nat id = Some seg) ids segs ->
  sg' i = ids -> (forall j, j <> i -> sg' j = sg j) ->
  meta_wf strs (Z.setbit dt (Z.of_nat i)) (Z.setbit sc (Z.of_nat i)) sg'.
Proof using Hm.
  intros Hs Hsp Hne Hf Hi Hj. split; intros j; rewrite ?setbit_nat;
    (destruct (decide (i = j)) as [Hij|Hij]; [subst j; rewrite ?bool_decide_true by done|rewrite ?bool_decide_false by done]).
  - intros _. by apply lookup_lt_Some in Hs.
  - by apply (mw_scanned _ _ _ _ Hm).
  - done.
  - by apply (mw_dotted _ _ _ _ Hm).
  - by rewrite Hi.
  - rewrite Hj by done. by apply (mw_segs _ _ _ _ Hm).
  - intros s' Hs' _. rewrite Hs in Hs'. injection Hs' as <-. rewrite Hsp. by split.
  - by apply (mw_settled _ _ _ _ Hm).
  - intros s' Hs' _. rewrite Hs in Hs'. injection Hs' as <-. rewrite Hi. by exists segs.
  - intros s' Hs' Hne'. rewrite Hj in Hne' |- * by done. by apply (mw_ids _ _ _ _ Hm).
Qed.
End meta.

(** ** Growth *)
Section ops.
Context (alloc : Z -> bool) (Halloc : forall n, alloc n = true -> n < 2 ^ 63).

(** Same table up to the size of its arrays. *)
Record grown (t t' : sym_table_t) : Prop := {
  gr_same : same_syms t t';
  gr_buckets : bucket_cap t <= bucket_cap t';
  gr_strs : str_cap t <= str_cap t' }.

#[local] Instance grown_preorder : PreOrder grown.
Proof using Type.
  split; [by intros t; split|]. intros t1 t2 t3 [? ? ?] [? ? ?]. split; [by etransitivity|lia..].
Qed.

Lemma sym_id_small t : sym_wf t -> str_count t < 2 ^ 32 - 1.
Proof using Type. intros Hw. pose proof (sw_cap _ Hw). pose proof (sw_load _ Hw). lia. Qed.

Lemma is_entry_used t : sym_wf t -> Forall is_entry (used (buckets t)).
Proof using Type.
  intros Hw. rewrite (sw_rep _ Hw). apply Forall_forall. intros e (i & s & Hs & ->)%elem_of_entries.
  exists (str_hash s), i. apply lookup_lt_Some in Hs. pose proof (sym_id_small t Hw). unfold str_count in *.
  split_and!; [apply str_hash_range..|lia|lia|done].
Qed.

Lemma pow2_nat (m : nat) : Z.to_nat (2 ^ m) = (2 ^ m)%nat.
Proof using Type. rewrite <- (Nat2Z.id (2 ^ m)). f_equal. rewrite Nat2Z.inj_pow. done. Qed.

Lemma bucket_pow2 t : sym_wf t -> exists m : nat, bucket_cap t = 2 ^ m.
Proof using Type.
  intros Hw. destruct (hi_pow2 _ (sw_ht _ Hw)) as [m Hm]. exists m. unfold bucket_cap. by rewrite Hm, Nat2Z.inj_pow.
Qed.

Lemma ht_grow_to_spec t (m : nat) :
  sym_wf t -> bucket_cap t <= 2 ^ m <= 2 ^ 31 ->
  exists ok t', ht_grow_to alloc t (2 ^ m) = Some (ok, t') /\ sym_wf t' /\ grown t t' /\
    str_cap t' = str_cap t /\ sym_arena t' = sym_arena t /\
    (if ok : bool then bucket_cap t' = 2 ^ m else t' = t).
Proof using Type.
  intros Hw Hm. unfold ht_grow_to. destruct (alloc _); simpl; [|by exists false, t].
  rewrite pow2_nat. pose proof (sw_cap _ Hw) as Hcap. pose proof (sw_load _ Hw) as Hload.
  assert (Hlen : Z.of_nat (length (replicate (2 ^ m) 0)) = 2 ^ m) by (rewrite length_replicate, Nat2Z.inj_pow; done).
  pose proof (Permutation_length (sw_rep _ Hw)) as Hul. rewrite length_entries in Hul.
  destruct (ht_rehash_spec (buckets t) (replicate (2 ^ m) 0)) as (nb & -> & Hi & Hl & Hu).
  { apply ht_inv_empty. } { by apply is_entry_used. }
  { rewrite used_replicate. simpl. unfold str_count in *. lia. }
  simpl. exists true, (set_buckets t nb). rewrite used_replicate, app_nil_r in Hu.
  assert (Hnb : bucket_cap (set_buckets t nb) = 2 ^ m) by (unfold bucket_cap; simpl; lia).
  split; [done|]. split; [|split; [split; [done|lia|done]|done]].
  destruct Hw. split; simpl; [done|by rewrite Hu|lia|unfold str_count in *; simpl; lia|done..].
Qed.

Lemma ht_grow_spec t :
  sym_wf t -> exists ok t', ht_grow alloc t = Some (ok, t') /\ sym_wf t' /\ grown t t' /\
    str_cap t' = str_cap t /\ sym_arena t' = sym_arena t /\
    (if ok : bool then bucket_cap t' = bucket_cap t * 2 else t' = t).
Proof using Type.
  intros Hw. unfold ht_grow. change (UINT32_MAX / 2 + 1) with (2 ^ 31). bif; [by exists false, t|].
  destruct (bucket_pow2 t Hw) as [m Hm]. pose proof (sw_cap _ Hw) as Hc.
  assert (Hm31 : m < 31). { apply (Z.pow_lt_mono_r_iff 2); lia. }
  assert (HS : 2 ^ S m = bucket_cap t * 2) by (rewrite Nat2Z.inj_succ, Z.pow_succ_r by lia; lia).
  rewrite <- HS. apply ht_grow_to_spec; [done|]. split; [lia|]. apply Z.pow_le_mono_r; lia.
Qed.

Lemma sym_grow_str_cap_spec t (m : nat) :
  sym_wf t -> (8 <= m <= 31)%nat ->
  exists ok t', sym_grow_str_cap alloc t (2 ^ m) = (ok, t') /\ sym_wf t' /\ grown t t' /\
    bucket_cap t' = bucket_cap t /\ sym_arena t' = sym_arena t /\
    (if ok : bool then 2 ^ m <= str_cap t' else t' = t).
Proof using Type.
  intros Hw Hm. unfold sym_grow_str_cap. bif; [by exists true, t|]. bif; [|by exists false, t].
  do 2 eexists. split; [done|].
  assert (Hsg : forall i, segs_at (SymTab (buckets t) (strings t) (2 ^ m) (dotted t) (scanned t)
    (segments t ++ replicate (Z.to_nat (2 ^ m - str_cap t)) []) (sym_arena t)) i = segs_at t i).
  { intros i. unfold segs_at. simpl. destruct (decide (i < length (segments t))%nat).
    - by rewrite lookup_app_l.
    - rewrite lookup_app_r by lia. rewrite (lookup_ge_None_2 (segments t)) by lia.
      by destruct (replicate _ _ !! _) eqn:El; [apply lookup_replicate in El as [-> _]|]. }
  split; [|split; [split; [split; done|done|simpl; lia]|done]].
  pose proof (sw_segs _ Hw) as Hseg. destruct Hw. split; try done; simpl.
  - unfold str_count in *. simpl. lia.
  - by exists m.
  - rewrite length_app, length_replicate. lia.
  - by eapply meta_ext.
Qed.

(** The table after [str] was appended. *)
Record pushed (t : sym_table_t) (str : list Z) (t' : sym_table_t) : Prop := {
  pu_strings : strings t' = strings t ++ [str];
  pu_dotted : dotted t' = dotted t;
  pu_scanned : scanned t' = scanned t;
  pu_segs : forall i, segs_at t' i = segs_at t i }.

(** Appending a string to a table with room for it. *)
Lemma sym_push_wf t str a b live :
  sym_wf t -> str_count t + 1 < bucket_cap t -> str_count t < str_cap t -> length str < MAX_NAME ->
  arena_wf a live -> ht_insert (buckets t) (str_hash str) (str_count t) = Some b ->
  sym_wf (SymTab b (strings t ++ [str]) (str_cap t) (dotted t) (scanned t) (segments t) a) /\
  length b = length (buckets t).
Proof using Type.
  intros Hw Hload Hcnt Hstr Ha Hb. pose proof (sw_cap _ Hw) as Hcap. pose proof (sym_id_small t Hw) as Hid.
  pose proof (Permutation_length (sw_rep _ Hw)) as Hul. rewrite length_entries in Hul.
  assert (0 <= str_count t < 2 ^ 32 - 1) by (unfold str_count in *; lia).
  destruct (ht_insert_spec (buckets t) (str_hash str) (str_count t)) as (b' & Hb' & Hi & Hl & Hu);
    [apply Hw|unfold bucket_cap, str_count in *; lia|apply str_hash_range|done
    |apply e_hash_entry; [apply str_hash_range|done]|apply entry_nonzero; [apply str_hash_range|done]|].
  assert (b' = b) as -> by congruence. split; [|done]. pose proof (sw_rep _ Hw) as Hrep.
  destruct Hw. split; simpl; try done.
  - rewrite Hu, entries_snoc, Hrep. apply Permutation_cons_append.
  - unfold bucket_cap in *. simpl. lia.
  - unfold bucket_cap, str_count in *. simpl. rewrite length_app. simpl. lia.
  - unfold str_count in *. simpl. rewrite length_app. simpl. lia.
  - by exists live.
  - apply Forall_app. by repeat constructor.
  - by apply meta_push.
Qed.

Lemma ht_insert_total t str :
  sym_wf t -> exists b, ht_insert (buckets t) (str_hash str) (str_count t) = Some b.
Proof using Type.
  intros Hw. pose proof (Permutation_length (sw_rep _ Hw)) as Hul. rewrite length_entries in Hul.
  pose proof (sym_id_small t Hw). pose proof (sw_load _ Hw).
  assert (0 <= str_count t < 2 ^ 32 - 1) by (unfold str_count in *; lia).
  destruct (ht_insert_spec (buckets t) (str_hash str) (str_count t)) as (b' & Hb' & _);
    [apply Hw|unfold bucket_cap, str_count in *; lia|apply str_hash_range|done
    |apply e_hash_entry; [apply str_hash_range|done]|apply entry_nonzero; [apply str_hash_range|done]|].
  by exists b'.
Qed.

Lemma set_arena_wf t a live : sym_wf t -> arena_wf a live -> sym_wf (set_arena t a).
Proof using Type. intros [] Ha. split; simpl; try done. by exists live. Qed.

(** ** Committing a new string *)

(** Room reserved for [n] more strings and [bytes] of arena. *)
Record reserved (t : sym_table_t) (n : nat) (bytes : Z) : Prop := {
  rs_load : (str_count t + n) * 100 < bucket_cap t * 70;
  rs_count : str_count t + n <= str_cap t;
  rs_bytes : bytes <= avail (sym_arena t) }.

Lemma name_upper len : 0 <= len < MAX_NAME -> 0 <= ray_sym_bytes_upper len <= len + 128.
Proof using Type.
  unfold MAX_NAME, ray_sym_bytes_upper. intros Hl. rewrite chars_block_eq by lia. bif; lia.
Qed.

Lemma sym_commit_reserved t str n bytes :
  sym_wf t -> length str < MAX_NAME -> 0 <= bytes ->
  reserved t (S n) (ray_sym_bytes_upper (length str) + bytes) ->
  exists t', sym_commit_new alloc t (str_hash str) str = Some (str_count t, t') /\
    sym_wf t' /\ pushed t str t' /\ reserved t' n bytes.
Proof using Type.
  intros Hw Hstr Hby [Hl Hc Hb]. unfold sym_commit_new. pose proof (name_upper (length str) ltac:(lia)).
  bif; [unfold bucket_cap, str_count in *; lia|]. cbn [mbind option_bind negb].
  bif; [lia|]. cbn [negb]. destruct (sw_arena _ Hw) as [live Ha].
  destruct (arena_str_fits alloc (sym_arena t) live (length str)) as (s & a & -> & Ha' & Hav & _);
    [done|unfold MAX_NAME in *; lia|lia|].
  destruct (ht_insert_total t str Hw) as [b Hbk]. rewrite Hbk. cbn [mbind option_bind].
  pose proof (sw_cap _ Hw).
  destruct (sym_push_wf t str a b _ Hw ltac:(lia) ltac:(lia) Hstr Ha' Hbk) as [Hw' Hlen].
  eexists. split; [done|]. split; [done|]. split; [by split|].
  split; [..|simpl; lia]; unfold bucket_cap, str_count in *; simpl; rewrite length_app; simpl; lia.
Qed.

(** The doubling loops reach their target within their fuel. *)
Lemma ht_target_spec fuel (m : nat) nc :
  (m <= 31)%nat -> (32 <= m + fuel)%nat ->
  exists r, ht_target fuel nc (2 ^ m) = Some r /\
    match r with
    | Some target => exists m' : nat, target = 2 ^ m' /\ (m <= m' <= 31)%nat /\ nc * 100 < target * 70
    | None => True
    end.
Proof using Type.
  revert m. induction fuel as [|fuel IH]; intros m Hm Hf; [lia|]. cbn [ht_target].
  change (UINT32_MAX / 2 + 1) with (2 ^ 31). bif; [|exists (Some (2 ^ m)); split; [done|]; by exists m].
  bif; [by exists None|]. assert (m < 31) by (apply (Z.pow_lt_mono_r_iff 2); lia).
  assert (HS : 2 ^ m * 2 = 2 ^ S m) by (rewrite Nat2Z.inj_succ, Z.pow_succ_r by lia; lia).
  rewrite HS. destruct (IH (S m)) as (r & -> & Hr); [lia|lia|]. exists r. split; [done|].
  destruct r; [|done]. destruct Hr as (m' & ? & ? & ?). exists m'. split_and!; done || lia.
Qed.

Lemma str_target_spec fuel (m : nat) nc :
  (8 <= m <= 31)%nat -> (32 <= m + fuel)%nat -> nc <= 2 ^ 32 ->
  exists r, str_target fuel nc (2 ^ m) = Some r /\
    match r with
    | Some target => exists m' : nat, target = 2 ^ m' /\ (m <= m' <= 31)%nat /\ nc <= target
    | None => True
    end.
Proof using Type.
  revert m. induction fuel as [|fuel IH]; intros m Hm Hf Hnc; [lia|]. cbn [str_target].
  change (UINT32_MAX / 2) with (2 ^ 31 - 1). bif; [|exists (Some (2 ^ m)); split; [done|]; exists m; split_and!; done || lia].
  bif; [by exists None|].
  assert (m < 31) by (apply (Z.pow_lt_mono_r_iff 2); lia).
  assert (HS : 2 ^ m * 2 = 2 ^ S m) by (rewrite Nat2Z.inj_succ, Z.pow_succ_r by lia; lia).
  rewrite HS. destruct (IH (S m)) as (r & -> & Hr); [lia|lia|lia|]. exists r. split; [done|].
  destruct r; [|done]. destruct Hr as (m' & ? & ? & ?). exists m'. split_and!; done || lia.
Qed.

(** Growing the strings and sidecars for [nc] strings in all. *)
Lemma reserve_strs t nc :
  sym_wf t -> nc <= 2 ^ 32 ->
  exists r, (if str_cap t <? nc then str_target 33 nc (str_cap t) else Some (Some (str_cap t))) = Some r /\
    match r with
    | None => True
    | Some starget =>
        exists ok t', (if str_cap t <? nc then sym_grow_str_cap alloc t starget else (true, t)) = (ok, t') /\
          sym_wf t' /\ grown t t' /\ bucket_cap t' = bucket_cap t /\ sym_arena t' = sym_arena t /\
          (ok = true -> nc <= str_cap t')
    end.
Proof using Type.
  intros Hw Hnc. destruct (sw_strcap _ Hw) as (m & Hm & Hcap). bif.
  - rewrite Hcap. destruct (str_target_spec 33 m nc) as (r & -> & Hr); [done|lia|done|]. exists r. split; [done|].
    destruct r as [tg|]; [|done]. destruct Hr as (m' & -> & Hm' & Hle).
    destruct (sym_grow_str_cap_spec t m') as (ok & t' & ? & ? & ? & ? & ? & Hok); [done|lia|].
    exists ok, t'. split_and!; [done..|]. intros ->. lia.
  - exists (Some (str_cap t)). split; [done|]. exists true, t. by split_and!.
Qed.

Lemma sym_reserve_spec t (n : nat) bytes :
  sym_wf t -> (n <= 300)%nat -> 0 <= bytes < 2 ^ 63 ->
  exists ok t', sym_reserve_capacity alloc t n bytes = Some (ok, t') /\ sym_wf t' /\ same_syms t t' /\
    (ok = true -> reserved t' n bytes).
Proof using Halloc.
  intros Hw Hn Hb. unfold sym_reserve_capacity. destruct (bucket_pow2 t Hw) as [m Hm].
  pose proof (sw_cap _ Hw) as Hcap. pose proof (sw_load _ Hw) as Hload.
  assert (Hm31 : m < 32) by (apply (Z.pow_lt_mono_r_iff 2); lia).
  cbv zeta. set (nc := str_count t + n).
  pose proof (ht_target_spec 33 m nc ltac:(lia) ltac:(lia)) as (r & Ht & Hr). rewrite <- Hm in Ht. rewrite Ht.
  cbn [mbind option_bind].
  destruct r as [target|]; [|by exists false, t]. destruct Hr as (m' & -> & Hm' & Hnc).
  assert (H1 : exists ok t1, (if bucket_cap t <? 2 ^ m' then ht_grow_to alloc t (2 ^ m') else Some (true, t)) = Some (ok, t1) /\
    sym_wf t1 /\ grown t t1 /\ sym_arena t1 = sym_arena t /\ (ok = true -> 2 ^ m' <= bucket_cap t1)).
  { bif; [|by exists true, t].
    destruct (ht_grow_to_spec t m') as (ok & t1 & ? & ? & ? & ? & ? & Hok); [done| |].
    - split; [lia|]. apply Z.pow_le_mono_r; lia.
    - exists ok, t1. split_and!; [done..|]. intros ->. lia. }
  destruct H1 as (ok & t1 & -> & Hw1 & Hg1 & Har1 & Hok1). cbn [mbind option_bind].
  destruct ok; cbn [negb]; [|exists false, t1; split_and!; [done|done|apply Hg1|done]].
  destruct (reserve_strs t1 nc Hw1) as (r & -> & Hr); [lia|]. cbn [mbind option_bind].
  destruct r as [starget|]; [|exists false, t1; split_and!; [done|done|apply Hg1|done]].
  destruct Hr as (ok & t2 & -> & Hw2 & Hg2 & Hb2 & Har2 & Hok2).
  assert (Hg : grown t t2) by by etransitivity.
  destruct ok; cbn [negb]; [|exists false, t2; split_and!; [done|done|apply Hg|done]].
  destruct (sw_arena _ Hw2) as [live Ha].
  assert (H3 : exists ok a, (if bytes =? 0 then (true, sym_arena t2) else ray_arena_reserve alloc (sym_arena t2) bytes) = (ok, a) /\
    arena_wf a live /\ (ok = true -> bytes <= avail a)).
  { bif.
    - exists true, (sym_arena t2). split_and!; [done..|]. intros _. subst.
      pose proof (aw_ok _ _ Ha) as Hok. unfold avail. destruct (chunks _); [lia|].
      apply Forall_inv in Hok as (? & _). lia.
    - destruct (arena_reserve_gen alloc Halloc (sym_arena t2) live bytes Ha Hb) as [(a & -> & ? & ? & _)| ->].
      + by exists true, a.
      + by exists false, (sym_arena t2). }
  destruct H3 as (ok & a & -> & Ha' & Hok3). exists ok, (set_arena t2 a).
  split; [done|]. split; [by eapply set_arena_wf|].
  assert (Hcnt : str_count t2 = str_count t) by (unfold str_count; by rewrite (ss_strings _ _ (gr_same _ _ Hg))).
  split; [by destruct (gr_same _ _ Hg); split|]. intros ->.
  specialize (Hok1 eq_refl). specialize (Hok2 eq_refl). specialize (Hok3 eq_refl).
  split; [| |exact Hok3]; change (str_count (set_arena t2 a)) with (str_count t2); rewrite Hcnt; fold nc.
  - change (bucket_cap (set_arena t2 a)) with (bucket_cap t2). clear -Hnc Hok1 Hb2. lia.
  - exact Hok2.
Qed.

(** ** Probing and committing the segments *)
Lemma sym_probe_spec t str :
  sym_wf t -> exists r, sym_probe t (str_hash str) str = Some r /\
    ((0 <= r < str_count t /\ strings t !! Z.to_nat r = Some str) \/ (r = -1 /\ str ∉ strings t)).
Proof using Type.
  intros Hw. pose proof (sw_load _ Hw). pose proof (sw_cap _ Hw).
  destruct (sym_probe_loop_total (buckets t) (strings t) (sw_ht _ Hw) (sw_rep _ Hw)
    ltac:(unfold str_count, bucket_cap in *; lia) ltac:(unfold bucket_cap in *; lia) (str_hash str) str (str_hash_range str))
    as (r & Hr & Hor).
  exists r. split; [exact Hr|]. destruct Hor as [?|[-> Hn]]; [by left|right]. split; [done|]. by apply Hn.
Qed.

(** What the inspection found about a segment. *)
Record desc_ok (t : sym_table_t) (d : seg_desc) : Prop := {
  do_hash : d_hash d = str_hash (d_str d);
  do_old : is_new d = false -> 0 <= d_id d /\ strings t !! Z.to_nat (d_id d) = Some (d_str d);
  do_new : is_new d = true <-> (d_str d ∉ strings t) }.

Lemma seg_loop_spec t n p lead :
  sym_wf t -> exists ds valid, seg_loop t n p lead = Some (ds, valid) /\
    Forall (fun d => desc_ok t d /\ (length (d_str d) <= length p)%nat) ds /\ (length ds <= n)%nat /\
    (if valid : bool then split_loop n p lead = Some (d_str <$> ds) else split_loop n p lead = None).
Proof using Type.
  intros Hw. revert p lead. induction n as [|n IH]; intros p lead; [by exists [], true|].
  cbn [seg_loop split_loop]. bif; [exists [], true; split_and!; done || simpl; lia|].
  cbv zeta. set (k := match seg_dot p lead with Some k => k | None => length p end).
  destruct (k =? 0)%nat; [exists [], false; split_and!; done || simpl; lia|].
  destruct (sym_probe_spec t (take k p) Hw) as (r & -> & Hr). cbn [mbind option_bind].
  assert (Hd : desc_ok t (SegDesc (take k p) (str_hash (take k p)) r)).
  { split; unfold is_new; simpl; [done| |].
    - intros Hf. bprop. destruct Hr as [[? ?]|[-> _]]; [|lia]. by split; [lia|].
    - destruct Hr as [[? Hl]|[-> Hn]]; [|done]. split; intros H1; bprop; [lia|].
      destruct H1. by eapply list_elem_of_lookup_2. }
  assert (Hlen : (length (take k p) <= length p)%nat) by (rewrite length_take; lia).
  destruct (seg_dot p lead) as [k'|].
  - destruct (IH (drop (S k) p) false) as (ds & valid & -> & Hds & Hl & Hsp). cbn [mbind option_bind].
    do 2 eexists. split; [done|]. split; [|split; [simpl; lia|]].
    + constructor; [done|]. eapply Forall_impl; [exact Hds|]. intros d [? Hdl]. split; [done|].
      rewrite length_drop in Hdl. lia.
    + destruct valid; rewrite Hsp; done.
  - do 2 eexists. split; [done|]. split_and!; [by constructor|simpl; lia|done].
Qed.

Lemma set_scanned_wf t (i : nat) s :
  sym_wf t -> strings t !! i = Some s -> seg_split s = None -> sym_wf (set_scanned t i).
Proof using Type. intros Hw Hs Hn. pose proof (meta_settle _ _ _ _ (sw_meta _ Hw) i s Hs Hn). destruct Hw. by split. Qed.

(** Facts about [t] that later tables keep. *)
Definition segs_in (strs : list (list Z)) : list Z -> list (list Z) -> Prop :=
  Forall2 (fun id seg => 0 <= id /\ strs !! Z.to_nat id = Some seg).

Lemma segs_in_app strs news ids segs : segs_in strs ids segs -> segs_in (strs ++ news) ids segs.
Proof using Type.
  intros H. eapply Forall2_impl; [exact H|]. intros id seg [? ?]. split; [done|]. by apply lookup_app_l_Some.
Qed.

Lemma new_segs_cons d ds : new_segs (d :: ds) = if is_new d then d :: new_segs ds else new_segs ds.
Proof using Type. unfold new_segs. rewrite filter_cons. by destruct (is_new d). Qed.

Lemma new_seg_bytes_cons d ds :
  new_seg_bytes (d :: ds) = (if is_new d then ray_sym_bytes_upper (length (d_str d)) else 0) + new_seg_bytes ds.
Proof using Type. unfold new_seg_bytes. rewrite new_segs_cons. by destruct (is_new d). Qed.

Lemma new_seg_bytes_range ds :
  Forall (fun d => length (d_str d) < MAX_NAME) ds -> 0 <= new_seg_bytes ds <= length ds * (MAX_NAME + 128).
Proof using Type.
  induction 1 as [|d ds Hd _ IH]; [change (new_seg_bytes []) with 0; simpl; lia|]. rewrite new_seg_bytes_cons.
  pose proof (name_upper (length (d_str d)) ltac:(lia)). simpl length. unfold MAX_NAME in *.
  destruct (is_new d); lia.
Qed.

Record segs_committed (t : sym_table_t) (ds : list seg_desc) (t' : sym_table_t) : Prop := {
  sc_strings : strings t' = strings t ++ (d_str <$> new_segs ds);
  sc_dotted : dotted t' = dotted t;
  sc_segs : forall i, segs_at t' i = segs_at t i;
  sc_scanned : forall i : nat, Z.testbit (scanned t) i = true -> Z.testbit (scanned t') i = true;
  sc_settled : forall i : nat, (length (strings t) <= i < length (strings t'))%nat -> Z.testbit (scanned t') i = true }.

Definition desc_found (t : sym_table_t) (d : seg_desc) : Prop :=
  d_hash d = str_hash (d_str d) /\
  (is_new d = false -> 0 <= d_id d /\ strings t !! Z.to_nat (d_id d) = Some (d_str d)).

Lemma scanned_setbit t (i j : nat) :
  Z.testbit (scanned (set_scanned t i)) j = bool_decide (i = j) || Z.testbit (scanned t) j.
Proof using Type. apply setbit_nat. Qed.

Lemma commit_segs_spec t ds n bytes :
  sym_wf t -> 0 <= bytes ->
  Forall (fun d => desc_found t d /\ length (d_str d) < MAX_NAME /\ first_seg (d_str d)) ds ->
  reserved t (length (new_segs ds) + n) (new_seg_bytes ds + bytes) ->
  exists ids t', commit_segs alloc t ds = Some (Some ids, t') /\ sym_wf t' /\ segs_committed t ds t' /\
    segs_in (strings t') ids (d_str <$> ds) /\ reserved t' n bytes.
Proof using Type.
  intros Hw Hby Hds. revert t Hw Hds. induction ds as [|d ds IH]; intros t Hw Hds Hres.
  { exists [], t. split; [done|]. split; [done|]. split; [|split; [constructor|done]].
    split; [by rewrite app_nil_r|done..|]. intros i Hi. lia. }
  apply Forall_cons in Hds as [((Hh & Hold) & Hlen & Hseg) Hds]. cbn [commit_segs].
  assert (Hnb : 0 <= new_seg_bytes ds) by (apply new_seg_bytes_range; eapply Forall_impl; [exact Hds|]; by intros ? (_ & ? & _)).
  rewrite new_seg_bytes_cons, new_segs_cons in Hres.
  assert (Hmono : forall t1 news, strings t1 = strings t ++ news ->
    Forall (fun d => desc_found t1 d /\ length (d_str d) < MAX_NAME /\ first_seg (d_str d)) ds).
  { intros t1 news Hs. eapply Forall_impl; [exact Hds|]. intros d' ((? & Ho) & ?). split; [|done]. split; [done|].
    intros Hf. destruct (Ho Hf). split; [done|]. rewrite Hs. by apply lookup_app_l_Some. }
  destruct (is_new d) eqn:En.
  - simpl in Hres. rewrite <- Z.add_assoc in Hres. rewrite Hh.
    destruct (sym_commit_reserved t (d_str d) (length (new_segs ds) + n) (new_seg_bytes ds + bytes) Hw Hlen ltac:(lia) Hres) as (t1 & -> & Hw1 & [Hs1 Hd1 Hsc1 Hg1] & Hres1).
    cbn [mbind option_bind]. assert (Hn : (str_count t <? 0) = false) by (apply Z.ltb_ge; unfold str_count; lia).
    rewrite Hn. unfold str_count. set (t2 := set_scanned t1 (length (strings t))).
    assert (Hat : strings t1 !! length (strings t) = Some (d_str d)) by (rewrite Hs1; by apply list_lookup_middle).
    assert (Hw2 : sym_wf t2) by (eapply set_scanned_wf; [done..|]; by apply first_seg_not_dotted).
    destruct (IH t2 Hw2 (Hmono t2 [d_str d] Hs1) ltac:(by destruct Hres1)) as (ids & t' & -> & Hw' & [Hs' Hd' Hg' Hsc' Hst'] & Hin & Hres').
    cbn [mbind option_bind]. do 2 eexists. split; [done|]. split; [done|]. split; [split|split; [|done]].
    + rewrite Hs', new_segs_cons, En. change (strings t2) with (strings t1). rewrite Hs1. by rewrite <- app_assoc.
    + rewrite Hd'. done.
    + intros i. by rewrite Hg'; apply Hg1.
    + intros i Hi. apply Hsc'. unfold t2. rewrite scanned_setbit, Hsc1, Hi. by rewrite orb_true_r.
    + intros i Hi. destruct (decide (i = length (strings t))) as [->|Hne].
      * apply Hsc'. unfold t2. rewrite scanned_setbit. by rewrite bool_decide_true.
      * apply Hst'. change (strings t2) with (strings t1). rewrite Hs1, length_app. simpl. lia.
    + constructor; [|done]. rewrite Nat2Z.id. split; [lia|]. rewrite Hs'.
      change (strings t2) with (strings t1). by apply lookup_app_l_Some.
  - cbn [mbind option_bind]. destruct (Hold eq_refl) as [Hid Hat].
    assert (Hn : (d_id d <? 0) = false) by (by apply Z.ltb_ge). rewrite Hn. rewrite Z.add_0_l in Hres.
    destruct (IH t Hw (Hmono t [] ltac:(by rewrite app_nil_r)) Hres) as (ids & t' & -> & Hw' & [Hs' Hd' Hg' Hsc' Hst'] & Hin & Hres').
    cbn [mbind option_bind]. do 2 eexists. split; [done|]. split; [done|]. split; [split; try done|split; [|done]].
    + by rewrite new_segs_cons, En.
    + constructor; [|done]. split; [done|]. rewrite Hs'. by apply lookup_app_l_Some.
Qed.

Lemma segs_bytes_eq n : segs_bytes n = ARENA_ALIGN_UP (32 + 8 * n).
Proof using Type. unfold segs_bytes, ARENA_ALIGN_UP, ARENA_ALIGN. do 2 f_equal. lia. Qed.

Lemma store_segs_spec t (i nsegs : nat) ids s segs :
  sym_wf t -> strings t !! i = Some s -> seg_split s = Some segs -> segs_in (strings t) ids segs ->
  (nsegs <= 255)%nat -> segs_bytes nsegs <= avail (sym_arena t) ->
  exists t', store_segs alloc t i nsegs ids = (true, t') /\ sym_wf t' /\ strings t' = strings t /\
    segs_at t' i = ids /\ (forall j, j <> i -> segs_at t' j = segs_at t j) /\
    Z.testbit (dotted t') i = true /\
    (forall j : nat, Z.testbit (scanned t') j = bool_decide (i = j) || Z.testbit (scanned t) j).
Proof using Type.
  intros Hw Hs Hsp Hin Hn Hav. unfold store_segs. rewrite segs_bytes_eq in Hav. destruct (sw_arena _ Hw) as [live Ha].
  destruct (arena_alloc_fits alloc (sym_arena t) live (8 * nsegs)) as (c & o & a & -> & Ha' & _); [done|lia|done|].
  assert (Hi : (i < length (segments t))%nat).
  { pose proof (sw_segs _ Hw). pose proof (sw_count _ Hw). apply lookup_lt_Some in Hs. unfold str_count in *. lia. }
  assert (Hids : ids <> []).
  { apply seg_split_iff in Hsp as (_ & Hl & _). apply Forall2_length in Hin. intros ->. simpl in Hin. lia. }
  eexists. split; [done|]. rewrite Nat2Z.id.
  assert (Hself : segs_at (SymTab (buckets t) (strings t) (str_cap t) (Z.setbit (dotted t) i) (Z.setbit (scanned t) i)
    (<[i:=ids]> (segments t)) a) i = ids) by (unfold segs_at; simpl; by rewrite list_lookup_insert_eq).
  assert (Hoth : forall j, j <> i -> segs_at (SymTab (buckets t) (strings t) (str_cap t) (Z.setbit (dotted t) i) (Z.setbit (scanned t) i)
    (<[i:=ids]> (segments t)) a) j = segs_at t j) by (intros j Hj; unfold segs_at; simpl; by rewrite list_lookup_insert_ne).
  split; [|split; [done|split; [done|split; [done|split]]]].
  - pose proof (meta_store _ _ _ _ (sw_meta _ Hw) i s segs ids _ Hs Hsp Hids Hin Hself Hoth) as Hm.
    destruct Hw. split; try done; simpl; [by rewrite length_insert|by eexists].
  - simpl. rewrite setbit_nat. by rewrite bool_decide_true.
  - intros j. apply setbit_nat.
Qed.

(** ** Interning *)
Definition settled (t : sym_table_t) : Prop :=
  forall i : nat, (i < length (strings t))%nat -> Z.testbit (scanned t) i = true.

Definition fresh_segs (t : sym_table_t) (str : list Z) : list (list Z) :=
  filter (fun s => s ∉ strings t) (default [] (seg_split str)).

Record interned (t : sym_table_t) (str : list Z) (r : Z) (t' : sym_table_t) : Prop := {
  in_wf : sym_wf t';
  in_settled : settled t';
  in_strings : strings t' = strings t ++ (if decide (str ∈ strings t) then [] else fresh_segs t str ++ [str]);
  in_id : 0 <= r /\ strings t' !! Z.to_nat r = Some str;
  in_segs : forall i, (i < length (strings t))%nat -> segs_at t' i = segs_at t i }.

Lemma nsegs_le str n : dotted_nsegs str = Some n -> (n <= 255)%nat.
Proof using Type.
  unfold dotted_nsegs. destruct (memchr str chDot); [|done]. repeat (bif; [done|]). intros [= <-]. lia.
Qed.

Lemma sym_inspect_spec t str :
  sym_wf t -> length str < MAX_NAME -> exists nsegs ds v, sym_inspect t str = Some (nsegs, ds, v) /\
    Forall (fun d => desc_ok t d /\ length (d_str d) < MAX_NAME) ds /\ (length ds <= 255)%nat /\ (nsegs <= 255)%nat /\
    (if v : bool then seg_split str = Some (d_str <$> ds) else seg_split str = None).
Proof using Type.
  intros Hw Hlen. unfold sym_inspect, seg_split. destruct (dotted_nsegs str) as [n|] eqn:En.
  - destruct (seg_loop_spec t n str (leading_dot str) Hw) as (ds & v & -> & Hds & Hl & Hv).
    apply nsegs_le in En. exists n, ds, v. split; [done|]. split; [|split; [lia|split; [lia|done]]].
    eapply Forall_impl; [exact Hds|]. intros d [? ?]. split; [done|]. lia.
  - exists 0%nat, [], false. split_and!; simpl; done || lia.
Qed.

Lemma new_segs_strings t ds : Forall (desc_ok t) ds ->
  d_str <$> new_segs ds = filter (fun s => s ∉ strings t) (d_str <$> ds).
Proof using Type.
  induction 1 as [|d ds Hd _ IH]; [done|]. rewrite new_segs_cons, fmap_cons, filter_cons. pose proof (do_new _ _ Hd) as Hn.
  destruct (is_new d); destruct (decide _) as [Hx|Hx].
  - rewrite fmap_cons. by f_equal.
  - by destruct Hx; apply Hn.
  - by apply Hn in Hx.
  - done.
Qed.

Lemma join_longer seg segs : seg ∈ segs -> (2 <= length segs)%nat -> (length seg < length (join_dots segs))%nat.
Proof using Type.
  intros Hin Hl. assert (H : forall s segs', seg ∈ s :: segs' -> (length seg <= length (join_dots (s :: segs')))%nat /\
    (segs' <> [] -> (length seg < length (join_dots (s :: segs')))%nat)).
  { clear. intros s segs'. revert s. induction segs' as [|s2 segs' IH]; intros s Hin.
    - apply list_elem_of_singleton in Hin as ->. done.
    - change (join_dots (s :: s2 :: segs')) with (s ++ chDot :: join_dots (s2 :: segs')). rewrite length_app. cbn [length].
      apply elem_of_cons in Hin as [->|Hin]; [lia|]. destruct (IH s2 Hin). lia. }
  destruct segs as [|s [|s2 segs']]; [simpl in Hl; lia..|]. by apply H.
Qed.

(** The commit phase, from a reserved table. *)
Lemma commit_dotted t str nsegs ds :
  sym_wf t -> settled t -> length str < MAX_NAME -> (nsegs <= 255)%nat ->
  Forall (fun d => desc_found t d /\ length (d_str d) < MAX_NAME /\ first_seg (d_str d)) ds ->
  seg_split str = Some (d_str <$> ds) ->
  reserved t (length (new_segs ds) + 1) (new_seg_bytes ds + (ray_sym_bytes_upper (length str) + segs_bytes nsegs)) ->
  exists ids t1 t2 t3 r, commit_segs alloc t ds = Some (Some ids, t1) /\
    sym_commit_new alloc t1 (str_hash str) str = Some (r, t2) /\ 0 <= r /\
    store_segs alloc t2 r nsegs ids = (true, t3) /\ sym_wf t3 /\ settled t3 /\
    strings t3 = strings t ++ (d_str <$> new_segs ds) ++ [str] /\ strings t3 !! Z.to_nat r = Some str /\
    (forall i, (i < length (strings t))%nat -> segs_at t3 i = segs_at t i).
Proof using Type.
  intros Hw Hset Hlen Hn Hds Hsp Hres. pose proof (name_upper (length str) ltac:(lia)) as Hup.
  assert (Hsb : 0 <= segs_bytes nsegs) by (rewrite segs_bytes_eq, align_up_le by (unfold SIZE_MAX; lia); lia).
  destruct (commit_segs_spec t ds 1 (ray_sym_bytes_upper (length str) + segs_bytes nsegs) Hw ltac:(lia) Hds Hres)
    as (ids & t1 & E1 & Hw1 & [Hs1 Hd1 Hg1 Hsc1 Hst1] & Hin & Hres1).
  destruct (sym_commit_reserved t1 str 0 (segs_bytes nsegs) Hw1 Hlen Hsb Hres1) as (t2 & E2 & Hw2 & [Hs2 Hd2 Hsc2 Hg2] & Hres2).
  set (r := length (strings t1)) in *. change (str_count t1) with (Z.of_nat r) in E2.
  assert (Hat : strings t2 !! r = Some str) by (rewrite Hs2; by apply list_lookup_middle).
  destruct (store_segs_spec t2 r nsegs ids str (d_str <$> ds)) as (t3 & E3 & Hw3 & Hs3 & Hself & Hoth & Hdot & Hsc3);
    [done|done|done|rewrite Hs2; by apply segs_in_app|done|by destruct Hres2|].
  exists ids, t1, t2, t3, (Z.of_nat r). rewrite Nat2Z.id, Hs3. split_and!; try done; [lia| | |].
  - intros i. rewrite Hs3, Hs2, length_app, Hsc3, Hsc2. simpl. intros Hi.
    destruct (decide (r = i)) as [->|Hne]; [by rewrite bool_decide_true|]. rewrite bool_decide_false by done. simpl.
    destruct (decide (i < length (strings t))%nat); [by apply Hsc1, Hset|]. apply Hst1. lia.
  - by rewrite Hs2, Hs1, <- app_assoc.
  - intros i Hi. rewrite Hoth; [by rewrite Hg2, Hg1|]. unfold r. rewrite Hs1, length_app. lia.
Qed.

Lemma commit_plain t str n :
  sym_wf t -> settled t -> length str < MAX_NAME -> seg_split str = None ->
  reserved t (S n) (ray_sym_bytes_upper (length str)) ->
  exists t1 r, sym_commit_new alloc t (str_hash str) str = Some (r, t1) /\ 0 <= r /\
    sym_wf (set_scanned t1 r) /\ settled (set_scanned t1 r) /\
    strings (set_scanned t1 r) = strings t ++ [str] /\ strings t1 !! Z.to_nat r = Some str /\
    (forall i, segs_at (set_scanned t1 r) i = segs_at t i).
Proof using Type.
  intros Hw Hset Hlen Hsp Hres.
  destruct (sym_commit_reserved t str n 0 Hw Hlen ltac:(lia)) as (t1 & E1 & Hw1 & [Hs1 Hd1 Hsc1 Hg1] & _).
  { by rewrite Z.add_0_r. }
  set (r := length (strings t)) in *. change (str_count t) with (Z.of_nat r) in E1.
  assert (Hat : strings t1 !! r = Some str) by (rewrite Hs1; by apply list_lookup_middle).
  exists t1, (Z.of_nat r). rewrite Nat2Z.id. split_and!; try done; [lia|by eapply set_scanned_wf|].
  intros i. change (strings (set_scanned t1 r)) with (strings t1). rewrite Hs1, length_app, scanned_setbit, Hsc1. simpl. intros Hi.
  destruct (decide (r = i)) as [->|Hne]; [by rewrite bool_decide_true|]. rewrite bool_decide_false by done.
  apply Hset. unfold r in *. lia.
Qed.

Lemma dotted_segs_first str segs : seg_split str = Some segs -> Forall first_seg segs.
Proof using Type.
  intros (_ & _ & s & segs' & -> & Hf & Hs)%seg_split_iff. constructor; [done|].
  eapply Forall_impl; [exact Hs|]. intros ? ?. by left.
Qed.

Lemma settled_same t t' : same_syms t t' -> settled t -> settled t'.
Proof using Type. intros [Hs _ Hsc _] H i. rewrite Hs, Hsc. apply H. Qed.

Lemma decide_fresh t str news : (str ∉ strings t) ->
  news = fresh_segs t str ++ [str] ->
  strings t ++ news = strings t ++ (if decide (str ∈ strings t) then [] else fresh_segs t str ++ [str]).
Proof using Type. intros Hn ->. by destruct (decide _). Qed.

(** A string that is not in the table yet. *)
Lemma intern_new t str :
  sym_wf t -> settled t -> length str < MAX_NAME -> (str ∉ strings t) ->
  exists r t', ray_sym_intern alloc t str = Some (r, t') /\
    ((r = -1 /\ sym_wf t' /\ same_syms t t') \/ interned t str r t').
Proof using Halloc.
  intros Hw Hset Hlen Hn. unfold ray_sym_intern, sym_intern_nolock.
  destruct (sym_probe_spec t str Hw) as (r & -> & [[_ Hr]|[-> _]]).
  { destruct Hn. by eapply list_elem_of_lookup_2. }
  cbn [mbind option_bind]. change (0 <=? -1) with false. cbv iota.
  destruct (sym_inspect_spec t str Hw Hlen) as (nsegs & ds & v & -> & Hds & Hdl & Hnl & Hv). cbn [mbind option_bind].
  cbv zeta. pose proof (name_upper (length str) ltac:(lia)) as Hup.
  assert (Hsb : 0 <= segs_bytes nsegs <= 4096) by (rewrite segs_bytes_eq, align_up_le by (unfold SIZE_MAX; lia); lia).
  assert (Hnb : 0 <= new_seg_bytes ds <= 255 * (MAX_NAME + 128)).
  { assert (Forall (fun d => length (d_str d) < MAX_NAME) ds) as Hf%new_seg_bytes_range
      by (eapply Forall_impl; [exact Hds|]; by intros ? []). unfold MAX_NAME in *. lia. }
  assert (Hnew : (length (new_segs ds) <= length ds)%nat) by apply length_filter.
  destruct (sym_reserve_spec t (1 + length (new_segs ds)) (ray_sym_bytes_upper (length str) +
      (if v then new_seg_bytes ds + segs_bytes nsegs else 0)) Hw) as (ok & t1 & -> & Hw1 & Hsame & Hres);
    [lia|unfold MAX_NAME in *; destruct v; lia|]. cbn [mbind option_bind].
  destruct ok; cbn [negb]; [|by exists (-1), t1; split; [done|left]]. specialize (Hres eq_refl).
  pose proof (settled_same _ _ Hsame Hset) as Hset1. pose proof (ss_strings _ _ Hsame) as Hs1.
  destruct v.
  - destruct (commit_dotted t1 str nsegs ds Hw1 Hset1 Hlen Hnl) as
      (ids & t2 & t3 & t4 & r & -> & E2 & Hr & E3 & Hw4 & Hset4 & Hs4 & Hat & Hsg); [|done| |].
    { pose proof (dotted_segs_first _ _ Hv) as Hf. rewrite Forall_fmap in Hf. rewrite Forall_forall in *.
      intros d Hd. destruct (Hds d Hd) as [[H1 H2 _] H3]. unfold desc_found. rewrite Hs1. by split_and!; [..|apply Hf]. }
    { replace (length (new_segs ds) + 1)%nat with (1 + length (new_segs ds))%nat by lia.
      replace (new_seg_bytes ds + _) with (ray_sym_bytes_upper (length str) + (new_seg_bytes ds + segs_bytes nsegs)) by lia. done. }
    cbn [mbind option_bind]. rewrite E2. cbn [mbind option_bind]. destruct (Z.ltb_spec r 0); [lia|]. rewrite E3.
    exists r, t4. split; [done|]. right. split; [done|done| |done|].
    + rewrite Hs4, Hs1. apply decide_fresh; [done|]. unfold fresh_segs. rewrite Hv. cbn [default from_option id].
      f_equal. apply new_segs_strings. eapply Forall_impl; [exact Hds|]. by intros ? [].
    + intros i Hi. rewrite Hsg by by rewrite Hs1. apply (ss_segs _ _ Hsame).
  - cbn [mbind option_bind]. rewrite Z.add_0_r in Hres.
    destruct (commit_plain t1 str _ Hw1 Hset1 Hlen Hv Hres) as (t2 & r & E2 & Hr & Hw2 & Hset2 & Hs2 & Hat & Hsg).
    rewrite E2. cbn [mbind option_bind]. destruct (Z.ltb_spec r 0); [lia|]. exists r, (set_scanned t2 r).
    split; [done|]. right. split; [done|done| |done|].
    + rewrite Hs2, Hs1. apply decide_fresh; [done|]. unfold fresh_segs. by rewrite Hv.
    + intros i Hi. rewrite Hsg. apply (ss_segs _ _ Hsame).
Qed.

(** A string that is there: the settled table answers without changing. *)
Lemma intern_found t str :
  sym_wf t -> settled t -> str ∈ strings t -> exists r, ray_sym_intern alloc t str = Some (r, t) /\ interned t str r t.
Proof using Type.
  intros Hw Hset Hin. unfold ray_sym_intern, sym_intern_nolock.
  destruct (sym_probe_spec t str Hw) as (r & -> & [[Hr Hat]|[-> Hn]]); [|done]. cbn [mbind option_bind].
  destruct (Z.leb_spec 0 r); [|lia]. unfold sym_cache_segments.
  assert (Hsc : Z.testbit (scanned t) r = true).
  { rewrite <- (Z2Nat.id r) by lia. apply Hset. by apply lookup_lt_Some in Hat. }
  rewrite Hsc. exists r. split; [done|]. split; [done..| |done|done]. destruct (decide _); [by rewrite app_nil_r|done].
Qed.

Lemma intern_total t str :
  sym_wf t -> settled t -> length str < MAX_NAME -> exists r t', ray_sym_intern alloc t str = Some (r, t') /\
    ((r = -1 /\ (str ∉ strings t) /\ sym_wf t' /\ same_syms t t') \/ interned t str r t').
Proof using Halloc.
  intros Hw Hset Hlen. destruct (decide (str ∈ strings t)) as [Hin|Hn].
  - destruct (intern_found t str Hw Hset Hin) as (r & -> & ?). exists r, t. by split; [|right].
  - destruct (intern_new t str Hw Hset Hlen Hn) as (r & t' & -> & [(-> & ? & ?)|?]); eexists _, t'; split; try done; [by left|by right].
Qed.

(** Caching the segments of a name that is in the table. *)
Lemma cache_total t (i : nat) str :
  sym_wf t -> strings t !! i = Some str -> exists ok t', sym_cache_segments alloc t i str = Some (ok, t') /\ sym_wf t' /\
    (if ok : bool then
       Z.testbit (scanned t') i = true /\
       strings t' = strings t ++ (if Z.testbit (scanned t) i then [] else fresh_segs t str)
     else same_syms t t').
Proof using Halloc.
  intros Hw Hs. unfold sym_cache_segments. destruct (Z.testbit (scanned t) i) eqn:Esc.
  { exists true, t. split_and!; [done..|]. by rewrite app_nil_r. }
  assert (Hlen : length str < MAX_NAME).
  { pose proof (sw_names _ Hw) as Hf. rewrite Forall_lookup in Hf. by eapply Hf. }
  assert (Hnone : seg_split str = None -> exists ok t', Some (true, set_scanned t i) = Some (ok, t') /\ sym_wf t' /\
    (if ok : bool then Z.testbit (scanned t') i = true /\ strings t' = strings t ++ fresh_segs t str else same_syms t t')).
  { intros Hsp. exists true, (set_scanned t i). split; [done|]. split; [by eapply set_scanned_wf|].
    rewrite scanned_setbit, bool_decide_true by done. split; [done|]. unfold fresh_segs. rewrite Hsp. by rewrite app_nil_r. }
  destruct (dotted_nsegs str) as [nsegs|] eqn:En; [|apply Hnone; unfold seg_split; by rewrite En].
  destruct (seg_loop_spec t nsegs str (leading_dot str) Hw) as (ds & v & -> & Hds & Hl & Hv). cbn [mbind option_bind].
  apply nsegs_le in En as Hnl.
  assert (Hv' : if v then seg_split str = Some (d_str <$> ds) else seg_split str = None) by (unfold seg_split; by rewrite En).
  destruct v; cbn [negb]; [|by apply Hnone]. clear Hnone Hv.
  assert (Hds' : Forall (fun d => desc_found t d /\ length (d_str d) < MAX_NAME /\ first_seg (d_str d)) ds).
  { pose proof (dotted_segs_first _ _ Hv') as Hf. rewrite Forall_fmap in Hf. rewrite Forall_forall in *.
    intros d Hd. destruct (Hds d Hd) as [[H1 H2 _] H3]. split; [by split|]. split; [lia|by apply Hf]. }
  assert (Hsb : 0 <= segs_bytes nsegs <= 4096) by (rewrite segs_bytes_eq, align_up_le by (unfold SIZE_MAX; lia); lia).
  assert (Hnb : 0 <= new_seg_bytes ds <= 255 * (MAX_NAME + 128)).
  { assert (Forall (fun d => length (d_str d) < MAX_NAME) ds) as Hf%new_seg_bytes_range
      by (eapply Forall_impl; [exact Hds'|]; by intros ? (_ & ? & _)). unfold MAX_NAME in *. lia. }
  assert (Hnew : (length (new_segs ds) <= length ds)%nat) by apply length_filter.
  destruct (sym_reserve_spec t (length (new_segs ds)) (new_seg_bytes ds + segs_bytes nsegs) Hw)
    as (ok & t1 & -> & Hw1 & Hsame & Hres); [lia|unfold MAX_NAME in *; lia|]. cbn [mbind option_bind].
  destruct ok; cbn [negb]; [|by exists false, t1]. specialize (Hres eq_refl). pose proof (ss_strings _ _ Hsame) as Hs1.
  destruct (commit_segs_spec t1 ds 0 (segs_bytes nsegs) Hw1 ltac:(lia)) as (ids & t2 & -> & Hw2 & [Hs2 _ _ _ _] & Hin & Hres2).
  { eapply Forall_impl; [exact Hds'|]. intros d ((? & ?) & ?). split; [|done]. unfold desc_found. by rewrite Hs1. }
  { by rewrite Nat.add_0_r. }
  cbn [mbind option_bind].
  destruct (store_segs_spec t2 i nsegs ids str (d_str <$> ds)) as (t3 & -> & Hw3 & Hs3 & _ & _ & _ & Hsc3);
    [done|rewrite Hs2, Hs1; by apply lookup_app_l_Some|done|done|done|by destruct Hres2|].
  exists true, t3. split; [done|]. split; [done|]. rewrite Hsc3, bool_decide_true by done. split; [done|].
  rewrite Hs3, Hs2, Hs1. f_equal. unfold fresh_segs. rewrite Hv'. apply new_segs_strings.
  eapply Forall_impl; [exact Hds|]. by intros ? [].
Qed.

(** ** Rounding up to a power of two *)
Definition smeared (y n x : Z) : Prop :=
  forall i, 0 <= i -> Z.testbit x i = true <-> exists j, 0 <= j < n /\ Z.testbit y (i + j) = true.

Lemma smear_step y n x : 0 < n -> smeared y n x -> smeared y (2 * n) (smear n x).
Proof using Type.
  intros Hn Hx i Hi. pose proof (Hx i Hi) as H1. pose proof (Hx (i + n) ltac:(lia)) as H2.
  unfold smear. rewrite Z.lor_spec, Z.shiftr_spec, orb_true_iff, H1, H2 by lia. clear H1 H2 Hx. split.
  - intros [(j & ? & ?)|(j & ? & Hj)]; [by exists j; split; [lia|]|]. exists (n + j). split; [lia|]. by rewrite Z.add_assoc.
  - intros (j & ? & Hj). destruct (decide (j < n)); [left; exists j; split; [lia|done]|right]. exists (j - n). split; [lia|].
    by replace (i + n + (j - n)) with (i + j) by lia.
Qed.

Lemma round_up_pow2_eq x : 0 <= x < 2 ^ 32 ->
  round_up_pow2 x = if (1 <=? x) && (x <=? 2 ^ 31) then 2 ^ Z.log2_up x else 0.
Proof using Type.
  intros Hx. unfold round_up_pow2. cbv zeta. pose proof (u32_range (x - 1)) as Hy. set (y := u32 (x - 1)) in *.
  assert (H1 : smeared y 1 y).
  { intros i Hi. split; [intros H; exists 0; split; [lia|]; by rewrite Z.add_0_r|].
    intros (j & ? & Hj). by replace (i + j) with i in Hj by lia. }
  apply (smear_step _ 1), (smear_step _ 2), (smear_step _ 4), (smear_step _ 8), (smear_step _ 16) in H1; [|lia..].
  change (2 * 16) with 32 in H1. revert H1. generalize (smear 16 (smear 8 (smear 4 (smear 2 (smear 1 y))))).
  intros z Hz. destruct (decide (y = 0)) as [Hy0|Hy0].
  { assert (z = 0) as ->. { apply Z.bits_inj'. intros i Hi. rewrite Z.bits_0. apply not_true_iff_false.
      rewrite (Hz i Hi). intros (j & _ & Hj). rewrite Hy0, Z.bits_0 in Hj. done. }
    assert (x = 1) as -> by (unfold y, u32, wrap in Hy0; lia). done. }
  assert (Hl : 0 <= Z.log2 y < 32) by (split; [apply Z.log2_nonneg|]; apply Z.log2_lt_pow2; lia).
  assert (z = Z.ones (Z.log2 y + 1)) as ->.
  { apply Z.bits_inj'. intros i Hi. apply eq_true_iff_eq. rewrite (Hz i Hi).
    rewrite Z.testbit_ones_nonneg, Z.ltb_lt by lia. split.
    - intros (j & ? & Hj). destruct (decide (i < Z.log2 y + 1)); [done|]. rewrite Z.bits_above_log2 in Hj by lia. done.
    - intros Hi1. exists (Z.log2 y - i). split; [lia|]. replace (i + (Z.log2 y - i)) with (Z.log2 y) by lia. apply Z.bit_log2. lia. }
  rewrite Z.ones_equiv. replace (Z.pred (2 ^ (Z.log2 y + 1)) + 1) with (2 ^ (Z.log2 y + 1)) by lia.
  destruct (decide (x = 0)) as [->|Hx0]; [done|].
  assert (Hyx : y = x - 1) by (unfold y; rewrite u32_small; lia).
  assert (Hx1 : 1 < x) by lia. rewrite (Z.log2_up_eqn x) by lia. replace (Z.pred x) with y by lia.
  bif; [|destruct E; [lia|]].
  - apply u32_small. split; [lia|]. apply (Z.pow_lt_mono_r 2 _ 32); [lia..|].
    assert (Z.log2 y < 31) by (apply Z.log2_lt_pow2; lia). lia.
  - assert (Z.log2 y = 31) as -> by (apply Z.log2_unique; lia). done.
Qed.

Lemma round_up_pow2_cases x : 0 <= x < 2 ^ 32 ->
  round_up_pow2 x = 0 \/ exists m : nat, (m <= 31)%nat /\ round_up_pow2 x = 2 ^ m /\ x <= 2 ^ m.
Proof using Type.
  intros Hx. rewrite round_up_pow2_eq by done. bif; [right|by left].
  exists (Z.to_nat (Z.log2_up x)). pose proof (Z.log2_up_nonneg x). rewrite Z2Nat.id by done.
  assert (Z.log2_up x <= 31) by (apply (Z.log2_up_le_pow2 x 31); lia).
  split; [lia|]. split; [done|]. apply Z.log2_up_le_pow2; lia.
Qed.

Lemma ensure_str_cap_spec t needed :
  sym_wf t -> 0 <= needed < 2 ^ 32 -> exists ok t', ensure_str_cap alloc 2 t needed = Some (ok, t') /\ sym_wf t' /\
    grown t t' /\ bucket_cap t' = bucket_cap t /\ (ok = true -> needed <= str_cap t').
Proof using Type.
  intros Hw Hn. remember 1%nat as fuel eqn:Ef. cbn [ensure_str_cap]. bif; [|by exists true, t]. change (UINT32_MAX / 2) with (2 ^ 31 - 1).
  bif; [by exists false, t|]. destruct (sw_strcap _ Hw) as (m & Hm & Hcap). cbv zeta.
  assert (m < 31).
  { apply (Z.pow_lt_mono_r_iff 2); [lia..|]. lia. }
  assert (Hnew : forall c, c = (if str_cap t * 2 <? needed then round_up_pow2 needed else str_cap t * 2) ->
    c = 0 \/ exists k : nat, (8 <= k <= 31)%nat /\ c = 2 ^ k /\ needed <= c).
  { intros c ->. bif.
    - destruct (round_up_pow2_cases needed Hn) as [?|(k & Hk & -> & Hle)]; [by left|right]. exists k.
      split; [|done]. split; [|done]. assert (2 ^ 8 < 2 ^ k); [|assert (8 < k) by (apply (Z.pow_lt_mono_r_iff 2); lia); lia].
      apply Z.lt_le_trans with needed; [|done]. assert (2 ^ 8 <= 2 ^ m) by (apply Z.pow_le_mono_r; lia). lia.
    - right. exists (S m). rewrite Nat2Z.inj_succ, Z.pow_succ_r by lia. lia. }
  destruct (Hnew _ eq_refl) as [->|(k & Hk & Hc & Hle)]; [by exists false, t|]. rewrite Hc in Hle |- *.
  destruct (Z.eqb_spec (2 ^ k) 0); [lia|].
  destruct (sym_grow_str_cap_spec t k Hw Hk) as (ok & t' & -> & Hw' & Hg & Hb & _ & Hok).
  destruct ok; cbn [negb]; [|by exists false, t']. subst fuel. cbn [ensure_str_cap].
  bif; [lia|]. exists true, t'. split_and!; done || lia.
Qed.

Lemma ensure_cap_total t needed :
  sym_wf t -> 0 <= needed < 2 ^ 32 -> exists ok t', ray_sym_ensure_cap alloc t needed = Some (ok, t') /\ sym_wf t' /\
    grown t t' /\ (ok = true -> needed <= str_cap t').
Proof using Type.
  intros Hw Hn. unfold ray_sym_ensure_cap.
  destruct (ensure_str_cap_spec t needed Hw Hn) as (ok & t1 & -> & Hw1 & Hg1 & Hb1 & Hok). cbn [mbind option_bind].
  destruct ok; cbn [negb]; [|by exists false, t1]. specialize (Hok eq_refl). cbv zeta. generalize (raw_buckets needed). intros raw.
  bif; [by exists false, t1|]. bif; [|by exists true, t1].
  destruct (round_up_pow2_cases (u32 (sf_trunc raw)) (u32_range _)) as [Hz|(k & Hk & Hz & _)].
  { pose proof (sw_cap _ Hw1). lia. }
  rewrite Hz in E0 |- *. destruct (ht_grow_to_spec t1 k Hw1) as (ok & t2 & -> & Hw2 & Hg2 & Hs2 & _ & _).
  { split; [lia|]. apply Z.pow_le_mono_r; lia. }
  exists ok, t2. split_and!; [done|done|by etransitivity|]. intros _. lia.
Qed.

(** ** The fresh table *)
Lemma init_some :
  alloc 2048 = true -> alloc 16 = true -> alloc 1048608 = true -> alloc 32 = true -> alloc 4096 = true ->
  is_Some (ray_sym_init alloc).
Proof using Type.
  intros H1 H2 H3 H4 H5. unfold ray_sym_init.
  change (8 * SYM_INIT_CAP) with 2048. change (8 * ((SYM_INIT_CAP + 63) / 64)) with 32.
  change (16 * SYM_INIT_CAP) with 4096. rewrite H1, H4, H5. unfold ray_arena_new, arena_new_chunk.
  change (ARENA_ALIGN_UP (if 1024 * 1024 <? 256 then 256 else 1024 * 1024)) with 1048576.
  change (chunk_hdr + 1048576) with 1048608. rewrite H2, H3. vm_compute. by eexists.
Qed.

Lemma init_table_wf a live :
  arena_wf a live ->
  sym_wf (SymTab (replicate (Z.to_nat SYM_INIT_CAP) 0) [] SYM_INIT_CAP 0 0 (replicate (Z.to_nat SYM_INIT_CAP) []) a).
Proof using Type.
  intros Ha. split; try (unfold bucket_cap, str_count; simpl; done || lia).
  - apply (ht_inv_empty 8).
  - exists 8%nat. split; [lia|done].
  - by exists live.
  - split; cbn [strings dotted scanned]; intros i; rewrite ?Z.bits_0; try done.
    unfold segs_at. cbn [segments]. split; [done|]. change (Z.to_nat SYM_INIT_CAP) with 256%nat.
    destruct (decide (i < 256)%nat).
    + by rewrite lookup_replicate_2.
    + by rewrite lookup_ge_None_2 by (rewrite length_replicate; lia).
Qed.

Lemma init_wf t : ray_sym_init alloc = Some t -> sym_wf t /\ settled t /\ strings t = [[]].
Proof using Halloc.
  unfold ray_sym_init. destruct (alloc (8 * SYM_INIT_CAP)); [|done].
  destruct (ray_arena_new alloc _) as [a|] eqn:Ea; [|done]. cbn [mbind option_bind].
  destruct (_ && _); [|done].
  assert (Hwa : arena_wf a []).
  { revert Ea. unfold ray_arena_new. destruct (alloc 16); [|done].
    change (ARENA_ALIGN_UP _) with 1048576. destruct (arena_new_chunk alloc 1048576) as [c|] eqn:Ec; [|done].
    intros [= <-]. apply (new_chunk_ok alloc Halloc) in Ec as [-> Hc]; [|lia].
    split; simpl; [done|by repeat constructor|lia|done|done|constructor]. }
  pose proof (init_table_wf a [] Hwa) as Hw0. revert Hw0. generalize (replicate (Z.to_nat SYM_INIT_CAP) 0).
  generalize (replicate (A := list Z) (Z.to_nat SYM_INIT_CAP) []). intros sg bk Hw0.
  destruct (intern_total _ [] Hw0) as (r & t' & Hi & Hr); [intros i Hi; simpl in Hi; lia|done|].
  unfold ray_sym_intern in Hi. rewrite Hi. cbn [mbind option_bind].
  destruct (Z.eqb_spec r 0) as [->|]; [|done]. intros [= <-]. destruct Hr as [(Hr & _)|[Hw Hs Hstr _ _]]; [done|].
  split; [done|]. split; [done|]. rewrite Hstr. done.
Qed.
End ops.

(** ** Reachable tables *)

(** The table after any sequence of successful start, interns and
    reservations, with a system allocator that may change between calls. *)
Inductive sym_reachable : sym_table_t -> Prop :=
| reach_init alloc t : (forall n, alloc n = true -> n < 2 ^ 63) -> ray_sym_init alloc = Some t -> sym_reachable t
| reach_intern alloc t str r t' : (forall n, alloc n = true -> n < 2 ^ 63) -> sym_reachable t ->
    length str < MAX_NAME -> ray_sym_intern alloc t str = Some (r, t') -> sym_reachable t'
| reach_ensure alloc t needed ok t' : (forall n, alloc n = true -> n < 2 ^ 63) -> sym_reachable t ->
    0 <= needed < 2 ^ 32 -> ray_sym_ensure_cap alloc t needed = Some (ok, t') -> sym_reachable t'.

Lemma reachable_inv t : sym_reachable t -> sym_wf t /\ settled t /\ strings t !! 0%nat = Some [].
Proof.
  induction 1 as [alloc t Ha Hi|alloc t str r t' Ha _ (Hw & Hs & H0) Hlen Hi|alloc t needed ok t' Ha _ (Hw & Hs & H0) Hn He].
  - destruct (init_wf alloc Ha t Hi) as (? & ? & Hs). by rewrite Hs.
  - destruct (intern_total alloc Ha t str Hw Hs Hlen) as (r' & t1 & Hi' & Hor). rewrite Hi' in Hi. injection Hi as -> ->.
    destruct Hor as [(_ & _ & ? & Hsame)|[? ? Hstr _ _]].
    + split; [done|]. split; [by eapply settled_same|]. by rewrite (ss_strings _ _ Hsame).
    + split; [done|]. split; [done|]. rewrite Hstr. by apply lookup_app_l_Some.
  - destruct (ensure_cap_total alloc t needed Hw Hn) as (ok' & t1 & He' & Hw1 & Hg & _). rewrite He' in He. injection He as -> ->.
    split; [done|]. split; [by eapply settled_same; [apply Hg|]|]. by rewrite (ss_strings _ _ (gr_same _ _ Hg)).
Qed.

Lemma valid_id_spec t id : sym_wf t -> 0 <= id < 2 ^ 32 -> valid_id t id = true <-> (Z.to_nat id < length (strings t))%nat.
Proof.
  intros Hw Hid. unfold valid_id, str_count. rewrite u32_small, andb_true_iff, Z.leb_le, Z.ltb_lt by lia. lia.
Qed.

Lemma nodup_interned t str : NoDup (strings t) -> (forall segs, seg_split str = Some segs -> NoDup segs) ->
  (str ∉ strings t) -> NoDup (strings t ++ fresh_segs t str ++ [str]).
Proof.
  intros Hnd Hseg Hn. unfold fresh_segs. apply NoDup_app. split; [done|]. split.
  - intros s Hs [Hx|Hx]%elem_of_app; [by apply list_elem_of_filter in Hx as [? _]|].
    apply list_elem_of_singleton in Hx as ->. done.
  - destruct (seg_split str) as [segs|] eqn:E; cbn [default from_option id]; [|by apply NoDup_singleton].
    apply NoDup_app. split; [by apply NoDup_filter, Hseg|]. split; [|apply NoDup_singleton].
    intros s [_ Hs]%list_elem_of_filter Hx. apply list_elem_of_singleton in Hx as ->.
    apply seg_split_iff in E as (Hj & Hl & _). apply join_longer in Hs; [|lia]. rewrite <- Hj in Hs. lia.
Qed.

(** * Properties *)

(** C17. Every table reachable by interns and reservations, whatever the
    system allocator grants or refuses, is well-formed and answers
    faithfully: the lookup of any string terminates with an id that names it
    or with -1 exactly when it is absent; an id is reported as dotted exactly
    when its name is a dotted name, and its cached segments are then ids that
    name the parts in order; id 0 is the empty string. *)
Theorem sym_reachable_faithful (t : sym_table_t) (Hr : sym_reachable t) :
  sym_wf t /\ ray_sym_str t 0 = Some (Some []) /\
  (forall str, exists r, ray_sym_find t str = Some r /\
     ((0 <= r < ray_sym_count t /\ ray_sym_str t r = Some (Some str)) \/ (r = -1 /\ (str ∉ strings t)))) /\
  (forall sid str, 0 <= sid < 2 ^ 32 -> ray_sym_str t sid = Some (Some str) ->
     (ray_sym_is_dotted t sid = true <-> exists segs, dotted_name str segs) /\
     (forall segs, dotted_name str segs -> exists ids, ray_sym_segs t sid = Some (Some ids) /\
        Forall2 (fun i s => ray_sym_str t i = Some (Some s)) ids segs)).
Proof.
  destruct (reachable_inv t Hr) as (Hw & Hset & H0). pose proof (sym_id_small t Hw) as Hsm.
  assert (Hstr : forall r str, 0 <= r -> strings t !! Z.to_nat r = Some str -> ray_sym_str t r = Some (Some str)).
  { intros r str Hr0 Hl. apply lookup_lt_Some in Hl as Hlt. unfold ray_sym_str.
    rewrite (proj2 (valid_id_spec t r Hw ltac:(unfold str_count in Hsm; lia))) by done. cbn [negb]. by rewrite Hl. }
  split; [done|]. split; [by apply (Hstr 0)|]. split.
  - intros str. destruct (sym_probe_spec t str Hw) as (r & Hf & [[? Hl]|?]); exists r; (split; [done|]); [left|by right].
    split; [done|]. apply Hstr; [lia|done].
  - intros sid str Hid Hs. unfold ray_sym_is_dotted, ray_sym_segs. unfold ray_sym_str in Hs.
    destruct (valid_id t sid) eqn:Ev; [|done]. apply valid_id_spec in Ev as Hlt; [|done..]. cbn [negb] in *.
    destruct (strings t !! Z.to_nat sid) as [s|] eqn:El; [|done]. injection Hs as ->. rewrite u32_small by done.
    pose proof (mw_settled _ _ _ _ (sw_meta _ Hw) (Z.to_nat sid) str El (Hset _ Hlt)) as Hd. rewrite Z2Nat.id in Hd by lia.
    split; [rewrite Hd; split; intros [segs Hsp]; exists segs; by apply seg_split_iff|].
    intros segs Hsp%seg_split_iff. assert (Hne : segs_at t (Z.to_nat sid) <> []).
    { apply (mw_segs _ _ _ _ (sw_meta _ Hw)). rewrite Z2Nat.id by lia. apply Hd. by exists segs. }
    destruct (mw_ids _ _ _ _ (sw_meta _ Hw) _ str El Hne) as (segs' & Hsp' & Hf). rewrite Hsp in Hsp'. injection Hsp' as <-.
    unfold segs_at in *. destruct (segments t !! Z.to_nat sid) as [ids|]; [|done]. cbn [default from_option id] in *.
    exists ids. split; [by destruct ids|]. eapply Forall2_impl; [exact Hf|]. intros i s' [? ?]. by apply Hstr.
Qed.

(** C28. Interning is total and atomic: it returns the id of the string in
    the next well-formed table, which extends the strings with the missing
    segments of a dotted name and then the name itself, and leaves the cached
    segments of every other id alone; a string already present changes
    nothing; and a failed intern (-1, out of memory) leaves every string,
    bitmap and segment cache exactly as it was. *)
Theorem ray_sym_intern_atomic (alloc : Z -> bool) (t : sym_table_t) (str : list Z)
  (Halloc : forall n, alloc n = true -> n < 2 ^ 63) (Hr : sym_reachable t) (Hl : length str < MAX_NAME) :
  exists r t', ray_sym_intern alloc t str = Some (r, t') /\ sym_wf t' /\
    ((r = -1 /\ (str ∉ strings t) /\ same_syms t t') \/
     (0 <= r /\ strings t' !! Z.to_nat r = Some str /\
      strings t' = strings t ++ (if decide (str ∈ strings t) then [] else fresh_segs t str ++ [str]) /\
      (forall i, (i < length (strings t))%nat -> segs_at t' i = segs_at t i))) /\
    (str ∈ strings t -> t' = t).
Proof.
  destruct (reachable_inv t Hr) as (Hw & Hset & _).
  destruct (decide (str ∈ strings t)) as [Hin|Hn].
  - destruct (intern_found alloc t str Hw Hset Hin) as (r & Hi & [? ? Hs [? ?] ?]). exists r, t.
    split; [done|]. split; [done|]. split; [|done]. right. destruct (decide (str ∈ strings t)); [|done]. done.
  - destruct (intern_new alloc Halloc t str Hw Hset Hl Hn) as (r & t' & Hi & [(-> & ? & ?)|[? ? Hs [? ?] ?]]);
      eexists _, t'; (split; [done|]); (split; [done|]); (split; [|done]); [by left|right].
    destruct (decide (str ∈ strings t)); [done|]. done.
Qed.

(** The scan of a name's dots finds its structure exactly: for every
    table the inspection terminates and calls the name dotted precisely when
    it is two to 255 segments joined by dots, none empty and none with a dot
    of its own except a leading dot of the first, and it then describes
    exactly these segments, each with its id or as missing. *)
Theorem sym_inspect_dotted (t : sym_table_t) (str : list Z) (Hw : sym_wf t) (Hl : length str < MAX_NAME) :
  exists nsegs ds v, sym_inspect t str = Some (nsegs, ds, v) /\
    (v = true <-> exists segs, dotted_name str segs) /\
    (v = true -> dotted_name str (d_str <$> ds) /\ nsegs = length ds) /\
    Forall (desc_ok t) ds.
Proof.
  destruct (sym_inspect_spec t str Hw Hl) as (nsegs & ds & v & Hi & Hds & _ & _ & Hv). exists nsegs, ds, v.
  split; [done|]. split; [|split].
  - destruct v; split; try done.
    + intros _. exists (d_str <$> ds). by apply seg_split_iff.
    + intros [segs Hsp%seg_split_iff]. congruence.
  - intros ->. split; [by apply seg_split_iff|]. unfold sym_inspect in Hi. unfold seg_split in Hv.
    destruct (dotted_nsegs str) as [n|] eqn:En; [|done]. destruct (split_sound _ _ _ En Hv) as [_ Hlen].
    destruct (seg_loop t n str _) as [[? ?]|]; [|done]. cbn in Hi. injection Hi as -> -> ->. by rewrite length_fmap in Hlen.
  - eapply Forall_impl; [exact Hds|]. by intros ? [].
Qed.

(** Ids are unique as long as no dotted name repeats a segment: interning
    keeps the strings of a reachable table pairwise distinct when the
    segments of the name are.  The condition is needed: a fresh [a.a] enters
    the segment [a] twice. *)
Theorem intern_keeps_distinct (alloc : Z -> bool) (t t' : sym_table_t) (str : list Z) (r : Z)
  (Halloc : forall n, alloc n = true -> n < 2 ^ 63) (Hr : sym_reachable t) (Hl : length str < MAX_NAME)
  (Hnd : NoDup (strings t)) (Hseg : forall segs, dotted_name str segs -> NoDup segs)
  (Hi : ray_sym_intern alloc t str = Some (r, t')) : NoDup (strings t').
Proof.
  destruct (reachable_inv t Hr) as (Hw & Hset & _).
  destruct (intern_total alloc Halloc t str Hw Hset Hl) as (r' & t1 & Hi' & Hor). rewrite Hi' in Hi. injection Hi as -> ->.
  destruct Hor as [(_ & _ & _ & Hs)|[_ _ Hs _ _]]; [by rewrite (ss_strings _ _ Hs)|]. rewrite Hs.
  destruct (decide _) as [|Hn]; [by rewrite app_nil_r|]. apply nodup_interned; [done| |done].
  intros segs Hsp%seg_split_iff. by apply Hseg.
Qed.

Definition no_table : sym_table_t := SymTab [] [] 0 0 0 [] (Arena [] 0).
Definition table_0 : sym_table_t := default no_table (ray_sym_init alloc_1T).
Definition name_aa : list Z := [97; 46; 97].
Definition name_ab : list Z := [97; 46; 98].
Definition table_ab : sym_table_t := default no_table (snd <$> ray_sym_intern alloc_1T table_0 name_ab).

Lemma alloc_1T_small n : alloc_1T n = true -> n < 2 ^ 63.
Proof. unfold alloc_1T. intros Hn%Z.ltb_lt. lia. Qed.

Lemma table_0_reachable : sym_reachable table_0.
Proof. apply (reach_init alloc_1T); [apply alloc_1T_small|by vm_compute]. Qed.

Lemma table_ab_reachable : sym_reachable table_ab.
Proof.
  apply (reach_intern alloc_1T table_0 name_ab 3); [apply alloc_1T_small|apply table_0_reachable|done|by vm_compute].
Qed.

(** The strings after interning a fresh name with a repeated segment. *)
Lemma intern_repeated_segment :
  (strings ∘ snd <$> ray_sym_intern alloc_1T table_0 name_aa) = Some [[]; [97]; [97]; name_aa].
Proof. by vm_compute. Qed.

(** The id is cut to 32 bits for the bounds test but not for the access. *)
Lemma ray_sym_str_truncates t : 0 < str_count t < 2 ^ 32 -> ray_sym_str t (2 ^ 32) = None.
Proof.
  intros Ht. unfold ray_sym_str, valid_id. change (u32 (2 ^ 32)) with 0.
  destruct (Z.ltb_spec 0 (str_count t)); [|lia]. cbn [negb andb Z.leb]. change (0 <=? 2 ^ 32) with true. cbn [negb andb].
  rewrite lookup_ge_None_2; [done|]. unfold str_count in *. lia.
Qed.

(** Reserving capacity always terminates, keeps the table well-formed
    and what it holds unchanged, shrinks nothing, and on success leaves room
    for the requested number of strings; the bit-smearing round-up it uses is
    the least power of two at or above its argument, up to [2^31]. *)
Theorem ray_sym_ensure_cap_spec (alloc : Z -> bool) (t : sym_table_t) (needed : Z)
  (Hw : sym_wf t) (Hn : 0 <= needed < 2 ^ 32) :
  (exists ok t', ray_sym_ensure_cap alloc t needed = Some (ok, t') /\ sym_wf t' /\ same_syms t t' /\
    bucket_cap t <= bucket_cap t' /\ str_cap t <= str_cap t' /\ (ok = true -> needed <= str_cap t')) /\
  round_up_pow2 needed = if (1 <=? needed) && (needed <=? 2 ^ 31) then 2 ^ Z.log2_up needed else 0.
Proof.
  split; [|by apply round_up_pow2_eq].
  destruct (ensure_cap_total alloc t needed Hw Hn) as (ok & t' & He & Hw' & [? ? ?] & Hok). by exists ok, t'.
Qed.

(** ** Witnesses *)
Lemma sym_reachable_faithful_witness :
  sym_reachable table_ab /\ sym_wf table_ab /\ ray_sym_str table_ab 0 = Some (Some []).
Proof.
  split; [exact table_ab_reachable|].
  destruct (sym_reachable_faithful table_ab table_ab_reachable) as (Hw & H0 & _). split; assumption.
Defined.

Lemma ray_sym_intern_atomic_witness :
  exists r t', ray_sym_intern alloc_1T table_ab name_aa = Some (r, t') /\ sym_wf t' /\
    ((r = -1 /\ (name_aa ∉ strings table_ab) /\ same_syms table_ab t') \/
     (0 <= r /\ strings t' !! Z.to_nat r = Some name_aa /\
      strings t' = strings table_ab ++ (if decide (name_aa ∈ strings table_ab) then [] else fresh_segs table_ab name_aa ++ [name_aa]) /\
      (forall i, (i < length (strings table_ab))%nat -> segs_at t' i = segs_at table_ab i))) /\
    (name_aa ∈ strings table_ab -> t' = table_ab).
Proof. apply (ray_sym_intern_atomic alloc_1T table_ab name_aa alloc_1T_small table_ab_reachable). reflexivity. Defined.

Lemma sym_inspect_dotted_witness :
  exists nsegs ds v, sym_inspect table_ab name_aa = Some (nsegs, ds, v) /\
    (v = true <-> exists segs, dotted_name name_aa segs) /\
    (v = true -> dotted_name name_aa (d_str <$> ds) /\ nsegs = length ds) /\
    Forall (desc_ok table_ab) ds.
Proof.
  apply (sym_inspect_dotted table_ab name_aa); [exact (proj1 (reachable_inv _ table_ab_reachable))|reflexivity].
Defined.

Lemma name_ab_segs segs : dotted_name name_ab segs -> NoDup segs.
Proof.
  intros H%seg_split_iff. vm_compute in H. injection H as <-. apply (bool_decide_eq_true_1 _). by vm_compute.
Qed.

Lemma intern_keeps_distinct_witness : NoDup (strings table_0) /\ NoDup (strings table_ab).
Proof.
  assert (H0 : NoDup (strings table_0)) by (apply (bool_decide_eq_true_1 _); vm_compute; reflexivity).
  split; [exact H0|].
  apply (intern_keeps_distinct alloc_1T table_0 table_ab name_ab 3 alloc_1T_small table_0_reachable);
    [reflexivity|exact H0|exact name_ab_segs|vm_compute; reflexivity].
Defined.

Lemma ray_sym_ensure_cap_spec_witness :
  (exists ok t', ray_sym_ensure_cap alloc_1T table_ab 1000 = Some (ok, t') /\ sym_wf t' /\ same_syms table_ab t' /\
    bucket_cap table_ab <= bucket_cap t' /\ str_cap table_ab <= str_cap t' /\ (ok = true -> 1000 <= str_cap t')) /\
  round_up_pow2 1000 = if (1 <=? 1000) && (1000 <=? 2 ^ 31) then 2 ^ Z.log2_up 1000 else 0.
Proof.
  apply (ray_sym_ensure_cap_spec alloc_1T table_ab 1000); [exact (proj1 (reachable_inv _ table_ab_reachable))|lia].
Defined.
