(* ===== verification/WireLz.v ===== *)
(** * Message compression ([src/qlang/net/q_wire.c], [q_wire_compress],
    [q_wire_uncompress_payload])

    The LZ scheme of large IPC messages.  Positions are [nat]; an access
    outside an array, or a read of a byte that was never written, is [None],
    as is running out of the fuel of a loop.  The output buffer of the
    decoder is the list of the bytes written so far. *)
From Stdlib Require Import ZArith Lia.
From S2P Require Import Prelude.
From Stdlib Require Import Zify ZifyNat.
#[local] Ltac Zify.zify_post_hook ::= Z.to_euclidean_division_equations.

Definition Q_WIRE_MSG_MAX : Z := 2147483647.

(** The error codes the codec signals. *)
Inductive q_err := | QE_TYPE | QE_LENGTH | QE_RANK | QE_DOMAIN | QE_PARSE | QE_LIMIT | QE_NYI | QE_ASSIGN
  | QE_CAST | QE_VALUE | QE_FROM | QE_COND | QE_MATCH | QE_MISMATCH | QE_INSERT | QE_LOOP | QE_STACK | QE_STOP
  | QE_STYPE | QE_NOAMEND | QE_SPLAY | QE_PAR | QE_PART | QE_STEP | QE_DUP | QE_RESTRICTED | QE_ACCESS | QE_OS
  | QE_CONN | QE_WSFULL | QE_BADTAIL | QE_SFAIL | QE_UFAIL | QE_PARAMS | QE_OOM | QE_IO | QE_NAME | QE_INDEX
  | QE_RESERVE | QE_INIT | QE_RANGE | QE_SCHEMA | QE_CORRUPT | QE_CANCEL | QE_VERSION | QE_DUCKDB | QE_REGEX
  | QE_OPTION | QE_CSV | QE_PRINTF | QE_FORMAT | QE_BADFUNC | QE_THREADS | QE_NOFORK | QE_FORK | QE_PROC
  | QE_SIGNAL | QE_RETURN.

(** ** Compression *)
Record lz_state := Lz {
  l_z : list Z; l_i : Z; l_f : Z; l_h0 : Z; l_h : Z;
  l_c : nat; l_d : nat; l_s0 : nat; l_s : nat; l_a : list nat }.

(** [while (y[p] == y[s] && ++s < q) ++p]; the final [s]. *)
Fixpoint lz_match (fuel : nat) (y : list Z) (p s q : nat) : option nat :=
  match fuel with
  | O => None
  | S fuel =>
      yp ← y !! p; ys ← y !! s;
      if yp =? ys then
        if (S s <? q)%nat then lz_match fuel y (S p) (S s) q else Some (S s)
      else Some s
  end.

(** The block at [i == 0]: [Some None] is the give-up path. *)
Definition lz_group (e : nat) (st : lz_state) : option (option lz_state) :=
  if l_i st =? 0 then
    if (e - 17 <? l_d st)%nat then Some None
    else
      z ← aset (l_z st) (l_c st) (u8 (l_f st));
      Some (Some (Lz z 1 0 (l_h0 st) (l_h st) (l_d st) (S (l_d st)) (l_s0 st) (l_s st) (l_a st)))
  else Some (Some st).

(** The hash of the next pair, its last position and the test [g]. *)
Definition lz_probe (y : list Z) (st : lz_state) : option (Z * nat * bool) :=
  if (length y - 3 <? l_s st)%nat then Some (l_h st, 0%nat, true)
  else
    y0 ← y !! l_s st; y1 ← y !! S (l_s st);
    let h := u8 (Z.lxor y0 y1) in
    p ← l_a st !! Z.to_nat h;
    if (p =? 0)%nat then Some (h, p, true)
    else yp ← y !! p; Some (h, p, negb (Z.lxor y0 yp =? 0)).

Definition lz_token (y : list Z) (st : lz_state) : option lz_state :=
  '(h, p, g) ← lz_probe y st;
  a ← (if (0 <? l_s0 st)%nat then aset (l_a st) (Z.to_nat (l_h0 st)) (l_s0 st) else Some (l_a st));
  let i := u8 (l_i st * 2) in
  if g : bool then
    b ← y !! l_s st;
    z ← aset (l_z st) (l_d st) b;
    Some (Lz z i (l_f st) h h (l_c st) (S (l_d st)) (l_s st) (S (l_s st)) a)
  else
    a ← aset a (Z.to_nat h) (l_s st);
    let r := (l_s st + 2)%nat in
    s ← lz_match (length y) y (p + 2) r (Nat.min (r + 255) (length y));
    z ← aset (l_z st) (l_d st) h;
    z ← aset z (S (l_d st)) (u8 (s - r)%nat);
    Some (Lz z i (Z.lor (l_f st) (l_i st)) (l_h0 st) h (l_c st) (S (S (l_d st))) 0 s a).

Fixpoint lz_loop (fuel : nat) (y : list Z) (e : nat) (st : lz_state) : option (option lz_state) :=
  match fuel with
  | O => None
  | S fuel =>
      if (l_s st <? length y)%nat then
        st ← lz_group e st;
        match st with
        | None => Some None
        | Some st => st ← lz_token y st; lz_loop fuel y e st
        end
      else Some (Some st)
  end.

(** [z[at + (be ? 3 : 0)] = (uint8_t)v; ...]: [v] in the frame's byte order. *)
Definition put_u32 (be : bool) (at_ : nat) (v : Z) (z : list Z) : option (list Z) :=
  z ← aset z (at_ + (if be then 3 else 0)) (u8 v);
  z ← aset z (at_ + (if be then 2 else 1)) (u8 (Z.shiftr v 8));
  z ← aset z (at_ + (if be then 1 else 2)) (u8 (Z.shiftr v 16));
  aset z (at_ + (if be then 0 else 3)) (u8 (Z.shiftr v 24)).

(** The frame that is sent: the compressed one, or [y] itself.  [mem] is the
    [e] bytes the allocator returns, whatever they hold. *)
Definition q_wire_compress (mem : option (list Z)) (y : list Z) : option (q_err + list Z) :=
  let t := length y in
  if (t <=? 8 + 2000)%nat then Some (inr y)
  else
    y0 ← y !! 0%nat;
    let be := y0 =? 0 in
    let e := (t / 2)%nat in
    match mem with
    | None => Some (inl QE_WSFULL)
    | Some mem =>
        let z := take 4 y ++ drop 4 mem in
        z ← aset z 2 1;
        z ← put_u32 be 8 (Z.of_nat t) z;
        st ← lz_loop (S t) y e (Lz z 0 0 0 0 12 12 0 8 (replicate 256 0%nat));
        match st with
        | None => Some (inr y)
        | Some st =>
            z ← aset (l_z st) (l_c st) (u8 (l_f st));
            z ← put_u32 be 4 (Z.of_nat (l_d st)) z;
            Some (inr (take (l_d st) z))
        end
    end.

(** ** Decompression *)
Record unlz_state := Unlz {
  u_dst : list Z; u_n : nat; u_f : Z; u_s : nat; u_p : nat; u_d : nat; u_i : Z; u_aa : list nat }.

(** [for (m = 0; m < n; m++) dst[s + m] = dst[r + m]]. *)
Fixpoint copy_back (n : nat) (dst : list Z) (r : nat) : option (list Z) :=
  match n with
  | O => Some dst
  | S n => x ← dst !! r; copy_back n (dst ++ [x]) (S r)
  end.

(** [while (p < s - 1) { aa[dst[p] ^ dst[p + 1]] = p; p++; }] over [k] positions. *)
Fixpoint index_pairs (k : nat) (dst : list Z) (p : nat) (aa : list nat) : option (list nat) :=
  match k with
  | O => Some aa
  | S k =>
      x ← dst !! p; y ← dst !! S p;
      aa ← aset aa (Z.to_nat (Z.lxor x y)) p;
      index_pairs k dst (S p) aa
  end.

(** One token: a back reference or a literal.  [Some None] is [corrupt]. *)
Definition unlz_token (pl : list Z) (usz : nat) (st : unlz_state) : option (option unlz_state) :=
  let plen := length pl in
  let back := negb (Z.land (u_f st) (u_i st) =? 0) in
  let fin (dst : list Z) (n s d : nat) :=
    let k := (s - 1 - u_p st)%nat in
    aa ← index_pairs k dst (u_p st) (u_aa st);
    let i := u_i st * 2 in
    let i := if i =? 256 then 0 else i in
    Some (Some (if back then Unlz dst n (u_f st) (s + n) (s + n) d i aa
                else Unlz dst n (u_f st) s (u_p st + k) d i aa)) in
  if back then
    if (plen <=? u_d st)%nat || (usz <? u_s st + 2)%nat then Some None
    else
      h ← pl !! u_d st;
      r ← u_aa st !! Z.to_nat h;
      dst ← copy_back 2 (u_dst st) r;
      if (plen <=? S (u_d st))%nat then Some None
      else
        n ← pl !! S (u_d st);
        let n := Z.to_nat n in
        if (usz <? u_s st + 2 + n)%nat then Some None
        else
          dst ← copy_back n dst (r + 2);
          fin dst n (u_s st + 2)%nat (u_d st + 2)%nat
  else
    if (plen <=? u_d st)%nat then Some None
    else b ← pl !! u_d st; fin (u_dst st ++ [b]) (u_n st) (S (u_s st)) (S (u_d st)).

Fixpoint unlz_loop (fuel : nat) (pl : list Z) (usz : nat) (st : unlz_state) : option (q_err + list Z) :=
  match fuel with
  | O => None
  | S fuel =>
      if (u_s st <? usz)%nat then
        if (u_i st =? 0) && (length pl <=? u_d st)%nat then Some (inl QE_DOMAIN)
        else
          st ← (if u_i st =? 0 then
                  f ← pl !! u_d st; Some (Unlz (u_dst st) (u_n st) f (u_s st) (u_p st) (S (u_d st)) 1 (u_aa st))
                else Some st);
          st ← unlz_token pl usz st;
          match st with
          | None => Some (inl QE_DOMAIN)
          | Some st => unlz_loop fuel pl usz st
          end
      else if (u_d st =? length pl)%nat then Some (inr (drop 8 (u_dst st))) else Some (inl QE_DOMAIN)
  end.

Definition get_u32 (be : bool) (pl : list Z) : Z :=
  if be then be_load (take 4 pl) else le_load (take 4 pl).

Definition q_wire_uncompress_payload (alloc_ok : bool) (pl : list Z) (frame_be : bool) : option (q_err + list Z) :=
  let plen := Z.of_nat (length pl) in
  if plen <? 6 then Some (inl QE_DOMAIN)
  else
    let usz := get_u32 frame_be pl in
    if (usz <? 9) || (Q_WIRE_MSG_MAX <? usz) then Some (inl QE_DOMAIN)
    else if (plen - 4) / 2 * 257 <? usz - 8 then Some (inl QE_DOMAIN)
    else if negb alloc_ok then Some (inl QE_WSFULL)
    else
      unlz_loop (S (Z.to_nat usz)) pl (Z.to_nat usz)
        (Unlz (replicate 8 0) 0 0 8 8 4 0 (replicate 256 0%nat)).

(** * Lemmas *)
Lemma aset_some {A} (l : list A) i v : (i < length l)%nat -> aset l i v = Some (<[i := v]> l).
Proof. intros. unfold aset. bif; [done|lia]. Qed.

Lemma aset_inv {A} (l : list A) i v l' : aset l i v = Some l' -> (i < length l)%nat /\ l' = <[i := v]> l.
Proof. unfold aset. bif; [by intros [= <-]|done]. Qed.

Lemma lookup_byte (l : list Z) i : bytes_ok l -> (i < length l)%nat -> exists b, l !! i = Some b /\ byte_ok b.
Proof. intros Hl [b Hb]%lookup_lt_is_Some. exists b. split; [done|]. by eapply Forall_lookup_1 in Hb. Qed.

Lemma lxor_byte_ok a b : byte_ok a -> byte_ok b -> byte_ok (Z.lxor a b).
Proof. apply (lxor_range 8). lia. Qed.

Lemma flag_test (k : nat) f : (k < 8)%nat -> byte_ok f -> (Z.land f (2 ^ k) =? 0) = (f mod 2 ^ (k + 1) <? 2 ^ k).
Proof. intros Hk Hf. do 8 (destruct k as [|k]; [byte_exhaust Hf|]). lia. Qed.

Lemma next_flag (k : nat) : (k < 8)%nat -> (if 2 ^ k * 2 =? 256 then 0 else 2 ^ k * 2) = u8 (2 ^ k * 2).
Proof. intros Hk. do 8 (destruct k as [|k]; [done|]). lia. Qed.

Lemma bytes_ok_snoc l b : bytes_ok l -> byte_ok b -> bytes_ok (l ++ [b]).
Proof. intros. apply Forall_app. split; [done|]. by constructor. Qed.

Lemma copy_back_spec n dst r :
  (r < length dst)%nat -> exists x, copy_back n dst r = Some (dst ++ x) /\ length x = n.
Proof.
  revert dst r. induction n as [|n IH]; intros dst r Hr; [exists []; by rewrite app_nil_r|].
  cbn [copy_back]. destruct (lookup_lt_is_Some_2 dst r Hr) as [b ->]. cbn [mbind option_bind].
  destruct (IH (dst ++ [b]) (S r)) as (x & -> & Hx); [rewrite length_app; simpl; lia|].
  exists (b :: x). rewrite <- app_assoc. split; [done|]. simpl. by rewrite Hx.
Qed.

Lemma copy_back_bytes n dst r x : bytes_ok dst -> copy_back n dst r = Some x -> bytes_ok x.
Proof.
  revert dst r. induction n as [|n IH]; intros dst r Hd; cbn [copy_back]; [by intros [= <-]|].
  destruct (dst !! r) as [b|] eqn:Eb; [|done]. apply IH. apply Forall_app. split; [done|].
  constructor; [|done]. by eapply Forall_lookup_1 in Eb.
Qed.

(** The index holds positions below [lim]. *)
Definition index_ok (lim : nat) (aa : list nat) : Prop := length aa = 256%nat /\ Forall (fun p => (p < lim)%nat) aa.

Lemma index_ok_lookup lim aa h : index_ok lim aa -> byte_ok h ->
  exists p, aa !! Z.to_nat h = Some p /\ (p < lim)%nat.
Proof.
  intros [Hl Hf] Hh. unfold byte_ok in Hh. destruct (lookup_lt_is_Some_2 aa (Z.to_nat h)) as [p Hp]; [lia|].
  exists p. split; [done|]. exact (Forall_lookup_1 _ _ _ _ Hf Hp).
Qed.

Lemma index_ok_mono lim lim' aa : (lim <= lim')%nat -> index_ok lim aa -> index_ok lim' aa.
Proof. intros Hle [Hl Hf]. split; [done|]. eapply Forall_impl; [exact Hf|]. simpl. lia. Qed.

Lemma index_ok_insert lim aa h p : index_ok lim aa -> (p < lim)%nat -> index_ok lim (<[h := p]> aa).
Proof. intros [Hl Hf] Hp. split; [by rewrite length_insert|]. by apply Forall_insert. Qed.

Lemma index_pairs_spec k dst p aa lim :
  bytes_ok dst -> (p + k < length dst)%nat \/ k = 0%nat -> index_ok lim aa -> (p + k <= lim)%nat ->
  exists aa', index_pairs k dst p aa = Some aa' /\ index_ok lim aa'.
Proof.
  revert p aa. induction k as [|k IH]; intros p aa Hd Hp Ha Hlim; [by exists aa|]. cbn [index_pairs].
  destruct (lookup_byte dst p Hd) as (x & -> & Hx); [lia|].
  destruct (lookup_byte dst (S p) Hd) as (y & -> & Hy); [lia|]. cbn [mbind option_bind].
  pose proof (lxor_byte_ok x y Hx Hy) as Hxy. unfold byte_ok in Hxy.
  rewrite aset_some by (destruct Ha; lia). cbn [mbind option_bind].
  apply IH; [done|lia| |lia]. apply index_ok_insert; [done|lia].
Qed.

(** ** The decoder never leaves its buffers *)
Record unlz_wf (usz : nat) (st : unlz_state) : Prop := {
  uw_dst : length (u_dst st) = u_s st;
  uw_bytes : bytes_ok (u_dst st);
  uw_s : (8 <= u_s st)%nat;
  uw_usz : (u_s st <= usz)%nat;
  uw_p : (u_p st <= u_s st)%nat;
  uw_aa : index_ok (u_s st) (u_aa st) }.

Lemma unlz_token_safe pl usz st :
  bytes_ok pl -> unlz_wf usz st -> (u_s st < usz)%nat ->
  unlz_token pl usz st = Some None \/
  exists st', unlz_token pl usz st = Some (Some st') /\ unlz_wf usz st' /\ (u_s st < u_s st')%nat.
Proof.
  intros Hpl [Hd Hb H8 Hu Hp Ha] Hs. unfold unlz_token. cbv zeta.
  destruct (negb (Z.land (u_f st) (u_i st) =? 0)).
  - bif; [by left|]. destruct (lookup_byte pl (u_d st) Hpl) as (h & -> & Hh); [lia|]. cbn [mbind option_bind].
    destruct (index_ok_lookup _ _ h Ha Hh) as (r & -> & Hr). cbn [mbind option_bind].
    destruct (copy_back_spec 2 (u_dst st) r) as (x & Hx & Hlx); [lia|]. pose proof (copy_back_bytes _ _ _ _ Hb Hx) as Hbx.
    rewrite Hx. cbn [mbind option_bind]. bif; [by left|].
    destruct (lookup_byte pl (S (u_d st)) Hpl) as (n & -> & Hn); [lia|]. cbn [mbind option_bind]. bif; [by left|].
    assert (Hl2 : length (u_dst st ++ x) = (u_s st + 2)%nat) by (rewrite length_app; lia).
    destruct (copy_back_spec (Z.to_nat n) (u_dst st ++ x) (r + 2)) as (x' & Hx' & Hlx'); [lia|].
    pose proof (copy_back_bytes _ _ _ _ Hbx Hx') as Hbx'. rewrite Hx'. cbn [mbind option_bind].
    assert (Hl3 : length ((u_dst st ++ x) ++ x') = (u_s st + 2 + Z.to_nat n)%nat) by (rewrite length_app; lia).
    destruct (index_pairs_spec (u_s st + 2 - 1 - u_p st) ((u_dst st ++ x) ++ x') (u_p st) (u_aa st) (u_s st + 2))
      as (aa & -> & Haa); [done|lia|by eapply index_ok_mono; [|done]; lia|lia|]. cbn [mbind option_bind].
    right. eexists. split; [done|]. split; [|simpl; lia].
    split; simpl; [lia|done|lia|lia|lia|]. by eapply index_ok_mono; [|done]; lia.
  - bif; [by left|]. destruct (lookup_byte pl (u_d st) Hpl) as (b & -> & Hbb); [lia|]. cbn [mbind option_bind].
    assert (Hl : length (u_dst st ++ [b]) = S (u_s st)) by (rewrite length_app; simpl; lia).
    destruct (index_pairs_spec (S (u_s st) - 1 - u_p st) (u_dst st ++ [b]) (u_p st) (u_aa st) (S (u_s st)))
      as (aa & -> & Haa); [by apply bytes_ok_snoc|lia|by eapply index_ok_mono; [|done]; lia|lia|].
    cbn [mbind option_bind]. right. eexists. split; [done|]. split; [|simpl; lia].
    split; simpl; [lia| |lia|lia|lia|done]. by apply bytes_ok_snoc.
Qed.

Lemma unlz_loop_safe fuel pl usz st :
  bytes_ok pl -> unlz_wf usz st -> (usz - u_s st < fuel)%nat ->
  exists r, unlz_loop fuel pl usz st = Some r /\
    match r with inl e => e = QE_DOMAIN | inr x => length x = (usz - 8)%nat /\ bytes_ok x end.
Proof.
  intros Hpl. revert st. induction fuel as [|fuel IH]; intros st Hw Hf; [lia|]. cbn [unlz_loop]. bif.
  - bif; [by exists (inl QE_DOMAIN)|].
    assert (Hst : exists st1, (if u_i st =? 0 then
                  f ← pl !! u_d st; Some (Unlz (u_dst st) (u_n st) f (u_s st) (u_p st) (S (u_d st)) 1 (u_aa st))
                else Some st) = Some st1 /\ unlz_wf usz st1 /\ u_s st1 = u_s st).
    { destruct (Z.eqb_spec (u_i st) 0) as [Hi|Hi]; [|by exists st].
      destruct E0 as [E0|E0]; [done|]. bprop. destruct (lookup_byte pl (u_d st) Hpl E0) as (f & -> & _).
      cbn [mbind option_bind]. eexists. split; [done|]. split; [|done]. by destruct Hw. }
    destruct Hst as (st1 & -> & Hw1 & Hs1). cbn [mbind option_bind].
    destruct (unlz_token_safe pl usz st1 Hpl Hw1) as [->|(st2 & -> & Hw2 & Hs2)]; [lia| |]; cbn [mbind option_bind].
    + by exists (inl QE_DOMAIN).
    + apply IH; [done|lia].
  - bif; [|by exists (inl QE_DOMAIN)]. exists (inr (drop 8 (u_dst st))). split; [done|].
    destruct Hw as [Hd Hb ? ? _ _]. split; [rewrite length_drop; lia|]. by apply Forall_drop.
Qed.

Lemma unlz_init_wf usz : (8 <= usz)%nat -> unlz_wf usz (Unlz (replicate 8 0) 0 0 8 8 4 0 (replicate 256 0%nat)).
Proof.
  intros. split; cbn [u_dst u_s u_p u_aa]; [done| |lia|lia|lia|].
  - apply Forall_replicate. unfold byte_ok. lia.
  - split; [done|]. apply Forall_replicate. lia.
Qed.

(** ** The encoder: one token *)
Section encoder.
Context (y : list Z) (Hy : bytes_ok y) (e : nat).
#[local] Abbreviation t := (length y).

Lemma lz_match_spec fuel p s q :
  (p < s)%nat -> (s < q)%nat -> (q <= t)%nat -> (q - s <= fuel)%nat ->
  exists s', lz_match fuel y p s q = Some s' /\ (s <= s' <= q)%nat /\
    forall m, (m < s' - s)%nat -> y !! (p + m)%nat = y !! (s + m)%nat.
Proof using Hy.
  revert p s. induction fuel as [|fuel IH]; intros p s Hp Hs Hq Hf; [lia|]. cbn [lz_match].
  destruct (lookup_byte y p Hy) as (yp & Hyp & _); [lia|]. destruct (lookup_byte y s Hy) as (ys & Hys & _); [lia|].
  rewrite Hyp, Hys. cbn [mbind option_bind]. bif; [|exists s; split; [done|]; split; [lia|]; intros; lia]. subst yp. bif.
  - destruct (IH (S p) (S s)) as (s' & -> & ? & Hm); [lia..|]. exists s'. split; [done|]. split; [lia|].
    intros m Hlt. destruct m as [|m]; [rewrite !Nat.add_0_r; congruence|].
    replace (p + S m)%nat with (S p + m)%nat by lia. replace (s + S m)%nat with (S s + m)%nat by lia. apply Hm. lia.
  - exists (S s). split; [done|]. split; [lia|]. intros m Hlt. replace m with 0%nat by lia. rewrite !Nat.add_0_r. congruence.
Qed.

(** The pair of bytes at [p] has hash [h]. *)
Definition pair_at (p : nat) (h : Z) : Prop :=
  exists y0 y1, y !! p = Some y0 /\ y !! S p = Some y1 /\ byte_ok y0 /\ byte_ok y1 /\ h = Z.lxor y0 y1.

(** Positions in the table of the encoder: none, or inside the payload. *)
Definition table_ok (lim : nat) (a : list nat) : Prop :=
  index_ok lim a /\ Forall (fun p => p = 0%nat \/ (8 <= p)%nat) a.

(** Each position is filed under the hash of its pair. *)
Definition hashed (a : list nat) : Prop :=
  forall h p, byte_ok h -> a !! Z.to_nat h = Some p -> p = 0%nat \/ pair_at p h.

Inductive flag_ok (c d : nat) (f : Z) : Z -> Prop :=
| flag_full : (d <= e)%nat -> (c < d \/ d = 12)%nat -> byte_ok f -> flag_ok c d f 0
| flag_open (k : nat) : (k < 8)%nat -> (d + 16 <= e + 2 * k)%nat -> (c < d)%nat -> 0 <= f < 2 ^ k -> flag_ok c d f (2 ^ k).

Record lz_wf (st : lz_state) : Prop := {
  lw_z : length (l_z st) = e;
  lw_c : (12 <= l_c st <= l_d st)%nat;
  lw_flag : flag_ok (l_c st) (l_d st) (l_f st) (l_i st);
  lw_s : (8 <= l_s st <= t)%nat;
  lw_s0 : l_s0 st = 0%nat \/ (8 <= l_s0 st)%nat /\ S (l_s0 st) = l_s st;
  lw_h0 : (0 < l_s0 st)%nat -> byte_ok (l_h0 st);
  lw_h : (l_s st + 3 <= t)%nat \/ byte_ok (l_h st);
  lw_a : table_ok (l_s st) (l_a st);
  lw_hashed : (l_s st + 3 <= t)%nat -> hashed (l_a st) /\ ((0 < l_s0 st)%nat -> pair_at (l_s0 st) (l_h0 st)) }.

Lemma pow2_neq0 (k : nat) : (2 ^ k =? 0) = false.
Proof using Type. apply Z.eqb_neq. pose proof (Z.pow_pos_nonneg 2 k). lia. Qed.

Lemma lz_group_spec st : lz_wf st ->
  lz_group e st = Some None \/
  exists g, lz_group e st = Some (Some g) /\ lz_wf g /\ l_i g <> 0 /\
    l_s g = l_s st /\ l_s0 g = l_s0 st /\ l_h0 g = l_h0 st /\ l_a g = l_a st /\
    (if l_i st =? 0 then l_i g = 1 /\ l_f g = 0 /\ l_c g = l_d st /\ l_d g = S (l_d st) /\ l_z g = <[l_c st := l_f st]> (l_z st)
     else g = st).
Proof using Type.
  intros Hw. unfold lz_group. pose proof Hw as [Hz Hc Hfl Hs Hs0 Hh0 Hh Ha Hha]. inversion Hfl as [Hd Hcd Hf Hi|k Hk Hd Hcd Hf Hi].
  - change (0 =? 0) with true. cbv iota. bif; [by left|right]. rewrite aset_some by lia. cbn [mbind option_bind].
    unfold byte_ok in Hf. rewrite u8_small by lia.
    eexists. split; [done|]. split; [|cbn; split_and!; done].
    split; cbn; [by rewrite length_insert|lia| |done..]. rewrite <- (Z.pow_0_r 2).
    apply (flag_open _ _ _ 0); lia.
  - rewrite pow2_neq0. right. exists st. split; [done|]. split; [done|]. rewrite <- Hi.
    pose proof (Z.pow_pos_nonneg 2 k). split_and!; done || lia.
Qed.

Lemma table_ok_mono lim lim' a : (lim <= lim')%nat -> table_ok lim a -> table_ok lim' a.
Proof using Type. intros Hl [Ha Hf]. split; [by eapply index_ok_mono|done]. Qed.

Lemma table_ok_insert lim a h p : table_ok lim a -> (8 <= p < lim)%nat -> table_ok lim (<[h := p]> a).
Proof using Type.
  intros [Ha Hf] Hp. split; [apply index_ok_insert; [done|lia]|]. apply Forall_insert; [done|lia].
Qed.

(** The table after the pending position is entered. *)
Definition with_pending (st : lz_state) : list nat :=
  if (0 <? l_s0 st)%nat then <[Z.to_nat (l_h0 st) := l_s0 st]> (l_a st) else l_a st.

Lemma with_pending_ok st : lz_wf st -> table_ok (l_s st) (with_pending st).
Proof using Type. intros Hw. unfold with_pending. destruct Hw. bif; [|done]. apply table_ok_insert; [done|lia]. Qed.

Lemma pending_set st : lz_wf st ->
  (if (0 <? l_s0 st)%nat then aset (l_a st) (Z.to_nat (l_h0 st)) (l_s0 st) else Some (l_a st)) = Some (with_pending st).
Proof using Type.
  intros Hw. unfold with_pending. bif; [|done]. apply aset_some. destruct (lw_a _ Hw) as [[Hl _] _].
  pose proof (lw_h0 _ Hw E) as Hb. unfold byte_ok in Hb. lia.
Qed.

Lemma pair_exists s : (s + 2 <= t)%nat -> exists h, pair_at s h /\ byte_ok h.
Proof using Hy.
  intros Hs. destruct (lookup_byte y s Hy) as (y0 & H0 & Hb0); [lia|]. destruct (lookup_byte y (S s) Hy) as (y1 & H1 & Hb1); [lia|].
  exists (Z.lxor y0 y1). split; [by exists y0, y1|]. by apply lxor_byte_ok.
Qed.

Lemma pair_hash_byte s h : pair_at s h -> byte_ok h /\ u8 h = h.
Proof using Type.
  intros (y0 & y1 & _ & _ & Hb0 & Hb1 & ->). pose proof (lxor_byte_ok y0 y1 Hb0 Hb1). split; [done|]. by apply u8_small.
Qed.

Lemma hashed_insert a h p : length a = 256%nat -> hashed a -> pair_at p h -> hashed (<[Z.to_nat h := p]> a).
Proof using Type.
  intros Hl Ha Hp h' p' Hh'. destruct (pair_hash_byte _ _ Hp) as [Hh _]. unfold byte_ok in Hh, Hh'.
  destruct (decide (h' = h)) as [->|Hne].
  - rewrite list_lookup_insert_eq by lia. intros [= <-]. by right.
  - rewrite list_lookup_insert_ne by lia. by apply Ha.
Qed.

Lemma with_pending_hashed st : lz_wf st -> (l_s st + 3 <= t)%nat -> hashed (with_pending st).
Proof using Type.
  intros Hw Hs. destruct (lw_hashed _ Hw Hs) as [Ha Hp]. unfold with_pending. bif; [|done].
  apply hashed_insert; [by destruct (lw_a _ Hw) as [[? _] _]|done|by apply Hp].
Qed.

(** The outcome of the probe: a literal, or a previous occurrence. *)
Lemma lz_probe_spec st : lz_wf st -> (l_s st < t)%nat -> (3 <= t)%nat ->
  exists h p g, lz_probe y st = Some (h, p, g) /\ byte_ok h /\
    ((l_s st + 3 <= t)%nat -> pair_at (l_s st) h) /\
    (g = false -> (l_s st + 3 <= t)%nat /\ l_a st !! Z.to_nat h = Some p /\ (8 <= p < l_s st)%nat /\
       y !! p = y !! l_s st /\ y !! S p = y !! S (l_s st)).
Proof using Hy.
  intros Hw Hs Ht. unfold lz_probe. pose proof Hw as [Hz Hc Hfl Hs' Hs0 Hh0 Hh [Ha Hnz] Hha]. bif.
  - exists (l_h st), 0%nat, true. split; [done|]. destruct Hh as [?|Hh]; [lia|]. split; [done|]. split; [lia|done].
  - destruct (pair_exists (l_s st)) as (h & Hpair & Hb); [lia|]. pose proof Hpair as (y0 & y1 & H0 & H1 & Hb0 & Hb1 & ->).
    rewrite H0, H1. cbn [mbind option_bind]. destruct (pair_hash_byte _ _ Hpair) as [_ ->]. cbv zeta.
    destruct (index_ok_lookup _ _ _ Ha Hb) as (p & Hp & Hps). rewrite Hp. cbn [mbind option_bind].
    bif; [by exists (Z.lxor y0 y1), p, true|].
    destruct (proj1 (Hha ltac:(lia)) _ _ Hb Hp) as [?|(p0 & p1 & Hp0 & Hp1 & _ & _ & Hpx)]; [lia|].
    pose proof (Forall_lookup_1 _ _ _ _ Hnz Hp) as Hp8. simpl in Hp8.
    rewrite Hp0. cbn [mbind option_bind]. exists (Z.lxor y0 y1), p, (negb (Z.lxor y0 p0 =? 0)).
    split; [done|]. split; [done|]. split; [done|]. intros Hg. bprop. apply Z.lxor_eq in Hg. subst p0.
    split; [lia|]. split; [done|]. split; [lia|]. split; [done|]. rewrite Hp1. f_equal.
    apply (f_equal (Z.lxor y0)) in Hpx. by rewrite <- !Z.lxor_assoc, Z.lxor_nilpotent, !Z.lxor_0_l in Hpx.
Qed.

(** What one token does: a literal at [s], or a match of [n + 2] bytes with
    the pair at [p]. *)
Inductive token_step (g g' : lz_state) : Prop :=
| step_lit b h : y !! l_s g = Some b -> byte_ok b ->
    ((l_s g + 3 <= t)%nat -> pair_at (l_s g) h) ->
    l_z g' = <[l_d g := b]> (l_z g) -> l_d g' = S (l_d g) -> l_f g' = l_f g ->
    l_s g' = S (l_s g) -> l_s0 g' = l_s g -> l_h0 g' = h -> l_a g' = with_pending g -> token_step g g'
| step_match h (p n : nat) : (l_s g + 3 <= t)%nat -> pair_at (l_s g) h -> l_a g !! Z.to_nat h = Some p ->
    (8 <= p < l_s g)%nat -> (n <= 255)%nat -> (l_s g + 2 + n <= t)%nat ->
    (forall m, (m < n + 2)%nat -> y !! (p + m)%nat = y !! (l_s g + m)%nat) ->
    l_z g' = <[S (l_d g) := Z.of_nat n]> (<[l_d g := h]> (l_z g)) -> l_d g' = S (S (l_d g)) -> l_f g' = l_f g + l_i g ->
    l_s g' = (l_s g + 2 + n)%nat -> l_s0 g' = 0%nat -> l_a g' = <[Z.to_nat h := l_s g]> (with_pending g) -> token_step g g'.

Lemma lor_bit f k : 0 <= k -> 0 <= f < 2 ^ k -> Z.lor f (2 ^ k) = f + 2 ^ k.
Proof using Type.
  intros Hk Hf. rewrite Z.lor_comm. replace (2 ^ k) with (Z.shiftl 1 k) at 1 by (rewrite Z.shiftl_mul_pow2 by done; lia).
  rewrite lor_shiftl_add by done. lia.
Qed.

Lemma flag_next c d d' f' (k : nat) :
  (k < 8)%nat -> (d + 16 <= e + 2 * k)%nat -> (c < d)%nat -> (d <= d' <= d + 2)%nat -> 0 <= f' < 2 ^ (k + 1) ->
  flag_ok c d' f' (u8 (2 ^ k * 2)).
Proof using Type.
  intros Hk Hd Hc Hd' Hf. assert (HS : 2 ^ k * 2 = 2 ^ S k) by (rewrite Nat2Z.inj_succ, Z.pow_succ_r by lia; lia).
  rewrite HS. destruct (decide (k = 7%nat)) as [->|Hne].
  - change (u8 (2 ^ 8%nat)) with 0. apply flag_full; [lia|lia|]. unfold byte_ok. lia.
  - rewrite u8_small by (split; [lia|]; apply (Z.pow_lt_mono_r 2 _ 8); lia).
    apply flag_open; [lia|lia|lia|]. rewrite Nat2Z.inj_succ. by replace (Z.succ k) with (k + 1) by lia.
Qed.

Lemma lz_token_spec g : lz_wf g -> l_i g <> 0 -> (l_s g < t)%nat -> (3 <= t)%nat ->
  exists g', lz_token y g = Some g' /\ lz_wf g' /\ token_step g g' /\ l_c g' = l_c g /\ l_i g' = u8 (l_i g * 2).
Proof using Hy.
  intros Hw Hi Hs Ht. unfold lz_token.
  destruct (lz_probe_spec g Hw Hs Ht) as (h & p & gg & -> & Hh & Hpair & Hmatch). cbn [mbind option_bind].
  rewrite (pending_set g Hw). cbn [mbind option_bind]. pose proof (with_pending_ok g Hw) as Hwp.
  pose proof Hw as [Hz Hc Hfl Hs' Hs0 Hh0 Hhh Ha Hha]. cbv zeta.
  inversion Hfl as [? ? ? Hi0|k Hk Hd Hcd Hf Hik]; [congruence|]. pose proof (Z.pow_pos_nonneg 2 k ltac:(lia) ltac:(lia)) as H2k.
  destruct gg.
  - destruct (lookup_byte y (l_s g) Hy Hs) as (b & Hb & Hbb). rewrite Hb. cbn [mbind option_bind].
    rewrite aset_some by lia. cbn [mbind option_bind]. eexists. split; [done|]. split; [|split; [by econstructor|done]].
    split; cbn; [by rewrite length_insert|lia| |lia|right; lia|done|by right| |].
    + eapply flag_next; [done..|lia|]. rewrite Z.pow_add_r by lia. lia.
    + by eapply table_ok_mono; [|done]; lia.
    + intros Hs3. split; [apply with_pending_hashed; [done|lia]|]. intros _. apply Hpair. lia.
  - destruct (Hmatch eq_refl) as (Hs3 & Hap & Hp & Hy0 & Hy1). specialize (Hpair Hs3).
    destruct (pair_hash_byte _ _ Hpair) as [Hhb _]. unfold byte_ok in Hhb.
    rewrite (aset_some (with_pending g)) by (destruct Hwp as [[Hl _] _]; lia). cbn [mbind option_bind].
    destruct (lz_match_spec t (p + 2) (l_s g + 2) (Nat.min (l_s g + 2 + 255) t)) as (s' & -> & Hs'' & Hm); [lia..|].
    cbn [mbind option_bind]. rewrite (aset_some (l_z g) (l_d g)) by lia. cbn [mbind option_bind].
    rewrite (aset_some (<[l_d g := h]> (l_z g)) (S (l_d g))) by (rewrite length_insert; lia). cbn [mbind option_bind].
    set (n := (s' - (l_s g + 2))%nat) in *. rewrite (u8_small n) by lia.
    assert (Hlor : Z.lor (l_f g) (2 ^ k) = l_f g + 2 ^ k) by (apply lor_bit; [lia|done]).
    eexists. split; [done|]. split; [|split; [|done]].
    + split; cbn; [by rewrite !length_insert|lia| |lia|by left|lia|by right| |].
      * rewrite Hlor. eapply flag_next; [done..|lia|]. rewrite Z.pow_add_r by lia. lia.
      * apply table_ok_insert; [by eapply table_ok_mono; [|done]; lia|lia].
      * intros _. split; [|lia]. apply hashed_insert; [by destruct Hwp as [[? _] _]|by apply with_pending_hashed|done].
    + apply (step_match _ _ h p n); cbn; try done; try lia.
      intros m Hlt. destruct m as [|[|m]]; [by rewrite !Nat.add_0_r|by rewrite !Nat.add_1_r|].
      replace (p + S (S m))%nat with (p + 2 + m)%nat by lia. replace (l_s g + S (S m))%nat with (l_s g + 2 + m)%nat by lia.
      apply Hm. lia.
Qed.

(** ** The finished stream

    [fin] is the output of a finished encoder and [d1] its length; a state on
    the way to it has already written everything below [d] except its flag
    byte, and of that the low bits. *)
Definition flag_seen (st : lz_state) (fin : list Z) : Prop :=
  if l_i st =? 0 then l_d st = 12%nat \/ fin !! l_c st = Some (l_f st)
  else exists f, fin !! l_c st = Some f /\ byte_ok f /\ f mod l_i st = l_f st.

Record on_the_way (st : lz_state) (fin : list Z) (d1 : nat) : Prop := {
  ow_d : (l_d st <= d1)%nat;
  ow_flag : flag_seen st fin;
  ow_agree : forall k, (k < l_d st)%nat -> k <> l_c st -> fin !! k = l_z st !! k }.

Lemma way_done st : lz_wf st -> on_the_way st (<[l_c st := u8 (l_f st)]> (l_z st)) (l_d st).
Proof using Type.
  intros [Hz Hc Hfl _ _ _ _ _ _]. split; [lia| |intros k Hk Hne; by rewrite list_lookup_insert_ne].
  unfold flag_seen. inversion Hfl as [Hd Hcd Hf Hi|k Hk Hd Hcd Hf Hi].
  - change (0 =? 0) with true. cbv iota. destruct Hcd as [Hcd|]; [right|by left]. rewrite list_lookup_insert_eq by lia.
    unfold byte_ok in Hf. by rewrite u8_small.
  - rewrite pow2_neq0. exists (l_f st). assert (Hf' : 0 <= l_f st < 256).
    { assert (2 ^ k < 2 ^ 8) by (apply Z.pow_lt_mono_r; lia). lia. }
    rewrite list_lookup_insert_eq, u8_small by lia. split; [done|]. split; [done|]. by apply Z.mod_small.
Qed.

Lemma token_z g g' : token_step g g' -> (l_d g < l_d g')%nat /\ forall k, (k < l_d g)%nat -> l_z g' !! k = l_z g !! k.
Proof using Type.
  destruct 1 as [b h _ _ _ Hz Hd|h p n _ _ _ _ _ _ _ Hz Hd]; rewrite Hz, Hd; (split; [lia|]); intros k Hk;
    rewrite !list_lookup_insert_ne by lia; done.
Qed.

(** The flag byte of an open group, seen after one more token. *)
Lemma flag_bit g g' fin d1 : lz_wf g -> l_i g <> 0 -> token_step g g' -> l_c g' = l_c g -> l_i g' = u8 (l_i g * 2) ->
  on_the_way g' fin d1 ->
  exists (k : nat) f, (k < 8)%nat /\ l_i g = 2 ^ k /\ fin !! l_c g = Some f /\ byte_ok f /\ f mod 2 ^ (k + 1) = l_f g'.
Proof using Type.
  intros [Hz Hc Hfl _ _ _ _ _ _] Hi Hst Hc' Hi' [Hd Hfs _].
  inversion Hfl as [? ? ? Hi0|k Hk Hd' Hcd Hf Hik]; [congruence|]. rewrite <- Hik in *.
  assert (HS : 2 ^ k * 2 = 2 ^ (k + 1)) by (rewrite Z.pow_add_r by lia; lia). rewrite HS in Hi'.
  exists k. unfold flag_seen in Hfs. rewrite Hc', Hi' in Hfs.
  assert (Hf' : 0 <= l_f g' < 2 ^ (k + 1)).
  { rewrite <- HS. destruct Hst as [? ? _ _ _ _ _ ->|? ? ? _ _ _ _ _ _ _ _ _ ->]; lia. }
  destruct (decide (k = 7%nat)) as [->|Hne].
  - change (u8 (2 ^ (7%nat + 1))) with 0 in Hfs. change (0 =? 0) with true in Hfs. cbv iota in Hfs.
    destruct Hfs as [H12|Hfin]; [apply token_z in Hst as [? _]; lia|]. exists (l_f g').
    split; [done|]. split; [done|]. split; [done|]. split; [done|]. by apply Z.mod_small.
  - rewrite u8_small in Hfs by (split; [lia|]; apply (Z.pow_lt_mono_r 2 _ 8); lia).
    replace (k + 1) with (Z.of_nat (S k)) in * by lia. rewrite pow2_neq0 in Hfs.
    destruct Hfs as (f & ? & ? & ?). by exists f.
Qed.

Lemma mod_pow2_low f (k : nat) : (f mod 2 ^ (k + 1)) mod 2 ^ k = f mod 2 ^ k.
Proof using Type.
  rewrite Z.pow_add_r by lia. apply Z.mod_mod_divide, Z.divide_factor_l.
Qed.

(** Walking back over one token and over the opening of its group. *)
Lemma way_token g g' fin d1 : lz_wf g -> l_i g <> 0 -> token_step g g' -> l_c g' = l_c g -> l_i g' = u8 (l_i g * 2) ->
  on_the_way g' fin d1 -> on_the_way g fin d1.
Proof using Type.
  intros Hw Hi Hst Hc Hi' Hway. destruct (flag_bit g g' fin d1 Hw Hi Hst Hc Hi' Hway) as (k & f & Hk & Hik & Hfin & Hf & Hmod).
  destruct Hway as [Hd _ Hag]. pose proof (token_z g g' Hst) as [Hd' Hz]. split; [lia| |].
  - unfold flag_seen. rewrite Hik, pow2_neq0. exists f. split; [done|]. split; [done|].
    pose proof (Z.pow_pos_nonneg 2 k ltac:(lia) ltac:(lia)). rewrite <- mod_pow2_low, Hmod.
    pose proof (lw_flag _ Hw) as Hfl. inversion Hfl as [? ? ? Hi0|k' Hk' Hd1 Hcd Hfk Hik']; [congruence|]. assert (Hkk : k' = k).
    { assert (E : 2 ^ k' = 2 ^ k) by congruence. apply Z.pow_inj_r in E; lia. }
    subst k'.
    destruct Hst as [? ? _ _ _ _ _ ->|? ? ? _ _ _ _ _ _ _ _ _ ->]; [by apply Z.mod_small|].
    rewrite Hik. replace (l_f g + 2 ^ k) with (l_f g + 1 * 2 ^ k) by lia. rewrite Z_mod_plus_full. by apply Z.mod_small.
  - intros j Hj Hne. rewrite <- Hz by lia. apply Hag; [lia|by rewrite Hc].
Qed.

Lemma way_group st g fin d1 : lz_wf st -> lz_group e st = Some (Some g) -> on_the_way g fin d1 -> on_the_way st fin d1.
Proof using Type.
  intros Hw Hg [Hd Hfs Hag]. destruct (lz_group_spec st Hw) as [Hn|(g' & Hg' & Hwg & Hi & _ & _ & _ & _ & Hcase)]; [congruence|].
  assert (g' = g) as -> by congruence. revert Hcase. destruct (Z.eqb_spec (l_i st) 0) as [Hi0|Hi0]; [|by intros ->].
  intros (Hi1 & Hf & Hc & Hd' & Hz). pose proof (lw_c _ Hw) as Hcd. pose proof (lw_z _ Hw) as Hlen.
  assert (Hc12 : l_d st = 12%nat \/ (l_c st < l_d st /\ l_d st <= e)%nat).
  { destruct (lw_flag _ Hw) as [Hde [?|?] _|k Hk _ Hcd' _]; [right; lia|by left|lia]. }
  split; [lia| |].
  - unfold flag_seen. rewrite Hi0. change (0 =? 0) with true. cbv iota. destruct Hc12 as [?|Hc12]; [by left|right].
    rewrite Hag by lia. rewrite Hz. by rewrite list_lookup_insert_eq by lia.
  - intros k Hk Hne. rewrite Hag by lia. rewrite Hz. by rewrite list_lookup_insert_ne.
Qed.

(** One turn of the loop. *)
Lemma lz_turn st : (3 <= t)%nat -> lz_wf st -> (l_s st < t)%nat ->
  lz_group e st = Some None \/
  exists g g', lz_group e st = Some (Some g) /\ lz_token y g = Some g' /\ lz_wf g /\ lz_wf g' /\ (l_s st < l_s g')%nat /\
    forall fin d1, on_the_way g' fin d1 -> on_the_way st fin d1.
Proof using Hy.
  intros Ht Hw Hs. destruct (lz_group_spec st Hw) as [?|(g & Hg & Hwg & Hi & Hgs & _)]; [by left|right].
  destruct (lz_token_spec g Hwg Hi) as (g' & Htok & Hw' & Hst & Hc & Hi'); [lia|done|]. exists g, g'.
  split_and!; try done; [destruct Hst; lia|]. intros fin d1 Hway.
  eapply way_group; [done|exact Hg|]. by eapply way_token.
Qed.

(** The loop ends, within its buffers, giving up or at the end of the frame. *)
Lemma lz_loop_total fuel st : (3 <= t)%nat -> lz_wf st -> (t - l_s st < fuel)%nat ->
  lz_loop fuel y e st = Some None \/ exists st', lz_loop fuel y e st = Some (Some st').
Proof using Hy.
  intros Ht. revert st. induction fuel as [|fuel IH]; intros st Hw Hf; [lia|]. cbn [lz_loop]. bif; [|by right; exists st].
  destruct (lz_turn st Ht Hw E) as [->|(g & g' & -> & Htok & _ & Hw' & Hs' & _)]; [by left|]. cbn [mbind option_bind].
  rewrite Htok. cbn [mbind option_bind]. apply IH; [done|lia].
Qed.

Lemma lz_loop_way fuel st st' : (3 <= t)%nat -> lz_wf st -> lz_loop fuel y e st = Some (Some st') ->
  lz_wf st' /\ l_s st' = t /\ on_the_way st (<[l_c st' := u8 (l_f st')]> (l_z st')) (l_d st').
Proof using Hy.
  intros Ht. revert st. induction fuel as [|fuel IH]; intros st Hw; [done|]. cbn [lz_loop]. bif.
  - destruct (lz_turn st Ht Hw E) as [->|(g & g' & -> & Htok & _ & Hw' & _ & Hway)]; [done|]. cbn [mbind option_bind].
    rewrite Htok. cbn [mbind option_bind]. intros (? & ? & ?)%IH; [|done]. split_and!; [done..|by apply Hway].
  - intros [= <-]. pose proof (lw_s _ Hw). split; [done|]. split; [lia|]. by apply way_done.
Qed.

(** A token writes at most 257 bytes for its two. *)
Definition paid (st : lz_state) : Prop :=
  (l_s st = 8 /\ l_d st = 12)%nat \/ exists m l : nat, (l_s st <= 257 * m + l + 8)%nat /\ (2 * m + l + 13 <= l_d st)%nat.

Lemma paid_step g g' m l : token_step g g' -> (l_s g <= 257 * m + l + 8)%nat -> (2 * m + l + 13 <= l_d g)%nat -> paid g'.
Proof using Type.
  intros [b h _ _ _ _ Hd _ Hs _ _ _|h p n _ _ _ _ Hn _ _ _ Hd _ Hs _ _] Hsg Hdg; right.
  - exists m, (S l). lia.
  - exists (S m), l. lia.
Qed.

Lemma lz_loop_paid fuel st st' : (3 <= t)%nat -> lz_wf st -> paid st -> lz_loop fuel y e st = Some (Some st') -> paid st'.
Proof using Hy.
  intros Ht. revert st. induction fuel as [|fuel IH]; intros st Hw Hp; [done|]. cbn [lz_loop]. bif; [|by intros [= <-]].
  destruct (lz_group_spec st Hw) as [->|(g & -> & Hwg & Hi & Hgs & _ & _ & _ & Hcase)]; [done|]. cbn [mbind option_bind].
  destruct (lz_token_spec g Hwg Hi) as (g' & -> & Hw' & Hst & _); [lia|done|]. cbn [mbind option_bind]. apply IH; [done|].
  assert (Hg : exists m l : nat, (l_s g <= 257 * m + l + 8)%nat /\ (2 * m + l + 13 <= l_d g)%nat).
  { revert Hcase. bif; [intros (_ & _ & _ & Hd & _)|intros ->].
    - destruct Hp as [[Hs8 Hd12]|(m & l & ? & ?)]; [exists 0%nat, 0%nat|exists m, l]; lia.
    - destruct Hp as [[Hs8 Hd12]|Hml]; [|done]. destruct (lw_flag _ Hw); [done|]. pose proof (lw_c _ Hw). lia. }
  destruct Hg as (m & l & ? & ?). by eapply paid_step.
Qed.

(** ** The decoder follows *)
Context (H8 : (8 <= t)%nat).

Definition view : list Z := replicate 8 0 ++ drop 8 y.

Lemma length_view : length view = t.
Proof using H8. unfold view. rewrite length_app, length_replicate, length_drop. lia. Qed.

Lemma view_lookup k : (8 <= k)%nat -> view !! k = y !! k.
Proof using H8.
  intros Hk. unfold view. rewrite lookup_app_r by (rewrite length_replicate; lia).
  rewrite length_replicate, lookup_drop. f_equal. lia.
Qed.

Lemma view_bytes : bytes_ok view.
Proof using Hy H8.
  apply Forall_app. split; [|by apply Forall_drop]. apply Forall_replicate. unfold byte_ok. lia.
Qed.

Lemma take_view k : (k <= t)%nat -> length (take k view) = k.
Proof using H8. intros. rewrite length_take, length_view. lia. Qed.

Lemma take_view_bytes k : bytes_ok (take k view).
Proof using Hy H8. apply Forall_take, view_bytes. Qed.

Lemma take_view_lookup k j : (j < k)%nat -> take k view !! j = view !! j.
Proof using Type. intros. by apply lookup_take_lt. Qed.

Lemma copy_back_view n s r : (r < s)%nat -> (s + n <= t)%nat ->
  (forall m, (m < n)%nat -> view !! (r + m)%nat = view !! (s + m)%nat) ->
  copy_back n (take s view) r = Some (take (s + n) view).
Proof using H8.
  revert s r. induction n as [|n IH]; intros s r Hr Hs Hm; [by rewrite Nat.add_0_r|]. cbn [copy_back].
  rewrite take_view_lookup by done. pose proof (Hm 0%nat ltac:(lia)) as H0. rewrite !Nat.add_0_r in H0.
  destruct (lookup_lt_is_Some_2 view s) as [x Hx]; [rewrite length_view; lia|]. rewrite H0, Hx. cbn [mbind option_bind].
  rewrite <- (take_S_r _ _ _ Hx). replace (s + S n)%nat with (S s + n)%nat by lia. apply IH; [lia|lia|].
  intros m Hlt. replace (S r + m)%nat with (r + S m)%nat by lia. replace (S s + m)%nat with (s + S m)%nat by lia. apply Hm. lia.
Qed.

Lemma index_one k L p h aa : pair_at p h -> (8 <= p)%nat -> (S p < L)%nat -> length aa = 256%nat ->
  index_pairs (S k) (take L view) p aa = index_pairs k (take L view) (S p) (<[Z.to_nat h := p]> aa).
Proof using H8.
  intros (y0 & y1 & H0 & H1 & Hb0 & Hb1 & ->) Hp HL Hl. cbn [index_pairs].
  rewrite !take_view_lookup, !view_lookup, H0, H1 by lia. cbn [mbind option_bind].
  pose proof (lxor_byte_ok y0 y1 Hb0 Hb1) as Hx. unfold byte_ok in Hx. rewrite aset_some by lia. done.
Qed.

(** The decoder's state at the boundary of a token. *)
Record follows (st : lz_state) (u : unlz_state) : Prop := {
  fo_dst : u_dst u = take (l_s st) view;
  fo_s : u_s u = l_s st;
  fo_d : (u_d u + 8 = l_d st)%nat;
  fo_i : u_i u = l_i st;
  fo_p : (u_p u <= l_s st)%nat;
  fo_aa : index_ok (l_s st) (u_aa u);
  fo_sync : (l_s st + 3 <= t)%nat ->
    u_aa u = l_a st /\ u_p u = (if (0 <? l_s0 st)%nat then l_s0 st else l_s st) }.

(** Indexing up to [s] enters the position the encoder had pending. *)
Lemma index_pending g u k L : lz_wf g -> follows g u -> (l_s g + 3 <= t)%nat -> (l_s g < L)%nat ->
  index_pairs (l_s g - u_p u + k) (take L view) (u_p u) (u_aa u) =
  index_pairs k (take L view) (l_s g) (with_pending g).
Proof using H8.
  intros Hw Hu Hs HL. destruct (fo_sync _ _ Hu Hs) as [-> ->]. destruct (lw_hashed _ Hw Hs) as [_ Hp].
  unfold with_pending. pose proof (lw_s0 _ Hw) as Hs0. bif; [|by rewrite Nat.sub_diag].
  destruct Hs0 as [?|[H8' HS]]; [lia|]. replace (l_s g - l_s0 g + k)%nat with (S k) by lia.
  rewrite (index_one _ _ _ _ _ (Hp E)) by (lia || by destruct (lw_a _ Hw) as [[? _] _]). by rewrite HS.
Qed.

Lemma take_view_snoc s b : y !! s = Some b -> (8 <= s)%nat -> take s view ++ [b] = take (S s) view.
Proof using Hy H8. intros Hb Hs. symmetry. apply take_S_r. by rewrite view_lookup. Qed.

(** One token decoded. *)
Lemma unlz_literal pl g g' u b (k : nat) :
  lz_wf g -> follows g u -> (k < 8)%nat -> l_i g = 2 ^ k -> (Z.land (u_f u) (2 ^ k) =? 0) = true ->
  l_i g' = u8 (l_i g * 2) -> y !! l_s g = Some b -> (l_s g < t)%nat ->
  l_d g' = S (l_d g) -> l_s g' = S (l_s g) -> l_s0 g' = l_s g -> l_a g' = with_pending g ->
  pl !! u_d u = Some b ->
  exists u', unlz_token pl t u = Some (Some u') /\ follows g' u' /\ u_f u' = u_f u.
Proof using Hy H8.
  intros Hw Hu Hk Hik Hbit Hi' Hb Hs Hd' Hs' Hs0' Ha' Hpl. pose proof Hu as [Hdst Hus Hud Hui Hup Haa Hsync].
  pose proof (lw_s _ Hw) as Hs8. unfold unlz_token. rewrite Hui, Hik, Hbit. cbn [negb]. cbv zeta.
  bif; [apply lookup_lt_Some in Hpl; lia|]. rewrite Hpl. cbn [mbind option_bind].
  rewrite Hdst, Hus, (take_view_snoc _ _ Hb) by lia.
  assert (Hidx : exists aa, index_pairs (S (l_s g) - 1 - u_p u) (take (S (l_s g)) view) (u_p u) (u_aa u) = Some aa /\
    index_ok (S (l_s g)) aa /\ ((l_s g + 3 <= t)%nat -> aa = with_pending g)).
  { destruct (decide (l_s g + 3 <= t)%nat) as [H3|H3].
    - exists (with_pending g). pose proof (index_pending g u 0 (S (l_s g)) Hw Hu H3 ltac:(lia)) as Hp.
      replace (S (l_s g) - 1 - u_p u)%nat with (l_s g - u_p u + 0)%nat by lia. split; [exact Hp|].
      split; [|done]. eapply index_ok_mono; [|apply (with_pending_ok g Hw)]. lia.
    - destruct (index_pairs_spec (S (l_s g) - 1 - u_p u) (take (S (l_s g)) view) (u_p u) (u_aa u) (S (l_s g)))
        as (aa & ? & ?); [apply take_view_bytes|rewrite take_view by lia; lia|by eapply index_ok_mono; [|done]; lia|lia|].
      exists aa. split_and!; done || lia. }
  destruct Hidx as (aa & -> & Hok & Hal). cbn [mbind option_bind]. rewrite next_flag by done.
  eexists. split; [done|]. split; [|done]. split; cbn [u_dst u_s u_d u_i u_p u_aa]; rewrite ?Hs', ?Hd'; try done; [lia|by rewrite Hi', Hik|lia|].
  intros H3. rewrite Hs0', Ha'. split; [apply Hal; lia|]. bif; lia.
Qed.

Lemma unlz_match pl g g' u h (p n : nat) (k : nat) :
  lz_wf g -> follows g u -> (k < 8)%nat -> l_i g = 2 ^ k -> (Z.land (u_f u) (2 ^ k) =? 0) = false ->
  l_i g' = u8 (l_i g * 2) ->
  (l_s g + 3 <= t)%nat -> pair_at (l_s g) h -> l_a g !! Z.to_nat h = Some p -> (8 <= p < l_s g)%nat ->
  (l_s g + 2 + n <= t)%nat -> (forall m, (m < n + 2)%nat -> y !! (p + m)%nat = y !! (l_s g + m)%nat) ->
  l_d g' = S (S (l_d g)) -> l_s g' = (l_s g + 2 + n)%nat -> l_s0 g' = 0%nat -> l_a g' = <[Z.to_nat h := l_s g]> (with_pending g) ->
  pl !! u_d u = Some h -> pl !! S (u_d u) = Some (Z.of_nat n) ->
  exists u', unlz_token pl t u = Some (Some u') /\ follows g' u' /\ u_f u' = u_f u.
Proof using Hy H8.
  intros Hw Hu Hk Hik Hbit Hi' H3 Hpair Hap Hp Hn Hm Hd' Hs' Hs0' Ha' Hpl Hpl'.
  pose proof Hu as [Hdst Hus Hud Hui Hup Haa Hsync]. destruct (Hsync H3) as [Hual _].
  pose proof (with_pending_ok g Hw) as Hwp. destruct (pair_hash_byte _ _ Hpair) as [Hhb _].
  unfold unlz_token. rewrite Hui, Hik, Hbit. cbn [negb]. cbv zeta. apply lookup_lt_Some in Hpl as Hlen. apply lookup_lt_Some in Hpl' as Hlen'.
  bif; [destruct E; bprop; lia|]. rewrite Hpl. cbn [mbind option_bind]. rewrite Hual, Hap. cbn [mbind option_bind].
  assert (Hmv : forall m, (m < n + 2)%nat -> view !! (p + m)%nat = view !! (l_s g + m)%nat)
    by (intros m Hlt; rewrite !view_lookup by lia; by apply Hm).
  rewrite Hdst, Hus. rewrite (copy_back_view 2) by (lia || (intros; apply Hmv; lia)). cbn [mbind option_bind].
  bif; [lia|]. rewrite Hpl'. cbn [mbind option_bind]. rewrite Nat2Z.id. bif; [lia|].
  rewrite (copy_back_view n); [|lia|lia|].
  2:{ intros m Hlt. specialize (Hmv (2 + m)%nat ltac:(lia)).
      replace (p + 2 + m)%nat with (p + (2 + m))%nat by lia. by replace (l_s g + 2 + m)%nat with (l_s g + (2 + m))%nat by lia. }
  cbn [mbind option_bind]. replace (l_s g + 2 - 1 - u_p u)%nat with (l_s g - u_p u + 1)%nat by lia. rewrite <- Hual.
  rewrite (index_pending g u 1) by (done || lia).
  rewrite (index_one 0 _ _ _ _ Hpair) by (lia || by destruct Hwp as [[? _] _]). cbn [index_pairs mbind option_bind].
  rewrite next_flag by done. eexists. split; [done|]. split; [|done].
  split; cbn [u_dst u_s u_d u_i u_p u_aa]; rewrite ?Hs', ?Hd'; try done; [lia|by rewrite Hi', Hik| |].
  - destruct Hwp as [Hix _]. apply index_ok_insert; [by eapply index_ok_mono; [|done]; lia|lia].
  - intros _. rewrite Ha', Hs0'. done.
Qed.

(** The decoder opens the group the encoder opened. *)
Lemma unlz_open (pl : list Z) st g u (f : Z) (fin : list Z) d1 fuel' :
  lz_wf st -> lz_group e st = Some (Some g) -> follows st u -> (l_s st < t)%nat ->
  (forall k, (8 <= k < d1)%nat -> pl !! (k - 8)%nat = fin !! k) -> (length pl + 8 = d1)%nat -> (l_d g <= d1)%nat ->
  (l_i st <> 0 -> fin !! l_c st = Some (u_f u)) -> fin !! l_c g = Some f ->
  exists u1, follows g u1 /\ u_f u1 = f /\
    unlz_loop (S fuel') pl t u =
      (u' ← unlz_token pl t u1; match u' with None => Some (inl QE_DOMAIN) | Some u' => unlz_loop fuel' pl t u' end).
Proof using Hy H8.
  intros Hw Hg Hu Hst Hpl Hlen Hd1 Hflag Hf. cbn [unlz_loop]. pose proof Hu as [Hdst Hus Hud Hui Hup Haa Hsync].
  destruct (lz_group_spec st Hw) as [Hn|(g' & Hg' & Hwg & Hi & Hgs & Hgs0 & Hgh0 & Hga & Hcase)]; [congruence|].
  assert (g' = g) as -> by congruence. pose proof (lw_c _ Hw) as Hc12.
  rewrite Hus, Hui. bif; [|lia]. revert Hcase. destruct (Z.eqb_spec (l_i st) 0) as [Hi0|Hi0].
  - intros (Hi1 & Hf0 & Hc & Hd & Hz). cbn [andb]. bif; [lia|].
    pose proof (Hpl (l_d st) ltac:(lia)) as Hb. replace (l_d st - 8)%nat with (u_d u) in Hb by lia.
    rewrite Hb, <- Hc, Hf. cbn [mbind option_bind].
    exists (Unlz (u_dst u) (u_n u) f (l_s st) (u_p u) (S (u_d u)) 1 (u_aa u)). split; [|done].
    split; cbn [u_dst u_s u_d u_i u_p u_aa]; rewrite ?Hgs, ?Hga, ?Hgs0; done || lia.
  - intros ->. cbn [andb mbind option_bind]. exists u. split; [done|]. split; [|done].
    specialize (Hflag Hi0). congruence.
Qed.

(** The decoder, run on the finished stream from where the encoder stands,
    rebuilds the rest of the frame. *)
Lemma unlz_follows fuel fuel' st st' (fin pl : list Z) u :
  lz_wf st -> lz_loop fuel y e st = Some (Some st') -> l_s st' = t ->
  fin = <[l_c st' := u8 (l_f st')]> (l_z st') ->
  (forall k, (8 <= k < l_d st')%nat -> pl !! (k - 8)%nat = fin !! k) -> (length pl + 8 = l_d st')%nat ->
  follows st u -> (l_i st <> 0 -> fin !! l_c st = Some (u_f u)) -> (t - l_s st < fuel')%nat ->
  unlz_loop fuel' pl t u = Some (inr (drop 8 y)).
Proof using Hy H8.
  intros Hw Hrun Hend Hfin Hpl Hlen. revert fuel' st u Hw Hrun. induction fuel as [|fuel IH]; intros fuel' st u Hw Hrun Hu Hflag Hf; [done|].
  destruct fuel' as [|fuel']; [lia|]. cbn [lz_loop] in Hrun. pose proof (lw_s _ Hw) as Hs8.
  revert Hrun. bif.
  2:{ intros [= ->]. cbn [unlz_loop]. rewrite (fo_s _ _ Hu), Hend. bif; [lia|]. bif; [|pose proof (fo_d _ _ Hu); lia]. do 2 f_equal.
      rewrite (fo_dst _ _ Hu), Hend, take_ge by (rewrite length_view; lia). unfold view. by rewrite drop_app_length'. }
  destruct (lz_group_spec st Hw) as [->|(g & Hg & Hwg & Hi & Hgs & _)]; [done|]. rewrite Hg. cbn [mbind option_bind].
  destruct (lz_token_spec g Hwg Hi) as (g' & Htok & Hw' & Hst & Hc & Hi'); [lia|lia|]. rewrite Htok. cbn [mbind option_bind]. intros Hrun.
  destruct (lz_loop_way fuel g' st' ltac:(lia) Hw' Hrun) as (Hwst' & _ & Hway'). rewrite <- Hfin in Hway'.
  destruct (flag_bit g g' fin _ Hwg Hi Hst Hc Hi' Hway') as (k & f & Hk & Hik & Hfc & Hfb & Hmod).
  pose proof (token_z g g' Hst) as [Hdg _]. pose proof (ow_d _ _ _ Hway') as Hd1. pose proof (lw_z _ Hwg) as Hze. pose proof (lw_c _ Hwg) as Hcc.
  destruct (unlz_open pl st g u f fin (l_d st') fuel' Hw Hg Hu E Hpl Hlen ltac:(lia) Hflag Hfc) as (u1 & Hu1 & Huf & ->).
  assert (Hroom : (l_d g + 2 <= e)%nat /\ (l_c g < l_d g)%nat /\ 0 <= l_f g < 2 ^ k).
  { pose proof (lw_flag _ Hwg) as Hfl. inversion Hfl as [? ? ? Hi0|k' Hk' Hd' Hcd' Hf' Hik']; [congruence|].
    assert (k' = k) as -> by (assert (E' : 2 ^ k' = 2 ^ k) by congruence; apply Z.pow_inj_r in E'; lia). lia. }
  assert (Hag : forall j, (l_d g <= j < l_d g')%nat -> pl !! (j - 8)%nat = l_z g' !! j).
  { intros j Hj. rewrite Hpl by lia. apply (ow_agree _ _ _ Hway'); [lia|]. rewrite Hc. lia. }
  assert (Hstep : exists u', unlz_token pl t u1 = Some (Some u') /\ follows g' u' /\ u_f u' = u_f u1).
  { pose proof (fo_d _ _ Hu1) as Hud. pose proof (flag_test k f Hk Hfb) as Hbit. rewrite Hmod, <- Huf in Hbit.
    destruct Hst as [b h Hb Hbb Hpair Hz Hd Hfl Hs Hs0 Hh0 Ha|h p n H3 Hpair Hp Hps Hn Hsn Hm Hz Hd Hfl Hs Hs0 Ha].
    - eapply (unlz_literal pl g g' u1 b k); try done; [rewrite Hbit, Hfl; apply Z.ltb_lt; lia|lia|].
      replace (u_d u1) with (l_d g - 8)%nat by lia. rewrite Hag, Hz by lia. apply list_lookup_insert_eq. lia.
    - eapply (unlz_match pl g g' u1 h p n k); try done.
      + rewrite Hbit, Hfl, Hik. apply Z.ltb_ge. lia.
      + replace (u_d u1) with (l_d g - 8)%nat by lia. rewrite Hag, Hz by lia.
        rewrite list_lookup_insert_ne by lia. apply list_lookup_insert_eq. lia.
      + replace (S (u_d u1)) with (S (l_d g) - 8)%nat by lia. rewrite Hag, Hz by lia.
        apply list_lookup_insert_eq. rewrite length_insert. lia. }
  destruct Hstep as (u' & -> & Hu' & Huf'). cbn [mbind option_bind].
  apply (IH fuel' g' u'); [done..| |destruct Hst; lia]. intros _. by rewrite Hc, Huf', Huf.
Qed.
End encoder.

(** ** The size fields *)
Lemma put_u32_spec be (at_ : nat) v (z : list Z) : (at_ + 4 <= length z)%nat -> 0 <= v < 4294967296 ->
  exists z', put_u32 be at_ v z = Some z' /\ length z' = length z /\
    (forall k, (k < at_ \/ at_ + 4 <= k)%nat -> z' !! k = z !! k) /\
    forall pl, (forall k, (k < 4)%nat -> pl !! k = z' !! (at_ + k)%nat) -> get_u32 be pl = v.
Proof.
  intros Hl Hv. unfold put_u32.
  destruct be; repeat (rewrite aset_some by (rewrite ?length_insert; lia); cbn [mbind option_bind]);
    (eexists; split; [done|]; split; [by rewrite !length_insert|]; split; [intros k Hk; by rewrite !list_lookup_insert_ne by lia|]);
    intros pl Hpl; pose proof (Hpl 0%nat ltac:(lia)) as H0; pose proof (Hpl 1%nat ltac:(lia)) as H1;
    pose proof (Hpl 2%nat ltac:(lia)) as H2; pose proof (Hpl 3%nat ltac:(lia)) as H3;
    repeat match goal with
    | H : _ = <[?i := ?v]> ?l !! ?j |- _ => first
        [ rewrite (list_lookup_insert_eq l i v) in H by (rewrite ?length_insert; lia)
        | rewrite (list_lookup_insert_ne l i j v) in H by lia ]
    end;
    destruct pl as [|p0 [|p1 [|p2 [|p3 pl]]]]; try done; cbn in H0, H1, H2, H3; simplify_eq;
    unfold get_u32, u8, wrap; cbn; rewrite !Z.shiftr_div_pow2, take_0 by lia; cbn [foldl le_load];
    clear -Hv; change (2 ^ 24) with 16777216; change (2 ^ 16) with 65536; change (2 ^ 8) with 256; lia.
Qed.

(** The encoder's first state: the copied header, compression set, the total. *)
Definition lz_init (z : list Z) : lz_state := Lz z 0 0 0 0 12 12 0 8 (replicate 256 0%nat).

Lemma lz_init_wf y (z : list Z) : (2008 < length y)%nat -> length z = (length y / 2)%nat -> lz_wf y (length y / 2) (lz_init z).
Proof.
  intros Ht Hz. assert (Hl : length (replicate 256 0%nat) = 256%nat) by apply length_replicate.
  split; unfold lz_init; cbn [l_z l_c l_d l_f l_i l_s l_s0 l_h0 l_h l_a]; try lia.
  - apply flag_full; [lia|lia|unfold byte_ok; lia].
  - split; [split; [done|]|]; apply Forall_replicate; lia.
  - intros _. split; [|lia]. intros h p _ Hp. left. apply lookup_replicate_1 in Hp. tauto.
Qed.

Lemma unlz_init_follows y (z : list Z) f : (2008 < length y)%nat ->
  follows y (lz_init z) (Unlz (replicate 8 0) 0 f 8 8 4 0 (replicate 256 0%nat)).
Proof.
  intros Ht. split; unfold lz_init; cbn [l_z l_c l_d l_f l_i l_s l_s0 l_h0 l_h l_a u_dst u_s u_d u_i u_p u_aa]; try done; try lia.
  - split; [apply length_replicate|]. apply Forall_replicate. lia.
Qed.

(** What a compressed frame is: the header of [y] with the compression byte
    set and the new total, the old total, and a stream the decoder expands to
    the body of [y]. *)
Definition frame_be (y : list Z) : bool := y.[0] =? 0.

Record compressed_frame (y out : list Z) : Prop := {
  cf_short : (length out <= length y / 2)%nat;
  cf_header : take 4 out = <[2%nat := 1]> (take 4 y);
  cf_total : get_u32 (frame_be y) (drop 4 out) = Z.of_nat (length out);
  cf_body : q_wire_uncompress_payload true (drop 8 out) (frame_be y) = Some (inr (drop 8 y)) }.

(** The finished stream behind its size fields is a compressed frame. *)
Lemma compress_finish y (m z0 : list Z) st :
  bytes_ok y -> 2008 < length y <= Q_WIRE_MSG_MAX -> length z0 = (length y / 2)%nat ->
  (forall k, (k < 8)%nat -> z0 !! k = <[2%nat := 1]> (take 4 y ++ drop 4 m) !! k) ->
  (forall pl, (forall k, (k < 4)%nat -> pl !! k = z0 !! (8 + k)%nat) -> get_u32 (frame_be y) pl = Z.of_nat (length y)) ->
  lz_loop (S (length y)) y (length y / 2) (lz_init z0) = Some (Some st) ->
  exists z1, (z ← aset (l_z st) (l_c st) (u8 (l_f st)); put_u32 (frame_be y) 4 (Z.of_nat (l_d st)) z) = Some z1 /\
    compressed_frame y (take (l_d st) z1).
Proof.
  intros Hy Hmax Hlz0 Hhd Htot Hst. unfold Q_WIRE_MSG_MAX in Hmax. pose proof (lz_init_wf y z0 ltac:(lia) Hlz0) as Hw.
  destruct (lz_loop_way y Hy _ _ _ _ ltac:(lia) Hw Hst) as (Hws & Hend & [Hd12 _ Hag]).
  pose proof (lz_loop_paid y Hy _ _ _ _ ltac:(lia) Hw ltac:(by left) Hst) as Hpaid.
  pose proof (lw_c _ _ _ Hws) as Hc. pose proof (lw_z _ _ _ Hws) as Hlz. cbn [l_d lz_init l_c l_z] in *.
  assert (Hde : (l_d st <= length y / 2)%nat /\ (l_c st < length y / 2)%nat) by (destruct (lw_flag _ _ _ Hws); lia).
  rewrite aset_some by lia. cbn [mbind option_bind]. set (fin := <[l_c st := u8 (l_f st)]> (l_z st)) in *.
  assert (Hlf : length fin = (length y / 2)%nat) by (unfold fin; by rewrite length_insert).
  destruct (put_u32_spec (frame_be y) 4 (Z.of_nat (l_d st)) fin) as (z1 & -> & Hlz1 & Hz1 & Hsz); [lia|lia|].
  exists z1. split; [done|]. assert (Hlen : length (take (l_d st) z1) = l_d st) by (rewrite length_take; lia).
  assert (Hpl : forall k, (8 <= k < l_d st)%nat -> drop 8 (take (l_d st) z1) !! (k - 8)%nat = fin !! k).
  { intros k Hk. rewrite lookup_drop, lookup_take_lt by lia. replace (8 + (k - 8))%nat with k by lia. apply Hz1. lia. }
  assert (Hget : get_u32 (frame_be y) (drop 8 (take (l_d st) z1)) = Z.of_nat (length y)).
  { apply Htot. intros k Hk. rewrite <- (Hag (8 + k)%nat) by lia. rewrite <- Hpl by lia. f_equal. lia. }
  split.
  - lia.
  - apply (list_eq_same_length _ _ 4); [rewrite length_insert, length_take; lia|rewrite length_take; lia|].
    intros k v w Hk. rewrite lookup_take_lt by lia. rewrite lookup_take_lt, Hz1, Hag, Hhd by lia.
    destruct (decide (k = 2%nat)) as [->|Hne].
    + rewrite !list_lookup_insert_eq by (rewrite ?length_app, ?length_take; lia). congruence.
    + rewrite !list_lookup_insert_ne by lia. rewrite lookup_app_l by (rewrite length_take; lia). congruence.
  - rewrite Hlen. apply Hsz. intros k Hk. by rewrite lookup_drop, lookup_take_lt by lia.
  - assert (Hp : paid st) by done. unfold q_wire_uncompress_payload. rewrite Hget. cbv zeta. rewrite length_drop, Hlen, Nat2Z.id.
    assert (Hpay : (l_d st >= 26)%nat /\ Z.of_nat (length y) - 8 <= (Z.of_nat (l_d st - 8)%nat - 4) / 2 * 257).
    { destruct Hp as [[? ?]|(a & b & ? & ?)]; lia. }
    unfold Q_WIRE_MSG_MAX. bif; [lia|]. bif; [destruct E0; bprop; lia|]. bif; [lia|]. cbn [negb].
    eapply (unlz_follows y Hy (length y / 2) ltac:(lia) _ _ _ _ _ _ _ Hw Hst Hend eq_refl Hpl);
      [rewrite length_drop; lia|apply unlz_init_follows; lia|done|simpl; lia].
Qed.

Lemma q_wire_compress_spec mem y :
  bytes_ok y -> 0 < length y <= Q_WIRE_MSG_MAX ->
  (forall m, mem = Some m -> length m = (length y / 2)%nat) ->
  exists r, q_wire_compress mem y = Some r /\
    match r with
    | inl err => err = QE_WSFULL /\ mem = None /\ (2008 < length y)%nat
    | inr out => out = y \/ (2008 < length y)%nat /\ compressed_frame y out
    end.
Proof.
  intros Hy Hmax Hmem. unfold q_wire_compress. cbv zeta. change (8 + 2000)%nat with 2008%nat.
  bif; [eexists; split; [done|by left]|]. destruct (lookup_byte y 0 Hy) as (b0 & Hb0 & _); [lia|].
  rewrite Hb0. cbn [mbind option_bind]. destruct mem as [m|]; [|by exists (inl QE_WSFULL)]. specialize (Hmem m eq_refl).
  assert (Hbe : (b0 =? 0) = frame_be y) by (unfold frame_be, rd; by rewrite Hb0). rewrite Hbe.
  assert (Hl4 : length (take 4 y ++ drop 4 m) = (length y / 2)%nat) by (rewrite length_app, length_take, length_drop; lia).
  rewrite aset_some by lia. cbn [mbind option_bind]. unfold Q_WIRE_MSG_MAX in Hmax.
  destruct (put_u32_spec (frame_be y) 8 (length y) (<[2%nat := 1]> (take 4 y ++ drop 4 m))) as (z0 & -> & Hlz0 & Hz0 & Htot);
    [rewrite length_insert; lia|lia|]. cbn [mbind option_bind]. rewrite length_insert, Hl4 in Hlz0. change (Lz z0 0 0 0 0 12 12 0 8 _) with (lz_init z0).
  pose proof (lz_init_wf y z0 E Hlz0) as Hw.
  destruct (lz_loop_total y Hy _ (S (length y)) (lz_init z0) ltac:(lia) Hw) as [->|(st & Hst)]; [simpl; lia|by exists (inr y); split; [|left]|].
  destruct (compress_finish y m z0 st Hy ltac:(unfold Q_WIRE_MSG_MAX; lia) Hlz0 ltac:(intros; apply Hz0; lia) Htot Hst) as (z1 & Hz1 & Hcf).
  rewrite Hst. cbn [mbind option_bind]. revert Hz1. destruct (aset (l_z st) (l_c st) (u8 (l_f st))); cbn [mbind option_bind]; [|done].
  intros ->. cbn [mbind option_bind]. eexists. split; [done|]. right. split; [done|exact Hcf].
Qed.

Lemma q_wire_uncompress_spec alloc_ok pl be :
  bytes_ok pl ->
  exists r, q_wire_uncompress_payload alloc_ok pl be = Some r /\
    match r with
    | inl err => err = QE_DOMAIN \/ err = QE_WSFULL /\ alloc_ok = false
    | inr x => alloc_ok = true /\ 0 < length x <= (length pl - 4) / 2 * 257 /\
               length x + 8 = get_u32 be pl /\ get_u32 be pl <= Q_WIRE_MSG_MAX /\ bytes_ok x
    end.
Proof.
  intros Hpl. unfold q_wire_uncompress_payload. cbv zeta.
  bif; [eexists; split; [done|by left]|]. bif; [eexists; split; [done|by left]|].
  bif; [eexists; split; [done|by left]|]. destruct alloc_ok; cbn [negb]; [|eexists; split; [done|by right]].
  set (usz := get_u32 be pl) in *.
  destruct (unlz_loop_safe (S (Z.to_nat usz)) pl (Z.to_nat usz) (Unlz (replicate 8 0) 0 0 8 8 4 0 (replicate 256 0%nat)))
    as (r & -> & Hr); [done|apply unlz_init_wf; lia|simpl; lia|].
  exists r. split; [done|]. destruct r as [err|x]; [by left|]. destruct Hr as [Hx Hb].
  split; [done|]. split; [lia|]. split; [lia|]. split; [lia|done].
Qed.

(** * Properties *)

(** C13. Decompression of any bytes, in either byte order, ends without
    leaving its buffers or reading a byte it has not written: the payload is
    refused with [QE_DOMAIN] (or [QE_WSFULL] without memory), or yields exactly
    the claimed number of bytes, which are then more than none and bounded. *)
Theorem q_wire_uncompress_safe alloc_ok pl be :
  bytes_ok pl ->
  exists r, q_wire_uncompress_payload alloc_ok pl be = Some r /\
    match r with
    | inl err => err = QE_DOMAIN \/ err = QE_WSFULL /\ alloc_ok = false
    | inr x => alloc_ok = true /\ 0 < length x <= (length pl - 4) / 2 * 257 /\
               length x + 8 = get_u32 be pl /\ get_u32 be pl <= Q_WIRE_MSG_MAX /\ bytes_ok x
    end.
Proof. apply q_wire_uncompress_spec. Qed.

(** C12. Compression always finishes inside its buffers, whatever the memory it
    is given held before: it fails only for want of memory, a frame of at most
    2008 bytes is returned as it is, and a compressed frame is at most half as
    long, carries its own length and expands to the body of the original. *)
Theorem q_wire_compress_correct mem y :
  bytes_ok y -> 0 < length y <= Q_WIRE_MSG_MAX ->
  (forall m, mem = Some m -> length m = (length y / 2)%nat) ->
  exists r, q_wire_compress mem y = Some r /\
    match r with
    | inl err => err = QE_WSFULL /\ mem = None /\ (2008 < length y)%nat
    | inr out => out = y \/ (2008 < length y)%nat /\ compressed_frame y out
    end.
Proof. apply q_wire_compress_spec. Qed.

(** A frame of 2308 bytes with a repeating body. *)
Definition demo_frame : list Z :=
  [1; 0; 0; 0; 4; 9; 0; 0] ++ concat (replicate 230 [97; 98; 99; 100; 97; 98; 120; 121; 122; 0]).

Lemma demo_frame_ok : bytes_ok demo_frame /\ 0 < length demo_frame <= Q_WIRE_MSG_MAX.
Proof.
  split; [|by vm_compute]. apply Forall_forall. intros b Hb.
  assert (Hall : forallb (fun b => (0 <=? b) && (b <? 256)) demo_frame = true) by by vm_compute.
  rewrite forallb_forall in Hall. specialize (Hall b (proj1 (list_elem_of_In _ _) Hb)). bprop. by split.
Qed.

Lemma q_wire_uncompress_safe_witness :
  bytes_ok [10; 0; 0; 0; 0; 65; 66] /\
  exists r, q_wire_uncompress_payload true [10; 0; 0; 0; 0; 65; 66] false = Some r /\
    match r with
    | inl err => err = QE_DOMAIN \/ err = QE_WSFULL /\ true = false
    | inr x => true = true /\ 0 < length x <= (7%nat - 4) / 2 * 257 /\
               length x + 8 = 10 /\ 10 <= Q_WIRE_MSG_MAX /\ bytes_ok x
    end.
Proof.
  assert (Hb : bytes_ok [10; 0; 0; 0; 0; 65; 66]) by (repeat constructor; unfold byte_ok; lia).
  split; [exact Hb|]. exact (q_wire_uncompress_safe true _ false Hb).
Defined.

Lemma q_wire_compress_correct_witness :
  bytes_ok demo_frame /\ length demo_frame = 2308%nat /\
  exists out, q_wire_compress (Some (replicate 1154 7)) demo_frame = Some (inr out) /\ compressed_frame demo_frame out.
Proof.
  split; [apply demo_frame_ok|]. split; [by vm_compute|].
  destruct (q_wire_compress_correct (Some (replicate 1154 7)) demo_frame (proj1 demo_frame_ok) (proj2 demo_frame_ok)) as (r & Hr & Hcase).
  - intros m [= <-]. by vm_compute.
  - destruct r as [err|out]; [by destruct Hcase as (_ & ? & _)|]. exists out. split; [exact Hr|].
    destruct Hcase as [->|[_ H]]; [|exact H]. exfalso.
    assert (Hs : match q_wire_compress (Some (replicate 1154 7)) demo_frame with
                 | Some (inr o) => (length o <? 1154)%nat | _ => false end = true) by by vm_compute.
    rewrite Hr in Hs. by vm_compute in Hs.
Defined.
