(* ===== verification/WireDl.v ===== *)
(** * Library functions on the wire ([src/qlang/net/q_wire.c], [w_dl_call],
    [dl_call_value])

    A C function travels as the source text of its [2:] call.  [dl_text] is the
    text the writer prints, [dl_scan] the byte scanner of the reader; a pointer
    into the text is the list of the bytes from it to [end]. *)
From Stdlib Require Import ZArith Lia.
From Stdlib Require Import String Ascii.
From S2P Require Import Prelude.

(** The bytes of a C string literal. *)
Definition cstr (s : String.string) : list Z := (fun a => Z.of_N (N_of_ascii a)) <$> String.list_ascii_of_string s.

Definition DL_PARAMS : list Z := Eval vm_compute in cstr "xyzabcde".

(** The library name of this process's own natives. *)
Definition DL_SELF : list Z := Eval vm_compute in cstr "pq".

(** A byte a name of the template may hold. *)
Definition dl_name_char (lib : bool) (c : Z) : bool :=
  (97 <=? c) && (c <=? 122) || (65 <=? c) && (c <=? 90) || (48 <=? c) && (c <=? 57) || (c =? 95) || (c =? 46)
  || lib && ((c =? 58) || (c =? 47)).

Definition dl_name_len (p : list Z) (lib : bool) : nat := length (prefix_while (dl_name_char lib) p).

Definition dl_library_native (p : list Z) : bool := (1 <? length p)%nat && (p.[0] =? 46).

(** [x;y;z]: the first [rank] parameters. *)
Fixpoint dl_join (ps : list Z) : list Z :=
  match ps with
  | [] => []
  | c :: ps' => c :: match ps' with [] => [] | _ => 59 :: dl_join ps' end
  end.
Definition dl_ps (rank : Z) : list Z := dl_join (take (Z.to_nat rank) DL_PARAMS).

(** [snprintf(s, cap, ...)]: at most [cap - 1] bytes of the format's output. *)
Definition dl_format (ps lib fn : list Z) (rank : Z) : list Z :=
  cstr "{[" ++ ps ++ cstr "] (`" ++ lib ++ cstr " 2:(`" ++ fn ++ cstr ";" ++ [48 + rank] ++ cstr "))[" ++ ps ++ cstr "]}".
Definition dl_cap (ps lib fn : list Z) : nat := (length lib + length fn + 2 * length ps + 32)%nat.
Definition dl_text (lib fn : list Z) (rank : Z) : list Z :=
  let ps := dl_ps rank in take (dl_cap ps lib fn - 1) (dl_format ps lib fn rank).

(** The names and the rank [w_dl_call] accepts. *)
Definition dl_ok (lib fn : list Z) (rank : Z) : bool :=
  negb ((rank <? 1) || (length DL_PARAMS <? rank) || (length lib =? 0)%nat || (length fn =? 0)%nat
        || negb (dl_name_len lib true =? length lib)%nat || negb (dl_name_len fn false =? length fn)%nat).

(** ** The scanner *)
Fixpoint dl_lit (p lit : list Z) {struct lit} : option (list Z) :=
  match lit with
  | [] => Some p
  | c :: lit => match p with c' :: p => if c' =? c then dl_lit p lit else None | [] => None end
  end.

(** [fuel] is what is left of [DL_PARAMS] from [i]. *)
Fixpoint dl_params_loop (fuel : list Z) (p : list Z) (i : Z) : option (Z * list Z) :=
  match fuel with
  | [] => None
  | c :: fuel =>
      match p with
      | [] => None
      | c' :: p =>
          if c' =? c then
            match p with
            | x :: p' => if x =? 59 then dl_params_loop fuel p' (i + 1) else Some (i + 1, p)
            | [] => Some (i + 1, p)
            end
          else None
      end
  end.

Definition dl_params (p : list Z) (rank : Z) : option (Z * list Z) :=
  '(i, p) ← dl_params_loop DL_PARAMS p 0;
  if negb (rank =? 0) && negb (i =? rank) then None else Some (i, p).

Definition dl_scan (s : list Z) : option (list Z * list Z * Z) :=
  p ← dl_lit s (cstr "{[");
  '(rank, p) ← dl_params p 0;
  p ← dl_lit p (cstr "] (`");
  let ln := dl_name_len p true in
  let lib := take ln p in
  if (ln =? 0)%nat then None
  else
    p ← dl_lit (drop ln p) (cstr " 2:(`");
    let fnn := dl_name_len p false in
    let fn := take fnn p in
    if (fnn =? 0)%nat then None
    else
      p ← dl_lit (drop fnn p) [59; 48 + rank; 41];
      p ← dl_lit p (cstr ")[");
      '(_, p) ← dl_params p rank;
      p ← dl_lit p (cstr "]}");
      match p with [] => Some (lib, fn, rank) | _ => None end.

(** * Lemmas *)
Lemma dl_lit_app lit p : dl_lit (lit ++ p) lit = Some p.
Proof. induction lit as [|c lit IH]; [done|]. cbn [app dl_lit]. by rewrite Z.eqb_refl. Qed.

Lemma dl_lit_inv p lit q : dl_lit p lit = Some q -> p = lit ++ q.
Proof.
  revert p. induction lit as [|c lit IH]; intros p; cbn [dl_lit]; [by intros [= <-]|].
  destruct p as [|c' p]; [done|]. destruct (Z.eqb_spec c' c) as [->|]; [|done]. by intros ->%IH.
Qed.

(** No separator directly after the list. *)
Definition dl_stop (p : list Z) : Prop := head p <> Some 59.

Lemma dl_loop_join ps rest p i :
  ps <> [] -> dl_stop p -> dl_params_loop (ps ++ rest) (dl_join ps ++ p) i = Some (i + length ps, p).
Proof.
  intros Hne Hp. revert i Hne. induction ps as [|c ps IH]; intros i Hne; [done|]. destruct ps as [|c2 ps].
  - cbn [dl_join app dl_params_loop length]. rewrite Z.eqb_refl. destruct p as [|x p]; [done|].
    destruct (Z.eqb_spec x 59) as [->|]; [by destruct Hp|done].
  - change ((c :: c2 :: ps) ++ rest) with (c :: ((c2 :: ps) ++ rest)).
    change (dl_join (c :: c2 :: ps)) with (c :: 59 :: dl_join (c2 :: ps)). cbn [app dl_params_loop]. rewrite !Z.eqb_refl.
    transitivity (dl_params_loop ((c2 :: ps) ++ rest) (dl_join (c2 :: ps) ++ p) (i + 1)); [done|]. rewrite IH by done. do 2 f_equal.
    change (length (c :: c2 :: ps)) with (S (length (c2 :: ps))). lia.
Qed.

Lemma dl_loop_inv fuel p i k q : dl_params_loop fuel p i = Some (k, q) ->
  exists n : nat, k = i + n /\ (0 < n <= length fuel)%nat /\ p = dl_join (take n fuel) ++ q /\ dl_stop q.
Proof.
  revert p i. induction fuel as [|c fuel IH]; intros p i; cbn [dl_params_loop]; [done|].
  destruct p as [|c' p]; [done|]. destruct (Z.eqb_spec c' c) as [->|]; [|done].
  destruct p as [|x p]; [|destruct (Z.eqb_spec x 59) as [->|Hne]].
  - intros [= <- <-]. exists 1%nat. split; [lia|]. split; [simpl; lia|]. by destruct fuel.
  - intros (n & -> & Hn & -> & Hs)%IH. exists (S n). split; [lia|]. split; [simpl; lia|]. split; [|done]. cbn [take].
    destruct fuel as [|c2 fuel]; [simpl in Hn; lia|]. destruct n as [|n]; [lia|]. done.
  - intros [= <- <-]. exists 1%nat. split; [lia|]. split; [simpl; lia|]. split; [by destruct fuel|].
    intros [= ?]. done.
Qed.

Lemma dl_ps_params rank r p : 1 <= rank <= 8 -> r = 0 \/ r = rank -> dl_stop p ->
  dl_params (dl_ps rank ++ p) r = Some (rank, p).
Proof.
  intros Hr Hrr Hp. unfold dl_params, dl_ps. rewrite <- (take_drop (Z.to_nat rank) DL_PARAMS) at 1.
  assert (Hl : length (take (Z.to_nat rank) DL_PARAMS) = Z.to_nat rank) by (rewrite length_take; change (length DL_PARAMS) with 8%nat; lia).
  rewrite dl_loop_join; [|intros E; rewrite E in Hl; simpl in Hl; lia|done]. cbn [mbind option_bind].
  rewrite Hl. replace (0 + Z.to_nat rank) with rank by lia.
  destruct Hrr as [->| ->]; [by rewrite Z.eqb_refl|]. by rewrite Z.eqb_refl, andb_false_r.
Qed.

Lemma dl_params_inv p r k q : dl_params p r = Some (k, q) ->
  1 <= k <= 8 /\ (r = 0 \/ r = k) /\ p = dl_ps k ++ q /\ dl_stop q.
Proof.
  unfold dl_params. destruct (dl_params_loop DL_PARAMS p 0) as [[i p']|] eqn:E; [|done]. cbn [mbind option_bind].
  apply dl_loop_inv in E as (n & -> & Hn & -> & Hs). change (length DL_PARAMS) with 8%nat in Hn.
  bif; [done|]. intros [= <- <-]. split; [lia|]. split; [|split; [|done]].
  - destruct E; bprop; [left; lia|right; lia].
  - unfold dl_ps. by replace (Z.to_nat (0 + n)) with n by lia.
Qed.

(** A name followed by a byte that no name holds. *)
Lemma name_split lib s c p : dl_name_len s lib = length s -> dl_name_char lib c = false ->
  dl_name_len (s ++ c :: p) lib = length s.
Proof.
  unfold dl_name_len. intros Hs Hc. assert (Hall : Forall (fun c => dl_name_char lib c = true) s).
  { clear Hc. induction s as [|a s IH]; [done|]. cbn [prefix_while] in Hs. destruct (dl_name_char lib a) eqn:Ea; [|done].
    constructor; [done|]. apply IH. simpl in Hs. lia. }
  rewrite prefix_while_app by done. cbn [prefix_while]. by rewrite Hc, app_nil_r.
Qed.

Lemma prefix_while_idem f s : prefix_while f (prefix_while f s) = prefix_while f s.
Proof. induction s as [|a s IH]; [done|]. cbn [prefix_while]. destruct (f a) eqn:E; [|done]. cbn [prefix_while]. by rewrite E, IH. Qed.

Lemma take_name_len p lib : take (dl_name_len p lib) p = prefix_while (dl_name_char lib) p.
Proof.
  unfold dl_name_len. induction p as [|a p IH]; [done|]. cbn [prefix_while]. destruct (dl_name_char lib a); [|done].
  cbn [length take]. by rewrite IH.
Qed.

Lemma length_dl_ps rank : 1 <= rank <= 8 -> (length (dl_ps rank) <= 15)%nat.
Proof.
  intros Hr. assert (Hr' : exists k : nat, (1 <= k <= 8)%nat /\ rank = k) by (exists (Z.to_nat rank); lia).
  destruct Hr' as (k & Hk & ->). do 9 (destruct k as [|k]; [vm_compute; lia|]). lia.
Qed.

(** The buffer is large enough: the text is never cut. *)
Lemma dl_text_format lib fn rank : dl_text lib fn rank = dl_format (dl_ps rank) lib fn rank.
Proof.
  unfold dl_text. cbv zeta. apply take_ge. unfold dl_format, dl_cap. rewrite !length_app.
  change (length (cstr "{[")) with 2%nat. change (length (cstr "] (`")) with 4%nat. change (length (cstr " 2:(`")) with 5%nat.
  change (length (cstr ";")) with 1%nat. change (length [48 + rank]) with 1%nat. change (length (cstr "))[")) with 3%nat.
  change (length (cstr "]}")) with 2%nat. lia.
Qed.

Lemma dl_ok_spec lib fn rank : dl_ok lib fn rank = true <->
  1 <= rank <= 8 /\ lib <> [] /\ fn <> [] /\ dl_name_len lib true = length lib /\ dl_name_len fn false = length fn.
Proof.
  unfold dl_ok. change (Z.of_nat (length DL_PARAMS)) with 8.
  assert (Hn : forall l : list Z, l <> [] <-> (length l =? 0)%nat = false) by (intros [|x l]; by split).
  rewrite negb_true_iff, !orb_false_iff, <- !Hn, Z.ltb_ge, Z.ltb_ge, !negb_false_iff, !Nat.eqb_eq. intuition lia.
Qed.

(** * Property *)

(** The scanner recognises exactly the texts the writer prints: it
    returns a library, a function and a rank if and only if the writer accepts
    them and prints that very text; in particular the text is never cut by its
    buffer and what was written is read back. *)
Theorem dl_scan_exact s lib fn rank :
  dl_scan s = Some (lib, fn, rank) <-> dl_ok lib fn rank = true /\ s = dl_text lib fn rank.
Proof.
  rewrite dl_ok_spec, dl_text_format. split.
  - unfold dl_scan. cbv zeta. destruct (dl_lit s (cstr "{[")) as [p|] eqn:E1; cbn [mbind option_bind]; [|done].
    destruct (dl_params p 0) as [[rank' p2]|] eqn:E2; cbn [mbind option_bind]; [|done].
    destruct (dl_lit p2 (cstr "] (`")) as [p3|] eqn:E3; cbn [mbind option_bind]; [|done]. bif; [done|].
    destruct (dl_lit (drop _ p3) (cstr " 2:(`")) as [p4|] eqn:E4; cbn [mbind option_bind]; [|done]. bif; [done|].
    destruct (dl_lit (drop _ p4) [59; 48 + rank'; 41]) as [p5|] eqn:E5; cbn [mbind option_bind]; [|done].
    destruct (dl_lit p5 (cstr ")[")) as [p6|] eqn:E6; cbn [mbind option_bind]; [|done].
    destruct (dl_params p6 rank') as [[r3 p7]|] eqn:E7; cbn [mbind option_bind]; [|done].
    destruct (dl_lit p7 (cstr "]}")) as [[|]|] eqn:E8; cbn [mbind option_bind]; [|done|done]. intros [= <- <- <-].
    apply dl_lit_inv in E1, E3, E4, E5, E6, E8. apply dl_params_inv in E2 as (Hr & _ & -> & _).
    apply dl_params_inv in E7 as (_ & Hr3 & -> & _). assert (r3 = rank') as -> by lia.
    assert (Hp3 : p3 = take (dl_name_len p3 true) p3 ++ cstr " 2:(`" ++ p4) by (rewrite <- E4; by rewrite take_drop).
    assert (Hp4 : p4 = take (dl_name_len p4 false) p4 ++ [59; 48 + rank'; 41] ++ p5) by (rewrite <- E5; by rewrite take_drop).
    split; [split; [done|]|].
    + rewrite !take_name_len. unfold dl_name_len in *. rewrite !prefix_while_idem.
      split; [intros Hn; by rewrite Hn in E|]. split; [intros Hn; by rewrite Hn in E0|done].
    + rewrite E1, E3, Hp3 at 1. rewrite Hp4 at 1. rewrite E6, E8, app_nil_r. unfold dl_format. do 6 f_equal.
  - intros [(Hr & Hlib & Hfn & Hl & Hf) ->]. unfold dl_scan, dl_format. cbv zeta. rewrite dl_lit_app. cbn [mbind option_bind].
    rewrite (dl_ps_params rank) by (done || by left). cbn [mbind option_bind]. rewrite dl_lit_app. cbn [mbind option_bind].
    change (cstr " 2:(`" ++ ?x) with (32 :: (cstr "2:(`" ++ x)).
    rewrite (name_split true lib) by done. rewrite take_app_length, drop_app_length.
    bif; [by destruct lib|]. change (32 :: (cstr "2:(`" ++ ?x)) with (cstr " 2:(`" ++ x). rewrite dl_lit_app. cbn [mbind option_bind].
    change (cstr ";" ++ ?x) with (59 :: x). rewrite (name_split false fn) by done. rewrite take_app_length, drop_app_length.
    bif; [by destruct fn|]. change (59 :: [48 + rank] ++ cstr "))[" ++ ?x) with ([59; 48 + rank; 41] ++ cstr ")[" ++ x).
    rewrite dl_lit_app. cbn [mbind option_bind]. rewrite dl_lit_app. cbn [mbind option_bind].
    rewrite (dl_ps_params rank) by (done || by right). cbn [mbind option_bind].
    rewrite <- (app_nil_r (cstr "]}")), dl_lit_app. done.
Qed.

Example dl_scan_demo :
  dl_text (cstr ":lib/demo") (cstr "add_2") 2 = cstr "{[x;y] (`:lib/demo 2:(`add_2;2))[x;y]}" /\
  dl_scan (cstr "{[x;y] (`pq 2:(`.ffi.bind;2))[x;y]}") = Some (cstr "pq", cstr ".ffi.bind", 2) /\
  dl_scan (cstr "{[x;z] (`pq 2:(`.ffi.bind;2))[x;z]}") = None.
Proof. by vm_compute. Qed.
