(* ===== verification/WireVal.v ===== *)
(** * Values of the wire codec ([include/rayforce.h], [src/core/types.c],
    [src/qlang/ops/q_list.c], [src/qlang/ops/q_attr.c])

    The value types with their tags and sizes, the values the codec reads and
    writes, the run collapse of boxed lists and the attribute bytes.  A scalar
    is the unsigned pattern of its payload (a real is that of its [float], a
    guid that of its sixteen bytes, first byte lowest); a symbol is its text
    ([Sym] shows that interning is faithful). *)
From Stdlib Require Import ZArith Lia.
From S2P Require Import Prelude WireLz.

Inductive ray_type_e :=
  | RAY_LIST | RAY_BOOL | RAY_GUID | RAY_U8 | RAY_I16 | RAY_I32 | RAY_I64 | RAY_F32 | RAY_F64 | RAY_CHARV | RAY_SYM
  | RAY_TIMESTAMP | RAY_MONTH | RAY_DATE | RAY_DATETIME | RAY_TIMESPAN | RAY_MINUTE | RAY_SECOND | RAY_TIME
  | RAY_ENUM | RAY_STR.

#[export] Instance ray_type_e_eq : EqDecision ray_type_e.
Proof. solve_decision. Defined.

Definition tag (t : ray_type_e) : Z :=
  match t with
  | RAY_LIST => 0 | RAY_BOOL => 1 | RAY_GUID => 2 | RAY_U8 => 4 | RAY_I16 => 5 | RAY_I32 => 6 | RAY_I64 => 7
  | RAY_F32 => 8 | RAY_F64 => 9 | RAY_CHARV => 10 | RAY_SYM => 11 | RAY_TIMESTAMP => 12 | RAY_MONTH => 13
  | RAY_DATE => 14 | RAY_DATETIME => 15 | RAY_TIMESPAN => 16 | RAY_MINUTE => 17 | RAY_SECOND => 18 | RAY_TIME => 19
  | RAY_ENUM => 20 | RAY_STR => 21
  end.

Definition ray_types : list ray_type_e :=
  [RAY_LIST; RAY_BOOL; RAY_GUID; RAY_U8; RAY_I16; RAY_I32; RAY_I64; RAY_F32; RAY_F64; RAY_CHARV; RAY_SYM;
   RAY_TIMESTAMP; RAY_MONTH; RAY_DATE; RAY_DATETIME; RAY_TIMESPAN; RAY_MINUTE; RAY_SECOND; RAY_TIME; RAY_ENUM; RAY_STR].

(** [(ray_type_e)tag], for a tag of the enumeration. *)
Definition type_of_tag (z : Z) : option ray_type_e := List.find (fun t => tag t =? z) ray_types.

Definition ray_type_sizes (t : ray_type_e) : nat :=
  match t with
  | RAY_BOOL | RAY_U8 | RAY_CHARV => 1
  | RAY_I16 => 2
  | RAY_I32 | RAY_F32 | RAY_MONTH | RAY_DATE | RAY_MINUTE | RAY_SECOND | RAY_TIME => 4
  | RAY_LIST | RAY_ENUM | RAY_I64 | RAY_F64 | RAY_SYM | RAY_TIMESTAMP | RAY_DATETIME | RAY_TIMESPAN => 8
  | RAY_GUID | RAY_STR => 16
  end.

(** The types of scalars and flat vectors: everything but lists, symbols,
    pooled strings and enumerations. *)
Definition is_flat (t : ray_type_e) : bool :=
  match t with RAY_LIST | RAY_SYM | RAY_STR | RAY_ENUM => false | _ => true end.

Definition RAY_ATTR_SLICE : Z := 0x10.
Definition RAY_ATTR_SORTED : Z := 0x20.
Definition RAY_ATTR_HAS_NULLS : Z := 0x40.

(** A value.  [nulls] is the HAS_NULLS flag of a vector and [letter] the kdb
    byte of its attribute (none, s, u, p, g); a list and an engine lambda keep
    their whole attribute byte. *)
Inductive obj :=
  | ONull                                                       (* RAY_NULL_OBJ *)
  | OHole                                                       (* Q_HOLE_OBJ *)
  | OErr (text : list Z)
  | OAtom (t : ray_type_e) (v : Z)
  | OTNull (t : ray_type_e)                                     (* a byte or boolean with the aux null bit *)
  | OSym (quoted : bool) (s : list Z)
  | OStr (s : list Z)                                           (* -RAY_STR *)
  | OVec (t : ray_type_e) (nulls : bool) (letter : Z) (data : list Z)
  | OSymVec (letter : Z) (l : list (list Z))
  | OStrVec (nulls : bool) (letter : Z) (l : list (list Z))
  | OList (attrs : Z) (l : list obj)
  | ODict (sorted : bool) (k v : obj)
  | OTable (sorted : bool) (names : list (list Z)) (cols : list obj)
  | OLambda (attrs : Z) (params body : obj)                     (* RAY_LAMBDA *)
  | OFn (valence id : Z)                                        (* RAY_UNARY, RAY_BINARY, RAY_VARY *)
  | OIter (id : Z)                                              (* RAY_QFN carriers *)
  | OLam (ctx src : list Z)
  | OProj (head : obj) (args : list (option obj))
  | OComp (parts : list obj)
  | ODeriv (adv : Z) (body : obj)
  | OKfn (lib fn : list Z) (rank : Z)
  | OOther (t : Z).                                             (* any other block *)

(** The outcome of an operation that returns a value: [RAY_IS_ERR] holds of an
    error the operation makes and of an error value. *)
Definition res : Type := (q_err + obj)%type.
Definition is_err (r : res) : bool := match r with inl _ | inr (OErr _) => true | _ => false end.

(** ** Attributes *)
Definition list_sorted (attrs : Z) : bool := negb (Z.land attrs RAY_ATTR_SORTED =? 0).

(** [q_attr_byte], through [q_attr_letter]. *)
Definition q_attr_byte (x : obj) : Z :=
  match x with
  | OVec _ _ letter _ | OSymVec letter _ | OStrVec _ letter _ => letter
  | OList attrs _ => if list_sorted attrs then 1 else 0
  | ODict sorted _ _ | OTable sorted _ _ => if sorted then 1 else 0
  | _ => 0
  end.

(** [q_attr_stamp_trusted(v, 's')] on a fresh value. *)
Definition q_attr_stamp_trusted (x : obj) : obj :=
  match x with
  | OVec t nulls _ d => OVec t nulls 1 d
  | OSymVec _ l => OSymVec 1 l
  | OStrVec nulls _ l => OStrVec nulls 1 l
  | OList attrs l => OList (Z.lor attrs RAY_ATTR_SORTED) l
  | ODict _ k v => ODict true k v
  | OTable _ n c => OTable true n c
  | _ => x
  end.

(** ** The codec's surroundings

    What the codec calls outside its own files, the evaluator, the registry of
    functions and the library loader, as one record of operations. *)
Record wire_env := WireEnv {
  raw_len : obj -> Z;                                  (* the [len] slot of a block that is no vector *)
  dict_rows_table : list obj -> option res;            (* like rows as a table; [None]: not that shape *)
  attr_build : obj -> Z -> res;                        (* [q_attr_rebuild] for the letters u, p, g *)
  kdb_op_of : Z -> Z -> option (Z * Z);                (* a function's class byte and code *)
  native_name : Z -> Z -> option (list Z * Z);         (* a native's full name and rank *)
  fn_name : Z -> Z -> list Z;                          (* the name serde writes *)
  fn_read : Z -> list Z -> res;                        (* the function a name and valence denote *)
  op_value : Z -> Z -> option obj;                     (* class byte and code to a function *)
  iter_value : Z -> option obj;
  dl_value : list Z -> list Z -> Z -> option obj;      (* a library function already loaded *)
  ctx_ok : list Z -> bool;                             (* [q_env_ctx_ok] *)
  lambda_value : list Z -> list Z -> res;              (* context and source to a lambda, or [QE_BADFUNC] *)
  apply_proj : obj -> list (option obj) -> res;
  apply_compose : list obj -> res;
  apply_iter : obj -> obj -> res;
  splay_flip : list (list Z) -> list Z -> option res;  (* a mapped splay or a provider's table *)
  remote_value : bool }.                               (* [ray_eval_remote_value_installed] *)

(** ** Counts *)
Definition is_vec (x : obj) : bool := match x with OVec t _ _ _ => is_flat t | OSymVec _ _ | OStrVec _ _ _ => true | _ => false end.

Definition vec_len (E : wire_env) (x : obj) : Z :=
  match x with
  | OVec t _ _ d => (length d / ray_type_sizes t)%nat
  | OSymVec _ l | OStrVec _ _ l => length l
  | OList _ l => length l
  | _ => raw_len E x
  end.

Fixpoint ray_table_nrows (E : wire_env) (x : obj) : Z :=
  match x with
  | OTable _ _ cols => match cols with c :: _ => ray_table_nrows E c | [] => 0 end
  | _ => vec_len E x
  end.

(** [q_count] of a dict's side, or -1 where the side has no count. *)
Definition side_count (E : wire_env) (x : obj) : Z :=
  match x with
  | OTable _ _ _ => ray_table_nrows E x
  | OList _ l => length l
  | _ => if is_vec x then vec_len E x else -1
  end.

(** The [n] bytes of a pattern, lowest first. *)
Fixpoint le_store (n : nat) (v : Z) : list Z :=
  match n with
  | O => []
  | S n => u8 v :: le_store n (Z.shiftr v 8)
  end.

(** ** Nulls *)
Definition flt_nan (exp_bits frac_bits : Z) (v : Z) : bool :=
  (Z.land (Z.shiftr v frac_bits) (2 ^ exp_bits - 1) =? 2 ^ exp_bits - 1) && negb (Z.land v (2 ^ frac_bits - 1) =? 0).
Definition is_nan32 : Z -> bool := flt_nan 8 23.
Definition is_nan64 : Z -> bool := flt_nan 11 52.

(** The sentinel of a type's null, as a pattern. *)
Definition null_bits (t : ray_type_e) : Z :=
  match t with
  | RAY_I16 => 0x8000
  | RAY_I32 | RAY_MONTH | RAY_DATE | RAY_MINUTE | RAY_SECOND | RAY_TIME => 0x80000000
  | RAY_I64 | RAY_TIMESTAMP | RAY_TIMESPAN => 0x8000000000000000
  | RAY_F32 => 0xFFC00000
  | RAY_F64 | RAY_DATETIME => 0xFFF8000000000000
  | _ => 0
  end.

(** The elements the scan of [q_wire_fixed_vec] takes for nulls. *)
Definition scan_null (t : ray_type_e) (v : Z) : bool :=
  match t with
  | RAY_I16 | RAY_I32 | RAY_MONTH | RAY_DATE | RAY_MINUTE | RAY_SECOND | RAY_TIME
  | RAY_I64 | RAY_TIMESTAMP | RAY_TIMESPAN | RAY_ENUM => v =? null_bits t
  | RAY_F32 => is_nan32 v
  | RAY_F64 | RAY_DATETIME => is_nan64 v
  | RAY_BOOL | RAY_U8 | RAY_GUID | RAY_CHARV | RAY_LIST | RAY_STR | RAY_SYM => false
  end.

(** [RAY_ATOM_IS_NULL], where a vector of the type can hold the null. *)
Definition atom_null (t : ray_type_e) (v : Z) : bool := scan_null t v || bool_decide (t = RAY_GUID) && (v =? 0).

(** ** Collapse of boxed runs *)
Definition run_bits (t : ray_type_e) (x : obj) : option (bool * Z) :=
  match x with
  | OAtom t' v =>
      if decide (t' = t) then Some (if atom_null t v then (true, null_bits t) else (false, v)) else None
  | OTNull t' => if decide (t' = t) then Some (false, 0) else None
  | _ => None
  end.
Definition run_sym (x : obj) : option (list Z) := match x with OSym _ s => Some s | _ => None end.

Definition atom_run_collapse (attrs : Z) (l : list obj) : obj :=
  match l with
  | OAtom t _ :: _ | OTNull t :: _ =>
      if is_flat t then
        match mapM (run_bits t) l with
        | Some vs => OVec t (existsb fst vs) 0 (concat ((fun v => le_store (ray_type_sizes t) v.2) <$> vs))
        | None => OList attrs l
        end
      else OList attrs l
  | OSym _ _ :: _ => match mapM run_sym l with Some ss => OSymVec 0 ss | None => OList attrs l end
  | _ => OList attrs l
  end.

Definition q_list_collapse (E : wire_env) (attrs : Z) (l : list obj) : res :=
  match l with
  | ODict _ _ _ :: _ =>
      match dict_rows_table E l with
      | Some tb => tb
      | None => inr (atom_run_collapse attrs l)
      end
  | _ => inr (atom_run_collapse attrs l)
  end.

(** [q_attr_stamp_byte] on a fresh value. *)
Definition q_attr_stamp_byte (E : wire_env) (x : obj) (b : Z) : res :=
  if (b <? 1) || (4 <? b) then inr x
  else if b =? 1 then inr (q_attr_stamp_trusted x)
  else attr_build E x b.
