(* ===== verification/WireWrite.v ===== *)
(** * The wire writer ([src/qlang/net/q_wire.c], [q_wire_write_obj])

    The output buffer with its measure mode and the writer of every value, in
    wire and in serde mode.  A writer returns [true] for the code's 0 and
    [false] for its -1; the depth argument is what is left of
    [Q_WIRE_MAX_DEPTH]. *)
From Stdlib Require Import ZArith Lia.
From S2P Require Import Prelude WireLz WireDl WireVal.

Record q_wire_wbuf_t := WBuf {
  w_p : list Z; w_len : Z; w_cap : Z; w_err : option q_err; w_serde : bool; w_measure : bool }.

Definition Q_WIRE_MAX_DEPTH : nat := 512.
Definition INT32_MAX : Z := 2147483647.

Section writer.
Context (E : wire_env) (realloc_ok : Z -> bool).

Definition W : Type := q_wire_wbuf_t -> bool * q_wire_wbuf_t.

Definition wbuf_fail (e : q_err) : W := fun b =>
  (false, match w_err b with
          | None => WBuf (w_p b) (w_len b) (w_cap b) (Some e) (w_serde b) (w_measure b)
          | Some _ => b
          end).

(** [while (cap < b->len + need) cap *= 2]; lengths are below [2^63]. *)
Fixpoint grow_to (fuel : nat) (cap need : Z) : Z :=
  match fuel with
  | O => cap
  | S fuel => if cap <? need then grow_to fuel (cap * 2) need else cap
  end.

Definition wbuf_reserve (need : Z) : W := fun b =>
  if w_len b + need <=? w_cap b then (true, b)
  else
    let cap := grow_to 64 (if w_cap b =? 0 then 64 else w_cap b) (w_len b + need) in
    if realloc_ok cap then (true, WBuf (w_p b) (w_len b) cap (w_err b) (w_serde b) (w_measure b))
    else wbuf_fail QE_WSFULL b.

Definition w_raw (src : list Z) : W := fun b =>
  if w_measure b then (true, WBuf (w_p b) (w_len b + length src) (w_cap b) (w_err b) (w_serde b) (w_measure b))
  else
    let '(ok, b) := wbuf_reserve (length src) b in
    if ok : bool then
      (true, WBuf (w_p b ++ src) (w_len b + length src) (w_cap b) (w_err b) (w_serde b) (w_measure b))
    else (false, b).

(** [a || b]: [b] runs when [a] returned 0. *)
Definition w_seq (m k : W) : W := fun b => let '(ok, b) := m b in if ok : bool then k b else (false, b).
Definition w_done : W := fun b => (true, b).
Notation "m ;> k" := (w_seq m k) (at level 62, right associativity).

(** [for (i = 0; i < n && !rc; i++) rc = f(l[i])]. *)
Fixpoint w_each {A} (f : A -> W) (l : list A) : W :=
  match l with
  | [] => w_done
  | x :: l => f x ;> w_each f l
  end.

Definition w_u8 (v : Z) : W := w_raw [u8 v].
Definition w_i16 (v : Z) : W := w_raw [u8 v; u8 (Z.shiftr (u16 v) 8)].
Definition w_i32 (v : Z) : W :=
  let u := u32 v in w_raw [u8 u; u8 (Z.shiftr u 8); u8 (Z.shiftr u 16); u8 (Z.shiftr u 24)].
Definition w_i64 (v : Z) : W :=
  let u := u64 v in w_raw ((fun i : nat => u8 (Z.shiftr u (8 * i))) <$> seq 0 8).
Definition w_f64 (bits : Z) : W := w_i64 bits.
Definition w_f32 (bits : Z) : W := w_i32 bits.
Definition w_cstr (s : list Z) : W := w_raw s ;> w_u8 0.
Definition w_count (len : Z) : W := if (len <? 0) || (INT32_MAX <? len) then wbuf_fail QE_LIMIT else w_i32 len.
Definition w_charvec (s : list Z) (attrs : Z) : W := w_u8 10 ;> w_u8 attrs ;> w_count (length s) ;> w_raw s.
Definition w_sym_id (s : list Z) : W := w_cstr s.
Definition w_prim (cls code : Z) : W := w_u8 cls ;> w_u8 code.

(** The defining namespace, without its dot. *)
Definition w_lambda_ctx (ctx : list Z) : W :=
  match ctx with
  | [] => w_u8 0
  | c :: ctx' => if c =? 46 then w_cstr ctx' else w_cstr ctx
  end.

Definition w_dl_call (lib fn : list Z) (rank : Z) : W :=
  if dl_ok lib fn rank then w_u8 100 ;> w_u8 0 ;> w_charvec (dl_text lib fn rank) 0 else wbuf_fail QE_NYI.

Definition w_atom (t : ray_type_e) (v : Z) : W :=
  let tg := w_u8 (- tag t) in
  match t with
  | RAY_BOOL => tg ;> w_u8 (if v =? 0 then 0 else 1)
  | RAY_GUID => tg ;> w_raw (le_store 16 v)
  | RAY_U8 | RAY_CHARV => tg ;> w_u8 v
  | RAY_I16 => tg ;> w_i16 v
  | RAY_I32 | RAY_DATE | RAY_TIME | RAY_MONTH | RAY_MINUTE | RAY_SECOND => tg ;> w_i32 v
  | RAY_I64 | RAY_TIMESTAMP | RAY_TIMESPAN => tg ;> w_i64 v
  | RAY_F32 => tg ;> w_f32 v
  | RAY_F64 | RAY_DATETIME => tg ;> w_f64 v
  | RAY_ENUM | RAY_LIST | RAY_SYM | RAY_STR => wbuf_fail QE_NYI
  end.

(** A pooled string in serde mode: its own record. *)
Definition w_strcell (s : list Z) : W :=
  if INT32_MAX <? length s then wbuf_fail QE_LIMIT else w_i32 (length s) ;> w_raw s.

Definition is_list (x : obj) : bool := match x with OList _ _ => true | _ => false end.

(** Drop the slots of a projection that were never written. *)
Fixpoint trim_args (l : list (option obj)) : list (option obj) :=
  match l with
  | [] => []
  | a :: l => match trim_args l with [] => match a with None => [] | Some _ => [a] end | l' => a :: l' end
  end.

(** The serde records of functions; in wire mode a code or a library call. *)
Definition w_fn (valence id : Z) : W := fun b =>
  if w_serde b then (w_u8 200 ;> w_u8 valence ;> w_cstr (fn_name E valence id)) b
  else
    match kdb_op_of E valence id with
    | Some (cls, code) => w_prim cls code b
    | None =>
        match native_name E valence id with
        | Some (nm, rank) => if dl_library_native nm then w_dl_call DL_SELF nm rank b else wbuf_fail QE_NYI b
        | None => wbuf_fail QE_NYI b
        end
    end.

Definition w_table_head (sorted : bool) (names : list (list Z)) : W :=
  w_u8 98 ;> w_u8 (if sorted then 1 else 0) ;> w_u8 99 ;>
  w_u8 (tag RAY_SYM) ;> w_u8 0 ;> w_count (length names) ;> w_each w_sym_id names.

Definition by_mode (serde wire : W) : W := fun b => if w_serde b then serde b else wire b.

(** A string atom: its own record in serde; a char or a char vector on the wire. *)
Definition w_str (s : list Z) : W :=
  by_mode (if INT32_MAX <? length s then wbuf_fail QE_LIMIT else w_u8 205 ;> w_i32 (length s) ;> w_raw s)
          (match s with [c] => w_u8 0xf6 ;> w_u8 c | _ => w_charvec s 0 end).

(** A symbol atom, and the byte and boolean nulls that have no pattern. *)
Definition w_sym (quoted : bool) (s : list Z) : W :=
  by_mode (if quoted then w_u8 203 ;> w_sym_id s else w_u8 (- tag RAY_SYM) ;> w_sym_id s) (w_u8 (- tag RAY_SYM) ;> w_sym_id s).
Definition w_tnull (t : ray_type_e) : W :=
  by_mode (if decide (t = RAY_BOOL \/ t = RAY_U8) then w_u8 204 ;> w_u8 (- tag t) else w_atom t 0) (w_atom t 0).

(** A flat vector: the attribute byte says HAS_NULLS in serde and the kdb
    attribute on the wire. *)
Definition w_vec (t : ray_type_e) (nulls : bool) (letter : Z) (d : list Z) : W :=
  if decide (t = RAY_CHARV) then w_charvec d letter
  else if is_flat t then
    w_u8 (tag t) ;> by_mode (w_u8 (if nulls then RAY_ATTR_HAS_NULLS else 0)) (w_u8 letter) ;>
    w_count (length d / ray_type_sizes t)%nat ;> w_raw d
  else wbuf_fail QE_NYI.

Definition w_strvec (nulls : bool) (letter : Z) (l : list (list Z)) : W :=
  by_mode (w_u8 202 ;> w_u8 (if nulls then RAY_ATTR_HAS_NULLS else 0) ;> w_count (length l) ;> w_each w_strcell l)
          (w_u8 0 ;> w_u8 letter ;> w_count (length l) ;> w_each (fun s => w_charvec s 0) l).

Definition w_symvec (letter : Z) (l : list (list Z)) : W :=
  w_u8 (tag RAY_SYM) ;> w_u8 letter ;> w_count (length l) ;> w_each w_cstr l.

Section children.
(** [wr] is the recursive call. *)
Context (wr : option obj -> W).

(** A boxed list; on the wire a run of atoms goes as the vector it is. *)
Definition w_list_plain (a : Z) (l : list obj) : W :=
  w_u8 0 ;> w_u8 a ;> w_count (length l) ;> w_each (fun e => wr (Some e)) l.
Definition w_list (attrs : Z) (l : list obj) : W :=
  let letter := q_attr_byte (OList attrs l) in
  by_mode (w_list_plain (Z.land attrs (0xFF - RAY_ATTR_SLICE)) l)
          (match q_list_collapse E attrs l with
           | inr (OErr _) | inl _ => w_list_plain letter l
           | inr cx => if is_list cx then w_list_plain letter l else wr (Some cx)
           end).

Definition w_dict (sorted : bool) (k v : obj) : W := w_u8 (if sorted then 127 else 99) ;> wr (Some k) ;> wr (Some v).
Definition w_table (sorted : bool) (names : list (list Z)) (cols : list obj) : W :=
  w_table_head sorted names ;> wr (Some (OList 0 cols)).
Definition w_engine_lambda (attrs : Z) (params body : obj) : W :=
  by_mode (w_u8 201 ;> w_u8 attrs ;> wr (Some params) ;> wr (Some body)) (wbuf_fail QE_NYI).

(** The q carriers: none of them in serde. *)
Definition w_qfn (x : obj) : W :=
  match x with
  | OIter id => by_mode (wbuf_fail QE_NYI) (w_prim 103 id)
  | OLam ctx src => by_mode (wbuf_fail QE_NYI) (w_u8 100 ;> w_lambda_ctx ctx ;> w_charvec src 0)
  | OProj head args =>
      let args := trim_args args in
      by_mode (wbuf_fail QE_NYI) (w_u8 104 ;> w_i32 (length args + 1) ;> wr (Some head) ;> w_each wr args)
  | OComp parts => by_mode (wbuf_fail QE_NYI) (w_u8 105 ;> w_i32 (length parts) ;> w_each (fun p => wr (Some p)) parts)
  | ODeriv adv body => by_mode (wbuf_fail QE_NYI) (w_u8 (106 + adv) ;> wr (Some body))
  | OKfn lib fn rank => by_mode (wbuf_fail QE_NYI) (w_dl_call lib fn rank)
  | _ => wbuf_fail QE_NYI
  end.

(** The body of [q_wire_write_obj] for a value that is no C NULL, below the
    depth limit. *)
Definition w_obj_inner (x : obj) : W :=
  match x with
  | OErr text => w_u8 0x80 ;> w_cstr text
  | ONull => w_prim 101 0
  | OHole => w_prim 101 0xff
  | OIter _ | OLam _ _ | OProj _ _ | OComp _ | ODeriv _ _ | OKfn _ _ _ => w_qfn x
  | OFn valence id => w_fn valence id
  | OLambda attrs params body => w_engine_lambda attrs params body
  | OSym quoted s => w_sym quoted s
  | OTNull t => w_tnull t
  | OAtom t v => w_atom t v
  | OStr s => w_str s
  | ODict sorted k v => w_dict sorted k v
  | OTable sorted names cols => w_table sorted names cols
  | OVec t nulls letter d => w_vec t nulls letter d
  | OStrVec nulls letter l => w_strvec nulls letter l
  | OSymVec letter l => w_symvec letter l
  | OList attrs l => w_list attrs l
  | OOther _ => wbuf_fail QE_NYI
  end.
End children.

Fixpoint q_wire_write_obj (d : nat) (x : option obj) : W := fun b =>
  match w_err b with
  | Some _ => (false, b)
  | None =>
      match x with
      | None => if w_serde b then w_prim 101 0 b else wbuf_fail QE_TYPE b
      | Some x =>
          match d with
          | O => wbuf_fail QE_LIMIT b
          | S d => w_obj_inner (q_wire_write_obj d) x b
          end
      end
  end.

(** ** Whole frames *)
Definition wbuf0 : q_wire_wbuf_t := WBuf [] 0 0 None false false.

(** [x] is the value after [q_eval_apply_concrete]. *)
Definition q_wire_serialize (x : obj) (msgtype : Z) : option (q_err + list Z) :=
  let '(ok, b) := (w_raw [1; u8 msgtype; 0; 0; 0; 0; 0; 0] ;> q_wire_write_obj Q_WIRE_MAX_DEPTH (Some x)) wbuf0 in
  if negb ok then Some (inl (default QE_TYPE (w_err b)))
  else if Q_WIRE_MSG_MAX <? w_len b then Some (inl QE_LIMIT)
  else
    let total := u32 (w_len b) in
    p ← aset (w_p b) 4 (u8 total);
    p ← aset p 5 (u8 (Z.shiftr total 8));
    p ← aset p 6 (u8 (Z.shiftr total 16));
    p ← aset p 7 (u8 (Z.shiftr total 24));
    Some (inr (take (Z.to_nat (w_len b)) p)).

Definition q_wire_serialize_len (x : obj) : q_err + Z :=
  let '(ok, b) := q_wire_write_obj Q_WIRE_MAX_DEPTH (Some x) (WBuf [] 8 0 None false true) in
  if negb ok then inl (default QE_TYPE (w_err b))
  else if Q_WIRE_MSG_MAX <? w_len b then inl QE_LIMIT
  else inr (w_len b).
End writer.
