(* ===== verification/WireRead.v ===== *)
(** * The wire reader ([src/qlang/net/q_wire.c], [rd_obj])

    The cursor is the list of the bytes that remain, with the reader's two
    notes (a top-level error decoded, the first value error).  A read past the
    end of the buffer is [None]; a decode failure is a value.  The depth
    argument is what is left of [Q_WIRE_MAX_DEPTH], so the reader is
    structurally recursive; the host is little-endian. *)
From Stdlib Require Import ZArith Lia.
From S2P Require Import Prelude WireLz WireDl WireVal WireWrite.

(** The parts of [rcur_t] that do not change, and those that do. *)
Record rcfg := Rcfg { c_frame_be : bool; c_serde : bool; c_disk : bool }.
Record rcur_t := Rcur { c_p : list Z; c_top_err_ok : bool; c_verr : option res }.

Definition R (A : Type) : Type := rcur_t -> option (A * rcur_t).
#[export] Instance R_ret : MRet R := fun A x c => Some (x, c).
#[export] Instance R_bind : MBind R := fun A B f m c => match m c with Some (x, c') => f x c' | None => None end.

Definition with_p (p : list Z) (c : rcur_t) : rcur_t := Rcur p (c_top_err_ok c) (c_verr c).

Definition r_need (n : nat) : R bool := fun c => Some ((n <=? length (c_p c))%nat, c).
Definition r_rem : R Z := fun c => Some (Z.of_nat (length (c_p c)), c).

(** The [n] bytes at the cursor, which moves past them. *)
Definition r_take (n : nat) : R (list Z) := fun c =>
  if (n <=? length (c_p c))%nat then Some (take n (c_p c), with_p (drop n (c_p c)) c) else None.
Definition r_u8 : R Z := fun c => match c_p c with b :: p => Some (b, with_p p c) | [] => None end.

Definition load (be : bool) (bs : list Z) : Z := if be then be_load bs else le_load bs.

(** [r_i16], [r_i32], [r_i64], [r_f32] and [r_f64]: the unsigned pattern. *)
Definition r_word (cfg : rcfg) (n : nat) : R Z := bs ← r_take n; mret (load (c_frame_be cfg) bs).
Definition r_i32 (cfg : rcfg) : R Z := v ← r_word cfg 4; mret (i32 v).

(** [memchr] for the NUL; [None] when there is none. *)
Definition r_cstr : R (option (list Z)) := fun c =>
  let s := prefix_while (fun b => negb (b =? 0)) (c_p c) in
  if (length s <? length (c_p c))%nat then Some (Some s, with_p (drop (S (length s)) (c_p c)) c) else Some (None, c).

Section reader.
Context (E : wire_env) (cfg : rcfg).

Definition fail (e : q_err) : R res := mret (inl e).
Definition value (x : obj) : R res := mret (inr x).

Definition rd_value_err (r : res) : R res := fun c =>
  if is_err r then Some (inr ONull, Rcur (c_p c) (c_top_err_ok c) (match c_verr c with None => Some r | v => v end))
  else Some (r, c).

Definition rd_attr (x : obj) (b : Z) : res := if c_disk cfg && negb (b =? 1) then inr x else q_attr_stamp_byte E x b.

(** The elements of a raw vector. *)
Fixpoint elems (n : nat) (esz : nat) (d : list Z) : list (list Z) :=
  match n with
  | O => []
  | S n => take esz d :: elems n esz (drop esz d)
  end.

Definition q_wire_fixed_vec (t : ray_type_e) (p : list Z) (count : Z) (swap : bool) : res :=
  let esz := ray_type_sizes t in
  if count <? 0 then inl QE_DOMAIN
  else
    let es := elems (Z.to_nat count) esz p in
    let es := if swap && (1 <? esz)%nat && negb (bool_decide (t = RAY_GUID)) then @rev Z <$> es else es in
    inr (OVec t (existsb (fun e => scan_null t (le_load e)) es) 0 (concat es)).

Definition rd_fixed_vec (t : ray_type_e) : R res :=
  ok ← r_need 5;
  if negb ok then fail QE_DOMAIN
  else
    wattrs ← r_u8;
    count ← r_i32 cfg;
    rem ← r_rem;
    if (count <? 0) || (rem <? count * ray_type_sizes t) then fail QE_DOMAIN
    else
      p ← r_take (Z.to_nat count * ray_type_sizes t);
      match q_wire_fixed_vec t p count (c_frame_be cfg) with
      | inr (OVec t nulls letter d) =>
          if c_serde cfg then value (OVec t (nulls || negb (Z.land wattrs RAY_ATTR_HAS_NULLS =? 0)) letter d)
          else mret (rd_attr (OVec t nulls letter d) wattrs)
      | r => mret r
      end.

(** [r_need] then an access. *)
Definition r_guard (n : nat) (m : R res) : R res := ok ← r_need n; if ok : bool then m else fail QE_DOMAIN.

(** A run of [n] length-prefixed strings, of [n] C strings, of [n] values. *)
Fixpoint rd_strcells (n : nat) : R (q_err + list (list Z)) :=
  match n with
  | O => mret (inr [])
  | S n =>
      ok ← r_need 4;
      if negb ok then mret (inl QE_DOMAIN)
      else
        k ← r_i32 cfg;
        rem ← r_rem;
        if (k <? 0) || (rem <? k) then mret (inl QE_DOMAIN)
        else
          s ← r_take (Z.to_nat k);
          l ← rd_strcells n;
          mret (match l with inl e => inl e | inr l => inr (s :: l) end)
  end.

Fixpoint rd_syms (n : nat) : R (option (list (list Z))) :=
  match n with
  | O => mret (Some [])
  | S n =>
      s ← r_cstr;
      match s with
      | None => mret None
      | Some s => l ← rd_syms n; mret (match l with None => None | Some l => Some (s :: l) end)
      end
  end.

Fixpoint rd_items (rd : R res) (n : nat) : R (res + list obj) :=
  match n with
  | O => mret (inr [])
  | S n =>
      e ← rd;
      match e with
      | inl _ | inr (OErr _) => mret (inl e)
      | inr x => l ← rd_items rd n; mret (match l with inl e => inl e | inr l => inr (x :: l) end)
      end
  end.

(** [e] unless it is an error, which is returned. *)
Definition r_ok (rd : R res) (k : obj -> R res) : R res :=
  e ← rd; match e with inl _ | inr (OErr _) => mret e | inr x => k x end.

Definition rd_ext (rd : R res) (tg : Z) : R res :=
  match tg with
  | 200 =>
      r_guard 1 (valence ← r_u8;
        if negb ((valence =? 101) || (valence =? 102) || (valence =? 103)) then fail QE_DOMAIN
        else s ← r_cstr; match s with None => fail QE_DOMAIN | Some nm => mret (fn_read E valence nm) end)
  | 201 =>
      r_guard 1 (attrs ← r_u8;
        r_ok rd (fun params => r_ok rd (fun body => value (OLambda (Z.land attrs (0xFF - RAY_ATTR_SLICE)) params body))))
  | 202 =>
      r_guard 5 (attrs ← r_u8;
        count ← r_i32 cfg;
        rem ← r_rem;
        if (count <? 0) || (rem <? count * 4) then fail QE_DOMAIN
        else
          l ← rd_strcells (Z.to_nat count);
          match l with
          | inl e => fail e
          | inr l => value (OStrVec (negb (Z.land attrs RAY_ATTR_HAS_NULLS =? 0)) 0 l)
          end)
  | 203 => s ← r_cstr; match s with None => fail QE_DOMAIN | Some s => value (OSym true s) end
  | 204 =>
      r_guard 1 (b ← r_u8;
        if b =? u8 (- tag RAY_BOOL) then value (OTNull RAY_BOOL)
        else if b =? u8 (- tag RAY_U8) then value (OTNull RAY_U8)
        else fail QE_DOMAIN)
  | 205 =>
      r_guard 4 (n ← r_i32 cfg;
        rem ← r_rem;
        if (n <? 0) || (rem <? n) then fail QE_DOMAIN else s ← r_take (Z.to_nat n); value (OStr s))
  | _ => fail QE_DOMAIN
  end.

(** The legacy strings of a process without a q runtime. *)
Definition legacy_str : bool := negb (c_serde cfg) && negb (remote_value E).

Definition rd_atom (t : ray_type_e) : R res :=
  match t with
  | RAY_BOOL => r_guard 1 (b ← r_u8; value (OAtom RAY_BOOL (if b =? 0 then 0 else 1)))
  | RAY_GUID => r_guard 16 (bs ← r_take 16; value (OAtom RAY_GUID (le_load bs)))
  | RAY_U8 => r_guard 1 (b ← r_u8; value (OAtom RAY_U8 b))
  | RAY_CHARV => r_guard 1 (b ← r_u8; value (if legacy_str then OStr [b] else OAtom RAY_CHARV b))
  | RAY_I16 => r_guard 2 (v ← r_word cfg 2; value (OAtom RAY_I16 v))
  | RAY_I32 | RAY_F32 | RAY_DATE | RAY_TIME | RAY_MONTH | RAY_MINUTE | RAY_SECOND =>
      r_guard 4 (v ← r_word cfg 4; value (OAtom t v))
  | RAY_I64 | RAY_F64 | RAY_TIMESTAMP | RAY_TIMESPAN => r_guard 8 (v ← r_word cfg 8; value (OAtom t v))
  | RAY_DATETIME => r_guard 8 (v ← r_word cfg 8; value (OAtom RAY_DATETIME (if is_nan64 v then null_bits RAY_DATETIME else v)))
  | RAY_SYM => s ← r_cstr; match s with None => fail QE_DOMAIN | Some s => value (OSym false s) end
  | RAY_ENUM | RAY_LIST | RAY_STR => fail QE_DOMAIN
  end.

Definition rd_vec (t : ray_type_e) : R res :=
  if bool_decide (t = RAY_CHARV) && legacy_str then
    r_guard 5 (_ ← r_u8;
      count ← r_i32 cfg;
      rem ← r_rem;
      if (count <? 0) || (rem <? count) then fail QE_DOMAIN else s ← r_take (Z.to_nat count); value (OStr s))
  else if decide (t = RAY_SYM) then
    r_guard 5 (wattrs ← r_u8;
      count ← r_i32 cfg;
      rem ← r_rem;
      if (count <? 0) || (rem <? count) then fail QE_DOMAIN
      else
        l ← rd_syms (Z.to_nat count);
        match l with None => fail QE_DOMAIN | Some l => mret (rd_attr (OSymVec 0 l) wattrs) end)
  else rd_fixed_vec t.

Definition rd_list (rd : R res) : R res :=
  r_guard 5 (attrs ← r_u8;
    count ← r_i32 cfg;
    rem ← r_rem;
    if (count <? 0) || (rem <? count) then fail QE_DOMAIN
    else
      l ← rd_items rd (Z.to_nat count);
      match l with
      | inl e => mret e
      | inr l =>
          if c_serde cfg then value (OList (Z.land attrs (0xFF - RAY_ATTR_SLICE)) l)
          else
            match q_list_collapse E 0 l with
            | inl e => fail e
            | inr out => mret (if is_err (inr out) then inr out else rd_attr out attrs)
            end
      end).

Definition rd_dict (rd : R res) (sorted : bool) : R res :=
  r_ok rd (fun k => r_ok rd (fun v =>
    let kl := side_count E k in
    let vl := side_count E v in
    if (kl <? 0) || (vl <? 0) || negb (kl =? vl) then
      match k, v with
      | OSymVec _ _, OSym _ _ => value (ODict false k v)
      | _, _ => fail QE_LENGTH
      end
    else value (if sorted then q_attr_stamp_trusted (ODict false (q_attr_stamp_trusted k) v) else ODict false k v))).

Definition rd_table (rd : R res) : R res :=
  r_guard 2 (wattrs ← r_u8;
    d ← r_u8;
    if negb (d =? 99) then fail QE_DOMAIN
    else
      r_ok rd (fun keys =>
        match keys with
        | OSymVec _ names =>
            r_ok rd (fun cols =>
              match cols with
              | OSym _ dir => match splay_flip E names dir with Some r => mret r | None => fail QE_DOMAIN end
              | OList _ l =>
                  if negb (length l =? length names)%nat then fail QE_DOMAIN
                  else mret (rd_attr (OTable false names l) wattrs)
              | _ => fail QE_DOMAIN
              end)
        | _ => fail QE_DOMAIN
        end)).

Definition dl_call_value (s : list Z) : option obj :=
  '(lib, fn, rank) ← dl_scan s;
  if decide (lib = DL_SELF) then if dl_library_native fn then dl_value E lib fn rank else None
  else dl_value E lib fn rank.

(** A char vector or a char as the internal string. *)
Definition str_of_charv (x : obj) : obj :=
  match x with
  | OVec RAY_CHARV _ _ d => OStr d
  | OAtom RAY_CHARV v => OStr [v]
  | _ => x
  end.

Definition rd_lambda (rd : R res) : R res :=
  s ← r_cstr;
  match s with
  | None => fail QE_DOMAIN
  | Some ctx =>
      if negb (length ctx =? 0)%nat && ((64 <=? length ctx + 1)%nat || negb (ctx_ok E ctx)) then fail QE_NAME
      else
        r_ok rd (fun src =>
          match str_of_charv src with
          | OStr sp =>
              match (if (length ctx =? 0)%nat then dl_call_value sp else None) with
              | Some v => value v
              | None =>
                  if (length sp <? 2)%nat || negb (sp.[0] =? 123) then rd_value_err (inl QE_BADFUNC)
                  else rd_value_err (lambda_value E ctx sp)
              end
          | _ => fail QE_DOMAIN
          end)
  end.

Definition rd_prim (cls : Z) : R res :=
  r_guard 1 (which ← r_u8;
    if (cls =? 101) && (which =? 0) then value ONull
    else if (cls =? 101) && (which =? 0xff) then value OHole
    else match op_value E cls which with None => rd_value_err (inl QE_NYI) | Some v => value v end).

Definition rd_iter : R res :=
  r_guard 1 (which ← r_u8;
    match iter_value E which with None => rd_value_err (inl QE_NYI) | Some v => value v end).

Definition slot (x : obj) : option obj := match x with OHole => None | _ => Some x end.

(** A projection (104) or a composition (105). *)
Definition rd_carrier (rd : R res) (proj : bool) : R res :=
  r_guard 4 (count ← r_i32 cfg;
    rem ← r_rem;
    if (count <? (if proj then 1 else 2)) || (rem <? count) then fail QE_DOMAIN
    else
      l ← rd_items rd (Z.to_nat count);
      match l with
      | inl e => mret e
      | inr l =>
          if proj then match l with h :: args => rd_value_err (apply_proj E h (slot <$> args)) | [] => fail QE_DOMAIN end
          else rd_value_err (apply_compose E l)
      end).

Definition rd_derived (rd : R res) (adv : Z) : R res :=
  r_ok rd (fun f => rd_value_err (match iter_value E adv with Some it => apply_iter E it f | None => inl QE_NYI end)).

(** The error object of the top level is noted. *)
Definition rd_note (top : bool) (s : list Z) : R res := fun c =>
  Some (inr (OErr s), Rcur (c_p c) (c_top_err_ok c || top) (c_verr c)).

Definition rd_error (top : bool) : R res :=
  s ← r_cstr;
  match s with
  | None => fail QE_DOMAIN
  | Some s => rd_note top s
  end.

(** The dispatch on the type byte. *)
Definition rd_tag (rd : R res) (top : bool) (raw : Z) : R res :=
  if (200 <=? raw) && (raw <=? 236) then (if c_serde cfg then rd_ext rd raw else fail QE_DOMAIN)
  else
    let t := sgn 8 raw in
    if t <? 0 then
      if - t =? 128 then rd_error top
      else match type_of_tag (- t) with Some ty => rd_atom ty | None => fail QE_DOMAIN end
    else if (1 <=? t) && (t <=? 19) then
      match type_of_tag t with Some ty => rd_vec ty | None => fail QE_DOMAIN end
    else if t =? 0 then rd_list rd
    else if t =? 99 then rd_dict rd false
    else if t =? 127 then rd_dict rd true
    else if t =? 98 then rd_table rd
    else if t =? 100 then rd_lambda rd
    else if (t =? 101) || (t =? 102) then rd_prim t
    else if t =? 103 then rd_iter
    else if t =? 104 then rd_carrier rd true
    else if t =? 105 then rd_carrier rd false
    else if (106 <=? t) && (t <=? 111) then rd_derived rd (t - 106)
    else fail QE_DOMAIN.

Definition rd_obj_inner (rd : R res) (top : bool) : R res := r_guard 1 (raw ← r_u8; rd_tag rd top raw).

Fixpoint rd_obj (d : nat) (top : bool) : R res :=
  match d with
  | O => fail QE_DOMAIN
  | S d => rd_obj_inner (rd_obj d false) top
  end.

Definition rd_finish (c : rcur_t) (r : res) : res :=
  match c_verr c with
  | None => r
  | Some e => if is_err r then r else e
  end.

(** The result, the bytes consumed and whether the error is a value's own. *)
Definition q_wire_read_obj_ex (buf : list Z) : option (res * Z * bool) :=
  '(r, c) ← rd_obj Q_WIRE_MAX_DEPTH true (Rcur buf false None);
  Some (rd_finish c r, length buf - length (c_p c), match c_verr c with Some _ => negb (is_err r) | None => false end).
End reader.

(** A whole message; the flag says that the error is the message's own. *)
Definition q_wire_deserialize_ex (E : wire_env) (alloc_ok : bool) (p : list Z) : option (res * bool) :=
  if (length p <? 9)%nat then Some (inl QE_DOMAIN, false)
  else
    p0 ← p !! 0%nat;
    if negb ((p0 =? 1) || (p0 =? 0)) then Some (inl QE_DOMAIN, false)
    else
      let be := p0 =? 0 in
      p2 ← p !! 2%nat;
      if 1 <? p2 then Some (inl QE_DOMAIN, false)
      else if negb (get_u32 be (drop 4 p) =? length p) then Some (inl QE_DOMAIN, false)
      else
        body ← (if p2 =? 1 then q_wire_uncompress_payload alloc_ok (drop 8 p) be else Some (inr (drop 8 p)));
        match body with
        | inl e => Some (inl e, false)
        | inr body =>
            '(r, c) ← rd_obj E (Rcfg be false false) Q_WIRE_MAX_DEPTH true (Rcur body false None);
            let junk := negb (length (c_p c) =? 0)%nat && (negb (is_err r) || c_top_err_ok c) in
            let r := if junk then inl QE_DOMAIN else r in
            Some (rd_finish c r, is_err r && c_top_err_ok c && (length (c_p c) =? 0)%nat)
        end.
