(* ===== verification/WireFrame.v ===== *)
(** * The wire codec: frames ([src/qlang/net/q_wire.c])

    The measure mode counts what the writer writes, and the header of a frame
    carries its length. *)
From Stdlib Require Import ZArith Lia.
From S2P Require Import Prelude WireLz WireDl WireVal WireWrite WireRead.
From Stdlib Require Import Zify ZifyNat.
#[local] Ltac Zify.zify_post_hook ::= Z.to_euclidean_division_equations.

#[local] Notation "m ;> k" := (w_seq m k) (at level 62, right associativity).
#[local] Arguments Z.shiftr : simpl never.
#[local] Arguments Z.shiftl : simpl never.

(** ** Measure mode *)
Section measure.
Context (E : wire_env) (realloc_ok : Z -> bool).

(** A buffer that is written and one that is measured. *)
Record twin (b b' : q_wire_wbuf_t) : Prop := {
  tw_write : w_measure b = false;
  tw_measure : w_measure b' = true;
  tw_len : w_len b = w_len b';
  tw_p : Z.of_nat (length (w_p b)) = w_len b;
  tw_err : w_err b = w_err b';
  tw_serde : w_serde b = w_serde b' }.

Lemma twin_no_err b b' : twin b b' -> w_err b = None -> w_err b' = None.
Proof using Type. intros [] ?. congruence. Qed.

(** The two runs agree, unless the written buffer could not grow. *)
Definition agree (b : q_wire_wbuf_t) (r r' : bool * q_wire_wbuf_t) : Prop :=
  r.1 = r'.1 /\ twin r.2 r'.2 /\ (r.1 = true -> w_err r.2 = None) /\ (exists s, w_p r.2 = w_p b ++ s) \/
  r.1 = false /\ w_err r.2 = Some QE_WSFULL.
Definition par (m : W) : Prop := forall b b', twin b b' -> w_err b = None -> agree b (m b) (m b').

Lemma par_done : par w_done.
Proof using Type. intros b b' ? ?. left. split_and!; try done. exists []. by rewrite app_nil_r. Qed.

Lemma par_fail e : par (wbuf_fail e).
Proof using Type.
  intros b b' [? ? ? ? He ?] Hb. left. unfold wbuf_fail. rewrite <- He, Hb.
  split_and!; [done|by split|done|]. exists []. by rewrite app_nil_r.
Qed.

Lemma par_raw src : par (w_raw realloc_ok src).
Proof using Type.
  intros b b' [Hw Hm Hl Hp He Hs] Hb. unfold w_raw. rewrite Hw, Hm.
  destruct (wbuf_reserve realloc_ok (length src) b) as [ok b1] eqn:Er. unfold wbuf_reserve in Er. cbv zeta in Er.
  revert Er. generalize (grow_to 64 (if w_cap b =? 0 then 64 else w_cap b) (w_len b + length src)). intros cap0 Er.
  assert (Hcase : ok = true /\ (exists cap, b1 = WBuf (w_p b) (w_len b) cap (w_err b) (w_serde b) false) \/
                  ok = false /\ w_err b1 = Some QE_WSFULL).
  { destruct (w_len b + _ <=? w_cap b).
    - injection Er as <- <-. left. split; [done|]. exists (w_cap b). destruct b; cbn in *. by subst.
    - destruct (realloc_ok _).
      + injection Er as <- <-. left. split; [done|]. rewrite Hw. by eexists.
      + unfold wbuf_fail in Er. rewrite Hb in Er. injection Er as <- <-. by right. }
  destruct Hcase as [[-> [cap ->]]|[-> Herr]]; [left|by right]. cbn.
  split_and!; [done| |done|by exists src]. split; cbn; rewrite ?length_app; congruence || lia.
Qed.

Lemma par_seq m k : par m -> par k -> par (w_seq m k).
Proof using Type.
  intros Hm Hk b b' Ht Hb. unfold w_seq. specialize (Hm b b' Ht Hb).
  destruct (m b) as [ok b1], (m b') as [ok' b1'].
  destruct Hm as [(Heq & Ht1 & Hb1 & s1 & Hs1)|[Hf He]]; cbn in *.
  - subst ok'. destruct ok; [|left; split_and!; try done; by exists s1].
    specialize (Hk b1 b1' Ht1 (Hb1 eq_refl)) as [(Heq2 & Ht2 & Hb2 & s2 & Hs2)|?]; [left|by right].
    split_and!; try done. exists (s1 ++ s2). by rewrite Hs2, Hs1, app_assoc.
  - subst ok. by right.
Qed.

Lemma par_each {A} (f : A -> W) l : (forall x, par (f x)) -> par (w_each f l).
Proof using Type. intros Hf. induction l as [|x l IH]; [apply par_done|]. by apply par_seq. Qed.

Lemma par_mode m k : par m -> par k -> par (by_mode m k).
Proof using Type.
  intros Hm Hk b b' Ht Hb. unfold by_mode. rewrite <- (tw_serde _ _ Ht). destruct (w_serde b); [by apply Hm|by apply Hk].
Qed.

Lemma par_if (c : bool) m k : par m -> par k -> par (if c then m else k).
Proof using Type. by destruct c. Qed.

Lemma par_atom t v : par (w_atom realloc_ok t v).
Proof using Type. destruct t; repeat apply par_seq; apply par_raw || apply par_fail. Qed.

Lemma par_charvec s a : par (w_charvec realloc_ok s a).
Proof using Type. repeat (apply par_seq; [apply par_raw|]). apply par_seq; [apply par_if; [apply par_fail|apply par_raw]|apply par_raw]. Qed.

Lemma par_count n : par (w_count realloc_ok n).
Proof using Type. apply par_if; [apply par_fail|apply par_raw]. Qed.

Lemma par_cstr s : par (w_cstr realloc_ok s).
Proof using Type. apply par_seq; apply par_raw. Qed.

Lemma par_dl lib fn rank : par (w_dl_call realloc_ok lib fn rank).
Proof using Type. apply par_if; [|apply par_fail]. do 2 (apply par_seq; [apply par_raw|]). apply par_charvec. Qed.

Lemma par_fn v id : par (w_fn E realloc_ok v id).
Proof using Type.
  intros b b' Ht Hb. unfold w_fn. rewrite <- (tw_serde _ _ Ht). destruct (w_serde b).
  - apply (par_seq _ _ (par_raw _) (par_seq _ _ (par_raw _) (par_cstr _)) b b' Ht Hb).
  - destruct (kdb_op_of E v id) as [[cls code]|]; [apply (par_seq _ _ (par_raw _) (par_raw _) b b' Ht Hb)|].
    destruct (native_name E v id) as [[nm rank]|]; [|by apply par_fail].
    destruct (dl_library_native nm); [by apply par_dl|by apply par_fail].
Qed.

Create HintDb par discriminated.
Hint Resolve par_done par_fail par_seq par_each par_mode par_if par_atom par_charvec par_count par_cstr par_dl par_fn par_raw : par.
Hint Extern 1 (par (w_u8 _ _)) => apply par_raw : par.
Hint Extern 1 (par (w_i32 _ _)) => apply par_raw : par.
Hint Extern 1 (par (w_prim _ _ _)) => apply par_seq : par.
Hint Extern 1 (par (w_sym_id _ _)) => apply par_cstr : par.
Hint Extern 1 (par (w_lambda_ctx _ ?c)) => unfold w_lambda_ctx; destruct c : par.
Hint Extern 1 (par (w_table_head _ _ _)) => unfold w_table_head : par.
Hint Extern 1 (par (w_strcell _ _)) => unfold w_strcell : par.

Lemma par_inner wr x : (forall y, par (wr y)) -> par (w_obj_inner E realloc_ok wr x).
Proof using Type.
  intros Hwr. destruct x; cbn [w_obj_inner w_qfn];
    unfold w_str, w_sym, w_tnull, w_vec, w_strvec, w_symvec, w_list, w_list_plain, w_dict, w_table, w_engine_lambda; cbv zeta; auto 20 with par.
  - case_decide; auto with par.
  - apply par_mode; [auto with par|]. destruct s as [|c [|]]; auto with par.
  - case_decide; auto 20 with par.
  - apply par_mode; [auto 20 with par|]. destruct (q_list_collapse E attrs l) as [e|[]]; cbn [is_list]; auto 20 with par.
Qed.

Lemma par_obj d x : par (q_wire_write_obj E realloc_ok d x).
Proof using Type.
  revert x. induction d as [|d IH]; intros x b b' Ht Hb; cbn [q_wire_write_obj]; rewrite Hb, (twin_no_err _ _ Ht Hb);
    (destruct x as [x|]; [|rewrite <- (tw_serde _ _ Ht); destruct (w_serde b); [|by apply par_fail];
      exact (par_seq _ _ (par_raw _) (par_raw _) b b' Ht Hb)]).
  - by apply par_fail.
  - exact (par_inner _ x IH b b' Ht Hb).
Qed.
End measure.

(** The frame's length field. *)
Definition frame_head (f : list Z) (msgtype : Z) : Prop :=
  take 4 f = [1; u8 msgtype; 0; 0] /\ get_u32 false (drop 4 f) = length f.

Lemma set_length_field (p : list Z) v : (8 <= length p)%nat -> 0 <= v < 4294967296 ->
  exists z, (p ← aset p 4 (u8 v); p ← aset p 5 (u8 (Z.shiftr v 8)); p ← aset p 6 (u8 (Z.shiftr v 16)); aset p 7 (u8 (Z.shiftr v 24))) = Some z /\
    length z = length p /\ take 4 z = take 4 p /\ drop 8 z = drop 8 p /\ get_u32 false (drop 4 z) = v.
Proof.
  intros Hl Hv. destruct p as [|a0 [|a1 [|a2 [|a3 [|a4 [|a5 [|a6 [|a7 p]]]]]]]]; cbn [length] in Hl; try lia.
  eexists. split; [reflexivity|]. split; [done|]. split; [done|]. split; [done|].
  unfold get_u32. cbn. rewrite take_0. cbn [le_load]. unfold u8, wrap. rewrite !Z.shiftr_div_pow2 by lia.
  change (2 ^ 24) with 16777216. change (2 ^ 16) with 65536. change (2 ^ 8) with 256. clear -Hv. lia.
Qed.

(** The first buffer: nothing written, or the header's eight bytes counted. *)
Lemma serialize_start E realloc_ok msgtype x :
  let r := (w_raw realloc_ok [1; u8 msgtype; 0; 0; 0; 0; 0; 0] ;> q_wire_write_obj E realloc_ok Q_WIRE_MAX_DEPTH (Some x)) wbuf0 in
  let r' := q_wire_write_obj E realloc_ok Q_WIRE_MAX_DEPTH (Some x) (WBuf [] 8 0 None false true) in
  r.1 = r'.1 /\ twin r.2 r'.2 /\ (r.1 = true -> exists s, w_p r.2 = [1; u8 msgtype; 0; 0; 0; 0; 0; 0] ++ s) \/
  r.1 = false /\ w_err r.2 = Some QE_WSFULL.
Proof.
  cbv zeta. set (hd := [1; u8 msgtype; 0; 0; 0; 0; 0; 0]).
  assert (H0 : twin wbuf0 (WBuf [] 0 0 None false true)) by (by split).
  pose proof (par_raw realloc_ok hd _ _ H0 eq_refl) as Hraw. unfold w_seq.
  change (w_raw realloc_ok hd (WBuf [] 0 0 None false true)) with (true, WBuf [] 8 0 None false true) in Hraw.
  destruct (w_raw realloc_ok hd wbuf0) as [ok b1] eqn:Eb. destruct Hraw as [(Heq & Ht & He & s1 & Hs1)|[Hf He]]; cbn [fst snd] in *.
  - subst ok. pose proof (par_obj E realloc_ok Q_WIRE_MAX_DEPTH (Some x) _ _ Ht (He eq_refl)) as [(? & ? & _ & s & Hs)|?]; [left|by right].
    split; [done|]. split; [done|]. intros _. exists s. rewrite Hs. f_equal.
    unfold w_raw in Eb. cbn [w_measure wbuf0] in Eb. unfold wbuf_reserve in Eb. cbn [w_len w_cap wbuf0] in Eb.
    revert Eb. generalize (grow_to 64 (if 0 =? 0 then 64 else 0) (0 + length hd)). intros cap Eb.
    change (0 + length hd <=? 0) with false in Eb. cbv iota zeta in Eb. destruct (realloc_ok cap); [|done].
    apply (f_equal snd) in Eb. cbn [snd] in Eb. by subst b1.
  - subst ok. by right.
Qed.


(** C34. A frame that is built carries the version, the message type and its
    own length, and the measure mode predicts it: [q_wire_serialize_len] gives
    the very length, or the very error, of [q_wire_serialize], unless the
    buffer could not grow. *)
Theorem q_wire_serialize_len_exact E realloc_ok x msgtype :
  exists r, q_wire_serialize E realloc_ok x msgtype = Some r /\
    match r with
    | inl err => err = QE_WSFULL \/ q_wire_serialize_len E realloc_ok x = inl err
    | inr f => q_wire_serialize_len E realloc_ok x = inr (Z.of_nat (length f)) /\ frame_head f msgtype
    end.
Proof.
  unfold q_wire_serialize, q_wire_serialize_len. pose proof (serialize_start E realloc_ok msgtype x) as Hs. cbv zeta in Hs.
  destruct (w_seq _ _ wbuf0) as [ok b], (q_wire_write_obj _ _ _ _ (WBuf _ _ _ _ _ _)) as [ok' b']. cbn [fst snd] in Hs.
  destruct Hs as [(<- & Ht & Hp)|[-> ->]]; [|by exists (inl QE_WSFULL); split; [|left]].
  destruct ok; cbn [negb]; [|rewrite (tw_err _ _ Ht); eexists; split; [done|by right]].
  rewrite <- (tw_len _ _ Ht). bif; [by exists (inl QE_LIMIT); split; [|right]|]. destruct (Hp eq_refl) as [s Hs].
  pose proof (tw_p _ _ Ht) as Hl. unfold Q_WIRE_MSG_MAX in E0.
  destruct (set_length_field (w_p b) (u32 (w_len b))) as (z & Hz & Hlz & H4 & _ & Hget);
    [rewrite Hs; simpl; lia|apply u32_range|].
  rewrite u32_small in * by lia. cbv zeta. revert Hz.
  destruct (aset (w_p b) 4 _) as [p1|]; cbn [mbind option_bind]; [|done]. destruct (aset p1 5 _) as [p2|]; cbn [mbind option_bind]; [|done].
  destruct (aset p2 6 _) as [p3|]; cbn [mbind option_bind]; [|done]. intros ->. cbn [mbind option_bind].
  eexists. split; [done|]. rewrite take_ge by lia. split; [by rewrite Hlz, Hl|]. split; [by rewrite H4, Hs|]. by rewrite Hget, Hlz.
Qed.
