(* ===== verification/WireTrip.v ===== *)
(** * The wire codec: round trips ([src/qlang/net/q_wire.c])

    Which values survive the wire, which survive serde, and that they do: what
    the writer appends for such a value the reader turns back into it, leaving
    the bytes behind it alone. *)
From Stdlib Require Import ZArith Lia.
From S2P Require Import Prelude WireLz WireDl WireVal WireWrite WireRead WireFrame.
From Stdlib Require Import Zify ZifyNat.
#[local] Ltac Zify.zify_post_hook ::= Z.to_euclidean_division_equations.

#[local] Notation "m ;> k" := (w_seq m k) (at level 62, right associativity).
#[local] Arguments Z.shiftr : simpl never.

(** A little-endian store is read back. *)
Lemma length_le_store (n : nat) v : length (le_store n v) = n.
Proof. revert v. induction n as [|n IH]; intros v; [done|]. cbn [le_store length]. by rewrite IH. Qed.

Lemma le_load_store (n : nat) v : 0 <= v < 256 ^ n -> le_load (le_store n v) = v.
Proof.
  revert v. induction n as [|n IH]; intros v Hv; [cbn in *; lia|]. cbn [le_store le_load].
  rewrite Nat2Z.inj_succ, Z.pow_succ_r in Hv by lia. rewrite Z.shiftr_div_pow2 by lia. change (2 ^ 8) with 256.
  rewrite IH by (split; [apply Z.div_pos; lia|apply Z.div_lt_upper_bound; lia]). unfold u8, wrap. change (2 ^ 8) with 256.
  pose proof (Z.div_mod v 256 ltac:(lia)). lia.
Qed.

Lemma le_store_bytes (n : nat) v : bytes_ok (le_store n v).
Proof. revert v. induction n as [|n IH]; intros v; constructor; [apply u8_range|apply IH]. Qed.

Lemma le_store_load bs : bytes_ok bs -> le_store (length bs) (le_load bs) = bs.
Proof.
  induction 1 as [|b bs Hb _ IH]; [done|]. cbn [length le_store le_load]. unfold byte_ok in Hb.
  rewrite Z.shiftr_div_pow2 by lia. change (2 ^ 8) with 256. f_equal.
  - unfold u8, wrap. change (2 ^ 8) with 256. rewrite Z.add_comm, (Z.mul_comm 256), Z.add_comm, Z_mod_plus_full. by apply Z.mod_small.
  - rewrite (Z.mul_comm 256), Z_div_plus_full by lia. rewrite (Z.div_small b) by lia. done.
Qed.

(** ** Writers and what they append *)
Section trip.
Context (E : wire_env) (realloc_ok : Z -> bool) (Hmem : forall n, realloc_ok n = true) (disk serde : bool).

Definition cfg : rcfg := Rcfg false serde disk.

Definition wrote (m : W) (out : list Z) : Prop :=
  bytes_ok out /\ forall b, w_err b = None -> w_measure b = false -> w_serde b = serde ->
    exists cap, m b = (true, WBuf (w_p b ++ out) (w_len b + length out) cap None serde false).

Lemma wrote_raw out : bytes_ok out -> wrote (w_raw realloc_ok out) out.
Proof using Hmem.
  intros Hout. split; [done|]. intros b He Hm Hs. unfold w_raw, wbuf_reserve. rewrite Hm. cbv zeta. rewrite Hmem.
  destruct (_ <=? _); cbn [w_p w_len w_cap w_err w_serde w_measure]; rewrite ?He, ?Hm, ?Hs; by eexists.
Qed.

Lemma wrote_seq m k o1 o2 : wrote m o1 -> wrote k o2 -> wrote (w_seq m k) (o1 ++ o2).
Proof using Type.
  intros [Hb1 Hm] [Hb2 Hk]. split; [by apply Forall_app|]. intros b He Hme Hs. unfold w_seq. destruct (Hm b He Hme Hs) as [cap ->].
  destruct (Hk (WBuf (w_p b ++ o1) (w_len b + length o1) cap None serde false)) as [cap' ->]; [done..|].
  exists cap'. cbn [w_p w_len]. rewrite length_app, app_assoc. do 2 f_equal. lia.
Qed.

Lemma wrote_done : wrote w_done [].
Proof using Type.
  split; [constructor|]. intros b He Hm Hs. exists (w_cap b). unfold w_done. destruct b; cbn in *. rewrite app_nil_r, Z.add_0_r. by subst.
Qed.

Lemma wrote_each {A} (f : A -> W) l os : Forall2 (fun x o => wrote (f x) o) l os -> wrote (w_each f l) (concat os).
Proof using Type. induction 1 as [|x o l os Hx _ IH]; [apply wrote_done|]. by apply wrote_seq. Qed.

Lemma wrote_mode m k o : wrote (if serde then m else k) o -> wrote (by_mode m k) o.
Proof using Type.
  intros [Hb Ho]. split; [done|]. intros b He Hm Hs. unfold by_mode. rewrite Hs. specialize (Ho b He Hm Hs). clear -Ho. by destruct serde.
Qed.

Lemma wrote_ext m m' o : (forall b, w_serde b = serde -> m b = m' b) -> wrote m' o -> wrote m o.
Proof using Type. intros Heq [Hb Hw]. split; [done|]. intros b He Hm Hs. rewrite Heq by done. by apply Hw. Qed.

(** The explicit byte lists of the scalar writers. *)
Lemma u8_wrap w v k : 0 <= k -> k + 8 <= w -> u8 (Z.shiftr (wrap w v) k) = u8 (Z.shiftr v k).
Proof using Type.
  intros Hk Hw. unfold u8, wrap. rewrite <- !Z.land_ones, Z.shiftr_land, <- Z.land_assoc by lia. f_equal.
  apply Z.bits_inj'. intros i Hi. rewrite Z.land_spec, Z.shiftr_spec, !Z.testbit_ones_nonneg by lia.
  repeat destruct (Z.ltb_spec _ _); lia || done.
Qed.

Lemma i16_bytes v : [u8 v; u8 (Z.shiftr (u16 v) 8)] = le_store 2 v.
Proof using Type. unfold u16. by rewrite u8_wrap by lia. Qed.

Lemma i32_bytes v : [u8 (u32 v); u8 (Z.shiftr (u32 v) 8); u8 (Z.shiftr (u32 v) 16); u8 (Z.shiftr (u32 v) 24)] = le_store 4 v.
Proof using Type.
  cbn [le_store]. rewrite !Z.shiftr_shiftr by lia. unfold u32. rewrite !u8_wrap by lia.
  pose proof (u8_wrap 32 v 0 ltac:(lia) ltac:(lia)) as H0. rewrite !Z.shiftr_0_r in H0. by rewrite H0.
Qed.

Lemma i64_bytes v : (fun i : nat => u8 (Z.shiftr (u64 v) (8 * i))) <$> seq 0 8 = le_store 8 v.
Proof using Type.
  cbn [seq fmap list_fmap le_store]. rewrite !Z.shiftr_shiftr by lia. unfold u64. rewrite !u8_wrap by lia.
  by rewrite !Z.shiftr_0_r.
Qed.

Lemma wrote_u8 v : wrote (w_u8 realloc_ok v) [u8 v].
Proof using Hmem. apply wrote_raw. constructor; [apply u8_range|done]. Qed.
Lemma wrote_i16 v : wrote (w_i16 realloc_ok v) (le_store 2 v).
Proof using Hmem. unfold w_i16. cbv zeta. rewrite i16_bytes. apply wrote_raw, le_store_bytes. Qed.
Lemma wrote_i32 v : wrote (w_i32 realloc_ok v) (le_store 4 v).
Proof using Hmem. unfold w_i32. cbv zeta. rewrite i32_bytes. apply wrote_raw, le_store_bytes. Qed.
Lemma wrote_i64 v : wrote (w_i64 realloc_ok v) (le_store 8 v).
Proof using Hmem. unfold w_i64. cbv zeta. rewrite i64_bytes. apply wrote_raw, le_store_bytes. Qed.
Lemma wrote_cstr s : bytes_ok s -> wrote (w_cstr realloc_ok s) (s ++ [0]).
Proof using Hmem. intros Hs. apply wrote_seq; [by apply wrote_raw|apply wrote_u8]. Qed.
Lemma wrote_count n : 0 <= n <= INT32_MAX -> wrote (w_count realloc_ok n) (le_store 4 n).
Proof using Hmem. intros Hn. unfold w_count. bif; [lia|]. apply wrote_i32. Qed.

(** ** Readers and what they take *)
Definition reads {A} (m : R A) (out : list Z) (x : A) : Prop :=
  forall rest te ve, m (Rcur (out ++ rest) te ve) = Some (x, Rcur rest te ve).

Lemma reads_ret {A} (x : A) : reads (mret x) [] x.
Proof using Type. by intros rest te ve. Qed.

Lemma reads_bind {A B} (m : R A) (f : A -> R B) o1 o2 x y : reads m o1 x -> reads (f x) o2 y -> reads (m ≫= f) (o1 ++ o2) y.
Proof using Type. intros Hm Hf rest te ve. unfold mbind, R_bind. rewrite <- app_assoc, Hm. apply Hf. Qed.

Lemma reads_last {A B} (m : R A) (f : A -> R B) out x y : reads m out x -> reads (f x) [] y -> reads (m ≫= f) out y.
Proof using Type. intros Hm Hf. rewrite <- (app_nil_r out). by eapply reads_bind. Qed.

Lemma reads_need {B} n (f : bool -> R B) out y : (n <= length out)%nat -> reads (f true) out y -> reads (r_need n ≫= f) out y.
Proof using Type.
  intros Hn Hf rest te ve. unfold mbind, R_bind, r_need. cbn [c_p]. rewrite length_app, (proj2 (Nat.leb_le _ _)) by lia. apply Hf.
Qed.

Lemma reads_guard n m out y : (n <= length out)%nat -> reads m out y -> reads (r_guard n m) out y.
Proof using Type. intros Hn Hm. by apply reads_need. Qed.

Lemma reads_rem {B} (f : Z -> R B) out y : (forall rem, length out <= rem -> reads (f rem) out y) -> reads (r_rem ≫= f) out y.
Proof using Type.
  intros Hf rest te ve. unfold mbind, R_bind, r_rem. cbn [c_p]. apply Hf. rewrite length_app. lia.
Qed.

Lemma reads_u8 b : reads r_u8 [b] b.
Proof using Type. by intros rest te ve. Qed.

Lemma reads_take n o : length o = n -> reads (r_take n) o o.
Proof using Type.
  intros <- rest te ve. unfold r_take. cbn [c_p]. rewrite length_app. bif; [|lia].
  rewrite take_app_length. unfold with_p. cbn [c_top_err_ok c_verr]. by rewrite drop_app_length.
Qed.

Lemma reads_word (n : nat) v : 0 <= v < 256 ^ n -> reads (r_word cfg n) (le_store n v) v.
Proof using Type.
  intros Hv. unfold r_word. rewrite <- (app_nil_r (le_store n v)). eapply reads_bind; [apply reads_take, length_le_store|].
  unfold load. cbn [c_frame_be cfg]. rewrite le_load_store by done. apply reads_ret.
Qed.

Lemma reads_i32 v : 0 <= v <= INT32_MAX -> reads (r_i32 cfg) (le_store 4 v) v.
Proof using Type.
  unfold INT32_MAX. intros Hv. unfold r_i32. rewrite <- (app_nil_r (le_store 4 v)).
  eapply reads_bind; [apply reads_word; cbn; lia|]. rewrite <- (u32_small v) at 2 by lia.
  assert (Hi : i32 v = v) by (unfold i32, sgn; cbv zeta; rewrite wrap_small by (cbn; lia); change (2 ^ (32 - 1)) with 2147483648; bif; lia).
  rewrite Hi, u32_small by lia. apply reads_ret.
Qed.

(** A C string: no NUL inside. *)
Definition text_ok (s : list Z) : Prop := Forall (fun b => 0 < b < 256) s.

Lemma text_bytes s : text_ok s -> bytes_ok s.
Proof using Type. intros Hs. eapply Forall_impl; [exact Hs|]. unfold byte_ok. cbn. lia. Qed.

Lemma reads_cstr s : text_ok s -> reads r_cstr (s ++ [0]) (Some s).
Proof using Type.
  intros Hs rest te ve. unfold r_cstr. cbn [c_p]. rewrite <- app_assoc.
  rewrite prefix_while_app by (eapply Forall_impl; [exact Hs|]; cbn; intros; apply negb_true_iff, Z.eqb_neq; lia).
  cbn [app prefix_while]. change (negb (0 =? 0)) with false. cbv iota. rewrite app_nil_r, length_app. cbn [length].
  bif; [|lia]. unfold with_p. cbn [c_top_err_ok c_verr]. rewrite drop_app_ge by lia. by replace (S (length s) - length s)%nat with 1%nat by lia.
Qed.

(** ** The values that survive *)
Definition count_ok (n : nat) : Prop := n <= INT32_MAX.

(** The attribute byte leads from the fresh value to the value sent. *)
Definition letter_ok (fresh x : obj) (letter : Z) : Prop := 0 <= letter < 256 /\ rd_attr E cfg fresh letter = inr x.

Definition scan_nulls (t : ray_type_e) (d : list Z) : bool :=
  existsb (fun e => scan_null t (le_load e)) (elems (length d / ray_type_sizes t) (ray_type_sizes t) d).

Definition atom_ok (t : ray_type_e) (v : Z) : Prop :=
  is_flat t = true /\ 0 <= v < 256 ^ ray_type_sizes t /\ (t = RAY_BOOL -> v = 0 \/ v = 1) /\
  (t = RAY_DATETIME -> is_nan64 v = true -> v = null_bits RAY_DATETIME) /\ (t = RAY_CHARV -> legacy_str E cfg = false).

Definition vec_ok (t : ray_type_e) (nulls : bool) (letter : Z) (d : list Z) : Prop :=
  is_flat t = true /\ bytes_ok d /\ (exists n, length d = (n * ray_type_sizes t)%nat /\ count_ok n) /\
  (t = RAY_CHARV -> legacy_str E cfg = false /\ nulls = false) /\
  (if serde then letter = 0 /\ (scan_nulls t d = true -> nulls = true)
   else nulls = scan_nulls t d /\ letter_ok (OVec t nulls 0 d) (OVec t nulls letter d) letter).

(** A list keeps its attribute byte in serde; on the wire it must not be a
    run and may be sorted. *)
Definition list_ok (attrs : Z) (l : list obj) : Prop :=
  count_ok (length l) /\
  (if serde then 0 <= attrs < 256 /\ Z.land attrs (0xFF - RAY_ATTR_SLICE) = attrs
   else (attrs = 0 \/ attrs = RAY_ATTR_SORTED) /\ forall a, q_list_collapse E a l = inr (OList a l)).

Definition dict_ok (sorted : bool) (k v : obj) : Prop :=
  0 <= side_count E k /\ side_count E k = side_count E v /\ (sorted = true -> q_attr_stamp_trusted k = k).

Definition fn_ok (valence id : Z) : Prop :=
  if serde then (valence = 101 \/ valence = 102 \/ valence = 103) /\ text_ok (fn_name E valence id) /\
                fn_read E valence (fn_name E valence id) = inr (OFn valence id)
  else exists cls code, kdb_op_of E valence id = Some (cls, code) /\ (cls = 101 /\ 0 < code < 255 \/ cls = 102 /\ 0 <= code < 256) /\
                op_value E cls code = Some (OFn valence id).

(** The context as it is sent: without its leading dot. *)
Definition dotless (ctx : list Z) : list Z := match ctx with [] => [] | c :: ctx' => if c =? 46 then ctx' else ctx end.

Definition lambda_ok (ctx src : list Z) : Prop :=
  text_ok (dotless ctx) /\ (length (dotless ctx) + 1 < 64)%nat /\ (dotless ctx <> [] -> ctx_ok E (dotless ctx) = true) /\
  count_ok (length src) /\ bytes_ok src /\ (2 <= length src)%nat /\ src !! 0%nat = Some 123 /\
  (dotless ctx = [] -> dl_call_value E src = None) /\ lambda_value E (dotless ctx) src = inr (OLam ctx src).

(** [ok] is the predicate one level down, [d] the levels left below. *)
Definition sendable_inner (d : nat) (ok : obj -> Prop) (x : obj) : Prop :=
  match x with
  | ONull | OHole => True
  | OErr _ | OOther _ => False
  | OAtom t v => atom_ok t v
  | OTNull t => serde = true /\ (t = RAY_BOOL \/ t = RAY_U8)
  | OSym quoted s => text_ok s /\ (quoted = true -> serde = true)
  | OStr s => serde = true /\ count_ok (length s) /\ bytes_ok s
  | OVec t nulls letter d => vec_ok t nulls letter d
  | OSymVec letter l => count_ok (length l) /\ Forall text_ok l /\ letter_ok (OSymVec 0 l) x letter
  | OStrVec nulls letter l => serde = true /\ letter = 0 /\ count_ok (length l) /\ Forall (fun s => count_ok (length s) /\ bytes_ok s) l
  | OList attrs l => list_ok attrs l /\ Forall ok l
  | ODict sorted k v => ok k /\ ok v /\ dict_ok sorted k v
  | OTable sorted names cols =>
      count_ok (length names) /\ Forall text_ok names /\ length cols = length names /\ ok (OSymVec 0 names) /\ ok (OList 0 cols)
  | OLambda attrs params body =>
      serde = true /\ 0 <= attrs < 256 /\ Z.land attrs (0xFF - RAY_ATTR_SLICE) = attrs /\ ok params /\ ok body
  | OFn valence id => fn_ok valence id
  | OIter id => serde = false /\ 0 <= id < 256 /\ iter_value E id = Some (OIter id)
  | OLam ctx src => serde = false /\ (0 < d)%nat /\ lambda_ok ctx src
  | OProj head args =>
      serde = false /\ count_ok (S (length args)) /\ ok head /\ Forall (fun a => exists y, a = Some y /\ y <> OHole /\ ok y) args /\
      apply_proj E head args = inr x
  | OComp parts => serde = false /\ count_ok (length parts) /\ (2 <= length parts)%nat /\ Forall ok parts /\ apply_compose E parts = inr x
  | ODeriv adv body =>
      serde = false /\ 0 <= adv < 6 /\ ok body /\ exists it, iter_value E adv = Some it /\ apply_iter E it body = inr x
  | OKfn lib fn rank =>
      serde = false /\ (0 < d)%nat /\ dl_ok lib fn rank = true /\ count_ok (length (dl_text lib fn rank)) /\ bytes_ok (dl_text lib fn rank) /\
      dl_call_value E (dl_text lib fn rank) = Some x
  end.

Fixpoint sendable (d : nat) (x : obj) : Prop :=
  match d with
  | O => False
  | S d => sendable_inner d (sendable d) x
  end.

(** ** One value at a time *)
Definition trips (m : W) (r : R res) (x : obj) : Prop :=
  exists out, wrote m out /\ (0 < length out)%nat /\ reads r out (inr x).

Section level.
Context (rd : R res) (top : bool).

Lemma trips_tag tg raw m o x :
  u8 tg = raw -> wrote m o -> reads (rd_tag E cfg rd top raw) o (inr x) ->
  trips (w_u8 realloc_ok tg ;> m) (rd_obj_inner E cfg rd top) x.
Proof using Hmem.
  intros Ht Hm Hr. exists ([raw] ++ o). split; [|split; [cbn; lia|]].
  - apply wrote_seq; [|done]. rewrite <- Ht. apply wrote_u8.
  - apply reads_guard; [cbn; lia|]. eapply reads_bind; [apply reads_u8|done].
Qed.

(** A scalar: its bytes, read back under their guard. *)
Lemma reads_scalar {A} (n : nat) (m : R A) out (v : A) (f : A -> R res) x :
  length out = n -> reads m out v -> reads (f v) [] x -> reads (r_guard n (m ≫= f)) out x.
Proof using Type.
  intros Hl Hm Hf. apply reads_guard; [lia|]. rewrite <- (app_nil_r out). by eapply reads_bind.
Qed.

Lemma reads_value x : reads (value x) [] (inr x).
Proof using Type. apply reads_ret. Qed.

Lemma wrote_byte v : byte_ok v -> wrote (w_u8 realloc_ok v) [v].
Proof using Hmem. intros Hv. rewrite <- (u8_small v Hv) at 2. apply wrote_u8. Qed.

(** The dispatch, by computation on the tag. *)
Lemma tag_atom t : is_flat t = true \/ t = RAY_SYM -> rd_tag E cfg rd top (u8 (- tag t)) = rd_atom E cfg t.
Proof using Type. intros [?| ->]; [|done]. by destruct t. Qed.
Lemma tag_vec t : is_flat t = true \/ t = RAY_SYM -> rd_tag E cfg rd top (tag t) = rd_vec E cfg t.
Proof using Type. intros [?| ->]; [|done]. by destruct t. Qed.

Lemma trips_atom t v : atom_ok t v -> trips (w_atom realloc_ok t v) (rd_obj_inner E cfg rd top) (OAtom t v).
Proof using Hmem.
  intros (Hf & Hv & Hb & Hz & Hc). unfold w_atom. cbv zeta.
  assert (Hb1 : ray_type_sizes t = 1%nat -> byte_ok v) by (intros H1; rewrite H1 in Hv; exact Hv).
  assert (H1 : forall f : Z -> res, f v = inr (OAtom t v) -> byte_ok v ->
    reads (r_guard 1 (b ← r_u8; mret (f b))) [v] (inr (OAtom t v))).
  { intros f Hfv _. eapply reads_scalar; [done|apply reads_u8|]. rewrite Hfv. apply reads_ret. }
  assert (Hw : forall (f : Z -> res), f v = inr (OAtom t v) ->
    reads (r_guard (ray_type_sizes t) (b ← r_word cfg (ray_type_sizes t); mret (f b))) (le_store (ray_type_sizes t) v) (inr (OAtom t v))).
  { intros f Hfv. eapply reads_scalar; [apply length_le_store|by apply reads_word|]. rewrite Hfv. apply reads_ret. }
  pose proof (tag_atom t (or_introl Hf)) as Htag.
  destruct t; try done; (eapply trips_tag; [reflexivity| |rewrite Htag]).
  - apply wrote_byte. destruct (Hb eq_refl) as [-> | ->]; done.
  - destruct (Hb eq_refl) as [-> | ->]; (eapply reads_scalar; [done|apply reads_u8|apply reads_value]).
  - apply wrote_raw, le_store_bytes.
  - eapply reads_scalar; [apply length_le_store|apply reads_take, length_le_store|]. rewrite le_load_store by done. apply reads_value.
  - by apply wrote_byte, Hb1.
  - by apply (H1 (fun b => inr (OAtom RAY_U8 b))), Hb1.
  - apply wrote_i16.
  - by apply (Hw (fun v => inr (OAtom RAY_I16 v))).
  - apply wrote_i32.
  - by apply (Hw (fun v => inr (OAtom RAY_I32 v))).
  - apply wrote_i64.
  - by apply (Hw (fun v => inr (OAtom RAY_I64 v))).
  - apply wrote_i32.
  - by apply (Hw (fun v => inr (OAtom RAY_F32 v))).
  - apply wrote_i64.
  - by apply (Hw (fun v => inr (OAtom RAY_F64 v))).
  - by apply wrote_byte, Hb1.
  - apply (H1 (fun b => inr (if legacy_str E cfg then OStr [b] else OAtom RAY_CHARV b))); [by rewrite Hc|by apply Hb1].
  - apply wrote_i64.
  - by apply (Hw (fun v => inr (OAtom RAY_TIMESTAMP v))).
  - apply wrote_i32.
  - by apply (Hw (fun v => inr (OAtom RAY_MONTH v))).
  - apply wrote_i32.
  - by apply (Hw (fun v => inr (OAtom RAY_DATE v))).
  - apply wrote_i64.
  - apply (Hw (fun v => inr (OAtom RAY_DATETIME (if is_nan64 v then null_bits RAY_DATETIME else v)))).
    destruct (is_nan64 v) eqn:En; [|done]. by rewrite (Hz eq_refl eq_refl).
  - apply wrote_i64.
  - by apply (Hw (fun v => inr (OAtom RAY_TIMESPAN v))).
  - apply wrote_i32.
  - by apply (Hw (fun v => inr (OAtom RAY_MINUTE v))).
  - apply wrote_i32.
  - by apply (Hw (fun v => inr (OAtom RAY_SECOND v))).
  - apply wrote_i32.
  - by apply (Hw (fun v => inr (OAtom RAY_TIME v))).
Qed.

(** ** Flat vectors *)
Lemma concat_elems (n esz : nat) (d : list Z) : length d = (n * esz)%nat -> concat (elems n esz d) = d.
Proof using Type.
  revert d. induction n as [|n IH]; intros d Hd; [by destruct d|]. cbn [elems concat].
  rewrite IH by (rewrite length_drop; lia). apply take_drop.
Qed.

Lemma size_pos t : (1 <= ray_type_sizes t)%nat.
Proof using Type. destruct t; cbn; lia. Qed.

Lemma fixed_vec_read t d n : length d = (n * ray_type_sizes t)%nat ->
  q_wire_fixed_vec t d n false = inr (OVec t (scan_nulls t d) 0 d).
Proof using Type.
  intros Hd. unfold q_wire_fixed_vec. cbv zeta. bif; [lia|]. cbn [andb]. rewrite Nat2Z.id. rewrite concat_elems by done.
  unfold scan_nulls. rewrite Hd, Nat.div_mul by (pose proof (size_pos t); lia). done.
Qed.

Lemma fixed_vec_trip t nulls wl letter d :
  vec_ok t nulls letter d -> 0 <= wl < 256 ->
  (if serde then (nulls = scan_nulls t d || negb (Z.land wl RAY_ATTR_HAS_NULLS =? 0)) /\ letter = 0 else wl = letter) ->
  (t = RAY_CHARV -> legacy_str E cfg = false) ->
  exists n : nat, count_ok n /\ (length d / ray_type_sizes t)%nat = n /\
    reads (rd_vec E cfg t) (wl :: le_store 4 n ++ d) (inr (OVec t nulls letter d)).
Proof using Type.
  intros (Hf & _ & (n & Hn & Hc) & _ & Hl) Hwl Hnul Hch. exists n. split; [done|].
  split; [rewrite Hn; apply Nat.div_mul; pose proof (size_pos t); lia|]. unfold rd_vec.
  assert (Hd1 : bool_decide (t = RAY_CHARV) && legacy_str E cfg = false).
  { destruct (decide (t = RAY_CHARV)) as [Ht|Ht]; [by rewrite (Hch Ht), andb_false_r|by rewrite bool_decide_eq_false_2]. }
  rewrite Hd1. destruct (decide (t = RAY_SYM)) as [->|_]; [done|]. unfold rd_fixed_vec.
  apply reads_need; [rewrite length_cons, length_app, length_le_store; lia|]. cbn [negb].
  change (wl :: le_store 4 n ++ d) with ([wl] ++ (le_store 4 n ++ d)). eapply reads_bind; [apply reads_u8|].
  unfold count_ok in Hc. eapply reads_bind; [apply reads_i32; lia|]. apply reads_rem. intros rem Hrem.
  bif; [lia|]. rewrite <- (app_nil_r d). eapply reads_bind; [apply reads_take; lia|].
  rewrite fixed_vec_read, app_nil_r by done. cbn [c_serde cfg]. destruct serde.
  - destruct Hnul as [-> ->]. apply reads_ret.
  - subst wl. destruct Hl as [-> [_ Hrd]]. unfold cfg in *. cbn [c_frame_be]. rewrite Hrd. apply reads_ret.
Qed.

Lemma trips_vec wr t nulls letter d : vec_ok t nulls letter d ->
  trips (w_obj_inner E realloc_ok wr (OVec t nulls letter d)) (rd_obj_inner E cfg rd top) (OVec t nulls letter d).
Proof using Hmem.
  intros Hok. pose proof Hok as (Hf & Hbd & (n & Hn & Hc) & Hch & Hl). cbn [w_obj_inner]. unfold w_vec.
  assert (Hlet : 0 <= letter < 256) by (revert Hl; clear; destruct serde; [lia|intros [_ [? _]]; lia]).
  destruct (decide (t = RAY_CHARV)) as [->|Hne].
  - destruct (Hch eq_refl) as [Hleg ->].
    destruct (fixed_vec_trip RAY_CHARV false letter letter d Hok Hlet) as (n' & Hn' & Hdiv & Hr); [|done|].
    { revert Hl. clear. destruct serde; [intros [-> H]|done]. split; [|done]. destruct (scan_nulls RAY_CHARV d); [by rewrite H|done]. }
    unfold w_charvec. cbn [ray_type_sizes] in Hdiv. rewrite Nat.div_1_r in Hdiv. rewrite Hdiv.
    eapply (trips_tag _ (tag RAY_CHARV)); [reflexivity| |rewrite (tag_vec RAY_CHARV) by (by left); exact Hr].
    change (letter :: le_store 4 n' ++ d) with ([letter] ++ (le_store 4 n' ++ d)).
    apply wrote_seq; [by apply wrote_byte|]. apply wrote_seq; [|by apply wrote_raw]. apply wrote_count. unfold count_ok in Hn'. lia.
  - rewrite Hf. set (wl := if serde then if nulls then RAY_ATTR_HAS_NULLS else 0 else letter).
    assert (Hwl : byte_ok wl) by (unfold wl, byte_ok, RAY_ATTR_HAS_NULLS; clear -Hlet; destruct serde, nulls; lia).
    destruct (fixed_vec_trip t nulls wl letter d Hok Hwl) as (n' & Hn' & -> & Hr); [|done|].
    { unfold wl. revert Hl. clear. destruct serde; [|done]. intros [-> H]. split; [|done].
      destruct nulls; [by rewrite orb_true_r|]. rewrite orb_false_r. by destruct (scan_nulls t d); [specialize (H eq_refl)|]. }
    eapply (trips_tag _ (tag t)); [| |rewrite (tag_vec t) by (by left); exact Hr].
    { apply u8_small. destruct t; cbn; lia. }
    change (wl :: le_store 4 n' ++ d) with ([wl] ++ (le_store 4 n' ++ d)). apply wrote_seq.
    + apply wrote_mode. unfold wl in *. clear -Hwl Hmem. destruct serde; by apply wrote_byte.
    + apply wrote_seq; [|by apply wrote_raw]. apply wrote_count. unfold count_ok in Hn'. lia.
Qed.

(** ** Symbols and pooled strings *)
Lemma concat_at_least {A} (f : A -> list Z) (l : list A) : (forall x, (1 <= length (f x))%nat) -> (length l <= length (concat (f <$> l)))%nat.
Proof using Type.
  intros Hf. induction l as [|x l IH]; [done|]. rewrite fmap_cons. cbn [concat length]. rewrite length_app.
  specialize (Hf x). lia.
Qed.

Lemma wrote_map {A} (w : A -> W) (f : A -> list Z) l : Forall (fun x => wrote (w x) (f x)) l -> wrote (w_each w l) (concat (f <$> l)).
Proof using Type. intros Hl. apply wrote_each. induction Hl; constructor; done. Qed.

Definition cstrs (l : list (list Z)) : list Z := concat ((fun s => s ++ [0]) <$> l).

Lemma wrote_cstrs l : Forall text_ok l -> wrote (w_each (w_cstr realloc_ok) l) (cstrs l).
Proof using Hmem. intros Hl. apply wrote_map. eapply Forall_impl; [exact Hl|]. intros s Hs. by apply wrote_cstr, text_bytes. Qed.

Lemma reads_syms l : Forall text_ok l -> reads (rd_syms (length l)) (cstrs l) (Some l).
Proof using Type.
  induction 1 as [|s l Hs _ IH]; [apply reads_ret|]. cbn [length rd_syms].
  change (cstrs (s :: l)) with ((s ++ [0]) ++ cstrs l). eapply reads_bind; [by apply reads_cstr|]. cbv iota.
  rewrite <- (app_nil_r (cstrs l)). eapply reads_bind; [exact IH|]. apply reads_ret.
Qed.

Definition symvec_bytes (letter : Z) (l : list (list Z)) : list Z := letter :: le_store 4 (length l) ++ cstrs l.

Lemma symvec_read letter l : count_ok (length l) -> Forall text_ok l -> letter_ok (OSymVec 0 l) (OSymVec letter l) letter ->
  reads (rd_obj_inner E cfg rd top) (tag RAY_SYM :: symvec_bytes letter l) (inr (OSymVec letter l)).
Proof using Type.
  unfold count_ok. intros Hc Hl [Hlet Hrd]. apply reads_guard; [cbn; lia|].
  change (tag RAY_SYM :: symvec_bytes letter l) with ([tag RAY_SYM] ++ symvec_bytes letter l). eapply reads_bind; [apply reads_u8|].
  rewrite (tag_vec RAY_SYM) by by right. unfold rd_vec. rewrite bool_decide_eq_false_2 by done. cbn [andb].
  destruct (decide (RAY_SYM = RAY_SYM)); [|done]. apply reads_guard; [unfold symvec_bytes; rewrite length_cons, length_app, length_le_store; lia|].
  change (symvec_bytes letter l) with ([letter] ++ (le_store 4 (length l) ++ cstrs l)). eapply reads_bind; [apply reads_u8|].
  eapply reads_bind; [apply reads_i32; lia|]. apply reads_rem. intros rem Hrem.
  assert (Hge : (length l <= length (cstrs l))%nat) by (apply concat_at_least; intros x; rewrite length_app; simpl; lia).
  bif; [lia|]. rewrite Nat2Z.id, <- (app_nil_r (cstrs l)). eapply reads_bind; [by apply reads_syms|]. cbv iota. rewrite Hrd. apply reads_ret.
Qed.

Lemma trips_symvec wr letter l : count_ok (length l) -> Forall text_ok l -> letter_ok (OSymVec 0 l) (OSymVec letter l) letter ->
  trips (w_obj_inner E realloc_ok wr (OSymVec letter l)) (rd_obj_inner E cfg rd top) (OSymVec letter l).
Proof using Hmem.
  intros Hc Hl Hlet. pose proof Hlet as [Hb _]. exists (tag RAY_SYM :: symvec_bytes letter l).
  split; [|split; [cbn; lia|by apply symvec_read]]. cbn [w_obj_inner]. unfold count_ok in Hc.
  change (tag RAY_SYM :: symvec_bytes letter l) with ([11] ++ [letter] ++ (le_store 4 (length l) ++ cstrs l)).
  apply wrote_seq; [apply wrote_u8|]. apply wrote_seq; [by apply wrote_byte|]. apply wrote_seq; [apply wrote_count; lia|by apply wrote_cstrs].
Qed.

Lemma reads_strcells l : Forall (fun s => count_ok (length s) /\ bytes_ok s) l ->
  reads (rd_strcells cfg (length l)) (concat ((fun s => le_store 4 (length s) ++ s) <$> l)) (inr l).
Proof using Type.
  induction 1 as [|s l [Hs _] _ IH]; [apply reads_ret|]. cbn [length rd_strcells fmap list_fmap concat].
  rewrite <- app_assoc. apply reads_need; [rewrite length_app, length_le_store; lia|]. cbn [negb]. unfold count_ok in Hs.
  eapply reads_bind; [apply reads_i32; lia|]. apply reads_rem. intros rem Hrem. rewrite length_app in Hrem. bif; [lia|].
  rewrite Nat2Z.id. eapply reads_bind; [by apply reads_take|]. rewrite <- (app_nil_r (concat _)). eapply reads_bind; [exact IH|].
  apply reads_ret.
Qed.

Lemma wrote_strcell s : count_ok (length s) /\ bytes_ok s -> wrote (w_strcell realloc_ok s) (le_store 4 (length s) ++ s).
Proof using Hmem.
  unfold count_ok. intros [Hs Hb]. unfold w_strcell. bif; [lia|]. apply wrote_seq; [apply wrote_i32|by apply wrote_raw].
Qed.

(** ** Children *)
Context (wr : option obj -> W) (ok : obj -> Prop).
Context (Hrec : forall x, ok x -> is_err (inr x) = false /\ trips (wr (Some x)) rd x).

Lemma reads_ok k o x rest out y : is_err (inr x) = false -> reads rd o (inr x) -> reads (k x) rest y -> out = o ++ rest ->
  reads (r_ok rd k) out y.
Proof using Type.
  intros Hx Ho Hk ->. unfold r_ok. eapply reads_bind; [exact Ho|]. by destruct x.
Qed.

Lemma children l : Forall ok l -> exists os, Forall2 (fun x o => wrote (wr (Some x)) o) l os /\
  (length l <= length (concat os))%nat /\ reads (rd_items rd (length l)) (concat os) (inr l).
Proof using Hrec.
  induction 1 as [|x l Hx _ (os & Hw & Hle & Hr)]; [exists []; split; [done|split; [done|apply reads_ret]]|].
  destruct (Hrec x Hx) as (Hne & o & Ho & Hlo & Hro). exists (o :: os). split; [by constructor|].
  cbn [concat length rd_items]. split; [rewrite length_app; lia|]. eapply reads_bind; [exact Hro|].
  destruct x; try done; rewrite <- (app_nil_r (concat os)); (eapply reads_bind; [exact Hr|apply reads_ret]).
Qed.

Lemma trips_list attrs l : list_ok attrs l -> Forall ok l ->
  trips (w_obj_inner E realloc_ok wr (OList attrs l)) (rd_obj_inner E cfg rd top) (OList attrs l).
Proof using Hmem Hrec.
  intros [Hc Hl] Hall. destruct (children l Hall) as (os & Hw & Hle & Hr). cbn [w_obj_inner]. unfold w_list. unfold count_ok in Hc.
  set (a := if serde then attrs else if list_sorted attrs then 1 else 0).
  assert (Ha : byte_ok a) by (unfold a, byte_ok; clear -Hl; destruct serde; [lia|]; destruct (list_sorted attrs); lia).
  exists (0 :: a :: le_store 4 (length l) ++ concat os). split; [|split; [cbn; lia|]].
  - assert (Hplain : wrote (w_u8 realloc_ok 0 ;> w_u8 realloc_ok a ;> w_count realloc_ok (length l) ;> w_each (fun e => wr (Some e)) l)
      ([0] ++ [a] ++ le_store 4 (length l) ++ concat os)).
    { apply wrote_seq; [apply wrote_u8|]. apply wrote_seq; [by apply wrote_byte|].
      apply wrote_seq; [apply wrote_count; lia|by apply wrote_each]. }
    apply wrote_mode. unfold a in *. clear -Hplain Hl. destruct serde.
    + destruct Hl as [_ Hat]. by rewrite Hat.
    + destruct Hl as [_ Hcol]. rewrite Hcol. exact Hplain.
  - change (0 :: a :: le_store 4 (length l) ++ concat os) with ([0] ++ [a] ++ (le_store 4 (length l) ++ concat os)).
    apply reads_guard; [cbn; lia|]. eapply reads_bind; [apply reads_u8|]. change (rd_tag E cfg rd top 0) with (rd_list E cfg rd).
    apply reads_guard; [rewrite !length_app, length_le_store; simpl; lia|]. eapply reads_bind; [apply reads_u8|].
    eapply reads_bind; [apply reads_i32; lia|]. apply reads_rem. intros rem Hrem. bif; [lia|].
    rewrite Nat2Z.id, <- (app_nil_r (concat os)). eapply reads_bind; [exact Hr|]. cbn [c_serde cfg]. unfold a. clear -Hl. revert Hl.
    unfold cfg. destruct serde; intros Hl.
    + destruct Hl as [_ ->]. apply reads_value.
    + destruct Hl as [Hat ->]. cbn [is_err]. unfold rd_attr. cbn [c_disk].
      destruct Hat as [-> | ->]; destruct disk; cbn; apply reads_ret.
Qed.

(** The branch of a structural tag. *)
Lemma reads_tagged raw (m : R res) o y : rd_tag E cfg rd top raw = m -> reads m o y -> reads (rd_obj_inner E cfg rd top) ([raw] ++ o) y.
Proof using Type. intros <- Hr. apply reads_guard; [cbn; lia|]. eapply reads_bind; [apply reads_u8|done]. Qed.

Lemma trips_dict sorted k v : ok k -> ok v -> dict_ok sorted k v ->
  trips (w_obj_inner E realloc_ok wr (ODict sorted k v)) (rd_obj_inner E cfg rd top) (ODict sorted k v).
Proof using Hmem Hrec.
  intros Hk Hv (Hn & Heq & Hst). destruct (Hrec k Hk) as (Hek & ok' & Hwk & _ & Hrk). destruct (Hrec v Hv) as (Hev & ov & Hwv & _ & Hrv).
  exists ([if sorted then 127 else 99] ++ (ok' ++ ov)). split; [|split; [cbn; lia|]].
  - cbn [w_obj_inner]. apply wrote_seq; [apply wrote_byte; by destruct sorted|by apply wrote_seq].
  - apply (reads_tagged _ (rd_dict E rd sorted)); [by destruct sorted|].
    unfold rd_dict. eapply reads_ok; [exact Hek|exact Hrk| |reflexivity]. rewrite <- (app_nil_r ov).
    eapply reads_ok; [exact Hev|exact Hrv| |reflexivity]. cbv zeta. rewrite <- Heq, Z.eqb_refl. bif; [lia|].
    destruct sorted; [cbn [q_attr_stamp_trusted]; rewrite (Hst eq_refl)|]; apply reads_value.
Qed.

Lemma trips_lambda attrs params body : serde = true -> 0 <= attrs < 256 -> Z.land attrs (0xFF - RAY_ATTR_SLICE) = attrs ->
  ok params -> ok body ->
  trips (w_obj_inner E realloc_ok wr (OLambda attrs params body)) (rd_obj_inner E cfg rd top) (OLambda attrs params body).
Proof using Hmem Hrec.
  intros Hs Ha Hm Hp Hb. destruct (Hrec params Hp) as (He1 & o1 & Hw1 & _ & Hr1). destruct (Hrec body Hb) as (He2 & o2 & Hw2 & _ & Hr2).
  exists ([201] ++ [attrs] ++ (o1 ++ o2)). split; [|split; [cbn; lia|]].
  - apply wrote_mode. rewrite Hs. apply wrote_seq; [apply wrote_u8|]. apply wrote_seq; [by apply wrote_byte|by apply wrote_seq].
  - apply (reads_tagged _ (rd_ext E cfg rd 201)); [unfold rd_tag; cbn [c_serde cfg]; by rewrite Hs|].
    apply reads_guard; [cbn; lia|]. eapply reads_bind; [apply reads_u8|].
    eapply reads_ok; [exact He1|exact Hr1| |reflexivity]. rewrite <- (app_nil_r o2).
    eapply reads_ok; [exact He2|exact Hr2| |reflexivity]. rewrite Hm. apply reads_value.
Qed.

Lemma trips_fn valence id : fn_ok valence id ->
  trips (w_obj_inner E realloc_ok wr (OFn valence id)) (rd_obj_inner E cfg rd top) (OFn valence id).
Proof using Hmem.
  unfold fn_ok. cbn [w_obj_inner]. intros Hf. destruct (Bool.bool_dec serde true) as [Hs|Hs%Bool.not_true_is_false].
  - rewrite Hs in Hf. destruct Hf as (Hv & Ht & Hr). exists ([200] ++ [valence] ++ (fn_name E valence id ++ [0])). split; [|split; [cbn; lia|]].
    + apply (wrote_ext _ (w_u8 realloc_ok 200 ;> w_u8 realloc_ok valence ;> w_cstr realloc_ok (fn_name E valence id)));
        [intros b Hsb; unfold w_fn; by rewrite Hsb, Hs|].
      apply wrote_seq; [apply wrote_u8|]. apply wrote_seq; [apply wrote_byte; unfold byte_ok; lia|by apply wrote_cstr, text_bytes].
    + apply (reads_tagged _ (rd_ext E cfg rd 200)); [unfold rd_tag; cbn [c_serde cfg]; by rewrite Hs|].
      apply reads_guard; [cbn; lia|]. eapply reads_bind; [apply reads_u8|].
      assert (Hvb : negb ((valence =? 101) || (valence =? 102) || (valence =? 103)) = false) by (apply negb_false_iff; lia).
      rewrite Hvb, <- (app_nil_r (_ ++ [0])). eapply reads_bind; [by apply reads_cstr|]. cbv iota. rewrite Hr. apply reads_ret.
  - rewrite Hs in Hf. destruct Hf as (cls & code & Hk & Hc & Hop). exists ([cls] ++ [code]). split; [|split; [cbn; lia|]].
    + apply (wrote_ext _ (w_u8 realloc_ok cls ;> w_u8 realloc_ok code)); [intros b Hsb; unfold w_fn; by rewrite Hsb, Hs, Hk|].
      apply wrote_seq; apply wrote_byte; unfold byte_ok; lia.
    + apply (reads_tagged _ (rd_prim E cls)); [destruct Hc as [[-> _]|[-> _]]; done|].
      apply reads_guard; [cbn; lia|]. rewrite <- (app_nil_r [code]). eapply reads_bind; [apply reads_u8|].
      assert (H0 : (cls =? 101) && (code =? 0) = false /\ (cls =? 101) && (code =? 255) = false) by lia.
      destruct H0 as [-> ->]. rewrite Hop. apply reads_value.
Qed.

(** ** Tables, sources and carriers

    The reader takes a table's names and a lambda's source as values of their
    own, one level down. *)
Definition charvec_bytes (s : list Z) : list Z := tag RAY_CHARV :: 0 :: le_store 4 (length s) ++ s.
Definition charvec_value (s : list Z) : obj := if legacy_str E cfg then OStr s else OVec RAY_CHARV false 0 s.

Lemma charvec_read s : serde = false -> count_ok (length s) -> bytes_ok s ->
  reads (rd_obj_inner E cfg rd top) (charvec_bytes s) (inr (charvec_value s)).
Proof using Type.
  intros Hs Hc Hbs. apply (reads_tagged _ (rd_vec E cfg RAY_CHARV)); [done|]. unfold charvec_value.
  destruct (legacy_str E cfg) eqn:Hleg.
  - unfold rd_vec. rewrite Hleg, bool_decide_eq_true_2 by done. cbn [andb]. unfold count_ok in Hc.
    apply reads_guard; [rewrite length_cons, length_app, length_le_store; lia|].
    change (0 :: le_store 4 (length s) ++ s) with ([0] ++ (le_store 4 (length s) ++ s)). eapply reads_bind; [apply reads_u8|].
    eapply reads_bind; [apply reads_i32; lia|]. apply reads_rem. intros rem Hrem. bif; [lia|].
    rewrite Nat2Z.id. eapply reads_last; [by apply reads_take|apply reads_value].
  - destruct (fixed_vec_trip RAY_CHARV false 0 0 s) as (n & _ & Hdiv & Hr).
    + split; [done|]. split; [done|]. split; [exists (length s); cbn [ray_type_sizes]; split; [lia|done]|]. split; [done|]. rewrite Hs.
      split; [unfold scan_nulls; generalize (elems (length s / ray_type_sizes RAY_CHARV) (ray_type_sizes RAY_CHARV) s)|].
      { intros l. induction l as [|x l IHl]; [done|exact IHl]. }
      split; [lia|]. unfold rd_attr. cbn [c_disk cfg]. by destruct disk.
    + lia.
    + rewrite Hs. done.
    + done.
    + cbn [ray_type_sizes] in Hdiv. rewrite Nat.div_1_r in Hdiv. by rewrite Hdiv.
Qed.

Lemma wrote_charvec s : count_ok (length s) -> bytes_ok s -> wrote (w_charvec realloc_ok s 0) (charvec_bytes s).
Proof using Hmem.
  unfold count_ok. intros Hs Hb. change (charvec_bytes s) with ([10] ++ [0] ++ (le_store 4 (length s) ++ s)).
  apply wrote_seq; [apply wrote_u8|]. apply wrote_seq; [apply wrote_u8|]. apply wrote_seq; [apply wrote_count; lia|by apply wrote_raw].
Qed.

Context (Hsym : forall l, ok (OSymVec 0 l) -> reads rd (tag RAY_SYM :: symvec_bytes 0 l) (inr (OSymVec 0 l))).

Lemma trips_table sorted names cols :
  count_ok (length names) -> Forall text_ok names -> length cols = length names -> ok (OSymVec 0 names) -> ok (OList 0 cols) ->
  trips (w_obj_inner E realloc_ok wr (OTable sorted names cols)) (rd_obj_inner E cfg rd top) (OTable sorted names cols).
Proof using Hmem Hrec Hsym.
  unfold count_ok. intros Hc Ht Hl Hns Hcs. destruct (Hrec _ Hcs) as (_ & o & Hw & _ & Hr).
  set (b := if sorted then 1 else 0). assert (Hb : byte_ok b) by (by destruct sorted).
  exists (([98] ++ [b] ++ [99] ++ [11] ++ [0] ++ le_store 4 (length names) ++ cstrs names) ++ o).
  split; [|split; [cbn; lia|]].
  - cbn [w_obj_inner]. unfold w_table. apply wrote_seq; [|done]. unfold w_table_head. apply wrote_seq; [apply wrote_u8|].
    apply wrote_seq; [by apply wrote_byte|]. do 3 (apply wrote_seq; [apply wrote_u8|]).
    apply wrote_seq; [apply wrote_count; lia|by apply wrote_cstrs].
  - change ((_ ++ _) ++ o) with ([98] ++ ([b] ++ ([99] ++ ((tag RAY_SYM :: symvec_bytes 0 names) ++ o)))).
    apply (reads_tagged _ (rd_table E cfg rd)); [done|]. apply reads_guard; [cbn; lia|].
    eapply reads_bind; [apply reads_u8|]. eapply reads_bind; [apply reads_u8|]. change (negb (99 =? 99)) with false. cbv iota.
    eapply reads_ok; [|by apply Hsym| |reflexivity]; [done|]. cbv iota. rewrite <- (app_nil_r o).
    eapply reads_ok; [|exact Hr| |reflexivity]; [done|]. cbv iota. rewrite Hl, Nat.eqb_refl. cbn [negb].
    unfold b, rd_attr. cbn [c_disk cfg]. destruct sorted, disk; apply reads_ret.
Qed.

Lemma reads_verr r x : is_err r = false -> r = inr x -> reads (rd_value_err r) [] (inr x).
Proof using Type. intros He -> rest te ve. unfold rd_value_err. by rewrite He. Qed.

(** The slots of a projection that was written whole. *)
Lemma trim_args_some l : Forall (fun a : option obj => exists y, a = Some y /\ y <> OHole /\ ok y) l -> trim_args l = l.
Proof using Type.
  induction 1 as [|a l (y & -> & _) _ IH]; [done|]. cbn [trim_args]. rewrite IH. by destruct l.
Qed.

Lemma some_args l : Forall (fun a : option obj => exists y, a = Some y /\ y <> OHole /\ ok y) l ->
  exists ys, l = Some <$> ys /\ Forall ok ys /\ slot <$> ys = l.
Proof using Type.
  induction 1 as [|a l (y & -> & Hy & Hok) _ (ys & -> & Hall & Hsl)]; [by exists []|]. exists (y :: ys).
  split; [done|]. split; [by constructor|]. rewrite fmap_cons, Hsl. f_equal. by destruct y.
Qed.

Lemma reads_carrier (proj : bool) n l os r x : count_ok (length l) -> n = length l -> ((if proj then 1 else 2) <= length l)%nat ->
  (length l <= length (concat os))%nat -> reads (rd_items rd (length l)) (concat os) (inr l) -> is_err r = false -> r = inr x ->
  (if proj then match l with h :: args => apply_proj E h (slot <$> args) | [] => inl QE_DOMAIN end else apply_compose E l) = r ->
  reads (rd_carrier E cfg rd proj) (le_store 4 (Z.of_nat n) ++ concat os) (inr x).
Proof using Type.
  unfold count_ok. intros Hc -> H1 Hle Hr He Hx Hrr. unfold rd_carrier. apply reads_guard; [rewrite length_app, length_le_store; lia|].
  eapply reads_bind; [apply reads_i32; lia|]. apply reads_rem. intros rem Hrem.
  assert (Hg : (Z.of_nat (length l) <? (if proj then 1 else 2)) || (rem <? Z.of_nat (length l)) = false) by (destruct proj; lia).
  rewrite Hg, Nat2Z.id. eapply reads_last; [exact Hr|]. cbv iota. destruct proj.
  - destruct l as [|h args]; [cbn in H1; lia|]. rewrite Hrr. by apply reads_verr.
  - rewrite Hrr. by apply reads_verr.
Qed.

Lemma trips_proj head args : serde = false -> count_ok (S (length args)) -> ok head ->
  Forall (fun a => exists y, a = Some y /\ y <> OHole /\ ok y) args -> apply_proj E head args = inr (OProj head args) ->
  trips (w_obj_inner E realloc_ok wr (OProj head args)) (rd_obj_inner E cfg rd top) (OProj head args).
Proof using Hmem Hrec.
  intros Hs Hc Hh Ha Hap. pose proof (trim_args_some _ Ha) as Htr. destruct (some_args _ Ha) as (ys & -> & Hys & Hsl).
  rewrite length_fmap in Hc. destruct (children (head :: ys)) as (os & Hw & Hle & Hr); [by constructor|].
  exists ([104] ++ (le_store 4 (Z.of_nat (length (head :: ys))) ++ concat os)). split; [|split; [cbn; lia|]].
  - apply wrote_mode. rewrite Hs, Htr, length_fmap. apply wrote_seq; [apply wrote_u8|].
    replace (length ys + 1) with (Z.of_nat (length (head :: ys))) by (cbn; lia). apply wrote_seq; [apply wrote_i32|].
    inversion Hw as [|h o ys' os' Hwh Hws]; subst. cbn [concat]. apply wrote_seq; [done|]. apply wrote_each.
    clear -Hws. induction Hws; constructor; done.
  - apply (reads_tagged _ (rd_carrier E cfg rd true)); [done|].
    eapply (reads_carrier true _ (head :: ys)); [exact Hc|done|cbn; lia|exact Hle|exact Hr| |reflexivity|by rewrite Hsl]; done.
Qed.

Lemma trips_comp parts : serde = false -> count_ok (length parts) -> (2 <= length parts)%nat -> Forall ok parts ->
  apply_compose E parts = inr (OComp parts) ->
  trips (w_obj_inner E realloc_ok wr (OComp parts)) (rd_obj_inner E cfg rd top) (OComp parts).
Proof using Hmem Hrec.
  intros Hs Hc H2 Ha Hap. destruct (children parts Ha) as (os & Hw & Hle & Hr).
  exists ([105] ++ (le_store 4 (Z.of_nat (length parts)) ++ concat os)). split; [|split; [cbn; lia|]].
  - apply wrote_mode. rewrite Hs. apply wrote_seq; [apply wrote_u8|]. apply wrote_seq; [apply wrote_i32|by apply wrote_each].
  - apply (reads_tagged _ (rd_carrier E cfg rd false)); [done|].
    eapply (reads_carrier false _ parts); [exact Hc|done|exact H2|exact Hle|exact Hr| |reflexivity|exact Hap]; done.
Qed.

Lemma trips_deriv adv body it : serde = false -> 0 <= adv < 6 -> ok body -> iter_value E adv = Some it ->
  apply_iter E it body = inr (ODeriv adv body) ->
  trips (w_obj_inner E realloc_ok wr (ODeriv adv body)) (rd_obj_inner E cfg rd top) (ODeriv adv body).
Proof using Hmem Hrec.
  intros Hs Ha Hb Hit Hap. destruct (Hrec body Hb) as (He & o & Hw & _ & Hr).
  exists ([106 + adv] ++ o). split; [|split; [cbn; lia|]].
  - apply wrote_mode. rewrite Hs. apply wrote_seq; [apply wrote_byte; unfold byte_ok; lia|done].
  - apply (reads_tagged _ (rd_derived E rd adv)).
    { assert (Hadv : adv = 0 \/ adv = 1 \/ adv = 2 \/ adv = 3 \/ adv = 4 \/ adv = 5) by lia.
      by destruct Hadv as [-> |[-> |[-> |[-> |[-> | ->]]]]]. }
    rewrite <- (app_nil_r o). eapply reads_ok; [exact He|exact Hr| |reflexivity]. rewrite Hit, Hap. by apply reads_verr.
Qed.

(** Everything without children. *)
Lemma trips_raw m raw o (r : R res) x :
  wrote m ([raw] ++ o) -> rd_tag E cfg rd top raw = r -> reads r o (inr x) -> trips m (rd_obj_inner E cfg rd top) x.
Proof using Type. intros Hw Ht Hr. exists ([raw] ++ o). split; [done|]. split; [cbn; lia|]. by eapply reads_tagged. Qed.

Lemma trips_prim cls code x : byte_ok cls -> byte_ok code -> rd_tag E cfg rd top cls = rd_prim E cls ->
  reads (rd_prim E cls) [code] (inr x) -> trips (w_prim realloc_ok cls code) (rd_obj_inner E cfg rd top) x.
Proof using Hmem. intros Hc Hk Ht Hr. eapply trips_raw; [|exact Ht|exact Hr]. by apply wrote_seq; apply wrote_byte. Qed.

Lemma trips_sym quoted s : text_ok s -> (quoted = true -> serde = true) ->
  trips (w_obj_inner E realloc_ok wr (OSym quoted s)) (rd_obj_inner E cfg rd top) (OSym quoted s).
Proof using Hmem.
  intros Ht Hq. destruct quoted.
  - specialize (Hq eq_refl). eapply (trips_raw _ 203 (s ++ [0]) (rd_ext E cfg rd 203)).
    + apply wrote_mode. rewrite Hq. by apply wrote_seq; [apply wrote_u8|apply wrote_cstr, text_bytes].
    + unfold rd_tag. cbn [c_serde cfg]. by rewrite Hq.
    + eapply reads_last; [by apply reads_cstr|apply reads_value].
  - eapply (trips_raw _ (u8 (- tag RAY_SYM)) (s ++ [0])); [|apply tag_atom; by right|].
    + apply wrote_mode. assert (Hw : wrote (w_u8 realloc_ok (- tag RAY_SYM) ;> w_sym_id realloc_ok s) ([u8 (- tag RAY_SYM)] ++ (s ++ [0]))) by
        (by apply wrote_seq; [apply wrote_u8|apply wrote_cstr, text_bytes]). clear -Hw. destruct serde; exact Hw.
    + eapply reads_last; [by apply reads_cstr|apply reads_value].
Qed.

Lemma trips_tnull t : serde = true -> t = RAY_BOOL \/ t = RAY_U8 ->
  trips (w_obj_inner E realloc_ok wr (OTNull t)) (rd_obj_inner E cfg rd top) (OTNull t).
Proof using Hmem.
  intros Hs Ht. eapply (trips_raw _ 204 [u8 (- tag t)] (rd_ext E cfg rd 204)).
  - apply wrote_mode. rewrite Hs. case_decide; [|done]. apply wrote_seq; apply wrote_u8.
  - unfold rd_tag. cbn [c_serde cfg]. by rewrite Hs.
  - apply reads_guard; [cbn; lia|]. eapply reads_last; [apply reads_u8|]. destruct Ht as [-> | ->]; apply reads_value.
Qed.

Lemma trips_str s : serde = true -> count_ok (length s) -> bytes_ok s ->
  trips (w_obj_inner E realloc_ok wr (OStr s)) (rd_obj_inner E cfg rd top) (OStr s).
Proof using Hmem.
  unfold count_ok. intros Hs Hc Hb. eapply (trips_raw _ 205 (le_store 4 (length s) ++ s) (rd_ext E cfg rd 205)).
  - apply wrote_mode. rewrite Hs. bif; [lia|]. apply wrote_seq; [apply wrote_u8|]. apply wrote_seq; [apply wrote_i32|by apply wrote_raw].
  - unfold rd_tag. cbn [c_serde cfg]. by rewrite Hs.
  - apply reads_guard; [rewrite length_app, length_le_store; lia|]. eapply reads_bind; [apply reads_i32; lia|].
    apply reads_rem. intros rem Hrem. bif; [lia|]. rewrite Nat2Z.id. eapply reads_last; [by apply reads_take|apply reads_value].
Qed.

Lemma trips_strvec nulls l : serde = true -> count_ok (length l) -> Forall (fun s => count_ok (length s) /\ bytes_ok s) l ->
  trips (w_obj_inner E realloc_ok wr (OStrVec nulls 0 l)) (rd_obj_inner E cfg rd top) (OStrVec nulls 0 l).
Proof using Hmem.
  unfold count_ok. intros Hs Hc Hl. set (a := if nulls then RAY_ATTR_HAS_NULLS else 0). set (cells := concat ((fun s => le_store 4 (length s) ++ s) <$> l)).
  assert (Hcells : (4 * length l <= length cells)%nat).
  { unfold cells. clear. induction l as [|s l IH]; [done|]. rewrite fmap_cons. cbn [concat length]. rewrite !length_app, length_le_store. lia. }
  eapply (trips_raw _ 202 ([a] ++ (le_store 4 (length l) ++ cells)) (rd_ext E cfg rd 202)).
  - apply wrote_mode. rewrite Hs. apply wrote_seq; [apply wrote_u8|]. apply wrote_seq; [apply wrote_byte; by destruct nulls|].
    apply wrote_seq; [apply wrote_count; lia|]. apply wrote_map. eapply Forall_impl; [exact Hl|]. apply wrote_strcell.
  - unfold rd_tag. cbn [c_serde cfg]. by rewrite Hs.
  - apply reads_guard; [rewrite !length_app, length_le_store; cbn; lia|]. eapply reads_bind; [apply reads_u8|].
    eapply reads_bind; [apply reads_i32; lia|]. apply reads_rem. intros rem Hrem. bif; [lia|].
    rewrite Nat2Z.id. eapply reads_last; [by apply reads_strcells|]. unfold a. destruct nulls; apply reads_value.
Qed.

Context (d : nat) (Hchar : (0 < d)%nat -> serde = false -> forall s, count_ok (length s) -> bytes_ok s -> reads rd (charvec_bytes s) (inr (charvec_value s))).

Lemma source_value s : str_of_charv (charvec_value s) = OStr s.
Proof using Type. unfold charvec_value. by destruct (legacy_str E cfg). Qed.

Lemma trips_lam ctx src : serde = false -> (0 < d)%nat -> lambda_ok ctx src ->
  trips (w_obj_inner E realloc_ok wr (OLam ctx src)) (rd_obj_inner E cfg rd top) (OLam ctx src).
Proof using Hmem Hchar.
  intros Hs Hd (Ht & Hl & Hctx & Hc & Hbs & H2 & Hbr & Hdl & Hlam).
  exists ([100] ++ ((dotless ctx ++ [0]) ++ charvec_bytes src)). split; [|split; [cbn; lia|]].
  - apply wrote_mode. rewrite Hs. apply wrote_seq; [apply wrote_u8|]. apply wrote_seq; [|by apply wrote_charvec].
    unfold w_lambda_ctx, dotless. pose proof (text_bytes _ Ht) as Hb. unfold dotless in Hb.
    destruct ctx as [|c ctx]; [apply wrote_u8|]. destruct (c =? 46); by apply wrote_cstr.
  - apply (reads_tagged _ (rd_lambda E rd)); [done|]. eapply reads_bind; [by apply reads_cstr|]. cbv iota.
    assert (Hg : negb (length (dotless ctx) =? 0)%nat && ((64 <=? length (dotless ctx) + 1)%nat || negb (ctx_ok E (dotless ctx))) = false).
    { destruct (dotless ctx) as [|c l] eqn:Ed; [done|]. rewrite Hctx by done. destruct (64 <=? _)%nat eqn:E64; bprop; [lia|]. by rewrite andb_false_r. }
    rewrite Hg. rewrite <- (app_nil_r (charvec_bytes src)).
    eapply reads_ok; [|by apply Hchar| |reflexivity]; [unfold charvec_value; by destruct (legacy_str E cfg)|].
    rewrite source_value. cbv iota.
    assert (Hno : (if (length (dotless ctx) =? 0)%nat then dl_call_value E src else None) = None).
    { destruct (dotless ctx); [by apply Hdl|done]. }
    rewrite Hno. unfold Prelude.rd. rewrite Hbr. cbn [default from_option id].
    rewrite (proj2 (Nat.ltb_ge _ _)) by lia. cbn [orb negb]. change (negb (123 =? 123)) with false. cbv iota.
    rewrite Hlam. by apply reads_verr.
Qed.

Lemma trips_kfn lib fn rank : serde = false -> (0 < d)%nat -> dl_ok lib fn rank = true -> count_ok (length (dl_text lib fn rank)) -> bytes_ok (dl_text lib fn rank) ->
  dl_call_value E (dl_text lib fn rank) = Some (OKfn lib fn rank) ->
  trips (w_obj_inner E realloc_ok wr (OKfn lib fn rank)) (rd_obj_inner E cfg rd top) (OKfn lib fn rank).
Proof using Hmem Hchar.
  intros Hs Hd Hok Hc Hbs Hdl. set (src := dl_text lib fn rank) in *.
  exists ([100] ++ ([0] ++ charvec_bytes src)). split; [|split; [cbn; lia|]].
  - apply wrote_mode. rewrite Hs. unfold w_dl_call. rewrite Hok. apply wrote_seq; [apply wrote_u8|].
    apply wrote_seq; [apply wrote_u8|by apply wrote_charvec].
  - apply (reads_tagged _ (rd_lambda E rd)); [done|]. eapply reads_bind; [apply (reads_cstr []); constructor|]. cbv iota.
    change (negb (length (@nil Z) =? 0)%nat) with false. cbn [andb]. rewrite <- (app_nil_r (charvec_bytes src)).
    eapply reads_ok; [|by apply Hchar| |reflexivity]; [unfold charvec_value; by destruct (legacy_str E cfg)|].
    rewrite source_value. change (length (@nil Z) =? 0)%nat with true. cbv iota. rewrite Hdl. apply reads_value.
Qed.


Lemma trips_inner x : sendable_inner d ok x -> trips (w_obj_inner E realloc_ok wr x) (rd_obj_inner E cfg rd top) x.
Proof using Hmem Hrec Hsym Hchar.
  destruct x as [| |text|t v|t|quoted s|s|t nulls letter da|letter l|nulls letter l|attrs l|sorted k v|sorted names cols
    |attrs params body|valence id|id|ctx src|head args|parts|adv body|lib fn rank|t]; cbn [sendable_inner].
  - intros _. by apply (trips_prim 101 0 ONull).
  - intros _. by apply (trips_prim 101 0xff OHole).
  - done.
  - apply trips_atom.
  - intros []. by apply trips_tnull.
  - intros []. by apply trips_sym.
  - intros (? & ? & ?). by apply trips_str.
  - apply trips_vec.
  - intros (? & ? & ?). by apply trips_symvec.
  - intros (? & -> & ? & ?). by apply trips_strvec.
  - intros []. by apply trips_list.
  - intros (? & ? & ?). by apply trips_dict.
  - intros (? & ? & ? & ? & ?). by apply trips_table.
  - intros (? & ? & ? & ? & ?). by apply trips_lambda.
  - apply trips_fn.
  - intros (Hs & Hid & Hit). eapply (trips_raw _ 103 [id] (rd_iter E)); [|done|].
    + apply wrote_mode. rewrite Hs. by apply wrote_seq; [apply wrote_u8|apply wrote_byte].
    + apply reads_guard; [cbn; lia|]. eapply reads_last; [apply reads_u8|]. rewrite Hit. apply reads_value.
  - intros (? & ? & ?). by apply trips_lam.
  - intros (? & ? & ? & ? & ?). by apply trips_proj.
  - intros (? & ? & ? & ? & ?). by apply trips_comp.
  - intros (? & ? & ? & it & ? & ?). by eapply trips_deriv.
  - intros (? & ? & ? & ? & ? & ?). by apply trips_kfn.
  - done.
Qed.
End level.

Lemma sendable_ok d x : sendable d x -> is_err (inr x) = false.
Proof using Type. destruct d; [done|]. by destruct x. Qed.

Lemma sendable_trips d top x : sendable d x -> trips (q_wire_write_obj E realloc_ok d (Some x)) (rd_obj E cfg d top) x.
Proof using Hmem.
  revert top x. induction d as [|d IH]; intros top x; [done|]. cbn [sendable]. intros Hx.
  assert (Hin : trips (w_obj_inner E realloc_ok (q_wire_write_obj E realloc_ok d) x) (rd_obj_inner E cfg (rd_obj E cfg d false) top) x).
  { apply (trips_inner (rd_obj E cfg d false) top (q_wire_write_obj E realloc_ok d) (sendable d)) with (d := d).
    - intros y Hy. split; [by eapply sendable_ok|by apply IH].
    - intros l Hl. destruct d as [|d]; [done|]. cbn [sendable sendable_inner] in Hl. destruct Hl as (? & ? & ?). by apply symvec_read.
    - intros Hd Hs s Hc. destruct d as [|d]; [lia|]. by apply charvec_read.
    - exact Hx. }
  destruct Hin as (out & [Hb Hw] & Hl & Hr). exists out. split; [|by split].
  split; [done|]. intros b He Hm Hs. cbn [q_wire_write_obj]. rewrite He. by apply Hw.
Qed.
End trip.

(** * Properties *)

(** The frame of a value that may be sent. *)
Lemma frame_of_sendable E realloc_ok x msgtype out :
  (forall n, realloc_ok n = true) -> wrote false (q_wire_write_obj E realloc_ok Q_WIRE_MAX_DEPTH (Some x)) out ->
  q_wire_serialize E realloc_ok x msgtype = Some (inl QE_LIMIT) \/
  exists f, q_wire_serialize E realloc_ok x msgtype = Some (inr f) /\ drop 8 f = out /\ bytes_ok f /\
    8 + length out = length f /\ length f <= Q_WIRE_MSG_MAX /\ frame_head f msgtype.
Proof.
  intros Hmem Hw. unfold q_wire_serialize. set (hd := [1; u8 msgtype; 0; 0; 0; 0; 0; 0]).
  assert (Hhd : bytes_ok hd) by (repeat constructor; apply u8_range || (unfold byte_ok; lia)).
  destruct (wrote_seq false (w_raw realloc_ok hd) _ hd out (wrote_raw realloc_ok Hmem false hd Hhd) Hw) as [Hb Hrun].
  destruct (Hrun wbuf0) as [cap ->]; [done..|]. cbn [w_p w_len wbuf0 app]. cbn [negb].
  change (0 + length (hd ++ out)) with (Z.of_nat (length (hd ++ out))). bif; [by left|right].
  assert (Hl : length (hd ++ out) = (8 + length out)%nat) by done. unfold Q_WIRE_MSG_MAX in *.
  rewrite u32_small by lia. cbv zeta.
  destruct (set_length_field (hd ++ out) (length (hd ++ out))) as (z & Hz & Hlz & H4 & H8 & Hget); [lia|lia|].
  revert Hz. destruct (aset (hd ++ out) 4 _) as [p1|] eqn:E1; cbn [mbind option_bind]; [|done].
  destruct (aset p1 5 _) as [p2|] eqn:E2; cbn [mbind option_bind]; [|done].
  destruct (aset p2 6 _) as [p3|] eqn:E3; cbn [mbind option_bind]; [|done]. intros E4. rewrite E4. cbn [mbind option_bind].
  eexists. split; [done|]. rewrite take_ge by lia. split; [by rewrite H8|]. split; [|split; [lia|split; [lia|]]].
  - apply aset_inv in E1 as [_ ->], E2 as [_ ->], E3 as [_ ->], E4 as [_ ->].
    repeat apply Forall_insert; try apply u8_range. exact Hb.
  - split; [by rewrite H4|]. by rewrite Hget, Hlz.
Qed.

(** A well-headed frame is read as its body. *)
Lemma deserialize_as E alloc_ok p p2 body x :
  (9 <= length p)%nat -> p !! 0%nat = Some 1 -> p !! 2%nat = Some p2 -> get_u32 false (drop 4 p) = Z.of_nat (length p) ->
  p2 = 0 /\ body = drop 8 p \/ p2 = 1 /\ q_wire_uncompress_payload alloc_ok (drop 8 p) false = Some (inr body) ->
  reads (rd_obj E (cfg false false) Q_WIRE_MAX_DEPTH true) body (inr x) -> is_err (inr x) = false ->
  q_wire_deserialize_ex E alloc_ok p = Some (inr x, false).
Proof.
  intros Hl H0 H2 Hlen Hbody Hr Hx. unfold q_wire_deserialize_ex. bif; [lia|]. rewrite H0. cbn [mbind option_bind].
  change (negb ((1 =? 1) || (1 =? 0))) with false. change (1 =? 0) with false. cbv iota zeta. rewrite H2. cbn [mbind option_bind].
  rewrite Hlen, Z.eqb_refl. cbn [negb].
  assert (Hb : (if p2 =? 1 then q_wire_uncompress_payload alloc_ok (drop 8 p) false else Some (inr (drop 8 p))) = Some (inr body)).
  { destruct Hbody as [[-> ->]|[-> ->]]; done. }
  assert (Hp2 : (1 <? p2) = false) by (destruct Hbody as [[-> _]|[-> _]]; done).
  rewrite Hp2, Hb. cbn [mbind option_bind]. specialize (Hr [] false None). rewrite app_nil_r in Hr. unfold cfg in Hr.
  rewrite Hr. cbn [mbind option_bind c_p c_top_err_ok c_verr length]. change (negb (0 =? 0)%nat) with false. cbn [andb].
  rewrite Hx. cbn [andb]. unfold rd_finish. by cbn [c_verr].
Qed.

Lemma frame_shape f msgtype : frame_head f msgtype -> (9 <= length f)%nat ->
  f !! 0%nat = Some 1 /\ f !! 2%nat = Some 0 /\ frame_be f = false.
Proof.
  intros [H4 _] Hl. destruct f as [|a0 [|a1 [|a2 [|a3 f]]]]; cbn [length] in Hl; try lia. cbn [take] in H4. by injection H4 as -> -> -> ->.
Qed.

(** C2. What the writer appends for a value that its mode carries, the reader
    of that mode turns back into the very value, consuming exactly those bytes
    whatever follows them; this holds for every kind of value, nested to the
    depth limit, in wire and in serde mode. *)
Theorem q_wire_obj_roundtrip E realloc_ok serde disk x :
  (forall n, realloc_ok n = true) -> sendable E disk serde Q_WIRE_MAX_DEPTH x ->
  exists out, wrote serde (q_wire_write_obj E realloc_ok Q_WIRE_MAX_DEPTH (Some x)) out /\
    forall rest, q_wire_read_obj_ex E (Rcfg false serde disk) (out ++ rest) = Some (inr x, Z.of_nat (length out), false).
Proof.
  intros Hmem Hx. pose proof (sendable_ok _ _ _ _ _ Hx) as He.
  destruct (sendable_trips E realloc_ok Hmem disk serde _ true x Hx) as (out & Hw & _ & Hr). exists out. split; [done|].
  intros rest. unfold q_wire_read_obj_ex. specialize (Hr rest false None). unfold cfg in Hr. rewrite Hr. cbn [mbind option_bind].
  unfold rd_finish. cbn [c_verr c_p]. rewrite length_app. do 3 f_equal. lia.
Qed.

(** C1. A value that the wire carries, serialized into a frame, compressed or
    not, comes back from the frame unchanged; serializing fails only beyond the
    size of a message. *)
Theorem q_wire_frame_roundtrip E realloc_ok x msgtype :
  (forall n, realloc_ok n = true) -> sendable E false false Q_WIRE_MAX_DEPTH x ->
  exists r, q_wire_serialize E realloc_ok x msgtype = Some r /\
    match r with
    | inl err => err = QE_LIMIT
    | inr f =>
        q_wire_deserialize_ex E true f = Some (inr x, false) /\
        forall m g, length m = (length f / 2)%nat -> q_wire_compress (Some m) f = Some (inr g) ->
          q_wire_deserialize_ex E true g = Some (inr x, false)
    end.
Proof.
  intros Hmem Hx. pose proof (sendable_ok _ _ _ _ _ Hx) as He.
  destruct (sendable_trips E realloc_ok Hmem false false _ true x Hx) as (out & Hw & Hlo & Hr).
  destruct (frame_of_sendable E realloc_ok x msgtype out Hmem Hw) as [Hs|(f & Hs & H8 & Hbf & Hlf & Hmax & Hhd)];
    [by exists (inl QE_LIMIT)|]. exists (inr f). split; [done|].
  destruct (frame_shape f msgtype Hhd ltac:(lia)) as (Hf0 & Hf2 & Hbe). pose proof Hhd as [_ Hlen].
  assert (Hdes : q_wire_deserialize_ex E true f = Some (inr x, false)).
  { eapply (deserialize_as E true f 0 out); [lia|done|done|done|by left|exact Hr|exact He]. }
  split; [done|]. intros m g Hm Hg.
  destruct (q_wire_compress_spec (Some m) f Hbf) as (r & Hrun & Hcase); [lia|by intros ? [= <-]|].
  rewrite Hg in Hrun. injection Hrun as <-. destruct Hcase as [->|[Hbig [Hsh Hh Ht Hb]]]; [done|].
  rewrite Hbe in Ht, Hb. assert (Hg9 : (9 <= length g)%nat).
  { destruct (decide (length g < 9)%nat) as [Hlt|]; [|lia]. exfalso. unfold q_wire_uncompress_payload in Hb. rewrite length_drop in Hb.
    rewrite (proj2 (Z.ltb_lt _ _)) in Hb by lia. done. }
  assert (Hg0 : g !! 0%nat = Some 1 /\ g !! 2%nat = Some 1).
  { rewrite <- (lookup_take_lt g 4 0), <- (lookup_take_lt g 4 2), Hh by lia. rewrite list_lookup_insert_ne, lookup_take_lt by lia.
    split; [done|]. apply list_lookup_insert_eq. rewrite length_take. lia. }
  eapply (deserialize_as E true g 1 (drop 8 f)); [done|apply Hg0|apply Hg0|exact Ht|by right|by rewrite H8|exact He].
Qed.

(** ** Witnesses *)

(** A process that knows one function, [+], and loads nothing. *)
Definition demo_env : wire_env := {|
  raw_len := fun _ => 0; dict_rows_table := fun _ => None; attr_build := fun x _ => inr x;
  kdb_op_of := fun v i => if i =? 7 then Some (102, 1) else None; native_name := fun _ _ => None;
  fn_name := fun _ _ => [43]; fn_read := fun v s => if decide (s = [43]) then inr (OFn v 7) else inl QE_NAME;
  op_value := fun c k => if (c =? 102) && (k =? 1) then Some (OFn 102 7) else None; iter_value := fun i => Some (OIter i);
  dl_value := fun _ _ _ => None; ctx_ok := fun _ => true; lambda_value := fun c s => inr (OLam c s);
  apply_proj := fun h l => inr (OProj h l); apply_compose := fun l => inr (OComp l);
  apply_iter := fun it f => match it with OIter i => inr (ODeriv i f) | _ => inl QE_TYPE end;
  splay_flip := fun _ _ => None; remote_value := true |}.

(** A sorted table with a null, beside functions of every kind. *)
Definition demo_wire : obj :=
  OList 0 [OTable true [[97]; [98]] [OVec RAY_I64 true 1 (le_store 8 5 ++ le_store 8 0x8000000000000000); OSymVec 0 [[65]; []]];
           OProj (OFn 102 7) [Some (OAtom RAY_I64 1)]; OLam [] [123; 120; 125]; ODeriv 3 (OFn 102 7)].

Definition demo_serde : obj :=
  OList RAY_ATTR_SORTED [OStr [120; 0; 121]; OTNull RAY_BOOL; OSym true [120]; OFn 102 7; OStrVec true 0 [[]; [1; 2]];
                         OLambda 1 (OSymVec 0 [[120]]) (OList 0 [OAtom RAY_F64 0x7FF8000000000000; ONull])].

Lemma sendable_S E disk serde d x : sendable E disk serde (S d) x = sendable_inner E disk serde d (sendable E disk serde d) x.
Proof. done. Qed.

Ltac sendable_demo := repeat match goal with
  | |- sendable _ _ _ (S _) _ => rewrite sendable_S; cbn [sendable_inner]
  | |- list_ok _ _ _ _ => unfold list_ok
  | |- atom_ok _ _ _ _ _ => unfold atom_ok
  | |- vec_ok _ _ _ _ _ _ _ => unfold vec_ok
  | |- fn_ok _ _ _ _ => unfold fn_ok; cbv iota
  | |- lambda_ok _ _ _ => unfold lambda_ok
  | |- letter_ok _ _ _ _ _ _ => unfold letter_ok
  | |- text_ok _ => unfold text_ok
  | |- _ /\ _ => split
  | |- Forall _ _ => constructor
  | |- exists y, Some ?a = Some y /\ _ => exists a
  end; try done.

Lemma demo_fn : exists cls code : Z, kdb_op_of demo_env 102 7 = Some (cls, code) /\
  (cls = 101 /\ 0 < code < 255 \/ cls = 102 /\ 0 <= code < 256) /\ op_value demo_env cls code = Some (OFn 102 7).
Proof. exists 102, 1. split; [done|]. split; [lia|done]. Qed.

Lemma demo_bytes l : forallb (fun b => (0 <=? b) && (b <? 256)) l = true -> bytes_ok l.
Proof. intros Hl. apply Forall_forall. intros b Hb%list_elem_of_In. rewrite forallb_forall in Hl. specialize (Hl b Hb). unfold byte_ok. lia. Qed.

Lemma demo_wire_sendable : sendable demo_env false false Q_WIRE_MAX_DEPTH demo_wire.
Proof.
  unfold demo_wire, Q_WIRE_MAX_DEPTH. sendable_demo; try apply demo_fn; try (by left); try (by apply demo_bytes); try (cbn; lia).
  - exists 2%nat. split; [done|]. unfold count_ok, INT32_MAX. lia.
  - exists (OIter 3). by split.
Qed.

Lemma demo_serde_sendable : sendable demo_env true true Q_WIRE_MAX_DEPTH demo_serde.
Proof.
  unfold demo_serde, Q_WIRE_MAX_DEPTH. sendable_demo; try (by left); try (by apply demo_bytes); try (cbn; lia).
Qed.

Lemma q_wire_obj_roundtrip_witness :
  sendable demo_env true true Q_WIRE_MAX_DEPTH demo_serde /\
  exists out, wrote true (q_wire_write_obj demo_env (fun _ => true) Q_WIRE_MAX_DEPTH (Some demo_serde)) out /\
    forall rest, q_wire_read_obj_ex demo_env (Rcfg false true true) (out ++ rest) = Some (inr demo_serde, Z.of_nat (length out), false).
Proof.
  assert (Hx : sendable demo_env true true Q_WIRE_MAX_DEPTH demo_serde) by exact demo_serde_sendable.
  split; [exact Hx|]. exact (q_wire_obj_roundtrip demo_env (fun _ => true) true true demo_serde (fun _ => eq_refl) Hx).
Defined.

Lemma q_wire_frame_roundtrip_witness :
  sendable demo_env false false Q_WIRE_MAX_DEPTH demo_wire /\
  exists f, q_wire_serialize demo_env (fun _ => true) demo_wire 1 = Some (inr f) /\
    q_wire_deserialize_ex demo_env true f = Some (inr demo_wire, false).
Proof.
  split; [exact demo_wire_sendable|].
  destruct (q_wire_frame_roundtrip demo_env (fun _ => true) demo_wire 1 (fun _ => eq_refl) demo_wire_sendable) as (r & Hr & Hcase).
  destruct r as [err|f]; [|exists f; split; [exact Hr|apply Hcase]]. exfalso. subst err.
  assert (Hs : match q_wire_serialize demo_env (fun _ => true) demo_wire 1 with Some (inr _) => true | _ => false end = true) by by vm_compute.
  rewrite Hr in Hs. done.
Defined.
