(* ===== verification/WireSafe.v ===== *)
(** * The wire reader on arbitrary bytes ([src/qlang/net/q_wire.c])

    Inbound frames are under an attacker's control: whatever the bytes, the
    reader ends, stays inside them and returns a value or an error. *)
From Stdlib Require Import ZArith Lia.
From S2P Require Import Prelude WireLz WireDl WireVal WireWrite WireRead WireTrip.
From Stdlib Require Import Zify ZifyNat.
#[local] Ltac Zify.zify_post_hook ::= Z.to_euclidean_division_equations.

(** [m] ends at [c], consuming a prefix of what remains. *)
Definition good {A} (m : R A) (c : rcur_t) : Prop :=
  exists x c' pre, m c = Some (x, c') /\ c_p c = pre ++ c_p c'.
Definition safe {A} (m : R A) : Prop := forall c, good m c.

Lemma good_ret {A} (x : A) c : good (mret x) c.
Proof. by exists x, c, []. Qed.

Lemma good_bind {A B} (m : R A) (f : A -> R B) c : good m c -> (forall x c', good (f x) c') -> good (m ≫= f) c.
Proof.
  intros (x & c' & pre & Hm & Hp) Hf. destruct (Hf x c') as (y & c2 & pre2 & Hm2 & Hp2).
  exists y, c2, (pre ++ pre2). unfold mbind, R_bind. rewrite Hm. split; [done|]. by rewrite Hp, Hp2, app_assoc.
Qed.

Lemma good_rem {B} (f : Z -> R B) c : good (f (length (c_p c))) c -> good (r_rem ≫= f) c.
Proof. done. Qed.

Lemma good_need {B} n (f : bool -> R B) c : good (f (n <=? length (c_p c))%nat) c -> good (r_need n ≫= f) c.
Proof. done. Qed.

(** After [n] bytes read from at least [n]. *)
Lemma good_take {B} n (f : list Z -> R B) c : (n <= length (c_p c))%nat ->
  (forall c', length (c_p c') = (length (c_p c) - n)%nat -> good (f (take n (c_p c))) c') -> good (r_take n ≫= f) c.
Proof.
  intros Hn Hf. unfold good, mbind, R_bind, r_take. rewrite (proj2 (Nat.leb_le _ _)) by done.
  destruct (Hf (with_p (drop n (c_p c)) c)) as (y & c2 & pre & Hm & Hp); [cbn [with_p c_p]; by rewrite length_drop|].
  exists y, c2, (take n (c_p c) ++ pre). rewrite Hm. split; [done|]. rewrite <- app_assoc, <- Hp. cbn [with_p c_p].
  by rewrite take_drop.
Qed.

Lemma good_u8 {B} (f : Z -> R B) c : (1 <= length (c_p c))%nat ->
  (forall b c', length (c_p c') = (length (c_p c) - 1)%nat -> good (f b) c') -> good (r_u8 ≫= f) c.
Proof.
  intros Hn Hf. unfold good, mbind, R_bind, r_u8. destruct (c_p c) as [|b p] eqn:Ep; [simpl in Hn; lia|].
  destruct (Hf b (with_p p c)) as (y & c2 & pre & Hm & Hp); [cbn [with_p c_p length]; lia|].
  exists y, c2, (b :: pre). rewrite Hm. split; [done|]. cbn [app]. f_equal. exact Hp.
Qed.

Lemma good_word {B} cfg n (f : Z -> R B) c : (n <= length (c_p c))%nat ->
  (forall v c', length (c_p c') = (length (c_p c) - n)%nat -> good (f v) c') -> good (r_word cfg n ≫= f) c.
Proof.
  intros Hn Hf. unfold r_word.
  assert (Heq : forall c, ((bs ← r_take n; mret (load (c_frame_be cfg) bs)) ≫= f) c = (bs ← r_take n; f (load (c_frame_be cfg) bs)) c).
  { intros c0. unfold mbind, R_bind, mret, R_ret. by destruct (r_take n c0) as [[]|]. }
  destruct (good_take n (fun bs => f (load (c_frame_be cfg) bs)) c Hn) as (x & c' & pre & Hx & Hp); [intros; by apply Hf|].
  exists x, c', pre. by rewrite Heq.
Qed.

Lemma good_i32 {B} cfg (f : Z -> R B) c : (4 <= length (c_p c))%nat ->
  (forall v c', length (c_p c') = (length (c_p c) - 4)%nat -> good (f v) c') -> good (r_i32 cfg ≫= f) c.
Proof.
  intros Hn Hf. unfold r_i32.
  assert (Heq : forall c, ((v ← r_word cfg 4; mret (i32 v)) ≫= f) c = (v ← r_word cfg 4; f (i32 v)) c).
  { intros c0. unfold mbind, R_bind, mret, R_ret. by destruct (r_word cfg 4 c0) as [[]|]. }
  destruct (good_word cfg 4 (fun v => f (i32 v)) c Hn) as (x & c' & pre & Hx & Hp); [intros; by apply Hf|].
  exists x, c', pre. by rewrite Heq.
Qed.

Lemma good_cstr {B} (f : option (list Z) -> R B) c : (forall s c', good (f s) c') -> good (r_cstr ≫= f) c.
Proof.
  intros Hf. unfold good, mbind, R_bind, r_cstr. cbv zeta. set (s := prefix_while _ _). bif.
  - destruct (Hf (Some s) (with_p (drop (S (length s)) (c_p c)) c)) as (y & c2 & pre & Hm & Hp).
    exists y, c2, (take (S (length s)) (c_p c) ++ pre). rewrite Hm. split; [done|]. rewrite <- app_assoc, <- Hp.
    cbn [with_p c_p]. by rewrite take_drop.
  - destruct (Hf None c) as (y & c2 & pre & Hm & Hp). exists y, c2, pre. by rewrite Hm.
Qed.

Lemma good_guard n m c : ((n <= length (c_p c))%nat -> good m c) -> good (r_guard n m) c.
Proof. intros Hm. apply good_need. bif; [by apply Hm|apply good_ret]. Qed.

Lemma good_if {A} (b : bool) (m k : R A) c : (b = true -> good m c) -> (b = false -> good k c) -> good (if b then m else k) c.
Proof. destruct b; auto. Qed.

(** ** The runs *)
Lemma safe_ret {A} (x : A) : safe (mret x).
Proof. intros c. apply good_ret. Qed.

Lemma safe_verr r : safe (rd_value_err r).
Proof. intros c. unfold good, rd_value_err. destruct (is_err r); by eexists _, _, []. Qed.

Lemma safe_note top s : safe (rd_note top s).
Proof. intros c. by eexists _, _, []. Qed.

Section reader.
Context (E : wire_env) (cfg : rcfg).

Lemma safe_strcells n : safe (rd_strcells cfg n).
Proof using Type.
  induction n as [|n IH]; intros c; [apply good_ret|]. cbn [rd_strcells]. apply good_need. apply good_if; [intros _; apply good_ret|].
  intros Hn. bprop. apply good_i32; [done|]. intros k c' Hc'. apply good_rem. apply good_if; [intros _; apply good_ret|]. intros Hk. bprop.
  apply good_take; [lia|]. intros c2 _. apply good_bind; [apply IH|]. intros l c3. apply good_ret.
Qed.

Lemma safe_syms n : safe (rd_syms n).
Proof using Type.
  induction n as [|n IH]; intros c; [apply good_ret|]. cbn [rd_syms]. apply good_cstr. intros [s|] c'; [|apply good_ret].
  apply good_bind; [apply IH|]. intros l c2. apply good_ret.
Qed.

Lemma safe_items (rd : R res) n : safe rd -> safe (rd_items rd n).
Proof using Type.
  intros Hrd. induction n as [|n IH]; intros c; [apply good_ret|]. cbn [rd_items]. apply good_bind; [apply Hrd|].
  intros e c'. assert (Hx : forall x, good (l ← rd_items rd n; mret (match l with inl e => inl e | inr l => inr (x :: l) end)) c').
  { intros x. apply good_bind; [apply IH|]. intros l c2. apply good_ret. }
  destruct e as [err|[]]; apply good_ret || apply Hx.
Qed.

Lemma safe_ok (rd : R res) k : safe rd -> (forall x, safe (k x)) -> safe (r_ok rd k).
Proof using Type.
  intros Hrd Hk c. apply good_bind; [apply Hrd|]. intros e c'. destruct e as [err|[]]; apply good_ret || apply Hk.
Qed.

Lemma safe_scalar (n : nat) (f : Z -> res) : safe (r_guard n (v ← r_word cfg n; mret (f v))).
Proof using Type. intros c. apply good_guard. intros Hn. apply good_word; [done|]. intros v c' _. apply good_ret. Qed.

Lemma safe_byte (f : Z -> R res) : (forall b, safe (f b)) -> safe (r_guard 1 (b ← r_u8; f b)).
Proof using Type. intros Hf c. apply good_guard. intros Hn. apply good_u8; [done|]. intros b c' _. apply Hf. Qed.

Lemma safe_text (f : list Z -> R res) : (forall s, safe (f s)) -> safe (s ← r_cstr; match s with None => fail QE_DOMAIN | Some s => f s end).
Proof using Type. intros Hf c. apply good_cstr. intros [s|] c'; [apply Hf|apply good_ret]. Qed.

(** An attribute byte, a count within the bytes that remain, and a body. *)
Lemma safe_counted (bad : Z -> Z -> bool) (k : Z -> Z -> R res) :
  (forall a n c, bad n (length (c_p c)) = false -> good (k a n) c) ->
  safe (r_guard 5 (a ← r_u8; n ← r_i32 cfg; rem ← r_rem; if bad n rem then fail QE_DOMAIN else k a n)).
Proof using Type.
  intros Hk c. apply good_guard. intros Hn. apply good_u8; [lia|]. intros a c' Hc'. apply good_i32; [lia|]. intros n c2 Hc2.
  apply good_rem. apply good_if; [intros _; apply good_ret|]. intros Hb. by apply Hk.
Qed.

Lemma safe_fixed_vec t : safe (rd_fixed_vec E cfg t).
Proof using Type.
  intros c. unfold rd_fixed_vec. apply good_need. apply good_if; [intros _; apply good_ret|]. intros Hn. bprop.
  apply good_u8; [lia|]. intros a c' Hc'. apply good_i32; [lia|]. intros n c2 Hc2. apply good_rem.
  apply good_if; [intros _; apply good_ret|]. intros Hb. bprop. apply good_take; [lia|]. intros c3 _.
  destruct (q_wire_fixed_vec t _ n _) as [e|[]]; try apply good_ret. destruct (c_serde cfg); apply good_ret.
Qed.

Lemma safe_atom t : safe (rd_atom E cfg t).
Proof using Type.
  destruct t; cbn [rd_atom]; try apply safe_ret; try apply (safe_scalar _ (fun v => inr _));
    try (apply safe_byte; intros b; apply safe_ret); try (apply safe_text; intros s; apply safe_ret).
  - intros c. apply good_guard. intros Hn. apply good_take; [done|]. intros c' _. apply good_ret.
Qed.

Lemma safe_vec t : safe (rd_vec E cfg t).
Proof using Type.
  unfold rd_vec. destruct (bool_decide _ && _).
  - apply (safe_counted (fun n rem => (n <? 0) || (rem <? n)) (fun _ n => s ← r_take (Z.to_nat n); value (OStr s))).
    intros a n c Hb. bprop. apply good_take; [lia|]. intros c' _. apply good_ret.
  - destruct (decide _); [|apply safe_fixed_vec].
    apply (safe_counted (fun n rem => (n <? 0) || (rem <? n))
      (fun a n => l ← rd_syms (Z.to_nat n); match l with None => fail QE_DOMAIN | Some l => mret (rd_attr E cfg (OSymVec 0 l) a) end)).
    intros a n c _. apply good_bind; [apply safe_syms|]. intros [l|] c'; apply good_ret.
Qed.

(** ** Values with children *)
Section level.
Context (rd : R res) (Hrd : safe rd).

Lemma safe_ext tg : safe (rd_ext E cfg rd tg).
Proof using Hrd.
  destruct (decide (tg = 200)) as [->|H200]; [|destruct (decide (tg = 201)) as [->|H201]; [|destruct (decide (tg = 202)) as [->|H202];
    [|destruct (decide (tg = 203)) as [->|H203]; [|destruct (decide (tg = 204)) as [->|H204]; [|destruct (decide (tg = 205)) as [->|H205]]]]]].
  - apply (safe_byte (fun v => if negb ((v =? 101) || (v =? 102) || (v =? 103)) then fail QE_DOMAIN
      else s ← r_cstr; match s with None => fail QE_DOMAIN | Some nm => mret (fn_read E v nm) end)).
    intros b. destruct (negb _); [apply safe_ret|]. apply safe_text. intros s. apply safe_ret.
  - apply (safe_byte (fun a => r_ok rd (fun p => r_ok rd (fun b => value (OLambda (Z.land a (0xFF - RAY_ATTR_SLICE)) p b))))).
    intros a. apply safe_ok; [done|]. intros p. apply safe_ok; [done|]. intros b. apply safe_ret.
  - apply (safe_counted (fun n rem => (n <? 0) || (rem <? n * 4)) (fun a n => l ← rd_strcells cfg (Z.to_nat n);
      match l with inl e => fail e | inr l => value (OStrVec (negb (Z.land a RAY_ATTR_HAS_NULLS =? 0)) 0 l) end)).
    intros a n c _. apply good_bind; [apply safe_strcells|]. intros [e|l] c'; apply good_ret.
  - apply safe_text. intros s. apply safe_ret.
  - apply (safe_byte (fun b => if b =? u8 (- tag RAY_BOOL) then value (OTNull RAY_BOOL)
        else if b =? u8 (- tag RAY_U8) then value (OTNull RAY_U8) else fail QE_DOMAIN)).
    intros b. destruct (_ =? _); [apply safe_ret|]. destruct (_ =? _); apply safe_ret.
  - intros c. apply good_guard. intros Hn. apply good_i32; [lia|]. intros n c' _. apply good_rem.
    apply good_if; [intros _; apply good_ret|]. intros Hb. bprop. apply good_take; [lia|]. intros c2 _. apply good_ret.
  - assert (Hf : rd_ext E cfg rd tg = fail QE_DOMAIN); [|rewrite Hf; apply safe_ret].
    unfold rd_ext. destruct tg as [|p|p]; try done.
    do 8 (destruct p as [p|p|]; try done).
Qed.

Lemma safe_list : safe (rd_list E cfg rd).
Proof using Hrd.
  apply (safe_counted (fun n rem => (n <? 0) || (rem <? n)) (fun attrs count =>
    l ← rd_items rd (Z.to_nat count);
    match l with
    | inl e => mret e
    | inr l => if c_serde cfg then value (OList (Z.land attrs (0xFF - RAY_ATTR_SLICE)) l)
               else match q_list_collapse E 0 l with
                    | inl e => fail e
                    | inr out => mret (if is_err (inr out) then inr out else rd_attr E cfg out attrs) end
    end)).
  intros a n c _. apply good_bind; [by apply safe_items|]. intros [e|l] c'; [apply good_ret|].
  destruct (c_serde cfg); [apply good_ret|]. destruct (q_list_collapse E 0 l); apply good_ret.
Qed.

Lemma safe_dict sorted : safe (rd_dict E rd sorted).
Proof using Hrd.
  apply safe_ok; [done|]. intros k. apply safe_ok; [done|]. intros v. cbv zeta. destruct (_ || _); [|apply safe_ret].
  destruct k, v; apply safe_ret.
Qed.

Lemma safe_table : safe (rd_table E cfg rd).
Proof using Hrd.
  intros c. apply good_guard. intros Hn. apply good_u8; [lia|]. intros a c' Hc'. apply good_u8; [lia|]. intros b c2 _.
  apply good_if; [intros _; apply good_ret|]. intros _. apply safe_ok; [done|]. intros keys. destruct keys; try apply safe_ret.
  apply safe_ok; [done|]. intros cols. destruct cols; try apply safe_ret.
  - destruct (splay_flip E l s); apply safe_ret.
  - destruct (negb _); apply safe_ret.
Qed.

Lemma safe_lambda : safe (rd_lambda E rd).
Proof using Hrd.
  apply safe_text. intros ctx. destruct (_ && _); [apply safe_ret|]. apply safe_ok; [done|]. intros src.
  destruct (str_of_charv src); try apply safe_ret. destruct (if (length ctx =? 0)%nat then _ else _); [apply safe_ret|].
  destruct (_ || _); apply safe_verr.
Qed.

Lemma safe_prim cls : safe (rd_prim E cls).
Proof using Type.
  apply safe_byte. intros w. destruct (_ && _); [apply safe_ret|]. destruct (_ && _); [apply safe_ret|].
  destruct (op_value E cls w); [apply safe_ret|apply safe_verr].
Qed.

Lemma safe_iter : safe (rd_iter E).
Proof using Type. apply safe_byte. intros w. destruct (iter_value E w); [apply safe_ret|apply safe_verr]. Qed.

Lemma safe_carrier proj : safe (rd_carrier E cfg rd proj).
Proof using Hrd.
  intros c. apply good_guard. intros Hn. apply good_i32; [done|]. intros n c' _. apply good_rem.
  apply good_if; [intros _; apply good_ret|]. intros _. apply good_bind; [by apply safe_items|]. intros [e|l] c2; [apply good_ret|].
  destruct proj; [destruct l; [apply good_ret|apply safe_verr]|apply safe_verr].
Qed.

Lemma safe_derived adv : safe (rd_derived E rd adv).
Proof using Hrd. apply safe_ok; [done|]. intros f. apply safe_verr. Qed.

Lemma safe_error top : safe (rd_error top).
Proof using Type. apply safe_text. intros s. apply safe_note. Qed.

Lemma safe_tag top raw : safe (rd_tag E cfg rd top raw).
Proof using Hrd.
  unfold rd_tag. cbv zeta.
  repeat match goal with |- safe (if ?b then _ else _) => destruct b end;
    try (destruct (type_of_tag _)); first [apply safe_ret|apply safe_ext|apply safe_error|apply safe_atom|apply safe_vec|apply safe_list
      |apply safe_dict|apply safe_table|apply safe_lambda|apply safe_prim|apply safe_iter|apply safe_carrier|apply safe_derived].
Qed.
End level.

Lemma safe_obj d top : safe (rd_obj E cfg d top).
Proof using Type.
  revert top. induction d as [|d IH]; intros top; [apply safe_ret|]. cbn [rd_obj].
  apply (safe_byte (rd_tag E cfg (rd_obj E cfg d false) top)). intros raw. by apply safe_tag.
Qed.
End reader.

(** * Property *)

(** C3. On any bytes whatever, in either byte order, on the wire, in a journal
    or off a disk, the reader ends without reading outside the buffer, having
    consumed no more than it; and a whole message, compressed or not, always
    gets an answer, which is an error unless the header is well-formed and its
    length field is the length of the message. *)
Theorem q_wire_reader_total E cfg alloc_ok buf :
  bytes_ok buf ->
  (exists r n ve, q_wire_read_obj_ex E cfg buf = Some (r, n, ve) /\ 0 <= n <= length buf) /\
  exists r sent, q_wire_deserialize_ex E alloc_ok buf = Some (r, sent) /\
    (is_err r = false -> 9 <= length buf /\ (buf.[0] = 0 \/ buf.[0] = 1) /\ buf.[2] <= 1 /\
       get_u32 (buf.[0] =? 0) (drop 4 buf) = length buf).
Proof.
  intros Hb. split.
  - unfold q_wire_read_obj_ex. destruct (safe_obj E cfg Q_WIRE_MAX_DEPTH true (Rcur buf false None)) as (r & c & pre & -> & Hp).
    cbn [mbind option_bind]. eexists _, _, _. split; [done|]. cbn [c_p] in Hp. rewrite Hp, length_app. lia.
  - unfold q_wire_deserialize_ex. bif; [by eexists _, _; split|].
    destruct (lookup_byte buf 0 Hb) as (b0 & H0 & _); [lia|]. destruct (lookup_byte buf 2 Hb) as (b2 & H2 & _); [lia|].
    rewrite H0, H2. unfold rd. rewrite H0, H2. cbn [mbind option_bind default from_option id].
    bif; [by eexists _, _; split|]. cbv zeta. bif; [by eexists _, _; split|]. bif; [by eexists _, _; split|].
    assert (Hbody : exists body, (if b2 =? 1 then q_wire_uncompress_payload alloc_ok (drop 8 buf) (b0 =? 0) else Some (inr (drop 8 buf))) = Some body).
    { destruct (b2 =? 1); [|by eexists]. destruct (q_wire_uncompress_spec alloc_ok (drop 8 buf) (b0 =? 0)) as (r & -> & _); [by apply Forall_drop|by eexists]. }
    destruct Hbody as [[e|body] ->]; cbn [mbind option_bind]; [by eexists _, _; split|].
    destruct (safe_obj E (Rcfg (b0 =? 0) false false) Q_WIRE_MAX_DEPTH true (Rcur body false None)) as (r & c & pre & -> & _).
    cbn [mbind option_bind]. eexists _, _. split; [done|]. intros _. split; [lia|]. split; [|split; lia].
    destruct E1; bprop; lia.
Qed.

(** A frame cut short, whose list claims two elements. *)
Definition demo_cut : list Z := [1; 0; 0; 0; 16; 0; 0; 0; 0; 0; 2; 0; 0; 0; 249; 5].

Lemma q_wire_reader_total_witness :
  bytes_ok demo_cut /\
  (exists r n ve, q_wire_read_obj_ex demo_env (Rcfg true true false) demo_cut = Some (r, n, ve) /\ 0 <= n <= length demo_cut) /\
  exists r sent, q_wire_deserialize_ex demo_env true demo_cut = Some (r, sent) /\
    (is_err r = false -> 9 <= length demo_cut /\ (demo_cut.[0] = 0 \/ demo_cut.[0] = 1) /\ demo_cut.[2] <= 1 /\
       get_u32 (demo_cut.[0] =? 0) (drop 4 demo_cut) = length demo_cut).
Proof.
  assert (Hb : bytes_ok demo_cut) by (by apply demo_bytes).
  split; [exact Hb|]. exact (q_wire_reader_total demo_env (Rcfg true true false) true demo_cut Hb).
Defined.
