(* ===== verification/HeapMem.v ===== *)
(** * Memory of the buddy heap and its free lists ([include/rayforce.h],
    [src/mem/heap.h])

    Memory as the allocator sees it: the header of a block, by address.  The
    free lists are circular and doubly linked through the headers, with a
    sentinel per order, so an operation on them writes other blocks' headers;
    a read or write outside the mapped regions is [None]. *)
From Stdlib Require Import ZArith Lia.
From stdpp Require Import gmap.
From S2P Require Import Prelude.

(** ** Memory *)

(** The header of a block.  Bytes 0-15 are the links of a free block; a pool
    header keeps [heap_id] and [pool_order] in the first of them and [vm_base]
    in the second, a live block what its type wants there.  A list head has
    only the links. *)
Record ray_t := Blk {
  fl_prev : Z;
  fl_next : Z;
  order : Z;
  mmod : Z;
  attrs : Z;
  type : Z;
  rc : Z
}.

#[export] Instance ray_t_eq_dec : EqDecision ray_t.
Proof. solve_decision. Defined.

Definition zero_blk : ray_t := Blk 0 0 0 0 0 0 0.
Definition set_prev (p : Z) (c : ray_t) : ray_t := Blk p (fl_next c) (order c) (mmod c) (attrs c) (type c) (rc c).
Definition set_next (n : Z) (c : ray_t) : ray_t := Blk (fl_prev c) n (order c) (mmod c) (attrs c) (type c) (rc c).
Definition set_order (o : Z) (c : ray_t) : ray_t := Blk (fl_prev c) (fl_next c) o (mmod c) (attrs c) (type c) (rc c).
Definition set_mmod (k : Z) (c : ray_t) : ray_t := Blk (fl_prev c) (fl_next c) (order c) k (attrs c) (type c) (rc c).
Definition set_rc (n : Z) (c : ray_t) : ray_t := Blk (fl_prev c) (fl_next c) (order c) (mmod c) (attrs c) (type c) n.

(** The mapped regions (base and size) and what was written.  Fresh mappings
    are zero; a list head, which lies outside the regions, is a cell. *)
Record mem_t := Mem { regions : list (Z * Z); cells : gmap Z ray_t }.

Definition mapped (m : mem_t) (a : Z) : bool :=
  (a mod 64 =? 0) && existsb (fun r => (r.1 <=? a) && (a <? r.1 + r.2)) (regions m).

Definition ld (m : mem_t) (a : Z) : option ray_t :=
  match cells m !! a with
  | Some c => Some c
  | None => if mapped m a then Some zero_blk else None
  end.

Definition upd (m : mem_t) (a : Z) (f : ray_t -> ray_t) : option mem_t :=
  c ← ld m a; Some (Mem (regions m) (<[a := f c]> (cells m))).

(** ** Free lists *)
Definition fl_init (m : mem_t) (h : Z) : option mem_t :=
  m ← upd m h (set_prev h);
  upd m h (set_next h).

Definition fl_empty (m : mem_t) (h : Z) : option bool :=
  c ← ld m h; Some (fl_next c =? h).

Definition fl_remove (m : mem_t) (blk : Z) : option mem_t :=
  c ← ld m blk;
  m ← upd m (fl_prev c) (set_next (fl_next c));
  c ← ld m blk;
  upd m (fl_next c) (set_prev (fl_prev c)).

(** The links of [heap_insert_block]: [blk] goes first in the list of [head]. *)
Definition fl_push (m : mem_t) (head blk : Z) : option mem_t :=
  c ← ld m head;
  let first := fl_next c in
  m ← upd m blk (set_prev head);
  m ← upd m blk (set_next first);
  m ← upd m first (set_prev blk);
  upd m head (set_next blk).

(** ** Reading after writing *)
Lemma ld_upd m a f m' x : upd m a f = Some m' -> ld m' x = if decide (x = a) then f <$> ld m x else ld m x.
Proof.
  unfold upd. destruct (ld m a) as [c|] eqn:E; [|done]. cbn [mbind option_bind]. injection 1 as <-.
  unfold ld at 1. cbn [cells]. destruct (decide (x = a)) as [->|Hn].
  - by rewrite lookup_insert_eq, E.
  - rewrite lookup_insert_ne by congruence. done.
Qed.

Lemma upd_ok m a f : is_Some (ld m a) -> exists m', upd m a f = Some m'.
Proof. intros [c H]. unfold upd. rewrite H. by eexists. Qed.

Lemma upd_mapped m a f m' x : upd m a f = Some m' -> is_Some (ld m' x) <-> is_Some (ld m x).
Proof.
  intros H. rewrite (ld_upd _ _ _ _ _ H). destruct (decide (x = a)) as [->|]; [|done].
  by rewrite fmap_is_Some.
Qed.

Lemma upd_regions m a f m' : upd m a f = Some m' -> regions m' = regions m.
Proof. unfold upd. destruct (ld m a); [|done]. cbn. by injection 1 as <-. Qed.

(** What an operation that only writes leaves: the regions, and which
    addresses can be read. *)
Definition same_map (m m' : mem_t) : Prop :=
  regions m' = regions m /\ forall x, is_Some (ld m' x) <-> is_Some (ld m x).

#[export] Instance same_map_refl : Reflexive same_map.
Proof. by split. Qed.
#[export] Instance same_map_trans : Transitive same_map.
Proof. intros a b c [R1 H1] [R2 H2]. split; [congruence|]. intros x. by rewrite H2. Qed.

Lemma upd_same_map m a f m' : upd m a f = Some m' -> same_map m m'.
Proof. intros H. split; [by eapply upd_regions|]. intros x. by eapply upd_mapped. Qed.

(** ** Doubly-linked chains *)
Definition nxt (m : mem_t) (x : Z) : option Z := fl_next <$> ld m x.
Definition prv (m : mem_t) (x : Z) : option Z := fl_prev <$> ld m x.
Definition link (m : mem_t) (x y : Z) : Prop := nxt m x = Some y /\ prv m y = Some x.

Fixpoint chain (m : mem_t) (xs : list Z) : Prop :=
  match xs with
  | x :: (y :: _) as r => link m x y /\ chain m r
  | _ => True
  end.

(** The circular list of sentinel [h] and elements [l]. *)
Definition dll (m : mem_t) (h : Z) (l : list Z) : Prop := NoDup (h :: l) /\ chain m (h :: l ++ [h]).

Lemma chain_app m xs z ys : chain m (xs ++ z :: ys) <-> chain m (xs ++ [z]) /\ chain m (z :: ys).
Proof.
  induction xs as [|x [|x' xs] IH]; cbn [app].
  - cbn [chain]. tauto.
  - cbn [chain]. tauto.
  - cbn [app] in IH. cbn [chain]. cbn [chain] in IH. rewrite IH. tauto.
Qed.

(** A chain depends on the forward links of all its nodes but the last and the
    backward links of all but the first. *)
Lemma chain_frame m m' x xs :
  (forall i a, (x :: xs) !! i = Some a -> (i < length xs)%nat -> nxt m' a = nxt m a) ->
  (forall a, a ∈ xs -> prv m' a = prv m a) ->
  chain m (x :: xs) -> chain m' (x :: xs).
Proof.
  revert x. induction xs as [|y xs IH]; intros x Hn Hp; [done|].
  intros [[H1 H2] H]. split.
  - split; [rewrite (Hn 0%nat x) by (cbn; (done || lia)); done|]. rewrite Hp by left. done.
  - apply IH; [|by intros a Ha; apply Hp; right|done].
    intros i a Ha Hi. apply (Hn (S i)); [done|cbn; lia].
Qed.

Lemma chain_frame_all m m' xs : (forall a, a ∈ xs -> ld m' a = ld m a) -> chain m xs -> chain m' xs.
Proof.
  intros H. destruct xs as [|x xs]; [done|]. apply chain_frame.
  - intros i a Ha _. unfold nxt. by rewrite H by by eapply list_elem_of_lookup_2.
  - intros a Ha. unfold prv. by rewrite H by by right.
Qed.

Lemma dll_frame m m' h l : (forall a, a ∈ h :: l -> ld m' a = ld m a) -> dll m h l -> dll m' h l.
Proof.
  intros H [Hd Hp]. split; [done|]. revert Hp. apply chain_frame_all. intros a Ha. apply H.
  apply elem_of_cons in Ha as [->|Ha]; [left|]. apply elem_of_app in Ha as [Ha|Ha]; [by right|].
  apply list_elem_of_singleton in Ha as ->. left.
Qed.

Lemma dll_head m h l : dll m h l -> nxt m h = Some (default h (head l)) /\ (fl_empty m h = Some true <-> l = []).
Proof.
  intros [Hd Hp]. unfold fl_empty. destruct l as [|a l]; cbn in Hp.
  - destruct Hp as [[Hn _] _]. split; [done|]. unfold nxt in Hn. destruct (ld m h); [|done].
    cbn in *. injection Hn as ->. rewrite Z.eqb_refl. done.
  - destruct Hp as [[Hn _] _]. split; [done|]. unfold nxt in Hn. destruct (ld m h); [|done].
    cbn in *. injection Hn as ->. apply NoDup_cons in Hd as [Hd _].
    assert (a <> h) by (intros ->; apply Hd; left). split; [|done]. injection 1 as E. lia.
Qed.

(** Reads after a sequence of writes, by cases on the addresses. *)
Ltac ld_upds :=
  repeat match goal with H : upd _ _ _ = Some ?m |- context [ld ?m _] => rewrite (ld_upd _ _ _ _ _ H) end;
  repeat case_decide; subst.

Lemma nxt_set_next m a n m' x :
  upd m a (set_next n) = Some m' -> nxt m' x = if decide (x = a) then (fun _ => n) <$> ld m x else nxt m x.
Proof. intros H. unfold nxt. ld_upds; [|done]. by destruct (ld m a). Qed.

Lemma prv_set_next m a n m' x : upd m a (set_next n) = Some m' -> prv m' x = prv m x.
Proof. intros H. unfold prv. ld_upds; [|done]. by destruct (ld m a). Qed.

Lemma prv_set_prev m a n m' x :
  upd m a (set_prev n) = Some m' -> prv m' x = if decide (x = a) then (fun _ => n) <$> ld m x else prv m x.
Proof. intros H. unfold prv. ld_upds; [|done]. by destruct (ld m a). Qed.

Lemma nxt_set_prev m a n m' x : upd m a (set_prev n) = Some m' -> nxt m' x = nxt m x.
Proof. intros H. unfold nxt. ld_upds; [|done]. by destruct (ld m a). Qed.

Lemma nxt_is_Some m x y : nxt m x = Some y -> is_Some (ld m x).
Proof. unfold nxt. destruct (ld m x); [by eexists|done]. Qed.

Lemma prv_is_Some m x y : prv m x = Some y -> is_Some (ld m x).
Proof. unfold prv. destruct (ld m x); [by eexists|done]. Qed.

(** ** Insertion *)

(** What one of the two operations leaves untouched: everything but the links
    of the nodes in [ns]. *)
Definition only_links (ns : list Z) (m m' : mem_t) : Prop :=
  same_map m m' /\
  (forall x, x ∉ ns -> ld m' x = ld m x) /\
  (forall x c, ld m x = Some c -> exists c', ld m' x = Some c' /\ order c' = order c /\ mmod c' = mmod c /\
    attrs c' = attrs c /\ type c' = type c /\ rc c' = rc c).

Lemma only_links_upd ns m a f m' :
  a ∈ ns -> (forall c, order (f c) = order c /\ mmod (f c) = mmod c /\ attrs (f c) = attrs c /\ type (f c) = type c /\ rc (f c) = rc c) ->
  upd m a f = Some m' -> only_links ns m m'.
Proof.
  intros Ha Hf H. split_and!; [by eapply upd_same_map| |].
  - intros x Hx. ld_upds; done.
  - intros x c Hc. ld_upds; rewrite Hc; [|by eexists].
    eexists. split; [done|]. apply Hf.
Qed.

Lemma only_links_trans ns m1 m2 m3 : only_links ns m1 m2 -> only_links ns m2 m3 -> only_links ns m1 m3.
Proof.
  intros (S1 & F1 & K1) (S2 & F2 & K2). split_and!; [by etrans| |].
  - intros x Hx. by rewrite F2, F1.
  - intros x c Hc. destruct (K1 x c Hc) as (c1 & Hc1 & E1). destruct (K2 x c1 Hc1) as (c2 & Hc2 & E2).
    exists c2. split; [done|]. naive_solver congruence.
Qed.

Lemma only_links_mono ns ns' m m' : ns ⊆ ns' -> only_links ns m m' -> only_links ns' m m'.
Proof. intros Hs (S1 & F1 & K1). split_and!; [done| |done]. intros x Hx. apply F1. set_solver. Qed.

Lemma dll_push m h l blk :
  dll m h l -> is_Some (ld m blk) -> blk ∉ h :: l ->
  exists m', fl_push m h blk = Some m' /\ dll m' h (blk :: l) /\ only_links (blk :: h :: l) m m'.
Proof.
  intros [Hd Hp] Hb Hnb. unfold fl_push.
  set (ys := l ++ [h]) in *. assert (exists n ys', ys = n :: ys') as (n & ys' & Hys) by (destruct l; cbn; eauto).
  assert (Hnin : n ∈ h :: l) by (destruct l; cbn in Hys; injection Hys as <- _; set_solver).
  rewrite Hys in Hp. cbn [app chain] in Hp. destruct Hp as [[Hn Hpn] Hp].
  destruct (ld m h) as [c|] eqn:Eh; unfold nxt in Hn; rewrite Eh in Hn; [|done]. cbn in Hn. injection Hn as Hn.
  cbn [mbind option_bind]. rewrite Hn. apply prv_is_Some in Hpn.
  destruct (upd_ok m blk (set_prev h)) as (m1 & H1); [done|].
  destruct (upd_ok m1 blk (set_next n)) as (m2 & H2); [by eapply upd_mapped|].
  destruct (upd_ok m2 n (set_prev blk)) as (m3 & H3); [by do 2 (eapply upd_mapped; [done|])|].
  destruct (upd_ok m3 h (set_next blk)) as (m4 & H4); [do 3 (eapply upd_mapped; [done|]); rewrite Eh; by eexists|].
  rewrite H1; cbn [mbind option_bind]. rewrite H2; cbn [mbind option_bind]. rewrite H3; cbn [mbind option_bind].
  exists m4. split; [done|]. split.
  2:{ do 3 (eapply only_links_trans; [eapply only_links_upd; [| |eassumption]; [set_solver|done]|]).
      eapply only_links_upd; [| |eassumption]; [set_solver|done]. }
  assert (Hbh : blk <> h) by set_solver. assert (Hbn : blk <> n) by set_solver.
  destruct Hb as [cb Hcb]. destruct Hpn as [cn Hcn].
  pose proof Hd as [Hhl Hdl]%NoDup_cons.
  split; [apply NoDup_cons; split; [|apply NoDup_cons]; set_solver|].
  cbn [app]. fold ys. rewrite Hys. cbn [chain].
  assert (Ln : forall x, nxt m4 x = if decide (x = h) then Some blk else if decide (x = blk) then Some n else nxt m x).
  { intros x. rewrite (nxt_set_next _ _ _ _ _ H4). case_decide; [subst|].
    - destruct (ld m3 h) eqn:E; [done|]. exfalso. assert (is_Some (ld m3 h)) as [? ?]; [|congruence].
      do 3 (eapply upd_mapped; [done|]). rewrite Eh. by eexists.
    - rewrite (nxt_set_prev _ _ _ _ _ H3), (nxt_set_next _ _ _ _ _ H2). case_decide; [subst|].
      + ld_upds; [|done]. by rewrite Hcb.
      + by rewrite (nxt_set_prev _ _ _ _ _ H1). }
  assert (Lp : forall x, prv m4 x = if decide (x = n) then Some blk else if decide (x = blk) then Some h else prv m x).
  { intros x. rewrite (prv_set_next _ _ _ _ _ H4), (prv_set_prev _ _ _ _ _ H3). case_decide; [subst|].
    - ld_upds; by rewrite Hcn.
    - rewrite (prv_set_next _ _ _ _ _ H2), (prv_set_prev _ _ _ _ _ H1). case_decide; [subst|done]. by rewrite Hcb. }
  split; [|split].
  - split; [rewrite Ln; by case_decide|rewrite Lp; repeat case_decide; congruence].
  - split; [rewrite Ln; repeat case_decide; congruence|rewrite Lp; by case_decide].
  - assert (Hdy : NoDup ys).
    { unfold ys. apply NoDup_app. split_and!; [done|set_solver|apply NoDup_singleton]. }
    revert Hp. apply chain_frame.
    + intros i a Ha Hi. rewrite Ln.
      assert (a ∈ l).
      { assert (Hl : ys !! i = Some a) by (by rewrite Hys). unfold ys in Hl. apply lookup_app_Some in Hl as [Hl|[Hge Hl]].
        - by eapply list_elem_of_lookup_2.
        - exfalso. assert (length ys = S (length ys')) by (by rewrite Hys). unfold ys in *. rewrite length_app in *. cbn in *. lia. }
      repeat case_decide; set_solver.
    + intros a Ha. rewrite Lp. rewrite Hys in Hdy. apply NoDup_cons in Hdy as [? ?].
      assert (a ∈ ys) by (rewrite Hys; by right). unfold ys in *. repeat case_decide; set_solver.
Qed.

(** ** Removal *)

(** A node of the circular list has its two neighbours. *)
Lemma split_cycle (h b : Z) l1 l2 :
  exists xs p n ys, h :: l1 ++ b :: l2 ++ [h] = xs ++ p :: b :: n :: ys /\
    h :: l1 = xs ++ [p] /\ l2 ++ [h] = n :: ys.
Proof.
  assert (exists n ys, l2 ++ [h] = n :: ys) as (n & ys & Hn) by (destruct l2; cbn; eauto).
  destruct (exists_last (l := h :: l1)) as (xs & p & Hp); [done|].
  exists xs, p, n, ys. split_and!; [|done|done].
  change (h :: l1 ++ b :: l2 ++ [h]) with ((h :: l1) ++ b :: (l2 ++ [h])).
  rewrite Hp, Hn, <- app_assoc. done.
Qed.

Lemma dll_remove m h l1 b l2 :
  dll m h (l1 ++ b :: l2) ->
  exists m', fl_remove m b = Some m' /\ dll m' h (l1 ++ l2) /\ only_links (h :: l1 ++ l2) m m'.
Proof.
  intros [Hd Hp]. rewrite <- app_assoc in Hp. cbn [app] in Hp.
  destruct (split_cycle h b l1 l2) as (xs & p & n & ys & E & Exp & Eny).
  rewrite E in Hp. apply chain_app in Hp as [Hp1 Hp]. cbn [chain] in Hp.
  destruct Hp as ([Np Pb] & [Nb Pn] & Hp2).
  assert (Hin : p ∈ h :: l1 /\ n ∈ h :: l2).
  { split; [rewrite Exp; set_solver|].
    assert (n ∈ l2 ++ [h]) by (rewrite Eny; left). set_solver. }
  apply NoDup_cons in Hd as [Hh Hd]. apply NoDup_app in Hd as (Hd1 & H12 & Hd2). apply NoDup_cons in Hd2 as [Hb2 Hd2].
  assert (Hbp : b <> p) by set_solver. assert (Hbn : b <> n) by set_solver.
  unfold fl_remove. destruct (ld m b) as [c|] eqn:Eb; unfold nxt, prv in Nb, Pb; rewrite Eb in Nb, Pb; [|done].
  cbn in Nb, Pb. injection Nb as Nb. injection Pb as Pb. cbn [mbind option_bind]. rewrite Nb, Pb.
  apply nxt_is_Some in Np. apply prv_is_Some in Pn.
  destruct (upd_ok m p (set_next n)) as (m1 & H1); [done|]. rewrite H1. cbn [mbind option_bind].
  assert (Eb1 : ld m1 b = Some c) by (ld_upds; done).
  rewrite Eb1. cbn [mbind option_bind]. rewrite Nb, Pb.
  destruct (upd_ok m1 n (set_prev p)) as (m2 & H2); [by eapply upd_mapped|].
  exists m2. split; [done|].
  assert (Ln : forall x, nxt m2 x = if decide (x = p) then Some n else nxt m x).
  { intros x. rewrite (nxt_set_prev _ _ _ _ _ H2), (nxt_set_next _ _ _ _ _ H1). case_decide; [subst x|done].
    destruct Np as [cp ->]. done. }
  assert (Lp : forall x, prv m2 x = if decide (x = n) then Some p else prv m x).
  { intros x. rewrite (prv_set_prev _ _ _ _ _ H2). case_decide; [subst x|by rewrite (prv_set_next _ _ _ _ _ H1)].
    destruct (ld m1 n) eqn:?; [done|]. exfalso. assert (is_Some (ld m1 n)) as [? ?]; [|congruence].
    by eapply upd_mapped. }
  split.
  2:{ eapply only_links_trans; eapply only_links_upd; try eassumption; try done; set_solver. }
  split; [apply NoDup_cons; split; [set_solver|]; apply NoDup_app; split_and!; [done|set_solver|done]|].
  assert (Hds : NoDup (xs ++ [p])) by (rewrite <- Exp; apply NoDup_cons; split; set_solver).
  apply NoDup_app in Hds as (_ & Hxp & _).
  assert (Hdn : NoDup (n :: ys)).
  { rewrite <- Eny. apply NoDup_app. split_and!; [done|set_solver|apply NoDup_singleton]. }
  apply NoDup_cons in Hdn as [Hny _].
  replace (h :: (l1 ++ l2) ++ [h]) with (xs ++ p :: n :: ys)
    by (rewrite <- Eny, <- (app_assoc l1); change (h :: l1 ++ l2 ++ [h]) with ((h :: l1) ++ l2 ++ [h]); rewrite Exp, <- app_assoc; done).
  apply chain_app. split; [|cbn [chain]; split; [split; [rewrite Ln|rewrite Lp]; by case_decide|]].
  - destruct xs as [|x xs]; [done|]. cbn [app] in *. injection Exp as -> Exp. revert Hp1. apply chain_frame.
    + intros i a Ha Hi. rewrite length_app in Hi. cbn in Hi. rewrite Ln. case_decide; [subst a|done].
      exfalso. apply (Hxp p); [|left]. apply list_elem_of_lookup. exists i.
      change (x :: xs ++ [p]) with ((x :: xs) ++ [p]) in Ha. rewrite lookup_app_l in Ha by (cbn; lia). done.
    + intros a Ha. rewrite Lp. rewrite <- Exp in Ha. case_decide; [subst a|done]. clear - Hin Hh H12 Ha. set_solver.
  - revert Hp2. apply chain_frame.
    + intros i a Ha Hi. rewrite Ln. case_decide; [subst a|done]. exfalso.
      rewrite <- Eny in Ha. apply lookup_app_Some in Ha as [Ha|[Hge Ha]].
      * apply list_elem_of_lookup_2 in Ha. clear - Hin Hh H12 Ha. set_solver.
      * assert (length (l2 ++ [h]) = S (length ys)) by (by rewrite Eny). rewrite length_app in *. cbn in *. lia.
    + intros a Ha. rewrite Lp. case_decide; [subst a|done]. done.
Qed.
