(* ===== verification/Buddy.v ===== *)
(** * The buddy heap ([src/mem/heap.c], [src/mem/heap.h])

    The per-thread allocator: pools aligned to their own size, one free list
    and one bit of [avail] per order, and a cache (slab) of small blocks.  The
    functions take the heap's struct and the memory and return both; [None] is
    an access to unmapped memory or a loop out of its fuel, and a null pointer
    is 0.  The system's mappings are the fields of [vm_env]. *)
From Stdlib Require Import ZArith Lia.
From stdpp Require Import gmap.
From S2P Require Import Prelude HeapMem.

Definition RAY_ORDER_MIN : Z := 6.
Definition RAY_HEAP_POOL_ORDER : Z := 25.
Definition RAY_HEAP_MAX_ORDER : Z := 38.
Definition RAY_HEAP_FL_SIZE : Z := RAY_HEAP_MAX_ORDER + 1.
Definition RAY_MAX_POOLS : Z := 512.
Definition RAY_SLAB_CACHE_SIZE : Z := 64.
Definition RAY_SLAB_ORDERS : Z := 11.
Definition RAY_SLAB_MAX : Z := RAY_ORDER_MIN + RAY_SLAB_ORDERS - 1.
Definition RAY_SLAB_BUDGET : Z := 1048576.
Definition RAY_ERROR : Z := 127.
Definition RAY_BYTE_ONLY : Z := 4.
Definition RAY_ATTR_ARENA : Z := 0x80.
Definition BSIZEOF (o : Z) : Z := Z.shiftl 1 o.
Definition IS_SLAB_ORDER (o : Z) : bool := (RAY_ORDER_MIN <=? o) && (o <=? RAY_SLAB_MAX).
Definition SLAB_INDEX (o : Z) : nat := Z.to_nat (o - RAY_ORDER_MIN).

(** ** Data *)
Record ray_pool_entry_t := Pool { base : Z; pool_order : Z; backed : bool }.

Record ray_mem_stats_t := Stats { alloc_count : Z; free_count : Z; bytes_allocated : Z; peak_bytes : Z; slab_hits : Z }.

(** [fl_base] is the address of [freelist[0]]; a slab's [stack[0..count)] is a
    list with its top first. *)
Record ray_heap_t := Heap {
  fl_base : Z;
  heap_id : Z;
  avail : Z;
  foreign : Z;
  slabs : list (list Z);
  slab_cap : list Z;
  stats : ray_mem_stats_t;
  pools : list ray_pool_entry_t;
  last_pool_idx : nat
}.

Definition set_avail (a : Z) (h : ray_heap_t) : ray_heap_t :=
  Heap (fl_base h) (heap_id h) a (foreign h) (slabs h) (slab_cap h) (stats h) (pools h) (last_pool_idx h).
Definition set_foreign (f : Z) (h : ray_heap_t) : ray_heap_t :=
  Heap (fl_base h) (heap_id h) (avail h) f (slabs h) (slab_cap h) (stats h) (pools h) (last_pool_idx h).
Definition set_slabs (s : list (list Z)) (h : ray_heap_t) : ray_heap_t :=
  Heap (fl_base h) (heap_id h) (avail h) (foreign h) s (slab_cap h) (stats h) (pools h) (last_pool_idx h).
Definition set_stats (s : ray_mem_stats_t) (h : ray_heap_t) : ray_heap_t :=
  Heap (fl_base h) (heap_id h) (avail h) (foreign h) (slabs h) (slab_cap h) s (pools h) (last_pool_idx h).
Definition set_pools (p : list ray_pool_entry_t) (h : ray_heap_t) : ray_heap_t :=
  Heap (fl_base h) (heap_id h) (avail h) (foreign h) (slabs h) (slab_cap h) (stats h) p (last_pool_idx h).
Definition set_last_pool_idx (i : nat) (h : ray_heap_t) : ray_heap_t :=
  Heap (fl_base h) (heap_id h) (avail h) (foreign h) (slabs h) (slab_cap h) (stats h) (pools h) i.

(** [&h->freelist[o]]: the sentinels are 32 bytes apart. *)
Definition freelist (h : ray_heap_t) (o : Z) : Z := fl_base h + 32 * o.

(** ** Sizes *)
Definition SIZE_MAX_ : Z := 18446744073709551615.

(** [64 - __builtin_clzll(n - 1)] is one more than the index of the top bit. *)
Definition ceil_log2 (n : Z) : Z := if n <=? 1 then 0 else Z.log2 (n - 1) + 1.

Definition ray_order_for_size (data_size : Z) : Z :=
  if SIZE_MAX_ - 32 <? data_size then RAY_HEAP_MAX_ORDER + 1
  else
    let k := ceil_log2 (data_size + 32) in
    if k <? RAY_ORDER_MIN then RAY_ORDER_MIN else k.

(** [__builtin_ctzll] of a non-zero word. *)
Fixpoint ctz_pos (p : positive) : Z :=
  match p with xO p => 1 + ctz_pos p | _ => 0 end.
Definition ctz (z : Z) : Z := match z with Zpos p => ctz_pos p | _ => 0 end.

(** ** Finding a pool *)
Definition ray_buddy_of (v o pool_base : Z) : Z := pool_base + Z.lxor (v - pool_base) (BSIZEOF o).

Definition pool_covers (p : ray_pool_entry_t) (addr : Z) : bool :=
  (base p <=? addr) && (addr <? base p + BSIZEOF (pool_order p)).

Fixpoint find_pool_from (i : nat) (ps : list ray_pool_entry_t) (addr : Z) : option nat :=
  match ps with
  | [] => None
  | p :: ps => if pool_covers p addr then Some i else find_pool_from (S i) ps addr
  end.
Definition heap_find_pool (h : ray_heap_t) (ptr : Z) : option nat := find_pool_from 0 (pools h) ptr.

(** The pool header over the first bytes of a block. *)
Definition hdr_heap_id (c : ray_t) : Z := u16 (fl_prev c).
Definition hdr_pool_order (c : ray_t) : Z := u8 (Z.shiftr (fl_prev c) 16).

Definition ray_is_pool_hdr (c : ray_t) : bool := (order c =? RAY_ORDER_MIN) && (mmod c =? 0) && (rc c =? 1).

(** The downward walk, [k] strides of 32 MB above address 0. *)
Fixpoint pool_walk (m : mem_t) (v : Z) (k : nat) : option (option Z) :=
  match k with
  | O => Some None
  | S k =>
      let base := Z.of_nat k * BSIZEOF RAY_HEAP_POOL_ORDER in
      c ← ld m base;
      let po := hdr_pool_order c in
      if ray_is_pool_hdr c && (RAY_HEAP_POOL_ORDER <=? po) && (po <=? RAY_HEAP_MAX_ORDER)
         && (v <? base + BSIZEOF po)
      then Some (Some base)
      else pool_walk m v k
  end.

(** [Some None] is the null result. *)
Definition ray_pool_of (m : mem_t) (v : Z) : option (option Z) :=
  let stride := BSIZEOF RAY_HEAP_POOL_ORDER in
  let base := Z.land v (Z.lnot (stride - 1)) in
  c ← ld m base;
  let po := hdr_pool_order c in
  if ray_is_pool_hdr c && ((po =? RAY_HEAP_POOL_ORDER)
       || (RAY_HEAP_POOL_ORDER <? po) && (po <=? RAY_HEAP_MAX_ORDER) && (v <? base + BSIZEOF po))
  then Some (Some base)
  else pool_walk m v (Z.to_nat (base / stride)).

(** ** Free blocks *)
Definition heap_insert_block (h : ray_heap_t) (m : mem_t) (blk o : Z) : option (ray_heap_t * mem_t) :=
  m ← fl_push m (freelist h o) blk;
  m ← upd m blk (set_rc 0);
  m ← upd m blk (set_order o);
  Some (set_avail (Z.lor (avail h) (Z.shiftl 1 o)) h, m).

(** [n] is [block_order - target_order]. *)
Fixpoint split_down (n : nat) (h : ray_heap_t) (m : mem_t) (blk block_order : Z) : option (ray_heap_t * mem_t) :=
  match n with
  | O => Some (h, m)
  | S n =>
      let block_order := block_order - 1 in
      let buddy := blk + BSIZEOF block_order in
      m ← upd m buddy (set_mmod 0);
      m ← upd m buddy (set_order block_order);
      '(h, m) ← heap_insert_block h m buddy block_order;
      split_down n h m blk block_order
  end.
Definition heap_split_block (h : ray_heap_t) (m : mem_t) (blk target_order block_order : Z)
  : option (ray_heap_t * mem_t) :=
  split_down (Z.to_nat (block_order - target_order)) h m blk block_order.

(** [if (fl_empty(&h->freelist[o])) h->avail &= ~(1 << o)]. *)
Definition clear_if_empty (h : ray_heap_t) (m : mem_t) (o : Z) : option ray_heap_t :=
  e ← fl_empty m (freelist h o);
  Some (if (e : bool) then set_avail (Z.land (avail h) (Z.lnot (Z.shiftl 1 o))) h else h).

(** The parallel branch also asks the buddy's pool header who owns it. *)
Definition buddy_owned (par : bool) (h : ray_heap_t) (m : mem_t) (buddy : Z) : option bool :=
  if par then
    p ← ray_pool_of m buddy;
    match p with
    | None => Some false
    | Some b => c ← ld m b; Some (hdr_heap_id c =? heap_id h)
    end
  else Some true.

(** [n] is [pool_order - order]; the loop ends when it reaches the pool. *)
Fixpoint coalesce_loop (par : bool) (n : nat) (h : ray_heap_t) (m : mem_t) (blk pool_base o : Z)
  : option (ray_heap_t * mem_t) :=
  match n with
  | O => heap_insert_block h m blk o
  | S n =>
      let buddy := ray_buddy_of blk o pool_base in
      c ← ld m buddy;
      if negb (rc c =? 0) || negb (order c =? o) then heap_insert_block h m blk o
      else
        own ← buddy_owned par h m buddy;
        if negb own then heap_insert_block h m blk o
        else
          m ← fl_remove m buddy;
          h ← clear_if_empty h m o;
          coalesce_loop par n h m (if buddy <? blk then buddy else blk) pool_base (o + 1)
  end.
Definition heap_coalesce (par : bool) (h : ray_heap_t) (m : mem_t) (blk pool_base pool_order : Z)
  : option (ray_heap_t * mem_t) :=
  c ← ld m blk;
  coalesce_loop par (Z.to_nat (pool_order - order c)) h m blk pool_base (order c).

(** ** Pools *)

(** What the system answers: an anonymous mapping of [n] bytes, whether the
    swap file is created and reserved, the address range reserved for it, and
    whether it is mapped there. *)
Record vm_env := {
  vm_mmap : mem_t -> Z -> option Z;
  vm_swap_file : ray_heap_t -> mem_t -> Z -> bool;
  vm_reserve : mem_t -> Z -> option Z;
  vm_map_fixed : mem_t -> Z -> bool
}.

(** [(addr + alignment - 1) & ~(alignment - 1)]. *)
Definition align_up (addr alignment : Z) : Z :=
  Z.land (u64 (addr + alignment - 1)) (u64 (Z.lnot (alignment - 1))).

(** [src/core/platform.c]: over-allocate and trim; what stays mapped is
    [size] bytes from the aligned address. *)
Definition ray_vm_alloc_aligned (vm : vm_env) (m : mem_t) (size alignment : Z) : option Z :=
  addr ← vm_mmap vm m (size + alignment);
  Some (align_up addr alignment).

(** The file-backed fallback, reserving twice the size and keeping the aligned
    part. *)
Definition swap_alloc_aligned (vm : vm_env) (h : ray_heap_t) (m : mem_t) (pool_size : Z) : option Z :=
  if vm_swap_file vm h m pool_size then
    addr ← vm_reserve vm m (pool_size + pool_size);
    let aligned := align_up addr pool_size in
    if vm_map_fixed vm m aligned then Some aligned else None
  else None.

Definition pool_mapping (vm : vm_env) (h : ray_heap_t) (m : mem_t) (pool_size : Z) : option (Z * bool) :=
  match ray_vm_alloc_aligned vm m pool_size pool_size with
  | Some mem => Some (mem, false)
  | None => mem ← swap_alloc_aligned vm h m pool_size; Some (mem, true)
  end.

Definition pool_order_for (o : Z) : Z := if RAY_HEAP_POOL_ORDER <=? o then o + 1 else RAY_HEAP_POOL_ORDER.

(** The header of a fresh pool, in zeroed memory. *)
Definition pool_hdr (id po mem : Z) : ray_t := Blk (Z.lor (u16 id) (Z.shiftl po 16)) mem RAY_ORDER_MIN 0 0 0 1.

(** The loop that cascades the pool down to its header is that of
    [heap_split_block]. *)
Definition heap_add_pool (vm : vm_env) (h : ray_heap_t) (m : mem_t) (o : Z) : option (bool * ray_heap_t * mem_t) :=
  if RAY_MAX_POOLS <=? length (pools h) then Some (false, h, m)
  else
    let po := pool_order_for o in
    if RAY_HEAP_MAX_ORDER <? po then Some (false, h, m)
    else
      match pool_mapping vm h m (BSIZEOF po) with
      | None => Some (false, h, m)
      | Some (mem, swap) =>
          let m := Mem ((mem, BSIZEOF po) :: regions m) (cells m) in
          m ← upd m mem (fun _ => pool_hdr (heap_id h) po mem);
          '(h, m) ← heap_split_block h m mem RAY_ORDER_MIN po;
          Some (true, set_pools (pools h ++ [Pool mem po swap]) h, m)
      end.

(** ** Allocation *)
Definition stat_alloc (slab_hit : bool) (o : Z) (h : ray_heap_t) : ray_heap_t :=
  let s := stats h in
  let b := u64 (bytes_allocated s + BSIZEOF o) in
  set_stats (Stats (u64 (alloc_count s + 1)) (free_count s) b (if peak_bytes s <? b then b else peak_bytes s)
               (if slab_hit then u64 (slab_hits s + 1) else slab_hits s)) h.

Definition stat_free (o : Z) (h : ray_heap_t) : ray_heap_t :=
  let s := stats h in
  set_stats (Stats (alloc_count s) (u64 (free_count s + 1)) (u64 (bytes_allocated s - BSIZEOF o)) (peak_bytes s)
               (slab_hits s)) h.

(** A free counted without its bytes. *)
Definition stat_free_only (h : ray_heap_t) : ray_heap_t :=
  let s := stats h in
  set_stats (Stats (alloc_count s) (u64 (free_count s + 1)) (bytes_allocated s) (peak_bytes s) (slab_hits s)) h.

(** The header of a block that is handed out: 32 zero bytes, then its order and
    a count of one. *)
Definition fresh_hdr (o : Z) (_ : ray_t) : ray_t := Blk 0 0 o 0 0 0 1.

Definition order_mask (o : Z) : Z := u64 (Z.shiftl 18446744073709551615 o).

(** One more attempt to have candidates; [None] inside is the null return. *)
Definition add_candidates (vm : vm_env) (h : ray_heap_t) (m : mem_t) (o : Z)
  : option (option Z * ray_heap_t * mem_t) :=
  '(ok, h, m) ← heap_add_pool vm h m o;
  if negb ok then Some (None, h, m)
  else
    let candidates := Z.land (avail h) (order_mask o) in
    Some (if candidates =? 0 then None else Some candidates, h, m).

(** The scan past stale bits; the result is [found_order], or nothing where the
    code returns null. *)
Fixpoint alloc_scan (fuel : nat) (vm : vm_env) (h : ray_heap_t) (m : mem_t) (o candidates : Z)
  : option (option Z * ray_heap_t * mem_t) :=
  match fuel with
  | O => None
  | S fuel =>
      '(cand, h, m) ← (if candidates =? 0 then add_candidates vm h m o else Some (Some candidates, h, m));
      match cand with
      | None => Some (None, h, m)
      | Some candidates =>
          let found_order := ctz candidates in
          e ← fl_empty m (freelist h found_order);
          if negb (e : bool) then Some (Some found_order, h, m)
          else
            alloc_scan fuel vm (set_avail (Z.land (avail h) (Z.lnot (Z.shiftl 1 found_order))) h) m o
              (Z.land candidates (Z.lnot (Z.shiftl 1 found_order)))
      end
  end.

(** At most one turn per bit, twice: before and after a new pool. *)
Definition SCAN_FUEL : nat := 80.

(** Finding a non-empty list, with a new pool where there is none;
    [heap_flush_foreign(h, false)] returns at once. *)
Definition find_order (vm : vm_env) (h : ray_heap_t) (m : mem_t) (o : Z) : option (option Z * ray_heap_t * mem_t) :=
  let candidates := Z.land (avail h) (order_mask o) in
  '(cand, h, m) ← (if candidates =? 0 then add_candidates vm h m o else Some (Some candidates, h, m));
  match cand with
  | None => Some (None, h, m)
  | Some candidates => alloc_scan SCAN_FUEL vm h m o candidates
  end.

(** The buddy chain: pop the first block of the list and split it down. *)
Definition alloc_block (vm : vm_env) (h : ray_heap_t) (m : mem_t) (o : Z) : option (Z * ray_heap_t * mem_t) :=
  '(found, h, m) ← find_order vm h m o;
  match found with
  | None => Some (0, h, m)
  | Some found_order =>
      c ← ld m (freelist h found_order);
      let blk := fl_next c in
      m ← fl_remove m blk;
      h ← clear_if_empty h m found_order;
      '(h, m) ← heap_split_block h m blk o found_order;
      m ← upd m blk (fresh_hdr o);
      Some (blk, stat_alloc false o h, m)
  end.

(** [ray_alloc] on a thread whose heap is up. *)
Definition ray_alloc (vm : vm_env) (h : ray_heap_t) (m : mem_t) (data_size : Z) : option (Z * ray_heap_t * mem_t) :=
  let o := ray_order_for_size data_size in
  if RAY_HEAP_MAX_ORDER <? o then Some (0, h, m)
  else
    match (if IS_SLAB_ORDER o then default [] (slabs h !! SLAB_INDEX o) else []) with
    | v :: stack =>
        m ← upd m v (fresh_hdr o);
        Some (v, stat_alloc true o (set_slabs (<[SLAB_INDEX o := stack]> (slabs h)) h), m)
    | [] => alloc_block vm h m o
    end.

(** ** Release *)

(** The end of [ray_free], once the owned references are released. *)
Definition free_block (par : bool) (h : ray_heap_t) (m : mem_t) (v : Z) : option (ray_heap_t * mem_t) :=
  c ← ld m v;
  let o := order c in
  if (o <? RAY_ORDER_MIN) || (RAY_HEAP_MAX_ORDER <? o) then Some (h, m)
  else
    let mru := match pools h !! last_pool_idx h with
               | Some p => if pool_covers p v then Some (last_pool_idx h) else None
               | None => None
               end in
    match (match mru with Some i => Some i | None => heap_find_pool h v end) with
    | Some pidx =>
        p ← pools h !! pidx;
        let h := set_last_pool_idx pidx h in
        let idx := SLAB_INDEX o in
        let stack := default [] (slabs h !! idx) in
        if IS_SLAB_ORDER o && (length stack <? default 0 (slab_cap h !! idx)) then
          m ← upd m v (set_rc 1);
          Some (stat_free o (set_slabs (<[idx := v :: stack]> (slabs h)) h), m)
        else
          '(h, m) ← heap_coalesce par h m v (base p) (pool_order p);
          Some (stat_free o h, m)
    | None =>
        m ← upd m v (set_next (foreign h));
        Some (stat_free_only (set_foreign v h), m)
    end.

(** [release] is [ray_release_owned_refs] on [v], which releases the objects it
    refers to; [mapped_free] the hook of externally mapped blocks. *)
Definition ray_free (release mapped_free : ray_heap_t -> mem_t -> Z -> option (ray_heap_t * mem_t))
    (par : bool) (h : ray_heap_t) (m : mem_t) (v : Z) : option (ray_heap_t * mem_t) :=
  if v =? 0 then Some (h, m)
  else
    c ← ld m v;
    if (31 <? v) && (type c =? RAY_ERROR) then Some (h, m)
    else if negb (Z.land (attrs c) RAY_ATTR_ARENA =? 0) then Some (h, m)
    else
      m ← upd m v (set_rc 1);
      '(h, m) ← release h m v;
      c ← ld m v;
      if mmod c =? 3 then
        '(h, m) ← mapped_free h m v;
        Some (stat_free_only h, m)
      else free_block par h m v.

(** [src/mem/cow.c], without the atomic variants: the counts of an object. *)
Definition rc_exempt (c : ray_t) (v : Z) : bool :=
  (31 <? v) && (type c =? RAY_ERROR) || negb (Z.land (attrs c) RAY_ATTR_ARENA =? 0).

Definition ray_retain (m : mem_t) (v : Z) : option mem_t :=
  if v =? 0 then Some m
  else
    c ← ld m v;
    if rc_exempt c v then Some m else upd m v (set_rc (u32 (rc c + 1))).

Definition ray_release (release mapped_free : ray_heap_t -> mem_t -> Z -> option (ray_heap_t * mem_t))
    (par : bool) (h : ray_heap_t) (m : mem_t) (v : Z) : option (ray_heap_t * mem_t) :=
  if v =? 0 then Some (h, m)
  else
    c ← ld m v;
    if rc_exempt c v then Some (h, m)
    else
      m ← upd m v (set_rc (u32 (rc c - 1)));
      if rc c =? 1 then ray_free release mapped_free par h m v else Some (h, m).

(** Where a cached block's pool is found: the heap's own list, else the pool
    header in memory. *)
Definition block_pool (h : ray_heap_t) (m : mem_t) (blk : Z) : option (option (Z * Z)) :=
  match heap_find_pool h blk with
  | Some i => p ← pools h !! i; Some (Some (base p, pool_order p))
  | None =>
      p ← ray_pool_of m blk;
      match p with
      | None => Some None
      | Some b => c ← ld m b; Some (Some (b, hdr_pool_order c))
      end
  end.

(** [while (h->slabs[i].count > 0)]; [n] is the count. *)
Fixpoint flush_slab (par : bool) (n : nat) (i : nat) (h : ray_heap_t) (m : mem_t) : option (ray_heap_t * mem_t) :=
  match n, slabs h !! i with
  | S n, Some (blk :: stack) =>
      let h := set_slabs (<[i := stack]> (slabs h)) h in
      p ← block_pool h m blk;
      '(h, m) ← match p with
                | None => Some (h, m)
                | Some (pb, po) => heap_coalesce par h m blk pb po
                end;
      flush_slab par n i h m
  | _, _ => Some (h, m)
  end.

(** [n] slabs are left, the next being number [i]. *)
Fixpoint flush_slabs_from (par : bool) (n i : nat) (h : ray_heap_t) (m : mem_t) : option (ray_heap_t * mem_t) :=
  match n with
  | O => Some (h, m)
  | S n =>
      '(h, m) ← flush_slab par (length (default [] (slabs h !! i))) i h m;
      flush_slabs_from par n (S i) h m
  end.
Definition heap_flush_slabs (par : bool) (h : ray_heap_t) (m : mem_t) : option (ray_heap_t * mem_t) :=
  flush_slabs_from par (Z.to_nat RAY_SLAB_ORDERS) 0 h m.

(** ** Start *)

(** The push caps of the slabs from the byte budget. *)
Definition slab_cap_of (budget : Z) (i : nat) : Z :=
  let cap := budget / BSIZEOF (RAY_ORDER_MIN + i) in
  let cap := if cap <? 1 then 1 else cap in
  if RAY_SLAB_CACHE_SIZE <? cap then RAY_SLAB_CACHE_SIZE else cap.

Fixpoint init_lists (n : nat) (m : mem_t) (fl : Z) : option mem_t :=
  match n with
  | O => Some m
  | S n => m ← init_lists n m fl; fl_init m (fl + 32 * Z.of_nat n)
  end.

(** The struct is zeroed memory whose free lists start at [fl]; [id] is the
    identity [heap_id_acquire] gives. *)
Definition ray_heap_init (m : mem_t) (fl id budget : Z) : option (ray_heap_t * mem_t) :=
  m ← init_lists (Z.to_nat RAY_HEAP_FL_SIZE) m fl;
  Some (Heap fl id 0 0 (replicate (Z.to_nat RAY_SLAB_ORDERS) []) (slab_cap_of budget <$> seq 0 (Z.to_nat RAY_SLAB_ORDERS))
          (Stats 0 0 0 0 0) [] 0, m).
