(* ===== verification/BuddyGeo.v ===== *)
(** * Buddy blocks ([src/mem/heap.c])

    The abstract state of the buddy heap: which blocks its pools are cut into,
    and what each is.  The blocks tile the pools and are aligned to their
    size, and cutting a block in two and joining two buddies keep that. *)
From Stdlib Require Import ZArith Lia.
From stdpp Require Import gmap.
From S2P Require Import Prelude HeapMem Buddy.

(** A block is a pool's header, handed out, on a free list, cached in a slab,
    or held by the operation under way. *)
Inductive status := Hdr | Live | Free | Slab | Held.
#[export] Instance status_eq_dec : EqDecision status.
Proof. solve_decision. Defined.

Abbreviation tiling := (gmap Z (Z * status)).

Definition aligned (a o : Z) : Prop := a mod 2 ^ o = 0.

Lemma BSIZEOF_pow o : 0 <= o -> BSIZEOF o = 2 ^ o.
Proof. intros. unfold BSIZEOF. by rewrite Z.shiftl_1_l. Qed.

Lemma pow2_pos o : 0 <= o -> 0 < 2 ^ o.
Proof. intros. by apply Z.pow_pos_nonneg. Qed.

Lemma pow2_succ o : 0 <= o -> 2 ^ (o + 1) = 2 * 2 ^ o.
Proof. intros. rewrite Z.pow_add_r by lia. lia. Qed.

Lemma pow2_le o k : 0 <= o <= k -> 2 ^ o <= 2 ^ k.
Proof. intros. apply Z.pow_le_mono_r; lia. Qed.

Lemma aligned_mul a o : 0 <= o -> aligned a o <-> exists q, a = q * 2 ^ o.
Proof.
  intros Ho. pose proof (pow2_pos o Ho). unfold aligned. split.
  - intros Ha. exists (a / 2 ^ o). pose proof (Z.div_mod a (2 ^ o)). lia.
  - intros [q ->]. apply Z.mod_mul. lia.
Qed.

Lemma aligned_mono a o k : 0 <= o <= k -> aligned a k -> aligned a o.
Proof.
  intros Ho. rewrite !aligned_mul by lia. intros [q ->]. exists (q * 2 ^ (k - o)).
  rewrite <- Z.mul_assoc, <- Z.pow_add_r by lia. f_equal. f_equal. lia.
Qed.

Lemma aligned_add a b o : 0 <= o -> aligned a o -> aligned b o -> aligned (a + b) o.
Proof. intros Ho. rewrite !aligned_mul by lia. intros [p ->] [q ->]. exists (p + q). lia. Qed.

Lemma aligned_pow o k : 0 <= o <= k -> aligned (2 ^ k) o.
Proof. intros. eapply aligned_mono; [done|]. unfold aligned. apply Z.mod_same. pose proof (pow2_pos k). lia. Qed.

(** Two aligned power-of-two ranges are nested or disjoint. *)
Lemma dyadic_nest a o b k :
  0 <= o <= k -> aligned a o -> aligned b k -> a < b + 2 ^ k -> b < a + 2 ^ o -> b <= a /\ a + 2 ^ o <= b + 2 ^ k.
Proof.
  intros Ho. rewrite !aligned_mul by lia. intros [p ->] [q ->].
  replace (2 ^ k) with (2 ^ (k - o) * 2 ^ o) by (rewrite <- Z.pow_add_r by lia; f_equal; lia).
  pose proof (pow2_pos o ltac:(lia)). pose proof (pow2_pos (k - o) ltac:(lia)).
  intros H1 H2.
  assert (p < q * 2 ^ (k - o) + 2 ^ (k - o)) by nia.
  assert (q * 2 ^ (k - o) < p + 1) by nia. nia.
Qed.

(** ** Buddies *)
Lemma lxor_1 q : Z.lxor q 1 = if Z.even q then q + 1 else q - 1.
Proof.
  destruct (Z.even q) eqn:E.
  - apply Z.even_spec in E as [p ->]. symmetry. apply Z.add_nocarry_lxor.
    apply Z.bits_inj'. intros n Hn. rewrite Z.land_spec, Z.bits_0.
    destruct (Z.eq_dec n 0) as [->|]; [by rewrite Z.testbit_even_0|].
    replace (Z.testbit 1 n) with false by (symmetry; apply Z.bits_above_log2; cbn; lia). apply andb_false_r.
  - assert (Z.odd q = true) as [p ->]%Z.odd_spec by (rewrite <- Z.negb_even, E; done).
    replace (2 * p + 1) with (Z.lxor (2 * p) 1) at 1.
    + rewrite Z.lxor_assoc, Z.lxor_nilpotent, Z.lxor_0_r. lia.
    + symmetry. apply Z.add_nocarry_lxor.
      apply Z.bits_inj'. intros n Hn. rewrite Z.land_spec, Z.bits_0.
      destruct (Z.eq_dec n 0) as [->|]; [by rewrite Z.testbit_even_0|].
      replace (Z.testbit 1 n) with false by (symmetry; apply Z.bits_above_log2; cbn; lia). apply andb_false_r.
Qed.

Lemma buddy_cases v o b po :
  0 <= o < po -> aligned b po -> aligned v o -> b <= v ->
  aligned v (o + 1) /\ ray_buddy_of v o b = v + 2 ^ o \/
  aligned (v - 2 ^ o) (o + 1) /\ ray_buddy_of v o b = v - 2 ^ o /\ b <= v - 2 ^ o.
Proof.
  intros Ho Hb Hv Hle. unfold ray_buddy_of. rewrite BSIZEOF_pow by lia.
  assert (Hb1 : aligned b (o + 1)) by (eapply aligned_mono; [|done]; lia).
  apply aligned_mul in Hb1 as [c ->]; [|lia]. apply aligned_mul in Hv as [q ->]; [|lia].
  rewrite pow2_succ in * by lia. pose proof (pow2_pos o ltac:(lia)).
  assert (E : Z.lxor (q * 2 ^ o - c * (2 * 2 ^ o)) (2 ^ o) = (if Z.even (q - 2 * c) then q - 2 * c + 1 else q - 2 * c - 1) * 2 ^ o).
  { replace (q * 2 ^ o - c * (2 * 2 ^ o)) with (Z.shiftl (q - 2 * c) o) by (rewrite Z.shiftl_mul_pow2 by lia; lia).
    rewrite <- (Z.shiftl_1_l o) at 1. by rewrite <- Z.shiftl_lxor, lxor_1, Z.shiftl_mul_pow2 by lia. }
  rewrite E. clear E.
  replace (Z.even (q - 2 * c)) with (Z.even q) by (rewrite Z.even_sub, Z.even_mul; cbn; by destruct (Z.even q)).
  destruct (Z.even q) eqn:E.
  - left. apply Z.even_spec in E as [p ->]. split; [|nia]. apply aligned_mul; [lia|]. rewrite pow2_succ by lia. exists p. lia.
  - right. assert (Z.odd q = true) as [p ->]%Z.odd_spec by (rewrite <- Z.negb_even, E; done).
    assert (c <= p) by nia.
    split_and!; [|lia|nia]. apply aligned_mul; [lia|]. rewrite pow2_succ by lia. exists p. lia.
Qed.

(** ** Tilings *)
Definition pend (p : ray_pool_entry_t) : Z := base p + 2 ^ pool_order p.

Definition pool_ok (p : ray_pool_entry_t) : Prop :=
  0 < base p /\ RAY_HEAP_POOL_ORDER <= pool_order p <= RAY_HEAP_MAX_ORDER /\ aligned (base p) (pool_order p).

Definition apart (p q : ray_pool_entry_t) : Prop := pend p <= base q \/ pend q <= base p.

Record geo (ps : list ray_pool_entry_t) (B : tiling) : Prop := {
  g_pool : forall p, p ∈ ps -> pool_ok p;
  g_apart : forall i j p q, ps !! i = Some p -> ps !! j = Some q -> i <> j -> apart p q;
  g_blk : forall a o s, B !! a = Some (o, s) ->
    RAY_ORDER_MIN <= o /\ aligned a o /\ exists p, p ∈ ps /\ base p <= a /\ a + 2 ^ o <= pend p;
  g_disj : forall a o s a' o' s', B !! a = Some (o, s) -> B !! a' = Some (o', s') -> a <> a' ->
    a + 2 ^ o <= a' \/ a' + 2 ^ o' <= a;
  g_cover : forall p x, p ∈ ps -> base p <= x < pend p -> exists a o s, B !! a = Some (o, s) /\ a <= x < a + 2 ^ o
}.

(** Every pool starts with its header. *)
Definition has_hdrs (ps : list ray_pool_entry_t) (B : tiling) : Prop :=
  forall p, p ∈ ps -> B !! base p = Some (RAY_ORDER_MIN, Hdr).

Ltac consts := unfold RAY_HEAP_FL_SIZE, RAY_ORDER_MIN, RAY_HEAP_POOL_ORDER, RAY_HEAP_MAX_ORDER in *.

Section geo.
Context {ps : list ray_pool_entry_t} {B : tiling} (G : geo ps B).

Lemma geo_order a o s : B !! a = Some (o, s) -> 6 <= o /\ 0 < 2 ^ o.
Proof using G.
  intros H. destruct (g_blk _ _ G _ _ _ H) as (Ho & _). consts. split; [done|]. apply pow2_pos. lia.
Qed.

(** The block an address is in is the only one. *)
Lemma geo_unique a o s a' o' s' x :
  B !! a = Some (o, s) -> B !! a' = Some (o', s') -> a <= x < a + 2 ^ o -> a' <= x < a' + 2 ^ o' ->
  a = a' /\ o = o' /\ s = s'.
Proof using G.
  intros H H' Hx Hx'. destruct (decide (a = a')) as [->|Hn]; [by simplify_eq|].
  destruct (g_disj _ _ G _ _ _ _ _ _ H H' Hn); lia.
Qed.

(** In a pool that has its header a block is smaller than the pool. *)
Lemma geo_lt_pool p a o s :
  p ∈ ps -> B !! base p = Some (RAY_ORDER_MIN, Hdr) -> B !! a = Some (o, s) -> base p <= a < pend p ->
  o < pool_order p /\ a + 2 ^ o <= pend p.
Proof using G.
  intros Hp Hh Ha Hin. destruct (g_pool _ _ G _ Hp) as (Hb & Hpo & Hal). destruct (g_blk _ _ G _ _ _ Ha) as (Ho & Haa & q & Hq & Hqa & Hqe).
  pose proof (geo_order _ _ _ Ha) as [_ Hpow]. consts. unfold pend in *.
  assert (Hlt : o < pool_order p).
  { destruct (Z_lt_ge_dec o (pool_order p)) as [|Hge]; [done|]. exfalso.
    destruct (dyadic_nest (base p) (pool_order p) a o) as [H1 H2]; [lia|done|done|lia|lia|].
    pose proof (pow2_le (pool_order p) o ltac:(lia)). pose proof (pow2_pos (pool_order p) ltac:(lia)).
    destruct (geo_unique (base p) 6 Hdr a o s (base p) Hh Ha) as (_ & E & _); [lia|lia|]. lia. }
  split; [done|]. destruct (dyadic_nest a o (base p) (pool_order p)); [lia|done|done|lia|lia|]. lia.
Qed.

(** At a block's buddy address a block starts, and it is no larger. *)
Lemma buddy_block p a o s :
  p ∈ ps -> B !! base p = Some (RAY_ORDER_MIN, Hdr) -> B !! a = Some (o, s) -> base p <= a < pend p ->
  exists o' s', B !! ray_buddy_of a o (base p) = Some (o', s') /\ o' <= o /\ ray_buddy_of a o (base p) <> a.
Proof using G.
  intros Hp Hh Ha Hin. destruct (geo_lt_pool _ _ _ _ Hp Hh Ha Hin) as [Hlt Hend].
  destruct (g_pool _ _ G _ Hp) as (Hb & Hpo & Hal). destruct (g_blk _ _ G _ _ _ Ha) as (Ho & Haa & _).
  pose proof (geo_order _ _ _ Ha) as [_ Hpow]. consts.
  set (y := ray_buddy_of a o (base p)).
  assert (Hy : aligned y o /\ base p <= y /\ y + 2 ^ o <= pend p /\ exists c, aligned c (o + 1) /\
            (c = a /\ y = a + 2 ^ o \/ c = y /\ a = y + 2 ^ o)).
  { destruct (buddy_cases a o (base p) (pool_order p)) as [(Hc & E)|(Hc & E & Hge)]; [lia|done|done|lia| |]; fold y in E; rewrite E.
    - split; [apply aligned_add; [lia|done|apply aligned_pow; lia]|].
      destruct (dyadic_nest a (o + 1) (base p) (pool_order p)) as [H1 H2]; [lia|done|done|unfold pend in *; lia|rewrite pow2_succ by lia; lia|].
      rewrite pow2_succ in H2 by lia. unfold pend. split_and!; [lia|lia|]. exists a. split; [done|]. left. split; [done|lia].
    - split; [by eapply aligned_mono; [|done]; lia|]. split_and!; [lia|lia|]. exists (a - 2 ^ o). split; [done|]. right. split; [done|lia]. }
  destruct Hy as (Hyal & Hyb & Hye & c & Hc & Hcy).
  destruct (g_cover _ _ G p y Hp) as (d & k & t & Hd & Hdy); [lia|].
  destruct (g_blk _ _ G _ _ _ Hd) as (Hk & Hdal & _). pose proof (geo_order _ _ _ Hd) as [_ Hpk]. consts.
  assert (Hay : y <> a) by lia.
  assert (Hko : k <= o).
  { destruct (Z_le_gt_dec k o) as [|Hgt]; [done|]. exfalso.
    destruct (dyadic_nest c (o + 1) d k) as [H1 H2]; [lia|done|done|rewrite ?pow2_succ by lia; lia|rewrite pow2_succ by lia; lia|].
    rewrite pow2_succ in H2 by lia.
    destruct (geo_unique a o s d k t a Ha Hd) as (_ & E & _); lia. }
  assert (d = y) as ->; [|by exists k, t].
  destruct (dyadic_nest d k y o) as [H1 _]; [lia|done|done|lia|lia|]. lia.
Qed.

End geo.

(** ** Changing the tiling *)
Lemma geo_restatus ps B a o s t : geo ps B -> B !! a = Some (o, s) -> geo ps (<[a := (o, t)]> B).
Proof.
  intros G Ha.
  assert (K : forall x k u, <[a := (o, t)]> B !! x = Some (k, u) -> exists u', B !! x = Some (k, u')).
  { intros x k u [(<- & [= <- <-])|(_ & H)]%lookup_insert_Some; eauto. }
  split; try apply G.
  - intros x k u (u' & H)%K. by eapply g_blk.
  - intros x k u x' k' u' (v & H)%K (v' & H')%K. by eapply g_disj.
  - intros p x Hp Hx. destruct (g_cover _ _ G p x Hp Hx) as (d & k & u & Hd & Hdx).
    destruct (decide (d = a)) as [->|Hn]; simplify_eq.
    + exists a, o, t. by rewrite lookup_insert_eq.
    + exists d, k, u. by rewrite lookup_insert_ne.
Qed.

(** Two buddies, the lower at [a], become one block. *)
Definition join (a o : Z) (t : status) (B : tiling) : tiling := <[a := (o + 1, t)]> (delete (a + 2 ^ o) B).

Lemma join_lookup a o t B x :
  0 <= o -> join a o t B !! x = if decide (x = a) then Some (o + 1, t) else if decide (x = a + 2 ^ o) then None else B !! x.
Proof.
  intros Ho. unfold join. case_decide; [subst; by rewrite lookup_insert_eq|]. rewrite lookup_insert_ne by done.
  case_decide; [subst; by rewrite lookup_delete_eq|]. by rewrite lookup_delete_ne.
Qed.

Lemma geo_join ps B p a o s s' t :
  geo ps B -> p ∈ ps -> B !! a = Some (o, s) -> B !! (a + 2 ^ o) = Some (o, s') -> aligned a (o + 1) ->
  base p <= a < pend p -> o < pool_order p -> geo ps (join a o t B).
Proof.
  intros G Hp Ha Hb Hal Hin Hlt. destruct (geo_order G _ _ _ Ha) as [Ho Hpow].
  destruct (g_pool _ _ G _ Hp) as (_ & Hpo & Hbal). consts.
  assert (Hend : a + 2 ^ (o + 1) <= pend p).
  { destruct (dyadic_nest a (o + 1) (base p) (pool_order p)); [lia|done|done|unfold pend in *; lia|rewrite pow2_succ by lia; lia|]. done. }
  rewrite pow2_succ in Hend by lia.
  split; try apply G.
  - intros x k u. rewrite join_lookup by lia. repeat case_decide; [|done|by eapply g_blk].
    intros [= <- <-]. subst x. consts. rewrite pow2_succ by lia. split_and!; [lia|done|]. exists p. split_and!; [done|lia|lia].
  - intros x k u x' k' u'. rewrite !join_lookup by lia.
    assert (forall z l w, B !! z = Some (l, w) -> z <> a -> z <> a + 2 ^ o -> z + 2 ^ l <= a \/ a + 2 * 2 ^ o <= z) as Hfar.
    { intros z l w Hz Hn1 Hn2. destruct (geo_order G _ _ _ Hz).
      destruct (g_disj _ _ G _ _ _ _ _ _ Hz Ha Hn1), (g_disj _ _ G _ _ _ _ _ _ Hz Hb Hn2); lia. }
    repeat case_decide; intros; simplify_eq; rewrite ?pow2_succ by lia.
    + destruct (Hfar x' k' u'); [done..|right; lia|left; lia].
    + destruct (Hfar x k u); [done..|left; lia|right; lia].
    + by eapply g_disj.
  - intros q x Hq Hx. destruct (g_cover _ _ G q x Hq Hx) as (d & k & u & Hd & Hdx).
    destruct (decide (d = a)) as [->|Hn1]; [|destruct (decide (d = a + 2 ^ o)) as [->|Hn2]].
    + simplify_eq. exists a, (o + 1), t. rewrite join_lookup by lia. rewrite decide_True by done. rewrite pow2_succ by lia. split; [done|lia].
    + simplify_eq. exists a, (o + 1), t. rewrite join_lookup by lia. rewrite decide_True by done. rewrite pow2_succ by lia. split; [done|lia].
    + exists d, k, u. rewrite join_lookup by lia. by rewrite !decide_False.
Qed.

(** A block at [a] becomes two of half its size, the order [o]. *)
Definition cut (a o : Z) (t t' : status) (B : tiling) : tiling := <[a := (o, t)]> (<[a + 2 ^ o := (o, t')]> B).

Lemma cut_lookup a o t t' B x :
  0 <= o -> cut a o t t' B !! x = if decide (x = a) then Some (o, t) else if decide (x = a + 2 ^ o) then Some (o, t') else B !! x.
Proof.
  intros Ho. unfold cut. case_decide; [subst; by rewrite lookup_insert_eq|]. rewrite lookup_insert_ne by done.
  case_decide; [subst; by rewrite lookup_insert_eq|]. by rewrite lookup_insert_ne.
Qed.

Lemma geo_cut ps B a o s t t' :
  geo ps B -> B !! a = Some (o + 1, s) -> RAY_ORDER_MIN <= o -> geo ps (cut a o t t' B).
Proof.
  intros G Ha Ho. consts. destruct (g_blk _ _ G _ _ _ Ha) as (_ & Hal & p & Hp & Hb & He).
  pose proof (pow2_pos o ltac:(lia)) as Hpow. rewrite pow2_succ in He by lia.
  assert (Halo : aligned a o) by (eapply aligned_mono; [|done]; lia).
  assert (Hfar : forall z l w, B !! z = Some (l, w) -> z <> a -> z + 2 ^ l <= a \/ a + 2 * 2 ^ o <= z).
  { intros z l w Hz Hn. destruct (g_disj _ _ G _ _ _ _ _ _ Hz Ha Hn); [lia|]. rewrite pow2_succ in * by lia. lia. }
  split; try apply G.
  - intros x k u. rewrite cut_lookup by lia. consts. repeat case_decide; intros; simplify_eq; [| |by eapply g_blk].
    + split_and!; [lia|done|]. exists p. split_and!; [done|lia|lia].
    + split_and!; [lia|apply aligned_add; [lia|done|apply aligned_pow; lia]|]. exists p. split_and!; [done|lia|lia].
  - intros x k u x' k' u'. rewrite !cut_lookup by lia.
    repeat case_decide; intros; simplify_eq; try lia.
    + destruct (Hfar x' k' u'); [done..|right; lia|left; lia].
    + destruct (Hfar x' k' u'); [done..|right; lia|left; lia].
    + destruct (Hfar x k u); [done..|left; lia|right; lia].
    + destruct (Hfar x k u); [done..|left; lia|right; lia].
    + by eapply g_disj.
  - intros q x Hq Hx. destruct (g_cover _ _ G q x Hq Hx) as (d & k & u & Hd & Hdx).
    destruct (decide (d = a)) as [->|Hn1].
    + simplify_eq. rewrite pow2_succ in Hdx by lia. destruct (Z_lt_ge_dec x (a + 2 ^ o)).
      * exists a, o, t. rewrite cut_lookup by lia. rewrite decide_True by done. split; [done|lia].
      * exists (a + 2 ^ o), o, t'. rewrite cut_lookup by lia. rewrite decide_False, decide_True by lia. split; [done|lia].
    + exists d, k, u. rewrite cut_lookup by lia. rewrite decide_False, decide_False; [done| |done].
      intros ->. destruct (geo_order G _ _ _ Hd). destruct (Hfar _ _ _ Hd Hn1); lia.
Qed.

(** A fresh pool, one block of its whole size. *)
Lemma geo_new_pool ps B p s :
  geo ps B -> pool_ok p -> (forall q, q ∈ ps -> apart q p) -> geo (ps ++ [p]) (<[base p := (pool_order p, s)]> B).
Proof.
  intros G Hok Hap. pose proof Hok as (Hpos & Hpo & Hal). consts. pose proof (pow2_pos (pool_order p) ltac:(lia)) as Hpow.
  assert (Hfar : forall x k u, B !! x = Some (k, u) -> x + 2 ^ k <= base p \/ pend p <= x).
  { intros x k u Hx. destruct (g_blk _ _ G _ _ _ Hx) as (Hk & _ & q & Hq & Hqx & Hqe).
    destruct (Hap q Hq); [left; lia|right; lia]. }
  assert (Hnew : B !! base p = None).
  { destruct (B !! base p) as [[k u]|] eqn:E; [|done]. destruct (geo_order G _ _ _ E). destruct (Hfar _ _ _ E); unfold pend in *; lia. }
  split.
  - intros q [Hq| ->%list_elem_of_singleton]%elem_of_app; [by eapply g_pool|done].
  - intros i j q r [Hi|[Hi Hi']]%lookup_app_Some [Hj|[Hj Hj']]%lookup_app_Some Hij.
    + by eapply g_apart.
    + apply list_lookup_singleton_Some in Hj' as [_ <-]. apply Hap. by eapply list_elem_of_lookup_2.
    + apply list_lookup_singleton_Some in Hi' as [_ <-]. destruct (Hap r); [by eapply list_elem_of_lookup_2|by right|by left].
    + apply list_lookup_singleton_Some in Hi' as [Hi' _], Hj' as [Hj' _]. lia.
  - intros x k u [(<- & [= <- <-])|(Hn & Hx)]%lookup_insert_Some.
    + consts. split_and!; [lia|done|]. exists p. split_and!; [set_solver|lia|done].
    + destruct (g_blk _ _ G _ _ _ Hx) as (? & ? & q & ? & ? & ?). split_and!; [done..|]. exists q. split_and!; [set_solver|done..].
  - intros x k u x' k' u' [(<- & [= <- <-])|(Hn & Hx)]%lookup_insert_Some [(<- & [= <- <-])|(Hn' & Hx')]%lookup_insert_Some Hne.
    + done.
    + destruct (Hfar _ _ _ Hx'); unfold pend in *; lia.
    + destruct (Hfar _ _ _ Hx); unfold pend in *; lia.
    + by eapply g_disj.
  - intros q x [Hq| ->%list_elem_of_singleton]%elem_of_app Hx.
    + destruct (g_cover _ _ G q x Hq Hx) as (d & k & u & Hd & Hdx). exists d, k, u. split; [|done].
      rewrite lookup_insert_ne; [done|]. intros <-. congruence.
    + exists (base p), (pool_order p), s. by rewrite lookup_insert_eq.
Qed.
