(* ===== verification/BuddyInv.v ===== *)
(** * The buddy heap: invariant ([src/mem/heap.c])

    The heap and the memory represent a tiling of the pools: the headers of the
    blocks carry their order and whether they are free, the list of an order
    holds exactly its free blocks, a slab exactly the blocks cached in it.
    Each internal operation is shown to take such a state to such a state and
    to leave every block that is handed out, cached or a header as it was. *)
From Stdlib Require Import ZArith Lia.
From stdpp Require Import gmap.
From S2P Require Import Prelude HeapMem Buddy BuddyGeo.

(** No two free buddies are left apart. *)
Definition coalesced (B : tiling) : Prop :=
  forall a o, B !! a = Some (o, Free) -> aligned a (o + 1) -> B !! (a + 2 ^ o) <> Some (o, Free).

(** The state holds the tiling [B] of the pools [ps]; [k] asks for [coalesced]. *)
Record core (k : bool) (ps : list ray_pool_entry_t) (h : ray_heap_t) (m : mem_t) (B : tiling) : Prop := {
  c_geo : geo ps B;
  c_mapped : forall p x, p ∈ ps -> base p <= x < pend p -> aligned x 6 -> is_Some (ld m x);
  c_heads : forall o p, 0 <= o < RAY_HEAP_FL_SIZE -> p ∈ ps -> ~ (base p <= freelist h o < pend p);
  c_blk : forall a o s, B !! a = Some (o, s) -> s <> Held ->
    exists c, ld m a = Some c /\ order c = o /\ (rc c = 0 <-> s = Free);
  c_list : forall o, 0 <= o < RAY_HEAP_FL_SIZE ->
    exists l, dll m (freelist h o) l /\ forall a, a ∈ l <-> B !! a = Some (o, Free);
  c_avail : forall o a, B !! a = Some (o, Free) -> Z.testbit (avail h) o = true;
  c_avail_bits : forall o, Z.testbit (avail h) o = true -> 0 <= o < RAY_HEAP_FL_SIZE;
  c_slab : forall i stack, slabs h !! i = Some stack ->
    NoDup stack /\ forall a, a ∈ stack <-> B !! a = Some (RAY_ORDER_MIN + Z.of_nat i, Slab);
  c_slab_of : forall a o, B !! a = Some (o, Slab) -> exists stack, slabs h !! SLAB_INDEX o = Some stack;
  c_canon : k = true -> coalesced B
}.

(** What an internal operation leaves alone: the heap but for [avail], the
    blocks that are neither free nor held with all their memory, and the memory
    outside the pools and the list heads. *)
Record stepk (ps : list ray_pool_entry_t) (h : ray_heap_t) (m : mem_t) (B : tiling)
    (h' : ray_heap_t) (m' : mem_t) (B' : tiling) : Prop := {
  st_h : h' = set_avail (avail h') h;
  st_map : same_map m m';
  st_kept : forall a o s, s <> Free -> s <> Held -> B' !! a = Some (o, s) <-> B !! a = Some (o, s);
  st_mem : forall a o s x, B !! a = Some (o, s) -> s <> Free -> s <> Held -> a <= x < a + 2 ^ o -> ld m' x = ld m x;
  st_out : forall x, (forall p, p ∈ ps -> ~ (base p <= x < pend p)) ->
    (forall o, 0 <= o < RAY_HEAP_FL_SIZE -> x <> freelist h o) -> ld m' x = ld m x
}.

Lemma stepk_refl ps h m B B' :
  (forall a o s, s <> Free -> s <> Held -> B' !! a = Some (o, s) <-> B !! a = Some (o, s)) -> stepk ps h m B h m B'.
Proof. intros HB. split; try done. by destruct h. Qed.

Lemma stepk_trans ps h1 m1 B1 h2 m2 B2 h3 m3 B3 :
  stepk ps h1 m1 B1 h2 m2 B2 -> stepk ps h2 m2 B2 h3 m3 B3 -> stepk ps h1 m1 B1 h3 m3 B3.
Proof.
  intros S1 S2. split.
  - rewrite (st_h _ _ _ _ _ _ _ S2), (st_h _ _ _ _ _ _ _ S1). done.
  - etrans; [apply S1|apply S2].
  - intros a o s Hf Hh. rewrite (st_kept _ _ _ _ _ _ _ S2) by done. by apply S1.
  - intros a o s x Ha Hf Hh Hx. rewrite (st_mem _ _ _ _ _ _ _ S2 a o s x); [by eapply st_mem|by apply S1|done..].
  - intros x Hp Hl. rewrite (st_out _ _ _ _ _ _ _ S2 x Hp); [by eapply st_out|].
    intros o Ho. rewrite (st_h _ _ _ _ _ _ _ S1). by apply Hl.
Qed.

Lemma order_range ps B a o s : geo ps B -> B !! a = Some (o, s) -> 6 <= o < RAY_HEAP_FL_SIZE.
Proof.
  intros G Ha. destruct (g_blk _ _ G _ _ _ Ha) as (Ho & _ & p & Hp & Hb & He).
  destruct (g_pool _ _ G _ Hp) as (_ & Hpo & _). consts. split; [done|].
  destruct (Z_lt_ge_dec o (38 + 1)) as [|Hge]; [done|]. unfold pend in He.
  pose proof (pow2_le (pool_order p + 1) o ltac:(lia)) as Hle. rewrite pow2_succ in Hle by lia.
  pose proof (pow2_pos (pool_order p) ltac:(lia)). lia.
Qed.

Section core.
Context {k : bool} {ps : list ray_pool_entry_t} {h : ray_heap_t} {m : mem_t} {B : tiling} (C : core k ps h m B).

Lemma block_in_pool a o s : B !! a = Some (o, s) -> exists p, p ∈ ps /\ base p <= a /\ a + 2 ^ o <= pend p /\ 0 < 2 ^ o.
Proof using C.
  intros Ha. destruct (g_blk _ _ (c_geo _ _ _ _ _ C) _ _ _ Ha) as (_ & _ & p & Hp & Hb & He).
  destruct (geo_order (c_geo _ _ _ _ _ C) _ _ _ Ha). by exists p.
Qed.

(** A list head is inside no block. *)
Lemma head_not_in a o s x o' :
  B !! a = Some (o, s) -> a <= x < a + 2 ^ o -> 0 <= o' < RAY_HEAP_FL_SIZE -> x <> freelist h o'.
Proof using C.
  intros Ha Hx Ho' ->. destruct (block_in_pool _ _ _ Ha) as (p & Hp & Hb & He & _).
  apply (c_heads _ _ _ _ _ C o' p Ho' Hp). lia.
Qed.

Lemma block_not_head a o s o' : B !! a = Some (o, s) -> 0 <= o' < RAY_HEAP_FL_SIZE -> a <> freelist h o'.
Proof using C.
  intros Ha. destruct (block_in_pool _ _ _ Ha) as (p & Hp & Hb & He & Hpow). eapply head_not_in; [done|lia].
Qed.

Lemma block_mapped a o s : B !! a = Some (o, s) -> is_Some (ld m a).
Proof using C.
  intros Ha. destruct (block_in_pool _ _ _ Ha) as (p & Hp & Hb & He & Hpow).
  destruct (g_blk _ _ (c_geo _ _ _ _ _ C) _ _ _ Ha) as (Ho & Hal & _).
  eapply (c_mapped _ _ _ _ _ C); [done|lia|]. eapply aligned_mono; [|done]. consts. lia.
Qed.

Lemma head_inj o o' : freelist h o = freelist h o' -> o = o'.
Proof using. unfold freelist. lia. Qed.

Lemma blk_order_range a o s : B !! a = Some (o, s) -> 0 <= o < RAY_HEAP_FL_SIZE.
Proof using C. intros Ha. pose proof (order_range _ _ _ _ _ (c_geo _ _ _ _ _ C) Ha). consts. lia. Qed.

End core.

(** The lists depend only on the links of their nodes. *)
Lemma dll_ext m m' h l :
  (forall x, x ∈ h :: l -> nxt m' x = nxt m x /\ prv m' x = prv m x) -> dll m h l -> dll m' h l.
Proof.
  intros Hx [Hd Hp]. split; [done|]. assert (Hall : forall x, x ∈ h :: l ++ [h] -> nxt m' x = nxt m x /\ prv m' x = prv m x).
  { intros x Hin. apply Hx. apply elem_of_cons in Hin as [->|Hin]; [left|].
    apply elem_of_app in Hin as [Hin|Hin]; [by right|]. apply list_elem_of_singleton in Hin as ->. left. }
  revert Hp. apply chain_frame.
  - intros i a Ha _. apply Hall. by eapply list_elem_of_lookup_2.
  - intros a Ha. apply Hall. by right.
Qed.

(** ** Changes of the tiling that touch no memory *)

(** A tiling with the same free, live, cached and header blocks. *)
Lemma core_retile k ps h m B B' :
  core k ps h m B -> geo ps B' ->
  (forall a o s, s <> Held -> B' !! a = Some (o, s) <-> B !! a = Some (o, s)) -> core k ps h m B'.
Proof.
  intros C G E. split; try apply C; [done| | | | | |].
  - intros a o s Ha Hs. eapply c_blk; [done| |done]. by apply E.
  - intros o Ho. destruct (c_list _ _ _ _ _ C o Ho) as (l & Hl & Hin). exists l. split; [done|]. intros a. rewrite Hin. symmetry. by apply E.
  - intros o a Ha. eapply c_avail; [done|]. by apply E.
  - intros i stack Hi. destruct (c_slab _ _ _ _ _ C i stack Hi) as [Hd Hin]. split; [done|]. intros a. rewrite Hin. symmetry. by apply E.
  - intros a o Ha. eapply c_slab_of; [done|]. by apply E.
  - intros Hk a o Ha Hal Hb. eapply (c_canon _ _ _ _ _ C Hk a o); [by apply E|done|by apply E].
Qed.

Lemma core_cut k ps h m B a o :
  core k ps h m B -> B !! a = Some (o + 1, Held) -> RAY_ORDER_MIN <= o -> core k ps h m (cut a o Held Held B).
Proof.
  intros C Ha Ho. eapply core_retile; [done|by eapply geo_cut, Ho; [apply C|]|].
  intros x o' s Hs. rewrite cut_lookup by (consts; lia). destruct (geo_order (c_geo _ _ _ _ _ C) _ _ _ Ha) as [Ho' Hpow].
  repeat case_decide; subst; [split; intros; simplify_eq| |done].
  split; [intros; simplify_eq|]. intros Hx. exfalso. consts.
  destruct (geo_order (c_geo _ _ _ _ _ C) _ _ _ Hx) as [_ Hpx]. pose proof (pow2_pos o ltac:(lia)).
  destruct (g_disj _ _ (c_geo _ _ _ _ _ C) _ _ _ _ _ _ Ha Hx); [lia| |lia]. rewrite pow2_succ in * by lia. lia.
Qed.

Lemma core_join k ps h m B p a o :
  core k ps h m B -> p ∈ ps -> B !! a = Some (o, Held) -> B !! (a + 2 ^ o) = Some (o, Held) -> aligned a (o + 1) ->
  base p <= a < pend p -> o < pool_order p -> core k ps h m (join a o Held B).
Proof.
  intros C Hp Ha Hb Hal Hin Hlt. eapply core_retile; [done|by eapply geo_join; [apply C|..]|].
  intros x o' s Hs. destruct (geo_order (c_geo _ _ _ _ _ C) _ _ _ Ha) as [Ho Hpow].
  rewrite join_lookup by lia. repeat case_decide; subst; split; intros; simplify_eq; done.
Qed.

(** ** Writes *)

(** Changing the status of the held block [a] (or of a free one to held)
    leaves the other blocks. *)
Lemma restatus_lookup (B : tiling) a o t x : <[a := (o, t)]> B !! x = if decide (x = a) then Some (o, t) else B !! x.
Proof. case_decide; [subst; by rewrite lookup_insert_eq|by rewrite lookup_insert_ne]. Qed.

(** A write inside a held block. *)
Lemma core_upd_held k ps h m B a o x f m' :
  core k ps h m B -> B !! a = Some (o, Held) -> a <= x < a + 2 ^ o -> upd m x f = Some m' ->
  core k ps h m' B /\ stepk ps h m B h m' B.
Proof.
  intros C Ha Hx Hu.
  assert (Hld : forall y, y <> x -> ld m' y = ld m y) by (intros y Hy; by rewrite (ld_upd _ _ _ _ _ Hu), decide_False).
  pose proof (upd_same_map _ _ _ _ Hu) as Hsm.
  assert (Hblk : forall y o' s, B !! y = Some (o', s) -> s <> Held -> forall z, y <= z < y + 2 ^ o' -> z <> x).
  { intros y o' s Hy Hs z Hz ->. destruct (geo_unique (c_geo _ _ _ _ _ C) _ _ _ _ _ _ _ Ha Hy Hx Hz) as (_ & _ & E). congruence. }
  assert (Hst : forall y o' s, B !! y = Some (o', s) -> s <> Held -> y <> x).
  { intros y o' s Hy Hs. destruct (geo_order (c_geo _ _ _ _ _ C) _ _ _ Hy). eapply Hblk; [done..|lia]. }
  split.
  - split; try apply C.
    + intros p y Hp Hy Hal. apply Hsm. by eapply c_mapped.
    + intros y o' s Hy Hs. rewrite Hld by by eapply Hst. by eapply c_blk.
    + intros o' Ho'. destruct (c_list _ _ _ _ _ C o' Ho') as (l & Hl & Hin). exists l. split; [|done].
      eapply dll_frame; [|done]. intros y [->|Hy]%elem_of_cons; apply Hld.
      * intros E. by eapply (head_not_in C _ _ _ x o').
      * apply Hin in Hy. by eapply Hst.
  - split; try done; [by destruct h| |].
    + intros y o' s z Hy Hf Hh Hz. apply Hld. by eapply Hblk.
    + intros y Hp Hl. apply Hld. intros ->. destruct (block_in_pool C _ _ _ Ha) as (p & Hpp & ? & ? & _). eapply Hp; [done|lia].
Qed.

(** What the rest of the state needs when the free block or held block [a] of
    order [o] changes status and only its header and the links of the nodes of
    its list are written. *)
Lemma core_relist k ps h m B a o s t h' m' l l' :
  core k ps h m B -> B !! a = Some (o, s) ->
  (s = Held /\ t = Free \/ s = Free /\ t = Held) ->
  dll m (freelist h o) l -> (forall x, x ∈ l <-> B !! x = Some (o, Free)) ->
  same_map m m' ->
  (forall x, x <> a -> x <> freelist h o -> x ∉ l -> ld m' x = ld m x) ->
  (forall x c, x <> a -> ld m x = Some c -> exists c', ld m' x = Some c' /\ order c' = order c /\ rc c' = rc c) ->
  (t = Free -> exists c, ld m' a = Some c /\ order c = o /\ rc c = 0) ->
  h' = set_avail (avail h') h ->
  dll m' (freelist h o) l' -> (forall x, x ∈ l' <-> <[a := (o, t)]> B !! x = Some (o, Free)) ->
  (forall i, Z.testbit (avail h') i = if decide (i = o) then (match l' with [] => false | _ => true end) else Z.testbit (avail h) i) ->
  (k = true -> coalesced (<[a := (o, t)]> B)) ->
  core k ps h' m' (<[a := (o, t)]> B) /\ stepk ps h m B h' m' (<[a := (o, t)]> B).
Proof.
  intros C Ha Hst Hl Hin Hsm Hld Hkeep Hfree Hh Hl' Hin' Hav Hcan.
  assert (Hfl : forall i, freelist h' i = freelist h i) by (intros; rewrite Hh; done).
  assert (Hne : forall x o' s', B !! x = Some (o', s') -> (s' <> s \/ o' <> o) -> x <> a) by (intros x o' s' Hx Hs' ->; naive_solver).
  assert (Hkept : forall x o' s', s' <> Free -> s' <> Held -> <[a := (o, t)]> B !! x = Some (o', s') <-> B !! x = Some (o', s')).
  { intros x o' s' Hf Hh'. rewrite restatus_lookup. case_decide; [subst|done]. split; intros; simplify_eq; naive_solver. }
  split; [split|split]; try done.
  - eapply geo_restatus; [apply C|done].
  - intros p x Hp Hx Hal. apply Hsm. by eapply c_mapped.
  - intros o' p Ho' Hp. rewrite Hfl. by eapply c_heads.
  - intros x o' s' Hx Hs'. rewrite restatus_lookup in Hx. case_decide; subst.
    + simplify_eq. destruct Hst as [[-> ->]|[-> ->]]; [|done]. destruct Hfree as (c & ? & ? & ?); [done|]. by exists c.
    + destruct (c_blk _ _ _ _ _ C _ _ _ Hx Hs') as (c & Hc & Ho & Hr). destruct (Hkeep x c) as (c' & Hc' & Eo & Er); [done..|].
      exists c'. rewrite Eo, Er. done.
  - intros o' Ho'. rewrite Hfl. destruct (decide (o' = o)) as [->|Hno]; [by exists l'|].
    destruct (c_list _ _ _ _ _ C o' Ho') as (r & Hr & Hrin). exists r. split.
    + eapply dll_frame; [|done]. intros x Hx. apply elem_of_cons in Hx as [->|Hx].
      * apply Hld; [intros E; symmetry in E; revert E; by eapply block_not_head|by intros E%head_inj|].
        intros Hx. apply Hin in Hx. by eapply (block_not_head C).
      * apply Hrin in Hx. apply Hld; [eapply Hne; [done|by right]|by eapply block_not_head, blk_order_range|].
        intros Hx'%Hin. congruence.
    + intros x. rewrite Hrin, restatus_lookup. case_decide; [subst|done]. split; intros; simplify_eq.
  - intros o' x Hx. rewrite Hav. destruct (decide (o' = o)) as [->|Hno].
    + apply Hin' in Hx. destruct l'; [set_solver|done].
    + rewrite restatus_lookup in Hx. case_decide; simplify_eq. by eapply c_avail.
  - intros i. rewrite Hav. case_decide; [subst; intros; by eapply blk_order_range|by apply (c_avail_bits _ _ _ _ _ C)].
  - intros i stack Hi. rewrite Hh in Hi. destruct (c_slab _ _ _ _ _ C i stack Hi) as [Hd Hs]. split; [done|].
    intros x. rewrite Hs. symmetry. by apply Hkept.
  - intros x o' Hx. rewrite Hh. cbn [slabs set_avail]. apply Hkept in Hx; [|done..]. by apply (c_slab_of _ _ _ _ _ C x).
  - intros x o' s' y Hx Hf Hh' Hy. apply Hld.
    + intros ->. destruct (geo_order (c_geo _ _ _ _ _ C) _ _ _ Ha).
      destruct (geo_unique (c_geo _ _ _ _ _ C) x o' s' a o s a Hx Ha) as (_ & _ & ->); [lia..|naive_solver].
    + eapply (head_not_in C); [done|done|by eapply blk_order_range].
    + intros Hl2%Hin. destruct (geo_order (c_geo _ _ _ _ _ C) _ _ _ Hl2).
      destruct (geo_unique (c_geo _ _ _ _ _ C) x o' s' y o Free y Hx Hl2) as (_ & _ & ->); [lia..|done].
  - intros x Hp Hhd. apply Hld.
    + intros ->. destruct (block_in_pool C _ _ _ Ha) as (p & Hpp & ? & ? & ?). eapply Hp; [done|lia].
    + apply Hhd. by eapply blk_order_range.
    + intros Hx%Hin. destruct (block_in_pool C _ _ _ Hx) as (p & Hpp & ? & ? & ?). eapply Hp; [done|lia].
Qed.

Lemma testbit_set a o i : 0 <= o -> Z.testbit (Z.lor a (Z.shiftl 1 o)) i = if decide (i = o) then true else Z.testbit a i.
Proof.
  intros Ho. rewrite Z.shiftl_1_l, Z.lor_spec. case_decide.
  - subst. rewrite Z.pow2_bits_true by done. apply orb_true_r.
  - rewrite Z.pow2_bits_false by done. apply orb_false_r.
Qed.

Lemma testbit_clear a o i :
  0 <= o -> Z.testbit (Z.land a (Z.lnot (Z.shiftl 1 o))) i = if decide (i = o) then false else Z.testbit a i.
Proof.
  intros Ho. rewrite Z.shiftl_1_l. destruct (Z_lt_ge_dec i 0).
  - rewrite !Z.testbit_neg_r by lia. by case_decide.
  - rewrite Z.land_spec, Z.lnot_spec by lia. case_decide.
    + subst. rewrite Z.pow2_bits_true by done. apply andb_false_r.
    + rewrite Z.pow2_bits_false by done. apply andb_true_r.
Qed.

(** [a] has no free buddy of order [o] in [B]. *)
Definition lonely (B : tiling) (a o : Z) : Prop :=
  (aligned a (o + 1) -> B !! (a + 2 ^ o) <> Some (o, Free)) /\
  (forall b, b + 2 ^ o = a -> aligned b (o + 1) -> B !! b <> Some (o, Free)).

Lemma coalesced_free B a o : 0 <= o -> lonely B a o -> coalesced B -> coalesced (<[a := (o, Free)]> B).
Proof.
  intros Ho [L1 L2] Hc x k. rewrite !restatus_lookup. pose proof (pow2_pos o Ho).
  intros Hx Hal Hy. repeat case_decide; simplify_eq; [lia|by apply (L2 x)|by apply L1|exact (Hc _ _ Hx Hal Hy)].
Qed.

Lemma coalesced_hold B a o t : t <> Free -> coalesced B -> coalesced (<[a := (o, t)]> B).
Proof. intros Ht Hc x k. rewrite !restatus_lookup. intros Hx Hal Hy. repeat case_decide; simplify_eq. exact (Hc _ _ Hx Hal Hy). Qed.

(** Putting a held block on its free list. *)
Lemma core_insert k ps h m B a o :
  core k ps h m B -> B !! a = Some (o, Held) -> (k = true -> lonely B a o) ->
  exists h' m', heap_insert_block h m a o = Some (h', m') /\ core k ps h' m' (<[a := (o, Free)]> B) /\
    stepk ps h m B h' m' (<[a := (o, Free)]> B) /\
    (forall b o' x, B !! b = Some (o', Held) -> b <> a -> b <= x < b + 2 ^ o' -> ld m' x = ld m x).
Proof.
  intros C Ha Hlo. pose proof (blk_order_range C _ _ _ Ha) as Ho.
  destruct (c_list _ _ _ _ _ C o Ho) as (l & Hl & Hin). destruct (block_mapped C _ _ _ Ha) as [c0 Hc0].
  assert (Hal : a ∉ l) by (intros Hx%Hin; congruence).
  destruct (dll_push m (freelist h o) l a) as (m1 & H1 & D1 & S1 & L1 & K1); [done|by exists c0| |].
  { rewrite not_elem_of_cons. split; [by eapply block_not_head|done]. }
  unfold heap_insert_block. rewrite H1. cbn [mbind option_bind].
  destruct (upd_ok m1 a (set_rc 0)) as (m2 & H2); [by apply S1; exists c0|]. rewrite H2. cbn [mbind option_bind].
  destruct (upd_ok m2 a (set_order o)) as (m3 & H3); [by eapply upd_mapped, S1; [|exists c0]|]. rewrite H3. cbn [mbind option_bind].
  eexists _, m3. split; [done|].
  assert (Hld : forall x, x <> a -> ld m3 x = ld m1 x) by (intros x Hx; by ld_upds).
  destruct (core_relist k ps h m B a o Held Free (set_avail (Z.lor (avail h) (Z.shiftl 1 o)) h) m3 l (a :: l))
    as [HC HS]; try done; auto.
  - etrans; [done|]. etrans; by eapply upd_same_map.
  - intros x Hx1 Hx2 Hx3. rewrite Hld by done. apply L1. set_solver.
  - intros x c Hx Hc. rewrite Hld by done. destruct (K1 x c Hc) as (c' & Hc' & Eo & _ & _ & _ & Er). by exists c'.
  - intros _. destruct (K1 a c0 Hc0) as (c1 & Hc1 & _). exists (set_order o (set_rc 0 c1)). split; [|done]. ld_upds; [|done]. by rewrite Hc1.
  - eapply dll_ext; [|exact D1]. intros x _. unfold nxt, prv. ld_upds; [|done]. by destruct (ld m1 a).
  - intros x. rewrite elem_of_cons, Hin, restatus_lookup. case_decide; [naive_solver|naive_solver].
  - intros i. cbn [avail set_avail]. rewrite testbit_set by lia. by case_decide.
  - intros Hk. apply coalesced_free; [lia|by apply Hlo|by apply (c_canon _ _ _ _ _ C)].
  - split; [done|]. split; [done|]. intros b o' x Hb Hba Hx.
    assert (Hnx : forall y o2 s2, B !! y = Some (o2, s2) -> y <> b -> x <> y).
    { intros y o2 s2 Hy Hyb ->. destruct (geo_order (c_geo _ _ _ _ _ C) _ _ _ Hy).
      destruct (geo_unique (c_geo _ _ _ _ _ C) y o2 s2 b o' Held y Hy Hb) as (E & _); [lia..|done]. }
    rewrite Hld by (eapply Hnx; done). apply L1. rewrite !not_elem_of_cons. split_and!; [by eapply Hnx|by eapply (head_not_in C)|].
    intros Hxl%Hin. eapply Hnx; [done| |done]. intros ->. congruence.
Qed.

(** Taking a free block off its list. *)
Lemma core_remove k ps h m B a o :
  core k ps h m B -> B !! a = Some (o, Free) ->
  exists h' m', fl_remove m a = Some m' /\ clear_if_empty h m' o = Some h' /\ core k ps h' m' (<[a := (o, Held)]> B) /\
    stepk ps h m B h' m' (<[a := (o, Held)]> B) /\
    (forall b o' x, B !! b = Some (o', Held) -> b <= x < b + 2 ^ o' -> ld m' x = ld m x).
Proof.
  intros C Ha. pose proof (blk_order_range C _ _ _ Ha) as Ho.
  destruct (c_list _ _ _ _ _ C o Ho) as (l & Hl & Hin).
  assert (Hal : a ∈ l) by (by apply Hin). apply list_elem_of_split in Hal as (l1 & l2 & ->).
  destruct (dll_remove _ _ _ _ _ Hl) as (m1 & H1 & D1 & S1 & L1 & K1).
  destruct (dll_head _ _ _ D1) as [_ He].
  assert (exists e, fl_empty m1 (freelist h o) = Some e /\ (e = true <-> l1 ++ l2 = [])) as (e & Hfe & Hee).
  { destruct (fl_empty m1 (freelist h o)) as [e|] eqn:E; [exists e; split; [done|]; rewrite <- He; split; congruence|].
    exfalso. unfold fl_empty in E. destruct D1 as [_ D1]. cbn [app chain] in D1. destruct (l1 ++ l2); cbn in D1;
    destruct D1 as [[D1 _] _]; unfold nxt in D1; by destruct (ld m1 (freelist h o)). }
  pose proof Hl as [Hnd _]. apply NoDup_cons in Hnd as [_ Hnd]. apply NoDup_app in Hnd as (_ & H12 & Hnd). apply NoDup_cons in Hnd as [H2 _].
  set (h' := if e then set_avail (Z.land (avail h) (Z.lnot (Z.shiftl 1 o))) h else h).
  assert (core k ps h' m1 (<[a := (o, Held)]> B) /\ stepk ps h m B h' m1 (<[a := (o, Held)]> B)) as [HC HS].
  { eapply (core_relist k ps h m B a o Free Held h' m1 (l1 ++ a :: l2) (l1 ++ l2)); try done; auto.
    - intros x Hx1 Hx2 Hx3. apply L1. clear - Hx2 Hx3. set_solver.
    - intros x c Hx Hc. destruct (K1 x c Hc) as (c' & Hc' & Eo & _ & _ & _ & Er). by exists c'.
    - unfold h'. by destruct e, h.
    - intros x. rewrite restatus_lookup. case_decide; [subst x; split; [clear - H12 H2; set_solver|done]|].
      rewrite <- Hin. clear - H. set_solver.
    - intros i. unfold h'. destruct e; cbn [avail set_avail].
      + rewrite testbit_clear by lia. case_decide; [|done]. by rewrite (proj1 Hee).
      + case_decide; [|done]. subst. destruct (l1 ++ l2); [naive_solver|]. by eapply c_avail.
    - intros Hk. apply coalesced_hold; [done|]. by apply (c_canon _ _ _ _ _ C). }
  exists h', m1. split_and!; [done|by unfold clear_if_empty; rewrite Hfe|done|done|].
  intros b o' x Hb Hx. apply L1. rewrite not_elem_of_cons. split; [by eapply (head_not_in C)|].
  intros Hx'. assert (Hxl : x ∈ l1 ++ a :: l2) by (clear - Hx'; set_solver). apply Hin in Hxl.
  destruct (geo_order (c_geo _ _ _ _ _ C) _ _ _ Hxl).
  destruct (geo_unique (c_geo _ _ _ _ _ C) x o Free b o' Held x Hxl Hb) as (_ & _ & E); [lia..|done].
Qed.
