(* ===== verification/BuddyOps.v ===== *)
(** * The buddy heap: splitting and coalescing ([src/mem/heap.c])

    The two loops of the buddy algorithm on states that hold a tiling. *)
From Stdlib Require Import ZArith Lia.
From stdpp Require Import gmap.
From S2P Require Import Prelude HeapMem Buddy BuddyGeo BuddyInv.

(** ** Splitting *)
Lemma stepk_cut ps h m k B a o :
  core k ps h m B -> B !! a = Some (o + 1, Held) -> 0 <= o -> stepk ps h m B h m (cut a o Held Held B).
Proof.
  intros C Ha Ho. apply stepk_refl. intros x o' s Hf Hh. rewrite cut_lookup by done.
  repeat case_decide; subst; [split; intros; simplify_eq| |done].
  split; [intros; simplify_eq|]. intros Hx. exfalso. destruct (geo_order (c_geo _ _ _ _ _ C) _ _ _ Hx).
  pose proof (pow2_pos o Ho). destruct (g_disj _ _ (c_geo _ _ _ _ _ C) _ _ _ _ _ _ Ha Hx); [lia| |lia].
  rewrite pow2_succ in * by lia. lia.
Qed.

Lemma lonely_cut B a o : 0 <= o -> aligned a (o + 1) -> lonely (cut a o Held Held B) (a + 2 ^ o) o.
Proof.
  intros Ho Ha. pose proof (pow2_pos o Ho) as Hp. split.
  - intros Hal. exfalso. apply aligned_mul in Ha as [p ->], Hal as [q E]; [|lia..]. rewrite !pow2_succ in E by lia.
    assert (2 * p + 1 = 2 * q) by nia. lia.
  - intros b Hb _. rewrite cut_lookup by done. by rewrite decide_True by lia.
Qed.

Lemma split_down_ok k ps blk n : forall h m B o,
  core k ps h m B -> B !! blk = Some (o, Held) -> RAY_ORDER_MIN <= o - Z.of_nat n ->
  exists h' m' B', split_down n h m blk o = Some (h', m') /\ core k ps h' m' B' /\
    B' !! blk = Some (o - Z.of_nat n, Held) /\ stepk ps h m B h' m' B' /\ ld m' blk = ld m blk /\
    (forall x o', x <> blk -> B' !! x = Some (o', Held) -> B !! x = Some (o', Held)) /\
    (forall x i, B !! x = Some (i, Free) -> B' !! x = Some (i, Free)) /\
    (forall i, o - Z.of_nat n <= i < o -> B' !! (blk + 2 ^ i) = Some (i, Free)).
Proof.
  induction n as [|n IH]; intros h m B o C Hb Ho; consts.
  - exists h, m, B. rewrite Z.sub_0_r. split_and!; try done; [by apply stepk_refl|]. intros; lia.
  - cbn [split_down]. rewrite BSIZEOF_pow by lia. set (o1 := o - 1). assert (Eo : o = o1 + 1) by lia.
    pose proof (pow2_pos o1 ltac:(lia)) as Hp. rewrite Eo in Hb.
    destruct (g_blk _ _ (c_geo _ _ _ _ _ C) _ _ _ Hb) as (_ & Hal & _).
    assert (Hin : blk <= blk + 2 ^ o1 < blk + 2 ^ (o1 + 1)) by (rewrite pow2_succ by lia; lia).
    assert (Hself : blk + 2 ^ o1 <= blk + 2 ^ o1 < blk + 2 ^ o1 + 2 ^ o1) by lia.
    pose proof (core_cut _ _ _ _ _ _ _ C Hb ltac:(consts; lia)) as C1.
    assert (Hbud : cut blk o1 Held Held B !! (blk + 2 ^ o1) = Some (o1, Held)).
    { rewrite cut_lookup by lia. by rewrite decide_False, decide_True by lia. }
    destruct (upd_ok m (blk + 2 ^ o1) (set_mmod 0)) as (m1 & H1); [by eapply block_mapped|].
    destruct (core_upd_held _ _ _ _ _ _ _ _ _ _ C1 Hbud Hself H1) as [C2 S2].
    destruct (upd_ok m1 (blk + 2 ^ o1) (set_order o1)) as (m2 & H2); [by eapply block_mapped|].
    destruct (core_upd_held _ _ _ _ _ _ _ _ _ _ C2 Hbud Hself H2) as [C3 S3].
    destruct (core_insert _ _ _ _ _ _ _ C3 Hbud) as (h3 & m3 & H3 & C4 & S4 & F4); [intros _; by apply lonely_cut; [lia|]|].
    assert (Hb4 : <[blk + 2 ^ o1 := (o1, Free)]> (cut blk o1 Held Held B) !! blk = Some (o1, Held)).
    { rewrite restatus_lookup, decide_False by lia. rewrite cut_lookup by lia. by rewrite decide_True. }
    destruct (IH h3 m3 _ o1 C4 Hb4) as (h' & m' & B' & E & C' & Hb' & S' & Hld & Hheld & Hfree & Hnew); [consts; lia|].
    rewrite H1. cbn [mbind option_bind]. rewrite H2. cbn [mbind option_bind]. rewrite H3. cbn [mbind option_bind].
    exists h', m', B'. replace (o - Z.of_nat (S n)) with (o1 - Z.of_nat n) by lia. split_and!; try done.
    + eapply stepk_trans; [eapply stepk_cut; [done..|lia]|]. do 3 (eapply stepk_trans; [done|]). done.
    + rewrite Hld. rewrite (F4 blk o1 blk) by (try lia; rewrite cut_lookup by lia; by rewrite decide_True).
      by rewrite (ld_upd _ _ _ _ _ H2), decide_False, (ld_upd _ _ _ _ _ H1), decide_False by lia.
    + intros x o' Hx Hx'. specialize (Hheld x o' Hx Hx'). rewrite restatus_lookup in Hheld. case_decide; [done|].
      rewrite cut_lookup in Hheld by lia. by rewrite !decide_False in Hheld.
    + intros x i Hx. apply Hfree. rewrite restatus_lookup, cut_lookup by lia.
      destruct (geo_order (c_geo _ _ _ _ _ C) _ _ _ Hx).
      assert (x <> blk) by (intros ->; simplify_eq).
      destruct (g_disj _ _ (c_geo _ _ _ _ _ C) _ _ _ _ _ _ Hb Hx); [done|rewrite !decide_False by lia; done..].
    + intros i Hi. destruct (decide (i = o1)) as [->|]; [|apply Hnew; lia]. apply Hfree.
      by rewrite restatus_lookup, decide_True.
Qed.

(** ** Pool headers *)

(** The memory of the headers.  [ray_pool_of] never trusts more than this. *)
Definition hdr_cells (ps : list ray_pool_entry_t) (m : mem_t) : Prop :=
  forall p, p ∈ ps -> exists c, ld m (base p) = Some c /\ ray_is_pool_hdr c = true /\ hdr_pool_order c = pool_order p.

Lemma hdrs_step ps h m B h' m' B' : stepk ps h m B h' m' B' -> has_hdrs ps B -> has_hdrs ps B'.
Proof. intros S H p Hp. apply (st_kept _ _ _ _ _ _ _ S); [done..|]. by apply H. Qed.

(** Nothing else is a header. *)
Definition only_hdrs (ps : list ray_pool_entry_t) (B : tiling) : Prop :=
  forall a o, B !! a = Some (o, Hdr) -> exists p, p ∈ ps /\ a = base p.

Lemma only_step ps h m B h' m' B' : stepk ps h m B h' m' B' -> only_hdrs ps B -> only_hdrs ps B'.
Proof. intros S H a o Ha. apply (st_kept _ _ _ _ _ _ _ S) in Ha; [|done..]. by eapply H. Qed.

Lemma only_insert ps B a o t : only_hdrs ps B -> t <> Hdr -> only_hdrs ps (<[a := (o, t)]> B).
Proof. intros H Ht x k. rewrite lookup_insert. case_decide; [congruence|apply H]. Qed.

Lemma hdr_cells_step ps h m B h' m' B' : stepk ps h m B h' m' B' -> has_hdrs ps B -> hdr_cells ps m -> hdr_cells ps m'.
Proof.
  intros S H Hc p Hp. rewrite (st_mem _ _ _ _ _ _ _ S (base p) RAY_ORDER_MIN Hdr (base p)); [by apply Hc|by apply H|done..|].
  consts. lia.
Qed.

Lemma land_stride v n : 0 <= n -> Z.land v (Z.lnot (BSIZEOF n - 1)) = v / 2 ^ n * 2 ^ n.
Proof.
  intros Hn. rewrite BSIZEOF_pow by done. replace (2 ^ n - 1) with (Z.ones n) by (rewrite Z.ones_equiv; lia).
  rewrite <- Z.ldiff_land, Z.ldiff_ones_r, Z.shiftl_mul_pow2, Z.shiftr_div_pow2 by done. done.
Qed.

(** The stride boundaries between a pool's start and an address of the pool are
    in the pool. *)
Lemma stride_in_pool k ps h m B p v i :
  core k ps h m B -> p ∈ ps -> base p <= i * BSIZEOF RAY_HEAP_POOL_ORDER <= v -> v < pend p ->
  is_Some (ld m (i * BSIZEOF RAY_HEAP_POOL_ORDER)).
Proof.
  intros C Hp Hi Hv. eapply c_mapped; [done..|lia|]. rewrite BSIZEOF_pow by (consts; lia). apply aligned_mul; [lia|].
  exists (i * 2 ^ 19). unfold RAY_HEAP_POOL_ORDER. rewrite <- Z.mul_assoc, <- Z.pow_add_r by lia. done.
Qed.

Lemma pool_walk_total k ps h m B p v :
  core k ps h m B -> hdr_cells ps m -> p ∈ ps -> base p <= v < pend p -> forall n,
  base p < Z.of_nat n * BSIZEOF RAY_HEAP_POOL_ORDER -> (Z.of_nat n - 1) * BSIZEOF RAY_HEAP_POOL_ORDER <= v ->
  exists b, pool_walk m v n = Some (Some b) /\ is_Some (ld m b).
Proof.
  intros C Hc Hp Hv. destruct (g_pool _ _ (c_geo _ _ _ _ _ C) _ Hp) as (Hpos & Hpo & Hal).
  assert (Hb : exists q, base p = q * BSIZEOF RAY_HEAP_POOL_ORDER).
  { rewrite BSIZEOF_pow by (consts; lia). apply aligned_mul; [consts; lia|]. eapply aligned_mono; [|done]. consts. lia. }
  destruct Hb as [q Hq]. assert (HS : 0 < BSIZEOF RAY_HEAP_POOL_ORDER) by (vm_compute; done).
  induction n as [|n IH]; intros Hn1 Hn2; [lia|]. cbn [pool_walk].
  rewrite Nat2Z.inj_succ in Hn1, Hn2. unfold Z.succ in Hn1, Hn2.
  assert (Hle : base p <= Z.of_nat n * BSIZEOF RAY_HEAP_POOL_ORDER <= v).
  { rewrite Hq in *. set (S := BSIZEOF RAY_HEAP_POOL_ORDER) in *. assert (q <= Z.of_nat n) by nia. nia. }
  destruct (stride_in_pool _ _ _ _ _ p v (Z.of_nat n) C Hp Hle) as [c Hcl]; [lia|].
  rewrite Hcl. cbn [mbind option_bind].
  match goal with |- context [if ?b then _ else _] => destruct b eqn:E end.
  - exists (Z.of_nat n * BSIZEOF RAY_HEAP_POOL_ORDER). split; [done|by exists c].
  - apply IH; [|lia]. destruct (Z.eq_dec (base p) (Z.of_nat n * BSIZEOF RAY_HEAP_POOL_ORDER)) as [Eq|]; [|lia].
    exfalso. destruct (Hc p Hp) as (c' & Hc' & Hh & Hpo'). rewrite <- Eq in Hcl. simplify_eq.
    rewrite Hh, Hpo', <- Eq, BSIZEOF_pow in E by (consts; lia). fold (pend p) in E. consts. lia.
Qed.

Lemma ray_pool_of_total k ps h m B p v :
  core k ps h m B -> hdr_cells ps m -> p ∈ ps -> base p <= v < pend p ->
  exists b, ray_pool_of m v = Some (Some b) /\ is_Some (ld m b).
Proof.
  intros C Hc Hp Hv. unfold ray_pool_of. rewrite land_stride by (consts; lia).
  rewrite <- BSIZEOF_pow by (consts; lia). assert (HS : 0 < BSIZEOF RAY_HEAP_POOL_ORDER) by (vm_compute; done).
  destruct (g_pool _ _ (c_geo _ _ _ _ _ C) _ Hp) as (Hpos & Hpo & Hal).
  assert (Hb : exists q, base p = q * BSIZEOF RAY_HEAP_POOL_ORDER).
  { rewrite BSIZEOF_pow by (consts; lia). apply aligned_mul; [consts; lia|]. eapply aligned_mono; [|done]. consts. lia. }
  destruct Hb as [q Hq]. set (S := BSIZEOF RAY_HEAP_POOL_ORDER) in *.
  pose proof (Z.div_mod v S ltac:(lia)) as Hdm. pose proof (Z.mod_pos_bound v S HS).
  assert (Hle : base p <= v / S * S <= v).
  { rewrite Hq in *. split; [|lia]. apply Z.mul_le_mono_nonneg_r; [lia|]. apply Z.div_le_lower_bound; lia. }
  destruct (stride_in_pool _ _ _ _ _ p v (v / S) C Hp Hle) as [c Hcl]; [lia|]. fold S in Hcl.
  rewrite Hcl. cbn [mbind option_bind].
  match goal with |- context [if ?b then _ else _] => destruct b eqn:E end.
  - exists (v / S * S). split; [done|by exists c].
  - rewrite Z.div_mul by lia. destruct (Z.eq_dec (base p) (v / S * S)) as [Eq|].
    + exfalso. destruct (Hc p Hp) as (c' & Hc' & Hh & Hpo'). rewrite <- Eq in Hcl. simplify_eq.
      rewrite Hh, Hpo', <- Eq, BSIZEOF_pow in E by (consts; lia). fold (pend p) in E. consts. lia.
    + eapply pool_walk_total; [done..| |]; rewrite Z2Nat.id by (apply Z.div_pos; lia); fold S; nia.
Qed.

Lemma buddy_owned_total k ps h m B p par v :
  core k ps h m B -> hdr_cells ps m -> p ∈ ps -> base p <= v < pend p ->
  exists b, buddy_owned par h m v = Some b /\ (par = false -> b = true).
Proof.
  intros C Hc Hp Hv. unfold buddy_owned. destruct par; [|by exists true].
  destruct (ray_pool_of_total _ _ _ _ _ _ _ C Hc Hp Hv) as (b & -> & [c Hcb]). cbn [mbind option_bind]. rewrite Hcb.
  cbn [mbind option_bind]. by eexists.
Qed.

(** ** Coalescing *)
Lemma buddy_unique v o b po :
  0 <= o < po -> aligned b po -> aligned v o -> b <= v ->
  (aligned v (o + 1) -> ray_buddy_of v o b = v + 2 ^ o) /\
  (forall w, w + 2 ^ o = v -> aligned w (o + 1) -> ray_buddy_of v o b = w).
Proof.
  intros Ho Hb Hv Hle.
  assert (K : forall w, aligned w (o + 1) -> ~ aligned (w + 2 ^ o) (o + 1)).
  { intros w H1 H2. apply aligned_mul in H1 as [x ->], H2 as [y E]; [|lia..]. rewrite !pow2_succ in E by lia.
    pose proof (pow2_pos o ltac:(lia)). assert (2 * x + 1 = 2 * y) by nia. lia. }
  destruct (buddy_cases v o b po Ho Hb Hv Hle) as [(Ha & ->)|(Ha & -> & _)].
  - split; [done|]. intros w <- Hw. by apply K in Hw.
  - split; [|intros; lia]. intros H. apply K in Ha. by rewrite Z.sub_add in Ha.
Qed.

Lemma coalesce_loop_ok k ps p par n : forall h m B a o,
  core k ps h m B -> has_hdrs ps B -> hdr_cells ps m -> (par = true -> k = false) -> p ∈ ps ->
  B !! a = Some (o, Held) -> base p <= a < pend p -> n = Z.to_nat (pool_order p - o) ->
  (forall x o', B !! x = Some (o', Held) -> x = a) ->
  exists h' m' B', coalesce_loop par n h m a (base p) o = Some (h', m') /\ core k ps h' m' B' /\
    stepk ps h m B h' m' B' /\ (forall x o', B' !! x <> Some (o', Held)).
Proof.
  induction n as [|n IH]; intros h m B a o C Hh Hc Hpar Hp Ha Hin Hn Hone.
  all: destruct (geo_lt_pool (c_geo _ _ _ _ _ C) p a o Held Hp (Hh p Hp) Ha Hin) as [Hlt Hend].
  { lia. }
  cbn [coalesce_loop]. set (y := ray_buddy_of a o (base p)).
  destruct (g_pool _ _ (c_geo _ _ _ _ _ C) _ Hp) as (Hpos & Hpo & Hpal).
  destruct (g_blk _ _ (c_geo _ _ _ _ _ C) _ _ _ Ha) as (Ho & Hal & _). consts.
  destruct (buddy_unique a o (base p) (pool_order p)) as [U1 U2]; [lia|done|done|lia|]. fold y in U1, U2.
  destruct (buddy_block (c_geo _ _ _ _ _ C) p a o Held Hp (Hh p Hp) Ha Hin) as (oy & sy & Hy & Hoy & Hya). fold y in Hy, Hya.
  assert (Hsy : sy <> Held) by (intros ->; by apply Hone in Hy).
  destruct (c_blk _ _ _ _ _ C _ _ _ Hy Hsy) as (c & Hcy & Eo & Er). rewrite Hcy. cbn [mbind option_bind].
  assert (Hins : (k = true -> B !! y <> Some (o, Free)) ->
    exists h' m' B', heap_insert_block h m a o = Some (h', m') /\ core k ps h' m' B' /\
      stepk ps h m B h' m' B' /\ (forall x o', B' !! x <> Some (o', Held))).
  { intros Hny. destruct (core_insert _ _ _ _ _ _ _ C Ha) as (h' & m' & E & C' & S' & _).
    { intros Hk. split; [intros Haa; by rewrite <- (U1 Haa); apply Hny|intros b Hb Hba; by rewrite <- (U2 b Hb Hba); apply Hny]. }
    exists h', m', (<[a := (o, Free)]> B). split_and!; try done. intros x o' Hx. rewrite restatus_lookup in Hx.
    case_decide; [done|]. by apply Hone in Hx. }
  destruct (negb (rc c =? 0) || negb (order c =? o)) eqn:Eb.
  { apply Hins. intros _ Hyf. simplify_eq. destruct (Z.eqb_spec (rc c) 0) as [|Hr]; [|by apply Hr, Er].
    rewrite Z.eqb_refl in Eb. done. }
  apply orb_false_iff in Eb as [Eb1%negb_false_iff%Z.eqb_eq Eb2%negb_false_iff%Z.eqb_eq].
  assert (sy = Free) as -> by (by apply Er). assert (oy = o) as -> by congruence.
  assert (Hyin : base p <= y < pend p).
  { destruct (geo_order (c_geo _ _ _ _ _ C) _ _ _ Hy) as [_ Hpw].
    destruct (buddy_cases a o (base p) (pool_order p)) as [(Hc1 & E)|(Hc1 & E & Hge)]; [lia|done|done|lia| |]; fold y in E.
    - destruct (dyadic_nest a (o + 1) (base p) (pool_order p)) as [_ H2]; [lia|done|done|unfold pend in *; lia|rewrite pow2_succ by lia; lia|].
      rewrite pow2_succ in H2 by lia. unfold pend. lia.
    - lia. }
  destruct (buddy_owned_total _ _ _ _ _ _ par y C Hc Hp Hyin) as (own & Hown & Hpf). rewrite Hown. cbn [mbind option_bind].
  destruct own; cbn [negb].
  2:{ apply Hins. intros Hk. destruct par; [|by specialize (Hpf eq_refl)]. rewrite Hpar in Hk by done. done. }
  destruct (core_remove _ _ _ _ _ _ _ C Hy) as (h1 & m1 & E1 & E2 & C1 & S1 & _).
  rewrite E1. cbn [mbind option_bind]. rewrite E2. cbn [mbind option_bind].
  set (low := if y <? a then y else a).
  assert (Hlow : low = Z.min y a) by (unfold low; destruct (Z.ltb_spec y a); lia).
  set (B1 := <[y := (o, Held)]> B) in *.
  assert (Ha1 : B1 !! a = Some (o, Held)) by (unfold B1; rewrite restatus_lookup; by rewrite decide_False by done).
  assert (Hy1 : B1 !! y = Some (o, Held)) by (unfold B1; rewrite restatus_lookup; by rewrite decide_True).
  assert (Hjoin : B1 !! low = Some (o, Held) /\ B1 !! (low + 2 ^ o) = Some (o, Held) /\ aligned low (o + 1) /\ base p <= low < pend p /\
    (forall x, x = a \/ x = y -> x = low \/ x = low + 2 ^ o)).
  { pose proof (pow2_pos o ltac:(lia)).
    destruct (buddy_cases a o (base p) (pool_order p)) as [(Hc1 & E)|(Hc1 & E & Hge)]; [lia|done|done|lia| |]; fold y in E.
    - assert (low = a) as -> by lia. rewrite <- E. split_and!; try done; lia.
    - assert (low = y) as -> by lia. replace (y + 2 ^ o) with a by lia. rewrite <- E in Hc1. split_and!; try done; lia. }
  destruct Hjoin as (J1 & J2 & J3 & J4 & J5).
  pose proof (core_join _ _ _ _ _ p low o C1 Hp J1 J2 J3 J4 Hlt) as C2.
  assert (S2 : stepk ps h1 m1 B1 h1 m1 (join low o Held B1)).
  { apply stepk_refl. intros x o' s Hf Hhd. rewrite join_lookup by lia.
    repeat case_decide; subst; [split; intros; simplify_eq|split; intros; simplify_eq|done]. }
  pose proof (stepk_trans _ _ _ _ _ _ _ _ _ _ S1 S2) as S12.
  destruct (IH h1 m1 (join low o Held B1) low (o + 1)) as (h' & m' & B' & E & C' & S' & Hno); try done.
  - by eapply hdrs_step.
  - by eapply hdr_cells_step.
  - rewrite join_lookup by lia. by rewrite decide_True.
  - lia.
  - intros x o' Hx. rewrite join_lookup in Hx by lia. case_decide; [done|]. case_decide; [done|].
    unfold B1 in Hx. rewrite restatus_lookup in Hx. case_decide; [exfalso; destruct (J5 x); [by right|done..]|].
    apply Hone in Hx. exfalso. destruct (J5 x); [by left|done..].
  - exists h', m', B'. split_and!; try done. by eapply stepk_trans.
Qed.
