(* ===== verification/BuddyHeap.v ===== *)
(** * The buddy heap: allocation and release ([src/mem/heap.c])

    The well-formed states of a heap, with the blocks that are handed out, and
    that adding a pool, allocating, freeing and flushing the slabs keep them. *)
From Stdlib Require Import ZArith Lia.
From stdpp Require Import gmap.
From S2P Require Import Prelude HeapMem Buddy BuddyGeo BuddyInv BuddyOps.

(** ** Changes of status that no list sees *)
Lemma core_restatus k ps h m B a o s t h' :
  core k ps h m B -> B !! a = Some (o, s) -> s <> Free -> t <> Free ->
  (t <> Held -> exists c, ld m a = Some c /\ order c = o /\ rc c <> 0) ->
  fl_base h' = fl_base h -> avail h' = avail h ->
  (forall i stack, slabs h' !! i = Some stack ->
    NoDup stack /\ forall x, x ∈ stack <-> <[a := (o, t)]> B !! x = Some (RAY_ORDER_MIN + Z.of_nat i, Slab)) ->
  (forall x o', <[a := (o, t)]> B !! x = Some (o', Slab) -> exists stack, slabs h' !! SLAB_INDEX o' = Some stack) ->
  core k ps h' m (<[a := (o, t)]> B).
Proof.
  intros C Ha Hs Ht Hc Ef Ea Hs1 Hs2.
  assert (Hfl : forall i, freelist h' i = freelist h i) by (intros; unfold freelist; by rewrite Ef).
  assert (Hfr : forall x i, <[a := (o, t)]> B !! x = Some (i, Free) <-> B !! x = Some (i, Free)).
  { intros x i. rewrite restatus_lookup. case_decide; [subst|done]. split; intros; simplify_eq. }
  split; try done.
  - eapply geo_restatus; [apply C|done].
  - apply C.
  - intros i p. rewrite Hfl. apply C.
  - intros x i u Hx Hu. rewrite restatus_lookup in Hx. case_decide; [subst x|by eapply c_blk].
    simplify_eq. destruct (Hc Hu) as (c & ? & ? & ?). exists c. done.
  - intros i Hi. rewrite Hfl. destruct (c_list _ _ _ _ _ C i Hi) as (l & Hl & Hin). exists l. split; [done|].
    intros x. by rewrite Hin, Hfr.
  - intros i x Hx%Hfr. rewrite Ea. by eapply c_avail.
  - intros i. rewrite Ea. apply C.
  - intros Hk. apply coalesced_hold; [done|]. by apply (c_canon _ _ _ _ _ C).
Qed.

(** The slabs are not concerned. *)
Lemma core_restatus' k ps h m B a o s t :
  core k ps h m B -> B !! a = Some (o, s) -> s <> Free -> t <> Free -> s <> Slab -> t <> Slab ->
  (t <> Held -> exists c, ld m a = Some c /\ order c = o /\ rc c <> 0) -> core k ps h m (<[a := (o, t)]> B).
Proof.
  intros C Ha Hs Ht Hs' Ht' Hc.
  assert (Hsl : forall x i, <[a := (o, t)]> B !! x = Some (i, Slab) <-> B !! x = Some (i, Slab)).
  { intros x i. rewrite restatus_lookup. case_decide; [subst|done]. split; intros; simplify_eq. }
  eapply core_restatus; try done.
  - intros i stack Hi. destruct (c_slab _ _ _ _ _ C i stack Hi) as [Hd Hin]. split; [done|]. intros x. by rewrite Hin, Hsl.
  - intros x i Hx%Hsl. by eapply c_slab_of.
Qed.

Lemma core_set_avail k ps h m B a :
  core k ps h m B -> (forall o x, B !! x = Some (o, Free) -> Z.testbit a o = true) ->
  (forall o, Z.testbit a o = true -> 0 <= o < RAY_HEAP_FL_SIZE) -> core k ps (set_avail a h) m B.
Proof. intros C H1 H2. split; try apply C; done. Qed.

(** [core] reads the list heads, [avail] and the slabs only. *)
Lemma core_heap k ps h h' m B :
  core k ps h m B -> fl_base h' = fl_base h -> avail h' = avail h -> slabs h' = slabs h -> core k ps h' m B.
Proof.
  intros C E1 E2 E3. assert (Hfl : forall i, freelist h' i = freelist h i) by (intros; unfold freelist; by rewrite E1).
  split; try apply C.
  - intros o p. rewrite Hfl. apply C.
  - intros o. rewrite Hfl. apply C.
  - rewrite E2. apply C.
  - rewrite E2. apply C.
  - rewrite E3. apply C.
  - rewrite E3. apply C.
Qed.

(** Taking the top of a slab, and pushing on one. *)
Lemma core_slab_pop k ps h m B i v stack :
  core k ps h m B -> slabs h !! i = Some (v :: stack) ->
  B !! v = Some (RAY_ORDER_MIN + Z.of_nat i, Slab) /\
  core k ps (set_slabs (<[i := stack]> (slabs h)) h) m (<[v := (RAY_ORDER_MIN + Z.of_nat i, Held)]> B).
Proof.
  intros C Hi. destruct (c_slab _ _ _ _ _ C _ _ Hi) as [Hd Hin].
  assert (Hv : B !! v = Some (RAY_ORDER_MIN + Z.of_nat i, Slab)) by (apply Hin; left). split; [done|].
  apply NoDup_cons in Hd as [Hvs Hd].
  eapply core_restatus; try done.
  - intros j st Hj. cbn [slabs set_slabs] in Hj. destruct (decide (j = i)) as [->|Hn].
    + rewrite list_lookup_insert_eq in Hj by (by eapply lookup_lt_Some). simplify_eq. split; [done|]. intros x.
      rewrite restatus_lookup. case_decide; [subst|].
      * split; [done|intros; simplify_eq].
      * rewrite <- Hin. set_solver.
    + rewrite list_lookup_insert_ne in Hj by done. destruct (c_slab _ _ _ _ _ C _ _ Hj) as [Hd' Hin']. split; [done|].
      intros x. rewrite restatus_lookup, Hin'. case_decide; [subst|done]. rewrite Hv. split; intros; simplify_eq. lia.
  - intros x o Hx. rewrite restatus_lookup in Hx. case_decide; [simplify_eq|]. cbn [slabs set_slabs].
    destruct (c_slab_of _ _ _ _ _ C _ _ Hx) as [st Hst]. destruct (decide (SLAB_INDEX o = i)) as [E|].
    + exists stack. rewrite E. apply list_lookup_insert_eq. by eapply lookup_lt_Some.
    + exists st. by rewrite list_lookup_insert_ne.
Qed.

Lemma core_slab_push k ps h m B i v stack c :
  core k ps h m B -> slabs h !! i = Some stack -> B !! v = Some (RAY_ORDER_MIN + Z.of_nat i, Held) ->
  ld m v = Some c -> order c = RAY_ORDER_MIN + Z.of_nat i -> rc c <> 0 ->
  core k ps (set_slabs (<[i := v :: stack]> (slabs h)) h) m (<[v := (RAY_ORDER_MIN + Z.of_nat i, Slab)]> B).
Proof.
  intros C Hi Hv Hl Ho Hr. destruct (c_slab _ _ _ _ _ C _ _ Hi) as [Hd Hin].
  assert (Hvs : v ∉ stack) by (intros Hx%Hin; congruence).
  eapply core_restatus; try done; [by exists c| |].
  - intros j st Hj. cbn [slabs set_slabs] in Hj. destruct (decide (j = i)) as [->|Hn].
    + rewrite list_lookup_insert_eq in Hj by (by eapply lookup_lt_Some). simplify_eq. split; [by constructor|]. intros x.
      rewrite restatus_lookup, elem_of_cons. case_decide; [naive_solver|]. rewrite <- Hin. naive_solver.
    + rewrite list_lookup_insert_ne in Hj by done. destruct (c_slab _ _ _ _ _ C _ _ Hj) as [Hd' Hin']. split; [done|].
      intros x. rewrite restatus_lookup, Hin'. case_decide; [subst|done]. rewrite Hv. split; intros; simplify_eq. lia.
  - intros x o Hx. cbn [slabs set_slabs]. rewrite restatus_lookup in Hx.
    assert (SLAB_INDEX o = i \/ exists st, slabs h !! SLAB_INDEX o = Some st) as [E|[st Hst]].
    { case_decide; [simplify_eq; left; unfold SLAB_INDEX; lia|right; by eapply c_slab_of]. }
    + exists (v :: stack). rewrite E. apply list_lookup_insert_eq. by eapply lookup_lt_Some.
    + destruct (decide (SLAB_INDEX o = i)) as [E|].
      * exists (v :: stack). rewrite E. apply list_lookup_insert_eq. by eapply lookup_lt_Some.
      * exists st. by rewrite list_lookup_insert_ne.
Qed.

(** ** A fresh pool *)
Lemma ld_grow m b n x c : ld m x = Some c -> ld (Mem ((b, n) :: regions m) (cells m)) x = Some c.
Proof.
  unfold ld. cbn [cells]. destruct (cells m !! x); [done|]. unfold mapped. cbn [regions existsb].
  destruct ((x mod 64 =? 0) && existsb _ (regions m)) eqn:E; [|done]. apply andb_true_iff in E as [-> ->].
  by rewrite orb_true_r.
Qed.

Lemma ld_grow_new m b n x :
  b <= x < b + n -> x mod 64 = 0 -> is_Some (ld (Mem ((b, n) :: regions m) (cells m)) x).
Proof.
  intros Hx Hal. unfold ld. cbn [cells]. destruct (cells m !! x) as [c|]; [by exists c|].
  unfold mapped. cbn [regions existsb fst snd]. rewrite Hal.
  replace (b <=? x) with true by (symmetry; apply Z.leb_le; lia). replace (x <? b + n) with true by (symmetry; apply Z.ltb_lt; lia).
  by exists zero_blk.
Qed.

Lemma align_up_spec addr k :
  0 <= k <= 40 -> 0 < addr -> addr + 2 ^ k < 2 ^ 64 ->
  aligned (align_up addr (2 ^ k)) k /\ addr <= align_up addr (2 ^ k) < addr + 2 ^ k.
Proof.
  intros Hk Ha Hlt. unfold align_up. pose proof (pow2_pos k ltac:(lia)) as Hp.
  rewrite u64_small by (change 18446744073709551616 with (2 ^ 64); lia).
  set (x := addr + 2 ^ k - 1). unfold u64. rewrite <- wrap_land by lia.
  rewrite (Z.land_comm (Z.lnot _)), Z.land_assoc, wrap_land, wrap_small by lia.
  rewrite <- BSIZEOF_pow by lia. rewrite land_stride by lia.
  pose proof (Z.div_mod x (2 ^ k) ltac:(lia)). pose proof (Z.mod_pos_bound x (2 ^ k) Hp).
  rewrite BSIZEOF_pow by lia. split; [apply aligned_mul; [lia|by eexists]|]. lia.
Qed.

(** What the system's answers are relied on for: a mapping, or a reservation,
    is a range of addresses that nothing of the program lies in. *)
Definition fresh_range (m : mem_t) (a n : Z) : Prop := 0 < a /\ a + n < 2 ^ 64 /\ forall x, a <= x < a + n -> ld m x = None.

Record vm_ok (vm : vm_env) : Prop := {
  vo_mmap : forall m n a, vm_mmap vm m n = Some a -> fresh_range m a n;
  vo_reserve : forall m n a, vm_reserve vm m n = Some a -> fresh_range m a n
}.

Lemma pool_mapping_ok vm h m po mem sw :
  vm_ok vm -> RAY_HEAP_POOL_ORDER <= po <= RAY_HEAP_MAX_ORDER -> pool_mapping vm h m (BSIZEOF po) = Some (mem, sw) ->
  aligned mem po /\ fresh_range m mem (2 ^ po).
Proof.
  intros V Hpo. consts. pose proof (pow2_pos po ltac:(lia)) as Hp. rewrite BSIZEOF_pow by lia.
  assert (K : forall a, fresh_range m a (2 ^ po + 2 ^ po) -> aligned (align_up a (2 ^ po)) po /\ fresh_range m (align_up a (2 ^ po)) (2 ^ po)).
  { intros a (H1 & H2 & H3). destruct (align_up_spec a po) as [A1 A2]; [lia..|]. split; [done|].
    split_and!; [lia|lia|]. intros x Hx. apply H3. lia. }
  unfold pool_mapping, ray_vm_alloc_aligned, swap_alloc_aligned.
  destruct (vm_mmap vm m (2 ^ po + 2 ^ po)) as [a|] eqn:E1; cbn [mbind option_bind].
  - intros [= <- <-]. by apply K, (vo_mmap _ V).
  - destruct (vm_swap_file vm h m (2 ^ po)); [|done].
    destruct (vm_reserve vm m (2 ^ po + 2 ^ po)) as [a|] eqn:E2; cbn [mbind option_bind]; [|done].
    destruct (vm_map_fixed vm m _); [|done]. cbn [mbind option_bind]. intros [= <- <-]. by apply K, (vo_reserve _ V).
Qed.

(** ** States and steps of a whole heap *)
Record hstate (k : bool) (h : ray_heap_t) (m : mem_t) (B : tiling) : Prop := {
  hs_core : core k (pools h) h m B;
  hs_hdrs : has_hdrs (pools h) B;
  hs_cells : hdr_cells (pools h) m;
  hs_none : forall x o, B !! x <> Some (o, Held);
  hs_only : only_hdrs (pools h) B
}.

(** As [stepk], for operations that may also add pools, in memory that was not
    mapped. *)
Record stepg (h : ray_heap_t) (m : mem_t) (B : tiling) (h' : ray_heap_t) (m' : mem_t) (B' : tiling) : Prop := {
  sg_h : fl_base h' = fl_base h /\ heap_id h' = heap_id h /\ slabs h' = slabs h /\ slab_cap h' = slab_cap h /\ stats h' = stats h;
  sg_old : forall p, p ∈ pools h -> p ∈ pools h';
  sg_new : forall p x, p ∈ pools h' -> p ∈ pools h \/ (base p <= x < pend p -> ld m x = None);
  sg_kept : forall a o s, s <> Free -> s <> Held -> B !! a = Some (o, s) -> B' !! a = Some (o, s);
  sg_back : forall a o s, s = Live \/ s = Slab -> B' !! a = Some (o, s) -> B !! a = Some (o, s);
  sg_mem : forall a o s x, B !! a = Some (o, s) -> s <> Free -> s <> Held -> a <= x < a + 2 ^ o -> ld m' x = ld m x;
  sg_mono : forall x, is_Some (ld m x) -> is_Some (ld m' x);
  sg_out : forall x c, ld m x = Some c -> (forall p, p ∈ pools h -> ~ (base p <= x < pend p)) ->
    (forall o, 0 <= o < RAY_HEAP_FL_SIZE -> x <> freelist h o) -> ld m' x = Some c
}.

Lemma stepg_refl h m B : stepg h m B h m B.
Proof. split; try done. intros p x Hp. by left. Qed.

Lemma stepk_stepg h m B h' m' B' : stepk (pools h) h m B h' m' B' -> stepg h m B h' m' B'.
Proof.
  intros S. pose proof (st_h _ _ _ _ _ _ _ S) as E. split.
  - by rewrite E.
  - by rewrite E.
  - rewrite E. by left.
  - intros a o s Hf Hh Ha. by apply S.
  - intros a o s Hs Ha. apply (st_kept _ _ _ _ _ _ _ S); [destruct Hs as [-> | ->]; done..|done].
  - apply S.
  - intros x Hx. by apply S.
  - intros x c Hx Hp Hl. by rewrite (st_out _ _ _ _ _ _ _ S x Hp Hl).
Qed.

Lemma stepg_trans h1 m1 B1 h2 m2 B2 h3 m3 B3 :
  stepg h1 m1 B1 h2 m2 B2 -> stepg h2 m2 B2 h3 m3 B3 -> stepg h1 m1 B1 h3 m3 B3.
Proof.
  intros S1 S2. split.
  - destruct (sg_h _ _ _ _ _ _ S1) as (? & ? & ? & ? & ?), (sg_h _ _ _ _ _ _ S2) as (? & ? & ? & ? & ?). split_and!; congruence.
  - intros p Hp. by apply S2, S1.
  - intros p x Hp. destruct (sg_new _ _ _ _ _ _ S2 p x Hp) as [Hp'|Hx]; [by apply S1|]. right. intros Hin.
    destruct (ld m1 x) eqn:E; [|done]. destruct (sg_mono _ _ _ _ _ _ S1 x) as [? ?]; [by rewrite E|]. rewrite Hx in *; done.
  - intros a o s Hf Hh Ha. by apply S2, S1.
  - intros a o s Hs Ha. by apply S1, S2.
  - intros a o s x Ha Hf Hh Hx. rewrite (sg_mem _ _ _ _ _ _ S2 a o s x); [by eapply sg_mem|by apply S1|done..].
  - intros x Hx. by apply S2, S1.
  - intros x c Hx Hp Hl. apply (sg_out _ _ _ _ _ _ S2).
    + by apply S1.
    + intros p Hp' Hin. destruct (sg_new _ _ _ _ _ _ S1 p x Hp') as [Hpp|Hn]; [by eapply Hp|]. rewrite Hn in Hx; done.
    + intros o Ho. destruct (sg_h _ _ _ _ _ _ S1) as (E & _). unfold freelist. rewrite E. by apply Hl.
Qed.

(** A fresh range is outside the pools. *)
Lemma fresh_apart k ps h m B p :
  core k ps h m B -> pool_ok p -> fresh_range m (base p) (2 ^ pool_order p) -> forall q, q ∈ ps -> apart q p.
Proof.
  intros C (Hpos & Hpo & Hal) (_ & _ & Hf) q Hq. destruct (g_pool _ _ (c_geo _ _ _ _ _ C) _ Hq) as (Hqp & Hqo & Hqa). consts.
  unfold apart, pend. pose proof (pow2_pos (pool_order p) ltac:(lia)). pose proof (pow2_pos (pool_order q) ltac:(lia)).
  destruct (Z_le_gt_dec (base q + 2 ^ pool_order q) (base p)) as [|H1]; [by left|].
  destruct (Z_le_gt_dec (base p + 2 ^ pool_order p) (base q)) as [|H2]; [by right|]. exfalso.
  assert (exists x, aligned x 6 /\ base p <= x < base p + 2 ^ pool_order p /\ base q <= x < base q + 2 ^ pool_order q) as (x & Hx6 & Hxp & Hxq).
  { destruct (Z_le_gt_dec (pool_order p) (pool_order q)).
    - exists (base p). split; [by eapply aligned_mono; [|done]; lia|].
      destruct (dyadic_nest (base p) (pool_order p) (base q) (pool_order q)); [lia|done|done|lia|lia|]. lia.
    - exists (base q). split; [by eapply aligned_mono; [|done]; lia|].
      destruct (dyadic_nest (base q) (pool_order q) (base p) (pool_order p)); [lia|done|done|lia|lia|]. lia. }
  destruct (c_mapped _ _ _ _ _ C q x Hq) as [? Hm]; [done..|]. rewrite Hf in Hm; done.
Qed.

Lemma core_new_pool k ps h m B p m' :
  core k ps h m B -> pool_ok p -> fresh_range m (base p) (2 ^ pool_order p) ->
  m' = Mem ((base p, BSIZEOF (pool_order p)) :: regions m) (cells m) ->
  core k (ps ++ [p]) h m' (<[base p := (pool_order p, Held)]> B) /\ B !! base p = None /\
  (forall a o, B !! a = Some (o, Held) -> (base p = a -> False)).
Proof.
  intros C Hp Hf ->. pose proof (fresh_apart _ _ _ _ _ _ C Hp Hf) as Hap. destruct Hp as (Hpos & Hpo & Hal). consts.
  pose proof (pow2_pos (pool_order p) ltac:(lia)) as Hpow. rewrite BSIZEOF_pow by lia.
  assert (Hout : forall a o s x, B !! a = Some (o, s) -> a <= x < a + 2 ^ o -> ~ (base p <= x < pend p)).
  { intros a o s x Ha Hx Hin. destruct (block_in_pool C _ _ _ Ha) as (q & Hq & Hqb & Hqe & _). destruct (Hap q Hq); lia. }
  assert (Hnew : B !! base p = None).
  { destruct (B !! base p) as [[o s]|] eqn:E; [|done]. exfalso. destruct (geo_order (c_geo _ _ _ _ _ C) _ _ _ E).
    apply (Hout (base p) o s (base p) E); unfold pend; lia. }
  assert (Hne : forall a o s, B !! a = Some (o, s) -> a <> base p) by (intros a o s Ha ->; congruence).
  assert (Hlk : forall a o s, s <> Held -> <[base p := (pool_order p, Held)]> B !! a = Some (o, s) <-> B !! a = Some (o, s)).
  { intros a o s Hs. rewrite restatus_lookup. case_decide; [subst|done]. rewrite Hnew. split; intros; simplify_eq. }
  split_and!; [|done|intros a o Ha E; by eapply Hne].
  split.
  - apply geo_new_pool; [apply C|done|done].
  - intros q x [Hq| ->%list_elem_of_singleton]%elem_of_app Hx Hx6.
    + destruct (c_mapped _ _ _ _ _ C q x Hq Hx Hx6) as [c Hc]. exists c. by apply ld_grow.
    + apply ld_grow_new; [done|exact Hx6].
  - intros o q Ho [Hq| ->%list_elem_of_singleton]%elem_of_app Hin; [by eapply c_heads|].
    destruct (c_list _ _ _ _ _ C o Ho) as (l & Hl & _). destruct (dll_head _ _ _ Hl) as [Hn _]. apply nxt_is_Some in Hn as [c Hc].
    destruct Hf as (_ & _ & Hf). rewrite Hf in Hc; done.
  - intros a o s Ha Hs. apply Hlk in Ha; [|done]. destruct (c_blk _ _ _ _ _ C a o s Ha Hs) as (c & Hc & ?). exists c. split; [by apply ld_grow|done].
  - intros o Ho. destruct (c_list _ _ _ _ _ C o Ho) as (l & Hl & Hin). exists l. split.
    + eapply dll_frame; [|done]. intros x Hx.
      assert (is_Some (ld m x)) as [c Hc]; [|by rewrite Hc; apply ld_grow].
      apply elem_of_cons in Hx as [->|Hx]; [|apply Hin in Hx].
      * destruct (dll_head _ _ _ Hl) as [Hn _]. by eapply nxt_is_Some.
      * by eapply (block_mapped C).
    + intros a. rewrite Hin. symmetry. by apply Hlk.
  - intros o a Ha. eapply c_avail; [done|]. by apply Hlk.
  - apply C.
  - intros i stack Hi. destruct (c_slab _ _ _ _ _ C i stack Hi) as [Hd Hin]. split; [done|]. intros a. rewrite Hin. symmetry. by apply Hlk.
  - intros a o Ha. eapply c_slab_of; [done|]. by apply Hlk.
  - intros Hk a o Ha Haa Hb. apply Hlk in Ha, Hb; [|done..]. exact (c_canon _ _ _ _ _ C Hk a o Ha Haa Hb).
Qed.

Lemma pool_hdr_ok id po mem :
  0 <= po < 256 -> ray_is_pool_hdr (pool_hdr id po mem) = true /\ hdr_pool_order (pool_hdr id po mem) = po.
Proof.
  intros Hpo. split; [done|]. unfold hdr_pool_order, pool_hdr. cbn [fl_prev].
  rewrite Z.shiftr_lor, Z.shiftr_shiftl_l, Z.sub_diag, Z.shiftl_0_r by lia.
  rewrite (Z.shiftr_div_pow2 (u16 id)) by lia. unfold u16, wrap.
  rewrite Z.div_small by (apply Z.mod_pos_bound; lia). rewrite Z.lor_0_l. by apply u8_small.
Qed.

Lemma stepg_new_pool k h m B p :
  core k (pools h) h m B -> pool_ok p -> fresh_range m (base p) (2 ^ pool_order p) ->
  stepg h m B (set_pools (pools h ++ [p]) h) (Mem ((base p, BSIZEOF (pool_order p)) :: regions m) (cells m))
    (<[base p := (pool_order p, Held)]> B).
Proof.
  intros C Hp Hf. destruct (core_new_pool _ _ _ _ _ _ _ C Hp Hf eq_refl) as (_ & Hnew & _).
  assert (Hg : forall x, is_Some (ld m x) -> ld (Mem ((base p, BSIZEOF (pool_order p)) :: regions m) (cells m)) x = ld m x).
  { intros x [c Hc]. rewrite Hc. by apply ld_grow. }
  split; cbn [pools set_pools].
  - done.
  - intros q Hq. set_solver.
  - intros q x [Hq| ->%list_elem_of_singleton]%elem_of_app; [by left|]. right. by apply Hf.
  - intros a o s Hs Hh Ha. rewrite lookup_insert_ne; [done|congruence].
  - intros a o s Hs. rewrite restatus_lookup. case_decide; [|done]. intros [= <- <-]. by destruct Hs.
  - intros a o s x Ha _ _ Hx. destruct (ld m x) as [c|] eqn:E; [by apply ld_grow|].
    match goal with |- ?l = None => destruct l as [c|] eqn:E'; [exfalso|done] end.
    destruct (block_in_pool C _ _ _ Ha) as (q & Hq & Hqa & Hqe & _).
    assert (Hnp : ~ (base p <= x < pend p)).
    { destruct (fresh_apart _ _ _ _ _ _ C Hp Hf q Hq); lia. }
    unfold ld in E, E'. cbn [cells] in E'. destruct (cells m !! x); [done|].
    destruct (mapped m x) eqn:Em; [done|]. unfold mapped in Em, E'. cbn [regions existsb fst snd] in E'.
    destruct (x mod 64 =? 0); [|done]. cbn [andb] in *. rewrite Em, orb_false_r in E'.
    destruct ((base p <=? x) && (x <? base p + BSIZEOF (pool_order p))) eqn:Ei; [|done].
    apply andb_true_iff in Ei as [Ei1%Z.leb_le Ei2%Z.ltb_lt]. destruct Hp as (_ & Hpo & _). consts.
    rewrite BSIZEOF_pow in Ei2 by lia. apply Hnp. unfold pend. lia.
  - intros x Hx. by rewrite Hg.
  - intros x c Hx _ _. by apply ld_grow.
Qed.

Lemma pool_order_for_range o : RAY_ORDER_MIN <= o -> RAY_HEAP_POOL_ORDER <= pool_order_for o /\ o < pool_order_for o.
Proof. unfold pool_order_for. consts. intros. destruct (Z.leb_spec 25 o); lia. Qed.

Lemma heap_add_pool_ok k vm h m B o :
  vm_ok vm -> hstate k h m B -> RAY_ORDER_MIN <= o ->
  exists ok h' m' B', heap_add_pool vm h m o = Some (ok, h', m') /\ hstate k h' m' B' /\ stepg h m B h' m' B' /\
    (ok = true -> exists a i, o <= i /\ B' !! a = Some (i, Free)) /\
    (ok = false -> h' = h /\ m' = m /\ (RAY_MAX_POOLS <= length (pools h) \/ RAY_HEAP_MAX_ORDER <= o \/
       pool_mapping vm h m (BSIZEOF (pool_order_for o)) = None)).
Proof.
  intros V [C Hh Hc Hn Hon] Ho. unfold heap_add_pool.
  destruct (pool_order_for_range o Ho) as [Hpo1 Hpo2].
  destruct (Z.leb_spec RAY_MAX_POOLS (length (pools h))) as [Hmax|Hmax].
  { exists false, h, m, B. split_and!; try done. by apply stepg_refl. intros _. split_and!; [done..|by left]. }
  destruct (Z.ltb_spec RAY_HEAP_MAX_ORDER (pool_order_for o)) as [Hbig|Hbig].
  { exists false, h, m, B. split_and!; try done. by apply stepg_refl. intros _. split_and!; [done..|right; left].
    unfold pool_order_for in Hbig. consts. destruct (Z.leb_spec 25 o); lia. }
  destruct (pool_mapping vm h m (BSIZEOF (pool_order_for o))) as [[mem sw]|] eqn:Em.
  2:{ exists false, h, m, B. split_and!; try done. by apply stepg_refl. intros _. split_and!; [done..|by right; right]. }
  destruct (pool_mapping_ok vm h m (pool_order_for o) mem sw V (conj Hpo1 Hbig) Em) as [Hal Hf].
  set (po := pool_order_for o) in *. set (p := Pool mem po sw).
  assert (Hp : pool_ok p) by (split_and!; [apply Hf|done|done|done]).
  destruct (core_new_pool _ _ _ _ _ p _ C Hp Hf eq_refl) as (C0 & Hnew & _).
  pose proof (stepg_new_pool _ _ _ _ _ C Hp Hf) as S0. cbn [base pool_order p] in C0, S0, Hnew.
  set (m0 := Mem ((mem, BSIZEOF po) :: regions m) (cells m)) in *. set (B0 := <[mem := (po, Held)]> B) in *.
  assert (Hb0 : B0 !! mem = Some (po, Held)) by apply lookup_insert_eq.
  assert (Hself : mem <= mem < mem + 2 ^ po) by (pose proof (pow2_pos po ltac:(consts; lia)); lia).
  destruct (upd_ok m0 mem (fun _ => pool_hdr (heap_id h) po mem)) as (m1 & H1); [by eapply block_mapped|].
  destruct (core_upd_held _ _ _ _ _ _ _ _ _ _ C0 Hb0 Hself H1) as [C1 S1].
  destruct (split_down_ok _ _ mem (Z.to_nat (po - RAY_ORDER_MIN)) _ _ _ _ C1 Hb0) as
    (h2 & m2 & B2 & H2 & C2 & Hb2 & S2 & Hld2 & Hheld2 & _ & Hfree2); [consts; lia|].
  rewrite Z2Nat.id in Hb2, Hfree2 by (consts; lia). replace (po - (po - RAY_ORDER_MIN)) with RAY_ORDER_MIN in * by lia.
  assert (Hm1 : ld m1 mem = Some (pool_hdr (heap_id h) po mem)).
  { rewrite (ld_upd _ _ _ _ _ H1), decide_True by done. destruct (block_mapped C0 _ _ _ Hb0) as [c ->]. done. }
  destruct (pool_hdr_ok (heap_id h) po mem) as [Hh1 Hh2]; [consts; lia|].
  assert (C3 : core k (pools h ++ [p]) h2 m2 (<[mem := (RAY_ORDER_MIN, Hdr)]> B2)).
  { eapply core_restatus'; try done. intros _. rewrite Hld2, Hm1. by eexists. }
  cbn [mbind option_bind]. rewrite H1. cbn [mbind option_bind]. unfold heap_split_block. rewrite H2. cbn [mbind option_bind].
  pose proof (st_h _ _ _ _ _ _ _ S2) as Eh2.
  assert (S12 : stepk (pools h ++ [p]) h m0 B0 h2 m2 (<[mem := (RAY_ORDER_MIN, Held)]> B2)).
  { eapply stepk_trans; [done|]. rewrite insert_id by done. done. }
  exists true, (set_pools (pools h2 ++ [p]) h2), m2, (<[mem := (RAY_ORDER_MIN, Hdr)]> B2).
  assert (Ep : pools h2 = pools h) by (by rewrite Eh2).
  assert (Hk2 : forall a o' s, s <> Free -> s <> Held -> B !! a = Some (o', s) -> <[mem := (RAY_ORDER_MIN, Hdr)]> B2 !! a = Some (o', s)).
  { intros a o' s Hs Hs' Ha. rewrite restatus_lookup. case_decide; [congruence|].
    apply (st_kept _ _ _ _ _ _ _ S2); [done..|]. unfold B0. by rewrite lookup_insert_ne. }
  assert (Hold : forall a o' s x, B !! a = Some (o', s) -> s <> Free -> s <> Held -> a <= x < a + 2 ^ o' -> ld m2 x = ld m0 x).
  { intros a o' s x Ha Hs Hs' Hx. apply (st_mem _ _ _ _ _ _ _ S12 a o' s); try done. unfold B0. rewrite lookup_insert_ne; [done|congruence]. }
  split_and!; try done.
  - split; cbn [pools set_pools]; rewrite ?Ep.
    + eapply core_heap; done.
    + intros q [Hq| ->%list_elem_of_singleton]%elem_of_app; [apply Hk2; [done..|by apply Hh]|apply lookup_insert_eq].
    + intros q [Hq| ->%list_elem_of_singleton]%elem_of_app.
      * destruct (Hc q Hq) as (c & Hcq & ?). exists c. split; [|done].
        rewrite (Hold (base q) RAY_ORDER_MIN Hdr (base q) (Hh q Hq)); [by apply ld_grow|done|done|consts; lia].
      * exists (pool_hdr (heap_id h) po mem). cbn [base pool_order p]. by rewrite Hld2, Hm1.
    + intros x o'. rewrite restatus_lookup. case_decide; [done|]. intros Hx. apply Hheld2 in Hx; [|done].
      unfold B0 in Hx. rewrite lookup_insert_ne in Hx by done. by apply Hn in Hx.
    + intros a o'. rewrite restatus_lookup. case_decide; [subst; exists p; split; [set_solver|done]|].
      intros Ha. apply (st_kept _ _ _ _ _ _ _ S2) in Ha; [|done..]. unfold B0 in Ha. rewrite lookup_insert_ne in Ha by done.
      destruct (Hon a o' Ha) as (q & Hq & ->). exists q. split; [set_solver|done].
  - eapply stepg_trans; [exact S0|]. split; cbn [pools set_pools].
    + by rewrite Eh2.
    + by rewrite Ep.
    + rewrite Ep. intros q x Hq. by left.
    + intros a o' s Hs Hs' Ha. rewrite restatus_lookup. case_decide; [subst; congruence|]. by apply (st_kept _ _ _ _ _ _ _ S2).
    + intros a o' s Hs. rewrite restatus_lookup. case_decide; [intros; simplify_eq; by destruct Hs|].
      apply (st_kept _ _ _ _ _ _ _ S2); by destruct Hs as [-> | ->].
    + intros a o' s x. apply (st_mem _ _ _ _ _ _ _ S12).
    + intros x Hx. by apply (st_map _ _ _ _ _ _ _ S12).
    + intros x c Hx Hq Hl. rewrite (st_out _ _ _ _ _ _ _ S12 x); done.
  - intros _. exists (mem + 2 ^ (po - 1)), (po - 1). split; [lia|]. rewrite restatus_lookup.
    rewrite decide_False by (pose proof (pow2_pos (po - 1) ltac:(consts; lia)); lia). apply Hfree2. consts. lia.
Qed.

(** ** Finding a free block *)
Lemma ctz_spec z : 0 < z -> 0 <= ctz z /\ Z.testbit z (ctz z) = true /\ forall i, i < ctz z -> Z.testbit z i = false.
Proof.
  intros Hz. destruct z as [|p|p]; [done| |done]. cbn [ctz]. clear Hz.
  induction p as [p IH|p IH|]; cbn [ctz_pos].
  - split_and!; [done..|]. intros i Hi. by apply Z.testbit_neg_r.
  - destruct IH as (H1 & H2 & H3). replace (Z.pos p~0) with (2 * Z.pos p) by done. split_and!; [lia| |].
    + replace (1 + ctz_pos p) with (Z.succ (ctz_pos p)) by lia. by rewrite Z.double_bits_succ.
    + intros i Hi. destruct (Z_lt_ge_dec i 0); [by apply Z.testbit_neg_r|].
      destruct (Z.eq_dec i 0) as [->|]; [apply Z.testbit_even_0|].
      replace i with (Z.succ (i - 1)) by lia. rewrite Z.double_bits_succ. apply H3. lia.
  - split_and!; [done..|]. intros i Hi. by apply Z.testbit_neg_r.
Qed.

Lemma order_mask_bit o i : 0 <= o -> 0 <= i < 64 -> Z.testbit (order_mask o) i = (o <=? i).
Proof.
  intros Ho Hi. unfold order_mask, u64, wrap. rewrite Z.mod_pow2_bits_low by lia. rewrite Z.shiftl_spec by lia.
  destruct (Z.leb_spec o i).
  - change 18446744073709551615 with (Z.ones 64). apply Z.ones_spec_low. lia.
  - apply Z.testbit_neg_r. lia.
Qed.

(** What the candidates are: orders from [o] up whose bit may be stale, and all
    those that have a free block. *)
Definition candidates_ok (B : tiling) (o cand : Z) : Prop :=
  0 <= cand /\ (forall i, Z.testbit cand i = true -> o <= i < RAY_HEAP_FL_SIZE) /\
  (forall a i, o <= i -> B !! a = Some (i, Free) -> Z.testbit cand i = true).

Lemma candidates_mask k ps h m B o :
  core k ps h m B -> 0 <= o -> candidates_ok B o (Z.land (avail h) (order_mask o)).
Proof.
  intros C Ho. split_and!.
  - apply Z.land_nonneg. right. unfold order_mask. apply u64_range.
  - intros i. rewrite Z.land_spec, andb_true_iff. intros [Hi Hm].
    pose proof (c_avail_bits _ _ _ _ _ C i Hi). rewrite order_mask_bit in Hm by (consts; lia). apply Z.leb_le in Hm. lia.
  - intros a i Hi Ha. rewrite Z.land_spec, (c_avail _ _ _ _ _ C _ _ Ha).
    pose proof (blk_order_range C _ _ _ Ha). rewrite order_mask_bit by (consts; lia). by apply Z.leb_le.
Qed.

Lemma fl_empty_core k ps h m B o :
  core k ps h m B -> 0 <= o < RAY_HEAP_FL_SIZE ->
  exists e c, fl_empty m (freelist h o) = Some e /\ ld m (freelist h o) = Some c /\
    (e = true -> forall a, B !! a <> Some (o, Free)) /\ (e = false -> B !! fl_next c = Some (o, Free)).
Proof.
  intros C Ho. destruct (c_list _ _ _ _ _ C o Ho) as (l & Hl & Hin). destruct (dll_head _ _ _ Hl) as [Hn He].
  pose proof (nxt_is_Some _ _ _ Hn) as [c Hc]. unfold fl_empty in *. rewrite Hc in *. cbn [mbind option_bind] in *.
  eexists _, c. split_and!; [done|done| |].
  - intros E a Ha. assert (l = []) as -> by (apply He; by rewrite E). apply Hin in Ha. by apply not_elem_of_nil in Ha.
  - intros E. unfold nxt in Hn. rewrite Hc in Hn. cbn in Hn. injection Hn as Hn. destruct l as [|a l].
    + cbn in Hn. rewrite Hn, Z.eqb_refl in E. done.
    + rewrite Hn. apply Hin. left.
Qed.

(** Clearing the bit of an order that has no free block. *)
Lemma core_clear_stale k ps h m B o :
  core k ps h m B -> 0 <= o -> (forall a, B !! a <> Some (o, Free)) ->
  core k ps (set_avail (Z.land (avail h) (Z.lnot (Z.shiftl 1 o))) h) m B.
Proof.
  intros C Ho Hno. apply core_set_avail; [done| |].
  - intros i x Hx. rewrite testbit_clear by done. case_decide; [subst; by apply Hno in Hx|by eapply c_avail].
  - intros i. rewrite testbit_clear by done. case_decide; [done|]. apply C.
Qed.

Lemma hstate_clear k h m B o :
  hstate k h m B -> 0 <= o -> (forall a, B !! a <> Some (o, Free)) ->
  hstate k (set_avail (Z.land (avail h) (Z.lnot (Z.shiftl 1 o))) h) m B.
Proof. intros [C Hh Hc Hn Hon] Ho Hno. split; try done. by apply core_clear_stale. Qed.

Lemma stepg_avail h m B a : stepg h m B (set_avail a h) m B.
Proof. split; try done. intros p x Hp. by left. Qed.

Lemma candidates_clear B o cand :
  candidates_ok B o cand -> 0 < cand -> (forall a, B !! a <> Some (ctz cand, Free)) ->
  let cand' := Z.land cand (Z.lnot (Z.shiftl 1 (ctz cand))) in
  candidates_ok B o cand' /\ (cand' <> 0 -> ctz cand < ctz cand').
Proof.
  intros (H1 & H2 & H3) Hpos Hno. destruct (ctz_spec cand Hpos) as (C1 & C2 & C3). intros cand'.
  assert (Hb : forall i, Z.testbit cand' i = if decide (i = ctz cand) then false else Z.testbit cand i).
  { intros i. unfold cand'. by apply testbit_clear. }
  assert (Hn : 0 <= cand') by (apply Z.land_nonneg; by left).
  split; [split_and!|].
  - done.
  - intros i. rewrite Hb. case_decide; [done|]. apply H2.
  - intros a i Hi Ha. rewrite Hb. case_decide; [subst; by apply Hno in Ha|by eapply H3].
  - intros Hne. destruct (ctz_spec cand') as (D1 & D2 & D3); [lia|]. rewrite Hb in D2. case_decide; [done|].
    destruct (Z_lt_ge_dec (ctz cand) (ctz cand')) as [|Hge]; [done|]. rewrite C3 in D2 by lia. done.
Qed.

(** Why an allocation is refused. *)
Definition refused (vm : vm_env) (h : ray_heap_t) (m : mem_t) (o : Z) : Prop :=
  RAY_MAX_POOLS <= length (pools h) \/ RAY_HEAP_MAX_ORDER <= o \/
  exists a, pool_mapping vm (set_avail a h) m (BSIZEOF (pool_order_for o)) = None.

Definition scan_result (vm : vm_env) (k : bool) (h : ray_heap_t) (m : mem_t) (B : tiling) (o : Z)
    (r : option (option Z * ray_heap_t * mem_t)) : Prop :=
  exists found h' m' B', r = Some (found, h', m') /\ hstate k h' m' B' /\ stepg h m B h' m' B' /\
    match found with
    | Some f => o <= f < RAY_HEAP_FL_SIZE /\ fl_empty m' (freelist h' f) = Some false
    | None => m' = m /\ B' = B /\ refused vm h m o
    end.

(** With a free block among the candidates the scan finds a list that has one. *)
Lemma alloc_scan_found k vm o : forall fuel h m B cand,
  hstate k h m B -> 0 <= o -> candidates_ok B o cand -> (exists a i, o <= i /\ B !! a = Some (i, Free)) ->
  RAY_HEAP_FL_SIZE - ctz cand <= Z.of_nat fuel ->
  exists f h' m' B', alloc_scan fuel vm h m o cand = Some (Some f, h', m') /\ hstate k h' m' B' /\ stepg h m B h' m' B' /\
    o <= f < RAY_HEAP_FL_SIZE /\ fl_empty m' (freelist h' f) = Some false.
Proof.
  induction fuel as [|fuel IH]; intros h m B cand H Ho Hc (a & i & Hi & Ha) Hf.
  all: assert (Hpos : 0 < cand) by (destruct Hc as (Hc & _ & Hb); destruct (Z.eq_dec cand 0) as [->|]; [|lia];
    specialize (Hb a i Hi Ha); by rewrite Z.bits_0 in Hb).
  all: destruct (ctz_spec cand Hpos) as (C1 & C2 & _); destruct (proj1 (proj2 Hc) _ C2) as [Hlo Hhi].
  { consts. lia. }
  cbn [alloc_scan]. destruct (Z.eqb_spec cand 0) as [|_]; [lia|]. cbn [mbind option_bind].
  destruct (fl_empty_core _ _ _ _ _ (ctz cand) (hs_core _ _ _ _ H)) as (e & c & He & Hl & Ht & Hfa); [lia|].
  rewrite He. cbn [mbind option_bind]. destruct e; cbn [negb].
  - destruct (candidates_clear _ _ _ Hc Hpos (Ht eq_refl)) as [Hc' Hup].
    set (h1 := set_avail (Z.land (avail h) (Z.lnot (Z.shiftl 1 (ctz cand)))) h).
    destruct (IH h1 m B _ (hstate_clear _ _ _ _ _ H C1 (Ht eq_refl)) Ho Hc') as (f & h' & m' & B' & E & S & G & R); [by eauto| |].
    { assert (Z.land cand (Z.lnot (Z.shiftl 1 (ctz cand))) <> 0).
      { intros E. destruct Hc' as (_ & _ & Hb). specialize (Hb a i Hi Ha). by rewrite E, Z.bits_0 in Hb. }
      specialize (Hup ltac:(done)). lia. }
    exists f, h', m', B'. split; [done|]. split; [done|]. split; [|done]. eapply stepg_trans; [apply stepg_avail|done].
  - exists (ctz cand), h, m, B. split_and!; try done. apply stepg_refl.
Qed.

Lemma add_candidates_ok k vm h m B o :
  vm_ok vm -> hstate k h m B -> RAY_ORDER_MIN <= o ->
  exists cand h' m' B', add_candidates vm h m o = Some (cand, h', m') /\ hstate k h' m' B' /\ stepg h m B h' m' B' /\
    match cand with
    | Some c => c <> 0 /\ candidates_ok B' o c /\ exists a i, o <= i /\ B' !! a = Some (i, Free)
    | None => m' = m /\ B' = B /\ refused vm h m o
    end.
Proof.
  intros V H Ho. unfold add_candidates.
  destruct (heap_add_pool_ok _ _ _ _ _ _ V H Ho) as (ok & h' & m' & B' & E & H' & S & Hok & Hno).
  rewrite E. cbn [mbind option_bind]. destruct ok; cbn [negb].
  - destruct (Hok eq_refl) as (a & i & Hi & Ha).
    pose proof (candidates_mask _ _ _ _ _ o (hs_core _ _ _ _ H') ltac:(consts; lia)) as Hc.
    assert (Hne : Z.land (avail h') (order_mask o) <> 0).
    { intros E0. destruct Hc as (_ & _ & Hb). specialize (Hb a i Hi Ha). by rewrite E0, Z.bits_0 in Hb. }
    destruct (Z.eqb_spec (Z.land (avail h') (order_mask o)) 0) as [|_]; [done|].
    eexists _, h', m', B'. do 5 (split; [done|]). by exists a, i.
  - destruct (Hno eq_refl) as (-> & -> & R). exists None, h, m, B. split_and!; try done; [apply stepg_refl|].
    destruct R as [R|[R|R]]; [by left|by right; left|right; right]. exists (avail h). by destruct h.
Qed.

Lemma refused_avail vm h m o a : refused vm (set_avail a h) m o -> refused vm h m o.
Proof. intros [R|[R|[b R]]]; [by left|by right; left|right; right]. by exists b. Qed.

Lemma alloc_scan_ok k vm o : vm_ok vm -> RAY_ORDER_MIN <= o -> forall fuel h m B cand,
  hstate k h m B -> candidates_ok B o cand ->
  RAY_HEAP_FL_SIZE + (if decide (cand = 0) then 0 else RAY_HEAP_FL_SIZE - ctz cand) <= Z.of_nat fuel ->
  scan_result vm k h m B o (alloc_scan fuel vm h m o cand).
Proof.
  intros V Ho. induction fuel as [|fuel IH]; intros h m B cand H Hc Hf.
  { exfalso. case_decide; [consts; lia|]. destruct Hc as (Hc1 & Hc2 & _). destruct (ctz_spec cand) as (C1 & C2 & _); [lia|].
    apply Hc2 in C2. lia. }
  destruct (decide (cand = 0)) as [->|Hne].
  - destruct (add_candidates_ok _ _ _ _ _ _ V H Ho) as (cd & h' & m' & B' & E & H' & S & Hcd).
    assert (Eq : alloc_scan (Datatypes.S fuel) vm h m o 0 =
      match cd with Some c => alloc_scan (Datatypes.S fuel) vm h' m' o c | None => Some (None, h', m') end).
    { cbn [alloc_scan]. rewrite Z.eqb_refl, E. cbn [mbind option_bind]. destruct cd as [c|]; [|done].
      destruct Hcd as (Hc0 & _). by rewrite (proj2 (Z.eqb_neq c 0) Hc0). }
    rewrite Eq. destruct cd as [c|].
    + destruct Hcd as (Hc0 & Hcc & Hex).
      destruct (alloc_scan_found k vm o (Datatypes.S fuel) h' m' B' c H' ltac:(consts; lia) Hcc Hex) as (f & h2 & m2 & B2 & E2 & H2 & S2 & R2).
      { destruct Hcc as (Hc1 & _). destruct (ctz_spec c) as (C1 & _); [lia|]. lia. }
      exists (Some f), h2, m2, B2. split; [done|]. split; [done|]. split; [by eapply stepg_trans|done].
    + destruct Hcd as (-> & -> & R). exists None, h', m, B. split_and!; done.
  - assert (Hpos : 0 < cand) by (destruct Hc; lia). destruct (ctz_spec cand Hpos) as (C1 & C2 & _).
    cbn [alloc_scan]. destruct (Z.eqb_spec cand 0) as [|_]; [lia|]. cbn [mbind option_bind].
    destruct (proj1 (proj2 Hc) _ C2) as [Hlo Hhi].
    destruct (fl_empty_core _ _ _ _ _ (ctz cand) (hs_core _ _ _ _ H)) as (e & c & He & Hl & Ht & Hfa); [lia|].
    rewrite He. cbn [mbind option_bind]. destruct e; cbn [negb].
    + destruct (candidates_clear _ _ _ Hc Hpos (Ht eq_refl)) as [Hc' Hup].
      destruct (IH _ m B _ (hstate_clear _ _ _ _ _ H C1 (Ht eq_refl)) Hc') as (f & h' & m' & B' & E & S & G & R).
      { case_decide as Hz; [lia|]. specialize (Hup Hz). lia. }
      exists f, h', m', B'. split; [done|]. split; [done|]. split; [eapply stepg_trans; [apply stepg_avail|done]|].
      destruct f; [done|]. destruct R as (-> & -> & R). split_and!; [done..|]. by eapply refused_avail.
    + exists (Some (ctz cand)), h, m, B. split_and!; try done. apply stepg_refl.
Qed.

(** ** Allocating *)
Lemma find_order_ok k vm h m B o :
  vm_ok vm -> hstate k h m B -> RAY_ORDER_MIN <= o -> scan_result vm k h m B o (find_order vm h m o).
Proof.
  intros V H Ho. unfold find_order. destruct (Z.eqb_spec (Z.land (avail h) (order_mask o)) 0) as [|Hne].
  - destruct (add_candidates_ok _ _ _ _ _ _ V H Ho) as (cd & h1 & m1 & B1 & E & H1 & S1 & Hcd).
    rewrite E. cbn [mbind option_bind]. destruct cd as [c|].
    + destruct Hcd as (Hc0 & Hcc & Hex).
      destruct (alloc_scan_found k vm o SCAN_FUEL h1 m1 B1 c H1 ltac:(consts; lia) Hcc Hex) as (f & h2 & m2 & B2 & E2 & H2 & S2 & R2).
      { destruct Hcc as (Hc1 & _). destruct (ctz_spec c) as (C1 & _); [lia|]. unfold SCAN_FUEL. consts. lia. }
      exists (Some f), h2, m2, B2. split; [done|]. split; [done|]. split; [by eapply stepg_trans|done].
    + destruct Hcd as (-> & -> & R). exists None, h1, m, B. split_and!; done.
  - cbn [mbind option_bind]. pose proof (candidates_mask _ _ _ _ _ o (hs_core _ _ _ _ H) ltac:(consts; lia)) as Hc.
    eapply alloc_scan_ok; [done..|]. rewrite decide_False by done. destruct Hc as (Hc & _).
    destruct (ctz_spec (Z.land (avail h) (order_mask o))) as (C1 & _); [lia|]. unfold SCAN_FUEL. consts. lia.
Qed.

(** The state after the block is popped, split and handed out. *)
Lemma alloc_block_ok k vm h m B o :
  vm_ok vm -> hstate k h m B -> RAY_ORDER_MIN <= o ->
  exists v h' m', alloc_block vm h m o = Some (v, h', m') /\
    (v = 0 /\ refused vm h m o /\ m' = m /\ hstate k h' m B /\ stepg h m B h' m B \/
     exists h1 B1, h' = stat_alloc false o h1 /\ hstate k h1 m' (<[v := (o, Live)]> B1) /\ B1 !! v = Some (o, Held) /\
       stepg h m B h1 m' B1 /\ ld m' v = Some (fresh_hdr o zero_blk)).
Proof.
  intros V H Ho. unfold alloc_block.
  destruct (find_order_ok _ _ _ _ _ _ V H Ho) as (f & h1 & m1 & B1 & E & H1 & S1 & R). rewrite E. cbn [mbind option_bind].
  destruct f as [f|].
  2:{ destruct R as (-> & -> & R). exists 0, h1, m. split; [done|]. by left. }
  destruct R as [[Hf1 Hf2] He]. destruct H1 as [C1 Hh1 Hc1 Hn1 Hon1].
  destruct (fl_empty_core _ _ _ _ _ f C1) as (e & c & He' & Hl & _ & Hfa); [consts; lia|].
  rewrite He in He'. injection He' as <-. specialize (Hfa eq_refl). rewrite Hl. cbn [mbind option_bind].
  set (v := fl_next c) in *.
  destruct (core_remove _ _ _ _ _ _ _ C1 Hfa) as (h2 & m2 & E2 & E2' & C2 & S2 & _).
  rewrite E2. cbn [mbind option_bind]. rewrite E2'. cbn [mbind option_bind].
  assert (Hv2 : <[v := (f, Held)]> B1 !! v = Some (f, Held)) by apply lookup_insert_eq.
  destruct (split_down_ok _ _ v (Z.to_nat (f - o)) _ _ _ _ C2 Hv2) as
    (h3 & m3 & B3 & E3 & C3 & Hv3 & S3 & _ & Hheld3 & _); [consts; lia|].
  rewrite Z2Nat.id in Hv3 by lia. replace (f - (f - o)) with o in Hv3 by lia.
  unfold heap_split_block. rewrite E3. cbn [mbind option_bind].
  destruct (upd_ok m3 v (fresh_hdr o)) as (m4 & E4); [by eapply (block_mapped C3)|]. rewrite E4. cbn [mbind option_bind].
  destruct (geo_order (c_geo _ _ _ _ _ C3) _ _ _ Hv3) as [_ Hpw].
  assert (Hself : v <= v < v + 2 ^ o) by lia.
  destruct (core_upd_held _ _ _ _ _ _ _ _ _ _ C3 Hv3 Hself E4) as [C4 S4].
  assert (Hld4 : ld m4 v = Some (fresh_hdr o zero_blk)).
  { rewrite (ld_upd _ _ _ _ _ E4), decide_True by done. destruct (block_mapped C3 _ _ _ Hv3) as [c3 ->]. done. }
  pose proof (stepk_trans _ _ _ _ _ _ _ _ _ _ S2 (stepk_trans _ _ _ _ _ _ _ _ _ _ S3 S4)) as S24.
  assert (Ep : pools h3 = pools h1) by (by rewrite (st_h _ _ _ _ _ _ _ S24)).
  exists v, (stat_alloc false o h3), m4. split; [done|]. right. exists h3, B3. split_and!; try done.
  - split; rewrite ?Ep.
    + eapply core_restatus'; try done. intros _. rewrite Hld4. by eexists.
    + intros p Hp. rewrite lookup_insert_ne; [by eapply hdrs_step|]. intros ->.
      pose proof (hdrs_step _ _ _ _ _ _ _ S24 Hh1 p Hp) as Hx. congruence.
    + by eapply hdr_cells_step.
    + intros x o'. rewrite restatus_lookup. case_decide; [done|]. intros Hx. apply Hheld3 in Hx; [|done].
      rewrite lookup_insert_ne in Hx by done. by apply Hn1 in Hx.
    + apply only_insert; [|done]. by eapply only_step.
  - eapply stepg_trans; [exact S1|]. by apply stepk_stepg.
Qed.
