(* ===== verification/BuddySpec.v ===== *)
(** * The buddy heap: what it promises ([src/mem/heap.c])

    A heap seen by its client: the blocks it has handed out with their orders.
    Each entry point is shown total on well-formed heaps, with its effect on
    that map and on the memory of the blocks in it. *)
From Stdlib Require Import ZArith Lia.
From stdpp Require Import gmap.
From S2P Require Import Prelude HeapMem Buddy BuddyGeo BuddyInv BuddyOps BuddyHeap.

(** ** The client's view *)
Definition live (B : tiling) : gmap Z Z := omap (fun x => if decide (x.2 = Live) then Some x.1 else None) B.

Lemma live_lookup B a o : live B !! a = Some o <-> B !! a = Some (o, Live).
Proof.
  unfold live. rewrite lookup_omap. destruct (B !! a) as [[k s]|]; cbn; [|done].
  case_decide; cbn in *; subst; split; intros; simplify_eq; done.
Qed.

Lemma live_eq B L : (forall a o, B !! a = Some (o, Live) <-> L !! a = Some o) -> live B = L.
Proof. intros H. apply map_eq. intros a. apply option_eq. intros o. by rewrite live_lookup. Qed.

(** The bytes of the blocks handed out. *)
Definition live_bytes (L : gmap Z Z) : Z := map_fold (fun _ o acc => 2 ^ o + acc) 0 L.

Lemma live_bytes_insert L v o : L !! v = None -> live_bytes (<[v := o]> L) = 2 ^ o + live_bytes L.
Proof. intros H. unfold live_bytes. rewrite map_fold_insert_L; [done| |done]. intros; lia. Qed.

Lemma live_bytes_delete L v o : L !! v = Some o -> live_bytes (delete v L) = live_bytes L - 2 ^ o.
Proof.
  intros H. rewrite <- (insert_delete_id L v o H) at 2. rewrite live_bytes_insert by apply lookup_delete_eq. lia.
Qed.

Definition slab_bounds (h : ray_heap_t) : Prop :=
  length (slabs h) = 11%nat /\ length (slab_cap h) = 11%nat /\ Forall (fun c => c <= RAY_SLAB_CACHE_SIZE) (slab_cap h) /\
  Forall (fun s => Z.of_nat (length s) <= RAY_SLAB_CACHE_SIZE) (slabs h).

(** A heap whose handed-out blocks are [L]; [k] says that it has only been used
    outside parallel sections, so that free buddies are always joined. *)
Record heap_wf (k : bool) (h : ray_heap_t) (m : mem_t) (L : gmap Z Z) : Prop := {
  wf_state : exists B, hstate k h m B /\ live B = L;
  wf_bytes : bytes_allocated (stats h) = u64 (live_bytes L);
  wf_slabs : slab_bounds h;
  wf_mmod : forall a o, L !! a = Some o -> exists c, ld m a = Some c /\ mmod c = 0
}.

(** The memory of the blocks in [L] is untouched. *)
Definition keeps (L : gmap Z Z) (m m' : mem_t) : Prop :=
  forall a o x, L !! a = Some o -> a <= x < a + 2 ^ o -> ld m' x = ld m x.

(** What a client can rely on from the tiling. *)
Lemma wf_live_apart k h m L a o a' o' :
  heap_wf k h m L -> L !! a = Some o -> L !! a' = Some o' -> a <> a' -> a + 2 ^ o <= a' \/ a' + 2 ^ o' <= a.
Proof.
  intros [(B & H & <-) _ _ _] Ha%live_lookup Ha'%live_lookup Hn. by eapply (g_disj _ _ (c_geo _ _ _ _ _ (hs_core _ _ _ _ H))).
Qed.

Lemma wf_live_block k h m L a o :
  heap_wf k h m L -> L !! a = Some o ->
  RAY_ORDER_MIN <= o < RAY_HEAP_FL_SIZE /\ aligned a o /\ 0 < a /\ 0 < 2 ^ o /\
  (exists p, p ∈ pools h /\ base p <= a /\ a + 2 ^ o <= pend p) /\
  exists c, ld m a = Some c /\ order c = o /\ rc c <> 0 /\ mmod c = 0.
Proof.
  intros [(B & H & <-) _ _ Hm] Ha. destruct (Hm a o Ha) as (c & Hc & Hmm). apply live_lookup in Ha.
  destruct H as [C _ _ _ _]. destruct (g_blk _ _ (c_geo _ _ _ _ _ C) _ _ _ Ha) as (Ho & Hal & p & Hp & Hb & He).
  destruct (g_pool _ _ (c_geo _ _ _ _ _ C) _ Hp) as (Hpos & _). destruct (geo_order (c_geo _ _ _ _ _ C) _ _ _ Ha).
  destruct (c_blk _ _ _ _ _ C _ _ _ Ha ltac:(done)) as (c' & Hc' & Ho' & Hr).
  split_and!; try done; [|lia|by exists p|].
  - pose proof (blk_order_range C _ _ _ Ha). consts. lia.
  - exists c. rewrite Hc in Hc'. injection Hc' as <-. split_and!; try done. intros E. by apply Hr in E.
Qed.

(** A step that leaves the handed-out blocks keeps a heap well-formed. *)
Lemma stepg_live h m B h' m' B' : stepg h m B h' m' B' -> live B' = live B.
Proof.
  intros S. apply live_eq. intros a o. rewrite live_lookup. split.
  - intros Ha. apply (sg_back _ _ _ _ _ _ S); [by left|done].
  - intros Ha. by apply (sg_kept _ _ _ _ _ _ S).
Qed.

Lemma stepg_keeps h m B h' m' B' : stepg h m B h' m' B' -> keeps (live B) m m'.
Proof. intros S a o x Ha%live_lookup Hx. by eapply (sg_mem _ _ _ _ _ _ S). Qed.

Lemma stepg_wf k h m B h' m' B' :
  heap_wf k h m (live B) -> stepg h m B h' m' B' -> hstate k h' m' B' -> heap_wf k h' m' (live B).
Proof.
  intros W S H. destruct (sg_h _ _ _ _ _ _ S) as (_ & _ & E1 & E2 & E3). split.
  - exists B'. split; [done|]. by eapply stepg_live.
  - rewrite E3. apply W.
  - unfold slab_bounds. rewrite E1, E2. apply W.
  - intros a o Ha. destruct (wf_mmod _ _ _ _ W a o Ha) as (c & Hc & Hm). exists c. split; [|done].
    rewrite (stepg_keeps _ _ _ _ _ _ S a o a Ha); [done|].
    destruct (wf_live_block _ _ _ _ _ _ W Ha) as (_ & _ & _ & ? & _). lia.
Qed.

(** ** Sizes *)
Lemma ceil_log2_spec n : 1 < n -> 2 ^ (ceil_log2 n - 1) < n <= 2 ^ ceil_log2 n /\ 0 < ceil_log2 n.
Proof.
  intros Hn. unfold ceil_log2. destruct (Z.leb_spec n 1); [lia|].
  pose proof (Z.log2_spec (n - 1) ltac:(lia)) as [H1 H2]. pose proof (Z.log2_nonneg (n - 1)).
  rewrite Z.add_simpl_r. unfold Z.succ in H2. lia.
Qed.

Lemma ray_order_for_size_spec size :
  0 <= size < 2 ^ 64 -> let o := ray_order_for_size size in
  RAY_ORDER_MIN <= o /\
  (o <= RAY_HEAP_MAX_ORDER -> size + 32 <= 2 ^ o /\ (RAY_ORDER_MIN < o -> 2 ^ (o - 1) < size + 32)) /\
  (RAY_HEAP_MAX_ORDER < o -> 2 ^ RAY_HEAP_MAX_ORDER < size + 32).
Proof.
  intros Hs. unfold ray_order_for_size, SIZE_MAX_. change (2 ^ 64) with 18446744073709551616 in Hs.
  destruct (Z.ltb_spec (18446744073709551615 - 32) size).
  { cbn zeta. consts. split_and!; [lia|lia|intros _]. change (2 ^ 38) with 274877906944. lia. }
  destruct (ceil_log2_spec (size + 32)) as [[H1 H2] H3]; [lia|].
  destruct (Z.ltb_spec (ceil_log2 (size + 32)) RAY_ORDER_MIN); cbn zeta; consts.
  - split_and!; [lia|intros _|lia]. split; [|lia]. etrans; [exact H2|]. apply pow2_le. lia.
  - split_and!; [done|done|]. intros Hbig. eapply Z.le_lt_trans; [|exact H1]. apply pow2_le. lia.
Qed.

(** ** Allocation *)

(** A block is handed out: new, aligned to its size, apart from all others, its
    header cleared. *)
Definition handed_out (L : gmap Z Z) (m' : mem_t) (v o : Z) : Prop :=
  L !! v = None /\ 0 < v /\ aligned v o /\
  (forall a o', L !! a = Some o' -> a + 2 ^ o' <= v \/ v + 2 ^ o <= a) /\ ld m' v = Some (Blk 0 0 o 0 0 0 1).

Lemma hstate_heap k h h' m B :
  hstate k h m B -> fl_base h' = fl_base h -> avail h' = avail h -> slabs h' = slabs h -> pools h' = pools h -> hstate k h' m B.
Proof. intros [C Hh Hc Hn Hon] E1 E2 E3 E4. split; rewrite ?E4; try done. by eapply core_heap. Qed.

Lemma u64_add_l a b : u64 (u64 a + b) = u64 (a + b).
Proof. unfold u64, wrap. by rewrite Z.add_mod_idemp_l by lia. Qed.

Lemma wf_hand_out k h m L h' m' B' v o :
  heap_wf k h m L -> L !! v = None -> 0 <= o -> hstate k h' m' B' -> live B' = <[v := o]> L -> keeps L m m' ->
  bytes_allocated (stats h') = u64 (bytes_allocated (stats h) + BSIZEOF o) -> slab_bounds h' ->
  ld m' v = Some (fresh_hdr o zero_blk) -> heap_wf k h' m' (<[v := o]> L) /\ handed_out L m' v o.
Proof.
  intros W Hv Ho H HL HK Hb Hs Hld.
  assert (W' : heap_wf k h' m' (<[v := o]> L)).
  { split; [by exists B'| |done|].
    - rewrite Hb, live_bytes_insert, (wf_bytes _ _ _ _ W), u64_add_l, BSIZEOF_pow by done. f_equal. lia.
    - intros a o' [(<- & <-)|(Hn & Ha)]%lookup_insert_Some; [by eexists|].
      destruct (wf_live_block _ _ _ _ _ _ W Ha) as (_ & _ & _ & Hp & _ & c & Hc & _ & _ & Hm).
      exists c. rewrite (HK a o' a Ha) by lia. done. }
  split; [done|]. destruct (wf_live_block _ _ _ _ v o W') as (_ & Hal & Hpos & _); [apply lookup_insert_eq|].
  split_and!; try done. intros a o' Ha. assert (Hne : a <> v) by congruence.
  eapply (wf_live_apart _ _ _ _ a o' v o W'); [by rewrite lookup_insert_ne|by apply lookup_insert_eq|done].
Qed.

Lemma ray_alloc_total k vm h m L size :
  vm_ok vm -> heap_wf k h m L -> 0 <= size < 2 ^ 64 ->
  let o := ray_order_for_size size in
  exists v h' m', ray_alloc vm h m size = Some (v, h', m') /\ keeps L m m' /\
    (v = 0 /\ refused vm h m o /\ heap_wf k h' m' L \/
     heap_wf k h' m' (<[v := o]> L) /\ handed_out L m' v o).
Proof.
  intros V W Hs o. destruct (ray_order_for_size_spec size Hs) as (Ho & _). fold o in Ho. unfold ray_alloc. fold o.
  assert (Hkeep : forall L m, keeps L m m) by done.
  destruct (Z.ltb_spec RAY_HEAP_MAX_ORDER o) as [Hbig|Hle].
  { exists 0, h, m. split_and!; [done..|]. left. split_and!; [done| |done]. right; left. lia. }
  pose proof W as [(B & H & HL) Wb Ws Wm].
  destruct (if IS_SLAB_ORDER o then default [] (slabs h !! SLAB_INDEX o) else []) as [|v stack] eqn:Est.
  - destruct (alloc_block_ok _ _ _ _ _ _ V H Ho) as (v & h' & m' & E & R). exists v, h', m'. split; [done|].
    destruct R as [(-> & Hr & -> & H' & S)|(h1 & B1 & -> & H' & Hv & S & Hld)].
    + split; [done|]. left. split_and!; [done..|]. subst L. by eapply stepg_wf.
    + assert (HK : keeps L m m') by (subst L; by eapply stepg_keeps). split; [done|]. right.
      assert (HLv : L !! v = None).
      { apply eq_None_not_Some. intros [o' Hx]. subst L. apply live_lookup in Hx. apply (sg_kept _ _ _ _ _ _ S) in Hx; [|done..]. congruence. }
      destruct (sg_h _ _ _ _ _ _ S) as (E1 & E2 & E3 & E4 & E5).
      eapply (wf_hand_out k h m L _ _ (<[v := (o, Live)]> B1)); try done.
      * consts. lia.
      * by eapply hstate_heap.
      * apply live_eq. intros a o'. rewrite restatus_lookup, lookup_insert. repeat case_decide; subst; try done; [naive_solver|].
        rewrite live_lookup. split; [by apply (sg_back _ _ _ _ _ _ S); left|by apply (sg_kept _ _ _ _ _ _ S)].
      * cbn [stats stat_alloc set_stats bytes_allocated]. by rewrite E5.
      * unfold slab_bounds. cbn [slabs slab_cap stat_alloc set_stats]. by rewrite E3, E4.
  - destruct (IS_SLAB_ORDER o) eqn:Eo; [|done]. unfold IS_SLAB_ORDER in Eo. apply andb_true_iff in Eo as [_ Eo%Z.leb_le].
    destruct (slabs h !! SLAB_INDEX o) as [st|] eqn:Ei; [|done]. cbn in Est. subst st.
    destruct H as [C Hh Hc Hn Hon]. destruct (core_slab_pop _ _ _ _ _ _ _ _ C Ei) as [Hv C0].
    replace (RAY_ORDER_MIN + Z.of_nat (SLAB_INDEX o)) with o in * by (unfold SLAB_INDEX; lia).
    set (h0 := set_slabs (<[SLAB_INDEX o := stack]> (slabs h)) h) in *. set (B0 := <[v := (o, Held)]> B) in *.
    assert (Hv0 : B0 !! v = Some (o, Held)) by apply lookup_insert_eq.
    destruct (upd_ok m v (fresh_hdr o)) as (m1 & E1); [by eapply (block_mapped C)|]. rewrite E1. cbn [mbind option_bind].
    destruct (geo_order (c_geo _ _ _ _ _ C) _ _ _ Hv) as [_ Hpw]. assert (Hself : v <= v < v + 2 ^ o) by lia.
    destruct (core_upd_held _ _ _ _ _ _ _ _ _ _ C0 Hv0 Hself E1) as [C1 S1].
    assert (Hld : ld m1 v = Some (fresh_hdr o zero_blk)).
    { rewrite (ld_upd _ _ _ _ _ E1), decide_True by done. destruct (block_mapped C _ _ _ Hv) as [c ->]. done. }
    eexists v, _, m1. split; [done|].
    assert (Hne : forall a o' s, B !! a = Some (o', s) -> s <> Slab -> a <> v) by (intros a o' s Ha Hs' ->; congruence).
    assert (HK : keeps L m m1).
    { intros a o' x Ha Hx. subst L. apply live_lookup in Ha. apply (st_mem _ _ _ _ _ _ _ S1 a o' Live); try done.
      unfold B0. rewrite lookup_insert_ne; [done|]. intros ->. by eapply Hne. }
    split; [done|]. right.
    eapply (wf_hand_out k h m L _ _ (<[v := (o, Live)]> B0)); try done.
    + apply eq_None_not_Some. intros [o' Hx]. subst L. apply live_lookup in Hx. congruence.
    + consts. lia.
    + apply (hstate_heap _ h0); try done. split.
      * cbn [pools h0 set_slabs]. eapply core_restatus'; try done. intros _. rewrite Hld. by eexists.
      * intros p Hp. cbn [pools h0 set_slabs] in Hp. unfold B0. rewrite !lookup_insert_ne; [by apply Hh|..];
        intros ->; by eapply (Hne _ _ _ (Hh p Hp)).
      * assert (Hh0 : has_hdrs (pools h) B0) by (intros p Hp; unfold B0; rewrite lookup_insert_ne; [by apply Hh|]; intros ->; by eapply (Hne _ _ _ (Hh p Hp))).
        by eapply (hdr_cells_step _ _ _ _ _ _ _ S1).
      * intros x o'. unfold B0. rewrite !restatus_lookup. repeat case_decide; try done.
      * by do 2 (apply only_insert; [|done]).
    + apply live_eq. intros a o'. unfold B0. rewrite !restatus_lookup, lookup_insert. repeat case_decide; subst; try done; [naive_solver|].
      by rewrite live_lookup.
    + destruct Ws as (W1 & W2 & W3 & W4). unfold slab_bounds. cbn [slabs slab_cap stat_alloc set_stats set_slabs h0].
      rewrite length_insert. split_and!; try done. apply Forall_insert; [done|].
      eapply Forall_lookup_1 in W4; [|done]. cbn [length] in W4. lia.
Qed.

(** ** Release *)
Lemma pool_covers_spec p x : 0 <= pool_order p -> pool_covers p x = true <-> base p <= x < pend p.
Proof. intros Hp. unfold pool_covers, pend. rewrite BSIZEOF_pow by done. rewrite andb_true_iff, Z.leb_le, Z.ltb_lt. done. Qed.

Lemma find_pool_spec ps x : forall i,
  match find_pool_from i ps x with
  | Some j => exists p, (i <= j)%nat /\ ps !! (j - i)%nat = Some p /\ pool_covers p x = true
  | None => forall p, p ∈ ps -> pool_covers p x = false
  end.
Proof.
  induction ps as [|p ps IH]; intros i; cbn [find_pool_from]; [by intros p ?%not_elem_of_nil|].
  destruct (pool_covers p x) eqn:E.
  - exists p. rewrite Nat.sub_diag. split_and!; [lia|done|done].
  - specialize (IH (S i)). destruct (find_pool_from (S i) ps x) as [j|].
    + destruct IH as (q & Hj & Hq & Hc). exists q. replace (j - i)%nat with (S (j - S i)) by lia. split_and!; [lia|done|done].
    + intros q [->|Hq]%elem_of_cons; [done|by apply IH].
Qed.

(** The pool found for a block of the heap is the one it is in. *)
Lemma heap_find_pool_spec k h m B a o s :
  hstate k h m B -> B !! a = Some (o, s) ->
  exists i p, heap_find_pool h a = Some i /\ pools h !! i = Some p /\ p ∈ pools h /\ base p <= a < pend p.
Proof.
  intros [C _ _ _ _] Ha. destruct (block_in_pool C _ _ _ Ha) as (p & Hp & Hb & He & Hpw).
  assert (K : forall q, q ∈ pools h -> 0 <= pool_order q).
  { intros q Hq. destruct (g_pool _ _ (c_geo _ _ _ _ _ C) _ Hq) as (_ & Hpo & _). consts. lia. }
  pose proof (find_pool_spec (pools h) a 0) as Hf. unfold heap_find_pool. destruct (find_pool_from 0 (pools h) a) as [i|].
  - destruct Hf as (q & _ & Hq & Hc). rewrite Nat.sub_0_r in Hq. pose proof (list_elem_of_lookup_2 _ _ _ Hq) as Hin.
    exists i, q. split_and!; [done..| |]; apply pool_covers_spec in Hc; try apply K; try done; lia.
  - specialize (Hf p Hp). assert (pool_covers p a = true) by (apply pool_covers_spec; [by apply K|lia]). congruence.
Qed.

(** A held block coalesced into the free ones. *)
Lemma heap_coalesce_ok k par h m B a o p :
  core k (pools h) h m B -> has_hdrs (pools h) B -> hdr_cells (pools h) m -> only_hdrs (pools h) B -> (par = true -> k = false) ->
  p ∈ pools h -> base p <= a < pend p -> B !! a = Some (o, Held) -> (forall x o', B !! x = Some (o', Held) -> x = a) ->
  (exists c, ld m a = Some c /\ order c = o) ->
  exists h' m' B', heap_coalesce par h m a (base p) (pool_order p) = Some (h', m') /\ hstate k h' m' B' /\
    stepk (pools h) h m B h' m' B'.
Proof.
  intros C Hh Hc Hon Hpar Hp Hin Ha Hone (c & Hl & Ho). unfold heap_coalesce. rewrite Hl. cbn [mbind option_bind]. rewrite Ho.
  destruct (coalesce_loop_ok k (pools h) p par _ h m B a o C Hh Hc Hpar Hp Ha Hin eq_refl Hone) as (h' & m' & B' & E & C' & S & Hn).
  exists h', m', B'. split; [done|]. split; [|done].
  assert (Ep : pools h' = pools h) by (by rewrite (st_h _ _ _ _ _ _ _ S)).
  split; rewrite ?Ep; [done|by eapply hdrs_step|by eapply hdr_cells_step|done|by eapply only_step].
Qed.

(** Holding a live block. *)
Lemma hold_block k h m B v o s :
  hstate k h m B -> B !! v = Some (o, s) -> s = Live ->
  core k (pools h) h m (<[v := (o, Held)]> B) /\ has_hdrs (pools h) (<[v := (o, Held)]> B) /\
  only_hdrs (pools h) (<[v := (o, Held)]> B) /\
  (forall x o', <[v := (o, Held)]> B !! x = Some (o', Held) -> x = v).
Proof.
  intros [C Hh Hc Hn Hon] Hv ->. split_and!.
  - eapply core_restatus'; done.
  - intros p Hp. rewrite lookup_insert_ne; [by apply Hh|]. intros ->. pose proof (Hh p Hp). congruence.
  - by apply only_insert.
  - intros x o'. rewrite restatus_lookup. case_decide; [done|]. by intros ?%Hn.
Qed.

(** The bookkeeping of a block taken back. *)
Lemma wf_take_back k h m L h' m' B' v o :
  heap_wf k h m L -> L !! v = Some o -> hstate k h' m' B' -> live B' = delete v L -> keeps (delete v L) m m' ->
  bytes_allocated (stats h') = u64 (bytes_allocated (stats h) - BSIZEOF o) -> slab_bounds h' -> heap_wf k h' m' (delete v L).
Proof.
  intros W Hv H HL HK Hb Hs. destruct (wf_live_block _ _ _ _ _ _ W Hv) as (Ho & _). split; [by exists B'| |done|].
  - rewrite Hb, live_bytes_delete with (o := o) by done. rewrite (wf_bytes _ _ _ _ W), BSIZEOF_pow by (consts; lia).
    change (u64 (live_bytes L) - 2 ^ o) with (u64 (live_bytes L) + - 2 ^ o). by rewrite u64_add_l.
  - intros a o' Ha. pose proof Ha as [Hn Ha']%lookup_delete_Some.
    destruct (wf_live_block _ _ _ _ _ _ W Ha') as (_ & _ & _ & Hp & _ & c & Hc & _ & _ & Hm).
    exists c. rewrite (HK a o' a Ha) by lia. done.
Qed.

Lemma free_block_total k par h m L v o :
  heap_wf k h m L -> (par = true -> k = false) -> L !! v = Some o ->
  exists h' m', free_block par h m v = Some (h', m') /\ heap_wf k h' m' (delete v L) /\ keeps (delete v L) m m' /\
    pools h' = pools h.
Proof.
  intros W Hpar Hv. destruct (wf_live_block _ _ _ _ _ _ W Hv) as (Ho & Hal & Hpos & Hpw & _ & c & Hc & Hco & Hrc & _).
  pose proof W as [(B & H & HL) Wb Ws Wm]. pose proof Hv as HB. rewrite <- HL in HB. apply live_lookup in HB.
  unfold free_block. rewrite Hc. cbn [mbind option_bind]. rewrite Hco.
  replace ((o <? RAY_ORDER_MIN) || (RAY_HEAP_MAX_ORDER <? o)) with false by (symmetry; apply orb_false_iff; consts; lia).
  destruct (heap_find_pool_spec _ _ _ _ _ _ _ H HB) as (i0 & p0 & Hf0 & Hi0 & Hp0 & Hin0).
  set (mru := match pools h !! last_pool_idx h with Some _ => _ | None => None end).
  assert (exists i p, (match mru with Some i => Some i | None => heap_find_pool h v end) = Some i /\ pools h !! i = Some p /\
    p ∈ pools h /\ base p <= v < pend p) as (i & p & -> & Hi & Hp & Hin).
  { unfold mru. destruct (pools h !! last_pool_idx h) as [q|] eqn:Eq; [|by exists i0, p0].
    destruct (pool_covers q v) eqn:Ec; [|by exists i0, p0]. pose proof (list_elem_of_lookup_2 _ _ _ Eq) as Hq.
    exists (last_pool_idx h), q. split_and!; try done; apply pool_covers_spec in Ec; try lia;
    destruct (g_pool _ _ (c_geo _ _ _ _ _ (hs_core _ _ _ _ H)) _ Hq) as (_ & Hpo & _); consts; lia. }
  rewrite Hi. cbn [mbind option_bind]. set (h0 := set_last_pool_idx i h).
  destruct (hold_block _ _ _ _ _ _ _ H HB eq_refl) as (C0 & Hh0 & Hon0 & Hone). set (B0 := <[v := (o, Held)]> B) in *.
  assert (Hv0 : B0 !! v = Some (o, Held)) by apply lookup_insert_eq.
  assert (C1 : core k (pools h) h0 m B0) by (eapply core_heap; done).
  assert (HLd : forall B', (forall a o', B' !! a = Some (o', Live) <-> B0 !! a = Some (o', Live)) -> live B' = delete v L).
  { intros B' HB'. apply live_eq. intros a o'. rewrite HB'. unfold B0. rewrite restatus_lookup, lookup_delete.
    repeat case_decide; subst; try done. by rewrite live_lookup. }
  assert (HKd : forall h' m' B', stepk (pools h) h0 m B0 h' m' B' -> keeps (delete v L) m m').
  { intros h' m' B' S a o' x [Hn Ha]%lookup_delete_Some Hx. rewrite <- HL in Ha. apply live_lookup in Ha.
    apply (st_mem _ _ _ _ _ _ _ S a o' Live); try done. unfold B0. by rewrite lookup_insert_ne. }
  destruct (IS_SLAB_ORDER o && (length (default [] (slabs h0 !! SLAB_INDEX o)) <? default 0 (slab_cap h0 !! SLAB_INDEX o))) eqn:Es.
  - apply andb_true_iff in Es as [Eo Elt%Z.ltb_lt]. unfold IS_SLAB_ORDER in Eo. apply andb_true_iff in Eo as [_ Eo%Z.leb_le].
    destruct Ws as (W1 & W2 & W3 & W4). cbn [slabs slab_cap h0 set_last_pool_idx] in *.
    assert (Hidx : (SLAB_INDEX o < 11)%nat) by (unfold SLAB_INDEX; unfold RAY_SLAB_MAX, RAY_SLAB_ORDERS in Eo; consts; lia).
    destruct (lookup_lt_is_Some_2 (slabs h) (SLAB_INDEX o)) as [stack Est]; [lia|].
    destruct (lookup_lt_is_Some_2 (slab_cap h) (SLAB_INDEX o)) as [cp Ecp]; [lia|].
    rewrite Est, Ecp in *. cbn in Elt.
    destruct (upd_ok m v (set_rc 1)) as (m1 & E1); [by exists c|]. rewrite E1. cbn [mbind option_bind].
    assert (Hself : v <= v < v + 2 ^ o) by lia.
    destruct (core_upd_held _ _ _ _ _ _ _ _ _ _ C1 Hv0 Hself E1) as [C2 S2].
    assert (Hld : ld m1 v = Some (set_rc 1 c)) by (by rewrite (ld_upd _ _ _ _ _ E1), decide_True, Hc).
    assert (Eidx : RAY_ORDER_MIN + Z.of_nat (SLAB_INDEX o) = o) by (unfold SLAB_INDEX; consts; lia).
    pose proof (core_slab_push k (pools h) h0 m1 B0 (SLAB_INDEX o) v stack (set_rc 1 c)) as C3. rewrite Eidx in C3.
    specialize (C3 C2 Est Hv0 Hld Hco ltac:(done)).
    eexists _, m1. split; [done|]. split; [|split; [by eapply HKd|done]].
    eapply (wf_take_back k h m L _ _ (<[v := (o, Slab)]> B0)); try done.
    + split; cbn [pools stat_free set_stats set_slabs set_last_pool_idx h0].
      * eapply core_heap; [exact C3|done..].
      * intros q Hq. rewrite lookup_insert_ne; [by apply Hh0|]. intros ->. pose proof (Hh0 q Hq). congruence.
      * eapply hdr_cells_step; [exact S2|done|apply H].
      * intros x o'. rewrite restatus_lookup. case_decide; [done|]. by intros ?%Hone.
      * by apply only_insert.
    + apply HLd. intros a o'. rewrite restatus_lookup. case_decide; [subst|done]. rewrite Hv0. split; intros; simplify_eq.
    + by eapply HKd.
    + unfold slab_bounds. cbn [slabs slab_cap stat_free set_stats set_slabs h0 set_last_pool_idx].
      rewrite length_insert. split_and!; try done. apply Forall_insert; [done|].
      change (default [] (Some stack)) with stack. eapply Forall_lookup_1 in W3; [|done]. cbn [length]. cbv beta in W3. lia.
  - destruct (heap_coalesce_ok k par h0 m B0 v o p) as (h' & m' & B' & E & H' & S); try done.
    { apply H. } { by exists c. }
    rewrite E. cbn [mbind option_bind]. eexists _, m'. split; [done|].
    assert (HK : keeps (delete v L) m m') by (by eapply HKd).
    pose proof (st_h _ _ _ _ _ _ _ S) as Eh.
    split; [|split; [done|]].
    2:{ cbn [pools stat_free set_stats]. by rewrite Eh. }
    eapply (wf_take_back k h m L _ _ B'); try done.
    + by eapply hstate_heap.
    + apply HLd. intros a o'. by apply (st_kept _ _ _ _ _ _ _ S).
    + by rewrite Eh.
    + unfold slab_bounds. rewrite Eh. apply Ws.
Qed.

(** ** The client's writes *)

(** A client writes where it likes in its blocks, but the order and kind of
    their headers, and while it holds them their count is not zero. *)
Definition client_write (L : gmap Z Z) (x : Z) (f : ray_t -> ray_t) : Prop :=
  exists a o, L !! a = Some o /\ a <= x < a + 2 ^ o /\
    (x = a -> forall c, order (f c) = order c /\ mmod (f c) = mmod c /\ rc (f c) <> 0).

Lemma wf_write k h m L x f m' :
  heap_wf k h m L -> client_write L x f -> upd m x f = Some m' -> heap_wf k h m' L.
Proof.
  intros W (a & o & Ha & Hx & Hf) Hu. destruct (wf_live_block _ _ _ _ _ _ W Ha) as (Ho & _ & _ & Hpw & _ & c & Hc & Hco & Hrc & Hmm).
  pose proof W as [(B & H & HL) Wb Ws Wm]. pose proof Ha as HB. rewrite <- HL in HB. apply live_lookup in HB.
  destruct (hold_block _ _ _ _ _ _ _ H HB eq_refl) as (C0 & Hh0 & Hon0 & Hone). set (B0 := <[a := (o, Held)]> B) in *.
  assert (Hv0 : B0 !! a = Some (o, Held)) by apply lookup_insert_eq.
  destruct (core_upd_held _ _ _ _ _ _ _ _ _ _ C0 Hv0 Hx Hu) as [C1 S1].
  assert (EB : <[a := (o, Live)]> B0 = B) by (unfold B0; rewrite insert_insert_eq; by apply insert_id).
  assert (Hcell : exists c', ld m' a = Some c' /\ order c' = o /\ mmod c' = 0 /\ rc c' <> 0).
  { rewrite (ld_upd _ _ _ _ _ Hu). case_decide as E; [|by exists c]. subst x. rewrite Hc. destruct (Hf eq_refl c) as (E1 & E2 & E3).
    exists (f c). split_and!; [done|congruence|congruence|done]. }
  split; [|done|done|].
  - exists B. split; [|done]. split; try apply H.
    + rewrite <- EB. eapply core_restatus'; try done. intros _. destruct Hcell as (c' & ? & ? & _ & ?). by exists c'.
    + by eapply hdr_cells_step, H.
  - intros a' o' Ha'. destruct (decide (a' = a)) as [->|Hn]; [destruct Hcell as (c' & ? & _ & ? & _); by exists c'|].
    destruct (Wm a' o' Ha') as (c' & Hc' & ?). exists c'. split; [|done]. rewrite (ld_upd _ _ _ _ _ Hu). case_decide; [|done]. subst x.
    destruct (wf_live_block _ _ _ _ _ _ W Ha') as (_ & _ & _ & ? & _).
    destruct (wf_live_apart _ _ _ _ _ _ _ _ W Ha Ha'); [done|lia..].
Qed.

Lemma write_keeps k h m L v o x f m' :
  heap_wf k h m L -> L !! v = Some o -> v <= x < v + 2 ^ o -> upd m x f = Some m' -> keeps (delete v L) m m'.
Proof.
  intros W Hv Hx Hu a o' y [Hn Ha]%lookup_delete_Some Hy. rewrite (ld_upd _ _ _ _ _ Hu). case_decide; [subst|done].
  destruct (wf_live_apart _ _ _ _ _ _ _ _ W Hv Ha); [done|lia..].
Qed.

Lemma upd_set_rc m v r n m1 : upd m v (set_rc r) = Some m1 -> upd m1 v (set_rc n) = upd m v (set_rc n).
Proof.
  unfold upd. destruct (ld m v) as [c|] eqn:E; [|done]. cbn [mbind option_bind]. intros [= <-]. unfold ld at 1. cbn [cells].
  rewrite lookup_insert_eq. cbn [mbind option_bind]. by rewrite insert_insert_eq.
Qed.

(** [ray_free] of a block whose count [r] may already be 0, given what the
    release of its owned references does. *)
Lemma ray_free_total k par release mapped_free h m0 m L L2 v o r :
  heap_wf k h m0 L -> (par = true -> k = false) -> L !! v = Some o -> upd m0 v (set_rc r) = Some m ->
  (forall c, ld m v = Some c -> type c <> RAY_ERROR /\ Z.land (attrs c) RAY_ATTR_ARENA = 0) ->
  (forall m1, upd m0 v (set_rc 1) = Some m1 -> heap_wf k h m1 L ->
     exists h2 m2, release h m1 v = Some (h2, m2) /\ heap_wf k h2 m2 L2 /\ L2 !! v = Some o) ->
  exists m1 h2 m2 h' m', upd m0 v (set_rc 1) = Some m1 /\ release h m1 v = Some (h2, m2) /\
    ray_free release mapped_free par h m v = Some (h', m') /\ heap_wf k h' m' (delete v L2) /\ keeps (delete v L2) m2 m'.
Proof.
  intros W Hpar Hv Hu Hkind Hrel. destruct (wf_live_block _ _ _ _ _ _ W Hv) as (Ho & _ & Hpos & Hpw & _ & c0 & Hc0 & _).
  destruct (upd_ok m0 v (set_rc 1)) as (m1 & E1); [by exists c0|].
  assert (W1 : heap_wf k h m1 L).
  { eapply wf_write; [done| |done]. exists v, o. split_and!; [done|lia|lia|]. by intros _ c. }
  destruct (Hrel m1 E1 W1) as (h2 & m2 & E2 & W2 & Hv2).
  destruct (free_block_total k par h2 m2 L2 v o W2 Hpar Hv2) as (h' & m' & E3 & W3 & K3 & _).
  exists m1, h2, m2, h', m'. split_and!; [done|done| |done|done].
  unfold ray_free. destruct (Z.eqb_spec v 0); [lia|].
  assert (Hc : ld m v = Some (set_rc r c0)) by (by rewrite (ld_upd _ _ _ _ _ Hu), decide_True, Hc0).
  destruct (Hkind _ Hc) as [Ht Hat]. rewrite Hc. cbn [mbind option_bind].
  destruct (Z.eqb_spec (type (set_rc r c0)) RAY_ERROR); [done|]. rewrite andb_false_r, Hat, Z.eqb_refl. cbn [negb].
  rewrite (upd_set_rc _ _ _ _ _ Hu), E1. cbn [mbind option_bind]. rewrite E2. cbn [mbind option_bind].
  destruct (wf_live_block _ _ _ _ _ _ W2 Hv2) as (_ & _ & _ & _ & _ & c2 & Hc2 & _ & _ & Hm2).
  rewrite Hc2. cbn [mbind option_bind]. by rewrite Hm2.
Qed.

(** ** Flushing the slabs *)
Record calm (h : ray_heap_t) (m : mem_t) (B : tiling) (h' : ray_heap_t) (m' : mem_t) (B' : tiling) : Prop := {
  ca_h : fl_base h' = fl_base h /\ slab_cap h' = slab_cap h /\ stats h' = stats h /\ pools h' = pools h;
  ca_live : forall a o, B' !! a = Some (o, Live) <-> B !! a = Some (o, Live);
  ca_mem : keeps (live B) m m'
}.

Lemma calm_refl h m B : calm h m B h m B.
Proof. split; try done. Qed.

Lemma calm_trans h1 m1 B1 h2 m2 B2 h3 m3 B3 : calm h1 m1 B1 h2 m2 B2 -> calm h2 m2 B2 h3 m3 B3 -> calm h1 m1 B1 h3 m3 B3.
Proof.
  intros [A1 A2 A3] [D1 D2 D3]. split.
  - naive_solver congruence.
  - intros a o. by rewrite D2.
  - intros a o x Ha Hx. rewrite (D3 a o x); [by eapply A3| |done]. apply live_lookup, A2. by apply live_lookup.
Qed.

Lemma flush_slab_ok k par i : (par = true -> k = false) -> forall stack h m B,
  hstate k h m B -> slabs h !! i = Some stack ->
  exists h' m' B', flush_slab par (length stack) i h m = Some (h', m') /\ hstate k h' m' B' /\ calm h m B h' m' B' /\
    slabs h' = <[i := []]> (slabs h).
Proof.
  intros Hpar. induction stack as [|v stack IH]; intros h m B H Hi.
  - exists h, m, B. split_and!; [done|done|apply calm_refl|by rewrite list_insert_id].
  - cbn [length flush_slab]. rewrite Hi. set (h0 := set_slabs (<[i := stack]> (slabs h)) h).
    destruct (core_slab_pop _ _ _ _ _ _ _ _ (hs_core _ _ _ _ H) Hi) as [Hv C0]. fold h0 in C0.
    set (o := RAY_ORDER_MIN + Z.of_nat i) in *. set (B0 := <[v := (o, Held)]> B) in *.
    destruct (heap_find_pool_spec _ _ _ _ _ _ _ H Hv) as (j & p & Hf & Hj & Hp & Hin).
    unfold block_pool. change (heap_find_pool h0 v) with (heap_find_pool h v). rewrite Hf. cbn [pools h0 set_slabs]. rewrite Hj.
    cbn [mbind option_bind]. destruct H as [C Hh Hc Hn Hon].
    destruct (heap_coalesce_ok k par h0 m B0 v o p) as (h1 & m1 & B1 & E1 & H1 & S1); try done.
    { intros q Hq. unfold B0. rewrite lookup_insert_ne; [by apply Hh|]. intros ->. pose proof (Hh q Hq). congruence. }
    { by apply only_insert. }
    { apply lookup_insert_eq. }
    { intros x o'. unfold B0. rewrite restatus_lookup. case_decide; [done|]. by intros ?%Hn. }
    { destruct (c_blk _ _ _ _ _ C _ _ _ Hv ltac:(done)) as (c & ? & ? & _). by exists c. }
    rewrite E1. cbn [mbind option_bind]. pose proof (st_h _ _ _ _ _ _ _ S1) as Eh.
    assert (Hi1 : slabs h1 !! i = Some stack).
    { rewrite Eh. cbn [slabs set_avail h0 set_slabs]. apply list_lookup_insert_eq. by eapply lookup_lt_Some. }
    destruct (IH h1 m1 B1 H1 Hi1) as (h' & m' & B' & E & H' & S & Esl).
    exists h', m', B'. split_and!; [done|done| |].
    + eapply calm_trans; [|exact S]. split.
      * by rewrite Eh.
      * intros a o'. rewrite (st_kept _ _ _ _ _ _ _ S1) by done. unfold B0. rewrite restatus_lookup. case_decide; [subst|done].
        rewrite Hv. split; intros; simplify_eq.
      * intros a o' x Ha%live_lookup Hx. apply (st_mem _ _ _ _ _ _ _ S1 a o' Live); try done. unfold B0.
        rewrite lookup_insert_ne; [done|congruence].
    + rewrite Esl, Eh. cbn [slabs set_avail h0 set_slabs]. apply list_insert_insert_eq.
Qed.

Lemma flush_slabs_from_ok k par : (par = true -> k = false) -> forall n i h m B,
  hstate k h m B -> (i + n = length (slabs h))%nat ->
  exists h' m' B', flush_slabs_from par n i h m = Some (h', m') /\ hstate k h' m' B' /\ calm h m B h' m' B' /\
    slabs h' = take i (slabs h) ++ replicate n [].
Proof.
  intros Hpar. induction n as [|n IH]; intros i h m B H Hlen; cbn [flush_slabs_from].
  - exists h, m, B. split_and!; [done|done|apply calm_refl|]. rewrite take_ge by lia. by rewrite app_nil_r.
  - destruct (lookup_lt_is_Some_2 (slabs h) i) as [stack Hi]; [lia|].
    assert (Est : default [] (slabs h !! i) = stack) by (by rewrite Hi). rewrite Est.
    destruct (flush_slab_ok k par i Hpar stack h m B H Hi) as (h1 & m1 & B1 & E1 & H1 & S1 & Esl).
    rewrite E1. cbn [mbind option_bind].
    destruct (IH (S i) h1 m1 B1 H1) as (h' & m' & B' & E & H' & S & Es); [rewrite Esl, length_insert; lia|].
    exists h', m', B'. split_and!; [done|done|by eapply calm_trans|]. rewrite Es, Esl.
    rewrite (take_S_r _ _ []) by (rewrite list_lookup_insert_eq; [done|by eapply lookup_lt_Some]).
    rewrite take_insert_ge by lia. rewrite <- app_assoc. done.
Qed.

Lemma heap_flush_slabs_total k par h m L :
  heap_wf k h m L -> (par = true -> k = false) ->
  exists h' m', heap_flush_slabs par h m = Some (h', m') /\ heap_wf k h' m' L /\ keeps L m m' /\
    pools h' = pools h /\ slabs h' = replicate 11 [].
Proof.
  intros W Hpar. pose proof W as [(B & H & HL) Wb (W1 & W2 & W3 & W4) Wm].
  destruct (flush_slabs_from_ok k par Hpar (Z.to_nat RAY_SLAB_ORDERS) 0 h m B H) as (h' & m' & B' & E & H' & S & Es); [by rewrite W1|].
  destruct (ca_h _ _ _ _ _ _ S) as (_ & E1 & E2 & E3). assert (K : keeps L m m') by (subst L; apply S).
  exists h', m'. split_and!; [done| |done|done|done].
  split.
  - exists B'. split; [done|]. apply live_eq. intros a o. rewrite (ca_live _ _ _ _ _ _ S), <- HL. by rewrite live_lookup.
  - by rewrite E2.
  - unfold slab_bounds. rewrite E1, Es. split_and!; [done|done|done|]. cbn. repeat constructor; done.
  - intros a o Ha. destruct (Wm a o Ha) as (c & Hc & ?). exists c. split; [|done].
    destruct (wf_live_block _ _ _ _ _ _ W Ha) as (_ & _ & _ & ? & _). rewrite (K a o a Ha); [done|lia].
Qed.
