(* ===== verification/BuddyMain.v ===== *)
(** * The buddy heap: the theorems ([src/mem/heap.c])

    The heaps reachable from [ray_heap_init] by allocations, releases, flushes
    and the client's writes into its own blocks: they are safe, every operation
    on them ends, and when all is given back the pools are whole again. *)
From Stdlib Require Import ZArith Lia.
From stdpp Require Import gmap.
From S2P Require Import Prelude HeapMem Buddy BuddyGeo BuddyInv BuddyOps BuddyHeap BuddySpec.

(** ** Start *)
Lemma fl_init_ok m h :
  is_Some (ld m h) -> exists m', fl_init m h = Some m' /\ same_map m m' /\ link m' h h /\ forall x, x <> h -> ld m' x = ld m x.
Proof.
  intros Hh. unfold fl_init. destruct (upd_ok m h (set_prev h)) as (m1 & E1); [done|]. rewrite E1. cbn [mbind option_bind].
  destruct (upd_ok m1 h (set_next h)) as (m2 & E2); [by eapply upd_mapped|]. exists m2. split; [done|].
  split; [etrans; by eapply upd_same_map|]. destruct Hh as [c Hc]. split.
  - unfold link, nxt, prv. rewrite (ld_upd _ _ _ _ _ E2), decide_True, (ld_upd _ _ _ _ _ E1), decide_True, Hc by done. done.
  - intros x Hx. by rewrite (ld_upd _ _ _ _ _ E2), decide_False, (ld_upd _ _ _ _ _ E1), decide_False.
Qed.

Lemma init_lists_ok m fl n :
  (forall i, 0 <= i < Z.of_nat n -> is_Some (ld m (fl + 32 * i))) ->
  exists m', init_lists n m fl = Some m' /\ same_map m m' /\
    (forall i, 0 <= i < Z.of_nat n -> link m' (fl + 32 * i) (fl + 32 * i)).
Proof.
  induction n as [|n IH]; intros Hm; cbn [init_lists].
  - exists m. split_and!; [done|done|]. intros; lia.
  - destruct IH as (m1 & E1 & S1 & L1); [intros i Hi; apply Hm; lia|]. rewrite E1. cbn [mbind option_bind].
    destruct (fl_init_ok m1 (fl + 32 * Z.of_nat n)) as (m2 & E2 & S2 & L2 & F2); [apply S1, Hm; lia|].
    exists m2. split; [done|]. split; [by etrans|]. intros i Hi.
    destruct (Z.eq_dec i (Z.of_nat n)) as [->|Hn]; [done|]. unfold link, nxt, prv. rewrite F2 by lia. apply L1. lia.
Qed.

Lemma slab_cap_of_bound budget i : slab_cap_of budget i <= RAY_SLAB_CACHE_SIZE.
Proof.
  unfold slab_cap_of. cbv zeta. generalize (if budget / BSIZEOF (RAY_ORDER_MIN + Z.of_nat i) <? 1 then 1 else budget / BSIZEOF (RAY_ORDER_MIN + Z.of_nat i)).
  intros c. destruct (Z.ltb_spec RAY_SLAB_CACHE_SIZE c); lia.
Qed.

Lemma ray_heap_init_total k m fl id budget :
  (forall i, 0 <= i < RAY_HEAP_FL_SIZE -> is_Some (ld m (fl + 32 * i))) ->
  exists h m', ray_heap_init m fl id budget = Some (h, m') /\ heap_wf k h m' ∅.
Proof.
  intros Hm. unfold ray_heap_init. destruct (init_lists_ok m fl (Z.to_nat RAY_HEAP_FL_SIZE)) as (m' & E & S & Ll); [exact Hm|].
  rewrite E. cbn [mbind option_bind]. eexists _, m'. split; [done|]. split.
  - exists ∅. split; [|done]. split; cbn [pools]; try (intros ? ?%not_elem_of_nil; done); try (intros ?; rewrite lookup_empty; done).
    split.
    + split; try (intros ? ?%not_elem_of_nil; done); try done. intros p x Hp. by apply not_elem_of_nil in Hp.
    + intros p x Hp. by apply not_elem_of_nil in Hp.
    + intros o p _ Hp. by apply not_elem_of_nil in Hp.
    + done.
    + intros o Ho. exists []. split; [|intros a; split; [by intros ?%not_elem_of_nil|done]].
      split; [apply NoDup_singleton|]. cbn [app chain]. split; [|done]. by apply Ll.
    + done.
    + intros o. cbn [avail]. by rewrite Z.bits_0.
    + intros i st Hi. cbn [slabs] in Hi. apply lookup_replicate in Hi as [-> _]. split; [apply NoDup_nil_2|].
      intros a. split; [by intros ?%not_elem_of_nil|done].
    + done.
    + done.
  - done.
  - split_and!; cbn [slabs slab_cap]; [done|done| |].
    + apply Forall_fmap, Forall_true. intros i. apply slab_cap_of_bound.
    + apply Forall_replicate. done.
  - done.
Qed.

(** ** Reachable heaps *)

(** [par] says whether parallel sections are allowed.  A release runs in two
    parts: the count of the block is set to 1, what it owns is released ([h2],
    [m2]), and the block is returned; [r] is the count [ray_free] finds. *)
Inductive heap_reach (vm : vm_env) (par : bool) : ray_heap_t -> mem_t -> gmap Z Z -> Prop :=
| hr_init m fl id budget h m' :
    (forall i, 0 <= i < RAY_HEAP_FL_SIZE -> is_Some (ld m (fl + 32 * i))) ->
    ray_heap_init m fl id budget = Some (h, m') -> heap_reach vm par h m' ∅
| hr_alloc h m L size v h' m' :
    heap_reach vm par h m L -> 0 <= size < 2 ^ 64 -> ray_alloc vm h m size = Some (v, h', m') ->
    heap_reach vm par h' m' (if v =? 0 then L else <[v := ray_order_for_size size]> L)
| hr_write h m L x f m' :
    heap_reach vm par h m L -> client_write L x f -> upd m x f = Some m' -> heap_reach vm par h m' L
| hr_free h m0 L v o r m m1 p release mapped_free h2 m2 L2 h' m' :
    heap_reach vm par h m0 L -> L !! v = Some o -> upd m0 v (set_rc r) = Some m -> upd m0 v (set_rc 1) = Some m1 ->
    (forall c, ld m v = Some c -> type c <> RAY_ERROR /\ Z.land (attrs c) RAY_ATTR_ARENA = 0) -> (p = true -> par = true) ->
    release h m1 v = Some (h2, m2) -> heap_reach vm par h2 m2 L2 -> L2 !! v = Some o ->
    ray_free release mapped_free p h m v = Some (h', m') -> heap_reach vm par h' m' (delete v L2)
| hr_flush h m L p h' m' :
    heap_reach vm par h m L -> (p = true -> par = true) -> heap_flush_slabs p h m = Some (h', m') ->
    heap_reach vm par h' m' L.

Lemma heap_reach_wf vm par h m L : vm_ok vm -> heap_reach vm par h m L -> heap_wf (negb par) h m L.
Proof.
  intros V R. induction R as [m fl id budget h m' Hm E|h m L size v h' m' R IH Hs E|h m L x f m' R IH Hw E|
    h m0 L v o r m m1 p release mapped_free h2 m2 L2 h' m' R IH Hv E0 E1 Hk Hp E2 R2 IH2 Hv2 E|h m L p h' m' R IH Hp E].
  - destruct (ray_heap_init_total (negb par) m fl id budget Hm) as (h1 & m1 & E' & W). congruence.
  - destruct (ray_alloc_total _ _ _ _ _ _ V IH Hs) as (v' & h1 & m1 & E' & _ & [(-> & _ & W)|(W & _ & Hpos & _)]);
    rewrite E in E'; injection E' as -> -> ->; [done|]. by destruct (Z.eqb_spec v' 0); [lia|].
  - by eapply wf_write.
  - destruct (ray_free_total (negb par) p release mapped_free h m0 m L L2 v o r) as (m1' & h2' & m2' & h1 & m3 & _ & _ & E' & W & _); try done.
    { intros ->. by rewrite Hp. }
    { intros m1' E1' _. exists h2, m2. split_and!; [|done|done]. congruence. }
    congruence.
  - destruct (heap_flush_slabs_total (negb par) p h m L) as (h1 & m1 & E' & W & _); [done|intros ->; by rewrite Hp|]. congruence.
Qed.

(** ** A drained heap *)
Section drained.
Context {h : ray_heap_t} {m : mem_t} {B : tiling} (H : hstate true h m B)
  (Hall : forall a o s, B !! a = Some (o, s) -> s = Hdr \/ s = Free).

(** Past its header a pool is covered by free blocks: an aligned range lies in
    one, for two halves in two free buddies would have been joined. *)
Lemma free_chunk p c i :
  p ∈ pools h -> RAY_ORDER_MIN <= i -> aligned c i -> base p < c -> c + 2 ^ i <= pend p ->
  exists a o, B !! a = Some (o, Free) /\ i <= o /\ a <= c /\ c + 2 ^ i <= a + 2 ^ o.
Proof using H Hall.
  intros Hp Hi. pose proof (c_geo _ _ _ _ _ (hs_core _ _ _ _ H)) as G.
  destruct (g_pool _ _ G _ Hp) as (Hpos & Hpo & Hpal). consts.
  assert (Hbase : forall o d, B !! d = Some (o, Hdr) -> d = base p \/ forall x, d <= x < d + 2 ^ o -> ~ (base p <= x < pend p)).
  { intros o d Hd. destruct (hs_only _ _ _ _ H d o Hd) as (q & Hq & ->). destruct (decide (base q = base p)) as [|Hne]; [by left|right].
    intros x Hx Hin. apply Hne. destruct (geo_lt_pool G q (base q) o Hdr Hq (hs_hdrs _ _ _ _ H q Hq) Hd) as [_ He].
    { unfold pend. pose proof (pow2_pos (pool_order q)). destruct (g_pool _ _ G _ Hq) as (_ & ? & _). consts. lia. }
    apply list_elem_of_lookup in Hp as [ip Hip], Hq as [iq Hiq]. destruct (decide (ip = iq)) as [->|Hn]; [congruence|].
    destruct (g_apart _ _ G _ _ _ _ Hip Hiq Hn); lia. }
  revert c. replace i with (6 + Z.of_nat (Z.to_nat (i - 6))) by lia. generalize (Z.to_nat (i - 6)). clear i Hi. intros n.
  induction n as [|n IH]; intros c Hal Hc He.
  - rewrite Z.add_0_r in *. change (2 ^ 6) with 64 in *.
    destruct (g_cover _ _ G p c Hp) as (a & o & s & Ha & Hac); [lia|]. destruct (geo_order G _ _ _ Ha) as [Ho _].
    destruct (g_blk _ _ G _ _ _ Ha) as (_ & Haal & _).
    destruct (dyadic_nest c 6 a o) as [H1 H2]; [lia|done|done|lia|change (2 ^ 6) with 64; lia|]. change (2 ^ 6) with 64 in H2.
    destruct (Hall _ _ _ Ha) as [->| ->]; [|by exists a, o].
    exfalso. destruct (Hbase o a Ha) as [->|Hx]; [|apply (Hx c); lia].
    pose proof (hs_hdrs _ _ _ _ H p Hp) as Hb. simplify_eq. consts. change (2 ^ 6) with 64 in *. lia.
  - set (i := 6 + Z.of_nat n) in *. replace (6 + Z.of_nat (S n)) with (i + 1) in * by lia.
    rewrite pow2_succ in * by lia. pose proof (pow2_pos i ltac:(lia)).
    assert (Hali : aligned c i) by (eapply aligned_mono; [|done]; lia).
    destruct (IH c) as (a1 & o1 & B1 & O1 & L1 & U1); [done|lia|lia|].
    destruct (IH (c + 2 ^ i)) as (a2 & o2 & B2 & O2 & L2 & U2); [apply aligned_add; [lia|done|apply aligned_pow; lia]|lia|lia|].
    destruct (g_blk _ _ G _ _ _ B1) as (_ & A1 & _), (g_blk _ _ G _ _ _ B2) as (_ & A2 & _).
    destruct (Z.eq_dec o1 i) as [->|N1].
    + destruct (Z.eq_dec o2 i) as [->|N2].
      * exfalso. assert (a1 = c) as -> by lia. assert (a2 = c + 2 ^ i) as -> by lia.
        by apply (c_canon _ _ _ _ _ (hs_core _ _ _ _ H) eq_refl c i).
      * exists a2, o2. destruct (dyadic_nest c (i + 1) a2 o2); [lia|done|done|lia|rewrite pow2_succ by lia; lia|].
        rewrite pow2_succ in * by lia. split_and!; [done|lia|lia|lia].
    + exists a1, o1. destruct (dyadic_nest c (i + 1) a1 o1); [lia|done|done|lia|rewrite pow2_succ by lia; lia|].
      rewrite pow2_succ in * by lia. split_and!; [done|lia|lia|lia].
Qed.

Lemma drained_block p i : p ∈ pools h -> RAY_ORDER_MIN <= i < pool_order p -> B !! (base p + 2 ^ i) = Some (i, Free).
Proof using H Hall.
  intros Hp Hi. pose proof (c_geo _ _ _ _ _ (hs_core _ _ _ _ H)) as G.
  destruct (g_pool _ _ G _ Hp) as (Hpos & Hpo & Hpal). consts. pose proof (pow2_pos i ltac:(lia)).
  assert (Hai : aligned (base p) (i + 1)) by (eapply aligned_mono; [|done]; lia).
  pose proof (pow2_le (i + 1) (pool_order p) ltac:(lia)) as Hle. rewrite pow2_succ in Hle by lia.
  destruct (free_chunk p (base p + 2 ^ i) i) as (a & o & Ha & Ho & Hl & Hu); [done|consts; lia| |lia|unfold pend; lia|].
  { apply aligned_add; [lia|by eapply aligned_mono; [|done]; lia|apply aligned_pow; lia]. }
  destruct (g_blk _ _ G _ _ _ Ha) as (_ & Haal & _).
  destruct (Z.eq_dec o i) as [->|Hn]; [by replace (base p + 2 ^ i) with a by lia|]. exfalso.
  destruct (dyadic_nest (base p) (i + 1) a o) as [H1 H2]; [lia|done|done|lia|rewrite pow2_succ by lia; lia|].
  rewrite pow2_succ in H2 by lia.
  destruct (geo_unique G (base p) 6 Hdr a o Free (base p) (hs_hdrs _ _ _ _ H p Hp) Ha) as (_ & _ & E); [lia|lia|done].
Qed.

Lemma drained_only a i : B !! a = Some (i, Free) -> exists p, p ∈ pools h /\ i < pool_order p /\ a = base p + 2 ^ i.
Proof using H Hall.
  intros Ha. pose proof (c_geo _ _ _ _ _ (hs_core _ _ _ _ H)) as G.
  destruct (g_blk _ _ G _ _ _ Ha) as (Ho & Haal & p & Hp & Hb & He). destruct (geo_order G _ _ _ Ha) as [_ Hpw].
  destruct (g_pool _ _ G _ Hp) as (Hpos & Hpo & Hpal). pose proof (hs_hdrs _ _ _ _ H p Hp) as Hh. consts.
  assert (Hgap : base p + 64 <= a).
  { destruct (decide (a = base p)) as [->|Hne]; [congruence|]. destruct (g_disj _ _ G _ _ _ _ _ _ Hh Ha); [done| |lia].
    change (2 ^ 6) with 64 in *. lia. }
  destruct (Z.log2_spec (a - base p)) as [L1 L2]; [lia|]. set (j := Z.log2 (a - base p)) in *. unfold Z.succ in L2.
  assert (Hj : 6 <= j) by (apply (Z.log2_le_pow2 (a - base p) 6); [lia|change (2 ^ 6) with 64; lia]).
  assert (Hjp : j < pool_order p).
  { destruct (Z_lt_ge_dec j (pool_order p)) as [|Hge]; [done|]. pose proof (pow2_le (pool_order p) j ltac:(lia)).
    unfold pend in He. lia. }
  pose proof (drained_block p j Hp ltac:(consts; lia)) as Hd. rewrite pow2_succ in L2 by lia.
  destruct (geo_unique G a i Free (base p + 2 ^ j) j Free a Ha Hd) as (Ea & Ei & _); [lia|lia|].
  exists p. subst i. split_and!; [done|lia|congruence].
Qed.

End drained.

(** C16. When a heap used outside parallel sections has got every block back,
    flushing its slabs leaves each pool as it was when it was mapped: the list
    of an order holds exactly one block of each larger pool, the right half of
    that cut, so coalescing loses no memory to fragmentation whatever the
    order of allocations and releases was. *)
Theorem heap_drained vm h m h' m' :
  vm_ok vm -> heap_reach vm false h m ∅ -> heap_flush_slabs false h m = Some (h', m') ->
  pools h' = pools h /\
  forall i, RAY_ORDER_MIN <= i < RAY_HEAP_FL_SIZE ->
    exists l, dll m' (freelist h' i) l /\
      forall a, a ∈ l <-> exists p, p ∈ pools h' /\ i < pool_order p /\ a = base p + 2 ^ i.
Proof.
  intros V R E. pose proof (heap_reach_wf _ _ _ _ _ V R) as W.
  destruct (heap_flush_slabs_total _ false _ _ _ W) as (h1 & m1 & E' & W' & _ & Ep & Es); [done|].
  rewrite E in E'. injection E' as <- <-. split; [done|].
  destruct (wf_state _ _ _ _ W') as (B & H & HL).
  assert (Hall : forall a o s, B !! a = Some (o, s) -> s = Hdr \/ s = Free).
  { intros a o s Ha. destruct s; [by left| |by right| |by apply (hs_none _ _ _ _ H) in Ha].
    - apply live_lookup in Ha. by rewrite HL in Ha.
    - destruct (c_slab_of _ _ _ _ _ (hs_core _ _ _ _ H) _ _ Ha) as [st Hst].
      pose proof Hst as Hst'. rewrite Es in Hst'. apply lookup_replicate in Hst' as [-> _].
      destruct (c_slab _ _ _ _ _ (hs_core _ _ _ _ H) _ _ Hst) as [_ Hin].
      destruct (g_blk _ _ (c_geo _ _ _ _ _ (hs_core _ _ _ _ H)) _ _ _ Ha) as (Ho & _). consts.
      exfalso. apply (not_elem_of_nil a), Hin. rewrite Ha. do 2 f_equal. unfold SLAB_INDEX. consts. lia. }
  intros i Hi. destruct (c_list _ _ _ _ _ (hs_core _ _ _ _ H) i) as (l & Hl & Hin); [consts; lia|]. exists l. split; [done|].
  intros a. rewrite Hin. split; [by apply (drained_only H Hall)|]. intros (p & Hp & Hlt & ->). by apply (drained_block H Hall); [|lia].
Qed.

(** ** Safety of the reachable heaps *)

(** C15. Whatever the client allocates, frees and writes in its blocks, every
    reachable heap is sound: the blocks it has handed out lie in its pools,
    aligned to their size and apart from each other, with their headers
    intact; the slab stacks stay inside their arrays and the byte count is the
    sum of the blocks; and every next allocation, release and flush ends
    without touching unmapped memory. *)
Theorem heap_reachable_safe vm par h m L :
  vm_ok vm -> heap_reach vm par h m L ->
  (forall a o, L !! a = Some o -> aligned a o /\
     (exists p, p ∈ pools h /\ base p <= a /\ a + 2 ^ o <= pend p) /\
     exists c, ld m a = Some c /\ order c = o /\ rc c <> 0) /\
  (forall a o a' o', L !! a = Some o -> L !! a' = Some o' -> a <> a' -> a + 2 ^ o <= a' \/ a' + 2 ^ o' <= a) /\
  slab_bounds h /\ bytes_allocated (stats h) = u64 (live_bytes L) /\
  (forall size, 0 <= size < 2 ^ 64 -> is_Some (ray_alloc vm h m size)) /\
  (forall v o p, L !! v = Some o -> (p = true -> par = true) -> is_Some (free_block p h m v)) /\
  (forall p, (p = true -> par = true) -> is_Some (heap_flush_slabs p h m)).
Proof.
  intros V R. pose proof (heap_reach_wf _ _ _ _ _ V R) as W.
  assert (Hk : forall p : bool, (p = true -> par = true) -> p = true -> negb par = false) by (intros p Hp ->; by rewrite Hp).
  split_and!; [| |apply W|apply W| | |].
  - intros a o Ha. destruct (wf_live_block _ _ _ _ _ _ W Ha) as (_ & ? & _ & _ & ? & c & ? & ? & ? & _). eauto 10.
  - intros a o a' o'. by eapply wf_live_apart.
  - intros size Hs. destruct (ray_alloc_total _ _ _ _ _ _ V W Hs) as (v & h' & m' & -> & _). by eexists.
  - intros v o p Hv Hp. destruct (free_block_total _ p _ _ _ _ _ W (Hk p Hp) Hv) as (h' & m' & -> & _). by eexists.
  - intros p Hp. destruct (heap_flush_slabs_total _ p _ _ _ W (Hk p Hp)) as (h' & m' & -> & _). by eexists.
Qed.

(** C26. An allocation returns a block that is new, aligned to its size, apart
    from every live block, of the least order that holds the data and the
    header, with a cleared header and a count of one; or it returns null with
    the heap still sound, and only when the block would need a pool that
    cannot be had.  Either way no byte of a live block changes. *)
Theorem ray_alloc_spec k vm h m L size :
  vm_ok vm -> heap_wf k h m L -> 0 <= size < 2 ^ 64 ->
  let o := ray_order_for_size size in
  exists v h' m', ray_alloc vm h m size = Some (v, h', m') /\ keeps L m m' /\
    (v = 0 /\ heap_wf k h' m' L /\
       (RAY_MAX_POOLS <= length (pools h) \/ RAY_HEAP_MAX_ORDER <= o \/
        exists a, pool_mapping vm (set_avail a h) m (BSIZEOF (pool_order_for o)) = None) \/
     v <> 0 /\ heap_wf k h' m' (<[v := o]> L) /\ L !! v = None /\ aligned v o /\
       (forall a o', L !! a = Some o' -> a + 2 ^ o' <= v \/ v + 2 ^ o <= a) /\
       ld m' v = Some (Blk 0 0 o 0 0 0 1) /\
       size + 32 <= 2 ^ o /\ (RAY_ORDER_MIN < o -> 2 ^ (o - 1) < size + 32)).
Proof.
  intros V W Hs o. destruct (ray_order_for_size_spec size Hs) as (_ & Hfit & _). fold o in Hfit.
  destruct (ray_alloc_total _ _ _ _ _ _ V W Hs) as (v & h' & m' & E & K & R). fold o in R.
  exists v, h', m'. split; [done|]. split; [done|]. destruct R as [(-> & Hr & W')|(W' & Hv & Hpos & Hal & Hap & Hld)]; [by left|right].
  destruct (wf_live_block _ _ _ _ v o W') as (Ho & _); [apply lookup_insert_eq|].
  destruct Hfit as [F1 F2]; [consts; lia|]. split_and!; try done. lia.
Qed.

(** C27. [ray_free] sets the count of the block to one whatever it finds there,
    so that what the release of its owned references frees cannot be joined
    with it; then it takes the block back: the heap is sound without it, its
    bytes are no longer counted, and no byte of a live block changes. *)
Theorem ray_free_spec k par release mapped_free h m0 m L L2 v o r :
  heap_wf k h m0 L -> (par = true -> k = false) -> L !! v = Some o -> upd m0 v (set_rc r) = Some m ->
  (forall c, ld m v = Some c -> type c <> RAY_ERROR /\ Z.land (attrs c) RAY_ATTR_ARENA = 0) ->
  (forall m1, upd m0 v (set_rc 1) = Some m1 -> heap_wf k h m1 L ->
     exists h2 m2, release h m1 v = Some (h2, m2) /\ heap_wf k h2 m2 L2 /\ L2 !! v = Some o) ->
  exists m1 h2 m2 h' m', upd m0 v (set_rc 1) = Some m1 /\ release h m1 v = Some (h2, m2) /\
    ray_free release mapped_free par h m v = Some (h', m') /\ heap_wf k h' m' (delete v L2) /\ keeps (delete v L2) m2 m' /\
    bytes_allocated (stats h') = u64 (bytes_allocated (stats h2) - 2 ^ o).
Proof.
  intros W Hpar Hv Hu Hkind Hrel.
  destruct (ray_free_total _ _ _ mapped_free _ _ _ _ _ _ _ _ W Hpar Hv Hu Hkind Hrel) as (m1 & h2 & m2 & h' & m' & E1 & E2 & E3 & W3 & K3).
  exists m1, h2, m2, h', m'. split_and!; try done.
  assert (W1 : heap_wf k h m1 L).
  { destruct (wf_live_block _ _ _ _ _ _ W Hv) as (_ & _ & _ & Hp & _).
    eapply wf_write; [exact W| |done]. exists v, o. split_and!; [done|lia|lia|]. by intros _ c. }
  destruct (Hrel m1 E1 W1) as (h2' & m2' & E2' & W2 & Hv2). rewrite E2 in E2'. injection E2' as <- <-.
  rewrite (wf_bytes _ _ _ _ W3), (wf_bytes _ _ _ _ W2), live_bytes_delete with (o := o) by done.
  symmetry. apply (u64_add_l (live_bytes L2) (- 2 ^ o)).
Qed.

(** ** Concrete runs *)

(** A system that maps above everything in use. *)
Definition mem_top (m : mem_t) : Z :=
  Z.max (foldr (fun r acc => Z.max (r.1 + r.2) acc) 1 (regions m)) (map_fold (fun a _ acc => Z.max (a + 1) acc) 1 (cells m)).

Definition bump_vm : vm_env := {|
  vm_mmap m n := let a := mem_top m in if a + n <? 2 ^ 64 then Some a else None;
  vm_swap_file _ _ _ := false;
  vm_reserve _ _ := None;
  vm_map_fixed _ _ := false
|}.

Lemma mem_top_above m x : mem_top m <= x -> ld m x = None /\ 1 <= x.
Proof.
  unfold mem_top. intros Hx. split.
  - assert (Hc : cells m !! x = None).
    { assert (K : forall a c, cells m !! a = Some c -> a < map_fold (fun a _ acc => Z.max (a + 1) acc) 1 (cells m)).
      { intros a c Ha. rewrite <- (insert_delete_id _ _ _ Ha), map_fold_insert_L; [lia| |apply lookup_delete_eq]. intros; lia. }
      destruct (cells m !! x) as [c|] eqn:E; [|done]. apply K in E. lia. }
    unfold ld. rewrite Hc. replace (mapped m x) with false; [done|]. symmetry. unfold mapped. apply andb_false_iff. right.
    apply not_true_iff_false. rewrite existsb_exists. intros ([b n] & Hin & Hr). cbn in Hr.
    apply andb_true_iff in Hr as [_ Hr%Z.ltb_lt].
    assert (b + n <= foldr (fun r acc => Z.max (r.1 + r.2) acc) 1 (regions m)); [|lia].
    clear - Hin. induction (regions m) as [|q l IH]; [done|]. cbn [foldr]. destruct Hin as [->|Hin]; [cbn; lia|]. specialize (IH Hin). lia.
  - assert (1 <= foldr (fun r acc => Z.max (r.1 + r.2) acc) 1 (regions m)); [|lia]. clear Hx.
    induction (regions m); cbn [foldr]; lia.
Qed.

Lemma bump_vm_ok : vm_ok bump_vm.
Proof.
  split; [|done]. intros m n a. cbn. destruct (Z.ltb_spec (mem_top m + n) (2 ^ 64)); [|done]. intros [= <-].
  split_and!; [|done|].
  - destruct (mem_top_above m (mem_top m)); [done|lia].
  - intros x Hx. apply mem_top_above. lia.
Qed.

Definition demo_mem : mem_t := Mem [] (list_to_map ((fun i => (4096 + 32 * Z.of_nat i, zero_blk)) <$> seq 0 39)).

Definition demo_heap : ray_heap_t * mem_t :=
  default (Heap 0 0 0 0 [] [] (Stats 0 0 0 0 0) [] 0, demo_mem) (ray_heap_init demo_mem 4096 1 RAY_SLAB_BUDGET).

Lemma demo_init : ray_heap_init demo_mem 4096 1 RAY_SLAB_BUDGET = Some demo_heap.
Proof. vm_compute. reflexivity. Qed.

Lemma demo_heads i : 0 <= i < RAY_HEAP_FL_SIZE -> is_Some (ld demo_mem (4096 + 32 * i)).
Proof.
  intros Hi. exists zero_blk. unfold ld, demo_mem. cbn [cells].
  rewrite (elem_of_list_to_map_1 _ (4096 + 32 * i) zero_blk); [done| |].
  - rewrite <- list_fmap_compose. apply NoDup_fmap_2_strong; [|apply NoDup_seq]. intros x y _ _. cbn. lia.
  - apply list_elem_of_fmap. exists (Z.to_nat i). split; [f_equal; lia|]. apply elem_of_seq. consts. lia.
Qed.

Lemma demo_reach par : heap_reach bump_vm par demo_heap.1 demo_heap.2 ∅.
Proof. eapply hr_init; [exact demo_heads|]. rewrite demo_init. by destruct demo_heap. Qed.

Definition no_refs (h : ray_heap_t) (m : mem_t) (_ : Z) : option (ray_heap_t * mem_t) := Some (h, m).

(** The last reference to an object that owns nothing. *)
Lemma reach_release vm par h m L v o c :
  vm_ok vm -> heap_reach vm par h m L -> L !! v = Some o -> ld m v = Some c -> rc_exempt c v = false -> rc c = 1 ->
  exists h' m', ray_release no_refs no_refs false h m v = Some (h', m') /\ heap_reach vm par h' m' (delete v L).
Proof.
  intros V R Hv Hc Hex Hrc. pose proof (heap_reach_wf _ _ _ _ _ V R) as W.
  destruct (wf_live_block _ _ _ _ _ _ W Hv) as (_ & _ & Hpos & Hp & (p & Hpp & _) & _).
  destruct (upd_ok m v (set_rc 0)) as (m0 & E0); [by exists c|].
  assert (Hc0 : ld m0 v = Some (set_rc 0 c)) by (by rewrite (ld_upd _ _ _ _ _ E0), decide_True, Hc).
  assert (Hv31 : 31 < v).
  { destruct (wf_live_block _ _ _ _ _ _ W Hv) as ([Ho _] & Hal & _). apply aligned_mul in Hal as [q ->]; [|consts; lia].
    pose proof (pow2_le 6 o ltac:(consts; lia)). change (2 ^ 6) with 64 in *.
    assert (1 <= q) by nia. nia. }
  apply orb_false_iff in Hex as [Ht Ha%negb_false_iff%Z.eqb_eq]. rewrite (proj2 (Z.ltb_lt 31 v) Hv31) in Ht. cbn [andb] in Ht. apply Z.eqb_neq in Ht.
  assert (Hk : forall c', ld m0 v = Some c' -> type c' <> RAY_ERROR /\ Z.land (attrs c') RAY_ATTR_ARENA = 0).
  { intros c' Hc'. rewrite Hc0 in Hc'. injection Hc' as <-. done. }
  destruct (upd_ok m v (set_rc 1)) as (m1 & E1); [by exists c|].
  assert (W1 : heap_reach vm par h m1 L).
  { eapply hr_write; [exact R| |exact E1]. exists v, o. split_and!; [done|lia|lia|]. by intros _ d. }
  destruct (ray_free_total (negb par) false no_refs no_refs h m m0 L L v o 0) as (m1' & h2 & m2 & h' & m' & F1 & F2 & F3 & _); try done.
  { intros m1' _ Wm. by exists h, m1'. }
  rewrite E1 in F1. injection F1 as <-. injection F2 as <- <-.
  exists h', m'. split.
  - unfold ray_release. destruct (Z.eqb_spec v 0); [lia|]. rewrite Hc. cbn [mbind option_bind]. unfold rc_exempt.
    rewrite (proj2 (Z.eqb_neq _ _) Ht), andb_false_r, Ha, Hrc. cbn [negb orb Z.eqb]. change (u32 (1 - 1)) with 0. rewrite E0. exact F3.
  - eapply (hr_free vm par h m L v o 0 m0 m1 false no_refs no_refs h m1 L); done.
Qed.

(** Two blocks, one of the slab orders and one with a pool of its own; both
    released, and the slabs flushed. *)
Definition dm0 : Z * ray_heap_t * mem_t := (0, demo_heap.1, demo_heap.2).
Definition dm1 : Z * ray_heap_t * mem_t := default dm0 (ray_alloc bump_vm dm0.1.2 dm0.2 100).
Definition dm2 : Z * ray_heap_t * mem_t := default dm0 (ray_alloc bump_vm dm1.1.2 dm1.2 40000000).
Definition dm3 : ray_heap_t * mem_t := default demo_heap (ray_release no_refs no_refs false dm2.1.2 dm2.2 dm1.1.1).
Definition dm4 : ray_heap_t * mem_t := default demo_heap (ray_release no_refs no_refs false dm3.1 dm3.2 dm2.1.1).
Definition dm5 : ray_heap_t * mem_t := default demo_heap (heap_flush_slabs false dm4.1 dm4.2).
Definition dmL1 : gmap Z Z := <[dm1.1.1 := ray_order_for_size 100]> ∅.
Definition dmL2 : gmap Z Z := <[dm2.1.1 := ray_order_for_size 40000000]> dmL1.

Lemma dm1_reach : heap_reach bump_vm false dm1.1.2 dm1.2 dmL1.
Proof.
  assert (E : ray_alloc bump_vm dm0.1.2 dm0.2 100 = Some (dm1.1.1, dm1.1.2, dm1.2)) by (vm_compute; reflexivity).
  pose proof (hr_alloc bump_vm false _ _ ∅ 100 _ _ _ (demo_reach false) ltac:(lia) E) as R.
  replace (dm1.1.1 =? 0) with false in R by (vm_compute; reflexivity). exact R.
Qed.

Lemma dm2_reach : heap_reach bump_vm false dm2.1.2 dm2.2 dmL2.
Proof.
  assert (E : ray_alloc bump_vm dm1.1.2 dm1.2 40000000 = Some (dm2.1.1, dm2.1.2, dm2.2)) by (vm_compute; reflexivity).
  pose proof (hr_alloc bump_vm false _ _ dmL1 40000000 _ _ _ dm1_reach ltac:(lia) E) as R.
  replace (dm2.1.1 =? 0) with false in R by (vm_compute; reflexivity). exact R.
Qed.

Lemma pair_proj {A B} (p : A * B) a b : p = (a, b) -> p.1 = a /\ p.2 = b.
Proof. by intros ->. Qed.

Lemma dm4_reach : heap_reach bump_vm false dm4.1 dm4.2 ∅ /\ heap_flush_slabs false dm4.1 dm4.2 = Some dm5.
Proof.
  split; [|vm_compute; reflexivity].
  destruct (reach_release _ _ _ _ _ dm1.1.1 8 (Blk 0 0 8 0 0 0 1) bump_vm_ok dm2_reach) as (h3 & m3 & E3 & R3);
    [vm_compute; reflexivity..|].
  assert (D3 : ray_release no_refs no_refs false dm2.1.2 dm2.2 dm1.1.1 = Some dm3) by (vm_compute; reflexivity).
  rewrite D3 in E3. apply (inj Some) in E3. apply pair_proj in E3 as [<- <-].
  destruct (reach_release _ _ _ _ _ dm2.1.1 26 (Blk 0 0 26 0 0 0 1) bump_vm_ok R3) as (h4 & m4 & E4 & R4);
    [vm_compute; reflexivity..|].
  assert (D4 : ray_release no_refs no_refs false dm3.1 dm3.2 dm2.1.1 = Some dm4) by (vm_compute; reflexivity).
  rewrite D4 in E4. apply (inj Some) in E4. apply pair_proj in E4 as [<- <-].
  replace (delete dm2.1.1 (delete dm1.1.1 dmL2)) with (∅ : gmap Z Z) in R4 by (vm_compute; reflexivity). exact R4.
Qed.

(** Two pools, of orders 25 and 27, and both whole again. *)
Lemma heap_drained_witness :
  (pool_order <$> pools dm5.1) = [25; 27] /\
  forall i, RAY_ORDER_MIN <= i < RAY_HEAP_FL_SIZE ->
    exists l, dll dm5.2 (freelist dm5.1 i) l /\
      forall a, a ∈ l <-> exists p, p ∈ pools dm5.1 /\ i < pool_order p /\ a = base p + 2 ^ i.
Proof.
  split; [vm_compute; reflexivity|]. destruct dm4_reach as [R E]. rewrite (surjective_pairing dm5) in E.
  exact (proj2 (heap_drained _ _ _ _ _ bump_vm_ok R E)).
Defined.

Lemma heap_reachable_safe_witness :
  dmL2 !! dm2.1.1 = Some 26 /\ dmL2 !! dm1.1.1 = Some 8 /\
  (dm1.1.1 + 2 ^ 8 <= dm2.1.1 \/ dm2.1.1 + 2 ^ 26 <= dm1.1.1) /\ bytes_allocated (stats dm2.1.2) = 67109120 /\
  is_Some (free_block false dm2.1.2 dm2.2 dm1.1.1).
Proof.
  destruct (heap_reachable_safe _ _ _ _ _ bump_vm_ok dm2_reach) as (_ & H2 & _ & H4 & _ & H6 & _).
  split_and!; [vm_compute; reflexivity..| | |].
  - apply (H2 dm1.1.1 8 dm2.1.1 26); [vm_compute; reflexivity..|vm_compute; done].
  - rewrite H4. vm_compute. reflexivity.
  - apply (H6 _ 8); [vm_compute; reflexivity|done].
Defined.

Lemma ray_alloc_spec_witness :
  exists v h' m', ray_alloc bump_vm dm2.1.2 dm2.2 200 = Some (v, h', m') /\ v <> 0 /\ aligned v 8 /\
    keeps dmL2 dm2.2 m' /\ heap_wf true h' m' (<[v := 8]> dmL2).
Proof.
  destruct (ray_alloc_spec true bump_vm dm2.1.2 dm2.2 dmL2 200 bump_vm_ok (heap_reach_wf _ _ _ _ _ bump_vm_ok dm2_reach) ltac:(lia))
    as (v & h' & m' & E & K & [(_ & _ & Hr)|(Hv & W & _ & Ha & _)]).
  - exfalso. destruct Hr as [Hr|[Hr|[a Hr]]]; vm_compute in Hr; [by apply Hr|by apply Hr|discriminate].
  - exists v, h', m'. split_and!; [exact E|done|exact Ha|done|exact W].
Defined.

Lemma ray_free_spec_witness :
  exists m h' m', upd dm2.2 dm1.1.1 (set_rc 0) = Some m /\
    ray_free no_refs no_refs false dm2.1.2 m dm1.1.1 = Some (h', m') /\ heap_wf true h' m' (delete dm1.1.1 dmL2) /\
    bytes_allocated (stats h') = 67108864.
Proof.
  set (m := default dm2.2 (upd dm2.2 dm1.1.1 (set_rc 0))).
  assert (E0 : upd dm2.2 dm1.1.1 (set_rc 0) = Some m) by (vm_compute; reflexivity).
  pose proof (heap_reach_wf _ _ _ _ _ bump_vm_ok dm2_reach) as W.
  destruct (ray_free_spec true false no_refs no_refs dm2.1.2 dm2.2 m dmL2 dmL2 dm1.1.1 8 0) as
    (m1 & h2 & m2 & h' & m' & _ & E2 & E3 & W' & _ & Eb).
  - exact W.
  - discriminate.
  - vm_compute. reflexivity.
  - exact E0.
  - intros c Hc. vm_compute in Hc. injection Hc as <-. split; [discriminate|reflexivity].
  - intros m1 _ W1. exists dm2.1.2, m1. split; [reflexivity|]. split; [exact W1|vm_compute; reflexivity].
  - exists m, h', m'. split; [exact E0|]. split; [exact E3|]. split; [exact W'|].
    unfold no_refs in E2. apply (inj Some), pair_proj in E2 as [E2 _]. cbn [fst] in E2. rewrite Eb, <- E2. vm_compute. reflexivity.
Defined.
