(* ===== verification/SortArr.v ===== *)
(** * Array loops of the sorts ([src/ops/sort.c])

    The loops that [sort.c] repeats for each element type: the insertion sort,
    the heap, the partition of the quicksort and the merge of two runs.  They
    take the comparison of the element type as an argument; the copies in the
    code are instances of them.  An array is a list, a pair of arrays moved in
    step ([keys] and [idx]) a list of pairs.  An access outside an array and a
    loop out of its fuel are [None]. *)
From Stdlib Require Import ZArith Lia.
From stdpp Require Import sorting.
From S2P Require Import Prelude.
#[local] Open Scope nat_scope.

(** The swap of two elements. *)
Definition aswap {A} (a : list A) (i j : nat) : option (list A) :=
  x ← a !! i; y ← a !! j; a ← aset a i y; aset a j x.

(** A call on the part [a + lo] of [n] elements. *)
Definition on_part {A} (f : list A -> option (list A)) (a : list A) (lo n : nat) : option (list A) :=
  if lo + n <=? length a then
    r ← f (take n (drop lo a)); Some (take lo a ++ r ++ drop (lo + n) a)
  else None.

Section insertion.
Context {A : Type} (gt : A -> A -> bool).

(** [while (j >= 0 && a[j] > cur) { a[j+1] = a[j]; j--; } a[j+1] = cur]; the
    argument is [j + 1]. *)
Fixpoint shift_right (a : list A) (j1 : nat) (cur : A) : option (list A) :=
  match j1 with
  | O => aset a 0 cur
  | S j =>
      x ← a !! j;
      if gt x cur then a ← aset a j1 x; shift_right a j cur else aset a j1 cur
  end.

(** [for (i = ...; i < n; i++)], with [k] turns left. *)
Fixpoint insertion_loop (k : nat) (a : list A) (i : nat) : option (list A) :=
  match k with
  | O => Some a
  | S k => cur ← a !! i; a ← shift_right a i cur; insertion_loop k a (S i)
  end.

Definition insertion_sort (a : list A) (n : nat) : option (list A) := insertion_loop (n - 1) a 1.
End insertion.

Section heap.
Context {A : Type} (lt : A -> A -> bool).

(** The largest of a node and its children. *)
Definition sift_pick (a : list A) (n i : nat) : option nat :=
  x ← a !! i;
  '(lg, x) ← (if 2 * i + 1 <? n then
                y ← a !! (2 * i + 1); Some (if lt x y then (2 * i + 1, y) else (i, x))
              else Some (i, x));
  if 2 * i + 2 <? n then y ← a !! (2 * i + 2); Some (if lt x y then 2 * i + 2 else lg)
  else Some lg.

Fixpoint sift_down (fuel : nat) (a : list A) (n i : nat) : option (list A) :=
  match fuel with
  | O => None
  | S fuel =>
      lg ← sift_pick a n i;
      if lg =? i then Some a else a ← aswap a i lg; sift_down fuel a n lg
  end.

(** [for (i = n/2 - 1; i >= 0; i--)]; the argument is [i + 1]. *)
Fixpoint heapify (i1 : nat) (a : list A) (n : nat) : option (list A) :=
  match i1 with
  | O => Some a
  | S i => a ← sift_down n a n i; heapify i a n
  end.

(** [for (i = n - 1; i > 0; i--)]. *)
Fixpoint heap_drain (i : nat) (a : list A) : option (list A) :=
  match i with
  | O => Some a
  | S i' => a ← aswap a 0 i; a ← sift_down i a i 0; heap_drain i' a
  end.

Definition heapsort (a : list A) (n : nat) : option (list A) :=
  a ← heapify (n / 2) a n; heap_drain (n - 1) a.

(** The partition loop of the quicksort, [k] turns left. *)
Fixpoint partition_loop (k : nat) (a : list A) (i lo : nat) (pivot : A) : option (list A * nat) :=
  match k with
  | O => Some (a, lo)
  | S k =>
      x ← a !! i;
      if lt x pivot then a ← aswap a i lo; partition_loop k a (S i) (S lo) pivot
      else partition_loop k a (S i) lo pivot
  end.
End heap.

Section merging.
Context {A : Type} (le : A -> A -> bool).

(** [while (i < e) dst[k++] = src[i++]], [n] turns left. *)
Fixpoint copy_run (n : nat) (src dst : list A) (i k : nat) : option (list A) :=
  match n with
  | O => Some dst
  | S n => x ← src !! i; dst ← aset dst k x; copy_run n src dst (S i) (S k)
  end.

Fixpoint merge_loop (fuel : nat) (src dst : list A) (i mid j hi k : nat) : option (list A) :=
  match fuel with
  | O => None
  | S fuel =>
      if (i <? mid) && (j <? hi) then
        x ← src !! i; y ← src !! j;
        if le x y then dst ← aset dst k x; merge_loop fuel src dst (S i) mid j hi (S k)
        else dst ← aset dst k y; merge_loop fuel src dst i mid (S j) hi (S k)
      else
        dst ← copy_run (mid - i) src dst i k;
        copy_run (hi - j) src dst j (k + (mid - i))
  end.
End merging.

(** ** Array accesses *)
Lemma aset_ok {A} (a : list A) i v : i < length a -> aset a i v = Some (<[i := v]> a).
Proof. intros H. unfold aset. apply Nat.ltb_lt in H. by rewrite H. Qed.

Lemma aset_app {A} (l1 l2 : list A) x v i :
  i = length l1 -> aset (l1 ++ x :: l2) i v = Some (l1 ++ v :: l2).
Proof.
  intros ->. rewrite aset_ok by (rewrite length_app; simpl; lia).
  f_equal. rewrite <- (Nat.add_0_r (length l1)). by rewrite insert_app_r.
Qed.

Lemma lookup_mid {A} (l1 l2 : list A) x i : i = length l1 -> (l1 ++ x :: l2) !! i = Some x.
Proof. intros ->. by rewrite lookup_app_r, Nat.sub_diag by lia. Qed.

Lemma insert_mid {A} (l1 l2 : list A) x v i : i = length l1 -> <[i := v]> (l1 ++ x :: l2) = l1 ++ v :: l2.
Proof. intros ->. rewrite <- (Nat.add_0_r (length l1)). by rewrite insert_app_r. Qed.

Lemma aswap_ok {A} (a : list A) i j x y :
  a !! i = Some x -> a !! j = Some y -> aswap a i j = Some (<[j := x]> (<[i := y]> a)).
Proof.
  intros Hx Hy. unfold aswap. rewrite Hx, Hy. cbn [mbind option_bind].
  rewrite aset_ok by (by eapply lookup_lt_Some). cbn [mbind option_bind].
  rewrite aset_ok; [done|]. rewrite length_insert. by eapply lookup_lt_Some.
Qed.

Lemma insert2_perm {A} (a : list A) i j x y :
  a !! i = Some x -> a !! j = Some y -> <[j := x]> (<[i := y]> a) ≡ₚ a.
Proof.
  intros Hx Hy. destruct (decide (i = j)) as [->|Hn].
  { rewrite list_insert_insert_eq. by rewrite list_insert_id by congruence. }
  assert (Hi := lookup_lt_Some _ _ _ Hx). assert (Hj := lookup_lt_Some _ _ _ Hy).
  apply Permutation_inj. split; [by rewrite !length_insert|].
  exists (fun k => if decide (k = i) then j else if decide (k = j) then i else k). split.
  - intros k1 k2. repeat case_decide; congruence.
  - intros k. destruct (decide (k = j)) as [->|].
    { rewrite list_lookup_insert_eq by (by rewrite length_insert). repeat case_decide; congruence. }
    rewrite list_lookup_insert_ne by done. destruct (decide (k = i)) as [->|].
    + by rewrite list_lookup_insert_eq by done.
    + by rewrite list_lookup_insert_ne by done.
Qed.

(** A swap below [n] permutes the first [n] elements and leaves the others. *)
Record moved {A} (n : nat) (a a' : list A) : Prop := Moved {
  moved_length : length a' = length a;
  moved_perm : take n a' ≡ₚ take n a;
  moved_rest : drop n a' = drop n a }.

Lemma moved_refl {A} n (a : list A) : moved n a a.
Proof. done. Qed.

Lemma moved_trans {A} n (a b c : list A) : moved n a b -> moved n b c -> moved n a c.
Proof. intros [L1 P1 R1] [L2 P2 R2]. split; [lia|by rewrite P2|congruence]. Qed.

Lemma moved_all {A} n (a a' : list A) : moved n a a' -> a' ≡ₚ a.
Proof. intros [_ P R]. by rewrite <- (take_drop n a'), <- (take_drop n a), P, R. Qed.

Lemma moved_lookup {A} n (a a' : list A) k : moved n a a' -> n <= k -> a' !! k = a !! k.
Proof.
  intros M Hk. replace k with (n + (k - n)) by lia.
  by rewrite <- !lookup_drop, (moved_rest _ _ _ M).
Qed.

Lemma moved_weaken {A} n m (a a' : list A) : moved n a a' -> n <= m -> moved m a a'.
Proof.
  intros [L P R] Hm. replace m with (n + (m - n)) by lia. split; [done|..].
  - by rewrite <- !take_take_drop, P, R.
  - by rewrite <- !drop_drop, R.
Qed.

Lemma aswap_moved {A} n (a : list A) i j :
  i < n -> j < n -> n <= length a -> exists a', aswap a i j = Some a' /\ moved n a a'.
Proof.
  intros Hi Hj Hn.
  destruct (lookup_lt_is_Some_2 a i) as [x Hx]; [lia|].
  destruct (lookup_lt_is_Some_2 a j) as [y Hy]; [lia|].
  exists (<[j := x]> (<[i := y]> a)). split; [by apply aswap_ok|]. split.
  - by rewrite !length_insert.
  - rewrite !take_insert_lt by done. apply insert2_perm; by rewrite lookup_take_lt.
  - by rewrite !drop_insert_lt by done.
Qed.

(** ** Sorted lists *)
Lemma StronglySorted_weaken_in {A} (R R' : relation A) l :
  (forall x y, x ∈ l -> y ∈ l -> R x y -> R' x y) -> StronglySorted R l -> StronglySorted R' l.
Proof.
  intros Hi Hs. induction Hs as [|x l Hs IH Hx]; constructor.
  - apply IH. intros y z Hy Hz. apply Hi; by right.
  - rewrite Forall_forall in Hx |- *. intros y Hy. apply Hi; [by left|by right|by apply Hx].
Qed.

Lemma StronglySorted_weaken {A} (R R' : relation A) l :
  (forall x y, R x y -> R' x y) -> StronglySorted R l -> StronglySorted R' l.
Proof. intros Hi. apply StronglySorted_weaken_in. auto. Qed.

Lemma StronglySorted_of_lookup {A} (R : relation A) l :
  (forall (i j : nat) x y, l !! i = Some x -> l !! j = Some y -> (i < j)%nat -> R x y) -> StronglySorted R l.
Proof.
  induction l as [|x l IH]; intros H; constructor.
  - apply IH. intros i j y z Hi Hj Hij. apply (H (S i) (S j)); [done|done|lia].
  - apply Forall_forall. intros y (j & Hj)%list_elem_of_lookup_1. apply (H 0%nat (S j)); [done|done|lia].
Qed.

Lemma StronglySorted_lookup_lt {A} (R : relation A) l (i j : nat) x y :
  StronglySorted R l -> l !! i = Some x -> l !! j = Some y -> i < j -> R x y.
Proof.
  intros Hs. revert i j. induction Hs as [|z l Hs IH Hz]; intros i j Hi Hj Hij; [done|].
  destruct j as [|j]; [lia|]. cbn in Hj. destruct i as [|i]; [|eapply IH; [exact Hi|exact Hj|lia]].
  cbn in Hi. simplify_eq. rewrite Forall_forall in Hz. apply Hz. by eapply list_elem_of_lookup_2.
Qed.

Lemma StronglySorted_filter {A} (R : relation A) (P : A -> Prop) `{forall x, Decision (P x)} l :
  StronglySorted R l -> StronglySorted R (filter P l).
Proof.
  intros Hs. induction Hs as [|x l Hs IH Hx]; [constructor|]. rewrite filter_cons. case_decide; [|done].
  constructor; [done|]. apply Forall_forall. intros y [_ Hy]%list_elem_of_filter. by eapply Forall_forall in Hx.
Qed.

(** Running [f] on a part. *)
Lemma on_part_ok {A} (f : list A -> option (list A)) p m s m' :
  f m = Some m' -> on_part f (p ++ m ++ s) (length p) (length m) = Some (p ++ m' ++ s).
Proof.
  intros Hf. unfold on_part. rewrite (proj2 (Nat.leb_le _ _)) by (rewrite !length_app; lia).
  rewrite drop_app_length, (take_app_length m), Hf. cbn [mbind option_bind].
  by rewrite take_app_length, <- drop_drop, drop_app_length, drop_app_length.
Qed.

(** ** Insertion sort *)
Section insertion_ok.
Context {A : Type} (gt : A -> A -> bool).

Lemma shift_right_ok pre y suf cur :
  exists pre1 pre2, pre = pre1 ++ pre2 /\
    shift_right gt (pre ++ y :: suf) (length pre) cur = Some (pre1 ++ cur :: pre2 ++ suf) /\
    Forall (fun x => gt x cur = true) pre2 /\ (forall x, last pre1 = Some x -> gt x cur = false).
Proof.
  revert y suf. induction pre as [|x pre IH] using rev_ind; intros y suf.
  { exists [], []. by split_and!. }
  rewrite length_app, Nat.add_1_r. cbn [shift_right].
  rewrite lookup_app_l by (rewrite length_app; simpl; lia). rewrite lookup_mid by done. cbn [mbind option_bind].
  destruct (gt x cur) eqn:E.
  - rewrite aset_app by (rewrite length_app; simpl; lia). cbn [mbind option_bind].
    rewrite <- app_assoc. cbn [app]. destruct (IH x (x :: suf)) as (p1 & p2 & -> & Hs & Hf & Hl).
    exists p1, (p2 ++ [x]). split_and!; [by rewrite app_assoc|by rewrite Hs, <- app_assoc| |done].
    by apply Forall_app; repeat constructor.
  - exists (pre ++ [x]), []. rewrite app_nil_r. split_and!; [done| |constructor|].
    + by rewrite aset_app by (rewrite length_app; simpl; lia).
    + intros z. rewrite last_snoc. congruence.
Qed.

(** What the sort needs of a pair of elements in their original order. *)
Context (T : relation A) `{!Transitive T}.
Definition agrees (a b : A) : Prop := if gt a b then T b a else T a b.

Lemma insertion_loop_ok todo done_ l :
  l = done_ ++ todo -> (forall x y, x ∈ done_ -> y ∈ todo -> agrees x y) -> StronglySorted agrees todo ->
  StronglySorted T done_ ->
  exists l', insertion_loop gt (length todo) l (length done_) = Some l' /\ l' ≡ₚ l /\ StronglySorted T l'.
Proof using Transitive0.
  revert done_ l. induction todo as [|cur todo IH]; intros done_ l -> Hx Hs Hd.
  { exists done_. rewrite app_nil_r. done. }
  cbn [insertion_loop length]. rewrite lookup_mid by done. cbn [mbind option_bind].
  destruct (shift_right_ok done_ cur todo cur) as (p1 & p2 & -> & -> & Hf & Hl). cbn [mbind option_bind].
  apply StronglySorted_cons in Hs as [Hc Hs]. apply StronglySorted_app in Hd as (H12 & Hd1 & Hd2).
  rewrite Forall_forall in Hc, Hf.
  assert (Hp1 : forall x, x ∈ p1 -> T x cur).
  { destruct p1 as [|z p1 _] using rev_ind; [intros x []%not_elem_of_nil|].
    assert (T z cur).
    { assert (Hz := Hx z cur). unfold agrees in Hz. rewrite Hl in Hz by apply last_snoc.
      apply Hz; [|by left]. apply elem_of_app. left. apply elem_of_app. right. by left. }
    intros x [Hin| ->%list_elem_of_singleton]%elem_of_app; [|done].
    apply StronglySorted_app in Hd1 as (Hz & _ & _). etrans; [|done]. apply Hz; [done|by left]. }
  assert (Hp2 : forall x, x ∈ p2 -> T cur x).
  { intros x Hin. assert (Hz := Hx x cur). unfold agrees in Hz. rewrite Hf in Hz by done.
    apply Hz; [apply elem_of_app; by right|by left]. }
  destruct (IH (p1 ++ cur :: p2) ((p1 ++ cur :: p2) ++ todo)) as (l' & Hl' & Hp & Hsl); [done|..].
  - intros x y Hin Hy. rewrite elem_of_app, elem_of_cons in Hin.
    destruct Hin as [Hin|[->|Hin]]; [| by apply Hc |];
      (apply Hx; [apply elem_of_app; tauto|by right]).
  - done.
  - apply StronglySorted_app. split_and!; [|done|].
    + intros x y Hin [->|Hy]%elem_of_cons; auto.
    + apply StronglySorted_cons. split; [by apply Forall_forall|done].
  - exists l'. split_and!; [|rewrite Hp|done].
    + rewrite <- Hl', length_app. f_equal; [by rewrite <- app_assoc|rewrite !length_app; simpl; lia].
    + rewrite <- !app_assoc. apply Permutation_app_head. simpl.
      by rewrite Permutation_middle.
Qed.

(** Sorted by [T], if [gt] decides [T] on pairs in their original order. *)
Lemma insertion_sort_ok l :
  StronglySorted agrees l ->
  exists l', insertion_sort gt l (length l) = Some l' /\ l' ≡ₚ l /\ StronglySorted T l'.
Proof using Transitive0.
  intros Hs. destruct l as [|x l].
  { exists []. by repeat constructor. }
  unfold insertion_sort. cbn [length]. rewrite Nat.sub_succ, Nat.sub_0_r.
  apply StronglySorted_cons in Hs as [Hx Hs]. rewrite Forall_forall in Hx.
  destruct (insertion_loop_ok l [x] (x :: l)) as (l' & Hl & ? & ?); [done| |done|by repeat constructor|].
  - intros y z ->%list_elem_of_singleton. apply Hx.
  - exists l'. by split_and!.
Qed.
End insertion_ok.

(** ** The heap *)
Section heap_ok.
Context {A : Type} (lt : A -> A -> bool).

(** [a] comes no later than [b]. *)
Definition nlt (a b : A) : Prop := lt b a = false.

Context (asym : forall a b, lt a b = true -> lt b a = false) `{!Transitive nlt}.

Lemma nlt_refl a : nlt a a.
Proof using asym. unfold nlt. destruct (lt a a) eqn:E; [|done]. by rewrite asym in E. Qed.

Definition parent (j : nat) : nat := (j - 1) / 2.

Lemma parent_child i j : 0 < j -> parent j = i <-> j = 2 * i + 1 \/ j = 2 * i + 2.
Proof using Type.
  intros Hj. unfold parent. split; [intros <-|intros [->| ->]].
  - pose proof (Nat.div_mod_eq (j - 1) 2). pose proof (Nat.mod_upper_bound (j - 1) 2). lia.
  - replace (2 * i + 1 - 1) with (i * 2) by lia. by rewrite Nat.div_mul.
  - replace (2 * i + 2 - 1) with (1 + i * 2) by lia. by rewrite Nat.div_add.
Qed.

Lemma parent_lt j : 0 < j -> parent j < j.
Proof using Type. intros Hj. destruct (proj1 (parent_child (parent j) j Hj) eq_refl); lia. Qed.

(** Heap order between nodes [s..n), but for the children of [i]. *)
Definition hole (a : list A) (n s i : nat) : Prop :=
  (forall j x y, 0 < j < n -> s <= parent j -> parent j <> i -> a !! parent j = Some x -> a !! j = Some y -> nlt y x) /\
  (forall j x y, 0 < j < n -> parent j = i -> 0 < i -> s <= parent i -> a !! parent i = Some x -> a !! j = Some y -> nlt y x).

Definition heap_order (a : list A) (n s : nat) : Prop :=
  forall j x y, 0 < j < n -> s <= parent j -> a !! parent j = Some x -> a !! j = Some y -> nlt y x.

Lemma sift_pick_ok a n i x :
  a !! i = Some x -> i < n -> n <= length a ->
  exists lg y, sift_pick lt a n i = Some lg /\ lg < n /\ a !! lg = Some y /\
    (lg = i \/ (0 < lg /\ parent lg = i /\ lt x y = true)) /\
    (forall j z, 0 < j < n -> parent j = i -> a !! j = Some z -> nlt z y).
Proof using asym Transitive0.
  intros Hx Hi Hn. unfold sift_pick. rewrite Hx. cbn [mbind option_bind].
  assert (Hch : forall j, 0 < j -> parent j = i -> j = 2 * i + 1 \/ j = 2 * i + 2) by (intros; by apply parent_child).
  destruct (2 * i + 1 <? n) eqn:E1; bprop; cycle 1.
  { cbn [mbind option_bind]. rewrite (proj2 (Nat.ltb_ge _ _)) by lia. exists i, x. split_and!; [done..|by left|].
    intros j z Hj Hpj. destruct (Hch j); lia. }
  destruct (lookup_lt_is_Some_2 a (2 * i + 1)) as [y1 Hy1]; [lia|]. rewrite Hy1. cbn [mbind option_bind].
  destruct (2 * i + 2 <? n) eqn:E2; bprop.
  - destruct (lookup_lt_is_Some_2 a (2 * i + 2)) as [y2 Hy2]; [lia|].
    destruct (lt x y1) eqn:L1; cbn [mbind option_bind]; rewrite Hy2; cbn [mbind option_bind].
    + destruct (lt y1 y2) eqn:L2.
      * exists (2 * i + 2), y2. assert (lt x y2 = true).
        { destruct (lt x y2) eqn:L3; [done|]. assert (nlt x y1) by (by apply asym).
          assert (Hc : nlt y2 y1) by (by trans x). unfold nlt in Hc. congruence. }
        split_and!; [done|lia|done| |].
        { right. split_and!; [lia|apply parent_child; lia|done]. }
        intros j z Hj Hpj Hz. destruct (Hch j) as [->| ->]; [lia|done|..]; simplify_eq; [by apply asym|apply nlt_refl].
      * exists (2 * i + 1), y1. split_and!; [done|lia|done| |].
        { right. split_and!; [lia|apply parent_child; lia|done]. }
        intros j z Hj Hpj Hz. destruct (Hch j) as [->| ->]; [lia|done|..]; simplify_eq; [apply nlt_refl|done].
    + destruct (lt x y2) eqn:L2.
      * exists (2 * i + 2), y2. split_and!; [done|lia|done| |].
        { right. split_and!; [lia|apply parent_child; lia|done]. }
        intros j z Hj Hpj Hz. destruct (Hch j) as [->| ->]; [lia|done|..]; simplify_eq; [|apply nlt_refl].
        trans x; [done|]. by apply asym.
      * exists i, x. split_and!; [done..|by left|].
        intros j z Hj Hpj Hz. by destruct (Hch j) as [->| ->]; [lia|done|..]; simplify_eq.
  - destruct (lt x y1) eqn:L1; cbn [mbind option_bind].
    + exists (2 * i + 1), y1. split_and!; [done|lia|done| |].
      { right. split_and!; [lia|apply parent_child; lia|done]. }
      intros j z Hj Hpj Hz. destruct (Hch j) as [->| ->]; [lia|done|..|lia]; simplify_eq. apply nlt_refl.
    + exists i, x. split_and!; [done|lia|done|by left|].
      intros j z Hj Hpj Hz. by destruct (Hch j) as [->| ->]; [lia|done|..|lia]; simplify_eq.
Qed.

Lemma sift_down_ok fuel a n s i x :
  hole a n s i -> s <= i -> a !! i = Some x -> i < n -> n <= length a -> n - i <= fuel ->
  exists a', sift_down lt fuel a n i = Some a' /\ heap_order a' n s /\ moved n a a'.
Proof using asym Transitive0.
  revert a i x. induction fuel as [|fuel IH]; intros a i x [H1 H2] Hs Hx Hi Hn Hf; [lia|]. cbn [sift_down].
  destruct (sift_pick_ok a n i x Hx Hi Hn) as (lg & y & -> & Hlg & Hy & Hor & Hch). cbn [mbind option_bind].
  destruct (lg =? i) eqn:E; bprop.
  { exists a. split_and!; [done| |apply moved_refl]. subst lg. simplify_eq.
    intros j u v Hj Hsj Hu Hv. destruct (decide (parent j = i)) as [Hpi|]; [|by eapply H1].
    rewrite Hpi in Hu. simplify_eq. by eapply Hch. }
  destruct Hor as [|(Hlg0 & Hpl & Hlt)]; [done|].
  assert (i < lg) by (rewrite <- Hpl; by apply parent_lt).
  destruct (aswap_moved n a i lg) as (a1 & Ha1 & M1); [lia..|]. rewrite Ha1. cbn [mbind option_bind].
  rewrite (aswap_ok _ _ _ x y) in Ha1 by done. injection Ha1 as <-.
  assert (Lk : forall k, <[lg:=x]> (<[i:=y]> a) !! k = if decide (k = lg) then Some x else if decide (k = i) then Some y else a !! k).
  { intros k. repeat case_decide; subst; rewrite ?list_lookup_insert_eq, ?list_lookup_insert_ne, ?list_lookup_insert_eq
      by (rewrite ?length_insert; (done || lia)); done. }
  destruct (IH (<[lg:=x]> (<[i:=y]> a)) lg x) as (a' & Ha' & Ho & M); [split| |by rewrite Lk, decide_True|done| |lia|].
  - intros j u v Hj Hsj Hpj. rewrite !Lk, (decide_False (P := parent j = lg)) by done.
    assert (parent j < j) by (apply parent_lt; lia).
    destruct (decide (parent j = i)) as [Hpi|Hpi].
    { intros [= ->]. destruct (decide (j = lg)) as [->|]; [intros [= ->]; by apply asym|].
      rewrite decide_False by lia. intros Hv. by eapply Hch; [..|done]; [lia|]. }
    intros Hu. rewrite (decide_False (P := j = lg)) by congruence. destruct (decide (j = i)) as [->|].
    + intros [= ->]. by eapply (H2 lg); [lia|..]; try done; lia.
    + intros Hv. eapply H1; [|done|exact Hpi|done|done]; lia.
  - intros j u v Hj Hpj _ _. rewrite !Lk, Hpl. rewrite (decide_False (P := i = lg)), (decide_True (P := i = i)) by lia. intros [= ->].
    assert (parent j < j) by (apply parent_lt; lia).
    rewrite (decide_False (P := j = lg)), (decide_False (P := j = i)) by lia. intros Hv.
    eapply (H1 j); [lia|lia|lia|by rewrite Hpj|done].
  - lia.
  - by rewrite !length_insert.
  - exists a'. split_and!; [done..|]. eapply moved_trans; [exact M1|exact M].
Qed.

Lemma heapify_ok i1 a n :
  heap_order a n i1 -> i1 <= n -> n <= length a ->
  exists a', heapify lt i1 a n = Some a' /\ heap_order a' n 0 /\ moved n a a'.
Proof using asym Transitive0.
  revert a. induction i1 as [|i IH]; intros a Ho Hi Hn.
  { exists a. split_and!; [done..|apply moved_refl]. }
  cbn [heapify]. destruct (lookup_lt_is_Some_2 a i) as [x Hx]; [lia|].
  destruct (sift_down_ok n a n i i x) as (a1 & -> & Ho1 & M1); [split|lia|done|lia|done|lia|].
  - intros j u v Hj Hsj Hpj. apply Ho; [done|lia].
  - intros j u v Hj Hpj Hi0 Hpi. pose proof (parent_lt i Hi0). lia.
  - cbn [mbind option_bind]. destruct (IH a1) as (a' & -> & Ho' & M'); [done|lia|by rewrite (moved_length _ _ _ M1)|].
    exists a'. split_and!; [done..|]. by eapply moved_trans.
Qed.

Lemma heap_root_max a n x j y :
  heap_order a n 0 -> a !! 0 = Some x -> a !! j = Some y -> j < n -> n <= length a -> nlt y x.
Proof using asym Transitive0.
  intros Ho Hx. revert y. induction (lt_wf j) as [j _ IH]. intros y Hy Hj Hn.
  destruct (decide (j = 0)) as [->|]; [simplify_eq; apply nlt_refl|].
  assert (parent j < j) by (apply parent_lt; lia).
  destruct (lookup_lt_is_Some_2 a (parent j)) as [z Hz]; [lia|].
  trans z; [apply (Ho j z y); (done || lia)|]. apply (IH (parent j)); (done || lia).
Qed.

Lemma heap_drain_ok i a :
  heap_order a (S i) 0 -> S i <= length a -> StronglySorted nlt (drop (S i) a) ->
  (forall x y, x ∈ take (S i) a -> y ∈ drop (S i) a -> nlt x y) ->
  exists a', heap_drain lt i a = Some a' /\ moved (S i) a a' /\ StronglySorted nlt a'.
Proof using asym Transitive0.
  revert a. induction i as [|i IH]; intros a Ho Hn Hs Hle.
  { exists a. split_and!; [done|apply moved_refl|]. rewrite <- (take_drop 1 a). apply StronglySorted_app.
    split_and!; [done| |done]. destruct a; repeat constructor. }
  cbn [heap_drain]. destruct (lookup_lt_is_Some_2 a 0) as [x Hx]; [lia|].
  destruct (lookup_lt_is_Some_2 a (S i)) as [y Hy]; [lia|].
  destruct (aswap_moved (S (S i)) a 0 (S i)) as (a1 & Ha1 & M1); [lia..|]. rewrite Ha1. cbn [mbind option_bind].
  rewrite (aswap_ok _ _ _ x y) in Ha1 by done. injection Ha1 as E1.
  assert (L1 : forall k, 0 < k < S i -> a1 !! k = a !! k).
  { intros k Hk. rewrite <- E1, !list_lookup_insert_ne by lia. done. }
  assert (Ht : a1 !! S i = Some x) by (rewrite <- E1; apply list_lookup_insert_eq; rewrite length_insert; lia).
  assert (H0 : a1 !! 0 = Some y).
  { rewrite <- E1, list_lookup_insert_ne by lia. apply list_lookup_insert_eq. lia. }
  pose proof (moved_length _ _ _ M1) as Len1.
  destruct (sift_down_ok (S i) a1 (S i) 0 0 y) as (a2 & -> & Ho2 & M2); [split|lia|done|lia|lia|lia|].
  { intros j u v Hj Hsj Hpj. assert (parent j < j) by (apply parent_lt; lia).
    rewrite !L1 by lia. apply Ho; lia. }
  { intros j u v Hj Hpj Hi0. lia. }
  cbn [mbind option_bind]. pose proof (moved_length _ _ _ M2) as Len2.
  assert (Hd : drop (S i) a2 = x :: drop (S (S i)) a).
  { rewrite (moved_rest _ _ _ M2), (drop_S _ x) by done. by rewrite (moved_rest _ _ _ M1). }
  assert (Hsub : forall z, z ∈ take (S i) a2 -> z ∈ take (S (S i)) a).
  { intros z Hz. rewrite (moved_perm _ _ _ M2) in Hz. rewrite <- (moved_perm _ _ _ M1).
    rewrite (take_S_r _ _ x) by done. apply elem_of_app. by left. }
  assert (Hxin : x ∈ take (S (S i)) a).
  { apply (list_elem_of_lookup_2 _ 0). rewrite lookup_take_lt by lia. done. }
  destruct (IH a2) as (a' & -> & M3 & Hs'); [done|lia| | |].
  - rewrite Hd. apply StronglySorted_cons. split; [|done]. apply Forall_forall. intros z Hz. by apply Hle.
  - rewrite Hd. intros u v Hu%Hsub [->|Hv]%elem_of_cons; [|by apply Hle].
    apply list_elem_of_lookup_1 in Hu as [k Hk]. pose proof (lookup_lt_Some _ _ _ Hk) as Hl.
    rewrite length_take in Hl. rewrite lookup_take_lt in Hk by lia.
    eapply (heap_root_max a (S (S i))); done || lia.
  - exists a'. split_and!; [done| |done]. eapply moved_trans; [exact M1|].
    eapply moved_trans; (eapply moved_weaken; [eassumption|lia]).
Qed.

(** The heap sort sorts, and stays in its array. *)
Lemma heapsort_ok a :
  exists a', heapsort lt a (length a) = Some a' /\ a' ≡ₚ a /\ StronglySorted nlt a'.
Proof using asym Transitive0.
  unfold heapsort. destruct (heapify_ok (length a / 2) a (length a)) as (a1 & -> & Ho & M).
  - intros j x y Hj Hp. destruct (proj1 (parent_child (parent j) j ltac:(lia)) eq_refl);
      pose proof (Nat.div_mod_eq (length a) 2); pose proof (Nat.mod_upper_bound (length a) 2); lia.
  - apply Nat.Div0.div_le_upper_bound. lia.
  - done.
  - cbn [mbind option_bind]. destruct a as [|x a].
    { exists a1. assert (a1 = []) as -> by (apply length_zero_iff_nil; by rewrite (moved_length _ _ _ M)).
      by repeat constructor. }
    cbn [length]. rewrite Nat.sub_succ, Nat.sub_0_r. pose proof (moved_length _ _ _ M) as L. cbn [length] in *.
    assert (drop (S (length a)) a1 = []) as Ed by (apply drop_ge; lia).
    destruct (heap_drain_ok (length a) a1) as (a' & -> & M' & Hs); [done|lia|rewrite Ed; constructor|rewrite Ed; set_solver|].
    exists a'. split_and!; [done| |done]. apply moved_all in M, M'. by rewrite M', M.
Qed.
End heap_ok.

(** ** Partition *)
Section partition_ok.
Context {A : Type} (lt : A -> A -> bool) (pivot : A).

(** The loop keeps the elements below the pivot, then the others, then what it
    has not read. *)
Lemma partition_loop_ok R L M tl :
  Forall (fun x => lt x pivot = true) L -> Forall (fun x => lt x pivot = false) M ->
  exists L' M', partition_loop lt (length R) (L ++ M ++ R ++ tl) (length L + length M) (length L) pivot
    = Some (L' ++ M' ++ tl, length L') /\ L' ++ M' ≡ₚ L ++ M ++ R /\
    Forall (fun x => lt x pivot = true) L' /\ Forall (fun x => lt x pivot = false) M'.
Proof.
  revert L M. induction R as [|x R IH]; intros L M HL HM.
  { exists L, M. by rewrite app_nil_r. }
  cbn [partition_loop length app].
  assert (Hx : (L ++ M ++ x :: R ++ tl) !! (length L + length M) = Some x).
  { rewrite app_assoc. apply lookup_mid. by rewrite length_app. }
  rewrite Hx. cbn [mbind option_bind]. destruct (lt x pivot) eqn:E.
  - destruct M as [|m M].
    + cbn [length app] in *. rewrite Nat.add_0_r in *. rewrite (aswap_ok _ _ _ x x) by done. cbn [mbind option_bind].
      rewrite list_insert_insert_eq, list_insert_id by done.
      destruct (IH (L ++ [x]) []) as (L' & M' & Hr & Hp & HL' & HM'); [by apply Forall_app; repeat constructor|done|].
      exists L', M'. split_and!; [|rewrite Hp, <- app_assoc; done|done..].
      rewrite <- Hr, length_app. cbn [length app]. rewrite <- app_assoc. cbn [app]. f_equal; lia.
    + assert (Hm : (L ++ (m :: M) ++ x :: R ++ tl) !! length L = Some m) by (by apply lookup_mid).
      rewrite (aswap_ok _ _ _ x m) by done. cbn [mbind option_bind].
      apply Forall_cons in HM as [Hm1 HM].
      destruct (IH (L ++ [x]) (M ++ [m])) as (L' & M' & Hr & Hp & HL' & HM'); [by apply Forall_app; repeat constructor..|].
      exists L', M'. split_and!; [|rewrite Hp; solve_Permutation|done..].
      rewrite <- Hr, !length_app. cbn [length app]. f_equal; [|lia..].
      change (L ++ m :: M ++ x :: R ++ tl) with (L ++ (m :: M) ++ x :: (R ++ tl)).
      rewrite (app_assoc L), (insert_mid (L ++ m :: M)) by (rewrite length_app; done).
      rewrite <- (app_assoc L). cbn [app]. rewrite insert_mid by done. by rewrite <- !app_assoc.
  - destruct (IH L (M ++ [x])) as (L' & M' & Hr & Hp & HL' & HM'); [done|by apply Forall_app; repeat constructor|].
    exists L', M'. split_and!; [|rewrite Hp, <- app_assoc; done|done..].
    rewrite <- Hr, length_app. cbn [length app]. rewrite <- app_assoc. cbn [app]. f_equal; lia.
Qed.
End partition_ok.

(** ** Merging *)
Section merging_ok.
Context {A : Type} (le : A -> A -> bool).

(** The merge of two lists, [le] preferring the first. *)
Definition lerel : relation A := fun x y => le x y = true.
#[export] Instance lerel_dec x y : Decision (lerel x y) := decide (le x y = true).
Abbreviation run_merge := (list_merge lerel).

(** The elements [i..e) of an array. *)
Definition part (a : list A) (i e : nat) : list A := drop i (take e a).

Lemma part_length a i e : e <= length a -> length (part a i e) = e - i.
Proof using Type. intros. unfold part. rewrite length_drop, length_take. lia. Qed.

Lemma part_cons a i e x : a !! i = Some x -> i < e -> part a i e = x :: part a (S i) e.
Proof using Type. intros Hx Hi. unfold part. apply drop_S. by rewrite lookup_take_lt. Qed.

Lemma part_nil a i e : e <= i -> part a i e = [].
Proof using Type. intros. unfold part. apply drop_ge. rewrite length_take. lia. Qed.

Lemma take_aset (dst : list A) k x : k < length dst -> take (S k) (<[k := x]> dst) = take k dst ++ [x].
Proof using Type.
  intros Hk. rewrite (take_S_r _ _ x) by (by apply list_lookup_insert_eq).
  by rewrite take_insert_ge.
Qed.

Lemma copy_run_ok n src dst i k :
  i + n <= length src -> k + n <= length dst ->
  copy_run n src dst i k = Some (take k dst ++ part src i (i + n) ++ drop (k + n) dst).
Proof using Type.
  revert dst i k. induction n as [|n IH]; intros dst i k Hi Hk; cbn [copy_run].
  { rewrite part_nil, !Nat.add_0_r by lia. by rewrite app_nil_l, take_drop. }
  destruct (lookup_lt_is_Some_2 src i) as [x Hx]; [lia|]. rewrite Hx. cbn [mbind option_bind].
  rewrite aset_ok by lia. cbn [mbind option_bind]. rewrite IH by (rewrite ?length_insert; lia). f_equal.
  rewrite take_aset, (part_cons _ i _ x), drop_insert_lt by (done || lia).
  rewrite <- app_assoc. cbn [app]. by rewrite !Nat.add_succ_r.
Qed.

Lemma merge_loop_ok fuel src dst i mid j hi k :
  i <= mid -> mid <= length src -> j <= hi -> hi <= length src ->
  k + (mid - i) + (hi - j) <= length dst -> (mid - i) + (hi - j) < fuel ->
  merge_loop le fuel src dst i mid j hi k =
    Some (take k dst ++ run_merge (part src i mid) (part src j hi) ++ drop (k + (mid - i) + (hi - j)) dst).
Proof using Type.
  revert dst i j k. induction fuel as [|fuel IH]; intros dst i j k Hi Hm Hj Hh Hk Hf; [lia|]. cbn [merge_loop].
  destruct ((i <? mid) && (j <? hi)) eqn:E.
  - bprop. destruct (lookup_lt_is_Some_2 src i) as [x Hx]; [lia|].
    destruct (lookup_lt_is_Some_2 src j) as [y Hy]; [lia|]. rewrite Hx, Hy. cbn [mbind option_bind].
    rewrite !aset_ok by lia. cbn [mbind option_bind]. rewrite (part_cons _ i _ x), (part_cons _ j _ y) by done.
    rewrite list_merge_cons. destruct (decide (lerel x y)) as [L|L]; unfold lerel in L; [|apply not_true_is_false in L]; rewrite L in *.
    + rewrite IH by (rewrite ?length_insert; lia). f_equal.
      rewrite take_aset, drop_insert_lt, (part_cons src j _ y) by (done || lia). rewrite <- app_assoc. cbn [app]. do 4 f_equal. lia.
    + rewrite IH by (rewrite ?length_insert; lia). f_equal.
      rewrite take_aset, drop_insert_lt, (part_cons src i _ x) by (done || lia). rewrite <- app_assoc. cbn [app]. do 4 f_equal. lia.
  - rewrite copy_run_ok by lia. cbn [mbind option_bind].
    replace (i + (mid - i)) with mid by lia. rewrite app_assoc. set (P := take k dst ++ part src i mid).
    assert (HP : length P = k + (mid - i)) by (unfold P; rewrite length_app, length_take, part_length; lia).
    rewrite copy_run_ok by (rewrite ?length_app, ?length_drop; lia). f_equal.
    replace (j + (hi - j)) with hi by lia.
    rewrite (take_app_length' P) by lia. rewrite <- (drop_drop (P ++ _) (hi - j) (k + (mid - i))).
    rewrite (drop_app_length' P) by lia. rewrite drop_drop. unfold P.
    rewrite <- app_assoc. f_equal. apply andb_false_iff in E as [E|E]; bprop.
    + rewrite part_nil, list_merge_nil_l by lia. done.
    + rewrite (part_nil _ j), list_merge_nil_r by lia. done.
Qed.

Lemma run_merge_sorted (T : relation A) l1 l2 :
  Transitive T -> StronglySorted T l1 -> StronglySorted T l2 ->
  (forall x y, x ∈ l1 -> y ∈ l2 -> if le x y then T x y else T y x) -> StronglySorted T (run_merge l1 l2).
Proof using Type.
  intros HT H1. revert l2. induction H1 as [|x l1 H1 IH1 Hx]; intros l2 H2 Hxy.
  { by rewrite list_merge_nil_l. }
  induction H2 as [|y l2 H2 IH2 Hy]; [rewrite list_merge_nil_r; by constructor|].
  rewrite Forall_forall in Hx, Hy. assert (Hc := Hxy x y ltac:(by left) ltac:(by left)).
  rewrite list_merge_cons. destruct (decide (lerel x y)) as [L|L]; unfold lerel in L; [|apply not_true_is_false in L]; rewrite L in *.
  - constructor.
    + apply IH1; [constructor; [done|by apply Forall_forall]|]. intros u v Hu Hv. apply Hxy; [by right|done].
    + apply Forall_forall. intros u. rewrite merge_Permutation, elem_of_app, elem_of_cons.
      intros [?|[->|?]]; [auto|done|]. trans y; auto.
  - constructor.
    + apply IH2. intros u v Hu Hv. apply Hxy; [done|by right].
    + apply Forall_forall. intros u. rewrite merge_Permutation, elem_of_app, elem_of_cons.
      intros [[->|?]|?]; [done| |auto]. trans x; auto.
Qed.
End merging_ok.
