(* ===== verification/SortKey.v ===== *)
(** * Keyed pairs and the introsort ([src/ops/sort.c])

    A sort key is 64 bits, a row index comes with it, and ties are ordered by
    the index, so that the order is total and a sort has one result:
    [kv_sort].  The arrays [keys] and [idx] are one list of pairs. *)
From Stdlib Require Import ZArith Lia.
From stdpp Require Import sorting.
From S2P Require Import Prelude SortArr.

Definition kv : Type := Z * Z.

Definition key_lt (p q : kv) : bool :=
  let '(ka, ia) := p in let '(kb, ib) := q in (ka <? kb) || ((ka =? kb) && (ia <? ib)).

(** [keys[i]] and [idx[i]] move together in every loop. *)
Definition key_sift_down : nat -> list kv -> nat -> nat -> option (list kv) := sift_down key_lt.
Definition key_heapsort : list kv -> nat -> option (list kv) := heapsort key_lt.
Definition key_insertion_sort : list kv -> nat -> option (list kv) :=
  insertion_sort (fun x cur => key_lt cur x).

(** The index of the median of the first, the middle and the last pair. *)
Definition median_of_3 (arr : list kv) (n : nat) : option nat :=
  let mid := (n / 2)%nat in
  a ← arr !! 0%nat; b ← arr !! mid; c ← arr !! (n - 1)%nat;
  Some (if key_lt a b then (if key_lt b c then mid else if key_lt a c then (n - 1)%nat else 0%nat)
        else (if key_lt a c then 0%nat else if key_lt b c then (n - 1)%nat else mid)).

(** One turn of the loop of [key_introsort_impl] ends in two parts, the smaller
    of which is a call and the larger the next turn. *)
Fixpoint key_introsort_impl (depth : nat) (arr : list kv) : option (list kv) :=
  let n := length arr in
  if (n <=? 32)%nat then key_insertion_sort arr n
  else
    match depth with
    | O => key_heapsort arr n
    | S depth =>
        pi ← median_of_3 arr n;
        arr ← aswap arr pi (n - 1);
        pv ← arr !! (n - 1)%nat;
        '(arr, lo) ← partition_loop key_lt (n - 1) arr 0 0 pv;
        x ← arr !! lo;
        arr ← aset arr (n - 1) x;
        arr ← aset arr lo pv;
        if (lo <? n - 1 - lo)%nat then
          l ← key_introsort_impl depth (take lo arr);
          r ← key_introsort_impl depth (drop (S lo) arr);
          Some (l ++ pv :: r)
        else
          r ← key_introsort_impl depth (drop (S lo) arr);
          l ← key_introsort_impl depth (take lo arr);
          Some (l ++ pv :: r)
    end.

(** [for (nn = n; nn > 1; nn >>= 1) depth++]: at most 63 turns on an [int64_t]. *)
Fixpoint halvings (fuel : nat) (nn : Z) (depth : nat) : option nat :=
  match fuel with
  | O => None
  | S fuel => if 1 <? nn then halvings fuel (Z.shiftr nn 1) (S depth) else Some depth
  end.

Definition key_introsort (arr : list kv) (n : nat) : option (list kv) :=
  if (n <=? 1)%nat then Some arr
  else depth ← halvings 64 n 0; key_introsort_impl (depth * 2) arr.

(** ** The order *)
Definition key_le (p q : kv) : Prop := key_lt q p = false.

Lemma key_lt_spec p q : key_lt p q = true <-> p.1 < q.1 \/ (p.1 = q.1 /\ p.2 < q.2).
Proof. destruct p, q. unfold key_lt. simpl. lia. Qed.

Lemma key_le_spec p q : key_le p q <-> p.1 < q.1 \/ (p.1 = q.1 /\ p.2 <= q.2).
Proof. destruct p, q. unfold key_le, key_lt. simpl. lia. Qed.

Lemma key_lt_asym p q : key_lt p q = true -> key_lt q p = false.
Proof. destruct p, q. unfold key_lt. lia. Qed.

#[export] Instance key_le_dec p q : Decision (key_le p q) := decide (key_lt q p = false).

#[export] Instance key_le_trans : Transitive key_le.
Proof. intros p q r. rewrite !key_le_spec. lia. Qed.

#[export] Instance key_le_antisym : AntiSymm (=) key_le.
Proof. intros [k i] [k' i']. rewrite !key_le_spec. simpl. intros. f_equal; lia. Qed.

#[export] Instance key_le_total : Total key_le.
Proof. intros p q. rewrite !key_le_spec. lia. Qed.

(** The one sorted arrangement. *)
Definition kv_sort (arr : list kv) : list kv := merge_sort key_le arr.

Lemma kv_sort_perm arr : kv_sort arr ≡ₚ arr.
Proof. apply merge_sort_Permutation. Qed.

Lemma kv_sort_sorted arr : StronglySorted key_le (kv_sort arr).
Proof. apply StronglySorted_merge_sort; apply _. Qed.

Lemma kv_sort_unique arr arr' : arr' ≡ₚ arr -> StronglySorted key_le arr' -> arr' = kv_sort arr.
Proof.
  intros Hp Hs. eapply (StronglySorted_unique key_le); [done|apply kv_sort_sorted|].
  by rewrite kv_sort_perm.
Qed.

Lemma kv_sort_id arr : StronglySorted key_le arr -> kv_sort arr = arr.
Proof. intros. symmetry. by apply kv_sort_unique. Qed.

Lemma kv_sort_proper arr arr' : arr ≡ₚ arr' -> kv_sort arr = kv_sort arr'.
Proof. intros Hp. apply kv_sort_unique; [by rewrite kv_sort_perm|apply kv_sort_sorted]. Qed.

Lemma kv_sort_app l p r :
  Forall (fun x => key_le x p) l -> Forall (fun x => key_le p x) r ->
  kv_sort (l ++ p :: r) = kv_sort l ++ p :: kv_sort r.
Proof.
  intros Hl Hr. symmetry. apply kv_sort_unique; [by rewrite !kv_sort_perm|].
  rewrite Forall_forall in Hl, Hr. apply StronglySorted_app. split_and!.
  - intros x y. rewrite elem_of_cons, !kv_sort_perm. intros Hx [->|Hy]; [by apply Hl|].
    etrans; [by apply Hl|by apply Hr].
  - apply kv_sort_sorted.
  - apply StronglySorted_cons. split; [|apply kv_sort_sorted].
    apply Forall_forall. intros y. rewrite kv_sort_perm. apply Hr.
Qed.

(** ** The sorts *)
Lemma key_heapsort_sorts arr : key_heapsort arr (length arr) = Some (kv_sort arr).
Proof.
  destruct (heapsort_ok key_lt key_lt_asym arr) as (a' & Ha & Hp & Hs).
  unfold key_heapsort. rewrite Ha. f_equal. by apply kv_sort_unique.
Qed.

Lemma key_insertion_sort_sorts arr : key_insertion_sort arr (length arr) = Some (kv_sort arr).
Proof.
  destruct (insertion_sort_ok (fun x cur => key_lt cur x) key_le arr) as (a' & Ha & Hp & Hs).
  - induction arr as [|x arr IH]; constructor; [done|]. apply Forall_forall. intros y _.
    unfold agrees. destruct (key_lt y x) eqn:E; [by apply key_lt_asym|done].
  - unfold key_insertion_sort. rewrite Ha. f_equal. by apply kv_sort_unique.
Qed.

Lemma median_of_3_ok arr : (0 < length arr)%nat -> exists pi, median_of_3 arr (length arr) = Some pi /\ (pi < length arr)%nat.
Proof.
  intros Hn. assert (length arr / 2 < length arr)%nat by (apply Nat.div_lt; lia). unfold median_of_3.
  destruct (lookup_lt_is_Some_2 arr 0) as [x ->]; [lia|].
  destruct (lookup_lt_is_Some_2 arr (length arr / 2)) as [y ->]; [lia|].
  destruct (lookup_lt_is_Some_2 arr (length arr - 1)) as [z ->]; [lia|].
  cbn [mbind option_bind]. eexists. split; [done|]. repeat bif; lia.
Qed.

(** The partition puts the pivot between the smaller and the other pairs. *)
Lemma partition_pivot arr pv :
  exists L M, (
    '(a, lo) ← partition_loop key_lt (length arr) (arr ++ [pv]) 0 0 pv;
    x ← a !! lo; a ← aset a (length arr) x; a ← aset a lo pv; Some (a, lo)) = Some (L ++ pv :: M, length L) /\
    L ++ M ≡ₚ arr /\ Forall (fun x => key_le x pv) L /\ Forall (fun x => key_le pv x) M.
Proof.
  destruct (partition_loop_ok key_lt pv arr [] [] [pv]) as (L & M & Hr & Hp & HL & HM); [constructor..|].
  cbn [length app Nat.add] in Hr. rewrite Hr. cbn [mbind option_bind app] in *.
  assert (HL' : Forall (fun x => key_le x pv) L) by (eapply Forall_impl; [exact HL|intros; by apply key_lt_asym]).
  assert (Hlen : length arr = (length L + length M)%nat) by (rewrite <- length_app; by rewrite Hp).
  destruct M as [|m M].
  - exists L, []. cbn [app] in *. rewrite lookup_mid by done. cbn [mbind option_bind].
    rewrite aset_app by (rewrite Hlen; simpl; lia). cbn [mbind option_bind]. rewrite aset_app by done. done.
  - exists L, (M ++ [m]). cbn [app]. rewrite lookup_mid by done. cbn [mbind option_bind].
    change (L ++ m :: M ++ [pv]) with (L ++ (m :: M) ++ [pv]). rewrite app_assoc.
    rewrite aset_app by (rewrite Hlen, length_app; done). cbn [mbind option_bind].
    rewrite <- app_assoc. cbn [app]. rewrite aset_app by done. cbn [mbind option_bind].
    split_and!; [done| |done|].
    + rewrite <- Hp. solve_Permutation.
    + apply Forall_cons in HM as [? ?]. by apply Forall_app; repeat constructor.
Qed.

Lemma key_introsort_impl_sorts depth arr : key_introsort_impl depth arr = Some (kv_sort arr).
Proof.
  revert arr. induction depth as [|depth IH]; intros arr; cbn [key_introsort_impl];
    (destruct (length arr <=? 32)%nat eqn:E; [apply key_insertion_sort_sorts|]); bprop.
  { apply key_heapsort_sorts. }
  destruct (median_of_3_ok arr) as (pi & -> & Hpi); [lia|]. cbn [mbind option_bind].
  destruct (aswap_moved (length arr) arr pi (length arr - 1)) as (a1 & -> & M1); [lia..|]. cbn [mbind option_bind].
  pose proof (moved_length _ _ _ M1) as L1. apply moved_all in M1.
  destruct a1 as [|pv a1 _] using rev_ind; [simpl in *; lia|].
  rewrite length_app in L1. cbn [length] in L1. replace (length arr - 1)%nat with (length a1) by lia.
  rewrite lookup_mid by done. cbn [mbind option_bind].
  destruct (partition_pivot a1 pv) as (L & M & Hr & Hp & HL & HM).
  destruct (partition_loop _ _ _ _ _ _) as [[a2 lo]|]; cbn [mbind option_bind] in *; [|done].
  destruct (a2 !! lo) as [x|]; cbn [mbind option_bind] in *; [|done].
  destruct (aset a2 _ x) as [a3|]; cbn [mbind option_bind] in *; [|done].
  destruct (aset a3 lo pv) as [a4|]; cbn [mbind option_bind] in *; [|done].
  injection Hr as -> ->. rewrite take_app_length, !IH.
  replace (drop (S (length L)) (L ++ pv :: M)) with M; cycle 1.
  { rewrite <- (Nat.add_1_r (length L)), <- drop_drop. by rewrite drop_app_length. }
  cbn [mbind option_bind]. rewrite <- kv_sort_app by done.
  rewrite (kv_sort_proper (L ++ pv :: M) arr); [by destruct (_ <? _)%nat|].
  rewrite <- M1, <- Hp. solve_Permutation.
Qed.

(** The shift loop ends on every length an [int64_t] holds. *)
Lemma halvings_ok (fuel : nat) nn depth :
  nn < 2 ^ fuel -> exists d, halvings (S fuel) nn depth = Some d /\ (d <= depth + fuel)%nat.
Proof.
  revert nn depth. induction fuel as [|fuel IH]; intros nn depth Hn; cbn [halvings].
  { rewrite (proj2 (Z.ltb_ge _ _)) by (simpl in Hn; lia). exists depth. split; [done|lia]. }
  bif; [|exists depth; split; [done|lia]].
  destruct (IH (Z.shiftr nn 1) (S depth)) as (d & Hd & ?).
  { rewrite Z.shiftr_div_pow2 by lia. rewrite Nat2Z.inj_succ, Z.pow_succ_r in Hn by lia.
    apply Z.div_lt_upper_bound; lia. }
  exists d. split; [exact Hd|lia].
Qed.

Lemma key_introsort_ok arr : (length arr < 2 ^ 63) -> key_introsort arr (length arr) = Some (kv_sort arr).
Proof.
  intros Hn. unfold key_introsort. bif.
  { f_equal. symmetry. apply kv_sort_id. destruct arr as [|x [|y arr]]; [..|simpl in *; lia]; repeat constructor. }
  destruct (halvings_ok 63 (length arr) 0) as (d & -> & _); [done|]. cbn [mbind option_bind].
  apply key_introsort_impl_sorts.
Qed.
