(* ===== verification/Pool.v ===== *)
(** * The worker pool ([src/core/pool.c], [src/core/pool.h])

    A dispatch splits its range into tasks, fills the ring, publishes a window
    of tickets and takes part in claiming them; it returns when no task is
    pending.  Every atomic access is a step of a thread, thread 0 is the main
    thread, and threads interleave freely.  [p_plan], [p_base] and [p_log] do
    not exist in the code: the tasks of the last dispatch, its first ticket and
    the calls made for it. *)
From Stdlib Require Import ZArith Lia.
From S2P Require Import Prelude.
From Stdlib Require Import Zify ZifyNat.
#[local] Ltac Zify.zify_post_hook ::= Z.to_euclidean_division_equations.

Definition RAY_DISPATCH_MORSELS : Z := 8.
Definition RAY_MORSEL_ELEMS : Z := 1024.
Definition TASK_GRAIN : Z := RAY_DISPATCH_MORSELS * RAY_MORSEL_ELEMS.
Definition RAY_POOL_MAX_TASKS : Z := 65536.

(** ** The tasks of a dispatch *)

(** [while (new_cap < n_tasks && new_cap < MAX_RING_CAP) new_cap *= 2]. *)
Fixpoint ring_cap (fuel : nat) (new_cap n_tasks : Z) : Z :=
  match fuel with
  | O => new_cap
  | S fuel =>
      if (new_cap <? n_tasks) && (new_cap <? RAY_POOL_MAX_TASKS) then ring_cap fuel (new_cap * 2) n_tasks
      else new_cap
  end.

(** The capacity after the growth; [grow_ok] is the answer of the realloc. *)
Definition grow_ring (task_cap n_tasks : Z) (grow_ok : bool) : Z :=
  if task_cap <? n_tasks then
    let new_cap := ring_cap 17 task_cap n_tasks in
    if (task_cap <? new_cap) && grow_ok then new_cap else task_cap
  else task_cap.

(** Number of tasks, elements per task, elements, capacity. *)
Definition dispatch_split (task_cap total : Z) (grow_ok : bool) : Z * Z * Z * Z :=
  let total := if INT64_MAX - TASK_GRAIN + 1 <? total then INT64_MAX - TASK_GRAIN + 1 else total in
  let n_tasks := u32 ((total + TASK_GRAIN - 1) / TASK_GRAIN) in
  let cap := grow_ring task_cap n_tasks grow_ok in
  if cap <? n_tasks then (cap, (total + cap - 1) / cap, total, cap) else (n_tasks, TASK_GRAIN, total, cap).

(** [[start, end)] of every task. *)
Definition task_ranges (n_tasks grain total : Z) : list (Z * Z) :=
  (fun i => let start := i * grain in
            let stop := start + grain in (start, if total <? stop then total else stop)) <$> seqZ 0 n_tasks.

Definition ray_pool_dispatch_tasks (task_cap total : Z) (grow_ok : bool) : list (Z * Z) :=
  if total <=? 0 then []
  else let '(n_tasks, grain, total, _) := dispatch_split task_cap total grow_ok in task_ranges n_tasks grain total.

(** Task [i] of [ray_pool_dispatch_n] is [[i, i+1)]. *)
Definition ray_pool_dispatch_n_tasks (task_cap n_tasks : Z) (grow_ok : bool) : list (Z * Z) :=
  if n_tasks =? 0 then []
  else
    let cap := grow_ring task_cap n_tasks grow_ok in
    (fun i => (i, i + 1)) <$> seqZ 0 (if cap <? n_tasks then cap else n_tasks).

(** ** Threads *)
Inductive pc :=
  | Asleep                 (** in [ray_sem_wait] *)
  | Woken                  (** before the admission *)
  | Rejected               (** one too many, [n_running] to be taken back *)
  | Claim0                 (** before the load of [task_claim] *)
  | Claim1 (cur : nat)     (** before the load of [task_limit] *)
  | Claim2 (cur : nat)     (** [cur < lim], before the compare-exchange *)
  | Got (idx : nat)        (** before the test of [cancelled] *)
  | Running (idx : nat)    (** before the call of the task *)
  | Done (idx : nat)       (** before the decrement of [pending] *)
  | Leaving                (** window drained, [n_running] to be taken back *)
  | Waiting                (** main: the spin on [pending] *)
  | MainIdle.              (** main: outside a dispatch *)

#[export] Instance pc_eq_dec : EqDecision pc.
Proof. solve_decision. Defined.

Record pool := Pool {
  p_ring : list (option (Z * Z)); p_cap : nat;
  p_claim : nat; p_limit : nat; p_pending : nat;
  p_cancelled : bool; p_running : nat; p_active : nat; p_sem : nat;
  p_pcs : list pc;
  p_plan : list (Z * Z); p_base : nat; p_log : list (nat * (Z * Z)) }.

Definition ring_index (cap ticket : nat) : nat := Nat.land ticket (cap - 1).

(** The fill of the ring for tickets [base ..]. *)
Fixpoint fill_ring (cap base : nat) (ring : list (option (Z * Z))) (ts : list (Z * Z)) : list (option (Z * Z)) :=
  match ts with
  | [] => ring
  | t :: ts => fill_ring cap (S base) (<[ring_index cap base := Some t]> ring) ts
  end.

Definition set_pc (i : nat) (c : pc) (s : pool) : pool :=
  Pool (p_ring s) (p_cap s) (p_claim s) (p_limit s) (p_pending s) (p_cancelled s) (p_running s) (p_active s)
    (p_sem s) (<[i := c]> (p_pcs s)) (p_plan s) (p_base s) (p_log s).

(** The ring grown to [cap] slots and the publication of a window. *)
Definition publish (cap : nat) (ts : list (Z * Z)) (s : pool) : pool :=
  Pool (fill_ring cap (p_limit s) (p_ring s ++ replicate (cap - p_cap s) None) ts) cap
    (p_claim s) (p_limit s + length ts) (length ts)
    (p_cancelled s) (p_running s) (p_active s) (p_sem s + p_active s) (<[0%nat := Claim0]> (p_pcs s))
    ts (p_limit s) [].

(** The reset of [cancelled]; the calls before it no longer count. *)
Definition reset_cancelled (s : pool) : pool :=
  Pool (p_ring s) (p_cap s) (p_claim s) (p_limit s) (p_pending s) false (p_running s) (p_active s)
    (p_sem s) (p_pcs s) [] (p_limit s) [].

Definition with_claim (c : nat) (s : pool) : pool :=
  Pool (p_ring s) (p_cap s) c (p_limit s) (p_pending s) (p_cancelled s) (p_running s) (p_active s)
    (p_sem s) (p_pcs s) (p_plan s) (p_base s) (p_log s).
Definition with_left (n : nat) (s : pool) : pool :=
  Pool (p_ring s) (p_cap s) (p_claim s) (p_limit s) n (p_cancelled s) (p_running s) (p_active s)
    (p_sem s) (p_pcs s) (p_plan s) (p_base s) (p_log s).
Definition with_running (n : nat) (s : pool) : pool :=
  Pool (p_ring s) (p_cap s) (p_claim s) (p_limit s) (p_pending s) (p_cancelled s) n (p_active s)
    (p_sem s) (p_pcs s) (p_plan s) (p_base s) (p_log s).
Definition with_sem (n : nat) (s : pool) : pool :=
  Pool (p_ring s) (p_cap s) (p_claim s) (p_limit s) (p_pending s) (p_cancelled s) (p_running s) (p_active s)
    n (p_pcs s) (p_plan s) (p_base s) (p_log s).
Definition with_cancelled (b : bool) (s : pool) : pool :=
  Pool (p_ring s) (p_cap s) (p_claim s) (p_limit s) (p_pending s) b (p_running s) (p_active s)
    (p_sem s) (p_pcs s) (p_plan s) (p_base s) (p_log s).
Definition with_log (l : list (nat * (Z * Z))) (s : pool) : pool :=
  Pool (p_ring s) (p_cap s) (p_claim s) (p_limit s) (p_pending s) (p_cancelled s) (p_running s) (p_active s)
    (p_sem s) (p_pcs s) (p_plan s) (p_base s) l.

(** Where a thread goes when [pool_claim] returns false. *)
Definition drained (i : nat) : pc := if (i =? 0)%nat then Waiting else Leaving.

(** One step of thread [i]. *)
Inductive thread_step (i : nat) (s : pool) : pc -> pool -> Prop :=
  | TWake : p_sem s <> 0%nat -> thread_step i s Asleep (set_pc i Woken (with_sem (p_sem s - 1) s))
  | TAdmit : (p_running s < p_active s)%nat ->
      thread_step i s Woken (set_pc i Claim0 (with_running (p_running s + 1) s))
  | TReject : (p_active s <= p_running s)%nat ->
      thread_step i s Woken (set_pc i Rejected (with_running (p_running s + 1) s))
  | TRejected : thread_step i s Rejected (set_pc i Asleep (with_running (p_running s - 1) s))
  | TLoad : thread_step i s Claim0 (set_pc i (Claim1 (p_claim s)) s)
  | TOpen cur : (cur < p_limit s)%nat -> thread_step i s (Claim1 cur) (set_pc i (Claim2 cur) s)
  | TDrained cur : (p_limit s <= cur)%nat -> thread_step i s (Claim1 cur) (set_pc i (drained i) s)
  | TCas cur : cur = p_claim s -> thread_step i s (Claim2 cur) (set_pc i (Got cur) (with_claim (cur + 1) s))
  | TCasFail cur : (** lost the race, or a spurious failure *)
      thread_step i s (Claim2 cur) (set_pc i (Claim1 (p_claim s)) s)
  | TSkip idx : p_cancelled s = true -> thread_step i s (Got idx) (set_pc i (Done idx) s)
  | TStart idx : p_cancelled s = false -> thread_step i s (Got idx) (set_pc i (Running idx) s)
  | TRun idx t : p_ring s !! ring_index (p_cap s) idx = Some (Some t) ->
      thread_step i s (Running idx) (set_pc i (Done idx) (with_log (p_log s ++ [(idx, t)]) s))
  | TDone idx : thread_step i s (Done idx) (set_pc i Claim0 (with_left (p_pending s - 1) s))
  | TLeave : thread_step i s Leaving (set_pc i Asleep (with_running (p_running s - 1) s))
  | TReturn : p_pending s = 0%nat -> thread_step i s Waiting (set_pc i MainIdle s).

Inductive pool_step (s : pool) : pool -> Prop :=
  | PThread i c s' : p_pcs s !! i = Some c -> thread_step i s c s' -> pool_step s s'
  | PDispatch j cap ts : p_pcs s !! 0%nat = Some MainIdle -> ts <> [] ->
      cap = (p_cap s * 2 ^ j)%nat -> (length ts <= cap)%nat -> pool_step s (publish cap ts s)
  | PCancel : pool_step s (with_cancelled true s)
  | PReset : p_pcs s !! 0%nat = Some MainIdle -> pool_step s (reset_cancelled s).

(** A pool as created: a ring of [2^k] slots, the main thread idle, the workers
    asleep. *)
Definition ray_pool_create (k n_workers : nat) : pool :=
  Pool (replicate (2 ^ k) None) (2 ^ k) 0 0 0 false 0 n_workers 0 (MainIdle :: replicate n_workers Asleep) [] 0 [].

Definition pool_reach (k n_workers : nat) : pool -> Prop := rtc pool_step (ray_pool_create k n_workers).

(** ** The split covers the range *)
Lemma ring_cap_ok fuel c n : 0 < c -> c <= ring_cap fuel c n /\ (c < RAY_POOL_MAX_TASKS -> ring_cap fuel c n < 2 * RAY_POOL_MAX_TASKS).
Proof.
  revert c. induction fuel as [|fuel IH]; intros c Hc; cbn [ring_cap]; [unfold RAY_POOL_MAX_TASKS; lia|].
  bif; [|unfold RAY_POOL_MAX_TASKS; lia]. destruct (IH (c * 2)) as [H1 H2]; [lia|]. split; [lia|intros _].
  destruct (Z.lt_ge_cases (c * 2) RAY_POOL_MAX_TASKS) as [|Hge]; [by apply H2|].
  assert (ring_cap fuel (c * 2) n = c * 2) as ->; [|lia].
  destruct fuel; [done|]. cbn [ring_cap]. by rewrite (proj2 (Z.ltb_ge (c * 2) _) Hge), andb_false_r.
Qed.

(** The indices of a range. *)
Definition indices (r : Z * Z) : list Z := seqZ r.1 (r.2 - r.1).

Lemma seqZ_app_max m n1 n2 : 0 <= n1 -> 0 <= n2 -> seqZ m (n1 + n2) = seqZ m n1 ++ seqZ (m + n1) n2.
Proof. apply seqZ_app. Qed.

Lemma task_ranges_cover n_tasks grain total :
  0 <= n_tasks -> 0 < grain -> 0 <= total <= n_tasks * grain ->
  concat (indices <$> task_ranges n_tasks grain total) = seqZ 0 total.
Proof.
  intros Hn Hg Ht. unfold task_ranges. rewrite <- list_fmap_compose.
  assert (Hk : forall k : nat, concat ((indices ∘ (fun i => let start := i * grain in
      let stop := start + grain in (start, if total <? stop then total else stop))) <$> seqZ 0 k) = seqZ 0 ((k * grain) `min` total)).
  { induction k as [|k IH].
    - rewrite Z.min_l by lia. done.
    - rewrite Nat2Z.inj_succ, <- Z.add_1_r, seqZ_app, fmap_app, concat_app, IH by lia.
      assert (seqZ (0 + k) 1 = [Z.of_nat k]) as -> by (unfold seqZ; cbn; f_equal; lia).
      cbn [fmap list_fmap concat]. rewrite app_nil_r. unfold compose, indices. cbn zeta. cbn [fst snd].
      bif.
      + destruct (Z.le_gt_cases (k * grain) total).
        * rewrite Z.min_l, Z.min_r by lia. rewrite <- seqZ_app by lia. f_equal. lia.
        * rewrite !Z.min_r by lia. rewrite (seqZ_nil _ (total - _)) by lia. by rewrite app_nil_r.
      + rewrite !Z.min_l by lia. rewrite <- seqZ_app by lia. f_equal. lia. }
  replace n_tasks with (Z.of_nat (Z.to_nat n_tasks)) by lia. rewrite Hk. f_equal. lia.
Qed.

Lemma dispatch_split_ok task_cap total grow_ok :
  0 < task_cap < 2 ^ 32 -> 0 < total < 2 ^ 45 - TASK_GRAIN ->
  let '(n_tasks, grain, total', cap) := dispatch_split task_cap total grow_ok in
  total' = total /\ 0 < n_tasks <= cap /\ 0 < grain /\ total <= n_tasks * grain /\
  (cap < (total + TASK_GRAIN - 1) / TASK_GRAIN \/ grain = TASK_GRAIN) /\ task_cap <= cap.
Proof.
  intros Hc Ht. unfold dispatch_split, TASK_GRAIN, RAY_DISPATCH_MORSELS, RAY_MORSEL_ELEMS in *.
  change (8 * 1024) with 8192 in *. rewrite (proj2 (Z.ltb_ge (INT64_MAX - 8192 + 1) total)) by (unfold INT64_MAX; lia).
  rewrite u32_small by lia. set (n := (total + 8192 - 1) / 8192). assert (Hn : 0 < n) by (unfold n; lia).
  assert (task_cap <= grow_ring task_cap n grow_ok).
  { unfold grow_ring. repeat bif; [|lia..]. pose proof (ring_cap_ok 17 task_cap n). lia. }
  set (cap := grow_ring _ _ _) in *. bif.
  - assert (0 < (total + cap - 1) / cap) by (apply Z.div_str_pos; lia).
    pose proof (Z.div_mod (total + cap - 1) cap ltac:(lia)). pose proof (Z.mod_pos_bound (total + cap - 1) cap ltac:(lia)).
    split_and!; lia.
  - unfold n in *. split_and!; lia || tauto.
Qed.

(** ** The invariant *)
Definition owns (c : pc) : option nat :=
  match c with Got idx | Running idx | Done idx => Some idx | _ => None end.
Definition called (c : pc) : option nat := match c with Done idx => Some idx | _ => None end.

(** A worker past the admission, and one that has counted itself. *)
Definition let_in (c : pc) : option unit :=
  match c with Claim0 | Claim1 _ | Claim2 _ | Got _ | Running _ | Done _ | Leaving => Some () | _ => None end.
Definition counted (c : pc) : option unit := match c with Rejected => Some () | c => let_in c end.

Definition pc_ok (s : pool) (i : nat) (c : pc) : Prop :=
  match c with
  | Asleep | Woken | Rejected | Leaving => i <> 0%nat
  | Claim1 cur => (cur <= p_claim s)%nat
  | Claim2 cur => (cur < p_limit s)%nat
  | Waiting => i = 0%nat /\ p_claim s = p_limit s
  | MainIdle => i = 0%nat /\ p_pending s = 0%nat
  | _ => True
  end.

Record pool_inv (s : pool) : Prop := {
  pi_cap : exists k, p_cap s = (2 ^ k)%nat;
  pi_ring : length (p_ring s) = p_cap s;
  pi_window : p_limit s = (p_base s + length (p_plan s))%nat /\ (length (p_plan s) <= p_cap s)%nat;
  pi_claim : (p_base s <= p_claim s <= p_limit s)%nat;
  pi_slots : forall j t, p_plan s !! j = Some t -> p_ring s !! ring_index (p_cap s) (p_base s + j) = Some (Some t);
  pi_main : exists c, p_pcs s !! 0%nat = Some c;
  pi_pcs : forall i c, p_pcs s !! i = Some c -> pc_ok s i c;
  pi_tickets : exists fin, fin ++ omap owns (p_pcs s) ≡ₚ seq (p_base s) (p_claim s - p_base s) /\
    (p_log s).*1 ⊆+ fin ++ omap called (p_pcs s) /\
    (p_cancelled s = false -> (p_log s).*1 ≡ₚ fin ++ omap called (p_pcs s));
  pi_log : forall idx t, (idx, t) ∈ p_log s -> (p_base s <= idx)%nat /\ p_plan s !! (idx - p_base s)%nat = Some t;
  pi_pending : p_pending s = (length (omap owns (p_pcs s)) + (p_limit s - p_claim s))%nat;
  pi_count : p_running s = length (omap counted (tail (p_pcs s)));
  pi_admitted : (length (omap let_in (tail (p_pcs s))) <= p_active s)%nat }.

Lemma omap_mid {A B} (f : A -> option B) l1 c l2 :
  omap f (l1 ++ c :: l2) = omap f l1 ++ option_list (f c) ++ omap f l2.
Proof. rewrite omap_app. f_equal. cbn. by destruct (f c). Qed.

(** Replacing the state of a thread by one that [f] does not distinguish. *)
Lemma omap_insert_same {A B} (f : A -> option B) (l : list A) i c c' :
  l !! i = Some c -> f c' = f c -> omap f (<[i := c']> l) = omap f l.
Proof.
  intros Hl Hf. rewrite <- (take_drop_middle l i c Hl) at 2. rewrite insert_take_drop by (by eapply lookup_lt_Some).
  by rewrite !omap_mid, Hf.
Qed.

Lemma omap_insert_perm {A B} (f : A -> option B) (l : list A) i c c' :
  l !! i = Some c -> option_list (f c) ++ omap f (<[i := c']> l) ≡ₚ option_list (f c') ++ omap f l.
Proof.
  intros Hl. rewrite <- (take_drop_middle l i c Hl) at 2. rewrite insert_take_drop by (by eapply lookup_lt_Some).
  rewrite !omap_mid. solve_Permutation.
Qed.

Lemma tail_insert {A} (l : list A) i c : tail (<[i := c]> l) = match i with O => tail l | S i => <[i := c]> (tail l) end.
Proof. destruct l as [|x l], i; done. Qed.

(** The number of workers in some state, after a step of thread [i]. *)
Lemma tail_count {A B} (f : A -> option B) (l : list A) i c c' :
  l !! i = Some c -> i <> 0%nat ->
  (length (option_list (f c)) + length (omap f (tail (<[i := c']> l))) =
   length (option_list (f c')) + length (omap f (tail l)))%nat.
Proof.
  intros Hl Hi. rewrite tail_insert. destruct i as [|i]; [done|]. destruct l as [|x l]; [done|].
  rewrite <- !length_app. apply Permutation_length. by apply omap_insert_perm.
Qed.

Lemma slot_mod k n : ring_index (2 ^ k) n = (n mod 2 ^ k)%nat.
Proof. unfold ring_index. rewrite Nat.sub_1_r, <- Nat.ones_equiv. apply Nat.land_ones. Qed.

Lemma slot_lt k n : (ring_index (2 ^ k) n < 2 ^ k)%nat.
Proof. rewrite slot_mod. apply Nat.mod_upper_bound. by apply Nat.pow_nonzero. Qed.

Lemma length_fill_ring cap base ring ts : length (fill_ring cap base ring ts) = length ring.
Proof. revert base ring. induction ts as [|t ts IH]; intros base ring; cbn [fill_ring]; [done|]. by rewrite IH, length_insert. Qed.

Lemma fill_ring_other cap base ring ts k :
  (forall j, (j < length ts)%nat -> ring_index cap (base + j) <> k) -> fill_ring cap base ring ts !! k = ring !! k.
Proof.
  revert base ring. induction ts as [|t ts IH]; intros base ring Hk; cbn [fill_ring]; [done|]. rewrite IH.
  - rewrite list_lookup_insert_ne; [done|]. rewrite <- (Nat.add_0_r base). apply Hk. simpl. lia.
  - intros j Hj. rewrite Nat.add_succ_l, <- Nat.add_succ_r. apply Hk. simpl. lia.
Qed.

(** Tickets of one window have slots of their own. *)
Lemma slot_inj k base i j :
  (i < 2 ^ k)%nat -> (j < 2 ^ k)%nat -> ring_index (2 ^ k) (base + i) = ring_index (2 ^ k) (base + j) -> i = j.
Proof.
  rewrite !slot_mod. intros Hi Hj He. set (m := (2 ^ k)%nat) in *.
  pose proof (Nat.div_mod_eq (base + i) m) as E1. pose proof (Nat.div_mod_eq (base + j) m) as E2.
  rewrite He in E1. generalize dependent ((base + j) mod m)%nat. intros r _ E1 E2.
  generalize dependent ((base + i) / m)%nat. generalize dependent ((base + j) / m)%nat. intros q2 E2 q1 E1.
  destruct (Nat.lt_trichotomy q1 q2) as [|[->|]]; nia.
Qed.

Lemma fill_ring_ok k base ring ts j t :
  length ring = (2 ^ k)%nat -> (length ts <= 2 ^ k)%nat -> ts !! j = Some t ->
  fill_ring (2 ^ k) base ring ts !! ring_index (2 ^ k) (base + j) = Some (Some t).
Proof.
  revert base ring j. induction ts as [|t0 ts IH]; intros base ring j Hr Hl Hj; [done|]. cbn [fill_ring length] in *.
  destruct j as [|j]; simplify_eq/=.
  - rewrite Nat.add_0_r, fill_ring_other.
    + rewrite list_lookup_insert_eq; [done|]. rewrite Hr. apply slot_lt.
    + intros j Hj He. assert (S j = 0%nat) as [=].
      apply (slot_inj k base); [lia..|]. by rewrite Nat.add_succ_r, Nat.add_0_r.
  - rewrite Nat.add_succ_r, <- Nat.add_succ_l. apply IH; [by rewrite length_insert|lia|done].
Qed.

(** ** Every step keeps it *)
Lemma pool_init_inv k n : pool_inv (ray_pool_create k n).
Proof.
  assert (Hh : forall B (f : pc -> option B), f Asleep = None -> omap f (replicate n Asleep) = []).
  { intros B f Hf. induction n as [|m IH]; cbn; [done|]. by rewrite Hf. }
  split; unfold ray_pool_create;
    cbn [p_ring p_cap p_claim p_limit p_pending p_cancelled p_running p_active p_pcs p_plan p_base p_log omap list_omap tail owns called].
  - by exists k.
  - apply length_replicate.
  - cbn. lia.
  - lia.
  - done.
  - by exists MainIdle.
  - intros [|i] c; [intros [= <-]; done|]. intros [-> _]%lookup_replicate. done.
  - exists []. rewrite !Hh by done. done.
  - intros idx t []%not_elem_of_nil.
  - by rewrite Hh.
  - by rewrite Hh.
  - rewrite Hh by done. simpl. lia.
Qed.

(** Outside a dispatch no thread owns a ticket. *)
Lemma idle_empty s :
  pool_inv s -> p_pcs s !! 0%nat = Some MainIdle ->
  omap owns (p_pcs s) = [] /\ omap called (p_pcs s) = [] /\ p_claim s = p_limit s.
Proof.
  intros I H0. destruct (pi_pcs _ I _ _ H0) as [_ Hz]. pose proof (pi_pending _ I) as Hpe. pose proof (pi_claim _ I).
  assert (Eh : omap owns (p_pcs s) = []) by (apply length_zero_iff_nil; lia). split_and!; [done| |lia].
  apply elem_of_nil_inv. intros idx (c & Hc & Hid)%list_elem_of_omap. apply (not_elem_of_nil idx). rewrite <- Eh.
  apply list_elem_of_omap. exists c. by destruct c.
Qed.

Lemma publish_inv s j cap ts :
  pool_inv s -> p_pcs s !! 0%nat = Some MainIdle -> ts <> [] -> cap = (p_cap s * 2 ^ j)%nat -> (length ts <= cap)%nat ->
  pool_inv (publish cap ts s).
Proof.
  intros I H0 Hne Ecap Hlen. destruct (idle_empty s I H0) as (Eh & Ec & Ecl).
  destruct I as [[k Hk] Hr Hw Hc Hs Hm Hp Ht Hl Hpe Hco Ha]. destruct (Hp _ _ H0) as [_ Hz].
  rewrite Hk, <- Nat.pow_add_r in Ecap.
  assert (Hcap : (p_cap s <= cap)%nat) by (rewrite Ecap, Hk; apply Nat.pow_le_mono_r; lia).
  split; unfold publish;
    cbn [p_ring p_cap p_claim p_limit p_pending p_cancelled p_running p_active p_pcs p_plan p_base p_log].
  - by exists (k + j)%nat.
  - rewrite length_fill_ring, length_app, length_replicate. lia.
  - lia.
  - lia.
  - intros i t Hj. rewrite Ecap in *. apply fill_ring_ok; [|done..]. rewrite length_app, length_replicate. lia.
  - exists Claim0. apply list_lookup_insert_eq. by eapply lookup_lt_Some.
  - intros i c Hi. destruct (decide (i = 0%nat)) as [->|Hn].
    { rewrite list_lookup_insert_eq in Hi by (by eapply lookup_lt_Some). by injection Hi as <-. }
    rewrite list_lookup_insert_ne in Hi by done. specialize (Hp i c Hi).
    destruct c; try done; cbn in *; [lia|by destruct Hp..].
  - exists []. rewrite (omap_insert_same owns _ _ MainIdle), Eh, (omap_insert_same called _ _ MainIdle), Ec by done.
    replace (p_claim s - p_limit s)%nat with 0%nat by lia. done.
  - intros idx t []%not_elem_of_nil.
  - rewrite (omap_insert_same owns _ _ MainIdle), Eh by done. simpl. lia.
  - by rewrite tail_insert.
  - by rewrite tail_insert.
Qed.

Lemma reset_inv s : pool_inv s -> p_pcs s !! 0%nat = Some MainIdle -> pool_inv (reset_cancelled s).
Proof.
  intros I H0. destruct (idle_empty s I H0) as (Eh & Ec & Ecl). destruct I as [Hk Hr Hw Hc Hs Hm Hp Ht Hl Hpe Hco Ha].
  split; unfold reset_cancelled;
    cbn [p_ring p_cap p_claim p_limit p_pending p_cancelled p_running p_active p_pcs p_plan p_base p_log]; try done.
  - simpl. lia.
  - lia.
  - exists []. rewrite Eh, Ec. by replace (p_claim s - p_limit s)%nat with 0%nat by lia.
  - intros idx t []%not_elem_of_nil.
Qed.

Lemma cancel_inv s : pool_inv s -> pool_inv (with_cancelled true s).
Proof.
  intros [Hk Hr Hw Hc Hs Hm Hp (fin & Hf & Hsub & _) Hl Hpe Hco Ha]. split; try done. by exists fin.
Qed.

(** What a step of thread [i] from [c] to [c'] has to show. *)
Lemma update_inv s i c c' claim pending running sem log :
  pool_inv s -> p_pcs s !! i = Some c ->
  let s' := Pool (p_ring s) (p_cap s) claim (p_limit s) pending (p_cancelled s) running (p_active s) sem
    (<[i := c']> (p_pcs s)) (p_plan s) (p_base s) log in
  (p_base s <= claim <= p_limit s)%nat -> (p_claim s <= claim)%nat -> pc_ok s' i c' ->
  (pending = p_pending s \/ p_pending s <> 0%nat) ->
  (forall fin, fin ++ omap owns (p_pcs s) ≡ₚ seq (p_base s) (p_claim s - p_base s) ->
    exists fin', fin' ++ omap owns (<[i := c']> (p_pcs s)) ≡ₚ seq (p_base s) (claim - p_base s) /\
      ((p_log s).*1 ⊆+ fin ++ omap called (p_pcs s) -> log.*1 ⊆+ fin' ++ omap called (<[i := c']> (p_pcs s))) /\
      (p_cancelled s = false -> (p_log s).*1 ≡ₚ fin ++ omap called (p_pcs s) ->
        log.*1 ≡ₚ fin' ++ omap called (<[i := c']> (p_pcs s)))) ->
  (forall idx t, (idx, t) ∈ log -> (p_base s <= idx)%nat /\ p_plan s !! (idx - p_base s)%nat = Some t) ->
  (pending + length (option_list (owns c)) + (p_limit s - p_claim s) =
    p_pending s + length (option_list (owns c')) + (p_limit s - claim))%nat ->
  (if (i =? 0)%nat then running = p_running s
   else running + length (option_list (counted c)) = p_running s + length (option_list (counted c')))%nat ->
  (i <> 0%nat -> let_in c' = let_in c \/ let_in c' = None \/ (p_running s < p_active s)%nat) -> pool_inv s'.
Proof.
  intros [[k Hk] Hr Hw Hc Hs Hm Hp Ht Hl Hpe Hco Ha] Hi s' Hcl Hmono Hpc Hpd Htk Hlog Hpend Hrun Hadm.
  pose proof (omap_insert_perm owns _ _ _ c' Hi) as Hh. apply Permutation_length in Hh. rewrite !length_app in Hh.
  split; unfold s'; cbn [p_ring p_cap p_claim p_limit p_pending p_cancelled p_running p_active p_pcs p_plan p_base p_log].
  - by exists k.
  - done.
  - done.
  - done.
  - done.
  - destruct (decide (i = 0%nat)) as [->|Hn].
    + exists c'. apply list_lookup_insert_eq. by eapply lookup_lt_Some.
    + by rewrite list_lookup_insert_ne by done.
  - intros j c1 Hj. destruct (decide (i = j)) as [->|Hn].
    { rewrite list_lookup_insert_eq in Hj by (by eapply lookup_lt_Some). by injection Hj as <-. }
    rewrite list_lookup_insert_ne in Hj by done. specialize (Hp j c1 Hj).
    destruct c1; cbn in *; try done; [lia|destruct Hp; lia|destruct Hpd; [|lia]; destruct Hp; split; [done|lia]].
  - destruct Ht as (fin & Hf & Hsub & Heq). destruct (Htk fin Hf) as (fin' & Hf' & Hs1 & Hs2).
    exists fin'. split_and!; [done|by apply Hs1|]. intros Hz. apply Hs2; [done|by apply Heq].
  - done.
  - lia.
  - destruct (i =? 0)%nat eqn:E; bprop.
    + subst i. rewrite tail_insert. lia.
    + pose proof (tail_count counted _ _ _ c' Hi E). lia.
  - destruct (decide (i = 0%nat)) as [->|Hn]; [by rewrite tail_insert|].
    pose proof (tail_count let_in _ _ _ c' Hi Hn) as Hta.
    destruct (Hadm Hn) as [E|[E|E]].
    + rewrite E in Hta. lia.
    + rewrite E in Hta. simpl in Hta. lia.
    + assert (length (omap let_in (tail (p_pcs s))) <= length (omap counted (tail (p_pcs s))))%nat.
      { generalize (tail (p_pcs s)). intros l. induction l as [|x l IH]; [done|]. destruct x; cbn; lia. }
      destruct (let_in c'); simpl in Hta; lia.
Qed.

(** A step that takes and gives back no ticket. *)
Lemma same_tickets s i c c' :
  p_pcs s !! i = Some c -> owns c' = owns c -> called c' = called c ->
  forall fin, fin ++ omap owns (p_pcs s) ≡ₚ seq (p_base s) (p_claim s - p_base s) ->
    exists fin', fin' ++ omap owns (<[i := c']> (p_pcs s)) ≡ₚ seq (p_base s) (p_claim s - p_base s) /\
      ((p_log s).*1 ⊆+ fin ++ omap called (p_pcs s) -> (p_log s).*1 ⊆+ fin' ++ omap called (<[i := c']> (p_pcs s))) /\
      (p_cancelled s = false -> (p_log s).*1 ≡ₚ fin ++ omap called (p_pcs s) ->
        (p_log s).*1 ≡ₚ fin' ++ omap called (<[i := c']> (p_pcs s))).
Proof.
  intros Hi Hh Hc fin Hf. exists fin.
  rewrite (omap_insert_same owns _ _ _ _ Hi Hh), (omap_insert_same called _ _ _ _ Hi Hc). by split_and!.
Qed.

Lemma held_pending s i idx c : pool_inv s -> p_pcs s !! i = Some c -> owns c = Some idx -> p_pending s <> 0%nat.
Proof.
  intros I Hi Hh. rewrite (pi_pending _ I).
  assert (idx ∈ omap owns (p_pcs s)) as Hin; [|destruct (omap owns (p_pcs s)); [by apply not_elem_of_nil in Hin|simpl; lia]].
  apply list_elem_of_omap. exists c. split; [by eapply list_elem_of_lookup_2|done].
Qed.

Lemma held_range s i idx c :
  pool_inv s -> p_pcs s !! i = Some c -> owns c = Some idx -> (p_base s <= idx < p_claim s)%nat.
Proof.
  intros I Hi Hh. destruct (pi_tickets _ I) as (fin & Hf & _).
  assert (idx ∈ seq (p_base s) (p_claim s - p_base s)) as Hin; [|apply elem_of_seq in Hin; lia].
  rewrite <- Hf. apply elem_of_app. right. apply list_elem_of_omap. exists c.
  split; [by eapply list_elem_of_lookup_2|done].
Qed.

Lemma main_states s i c : pool_inv s -> p_pcs s !! i = Some c -> pc_ok s i c.
Proof. intros I. apply (pi_pcs _ I). Qed.

(** A step of the thread of [Hi] that moves no ticket. *)
Ltac plain_step I Hi s i c' run sem :=
  apply (update_inv s i _ c' (p_claim s) (p_pending s) run sem (p_log s) I Hi);
    [apply (pi_claim _ I)|done| |by left|by apply (same_tickets _ _ _ _ Hi)|apply (pi_log _ I)|done| |].

Lemma thread_step_inv s i c s' : pool_inv s -> p_pcs s !! i = Some c -> thread_step i s c s' -> pool_inv s'.
Proof.
  intros I Hi Hst. pose proof (pi_claim _ I) as Hcl. pose proof (main_states _ _ _ I Hi) as Hok.
  destruct Hst as [Hsem|Hadm|Hrej| | |cur Hcur|cur Hcur|cur ->|cur|idx Hcan|idx Hcan|idx t Hring|idx| |Hpend].
  - plain_step I Hi s i Woken (p_running s) (p_sem s - 1)%nat; [done|by bif|by left].
  - plain_step I Hi s i Claim0 (p_running s + 1)%nat (p_sem s); [done| |by right; right].
    cbn in Hok. rewrite (proj2 (Nat.eqb_neq _ _)) by done. simpl. lia.
  - plain_step I Hi s i Rejected (p_running s + 1)%nat (p_sem s); [done| |by left].
    cbn in Hok. rewrite (proj2 (Nat.eqb_neq _ _)) by done. simpl. lia.
  - cbn in Hok. assert (1 <= p_running s)%nat.
    { rewrite (pi_count _ I). destruct i as [|i]; [done|]. destruct (p_pcs s) as [|m ws]; [done|]. cbn in *.
      pose proof (omap_insert_perm counted _ _ _ Asleep Hi) as Hx. apply Permutation_length in Hx. simpl in Hx. lia. }
    plain_step I Hi s i Asleep (p_running s - 1)%nat (p_sem s); [done| |by left].
    rewrite (proj2 (Nat.eqb_neq _ _)) by done. simpl. lia.
  - plain_step I Hi s i (Claim1 (p_claim s)) (p_running s) (p_sem s); [by cbn|by bif|by left].
  - plain_step I Hi s i (Claim2 cur) (p_running s) (p_sem s); [done|by bif|by left].
  - unfold drained. destruct (i =? 0)%nat eqn:E; bprop.
    + plain_step I Hi s i Waiting (p_running s) (p_sem s); [cbn in *; lia|by rewrite (proj2 (Nat.eqb_eq _ _))|done].
    + plain_step I Hi s i Leaving (p_running s) (p_sem s); [done|by bif|by left].
  - cbn in Hok. pose proof Hok as Hlim.
    apply (update_inv s i (Claim2 (p_claim s)) (Got (p_claim s)) (p_claim s + 1) (p_pending s) (p_running s) (p_sem s) (p_log s) I Hi).
    + lia.
    + lia.
    + done.
    + by left.
    + intros fin Hf. exists fin. rewrite (omap_insert_same called _ _ _ _ Hi) by done. split_and!; [|done..].
      pose proof (omap_insert_perm owns _ _ _ (Got (p_claim s)) Hi) as Hx. cbn [owns option_list app] in Hx. rewrite Hx.
      replace (p_claim s + 1 - p_base s)%nat with (S (p_claim s - p_base s)) by lia. rewrite seq_S, <- Hf.
      replace (p_base s + (p_claim s - p_base s))%nat with (p_claim s) by lia. solve_Permutation.
    + apply (pi_log _ I).
    + simpl. lia.
    + by bif.
    + by left.
  - plain_step I Hi s i (Claim1 (p_claim s)) (p_running s) (p_sem s); [by cbn|by bif|by left].
  - apply (update_inv s i (Got idx) (Done idx) (p_claim s) (p_pending s) (p_running s) (p_sem s) (p_log s) I Hi);
      [done|done|done|by left| |apply (pi_log _ I)|done|by bif|by left].
    intros fin Hf. exists fin. rewrite (omap_insert_same owns _ _ _ _ Hi) by done. split_and!; [done| |congruence].
    intros Hsub. pose proof (omap_insert_perm called _ _ _ (Done idx) Hi) as Hx. cbn [called option_list app] in Hx. rewrite Hx.
    etrans; [exact Hsub|]. apply submseteq_skips_l. by apply submseteq_cons.
  - plain_step I Hi s i (Running idx) (p_running s) (p_sem s); [done|by bif|by left].
  - apply (update_inv s i (Running idx) (Done idx) (p_claim s) (p_pending s) (p_running s) (p_sem s) (p_log s ++ [(idx, t)]) I Hi);
      [done|done|done|by left| | |done|by bif|by left].
    + intros fin Hf. exists fin. rewrite (omap_insert_same owns _ _ _ _ Hi) by done.
      pose proof (omap_insert_perm called _ _ _ (Done idx) Hi) as Hx. cbn [called option_list app] in Hx.
      rewrite fmap_app. cbn [fmap list_fmap fst]. split_and!; [done|..].
      * intros Hsub. rewrite Hx. trans (idx :: (p_log s).*1); [apply Permutation_submseteq; solve_Permutation|].
        trans (idx :: (fin ++ omap called (p_pcs s))); [by apply submseteq_skip|].
        apply Permutation_submseteq. solve_Permutation.
      * intros _ Heq. rewrite Hx, Heq. solve_Permutation.
    + intros idx' t' [Hin|[= -> ->]%list_elem_of_singleton]%elem_of_app; [by apply (pi_log _ I)|].
      pose proof (held_range s i idx _ I Hi eq_refl) as Hrange. pose proof (pi_window _ I) as [Hw _]. split; [lia|].
      destruct (lookup_lt_is_Some_2 (p_plan s) (idx - p_base s)) as [t1 Ht1]; [lia|].
      pose proof (pi_slots _ I _ _ Ht1) as Hsl. replace (p_base s + (idx - p_base s))%nat with idx in Hsl by lia. congruence.
  - pose proof (held_pending s i idx _ I Hi eq_refl).
    apply (update_inv s i (Done idx) Claim0 (p_claim s) (p_pending s - 1) (p_running s) (p_sem s) (p_log s) I Hi);
      [done|done|done|by right| |apply (pi_log _ I)|simpl; lia|by bif|by left].
    intros fin Hf. exists (idx :: fin).
    pose proof (omap_insert_perm owns _ _ _ Claim0 Hi) as Hx. pose proof (omap_insert_perm called _ _ _ Claim0 Hi) as Hy.
    cbn [owns called option_list app] in Hx, Hy. split_and!.
    + rewrite <- Hf, <- Hx. solve_Permutation.
    + intros Hsub. etrans; [exact Hsub|]. apply Permutation_submseteq. rewrite <- Hy. solve_Permutation.
    + intros _ Heq. rewrite Heq, <- Hy. solve_Permutation.
  - cbn in Hok. assert (1 <= p_running s)%nat.
    { rewrite (pi_count _ I). destruct i as [|i]; [done|]. destruct (p_pcs s) as [|m ws]; [done|]. cbn in *.
      pose proof (omap_insert_perm counted _ _ _ Asleep Hi) as Hx. apply Permutation_length in Hx. simpl in Hx. lia. }
    plain_step I Hi s i Asleep (p_running s - 1)%nat (p_sem s); [done| |by right; left].
    rewrite (proj2 (Nat.eqb_neq _ _)) by done. simpl. lia.
  - cbn in Hok. destruct Hok as [-> _]. plain_step I Hi s 0%nat MainIdle (p_running s) (p_sem s); done.
Qed.


Lemma pool_step_inv s s' : pool_inv s -> pool_step s s' -> pool_inv s'.
Proof.
  intros I [i c s2 Hi Hst|j cap ts H0 Hne Hcap Hlen| |H0].
  - by eapply thread_step_inv.
  - by eapply publish_inv.
  - by apply cancel_inv.
  - by apply reset_inv.
Qed.

Lemma pool_reach_inv k n s : pool_reach k n s -> pool_inv s.
Proof.
  unfold pool_reach. intros Hr. cut (pool_inv (ray_pool_create k n)); [|apply pool_init_inv].
  induction Hr as [|s1 s2 s3 Hst _ IH]; [done|]. intros I. apply IH. by eapply pool_step_inv.
Qed.

(** ** What a dispatch does *)
Lemma log_plan s :
  pool_inv s -> p_pcs s !! 0%nat = Some MainIdle -> p_cancelled s = false -> (p_log s).*2 ≡ₚ p_plan s.
Proof.
  intros I H0 Hc. destruct (idle_empty s I H0) as (Eh & Ec & Ecl).
  destruct (pi_tickets _ I) as (fin & Hf & _ & Heq). specialize (Heq Hc). rewrite Eh, app_nil_r in Hf. rewrite Ec, app_nil_r in Heq.
  assert (Hs : (p_log s).*1 ≡ₚ seq (p_base s) (length (p_plan s))).
  { rewrite Heq, Hf. apply Permutation_refl'. f_equal. pose proof (pi_window _ I). lia. }
  assert (E : Some <$> (p_log s).*2 = (fun idx => p_plan s !! (idx - p_base s)%nat) <$> (p_log s).*1).
  { rewrite <- !list_fmap_compose. apply list_fmap_ext. intros i [idx t] Hi. simpl.
    apply list_elem_of_lookup_2 in Hi. by apply (pi_log _ I) in Hi as [_ ->]. }
  assert (Hp : Some <$> (p_log s).*2 ≡ₚ Some <$> p_plan s).
  { rewrite E. trans ((fun idx => p_plan s !! (idx - p_base s)%nat) <$> seq (p_base s) (length (p_plan s))); [by apply fmap_Permutation|].
    enough ((fun idx => p_plan s !! (idx - p_base s)%nat) <$> seq (p_base s) (length (p_plan s)) = Some <$> p_plan s) as -> by done.
    apply list_eq. intros i. rewrite !list_lookup_fmap.
    destruct (decide (i < length (p_plan s))%nat) as [Hl|Hl].
    - rewrite lookup_seq_lt by done. simpl. replace (p_base s + i - p_base s)%nat with i by lia.
      destruct (lookup_lt_is_Some_2 (p_plan s) i) as [x ->]; done.
    - rewrite (lookup_ge_None_2 (p_plan s)) by lia. rewrite lookup_ge_None_2 by (rewrite length_seq; lia). done. }
  clear -Hp. revert Hp. generalize (p_log s).*2, (p_plan s). intros l1 l2 Hp.
  apply (fmap_Permutation (fun o => default (0, 0) o)) in Hp. rewrite <- !list_fmap_compose in Hp.
  by rewrite !list_fmap_id in Hp.
Qed.

(** A thread that owns a ticket finishes its task. *)
Lemma finish_ticket s i c idx :
  pool_inv s -> p_pcs s !! i = Some c -> owns c = Some idx ->
  exists s', rtc pool_step s s' /\ pool_inv s' /\ p_pcs s' !! 0%nat <> Some MainIdle /\
    p_pending s' = (p_pending s - 1)%nat /\ p_plan s' = p_plan s.
Proof.
  assert (Hd : forall s, pool_inv s -> p_pcs s !! i = Some (Done idx) ->
    exists s', rtc pool_step s s' /\ pool_inv s' /\ p_pcs s' !! 0%nat <> Some MainIdle /\
      p_pending s' = (p_pending s - 1)%nat /\ p_plan s' = p_plan s).
  { clear. intros s I Hi. eexists. split_and!; [apply rtc_once, (PThread _ i _ _ Hi), TDone| | |done|done].
    - eapply pool_step_inv; [exact I|]. apply (PThread _ i _ _ Hi), TDone.
    - pose proof (held_pending _ _ _ _ I Hi eq_refl) as Hp. cbn. destruct (decide (i = 0%nat)) as [->|Hn].
      + rewrite list_lookup_insert_eq; [done|]. by eapply lookup_lt_Some.
      + rewrite list_lookup_insert_ne by done. intros H0. by apply (pi_pcs _ I) in H0 as [_ H0]. }
  assert (Hr : forall s, pool_inv s -> p_pcs s !! i = Some (Running idx) ->
    exists s', rtc pool_step s s' /\ pool_inv s' /\ p_pcs s' !! 0%nat <> Some MainIdle /\
      p_pending s' = (p_pending s - 1)%nat /\ p_plan s' = p_plan s).
  { clear -Hd. intros s I Hi. pose proof (held_range s i idx _ I Hi eq_refl). pose proof (pi_window _ I) as [Hw _].
    pose proof (pi_claim _ I). destruct (lookup_lt_is_Some_2 (p_plan s) (idx - p_base s)) as [t Ht]; [lia|].
    pose proof (pi_slots _ I _ _ Ht) as Hsl. replace (p_base s + (idx - p_base s))%nat with idx in Hsl by lia.
    pose proof (PThread s i _ _ Hi (TRun i s idx t Hsl)) as Hst. pose proof (pool_step_inv _ _ I Hst) as I'.
    edestruct (Hd _ I') as (s' & ? & ? & ? & ? & ?); [apply list_lookup_insert_eq; by eapply lookup_lt_Some|].
    exists s'. split_and!; [by eapply rtc_l|done..]. }
  intros I Hi Hh. destruct c; try done; cbn in Hh; simplify_eq; [|by apply Hr|by apply Hd].
  destruct (p_cancelled s) eqn:Ec.
  - pose proof (PThread s i _ _ Hi (TSkip i s idx Ec)) as Hst. pose proof (pool_step_inv _ _ I Hst) as I'.
    edestruct (Hd _ I') as (s' & ? & ? & ? & ? & ?); [apply list_lookup_insert_eq; by eapply lookup_lt_Some|].
    exists s'. split_and!; [by eapply rtc_l|done..].
  - pose proof (PThread s i _ _ Hi (TStart i s idx Ec)) as Hst. pose proof (pool_step_inv _ _ I Hst) as I'.
    edestruct (Hr _ I') as (s' & ? & ? & ? & ? & ?); [apply list_lookup_insert_eq; by eapply lookup_lt_Some|].
    exists s'. split_and!; [by eapply rtc_l|done..].
Qed.

(** One step of the main thread, to the state [c]. *)
Lemma main_step s c0 c :
  pool_inv s -> p_pcs s !! 0%nat = Some c0 -> thread_step 0 s c0 (set_pc 0 c s) ->
  rtc pool_step s (set_pc 0 c s) /\ pool_inv (set_pc 0 c s) /\ p_pcs (set_pc 0 c s) !! 0%nat = Some c.
Proof.
  intros I Hi Hst. assert (pool_step s (set_pc 0 c s)) by (by eapply PThread).
  split_and!; [by apply rtc_once|by eapply pool_step_inv|]. apply list_lookup_insert_eq. by eapply lookup_lt_Some.
Qed.

(** The main thread gets as far as a load of [task_claim]. *)
Lemma main_claims s c :
  pool_inv s -> p_pcs s !! 0%nat = Some c -> owns c = None -> c <> MainIdle -> c <> Waiting ->
  exists s', rtc pool_step s s' /\ pool_inv s' /\ p_pcs s' !! 0%nat = Some (Claim1 (p_claim s)) /\
    s' = set_pc 0 (Claim1 (p_claim s)) s.
Proof.
  intros I Hi Hh Hm Hw. pose proof (pi_pcs _ I _ _ Hi) as Hok.
  assert (Hf : forall s cur, pool_inv s -> p_pcs s !! 0%nat = Some (Claim2 cur) ->
    rtc pool_step s (set_pc 0 (Claim1 (p_claim s)) s) /\ pool_inv (set_pc 0 (Claim1 (p_claim s)) s) /\
    p_pcs (set_pc 0 (Claim1 (p_claim s)) s) !! 0%nat = Some (Claim1 (p_claim s))).
  { intros s1 cur I1 H1. eapply main_step; [done..|apply TCasFail]. }
  destruct c as [| | | |cur|cur| | | | | |]; try done.
  - destruct (main_step s _ (Claim1 (p_claim s)) I Hi) as (? & ? & ?); [apply TLoad|]. by eexists.
  - destruct (Nat.lt_ge_cases cur (p_limit s)) as [Hlt|Hge].
    + destruct (main_step s _ (Claim2 cur) I Hi) as (R1 & I1 & P1); [by apply TOpen|].
      destruct (Hf _ _ I1 P1) as (R2 & I2 & P2). eexists. split_and!; [by etrans|done|done|].
      unfold set_pc; cbn. by rewrite list_insert_insert_eq.
    + exists s. assert (cur = p_claim s) as -> by (cbn in Hok; pose proof (pi_claim _ I); lia).
      split_and!; [done..|]. unfold set_pc. rewrite list_insert_id by done. by destruct s.
  - destruct (Hf _ _ I Hi) as (? & ? & ?). by eexists.
Qed.

(** From every state of a dispatch the main thread can return. *)
Lemma dispatch_returns n s :
  (p_pending s <= n)%nat -> pool_inv s -> p_pcs s !! 0%nat <> Some MainIdle ->
  exists s', rtc pool_step s s' /\ p_pcs s' !! 0%nat = Some MainIdle /\ p_plan s' = p_plan s.
Proof.
  revert s. induction n as [n IH] using lt_wf_ind. intros s Hn I Hm.
  destruct (omap owns (p_pcs s)) as [|idx hs] eqn:Eh; cycle 1.
  { assert (idx ∈ omap owns (p_pcs s)) as (c & Hc & Hid)%list_elem_of_omap by (rewrite Eh; by left).
    apply list_elem_of_lookup_1 in Hc as [i Hi]. pose proof (held_pending _ _ _ _ I Hi Hid).
    destruct (finish_ticket s i c idx I Hi Hid) as (s1 & R1 & I1 & M1 & P1 & L1).
    destruct (IH (n - 1)%nat ltac:(lia) s1) as (s2 & R2 & M2 & L2); [lia|done..|].
    exists s2. split_and!; [by etrans|done|congruence]. }
  pose proof (pi_pending _ I) as Hp. rewrite Eh in Hp. cbn [length Nat.add] in Hp.
  destruct (pi_main _ I) as [c Hc]. pose proof (pi_pcs _ I _ _ Hc) as Hok.
  assert (Hh : owns c = None).
  { destruct (owns c) as [idx|] eqn:E; [|done]. exfalso. apply (not_elem_of_nil idx). rewrite <- Eh.
    apply list_elem_of_omap. exists c. split; [by eapply list_elem_of_lookup_2|done]. }
  assert (Hret : forall s, pool_inv s -> p_pcs s !! 0%nat = Some Waiting -> p_pending s = 0%nat ->
    exists s', rtc pool_step s s' /\ p_pcs s' !! 0%nat = Some MainIdle /\ p_plan s' = p_plan s).
  { intros s1 I1 W1 Z1. destruct (main_step s1 _ MainIdle I1 W1) as (? & ? & ?); [by apply TReturn|]. by eexists. }
  destruct (decide (c = Waiting)) as [->|Hw]; [apply Hret; [done..|]; destruct Hok; lia|].
  destruct (main_claims s c I Hc Hh) as (s1 & R1 & I1 & M1 & E1); [by intros ->|done|].
  pose proof (pi_claim _ I). destruct (Nat.lt_ge_cases (p_claim s) (p_limit s)) as [Hlt|Hge].
  - assert (Hst : pool_step s1 (set_pc 0 (Claim2 (p_claim s)) s1)) by (eapply PThread; [exact M1|apply TOpen; by subst s1]).
    pose proof (pool_step_inv _ _ I1 Hst) as I2.
    assert (M2 : p_pcs (set_pc 0 (Claim2 (p_claim s)) s1) !! 0%nat = Some (Claim2 (p_claim s))).
    { apply list_lookup_insert_eq. by eapply lookup_lt_Some. }
    assert (Ecl : p_claim s = p_claim (set_pc 0 (Claim2 (p_claim s)) s1)) by (by subst s1).
    pose proof (PThread _ 0%nat _ _ M2 (TCas 0 _ _ Ecl)) as Hst3. pose proof (pool_step_inv _ _ I2 Hst3) as I3.
    edestruct (finish_ticket _ 0%nat (Got (p_claim s)) (p_claim s) I3) as (s4 & R4 & I4 & M4 & P4 & L4); [|done|].
    { apply list_lookup_insert_eq. by eapply lookup_lt_Some. }
    assert (Hp1 : p_pending s4 = (p_pending s - 1)%nat) by (rewrite P4; by subst s1).
    destruct (IH (n - 1)%nat ltac:(lia) s4) as (s5 & R5 & M5 & L5); [lia|done..|].
    exists s5. split_and!; [|done|rewrite L5, L4; by subst s1].
    etrans; [exact R1|]. eapply rtc_l; [exact Hst|]. eapply rtc_l; [exact Hst3|]. by etrans.
  - destruct (main_step s1 _ Waiting I1 M1) as (R2 & I2 & M2).
    { apply (TDrained 0 s1 (p_claim s)). by subst s1. }
    destruct (Hret _ I2 M2) as (s3 & R3 & M3 & L3); [subst s1; cbn; lia|].
    exists s3. split_and!; [etrans; [exact R1|by etrans]|done|rewrite L3; by subst s1].
Qed.

Lemma dispatch_tasks_cover task_cap total grow_ok :
  0 < task_cap < 2 ^ 32 -> 0 <= total < 2 ^ 45 - TASK_GRAIN ->
  concat (indices <$> ray_pool_dispatch_tasks task_cap total grow_ok) = seqZ 0 total.
Proof.
  intros Hc Ht. unfold ray_pool_dispatch_tasks. bif; [by rewrite seqZ_nil by lia|].
  pose proof (dispatch_split_ok task_cap total grow_ok Hc ltac:(lia)) as Hs.
  destruct (dispatch_split _ _ _) as [[[n_tasks grain] total'] cap]. destruct Hs as (-> & ? & ? & ? & _).
  apply task_ranges_cover; lia.
Qed.

(** ** Running a schedule *)

(** The step of thread [i], the compare-exchange not failing spuriously. *)
Definition thread_next (i : nat) (s : pool) : option pool :=
  c ← p_pcs s !! i;
  match c with
  | Asleep => if (p_sem s =? 0)%nat then None else Some (set_pc i Woken (with_sem (p_sem s - 1) s))
  | Woken => if (p_running s <? p_active s)%nat then Some (set_pc i Claim0 (with_running (p_running s + 1) s))
             else Some (set_pc i Rejected (with_running (p_running s + 1) s))
  | Rejected | Leaving => Some (set_pc i Asleep (with_running (p_running s - 1) s))
  | Claim0 => Some (set_pc i (Claim1 (p_claim s)) s)
  | Claim1 cur => Some (if (cur <? p_limit s)%nat then set_pc i (Claim2 cur) s else set_pc i (drained i) s)
  | Claim2 cur => Some (if (cur =? p_claim s)%nat then set_pc i (Got cur) (with_claim (cur + 1) s)
                        else set_pc i (Claim1 (p_claim s)) s)
  | Got idx => Some (set_pc i (if p_cancelled s then Done idx else Running idx) s)
  | Running idx =>
      match p_ring s !! ring_index (p_cap s) idx with
      | Some (Some t) => Some (set_pc i (Done idx) (with_log (p_log s ++ [(idx, t)]) s))
      | _ => None
      end
  | Done idx => Some (set_pc i Claim0 (with_left (p_pending s - 1) s))
  | Waiting => if (p_pending s =? 0)%nat then Some (set_pc i MainIdle s) else None
  | MainIdle => None
  end.

Fixpoint run_sched (steps : list nat) (s : pool) : option pool :=
  match steps with
  | [] => Some s
  | i :: steps => s ← thread_next i s; run_sched steps s
  end.

Lemma thread_next_sound i s s' : thread_next i s = Some s' -> pool_step s s'.
Proof.
  unfold thread_next. destruct (p_pcs s !! i) as [c|] eqn:Ec; cbn [mbind option_bind]; [|done]. intros Hn.
  apply (PThread s i c s' Ec). destruct c; try done; repeat case_match; bprop; simplify_eq; by constructor.
Qed.

Lemma run_sched_sound steps s s' : run_sched steps s = Some s' -> rtc pool_step s s'.
Proof.
  revert s. induction steps as [|i steps IH]; intros s; cbn [run_sched]; [by intros [= ->]|].
  destruct (thread_next i s) as [s1|] eqn:E; cbn [mbind option_bind]; [|done]. intros Hr.
  eapply rtc_l; [by eapply thread_next_sound|by apply IH].
Qed.

(** A dispatch of 20000 elements on a ring of four slots with one worker: the
    main thread and the worker race for the second task. *)
Definition demo_tasks : list (Z * Z) := ray_pool_dispatch_tasks 4 20000 false.
Definition demo_start : pool := publish 4 demo_tasks (ray_pool_create 2 1).
Definition demo_sched : list nat :=
  [0; 0; 0; 0; 0; 1; 1; 1; 1; 0; 0; 0; 1; 0; 1; 1; 1; 1; 1; 1; 1; 1; 0; 0; 1; 1; 1; 0; 0]%nat.

Lemma pool_demo_reach : pool_reach 2 1 demo_start.
Proof. apply rtc_once, (PDispatch _ 0); [done|by vm_compute|done|vm_compute; lia]. Qed.

(** ** Properties *)

(** C6. However the threads interleave, no task of a dispatch is called twice,
    no thread runs a task that is not of the dispatch, and no more workers are
    admitted than [n_active].  When the main thread is back from
    [ray_pool_dispatch] over [total] elements that nobody cancelled, the ranges
    that were called are together [0 .. total), every index once. *)
Theorem pool_dispatch_once k n s :
  pool_reach k n s ->
  NoDup (p_log s).*1 /\ (forall idx t, (idx, t) ∈ p_log s -> t ∈ p_plan s) /\
  (length (omap let_in (tail (p_pcs s))) <= p_active s)%nat /\
  (forall task_cap total grow_ok, p_pcs s !! 0%nat = Some MainIdle -> p_cancelled s = false ->
    0 < task_cap < 2 ^ 32 -> 0 <= total < 2 ^ 45 - TASK_GRAIN ->
    p_plan s = ray_pool_dispatch_tasks task_cap total grow_ok ->
    concat (indices <$> (p_log s).*2) ≡ₚ seqZ 0 total).
Proof.
  intros I%pool_reach_inv. split_and!.
  - destruct (pi_tickets _ I) as (fin & Hf & Hsub & _).
    assert (Hc : fin ++ omap called (p_pcs s) ⊆+ fin ++ omap owns (p_pcs s)).
    { apply submseteq_skips_l. generalize (p_pcs s). intros l. induction l as [|c l IH]; [done|].
      destruct c; cbn; try done; [by apply submseteq_cons..|by apply submseteq_skip]. }
    destruct (submseteq_Permutation _ _ (transitivity Hsub Hc)) as [rest Hrest]. rewrite Hf in Hrest.
    pose proof (NoDup_seq (p_base s) (p_claim s - p_base s)) as Hnd. rewrite Hrest in Hnd. by apply NoDup_app in Hnd as [? _].
  - intros idx t Hin. apply (pi_log _ I) in Hin as [_ Hin]. by eapply list_elem_of_lookup_2.
  - apply (pi_admitted _ I).
  - intros task_cap total grow_ok H0 Hc Hcap Ht Hpl. rewrite <- (dispatch_tasks_cover task_cap total grow_ok Hcap Ht), <- Hpl.
    pose proof (log_plan s I H0 Hc) as Hp. generalize dependent (p_log s).*2. generalize (p_plan s). clear.
    intros l1 l2 Hp. induction Hp; cbn [fmap list_fmap concat]; [done|by rewrite IHHp|solve_Permutation|by etrans].
Qed.

(** C7. A dispatch can always return: from every reachable state in which the
    main thread is inside [ray_pool_dispatch] some continuation brings it back,
    with the plan of that dispatch; no interleaving loses a ticket or leaves
    [pending] above zero with nobody to lower it. *)
Theorem pool_dispatch_returns k n s :
  pool_reach k n s -> p_pcs s !! 0%nat <> Some MainIdle ->
  exists s', rtc pool_step s s' /\ p_pcs s' !! 0%nat = Some MainIdle /\ p_plan s' = p_plan s.
Proof. intros I%pool_reach_inv Hm. by apply (dispatch_returns (p_pending s)). Qed.

Lemma pool_dispatch_once_witness :
  exists s, pool_reach 2 1 s /\ p_pcs s !! 0%nat = Some MainIdle /\ length (p_log s) = 3%nat /\
    concat (indices <$> (p_log s).*2) ≡ₚ seqZ 0 20000.
Proof.
  destruct (run_sched demo_sched demo_start) as [s|] eqn:E; [|by vm_compute in E].
  assert (R : pool_reach 2 1 s) by (unfold pool_reach; etrans; [exact pool_demo_reach|exact (run_sched_sound _ _ _ E)]).
  exists s. split; [exact R|]. vm_compute in E. injection E as <-. split; [done|]. split; [done|].
  apply (proj2 (proj2 (proj2 (pool_dispatch_once 2 1 _ R))) 4 20000 false); [done|done|lia|vm_compute; split; done|by vm_compute].
Defined.

Lemma pool_dispatch_returns_witness :
  exists s', rtc pool_step demo_start s' /\ p_pcs s' !! 0%nat = Some MainIdle /\ p_plan s' = demo_tasks.
Proof. apply (pool_dispatch_returns 2 1 demo_start); [apply pool_demo_reach|done]. Defined.
