(* ===== verification/Radix.v ===== *)
(** * One pass of the radix sort ([src/ops/sort.c], [radix_hist_fn],
    [radix_scatter_fn], [packed_scatter_fn])

    A pass splits its input into one chunk per task.  Every task counts the
    digits of its chunk, a prefix sum gives every task a range of positions for
    every digit, and every task writes its elements there, through a buffer of
    [SWC_N] elements per digit.  The tables [hist] and [offsets] are lists of
    rows of 256.  Tasks run on any workers in any order: their writes reach the
    output in an order that [sched] chooses. *)
From Stdlib Require Import ZArith Lia.
From stdpp Require Import sorting.
From S2P Require Import Prelude SortArr.
#[local] Open Scope nat_scope.

Definition SWC_N : nat := 8.

(** The chunk of a task: [chunk] elements from [task * chunk], clamped to [n]. *)
Definition chunk_size (n n_tasks : nat) : nat := (n + n_tasks - 1) / n_tasks.
Definition task_lo (n n_tasks task : nat) : nat := task * chunk_size n n_tasks.
Definition task_hi (n n_tasks task : nat) : nat :=
  let hi := task_lo n n_tasks task + chunk_size n n_tasks in if n <? hi then n else hi.
Definition task_part {A} (src : list A) (n_tasks task : nat) : list A :=
  let n := length src in
  if task_hi n n_tasks task <=? task_lo n n_tasks task then []
  else part src (task_lo n n_tasks task) (task_hi n n_tasks task).

(** One write of a task to the output. *)
Abbreviation write A := (nat * A)%type.

(** [memcpy(&out[pos], buf, ...)]. *)
Definition place {A} (pos : nat) (l : list A) : list (write A) := imap (fun j x => (pos + j, x)) l.

Definition do_writes {A} (ws : list (write A)) (dst : list A) : option (list A) :=
  fold_opt (fun d w => aset d w.1 w.2) dst ws.

Section pass.
Context {A : Type} (dg : A -> nat).

(** [h[byte]++] on a [uint32_t]. *)
Definition hist_step (h : list Z) (x : A) : option (list Z) :=
  c ← h !! dg x; aset h (dg x) (u32 (c + 1)).

Definition radix_hist_fn (src : list A) (n_tasks task : nat) : option (list Z) :=
  fold_opt hist_step (replicate 256 0%Z) (task_part src n_tasks task).

(** All elements share one digit. *)
Definition uniform (hist : list (list Z)) (n : nat) : bool :=
  existsb (fun b => (foldl (fun total h => u32 (total + default 0%Z (h !! b))) 0 hist =? u32 n)%Z) (seq 0 256).

(** [offsets[t][b] = running; running += hist[t][b]], for one [b]. *)
Fixpoint col_offsets (counts : list Z) (running : nat) : list nat * nat :=
  match counts with
  | [] => ([], running)
  | c :: counts => let '(os, r) := col_offsets counts (running + Z.to_nat c) in (running :: os, r)
  end.

Fixpoint prefix_sum (hist : list (list Z)) (bs : list nat) (running : nat) : list (list nat) :=
  match bs with
  | [] => []
  | b :: bs =>
      let '(col, r) := col_offsets ((fun h => default 0%Z (h !! b)) <$> hist) running in
      col :: prefix_sum hist bs r
  end.

(** The row of a task. *)
Definition task_offsets (cols : list (list nat)) (task : nat) : list nat :=
  (fun col => default 0 (col !! task)) <$> cols.

Record swc := Swc { s_off : list nat; s_buf : list (list A); s_ws : list (write A) }.

Definition swc_step (st : swc) (x : A) : option swc :=
  let b := dg x in
  row ← s_buf st !! b;
  let row := row ++ [x] in
  if length row =? SWC_N then
    pos ← s_off st !! b;
    off ← aset (s_off st) b (pos + SWC_N);
    buf ← aset (s_buf st) b [];
    Some (Swc off buf (s_ws st ++ place pos row))
  else
    buf ← aset (s_buf st) b row; Some (Swc (s_off st) buf (s_ws st)).

(** The remaining entries, digit by digit. *)
Definition swc_flush (st : swc) : list (write A) :=
  s_ws st ++ concat (zip_with place (s_off st) (s_buf st)).

Definition radix_scatter_fn (src : list A) (n_tasks task : nat) (off : list nat) : option (list (write A)) :=
  st ← fold_opt swc_step (Swc off (replicate 256 []) []) (task_part src n_tasks task);
  Some (swc_flush st).

(** A pass from [src] to [dst]; the flag says whether the buffers are swapped. *)
Definition radix_pass (sched : list (list (write A)) -> list (write A)) (n_tasks : nat) (src dst : list A)
    : option (list A * list A * bool) :=
  let n := length src in
  hist ← mapM (radix_hist_fn src n_tasks) (seq 0 n_tasks);
  if uniform hist n then Some (src, dst, false)
  else
    let cols := prefix_sum hist (seq 0 256) 0 in
    ws ← mapM (fun t => radix_scatter_fn src n_tasks t (task_offsets cols t)) (seq 0 n_tasks);
    dst ← do_writes (sched ws) dst;
    Some (dst, src, true).
End pass.
Arguments Swc {A} _ _ _.

(** Every write of every task is done, once, in some order. *)
Definition runs_all {A} (sched : list (list (write A)) -> list (write A)) : Prop :=
  forall ws, sched ws ≡ₚ concat ws.

(** ** The chunks *)
Section chunks.
Context {A : Type} (src : list A) (n_tasks : nat) (Ht : 0 < n_tasks).

Lemma chunk_covers : length src <= n_tasks * chunk_size (length src) n_tasks.
Proof using Ht.
  unfold chunk_size. pose proof (Nat.div_mod_eq (length src + n_tasks - 1) n_tasks).
  pose proof (Nat.mod_upper_bound (length src + n_tasks - 1) n_tasks). lia.
Qed.

Lemma task_parts_take k :
  concat (task_part src n_tasks <$> seq 0 k) = take (k * chunk_size (length src) n_tasks) src.
Proof using Ht.
  induction k as [|k IH]; [done|].
  rewrite seq_S, fmap_app, concat_app, IH, Nat.add_0_l. cbn [fmap list_fmap concat]. rewrite app_nil_r.
  unfold task_part, task_hi, task_lo. set (c := chunk_size _ _). cbn zeta.
  destruct (length src <? k * c + c) eqn:E1; bprop; bif.
  - rewrite app_nil_r, !take_ge by lia. done.
  - unfold part. rewrite (take_ge src (length src)), (take_ge src (S k * c)) by lia. apply take_drop.
  - rewrite app_nil_r. f_equal. lia.
  - unfold part. replace (S k * c) with (k * c + c) by lia.
    rewrite <- (take_drop (k * c) (take (k * c + c) src)) at 2. by rewrite take_take, Nat.min_l by lia.
Qed.

(** The chunks of the tasks make up the input. *)
Lemma task_parts_all : concat (task_part src n_tasks <$> seq 0 n_tasks) = src.
Proof using Ht. rewrite task_parts_take. apply take_ge. pose proof chunk_covers. lia. Qed.
End chunks.

(** ** Digits *)
Section digits.
Context {A : Type} (dg : A -> nat).

Definition digit (b : nat) (l : list A) : list A := filter (fun x => dg x = b) l.
Definition buckets (l : list A) : list (list A) := (fun b => digit b l) <$> seq 0 256.

(** What a pass leaves: the elements by digit, in their order within one. *)
Definition bucketed (l : list A) : list A := concat (buckets l).

Context (dg_ok : forall x, dg x < 256).

Lemma digit_app b l1 l2 : digit b (l1 ++ l2) = digit b l1 ++ digit b l2.
Proof using Type. apply filter_app. Qed.

Lemma digit_concat b ls : digit b (concat ls) = concat (digit b <$> ls).
Proof using Type. induction ls as [|l ls IH]; [done|]. cbn [concat fmap list_fmap]. by rewrite digit_app, IH. Qed.

Lemma buckets_lookup l b : b < 256 -> buckets l !! b = Some (digit b l).
Proof using Type. intros Hb. unfold buckets. rewrite list_lookup_fmap, lookup_seq_lt by done. done. Qed.

Lemma buckets_snoc l x : buckets (l ++ [x]) = <[dg x := digit (dg x) l ++ [x]]> (buckets l).
Proof using dg_ok.
  apply list_eq. intros b. destruct (decide (b < 256)) as [Hb|Hb].
  - rewrite buckets_lookup by done. rewrite digit_app. destruct (decide (dg x = b)) as [<-|Hn].
    + rewrite list_lookup_insert_eq by (unfold buckets; rewrite length_fmap, length_seq; done).
      unfold digit at 2. rewrite filter_cons_True by done. done.
    + rewrite list_lookup_insert_ne, buckets_lookup by done.
      unfold digit at 2. rewrite filter_cons_False by done. by rewrite filter_nil, app_nil_r.
  - rewrite !lookup_ge_None_2; rewrite ?length_insert; unfold buckets; rewrite ?length_fmap, ?length_seq; (done || lia).
Qed.

Lemma concat_insert_perm {B} (ls : list (list B)) b l l' y :
  ls !! b = Some l -> l' ≡ₚ y :: l -> concat (<[b := l']> ls) ≡ₚ y :: concat ls.
Proof using Type.
  revert b. induction ls as [|l0 ls IH]; intros [|b] Hl Hp; simplify_eq/=.
  - by rewrite Hp.
  - rewrite IH by done. solve_Permutation.
Qed.

Lemma bucketed_perm l : bucketed l ≡ₚ l.
Proof using dg_ok.
  induction l as [|x l IH] using rev_ind.
  { unfold bucketed, buckets. induction (seq 0 256); done. }
  unfold bucketed. rewrite buckets_snoc, (concat_insert_perm _ _ (digit (dg x) l) _ x).
  - unfold bucketed in IH. rewrite IH. solve_Permutation.
  - by apply buckets_lookup.
  - solve_Permutation.
Qed.

(** Sorted by the digit first, then by the order of the input. *)
Lemma bucketed_sorted (R : relation A) l :
  StronglySorted R l -> StronglySorted (fun x y => dg x < dg y \/ (dg x = dg y /\ R x y)) (bucketed l).
Proof using Type.
  intros Hl. unfold bucketed, buckets. generalize 256. intros n. induction n as [|n IH]; [constructor|].
  rewrite seq_S, fmap_app, concat_app, Nat.add_0_l. cbn [fmap list_fmap concat]. rewrite app_nil_r.
  apply StronglySorted_app. split_and!; [|done|].
  - intros x y Hx Hy. left. unfold digit in Hy. apply list_elem_of_filter in Hy as [<- _].
    apply list_elem_of_In, in_concat in Hx as (b & Hb & Hx). apply list_elem_of_In in Hx.
    apply list_elem_of_In, list_elem_of_fmap in Hb as (k & -> & Hk). apply elem_of_seq in Hk.
    apply list_elem_of_filter in Hx as [-> _]. lia.
  - eapply StronglySorted_weaken_in; [|by apply StronglySorted_filter].
    intros x y [Hx _]%list_elem_of_filter [Hy _]%list_elem_of_filter HR. right. split; [congruence|done].
Qed.

Lemma bucketed_uniform l b : b < 256 -> (forall x, x ∈ l -> dg x = b) -> bucketed l = l.
Proof using Type.
  intros Hb Hu. unfold bucketed, buckets.
  rewrite (Nat.le_add_sub (S b) 256 ltac:(lia)), seq_app, seq_S, !fmap_app, !concat_app.
  cbn [fmap list_fmap concat Nat.add].
  assert (Hz : forall ks, (b ∉ ks) -> concat ((fun b => digit b l) <$> ks) = []).
  { induction ks as [|k ks IH]; [done|]. rewrite not_elem_of_cons. intros [Hk Hks]. cbn.
    rewrite IH, app_nil_r by done. unfold digit. apply list_filter_nil || idtac.
    clear -Hu Hk. induction l as [|x l IH]; [done|]. rewrite filter_cons_False; [apply IH; set_solver|].
    rewrite (Hu x) by (by left). done. }
  rewrite !Hz by (rewrite elem_of_seq; lia). rewrite !app_nil_r. cbn [app].
  unfold digit. clear -Hu. induction l as [|x l IH]; [done|].
  rewrite filter_cons_True by (apply Hu; by left). f_equal. apply IH. set_solver.
Qed.
End digits.

(** ** Writes *)
Lemma place_app {A} pos (l1 l2 : list A) : place pos (l1 ++ l2) = place pos l1 ++ place (pos + length l1) l2.
Proof.
  unfold place. rewrite imap_app. f_equal. apply imap_ext. intros j x _. simpl. f_equal. lia.
Qed.

Lemma place_lookup {A} pos (l : list A) w : w ∈ place pos l <-> pos <= w.1 /\ l !! (w.1 - pos) = Some w.2.
Proof.
  destruct w as [i x]. unfold place. rewrite elem_of_lookup_imap. simpl. split.
  - intros (j & y & [= -> ->] & Hj). split; [lia|]. by replace (pos + j - pos) with j by lia.
  - intros [Hp Hl]. exists (i - pos), x. split; [f_equal; lia|done].
Qed.

Lemma place_fst {A} pos (l : list A) : (place pos l).*1 = seq pos (length l).
Proof.
  revert pos. induction l as [|x l IH]; intros pos; [done|].
  change (x :: l) with ([x] ++ l). rewrite place_app, fmap_app, IH. cbn. by rewrite Nat.add_0_r, Nat.add_1_r.
Qed.

Lemma do_writes_gen {A} (ws : list (write A)) dst :
  Forall (fun w => w.1 < length dst) ws -> NoDup ws.*1 ->
  exists d, do_writes ws dst = Some d /\ length d = length dst /\
    (forall i x, (i, x) ∈ ws -> d !! i = Some x) /\ (forall i, i ∉ ws.*1 -> d !! i = dst !! i).
Proof.
  revert dst. induction ws as [|[i x] ws IH]; intros dst Hw Hn.
  { exists dst. split_and!; [done..| |done]. intros i x []%not_elem_of_nil. }
  apply Forall_cons in Hw as [Hi Hw]. cbn [fmap list_fmap fst] in Hn. apply NoDup_cons in Hn as [Hni Hn]. cbn [fst] in *.
  unfold do_writes. cbn [fold_opt fst snd]. rewrite aset_ok by done. cbn [mbind option_bind].
  destruct (IH (<[i := x]> dst)) as (d & Hd & Hl & Hin & Hout); [by rewrite length_insert|done|].
  exists d. split_and!; [done|by rewrite Hl, length_insert|..].
  - intros j y [[= -> ->]|Hj]%elem_of_cons; [|by apply Hin].
    by rewrite Hout, list_lookup_insert_eq.
  - intros j [Hj1 Hj]%not_elem_of_cons. rewrite Hout by done. by rewrite list_lookup_insert_ne.
Qed.

(** Writing every element to its place, in any order. *)
Lemma do_writes_place {A} (ws : list (write A)) out dst :
  ws ≡ₚ place 0 out -> length dst = length out -> do_writes ws dst = Some out.
Proof.
  intros Hp Hl. destruct (do_writes_gen ws dst) as (d & -> & Hd & Hin & _).
  - rewrite Hp. apply Forall_forall. intros w [_ Hw]%place_lookup. apply lookup_lt_Some in Hw. lia.
  - rewrite Hp, place_fst. apply NoDup_seq.
  - f_equal. apply list_eq. intros i. destruct (out !! i) as [x|] eqn:E.
    + apply Hin. rewrite Hp. apply place_lookup. simpl. rewrite Nat.sub_0_r. split; [lia|done].
    + apply lookup_ge_None in E. apply lookup_ge_None. lia.
Qed.

(** ** Tables as functions of digit and task *)
Lemma as_seq {X} (d : X) (l : list X) n : length l = n -> l = (fun i => default d (l !! i)) <$> seq 0 n.
Proof.
  intros <-. apply list_eq. intros i. rewrite list_lookup_fmap. destruct (decide (i < length l)) as [Hi|Hi].
  - rewrite lookup_seq_lt by done. simpl. destruct (lookup_lt_is_Some_2 l i) as [x ->]; done.
  - rewrite !lookup_ge_None_2; rewrite ?length_seq; (done || lia).
Qed.

Lemma concat_fmap_app {X B} (f g : X -> list B) xs :
  concat ((fun x => f x ++ g x) <$> xs) ≡ₚ concat (f <$> xs) ++ concat (g <$> xs).
Proof.
  induction xs as [|x xs IH]; [done|]. cbn [concat fmap list_fmap]. rewrite IH. solve_Permutation.
Qed.

Lemma concat_swap {X Y B} (h : X -> Y -> list B) xs ys :
  concat ((fun y => concat ((fun x => h x y) <$> xs)) <$> ys) ≡ₚ
  concat ((fun x => concat ((fun y => h x y) <$> ys)) <$> xs).
Proof.
  induction ys as [|y ys IH].
  - cbn [concat fmap list_fmap]. by induction xs.
  - cbn [concat fmap list_fmap]. rewrite IH. by rewrite concat_fmap_app.
Qed.

Lemma zip_with_fmap {X Y Z C} (f : Y -> Z -> C) (g : X -> Y) (h : X -> Z) xs :
  zip_with f (g <$> xs) (h <$> xs) = (fun x => f (g x) (h x)) <$> xs.
Proof. induction xs as [|x xs IH]; [done|]. cbn. by rewrite <- IH. Qed.

Lemma zip_with_fmap_self {X Y C} (f : Y -> X -> C) (g : X -> Y) xs :
  zip_with f (g <$> xs) xs = (fun x => f (g x) x) <$> xs.
Proof. induction xs as [|x xs IH]; [done|]. cbn. by rewrite <- IH. Qed.

(** ** The prefix sum *)
Section prefix.
Context {A : Type}.

Lemma col_offsets_ok (ls : list (list A)) r :
  let '(os, r') := col_offsets ((fun l => Z.of_nat (length l)) <$> ls) r in
  length os = length ls /\ concat (zip_with place os ls) = place r (concat ls) /\ r' = r + length (concat ls).
Proof using Type.
  revert r. induction ls as [|l ls IH]; intros r; cbn [fmap list_fmap col_offsets].
  { split_and!; [done..|simpl; lia]. }
  rewrite Nat2Z.id. specialize (IH (r + length l)). destruct (col_offsets _ _) as [os r'].
  destruct IH as (Hl & Hc & ->). split_and!.
  - cbn [length]. lia.
  - cbn [zip_with concat]. by rewrite Hc, place_app.
  - cbn [concat]. rewrite length_app. lia.
Qed.

Lemma prefix_sum_ok (hist : list (list Z)) (D : nat -> list (list A)) n bs r :
  (forall b, b ∈ bs -> (fun h => default 0%Z (h !! b)) <$> hist = (fun l => Z.of_nat (length l)) <$> D b) ->
  (forall b, b ∈ bs -> length (D b) = n) ->
  length (prefix_sum hist bs r) = length bs /\ Forall (fun col => length col = n) (prefix_sum hist bs r) /\
  concat (zip_with (fun col b => concat (zip_with place col (D b))) (prefix_sum hist bs r) bs) =
    place r (concat ((fun b => concat (D b)) <$> bs)).
Proof using Type.
  revert r. induction bs as [|b bs IH]; intros r Hh Hn; [done|]. cbn [prefix_sum].
  rewrite Hh by (by left). pose proof (col_offsets_ok (D b) r) as Hc. destruct (col_offsets _ _) as [col r'].
  destruct Hc as (Hl & Hc & ->). destruct (IH (r + length (concat (D b)))) as (IH1 & IH2 & IH3);
    [intros; apply Hh; by right|intros; apply Hn; by right|]. split_and!.
  - cbn [length]. by rewrite IH1.
  - constructor; [|done]. rewrite Hl. apply Hn. by left.
  - cbn [zip_with concat fmap list_fmap]. by rewrite IH3, Hc, place_app.
Qed.
End prefix.

(** ** Counting *)
Section counting.
Context {A : Type} (dg : A -> nat) (dg_ok : forall x, dg x < 256).

Lemma table_insert {X} (f g : nat -> X) b :
  b < 256 -> (forall k, k <> b -> f k = g k) -> <[b := f b]> (g <$> seq 0 256) = f <$> seq 0 256.
Proof using Type.
  intros Hb Hk. apply list_eq. intros i. destruct (decide (i < 256)) as [Hi|Hi].
  - destruct (decide (i = b)) as [->|Hn].
    + rewrite list_lookup_insert_eq by (by rewrite length_fmap, length_seq).
      by rewrite list_lookup_fmap, lookup_seq_lt.
    + rewrite list_lookup_insert_ne, !list_lookup_fmap, !lookup_seq_lt by done. simpl. by rewrite Hk.
  - rewrite !lookup_ge_None_2; rewrite ?length_insert, ?length_fmap, ?length_seq; (done || lia).
Qed.

Lemma table_lookup {X} (f : nat -> X) b : b < 256 -> (f <$> seq 0 256) !! b = Some (f b).
Proof using Type. intros Hb. by rewrite list_lookup_fmap, lookup_seq_lt. Qed.

Lemma digit_snoc b l x : digit dg b (l ++ [x]) = if decide (dg x = b) then digit dg b l ++ [x] else digit dg b l.
Proof using Type.
  rewrite digit_app. unfold digit at 2. rewrite filter_cons, filter_nil. case_decide; [done|by rewrite app_nil_r].
Qed.

Lemma u32_succ c : u32 (u32 c + 1) = u32 (c + 1).
Proof using Type. unfold u32, wrap. by rewrite Z.add_mod_idemp_l. Qed.

Lemma hist_ok l :
  fold_opt (hist_step dg) (replicate 256 0%Z) l = Some ((fun b => u32 (length (digit dg b l))) <$> seq 0 256).
Proof using dg_ok.
  induction l as [|x l IH] using rev_ind; [done|].
  rewrite fold_opt_snoc, IH. cbn [mbind option_bind]. unfold hist_step.
  rewrite table_lookup by done. cbn [mbind option_bind].
  rewrite aset_ok by (rewrite length_fmap, length_seq; done). f_equal.
  rewrite u32_succ. replace (Z.of_nat (length (digit dg (dg x) l)) + 1)%Z with (Z.of_nat (length (digit dg (dg x) (l ++ [x])))).
  - apply (table_insert (fun b => u32 (length (digit dg b (l ++ [x]))))); [done|].
    intros k Hk. by rewrite digit_snoc, decide_False by congruence.
  - rewrite digit_snoc, decide_True, length_app by done. simpl. lia.
Qed.

Definition counts (l : list A) : list Z := (fun b => u32 (length (digit dg b l))) <$> seq 0 256.

Lemma counts_lookup l b : b < 256 -> counts l !! b = Some (u32 (length (digit dg b l))).
Proof using Type. intros Hb. unfold counts. by rewrite table_lookup. Qed.

Lemma counts_total b parts (acc : Z) :
  b < 256 -> foldl (fun total h => u32 (total + default 0%Z (h !! b))) (u32 acc) (counts <$> parts) =
  u32 (acc + length (digit dg b (concat parts))).
Proof using Type.
  intros Hb. revert acc. induction parts as [|l parts IH]; intros acc; cbn [foldl concat fmap list_fmap].
  { f_equal. unfold digit. rewrite filter_nil. simpl. lia. }
  rewrite counts_lookup by done. cbn [default from_option]. unfold id.
  replace (u32 (u32 acc + u32 (length (digit dg b l)))) with (u32 (acc + length (digit dg b l))).
  - by rewrite IH, digit_app, length_app, Nat2Z.inj_add, Z.add_assoc.
  - unfold u32, wrap. by rewrite <- Zplus_mod.
Qed.

(** With fewer than [2^32] elements the test finds exactly a shared digit. *)
Lemma uniform_ok parts src :
  concat parts = src -> (length src < 2 ^ 32)%Z ->
  uniform (counts <$> parts) (length src) = true <-> exists b, b < 256 /\ length (digit dg b src) = length src.
Proof using Type.
  intros <- Hn. unfold uniform. rewrite existsb_exists.
  assert (Hle : forall b, length (digit dg b (concat parts)) <= length (concat parts)) by (intros b; apply length_filter).
  split.
  - intros (b & Hb & He). apply in_seq in Hb. exists b. split; [lia|].
    change 0%Z with (u32 0) in He. rewrite counts_total in He by lia. apply Z.eqb_eq in He.
    specialize (Hle b). rewrite !u32_small in He by lia. lia.
  - intros (b & Hb & He). exists b. split; [apply in_seq; lia|].
    change 0%Z with (u32 0). rewrite counts_total by lia. rewrite He. by apply Z.eqb_eq.
Qed.

Lemma full_digit b l : length (digit dg b l) = length l -> forall x, x ∈ l -> dg x = b.
Proof using Type.
  induction l as [|y l IH]; [intros _ x []%not_elem_of_nil|].
  unfold digit. rewrite filter_cons. pose proof (length_filter (fun x => dg x = b) l).
  case_decide; cbn [length]; intros Hl x [->|Hx]%elem_of_cons; [done|apply IH; [unfold digit; lia|done]|lia..].
Qed.

(** ** The buffered scatter *)
Lemma zip_insert_perm (off : list nat) (buf : list (list A)) b pos row pos' row' x :
  off !! b = Some pos -> buf !! b = Some row -> place pos' row' ≡ₚ x :: place pos row ->
  concat (zip_with place (<[b := pos']> off) (<[b := row']> buf)) ≡ₚ x :: concat (zip_with place off buf).
Proof using Type.
  intros Ho Hb Hp. rewrite <- insert_zip_with. apply (concat_insert_perm _ _ (place pos row)); [|done].
  rewrite lookup_zip_with, Ho. cbn. by rewrite Hb.
Qed.

Lemma zip_insert_moved (off : list nat) (buf : list (list A)) b pos row pos' row' x l :
  off !! b = Some pos -> buf !! b = Some row -> l ++ place pos' row' ≡ₚ x :: place pos row ->
  l ++ concat (zip_with place (<[b := pos']> off) (<[b := row']> buf)) ≡ₚ x :: concat (zip_with place off buf).
Proof using Type.
  revert off b. induction buf as [|r buf IH]; intros [|o off] [|b] Ho Hb Hp; simplify_eq/=.
  - rewrite app_assoc, Hp. done.
  - rewrite app_assoc, (Permutation_app_comm l), <- app_assoc, IH by done. solve_Permutation.
Qed.

Record swc_inv (off0 : list nat) (l : list A) (st : swc) : Prop := {
  si_off : length (s_off st) = 256;
  si_buf : length (s_buf st) = 256;
  si_pos : forall b o pos row, off0 !! b = Some o -> s_off st !! b = Some pos -> s_buf st !! b = Some row ->
    pos + length row = o + length (digit dg b l) /\ length row < SWC_N;
  si_ws : swc_flush st ≡ₚ concat (zip_with place off0 (buckets dg l)) }.

Lemma swc_step_ok off0 l st x :
  length off0 = 256 -> swc_inv off0 l st -> exists st', swc_step dg st x = Some st' /\ swc_inv off0 (l ++ [x]) st'.
Proof using dg_ok.
  intros H0 [Ho Hb Hp Hw]. unfold swc_step. set (b := dg x). assert (Hb256 : b < 256) by apply dg_ok.
  destruct (lookup_lt_is_Some_2 (s_buf st) b) as [row Er]; [lia|].
  destruct (lookup_lt_is_Some_2 (s_off st) b) as [pos Ep]; [lia|].
  destruct (lookup_lt_is_Some_2 off0 b) as [o Eo]; [lia|].
  destruct (Hp b o pos row) as [Hpos Hrow]; [done..|].
  assert (Hspec : concat (zip_with place off0 (buckets dg (l ++ [x]))) ≡ₚ
      (pos + length row, x) :: concat (zip_with place off0 (buckets dg l))).
  { rewrite buckets_snoc by done. fold b. rewrite <- (list_insert_id off0 b o) at 1 by done.
    apply (zip_insert_perm _ _ _ o (digit dg b l)); [done|by apply buckets_lookup|].
    rewrite place_app, <- Hpos. unfold place at 2. cbn. rewrite Nat.add_0_r. solve_Permutation. }
  assert (Hplace : place pos (row ++ [x]) ≡ₚ (pos + length row, x) :: place pos row).
  { rewrite place_app. unfold place at 2. cbn. rewrite Nat.add_0_r. solve_Permutation. }
  assert (Hdig : forall k, length (digit dg k (l ++ [x])) = length (digit dg k l) + if decide (k = b) then 1 else 0).
  { intros k. rewrite digit_snoc. subst b. repeat case_decide; rewrite ?length_app; simpl; try lia; congruence. }
  rewrite Er, Ep. cbn [mbind option_bind].
  destruct (length (row ++ [x]) =? SWC_N) eqn:E; bprop; rewrite !aset_ok by lia; cbn [mbind option_bind].
  - eexists. split; [done|]. split; cbn [s_off s_buf s_ws].
    + by rewrite length_insert.
    + by rewrite length_insert.
    + intros k o' pos' row' Ek. rewrite Hdig. destruct (decide (k = b)) as [->|Hn].
      * rewrite !list_lookup_insert_eq by lia. intros [= <-] [= <-]. rewrite length_app in E. simplify_eq.
        unfold SWC_N in *. simpl in *. lia.
      * rewrite !list_lookup_insert_ne by done. intros. rewrite Nat.add_0_r. by apply (Hp k).
    + rewrite Hspec, <- Hw. unfold swc_flush. cbn [s_off s_buf s_ws]. rewrite <- app_assoc.
      rewrite (zip_insert_moved _ _ _ pos row _ _ (pos + length row, x)); [solve_Permutation|done..|].
      by rewrite <- Hplace, app_nil_r.
  - eexists. split; [done|]. split; cbn [s_off s_buf s_ws].
    + done.
    + by rewrite length_insert.
    + intros k o' pos' row' Ek. rewrite Hdig. destruct (decide (k = b)) as [->|Hn].
      * rewrite !list_lookup_insert_eq by lia. intros ? [= <-]. rewrite length_app in *. simplify_eq.
        unfold SWC_N in *. simpl in *. lia.
      * rewrite !list_lookup_insert_ne by done. intros. rewrite Nat.add_0_r. by apply (Hp k).
    + rewrite Hspec, <- Hw. unfold swc_flush. cbn [s_off s_buf s_ws].
      rewrite <- (list_insert_id (s_off st) b pos) at 1 by done.
      rewrite (zip_insert_perm _ _ _ pos row _ _ (pos + length row, x)); [solve_Permutation|done..].
Qed.

Lemma buckets_nil : buckets dg [] = replicate 256 [].
Proof using Type. unfold buckets, digit. cbn [filter list_filter]. by vm_compute. Qed.

(** A task writes its elements to the places of their digits. *)
Lemma swc_ok off l :
  length off = 256 -> exists st, fold_opt (swc_step dg) (Swc off (replicate 256 []) []) l = Some st /\
    swc_flush st ≡ₚ concat (zip_with place off (buckets dg l)).
Proof using dg_ok.
  intros H0. cut (exists st, fold_opt (swc_step dg) (Swc off (replicate 256 []) []) l = Some st /\ swc_inv off l st).
  { intros (st & ? & [_ _ _ ?]). by exists st. }
  induction l as [|x l (st & Hst & Hi)] using rev_ind.
  - eexists. split; [done|]. split; cbn [s_off s_buf]; [done|by rewrite length_replicate| |].
    + intros b o pos row Eb Ep [-> Hb]%lookup_replicate. simplify_eq. unfold digit, SWC_N. rewrite filter_nil. simpl. lia.
    + by rewrite buckets_nil.
  - rewrite fold_opt_snoc, Hst. cbn [mbind option_bind]. by apply swc_step_ok.
Qed.

(** ** The pass *)
Definition task_list (n_tasks : nat) (src : list A) : list (list A) := task_part src n_tasks <$> seq 0 n_tasks.

Lemma hist_rows_ok n_tasks src :
  mapM (radix_hist_fn dg src n_tasks) (seq 0 n_tasks) = Some (counts <$> task_list n_tasks src).
Proof using dg_ok.
  unfold task_list. rewrite <- list_fmap_compose. apply mapM_fmap_Some_inv || idtac.
  apply mapM_Some. generalize (seq 0 n_tasks). intros ts. induction ts as [|t ts IH]; constructor; [|done].
  unfold radix_hist_fn. apply hist_ok.
Qed.

Definition parts_of (n_tasks b : nat) (src : list A) : list (list A) := digit dg b <$> task_list n_tasks src.

(** Digit by digit and task by task, the ranges of the prefix sum follow each
    other without a gap. *)
Lemma columns_ok n_tasks src :
  0 < n_tasks -> (length src < 2 ^ 32)%Z ->
  let cols := prefix_sum (counts <$> task_list n_tasks src) (seq 0 256) 0 in
  length cols = 256 /\ Forall (fun col => length col = n_tasks) cols /\
  concat (zip_with (fun col b => concat (zip_with place col (parts_of n_tasks b src))) cols (seq 0 256)) =
    place 0 (bucketed dg src).
Proof using Type.
  intros Ht Hn cols. pose proof (task_parts_all src n_tasks Ht) as Hall.
  destruct (prefix_sum_ok (counts <$> task_list n_tasks src) (fun b => parts_of n_tasks b src) n_tasks (seq 0 256) 0)
    as (H1 & H2 & H3).
  - intros b Hb%elem_of_seq. unfold parts_of. rewrite <- !list_fmap_compose. apply list_fmap_ext.
    intros i l Hl. simpl. rewrite counts_lookup by lia. simpl. apply u32_small.
    assert (length (digit dg b l) <= length l) by apply length_filter.
    assert (length l <= length src).
    { rewrite <- Hall. apply list_elem_of_lookup_2 in Hl. clear -Hl. unfold task_list in Hl.
      induction (task_part src n_tasks <$> seq 0 n_tasks) as [|l0 ls IH]; [by apply not_elem_of_nil in Hl|].
      cbn [concat]. rewrite length_app. apply elem_of_cons in Hl as [->|Hl]; [lia|]. specialize (IH Hl). lia. }
    lia.
  - intros b _. unfold parts_of, task_list. by rewrite !length_fmap, length_seq.
  - unfold cols. split_and!; [by rewrite H1, length_seq|done|]. rewrite H3. f_equal. unfold bucketed, buckets. f_equal.
    apply list_fmap_ext. intros i b _. unfold parts_of. rewrite <- digit_concat. unfold task_list. by rewrite Hall.
Qed.

(** The same ranges, task by task. *)
Lemma columns_by_task (cols : list (list nat)) m n (D : nat -> nat -> list A) :
  length cols = m -> Forall (fun col => length col = n) cols ->
  concat ((fun t => concat ((fun b => place (default 0 (default [] (cols !! b) !! t)) (D b t)) <$> seq 0 m)) <$> seq 0 n) ≡ₚ
  concat (zip_with (fun col b => concat (zip_with place col (D b <$> seq 0 n))) cols (seq 0 m)).
Proof using Type.
  intros Hm Hn. rewrite concat_swap. apply Permutation_refl'.
  set (F := fun col b => concat (zip_with place col (D b <$> seq 0 n))).
  replace (zip_with F cols (seq 0 m)) with (zip_with F ((fun i => default [] (cols !! i)) <$> seq 0 m) (seq 0 m))
    by (by rewrite <- (as_seq [] cols m Hm)).
  rewrite zip_with_fmap_self. unfold F. apply (f_equal (@concat (write A))), list_fmap_ext.
  intros i b Hib. apply lookup_seq in Hib as [-> Hi]. cbn [Nat.add].
  destruct (lookup_lt_is_Some_2 cols i) as [col Hcol]; [lia|]. rewrite Hcol. cbn [default from_option]. unfold id.
  eapply Forall_lookup_1 in Hn; [|done].
  replace (zip_with place col (D i <$> seq 0 n)) with (zip_with place ((fun t => default 0 (col !! t)) <$> seq 0 n) (D i <$> seq 0 n))
    by (by rewrite <- (as_seq 0 col n Hn)).
  by rewrite zip_with_fmap.
Qed.

Lemma scatters_ok n_tasks src :
  0 < n_tasks -> (length src < 2 ^ 32)%Z ->
  let cols := prefix_sum (counts <$> task_list n_tasks src) (seq 0 256) 0 in
  exists ws, mapM (fun t => radix_scatter_fn dg src n_tasks t (task_offsets cols t)) (seq 0 n_tasks) = Some ws /\
    concat ws ≡ₚ place 0 (bucketed dg src).
Proof using dg_ok.
  intros Ht Hn cols. destruct (columns_ok n_tasks src Ht Hn) as (H1 & H2 & H3). fold cols in H1, H2, H3.
  set (o := fun t b => default 0 (default [] (cols !! b) !! t)).
  assert (Hoff : forall t, task_offsets cols t = o t <$> seq 0 256).
  { intros t. unfold task_offsets. rewrite (as_seq [] cols 256) at 1 by done. by rewrite <- list_fmap_compose. }
  assert (Hws : exists ws, mapM (fun t => radix_scatter_fn dg src n_tasks t (task_offsets cols t)) (seq 0 n_tasks) = Some ws /\
    concat ws ≡ₚ concat ((fun t => concat ((fun b => place (o t b) (digit dg b (task_part src n_tasks t))) <$> seq 0 256)) <$> seq 0 n_tasks)).
  { generalize (seq 0 n_tasks). intros ts. induction ts as [|t ts (ws & Hm & Hp)]; [by exists []|].
    destruct (swc_ok (task_offsets cols t) (task_part src n_tasks t)) as (st & Hst & Hf).
    { unfold task_offsets. by rewrite length_fmap. }
    exists (swc_flush st :: ws). split.
    - cbn [mapM]. unfold radix_scatter_fn in *. rewrite Hst. cbn [mbind option_bind]. by rewrite Hm.
    - cbn [concat fmap list_fmap]. rewrite Hp, Hf, Hoff. unfold buckets. by rewrite zip_with_fmap. }
  destruct Hws as (ws & Hm & Hp). exists ws. split; [done|].
  etrans; [exact Hp|]. rewrite <- H3.
  pose proof (columns_by_task cols 256 n_tasks (fun b t => digit dg b (task_part src n_tasks t)) H1 H2) as Hc.
  etrans; [exact Hc|]. apply Permutation_refl', (f_equal (@concat (write A))), zip_with_ext; [|done..].
  intros col b. unfold parts_of, task_list. by rewrite <- list_fmap_compose.
Qed.

(** A pass sorts by its digit and keeps the order within one; nothing is
    written when all elements share it. *)
Lemma radix_pass_ok sched n_tasks src dst :
  runs_all sched -> 0 < n_tasks -> length dst = length src -> (length src < 2 ^ 32)%Z ->
  exists dst' sw, radix_pass dg sched n_tasks src dst = Some (bucketed dg src, dst', sw) /\ length dst' = length src.
Proof using dg_ok.
  intros Hs Ht Hl Hn. unfold radix_pass. rewrite hist_rows_ok. cbn [mbind option_bind].
  destruct (uniform _ _) eqn:E.
  - apply (uniform_ok _ src) in E as (b & Hb & Hu); [|by apply task_parts_all|done].
    exists dst, false. split; [|done]. by rewrite (bucketed_uniform _ _ b) by (done || by apply full_digit).
  - destruct (scatters_ok n_tasks src Ht Hn) as (ws & Hm & Hp). rewrite Hm. cbn [mbind option_bind].
    rewrite (do_writes_place _ (bucketed dg src)).
    + cbn [mbind option_bind]. by exists src, true.
    + by rewrite Hs.
    + by rewrite bucketed_perm.
Qed.
End counting.
