(* ===== verification/RadixSort.v ===== *)
(** * The radix sorts and what they need to know of the keys
    ([src/ops/sort.c], [radix_sort_run], [packed_radix_sort_run],
    [compute_key_nbytes], [detect_sortedness], [packed_detect_fn])

    A key is 64 bits.  [pool] is [Some] of the number of workers when a pool is
    used, [run] the calls of a range dispatch over the rows in the order they
    are made, each with its worker, [sched] the order of the writes of a
    scatter. *)
From Stdlib Require Import ZArith Lia.
From stdpp Require Import sorting.
From S2P Require Import Prelude SortArr SortKey Pool Radix.

Definition SMALL_POOL_THRESHOLD : Z := 8192.

(** [(key >> shift) & 0xFF]. *)
Definition byte_at (shift : Z) (k : Z) : nat := Z.to_nat (Z.land (Z.shiftr k shift) 0xFF).

Definition n_tasks_of (pool : option nat) : nat :=
  let n := default 1%nat pool in if (n <? 1)%nat then 1%nat else n.

(** With one task the function is called directly. *)
Definition sched_of {A} (pool : option nat) (sched : list (list (write A)) -> list (write A)) :
    list (list (write A)) -> list (write A) :=
  match pool with Some n => if (1 <? n)%nat then sched else @concat _ | None => @concat _ end.

(** The passes over bytes [bp ..], [k] of them; the flag says which of the two
    buffers [src] is. *)
Fixpoint radix_loop {A} (key : A -> Z) (sched : list (list (write A)) -> list (write A)) (n_tasks k bp : nat)
    (src dst : list A) (swapped : bool) : option (list A * list A * bool) :=
  match k with
  | O => Some (src, dst, swapped)
  | S k =>
      '(src, dst, sw) ← radix_pass (fun x => byte_at (8 * bp) (key x)) sched n_tasks src dst;
      radix_loop key sched n_tasks k (S bp) src dst (xorb swapped sw)
  end.

(** [None] inside: the tables could not be allocated. *)
Definition radix_sort_run (alloc_ok : bool) (pool : option nat) (sched : list (list (write kv)) -> list (write kv))
    (keys_idx tmp : list kv) (n_bytes : nat) : option (option (list kv * list kv * bool)) :=
  if alloc_ok then
    r ← radix_loop fst (sched_of pool sched) (n_tasks_of pool) n_bytes 0 keys_idx tmp false; Some (Some r)
  else Some None.

Definition packed_radix_sort_run (alloc_ok : bool) (pool : option nat) (sched : list (list (write Z)) -> list (write Z))
    (data tmp : list Z) (n_bytes : nat) : option (option (list Z * list Z * bool)) :=
  if alloc_ok then
    r ← radix_loop id (sched_of pool sched) (n_tasks_of pool) n_bytes 0 data tmp false; Some (Some r)
  else Some None.

(** ** The bytes that differ *)
Definition key_range_fn (keys : list Z) (start stop : nat) (local_or : Z) : option Z :=
  first ← keys !! 0%nat;
  fold_opt (fun d i => k ← keys !! i; Some (Z.lor d (Z.lxor k first))) local_or (seq start (stop - start)).

(** [pw[wid] = f(pw[wid])] for every call of the run. *)
Definition per_worker {S} (f : nat -> nat -> S -> option S) (pw : list S) (run : list (nat * (Z * Z))) : option (list S) :=
  fold_opt (fun pw call => s ← pw !! fst call; s ← f (Z.to_nat (snd call).1) (Z.to_nat (snd call).2) s;
                           aset pw (fst call) s) pw run.

Fixpoint nbytes_loop (fuel : nat) (diff : Z) (nb : nat) : option nat :=
  match fuel with
  | O => None
  | S fuel => if diff =? 0 then Some nb else nbytes_loop fuel (Z.shiftr diff 8) (S nb)
  end.

Definition compute_key_nbytes (pool : option nat) (run : list (nat * (Z * Z))) (keys : list Z) (type_max : nat) : option nat :=
  let n := length keys in
  if (n <=? 1)%nat then Some 1%nat
  else
    diff ← (match pool with
            | Some nw =>
                if SMALL_POOL_THRESHOLD <? n then
                  pw ← per_worker (key_range_fn keys) (replicate nw 0) run; Some (foldl Z.lor 0 pw)
                else key_range_fn keys 1 n 0
            | None => key_range_fn keys 1 n 0
            end);
    nb ← nbytes_loop 9 diff 0;
    let nb := if (nb <? 1)%nat then 1%nat else nb in
    Some (if (nb <? type_max)%nat then nb else type_max).

(** ** Sortedness *)
Definition sortedness_fn (keys : list Z) (start stop : nat) (unsorted : nat) : option nat :=
  fold_opt (fun u i => a ← keys !! i; b ← keys !! (i - 1)%nat; Some (if a <? b then S u else u)) unsorted
    (seq (S start) (stop - S start)).

(** The starts of the tasks but the first: [for (b = grain; b < n; b += grain)]. *)
Definition boundaries (n : nat) : list nat :=
  (fun j => ((j + 1) * Z.to_nat TASK_GRAIN)%nat) <$> seq 0 ((n - 1) / Z.to_nat TASK_GRAIN).

(** The number of pairs out of order.  The code divides it by [n - 1] into a
    double, which it only compares with zero. *)
Definition detect_sortedness (pool : option nat) (run : list (nat * (Z * Z))) (keys : list Z) : option nat :=
  let n := length keys in
  if (n <=? 1)%nat then Some 0%nat
  else
    let sequential := sortedness_fn keys 0 n 0 in
    match pool with
    | Some nw =>
        if SMALL_POOL_THRESHOLD <? n then
          pw ← per_worker (sortedness_fn keys) (replicate nw 0%nat) run;
          fold_opt (fun u b => x ← keys !! b; y ← keys !! (b - 1)%nat; Some (if x <? y then S u else u))
            (foldl Nat.add 0%nat pw) (boundaries n)
        else sequential
    | None => sequential
    end.

(** ** Packing *)
Record detect := Detect { d_keys : list Z; d_unsorted : nat; d_not_rev : nat; d_prev : Z }.

Definition packed_detect_step (key_bits : Z) (key_mask : Z) (start : nat) (st : detect) (i : nat) : option detect :=
  k ← d_keys st !! i;
  let cur := Z.land k key_mask in
  let first := (start <? i)%nat in
  let u := if first && (cur <? d_prev st) then S (d_unsorted st) else d_unsorted st in
  let r := if first && (d_prev st <? cur) then S (d_not_rev st) else d_not_rev st in
  ks ← aset (d_keys st) i (Z.lor cur (u64 (Z.shiftl i key_bits)));
  Some (Detect ks u r cur).

(** One task: the keys of its range are packed, its pairs are counted. *)
Definition packed_detect_fn (key_bits key_mask : Z) (start stop : nat) (keys : list Z) : option (list Z * nat * nat) :=
  prev ← (if (0 <? start)%nat then k ← keys !! (start - 1)%nat; Some (Z.land k key_mask) else Some 0);
  st ← fold_opt (packed_detect_step key_bits key_mask start) (Detect keys 0 0 prev) (seq start (stop - start));
  Some (d_keys st, d_unsorted st, d_not_rev st).

(** [pw_unsorted[wid] += unsorted; pw_not_reverse[wid] += not_rev]. *)
Definition packed_detect_call (key_bits key_mask : Z) (st : list Z * list nat * list nat) (call : nat * (Z * Z))
    : option (list Z * list nat * list nat) :=
  let '(keys, pw, nr) := st in
  '(keys, u, r) ← packed_detect_fn key_bits key_mask (Z.to_nat (snd call).1) (Z.to_nat (snd call).2) keys;
  a ← pw !! fst call; pw ← aset pw (fst call) (a + u)%nat;
  b ← nr !! fst call; nr ← aset nr (fst call) (b + r)%nat;
  Some (keys, pw, nr).

Definition packed_detect (key_bits key_mask : Z) (n_workers : nat) (keys : list Z) (run : list (nat * (Z * Z)))
    : option (list Z * nat * nat) :=
  '(keys, pw, nr) ← fold_opt (packed_detect_call key_bits key_mask)
     (keys, replicate n_workers 0%nat, replicate n_workers 0%nat) run;
  Some (keys, foldl Nat.add 0%nat pw, foldl Nat.add 0%nat nr).

(** The pairs across the boundaries of the tasks, of the packed keys. *)
Definition boundary_step (key_mask : Z) (keys : list Z) (st : nat * nat) (b : nat) : option (nat * nat) :=
  ka ← keys !! (b - 1)%nat; kb ← keys !! b;
  let ka := Z.land ka key_mask in
  let kb := Z.land kb key_mask in
  Some (if kb <? ka then S st.1 else st.1, if ka <? kb then S st.2 else st.2).

Definition packed_boundaries (key_mask : Z) (keys : list Z) (u r : nat) : option (nat * nat) :=
  fold_opt (boundary_step key_mask keys) (u, r) (boundaries (length keys)).

Definition packed_unpack_fn (key_bits idx_mask : Z) (sorted : list Z) : list Z :=
  (fun v => i64 (Z.land (Z.shiftr v key_bits) idx_mask)) <$> sorted.

(** ** The order after the passes *)
Section loop.
Context {A : Type} (key : A -> Z) (tie : relation A).

(** By the low [b] bytes of the key, then by [tie]. *)
Definition low_le (b : nat) (x y : A) : Prop :=
  key x mod 256 ^ b < key y mod 256 ^ b \/ (key x mod 256 ^ b = key y mod 256 ^ b /\ tie x y).

Lemma byte_at_div (b : nat) k : byte_at (8 * b) k = Z.to_nat ((k / 256 ^ b) mod 256).
Proof using Type.
  unfold byte_at. f_equal. change 0xFF with (2 ^ 8 - 1). rewrite land_mask, Z.shiftr_div_pow2 by lia.
  by rewrite Z.pow_mul_r by lia.
Qed.

Lemma byte_at_lt s k : (byte_at s k < 256)%nat.
Proof using Type.
  unfold byte_at. change 0xFF with (2 ^ 8 - 1). rewrite land_mask by lia.
  pose proof (Z.mod_pos_bound (Z.shiftr k s) (2 ^ 8) ltac:(lia)). lia.
Qed.

Lemma low_le_S (b : nat) x y :
  (byte_at (8 * b) (key x) < byte_at (8 * b) (key y))%nat \/
    (byte_at (8 * b) (key x) = byte_at (8 * b) (key y) /\ low_le b x y) -> low_le (S b) x y.
Proof using Type.
  rewrite !byte_at_div. unfold low_le. rewrite Nat2Z.inj_succ, Z.pow_succ_r, (Z.mul_comm 256) by lia.
  assert (0 < 256 ^ b) by lia. rewrite !Z.rem_mul_r by lia.
  pose proof (Z.mod_pos_bound (key x / 256 ^ b) 256 ltac:(lia)). pose proof (Z.mod_pos_bound (key y / 256 ^ b) 256 ltac:(lia)).
  pose proof (Z.mod_pos_bound (key x) (256 ^ b) ltac:(lia)). pose proof (Z.mod_pos_bound (key y) (256 ^ b) ltac:(lia)).
  set (dx := (key x / 256 ^ b) mod 256) in *. set (dy := (key y / 256 ^ b) mod 256) in *. intros [Hd|[Hd Hl]].
  - left. nia.
  - assert (dx = dy) as -> by lia. destruct Hl as [?|[? ?]]; [left; lia|right; split; [lia|done]].
Qed.

(** A pass extends the order by its byte. *)
Lemma low_le_pass (bp : nat) src :
  StronglySorted (low_le bp) src -> StronglySorted (low_le (S bp)) (bucketed (fun x => byte_at (8 * bp) (key x)) src).
Proof using Type.
  intros Hs. eapply StronglySorted_weaken; [|apply (bucketed_sorted _ (low_le bp)), Hs].
  intros x y. apply low_le_S.
Qed.

Lemma radix_loop_ok sched n_tasks (k bp : nat) src dst sw :
  runs_all sched -> (0 < n_tasks)%nat -> length dst = length src -> length src < 2 ^ 32 ->
  StronglySorted (low_le bp) src ->
  exists s d f, radix_loop key sched n_tasks k bp src dst sw = Some (s, d, f) /\ s ≡ₚ src /\
    length d = length src /\ StronglySorted (low_le (bp + k)) s.
Proof using Type.
  intros Hsch Ht. revert bp src dst sw. induction k as [|k IH]; intros bp src dst sw Hl Hn Hs; cbn [radix_loop].
  { exists src, dst, sw. by rewrite Nat.add_0_r. }
  assert (Hdg : forall x : A, (byte_at (8 * bp) (key x) < 256)%nat) by (intros; apply byte_at_lt).
  destruct (radix_pass_ok (fun x => byte_at (8 * bp) (key x)) Hdg sched n_tasks src dst Hsch Ht Hl Hn) as (d1 & f1 & -> & Hd1).
  cbn [mbind option_bind]. pose proof (bucketed_perm (fun x => byte_at (8 * bp) (key x)) Hdg src) as Hp.
  pose proof (Permutation_length Hp) as Hpl.
  destruct (IH (S bp) (bucketed (fun x => byte_at (8 * bp) (key x)) src) d1 (xorb sw f1)) as (s & d & f & -> & Hps & Hd & Hss); [lia|lia|by apply low_le_pass|].
  exists s, d, f. split_and!; [done|by rewrite Hps|lia|]. by rewrite <- Nat.add_succ_comm.
Qed.

(** The low bytes decide when the keys agree above them. *)
Lemma low_le_full (b : nat) x y :
  key x / 256 ^ b = key y / 256 ^ b -> low_le b x y -> key x < key y \/ (key x = key y /\ tie x y).
Proof using Type.
  intros Hd. assert (0 < 256 ^ b) by lia.
  pose proof (Z.div_mod (key x) (256 ^ b) ltac:(lia)). pose proof (Z.div_mod (key y) (256 ^ b) ltac:(lia)).
  intros [?|[? ?]]; [left; nia|right; split; [nia|done]].
Qed.

Lemma low_le_0 l : StronglySorted tie l -> StronglySorted (low_le 0) l.
Proof using Type.
  apply StronglySorted_weaken. intros x y Hxy. right. split; [|done]. by rewrite !Z.mod_1_r.
Qed.
End loop.

Lemma n_tasks_pos pool : (0 < n_tasks_of pool)%nat.
Proof. unfold n_tasks_of. bif; lia. Qed.

Lemma runs_all_of {A} pool (sched : list (list (write A)) -> list (write A)) : runs_all sched -> runs_all (sched_of pool sched).
Proof. intros Hs. unfold sched_of. destruct pool as [n|]; [bif; [done|]|]; by intros ws. Qed.

(** All keys of a list agree above [b] bytes. *)
Definition agree_above (b : nat) (ks : list Z) : Prop := forall x y, x ∈ ks -> y ∈ ks -> x / 256 ^ b = y / 256 ^ b.

(** The row indices are in ascending order, as [til n] is. *)
Abbreviation ascending := (StronglySorted (fun p q : kv => p.2 <= q.2)).

Lemma rows_sorted n_bytes rows s :
  agree_above n_bytes rows.*1 -> s ≡ₚ rows -> StronglySorted (low_le fst (fun p q : kv => p.2 <= q.2) n_bytes) s ->
  StronglySorted key_le s.
Proof.
  intros Hag Hp Hss. eapply StronglySorted_weaken_in; [|exact Hss]. intros x y Hx Hy Hlow. apply key_le_spec.
  rewrite Hp in Hx, Hy. apply (low_le_full fst (fun p q => p.2 <= q.2)) in Hlow; [done|].
  apply Hag; apply list_elem_of_fmap; by eexists.
Qed.

Lemma radix_sort_run_ok pool sched rows tmp n_bytes :
  runs_all sched -> length tmp = length rows -> length rows < 2 ^ 32 -> ascending rows -> agree_above n_bytes rows.*1 ->
  exists d f, radix_sort_run true pool sched rows tmp n_bytes = Some (Some (kv_sort rows, d, f)) /\ length d = length rows.
Proof.
  intros Hs Hl Hn Ha Hag. unfold radix_sort_run.
  destruct (radix_loop_ok fst (fun p q => p.2 <= q.2) (sched_of pool sched) (n_tasks_of pool) n_bytes 0 rows tmp false)
    as (s & d & f & -> & Hp & Hd & Hss); [by apply runs_all_of|apply n_tasks_pos|done..|by apply low_le_0|].
  cbn [mbind option_bind]. exists d, f. split; [|done]. rewrite <- (kv_sort_unique rows s); [done|done|].
  by eapply rows_sorted.
Qed.

(** ** Counting the bytes *)
Definition has_bits (d x : Z) : Prop := forall i, 0 <= i -> Z.testbit x i = true -> Z.testbit d i = true.

Lemma lor_has d x : has_bits (Z.lor d x) x.
Proof. intros i Hi Hx. by rewrite Z.lor_spec, Hx, orb_true_r. Qed.

Lemma has_lor d x y : has_bits d x -> has_bits (Z.lor d y) x.
Proof. intros H i Hi Hx. by rewrite Z.lor_spec, (H i Hi Hx). Qed.

Abbreviation word x := (0 <= x < 2 ^ 64).

Lemma key_range_ok keys start stop (d : Z) first :
  keys !! 0%nat = Some first -> (stop <= length keys)%nat -> Forall (fun k => word k) keys -> word d ->
  exists d', key_range_fn keys start stop d = Some d' /\ word d' /\ has_bits d' d /\
    forall i k, (start <= i < stop)%nat -> keys !! i = Some k -> has_bits d' (Z.lxor k first).
Proof.
  intros Hf Hs Hk Hd. unfold key_range_fn. rewrite Hf. cbn [mbind option_bind].
  assert (Hfw : word first) by (by eapply Forall_lookup_1 in Hk).
  remember (stop - start)%nat as n eqn:En. revert start d Hd En.
  induction n as [|n IH]; intros start d Hd En; cbn [seq fold_opt].
  { exists d. split_and!; [done|lia|lia|by intros i|intros; lia]. }
  destruct (lookup_lt_is_Some_2 keys start) as [k Ek]; [lia|]. rewrite Ek. cbn [mbind option_bind].
  assert (Hkw : word k) by (by eapply Forall_lookup_1 in Hk).
  pose proof (lxor_range 64 k first ltac:(lia) Hkw Hfw) as Hx.
  destruct (IH (S start) (Z.lor d (Z.lxor k first))) as (d' & -> & Hw & Hb & Hi); [by apply lor_range|lia|].
  exists d'. split_and!; [done|lia|lia| |].
  - intros i H0 Hdi. apply Hb; [done|]. by rewrite Z.lor_spec, Hdi.
  - intros i k' Hik Hk'. destruct (decide (i = start)) as [->|]; [|apply (Hi i); [lia|done]].
    simplify_eq. intros j Hj Hb'. apply Hb; [done|]. by apply lor_has.
Qed.

(** What the calls of a dispatch over [n] rows are. *)
Record run_of (n nw : nat) (run : list (nat * (Z * Z))) : Prop := {
  ro_ranges : run.*2 ≡ₚ task_ranges ((n + TASK_GRAIN - 1) / TASK_GRAIN) TASK_GRAIN n;
  ro_workers : Forall (fun call => (call.1 < nw)%nat) run }.

(** Below the capacity of the ring these are the tasks of the pool. *)
Lemma dispatch_is_run task_cap (n : nat) grow_ok :
  0 < task_cap < 2 ^ 32 -> 0 < n -> (n + TASK_GRAIN - 1) / TASK_GRAIN <= task_cap ->
  ray_pool_dispatch_tasks task_cap n grow_ok = task_ranges ((n + TASK_GRAIN - 1) / TASK_GRAIN) TASK_GRAIN n.
Proof.
  unfold ray_pool_dispatch_tasks, dispatch_split, TASK_GRAIN, RAY_DISPATCH_MORSELS, RAY_MORSEL_ELEMS.
  change (8 * 1024) with 8192. intros Hc Hn Hd. rewrite (proj2 (Z.leb_gt n 0)) by lia.
  assert (n < 2 ^ 46) by (pose proof (Z.mul_div_le (n + 8192 - 1) 8192); pose proof (Z.mod_pos_bound (n + 8192 - 1) 8192);
    pose proof (Z.div_mod (n + 8192 - 1) 8192); lia).
  rewrite (proj2 (Z.ltb_ge (INT64_MAX - 8192 + 1) n)) by (unfold INT64_MAX; lia).
  assert (0 <= (n + 8192 - 1) / 8192) by (apply Z.div_pos; lia). rewrite u32_small by lia.
  unfold grow_ring. rewrite (proj2 (Z.ltb_ge task_cap ((n + 8192 - 1) / 8192))) by lia.
  by rewrite (proj2 (Z.ltb_ge task_cap ((n + 8192 - 1) / 8192))) by lia.
Qed.

Lemma grain_pos : 0 < TASK_GRAIN.
Proof. done. Qed.

Section run.
Context (n nw : nat) (run : list (nat * (Z * Z))) (Hrun : run_of n nw run).

(** The ranges of a run: aligned to the grain, inside [0 .. n). *)
Lemma run_range call :
  call ∈ run -> exists j : nat, call.2 = (j * TASK_GRAIN, Z.min (j * TASK_GRAIN + TASK_GRAIN) n) /\ j * TASK_GRAIN < n /\
    (call.1 < nw)%nat.
Proof using Hrun.
  intros Hin. destruct Hrun as [Hr Hw]. rewrite Forall_forall in Hw.
  assert (call.2 ∈ run.*2) as Hc by (apply list_elem_of_fmap; by exists call).
  rewrite Hr in Hc. unfold task_ranges in Hc. apply list_elem_of_fmap in Hc as (i & Hi & Hs).
  apply elem_of_seqZ in Hs. pose proof grain_pos. exists (Z.to_nat i). rewrite Z2Nat.id by lia. split_and!.
  - rewrite Hi. cbn zeta. f_equal. bif; lia.
  - assert (i + 1 <= (n + TASK_GRAIN - 1) / TASK_GRAIN) as Hle by lia.
    pose proof (Z.mul_div_le (n + TASK_GRAIN - 1) TASK_GRAIN ltac:(lia)). nia.
  - by apply Hw.
Qed.

(** Every row is in a range of the run. *)
Lemma run_covers (i : nat) :
  (i < n)%nat -> exists call, call ∈ run /\ call.2 = ((i / TASK_GRAIN) * TASK_GRAIN, Z.min ((i / TASK_GRAIN) * TASK_GRAIN + TASK_GRAIN) n).
Proof using Hrun.
  intros Hi. destruct Hrun as [Hr _]. pose proof grain_pos.
  assert (((i / TASK_GRAIN) * TASK_GRAIN, Z.min ((i / TASK_GRAIN) * TASK_GRAIN + TASK_GRAIN) n) ∈ run.*2) as Hin.
  { rewrite Hr. unfold task_ranges. apply list_elem_of_fmap. exists (i / TASK_GRAIN). split.
    - cbn zeta. f_equal. bif; lia.
    - apply elem_of_seqZ. split; [apply Z.div_pos; lia|]. rewrite Z.add_0_l.
      replace (n + TASK_GRAIN - 1) with ((n - 1) + 1 * TASK_GRAIN) by lia. rewrite Z.div_add by lia.
      assert (i / TASK_GRAIN <= (n - 1) / TASK_GRAIN) by (apply Z.div_le_mono; lia). lia. }
  apply list_elem_of_fmap in Hin as (call & Hc & Hin). exists call. by split.
Qed.
End run.

Lemma nbytes_loop_ok (fuel : nat) diff nb :
  0 <= diff < 256 ^ fuel -> exists k : nat, nbytes_loop (S fuel) diff nb = Some (nb + k)%nat /\ (k <= fuel)%nat /\ diff < 256 ^ k.
Proof.
  revert diff nb. induction fuel as [|fuel IH]; intros diff nb Hd; cbn [nbytes_loop].
  - assert (diff = 0) as -> by (simpl in Hd; lia). exists 0%nat. rewrite Nat.add_0_r. split_and!; [done|lia|lia].
  - destruct (diff =? 0) eqn:E; bprop.
    + exists 0%nat. rewrite Nat.add_0_r. subst. split_and!; [done|lia|lia].
    + rewrite Nat2Z.inj_succ, Z.pow_succ_r in Hd by lia.
      assert (Hs : Z.shiftr diff 8 = diff / 256) by (rewrite Z.shiftr_div_pow2 by lia; done).
      destruct (IH (Z.shiftr diff 8) (S nb)) as (k & Hk & ? & Hlt).
      { rewrite Hs. split; [apply Z.div_pos; lia|apply Z.div_lt_upper_bound; lia]. }
      exists (S k). rewrite <- Nat.add_succ_comm. split_and!; [exact Hk|lia|].
      rewrite Hs in Hlt. rewrite Nat2Z.inj_succ, Z.pow_succ_r by lia.
      pose proof (Z.div_mod diff 256 ltac:(lia)). pose proof (Z.mod_pos_bound diff 256 ltac:(lia)). lia.
Qed.

(** Keys whose difference is below [256^b] agree above [b] bytes. *)
Lemma lxor_agree (b : nat) d k first :
  0 <= d < 256 ^ b -> 0 <= k -> 0 <= first -> has_bits d (Z.lxor k first) -> k / 256 ^ b = first / 256 ^ b.
Proof.
  intros Hd Hk Hf Hb. replace 256 with (2 ^ 8) in * by done. rewrite <- Z.pow_mul_r in * by lia.
  rewrite <- !Z.shiftr_div_pow2 by lia. apply Z.bits_inj'. intros i Hi.
  rewrite !Z.shiftr_spec by lia. destruct (Z.testbit (Z.lxor k first) (i + 8 * b)) eqn:E.
  - apply Hb in E; [|lia]. by rewrite (testbit_high (8 * b) d) in E by lia.
  - rewrite Z.lxor_spec in E. by destruct (Z.testbit k _), (Z.testbit first _).
Qed.

Lemma per_worker_ok {S} (P : S -> Prop) (Q : nat * (Z * Z) -> S -> Prop) (le : relation S)
    (f : nat -> nat -> S -> option S) (pw : list S) run :
  PreOrder le -> (forall c s s', le s s' -> Q c s -> Q c s') ->
  (forall call s, call ∈ run -> P s -> exists s', f (Z.to_nat call.2.1) (Z.to_nat call.2.2) s = Some s' /\ P s' /\ le s s' /\ Q call s') ->
  Forall P pw -> (forall call, call ∈ run -> (call.1 < length pw)%nat) ->
  exists pw', per_worker f pw run = Some pw' /\ length pw' = length pw /\ Forall P pw' /\
    (forall i s, pw !! i = Some s -> exists s', pw' !! i = Some s' /\ le s s') /\
    forall call, call ∈ run -> exists s, pw' !! call.1 = Some s /\ Q call s.
Proof.
  intros Hle HQ Hf HP Hw. revert pw HP Hw. induction run as [|call run IH]; intros pw HP Hw.
  { exists pw. split_and!; [done..| |intros call []%not_elem_of_nil]. intros i s Hs. exists s. split; [done|reflexivity]. }
  unfold per_worker. cbn [fold_opt].
  destruct (lookup_lt_is_Some_2 pw call.1) as [s Es]; [apply Hw; by left|]. rewrite Es. cbn [mbind option_bind].
  destruct (Hf call s) as (s1 & -> & HP1 & Hle1 & HQ1); [by left|by eapply Forall_lookup_1 in HP|]. cbn [mbind option_bind].
  rewrite aset_ok by (by eapply lookup_lt_Some). cbn [mbind option_bind].
  destruct (IH ltac:(intros; apply Hf; [by right|done]) (<[call.1 := s1]> pw)) as (pw' & Hr & Hl & HP' & Hmono & Hq).
  - by apply Forall_insert.
  - intros c Hc. rewrite length_insert. apply Hw. by right.
  - exists pw'. split_and!; [done|by rewrite Hl, length_insert|done|..].
    + intros i s0 Hi. destruct (decide (i = call.1)) as [->|Hn].
      * rewrite Es in Hi. injection Hi as <-.
        destruct (Hmono call.1 s1) as (s2 & ? & ?); [apply list_lookup_insert_eq; by eapply lookup_lt_Some|].
        exists s2. split; [done|]. by trans s1.
      * apply Hmono. by rewrite list_lookup_insert_ne by done.
    + intros c [->|Hc]%elem_of_cons; [|by apply Hq].
      destruct (Hmono call.1 s1) as (s2 & Hs2 & ?); [apply list_lookup_insert_eq; by eapply lookup_lt_Some|].
      exists s2. split; [done|]. by apply (HQ call s1).
Qed.

Lemma foldl_lor_ok (pw : list Z) (d : Z) :
  word d -> Forall (fun x => word x) pw -> word (foldl Z.lor d pw) /\ has_bits (foldl Z.lor d pw) d /\
  forall i x, pw !! i = Some x -> has_bits (foldl Z.lor d pw) x.
Proof.
  revert d. induction pw as [|y pw IH]; intros d Hd Hp; cbn [foldl].
  { split_and!; [lia|lia|by intros i|intros i x Hx; done]. }
  apply Forall_cons in Hp as [Hy Hp]. destruct (IH (Z.lor d y)) as (H1 & H2 & H3); [by apply lor_range|done|].
  split_and!; [lia|lia|..].
  - intros i Hi Hb. apply H2; [done|]. by rewrite Z.lor_spec, Hb.
  - intros [|i] x Hx; [|by eapply H3]. simplify_eq/=. intros i Hi Hb. apply H2; [done|]. by apply lor_has.
Qed.

(** The number of bytes is enough, unless the limit of the type cuts it. *)
Lemma compute_key_nbytes_ok pool run keys type_max :
  (forall nw, pool = Some nw -> run_of (length keys) nw run) -> Forall (fun k => word k) keys -> (1 <= type_max)%nat ->
  exists nb, compute_key_nbytes pool run keys type_max = Some nb /\ (1 <= nb <= type_max)%nat /\
    (agree_above nb keys \/ nb = type_max) /\ ((8 <= type_max)%nat -> (nb <= 8)%nat).
Proof.
  intros Hrun Hk Hmax. unfold compute_key_nbytes. bif.
  { exists 1%nat. split_and!; [done|lia|lia| |lia]. left. intros x y Hx Hy.
    destruct keys as [|k [|k' keys]]; [by apply not_elem_of_nil in Hx| |simpl in *; lia].
    apply list_elem_of_singleton in Hx, Hy. by subst. }
  destruct (lookup_lt_is_Some_2 keys 0) as [first Hf]; [lia|].
  assert (Hfw : word first) by (by eapply Forall_lookup_1 in Hk).
  assert (Hd : exists d, (match pool with
            | Some nw => if SMALL_POOL_THRESHOLD <? length keys then
                  pw ← per_worker (key_range_fn keys) (replicate nw 0) run; Some (foldl Z.lor 0 pw)
                else key_range_fn keys 1 (length keys) 0
            | None => key_range_fn keys 1 (length keys) 0 end) = Some d /\ word d /\
      forall i k, keys !! i = Some k -> has_bits d (Z.lxor k first)).
  { assert (Hseq : exists d, key_range_fn keys 1 (length keys) 0 = Some d /\ word d /\
      forall i k, keys !! i = Some k -> has_bits d (Z.lxor k first)).
    { destruct (key_range_ok keys 1 (length keys) 0 first Hf) as (d & Hd & Hw & _ & Hb); [lia|done|lia|].
      exists d. split_and!; [done|lia|lia|]. intros i k Hi. destruct i as [|i].
      - simplify_eq. intros j _. by rewrite Z.lxor_nilpotent, Z.bits_0.
      - apply (Hb (S i)); [|done]. apply lookup_lt_Some in Hi. lia. }
    destruct pool as [nw|]; [|done]. bif; [|done]. specialize (Hrun nw eq_refl).
    destruct (per_worker_ok (fun x => word x)
      (fun call d => forall i k, (Z.to_nat call.2.1 <= i < Z.to_nat call.2.2)%nat -> keys !! i = Some k -> has_bits d (Z.lxor k first))
      (fun d d' => has_bits d' d) (key_range_fn keys) (replicate nw 0) run) as (pw & -> & Hl & Hw & _ & Hq).
    - split; [by intros d i|intros a b c Hab Hbc i Hi Hx; apply Hbc; [done|by apply Hab]].
    - intros c s s' Hss Hq i k Hi Hki j Hj Hb. apply Hss; [done|]. by apply (Hq i k).
    - intros call s Hin Hs. destruct (run_range _ _ _ Hrun _ Hin) as (j & Ej & Hj & _). rewrite Ej. cbn [fst snd].
      destruct (key_range_ok keys (Z.to_nat (j * TASK_GRAIN)) (Z.to_nat (Z.min (j * TASK_GRAIN + TASK_GRAIN) (length keys))) s first Hf)
        as (d & -> & Hw & Hb & Hi); [lia|done|done|]. exists d. split_and!; [done|lia|lia|exact Hb|exact Hi].
    - apply Forall_replicate. lia.
    - intros call Hin. destruct (run_range _ _ _ Hrun _ Hin) as (j & _ & _ & Hc). by rewrite length_replicate.
    - cbn [mbind option_bind]. destruct (foldl_lor_ok pw 0 ltac:(lia) Hw) as (H1 & _ & H3).
      exists (foldl Z.lor 0 pw). split_and!; [done|lia|lia|]. intros i k Hik.
      destruct (run_covers _ _ _ Hrun i) as (call & Hin & Ec); [by eapply lookup_lt_Some|].
      destruct (Hq call Hin) as (d & Hdl & Hdq). intros j Hj Hb. eapply (H3 _ _ Hdl); [done|].
      apply (Hdq i k); [|done|done..]. rewrite Ec. cbn [fst snd]. pose proof grain_pos.
      pose proof (Z.mul_div_le i TASK_GRAIN ltac:(lia)). pose proof (Z.mod_pos_bound i TASK_GRAIN ltac:(lia)).
      pose proof (Z.div_mod i TASK_GRAIN ltac:(lia)). apply lookup_lt_Some in Hik.
      assert (0 <= i / TASK_GRAIN) by (apply Z.div_pos; lia). nia. }
  destruct Hd as (d & -> & Hdw & Hbits). cbn [mbind option_bind].
  destruct (nbytes_loop_ok 8 d 0) as (k & -> & Hk8 & Hdk); [simpl; lia|]. cbn [mbind option_bind Nat.add].
  assert (Hag : forall b : nat, (k <= b)%nat -> agree_above b keys).
  { intros b Hb x y Hx Hy. assert (d < 256 ^ b) by (eapply Z.lt_le_trans; [exact Hdk|apply Z.pow_le_mono_r; lia]).
    rewrite Forall_forall in Hk. pose proof (Hk x Hx). pose proof (Hk y Hy).
    apply list_elem_of_lookup_1 in Hx as [i Hx], Hy as [j Hy].
    rewrite (lxor_agree b d x first), (lxor_agree b d y first); try done; try lia; by eapply Hbits. }
  eexists. split; [done|]. destruct (k <? 1)%nat eqn:E1; bprop; bif; split_and!; try lia; try (left; apply Hag; lia); by right.
Qed.

(** ** Sortedness *)
Definition descent (keys : list Z) (i : nat) : bool :=
  match keys !! i, keys !! (i - 1)%nat with Some a, Some b => a <? b | _, _ => false end.

Lemma sortedness_fn_ok keys start stop u :
  (stop <= length keys)%nat ->
  exists v, sortedness_fn keys start stop u = Some (u + v)%nat /\
    (v = 0%nat <-> forall i, (start < i < stop)%nat -> descent keys i = false).
Proof.
  intros Hs. unfold sortedness_fn. remember (stop - S start)%nat as n eqn:En. remember (S start) as s1 eqn:Es.
  assert (Hlo : (0 < s1)%nat) by lia. assert (Hst : (s1 + n <= Nat.max s1 stop)%nat) by lia.
  assert (Hx : exists v, fold_opt (fun u i => a ← keys !! i; b ← keys !! (i - 1)%nat; Some (if a <? b then S u else u)) u (seq s1 n)
      = Some (u + v)%nat /\ (v = 0%nat <-> forall i, (s1 <= i < s1 + n)%nat -> descent keys i = false)).
  { assert (Hb : (s1 + n <= length keys \/ n = 0)%nat) by lia. clear -Hb Hlo. revert s1 u Hb Hlo.
    induction n as [|n IH]; intros s1 u Hb Hlo; cbn [seq fold_opt].
    { exists 0%nat. rewrite Nat.add_0_r. split; [done|]. split; [intros; lia|done]. }
    destruct (lookup_lt_is_Some_2 keys s1) as [a Ea]; [lia|]. destruct (lookup_lt_is_Some_2 keys (s1 - 1)) as [b Eb]; [lia|].
    rewrite Ea, Eb. cbn [mbind option_bind].
    assert (Hd : descent keys s1 = (a <? b)) by (unfold descent; by rewrite Ea, Eb).
    destruct (IH (S s1) (if a <? b then S u else u)) as (v & -> & Hv); [lia..|].
    exists (if a <? b then S v else v). destruct (a <? b) eqn:E.
    - split; [f_equal; lia|]. split; [done|]. intros Hi. rewrite Hi in Hd by lia. done.
    - split; [done|]. rewrite Hv. split; intros Hi i Hr; [|apply Hi; lia].
      destruct (decide (i = s1)) as [->|]; [done|apply Hi; lia]. }
  destruct Hx as (v & Hv & Hiff). exists v. split; [done|]. rewrite Hiff. split; intros Hi i Hr; apply Hi; lia.
Qed.

Definition no_descent (keys : list Z) : Prop := forall i, (0 < i < length keys)%nat -> descent keys i = false.

Lemma boundaries_ok n b : (1 < n)%nat -> b ∈ boundaries n <-> (0 < b < n)%nat /\ (b mod Z.to_nat TASK_GRAIN)%nat = 0%nat.
Proof.
  intros Hn. unfold boundaries. set (g := Z.to_nat TASK_GRAIN). assert (Hg : (0 < g)%nat) by (pose proof grain_pos; lia). clearbody g.
  pose proof (Nat.div_mod_eq (n - 1) g). pose proof (Nat.mod_upper_bound (n - 1) g ltac:(lia)).
  rewrite list_elem_of_fmap. split.
  - intros (j & -> & Hj%elem_of_seq). split; [|by apply Nat.Div0.mod_mul]. nia.
  - intros [Hb Hm]. apply Nat.Div0.div_exact in Hm. exists (b / g - 1)%nat.
    assert (0 < b / g)%nat by nia. split; [nia|]. apply elem_of_seq. split; [lia|].
    assert (b / g <= (n - 1) / g)%nat by (apply Nat.Div0.div_le_mono; lia). lia.
Qed.

Lemma foldl_add (pw : list nat) (a : nat) : foldl Nat.add a pw = (a + foldl Nat.add 0 pw)%nat.
Proof.
  revert a. induction pw as [|x pw IH]; intros a; cbn [foldl]; [lia|]. rewrite IH, (IH (0 + x)%nat). lia.
Qed.

Lemma foldl_add_zero (pw : list nat) : foldl Nat.add 0%nat pw = 0%nat <-> forall i x, pw !! i = Some x -> x = 0%nat.
Proof.
  induction pw as [|y pw IH]; cbn [foldl]; [done|]. rewrite foldl_add. split.
  - intros Hz [|i] x Hx; simplify_eq/=; [lia|]. eapply (proj1 IH); [lia|done].
  - intros Hz. pose proof (Hz 0%nat y eq_refl). rewrite (proj2 IH); [lia|]. intros i x Hx. by apply (Hz (S i)).
Qed.

(** Zero is returned for sorted keys only; the pairs across the boundaries of
    the tasks are looked at by the caller. *)
Lemma detect_sortedness_ok pool run keys :
  (forall nw, pool = Some nw -> run_of (length keys) nw run) ->
  exists u, detect_sortedness pool run keys = Some u /\ (u = 0%nat -> no_descent keys).
Proof.
  intros Hrun. unfold detect_sortedness. bif; [exists 0%nat; split; [done|]; intros _ i Hi; lia|].
  assert (Hseq : exists u, sortedness_fn keys 0 (length keys) 0 = Some u /\ (u = 0%nat -> no_descent keys)).
  { destruct (sortedness_fn_ok keys 0 (length keys) 0) as (v & -> & Hv); [done|]. exists v. split; [done|].
    intros Hz i Hi. apply Hv; [done|lia]. }
  destruct pool as [nw|]; [|done]. bif; [|done]. specialize (Hrun nw eq_refl).
  destruct (per_worker_ok (fun _ => True)
    (fun call u => u = 0%nat -> forall i, (Z.to_nat call.2.1 < i < Z.to_nat call.2.2)%nat -> descent keys i = false)
    le (sortedness_fn keys) (replicate nw 0%nat) run) as (pw & -> & Hl & _ & _ & Hq).
  - apply _.
  - intros c s s' Hs HQ Hz. apply HQ. lia.
  - intros call s Hin _. destruct (run_range _ _ _ Hrun _ Hin) as (j & Ej & Hj & _). rewrite Ej. cbn [fst snd].
    destruct (sortedness_fn_ok keys (Z.to_nat (j * TASK_GRAIN)) (Z.to_nat (Z.min (j * TASK_GRAIN + TASK_GRAIN) (length keys))) s)
      as (v & -> & Hv); [lia|]. exists (s + v)%nat. split_and!; [done|done|lia|]. intros Hz. apply Hv. lia.
  - by apply Forall_replicate.
  - intros call Hin. destruct (run_range _ _ _ Hrun _ Hin) as (j & _ & _ & Hc). by rewrite length_replicate.
  - cbn [mbind option_bind].
    assert (Hb : forall bs u, (forall b, b ∈ bs -> (0 < b < length keys)%nat) ->
      exists v, fold_opt (fun u b => x ← keys !! b; y ← keys !! (b - 1)%nat; Some (if x <? y then S u else u)) u bs
        = Some (u + v)%nat /\ (v = 0%nat -> forall b, b ∈ bs -> descent keys b = false)).
    { induction bs as [|b bs IH]; intros u Hbs; cbn [fold_opt].
      { exists 0%nat. rewrite Nat.add_0_r. split; [done|]. intros _ b []%not_elem_of_nil. }
      specialize (Hbs b ltac:(by left)) as Hb1.
      destruct (lookup_lt_is_Some_2 keys b) as [x Ex]; [lia|]. destruct (lookup_lt_is_Some_2 keys (b - 1)) as [y Ey]; [lia|].
      rewrite Ex, Ey. cbn [mbind option_bind]. assert (Hd : descent keys b = (x <? y)) by (unfold descent; by rewrite Ex, Ey).
      destruct (IH (if x <? y then S u else u)) as (v & -> & Hv); [intros; apply Hbs; by right|].
      exists (if x <? y then S v else v). destruct (x <? y); (split; [f_equal; lia|]); [done|].
      intros Hz c [->|Hc]%elem_of_cons; [done|by apply Hv]. }
    destruct (Hb (boundaries (length keys)) (foldl Nat.add 0%nat pw)) as (v & -> & Hv).
    { intros b. rewrite boundaries_ok by lia. tauto. }
    eexists. split; [done|]. intros Hz i Hi.
    assert (foldl Nat.add 0%nat pw = 0%nat) as Hpw by lia. rewrite foldl_add_zero in Hpw.
    destruct (decide (i mod Z.to_nat TASK_GRAIN = 0)%nat) as [Hm|Hm].
    { apply Hv; [lia|]. apply boundaries_ok; [lia|]. split; [lia|done]. }
    destruct (run_covers _ _ _ Hrun i) as (call & Hin & Ec); [lia|].
    destruct (Hq call Hin) as (s & Hs & HQ). apply HQ; [by apply (Hpw call.1)|]. rewrite Ec. cbn [fst snd].
    pose proof grain_pos. pose proof (Z.div_mod i TASK_GRAIN ltac:(lia)). pose proof (Z.mod_pos_bound i TASK_GRAIN ltac:(lia)).
    assert (i mod TASK_GRAIN <> 0) by (intros Hc; apply Hm; rewrite <- (Nat2Z.id (i mod _)), Nat2Z.inj_mod, Z2Nat.id by lia; by rewrite Hc).
    assert (0 <= i / TASK_GRAIN) by (apply Z.div_pos; lia). nia.
Qed.

Lemma no_descent_sorted keys : no_descent keys -> StronglySorted Z.le keys.
Proof.
  intros Hn. apply Sorted_StronglySorted; [apply _|].
  induction keys as [|x keys IH]; constructor.
  - apply IH. intros i Hi. specialize (Hn (S i)). unfold descent in *. cbn in Hn.
    destruct i as [|i]; [lia|]. cbn in *.
    replace (S (S i) - 1)%nat with (S i) in Hn by lia. replace (S i - 1)%nat with i by lia. apply Hn. lia.
  - destruct keys as [|y keys]; constructor. specialize (Hn 1%nat). unfold descent in Hn. change (1 - 1)%nat with 0%nat in Hn. cbn in Hn.
    specialize (Hn ltac:(lia)). lia.
Qed.
