(* ===== verification/PackedSort.v ===== *)
(** * The packed radix sort ([src/ops/sort.c])

    Key and row index in one word: [packed_detect_fn] packs and looks for sorted
    and reverse-sorted input on the way, [packed_radix_sort_run] sorts by the
    key bytes, [packed_unpack_fn] takes the indices out again. *)
From Stdlib Require Import ZArith Lia.
From stdpp Require Import sorting.
From S2P Require Import Prelude SortArr SortKey Pool Radix RadixSort.

(** [(1ULL << bits) - 1]. *)
Definition mask_of (bits : Z) : Z := if bits <? 64 then 2 ^ bits - 1 else 2 ^ 64 - 1.

Lemma land_mask_of x bits : 0 <= bits < 64 -> Z.land x (mask_of bits) = x mod 2 ^ bits.
Proof. intros Hb. unfold mask_of. rewrite (proj2 (Z.ltb_lt _ _)) by lia. apply land_mask. lia. Qed.

Lemma foldl_add_replicate n : foldl Nat.add 0%nat (replicate n 0%nat) = 0%nat.
Proof. by induction n. Qed.

Lemma foldl_add_insert (pw : list nat) w (a u : nat) :
  pw !! w = Some a -> foldl Nat.add 0%nat (<[w := (a + u)%nat]> pw) = (foldl Nat.add 0 pw + u)%nat.
Proof.
  revert w. induction pw as [|x pw IH]; intros [|w] Hw; simplify_eq/=.
  - rewrite (foldl_add pw (a + u)), (foldl_add pw a). lia.
  - rewrite (foldl_add (<[_ := _]> pw)), (foldl_add pw), IH by done. lia.
Qed.

(** The rows of a call. *)
Definition rows_of (call : nat * (Z * Z)) (i : nat) : Prop := (Z.to_nat call.2.1 <= i < Z.to_nat call.2.2)%nat.

(** The calls of a run are over disjoint ranges. *)
Lemma run_disjoint n nw run :
  run_of n nw run -> StronglySorted (fun c1 c2 => forall i, rows_of c1 i -> ~ rows_of c2 i) run.
Proof.
  intros Hrun. assert (Hnd : NoDup run.*2).
  { rewrite (ro_ranges _ _ _ Hrun). unfold task_ranges. apply NoDup_fmap_2_strong; [|apply NoDup_seqZ].
    intros x y _ _ He. cbn zeta in He. injection He as He _. pose proof grain_pos. nia. }
  assert (Hall : forall c, c ∈ run -> exists j : nat, c.2 = (j * TASK_GRAIN, Z.min (j * TASK_GRAIN + TASK_GRAIN) n)).
  { intros c Hc. destruct (run_range _ _ _ Hrun c Hc) as (j & ? & _). by exists j. }
  clear Hrun. induction run as [|c run IH]; constructor.
  - apply IH; [by inversion Hnd|]. intros. apply Hall. by right.
  - apply Forall_forall. intros c' Hc' i Hi Hi'. cbn [fmap list_fmap] in Hnd. apply NoDup_cons in Hnd as [Hni _].
    apply Hni. apply list_elem_of_fmap. exists c'. split; [|done].
    destruct (Hall c) as (j & Ej); [by left|]. destruct (Hall c') as (j' & Ej'); [by right|].
    unfold rows_of in *. rewrite Ej in Hi |- *. rewrite Ej' in Hi' |- *. cbn [fst snd] in *. pose proof grain_pos.
    assert (j = j') as ->; [|done].
    assert (j * TASK_GRAIN <= i < j * TASK_GRAIN + TASK_GRAIN) by lia.
    assert (j' * TASK_GRAIN <= i < j' * TASK_GRAIN + TASK_GRAIN) by lia.
    destruct (Nat.lt_trichotomy j j') as [|[|]]; [nia|done|nia].
Qed.

(** Calls that are apart and together pass over the rows: a row that is not
    the first of a task is compared with the one before it. *)
Record calls_ok (n nw : nat) (calls : list (nat * (Z * Z))) : Prop := {
  co_calls : Forall (fun call => (call.1 < nw)%nat /\ (Z.to_nat call.2.1 <= Z.to_nat call.2.2 <= n)%nat) calls;
  co_apart : StronglySorted (fun c1 c2 => forall i, rows_of c1 i -> ~ rows_of c2 i) calls;
  co_rows : forall i, (i < n)%nat -> exists call, call ∈ calls /\ rows_of call i /\
    ((i mod Z.to_nat TASK_GRAIN <> 0)%nat -> (Z.to_nat call.2.1 < i < Z.to_nat call.2.2)%nat) }.

Lemma run_calls_ok (n nw : nat) run : run_of n nw run -> calls_ok n nw run.
Proof.
  intros Hrun. pose proof grain_pos as Hg. split.
  - apply Forall_forall. intros c Hc. destruct (run_range _ _ _ Hrun c Hc) as (j & -> & ? & ?). cbn [fst snd]. lia.
  - by eapply run_disjoint.
  - intros i Hi. destruct (run_covers _ _ _ Hrun i Hi) as (call & Hin & Ec). exists call. split; [done|]. unfold rows_of.
    rewrite Ec. cbn [fst snd]. pose proof (Z.div_mod i TASK_GRAIN ltac:(lia)). pose proof (Z.mod_pos_bound i TASK_GRAIN ltac:(lia)).
    assert (0 <= i / TASK_GRAIN) by (apply Z.div_pos; lia). split; [nia|]. intros Hm.
    assert (i mod TASK_GRAIN <> 0) by (intros Hc; apply Hm; rewrite <- (Nat2Z.id (i mod _)), Nat2Z.inj_mod, Z2Nat.id by lia; by rewrite Hc).
    nia.
Qed.

(** One call over all rows. *)
Lemma one_call_ok (n : nat) : calls_ok n 1 [(0%nat, (0, Z.of_nat n))].
Proof.
  split.
  - repeat constructor; cbn; lia.
  - repeat constructor.
  - intros i Hi. eexists. split; [by left|]. unfold rows_of. cbn [fst snd]. split; [lia|]. intros Hm.
    destruct i; [by rewrite Nat.Div0.mod_0_l in Hm|lia].
Qed.

Section detect.
Context (nb : nat) (Hnb : (nb <= 3)%nat).
Abbreviation kb := (8 * nb).

(** The packed word of row [i]. *)
Definition pack (i : nat) (k : Z) : Z := k mod 2 ^ kb + i * 2 ^ kb.

Lemma pack_step (i : nat) k :
  i < 2 ^ (64 - kb) -> Z.lor (Z.land k (mask_of kb)) (u64 (Z.shiftl i kb)) = pack i k.
Proof using Hnb.
  intros Hi. rewrite land_mask_of by lia. unfold pack.
  pose proof (Z.mod_pos_bound k (2 ^ kb) ltac:(lia)).
  assert (i * 2 ^ kb < 2 ^ 64).
  { replace 64 with ((64 - kb) + kb) by lia. rewrite Z.pow_add_r by lia. nia. }
  rewrite u64_small by (rewrite Z.shiftl_mul_pow2 by lia; lia). rewrite Z.lor_comm, lor_shiftl_add by lia. lia.
Qed.

Lemma pack_low i k : pack i k mod 2 ^ kb = k mod 2 ^ kb.
Proof using Hnb. unfold pack. rewrite Z_mod_plus_full. by rewrite Zmod_mod. Qed.

Lemma pack_high i k : pack i k / 2 ^ kb = i.
Proof using Hnb.
  unfold pack. rewrite Z.div_add by lia. rewrite Z.div_small by (apply Z.mod_pos_bound; lia). lia.
Qed.

Context (orig : list Z) (Hn : length orig < 2 ^ (64 - kb)).

(** The masked keys of a row and the one before it. *)
Definition low_ge (i : nat) : Prop :=
  forall a b, orig !! i = Some a -> orig !! (i - 1)%nat = Some b -> b mod 2 ^ kb <= a mod 2 ^ kb.
Definition low_le_prev (i : nat) : Prop :=
  forall a b, orig !! i = Some a -> orig !! (i - 1)%nat = Some b -> a mod 2 ^ kb <= b mod 2 ^ kb.

Lemma detect_loop_ok (start m i : nat) st :
  (start <= i)%nat -> (i + m <= length orig)%nat ->
  (forall j, (i <= j < i + m)%nat -> d_keys st !! j = orig !! j) -> length (d_keys st) = length orig ->
  ((start < i)%nat -> forall b, orig !! (i - 1)%nat = Some b -> d_prev st = b mod 2 ^ kb) ->
  exists st', fold_opt (packed_detect_step kb (mask_of kb) start) st (seq i m) = Some st' /\
    length (d_keys st') = length orig /\
    (forall j, d_keys st' !! j = if decide (i <= j < i + m)%nat then pack j <$> orig !! j else d_keys st !! j) /\
    (d_unsorted st' = 0%nat -> d_unsorted st = 0%nat /\ forall j, (i <= j < i + m)%nat -> (start < j)%nat -> low_ge j) /\
    (d_not_rev st' = 0%nat -> d_not_rev st = 0%nat /\ forall j, (i <= j < i + m)%nat -> (start < j)%nat -> low_le_prev j) /\
    ((forall j, (i <= j < i + m)%nat -> (start < j)%nat -> low_le_prev j) -> d_not_rev st' = d_not_rev st).
Proof using Hnb Hn.
  revert i st. induction m as [|m IH]; intros i st Hsi Him Hk Hl Hp; cbn [seq fold_opt].
  { exists st. split_and!; [done..| | | |done].
    - intros j. rewrite decide_False by lia. done.
    - intros Hz. split; [done|intros; lia].
    - intros Hz. split; [done|intros; lia]. }
  destruct (lookup_lt_is_Some_2 orig i) as [k Ek]; [lia|]. unfold packed_detect_step at 2.
  rewrite Hk, Ek by lia. cbn [mbind option_bind]. rewrite aset_ok by lia. cbn [mbind option_bind].
  rewrite pack_step by lia. rewrite land_mask_of by lia.
  set (st1 := Detect _ _ _ _). destruct (IH (S i) st1) as (st' & -> & Hl' & Hk' & Hu & Hr & Hrc).
  - lia.
  - lia.
  - intros j Hj. cbn. rewrite list_lookup_insert_ne by lia. apply Hk. lia.
  - cbn. by rewrite length_insert.
  - intros _ b. replace (S i - 1)%nat with i by lia. rewrite Ek. by intros [= <-].
  - exists st'. split_and!; [done|done| | | |].
    + intros j. rewrite Hk'. cbn. destruct (decide (j = i)) as [->|Hne].
      * rewrite decide_False, decide_True, list_lookup_insert_eq, Ek by lia. done.
      * rewrite list_lookup_insert_ne by done. repeat case_decide; done || lia.
    + intros Hz. destruct (Hu Hz) as [Hz1 Hrest]. cbn in Hz1.
      assert (Hi : d_unsorted st = 0%nat /\ ((start < i)%nat -> k mod 2 ^ kb >= d_prev st)).
      { destruct (start <? i)%nat eqn:E; bprop; cbn [andb] in Hz1; [destruct (k mod 2 ^ kb <? d_prev st) eqn:E2; [done|]; bprop; split; [done|lia]|split; [done|lia]]. }
      split; [apply Hi|]. intros j Hj Hsj. destruct (decide (j = i)) as [->|]; [|apply Hrest; lia].
      intros a b Ea Eb. simplify_eq. rewrite <- (Hp Hsj b Eb). destruct Hi as [_ Hi]. specialize (Hi Hsj). lia.
    + intros Hz. destruct (Hr Hz) as [Hz1 Hrest]. cbn in Hz1.
      assert (Hi : d_not_rev st = 0%nat /\ ((start < i)%nat -> k mod 2 ^ kb <= d_prev st)).
      { destruct (start <? i)%nat eqn:E; bprop; cbn [andb] in Hz1; [destruct (d_prev st <? k mod 2 ^ kb) eqn:E2; [done|]; bprop; split; [done|lia]|split; [done|lia]]. }
      split; [apply Hi|]. intros j Hj Hsj. destruct (decide (j = i)) as [->|]; [|apply Hrest; lia].
      intros a b Ea Eb. simplify_eq. rewrite <- (Hp Hsj b Eb). destruct Hi as [_ Hi]. specialize (Hi Hsj). lia.
    + intros Hf. rewrite Hrc by (intros; apply Hf; lia). cbn. destruct (start <? i)%nat eqn:E; bprop; cbn [andb]; [|done].
      destruct (lookup_lt_is_Some_2 orig (i - 1)) as [b Eb]; [lia|]. rewrite (Hp E b Eb).
      by rewrite (proj2 (Z.ltb_ge _ _)) by (apply (Hf i ltac:(lia) E k b Ek Eb)).
Qed.

Lemma detect_fn_ok (start stop : nat) keys :
  (start <= stop)%nat -> (stop <= length orig)%nat -> length keys = length orig ->
  (forall j, (start <= j < stop)%nat -> keys !! j = orig !! j) ->
  exists keys' u r, packed_detect_fn kb (mask_of kb) start stop keys = Some (keys', u, r) /\
    length keys' = length orig /\
    (forall j, keys' !! j = if decide (start <= j < stop)%nat then pack j <$> orig !! j else keys !! j) /\
    (u = 0%nat -> forall j, (start < j < stop)%nat -> low_ge j) /\
    (r = 0%nat -> forall j, (start < j < stop)%nat -> low_le_prev j) /\
    ((forall j, (start < j < stop)%nat -> low_le_prev j) -> r = 0%nat).
Proof using Hnb Hn.
  intros Hs Hst Hl Hk. unfold packed_detect_fn.
  assert (Hp : exists p, (if (0 <? start)%nat then k ← keys !! (start - 1)%nat; Some (Z.land k (mask_of kb)) else Some 0) = Some p).
  { bif; [|by eexists]. destruct (lookup_lt_is_Some_2 keys (start - 1)) as [k ->]; [lia|]. by eexists. }
  destruct Hp as [p ->]. cbn [mbind option_bind].
  destruct (detect_loop_ok start (stop - start) start (Detect keys 0 0 p)) as (st & -> & Hl' & Hk' & Hu & Hr & Hrc);
    [done|lia| |done|lia|].
  { intros j Hj. apply Hk. lia. }
  cbn [mbind option_bind]. exists (d_keys st), (d_unsorted st), (d_not_rev st). split_and!; [done|done| | | |].
  - intros j. rewrite Hk'. repeat case_decide; done || lia.
  - intros Hz j Hj. apply (Hu Hz); lia.
  - intros Hz j Hj. apply (Hr Hz); lia.
  - intros Hf. rewrite Hrc; [done|]. intros; apply Hf; lia.
Qed.

(** Calls over disjoint ranges that together cover the rows: each packs its
    own, whatever the order. *)
Lemma detect_calls_ok nw run keys pw nr (donerows : nat -> Prop) `{forall i, Decision (donerows i)} :
  Forall (fun call => (call.1 < nw)%nat /\ (Z.to_nat call.2.1 <= Z.to_nat call.2.2 <= length orig)%nat) run ->
  StronglySorted (fun c1 c2 => forall i, rows_of c1 i -> ~ rows_of c2 i) run ->
  (forall call i, call ∈ run -> rows_of call i -> ~ donerows i) ->
  length keys = length orig -> length pw = nw -> length nr = nw ->
  (forall i, keys !! i = if decide (donerows i) then pack i <$> orig !! i else orig !! i) ->
  exists keys' pw' nr', fold_opt (packed_detect_call kb (mask_of kb)) (keys, pw, nr) run = Some (keys', pw', nr') /\
    length keys' = length orig /\
    (forall i, (donerows i \/ exists call, call ∈ run /\ rows_of call i) -> keys' !! i = pack i <$> orig !! i) /\
    (foldl Nat.add 0%nat pw' = 0%nat -> foldl Nat.add 0%nat pw = 0%nat /\
      forall call i, call ∈ run -> (Z.to_nat call.2.1 < i < Z.to_nat call.2.2)%nat -> low_ge i) /\
    (foldl Nat.add 0%nat nr' = 0%nat -> foldl Nat.add 0%nat nr = 0%nat /\
      forall call i, call ∈ run -> (Z.to_nat call.2.1 < i < Z.to_nat call.2.2)%nat -> low_le_prev i) /\
    ((forall call i, call ∈ run -> (Z.to_nat call.2.1 < i < Z.to_nat call.2.2)%nat -> low_le_prev i) ->
      foldl Nat.add 0%nat nr' = foldl Nat.add 0%nat nr).
Proof using Hnb Hn.
  revert keys pw nr donerows H. induction run as [|call run IH];
    intros keys pw nr donerows Hdec Hw Hdis Hdone Hl Hpw Hnr Hk; cbn [fold_opt].
  { exists keys, pw, nr. split_and!; [done|done| | | |done].
    - intros i [Hi|(c & []%not_elem_of_nil & _)]. rewrite Hk. by rewrite decide_True.
    - intros Hz. split; [done|]. intros c i []%not_elem_of_nil.
    - intros Hz. split; [done|]. intros c i []%not_elem_of_nil. }
  apply Forall_cons in Hw as [[Hc Hr] Hw]. apply StronglySorted_cons in Hdis as [Hd1 Hdis]. rewrite Forall_forall in Hd1.
  unfold packed_detect_call at 2.
  destruct (detect_fn_ok (Z.to_nat call.2.1) (Z.to_nat call.2.2) keys) as (keys1 & u & r & E1 & Hl1 & Hk1 & Hu & Hrr & Hrc);
    [lia|lia|done| |].
  { intros j Hj. rewrite Hk, decide_False; [done|]. apply (Hdone call); [by left|done]. }
  rewrite E1. cbn [mbind option_bind].
  destruct (lookup_lt_is_Some_2 pw call.1) as [a Ea]; [lia|]. destruct (lookup_lt_is_Some_2 nr call.1) as [b Eb]; [lia|].
  rewrite Ea. cbn [mbind option_bind]. rewrite aset_ok by lia. cbn [mbind option_bind]. rewrite Eb. cbn [mbind option_bind].
  rewrite aset_ok by lia. cbn [mbind option_bind].
  edestruct (IH keys1 (<[call.1 := (a + u)%nat]> pw) (<[call.1 := (b + r)%nat]> nr)
    (fun i => donerows i \/ rows_of call i)) as (keys' & pw' & nr' & -> & Hl' & Hk' & Hu' & Hr' & Hrc').
  - done.
  - done.
  - intros c i Hin Hi [?|Hrow]; [by eapply (Hdone c); [right|..]|]. by eapply Hd1.
  - done.
  - by rewrite length_insert.
  - by rewrite length_insert.
  - intros i. rewrite Hk1, Hk. unfold rows_of. repeat case_decide; done || tauto.
  - exists keys', pw', nr'. split_and!; [done|done| | | |].
    + intros i [Hi|(c & [->|Hin]%elem_of_cons & Hi)]; apply Hk'; [by left; left|by left; right|right; by exists c].
    + intros Hz. destruct (Hu' Hz) as [Hz' Hrest]. rewrite foldl_add_insert in Hz' by done. split; [lia|].
      intros c i [->|Hin]%elem_of_cons Hi; [apply Hu; [lia|done]|by eapply Hrest].
    + intros Hz. destruct (Hr' Hz) as [Hz' Hrest]. rewrite foldl_add_insert in Hz' by done. split; [lia|].
      intros c i [->|Hin]%elem_of_cons Hi; [apply Hrr; [lia|done]|by eapply Hrest].
    + intros Hf. rewrite Hrc' by (intros c i Hin; apply Hf; by right). rewrite foldl_add_insert by done.
      rewrite Hrc; [lia|]. intros i. apply Hf. by left.
  Unshelve. all: intros i; unfold rows_of; apply _.
Qed.

Lemma packed_detect_ok nw calls :
  calls_ok (length orig) nw calls ->
  exists u r, packed_detect kb (mask_of kb) nw orig calls = Some (imap pack orig, u, r) /\
    (u = 0%nat -> forall i, (0 < i < length orig)%nat -> (i mod Z.to_nat TASK_GRAIN <> 0)%nat -> low_ge i) /\
    (r = 0%nat -> forall i, (0 < i < length orig)%nat -> (i mod Z.to_nat TASK_GRAIN <> 0)%nat -> low_le_prev i) /\
    ((forall i, (0 < i < length orig)%nat -> low_le_prev i) -> r = 0%nat).
Proof using Hnb Hn.
  intros [Hcalls Hapart Hcov]. unfold packed_detect.
  destruct (detect_calls_ok nw calls orig (replicate nw 0%nat) (replicate nw 0%nat) (fun _ => False))
    as (keys & pw & nr & -> & Hl & Hk & Hu & Hr & Hrc); [done|done|tauto|done|apply length_replicate..| |].
  { intros i. by rewrite decide_False by tauto. }
  assert (keys = imap pack orig) as ->.
  { apply list_eq. intros i. rewrite list_lookup_imap. destruct (decide (i < length orig)%nat) as [Hi|Hi].
    - apply Hk. right. destruct (Hcov i Hi) as (call & ? & ? & _). by exists call.
    - rewrite !lookup_ge_None_2 by lia. done. }
  cbn [mbind option_bind]. eexists _, _. split; [done|]. split_and!.
  - intros Hz i Hi Hm. destruct (Hcov i) as (call & Hin & _ & Hc); [lia|]. by eapply (proj2 (Hu Hz)); [|apply Hc].
  - intros Hz i Hi Hm. destruct (Hcov i) as (call & Hin & _ & Hc); [lia|]. by eapply (proj2 (Hr Hz)); [|apply Hc].
  - intros Hf. rewrite Hrc; [by rewrite foldl_add_replicate|]. intros call i Hin Hi. apply Hf.
    rewrite Forall_forall in Hcalls. destruct (Hcalls call Hin). lia.
Qed.

(** The neighbours across the boundaries of the tasks. *)
Lemma boundaries_loop_ok bs (u r : nat) :
  (forall b, b ∈ bs -> (0 < b < length orig)%nat) ->
  exists v w, fold_opt (boundary_step (mask_of kb) (imap pack orig)) (u, r) bs = Some ((u + v)%nat, (r + w)%nat) /\
    (v = 0%nat -> forall b, b ∈ bs -> low_ge b) /\ (w = 0%nat -> forall b, b ∈ bs -> low_le_prev b) /\
    ((forall b, b ∈ bs -> low_le_prev b) -> w = 0%nat).
Proof using Hnb.
  revert u r. induction bs as [|b bs IH]; intros u r Hbs; cbn [fold_opt].
  { exists 0%nat, 0%nat. rewrite !Nat.add_0_r. split_and!; [done|by intros _ b []%not_elem_of_nil..|done]. }
  destruct (Hbs b ltac:(by left)) as [Hb1 Hb2].
  destruct (lookup_lt_is_Some_2 orig b) as [x Ex]; [lia|]. destruct (lookup_lt_is_Some_2 orig (b - 1)) as [y Ey]; [lia|].
  unfold boundary_step at 2. rewrite !list_lookup_imap, Ex, Ey. cbn [fmap option_fmap option_map mbind option_bind fst snd].
  rewrite !land_mask_of, !pack_low by lia.
  match goal with |- context [fold_opt _ (?u', ?r') bs] => destruct (IH u' r') as (v & w & -> & Hv & Hw & Hwc) end;
    [intros; apply Hbs; by right|].
  exists (if x mod 2 ^ kb <? y mod 2 ^ kb then S v else v), (if y mod 2 ^ kb <? x mod 2 ^ kb then S w else w). split_and!.
  - f_equal. f_equal; bif; lia.
  - destruct (_ <? _) eqn:E; bprop; [done|]. intros Hz c [->|Hc]%elem_of_cons; [|by apply Hv].
    intros a a' Ea Ea'. simplify_eq. lia.
  - destruct (y mod _ <? _) eqn:E; bprop; [done|]. intros Hz c [->|Hc]%elem_of_cons; [|by apply Hw].
    intros a a' Ea Ea'. simplify_eq. lia.
  - intros Hf. rewrite (proj2 (Z.ltb_ge _ _)) by (apply (Hf b ltac:(by left) x y Ex Ey)). apply Hwc. intros c Hc. apply Hf. by right.
Qed.

Lemma packed_boundaries_ok (u r : nat) :
  (1 < length orig)%nat ->
  exists u' r', packed_boundaries (mask_of kb) (imap pack orig) u r = Some (u', r') /\
    (u' = 0%nat -> u = 0%nat /\ forall i, (0 < i < length orig)%nat -> (i mod Z.to_nat TASK_GRAIN = 0)%nat -> low_ge i) /\
    (r' = 0%nat -> r = 0%nat /\ forall i, (0 < i < length orig)%nat -> (i mod Z.to_nat TASK_GRAIN = 0)%nat -> low_le_prev i) /\
    (r = 0%nat -> (forall i, (0 < i < length orig)%nat -> low_le_prev i) -> r' = 0%nat).
Proof using Hnb.
  intros H0. unfold packed_boundaries. rewrite length_imap.
  destruct (boundaries_loop_ok (boundaries (length orig)) u r) as (v & w & -> & Hv & Hw & Hwc).
  { intros b. rewrite boundaries_ok by lia. tauto. }
  eexists _, _. split_and!; [done| | |].
  - intros Hz. split; [lia|]. intros i Hi Hm. apply Hv; [lia|]. apply boundaries_ok; [lia|]. split; [lia|done].
  - intros Hz. split; [lia|]. intros i Hi Hm. apply Hw; [lia|]. apply boundaries_ok; [lia|]. split; [lia|done].
  - intros -> Hf. rewrite Hwc; [done|]. intros b Hb%boundaries_ok; [|lia]. apply Hf. lia.
Qed.
End detect.

(** ** Sorting the packed keys *)
(** The rows of a list of keys. *)
Definition rows_of_keys (keys : list Z) : list kv := imap (fun i k => (k, Z.of_nat i)) keys.

Lemma pow_kb (nb : nat) : 2 ^ (8 * nb) = 256 ^ nb.
Proof. by rewrite Z.pow_mul_r by lia. Qed.

Section packed.
Context (nb : nat) (Hnb : (1 <= nb <= 3)%nat) (keys : list Z).
Abbreviation kb := (8 * nb).


(** The row of a packed word. *)
Definition unpack_row (v : Z) : kv := (default 0 (keys !! Z.to_nat (v / 2 ^ kb)), v / 2 ^ kb).

Lemma unpack_pack : unpack_row <$> imap (pack nb) keys = rows_of_keys keys.
Proof using Hnb.
  unfold rows_of_keys. rewrite fmap_imap. apply imap_ext. intros i k Hk. unfold compose, unpack_row.
  rewrite pack_high by lia. by rewrite Nat2Z.id, Hk.
Qed.

Context (Hag : agree_above nb keys).

Lemma low_order k k' (i j : nat) :
  k ∈ keys -> k' ∈ keys -> k mod 2 ^ kb < k' mod 2 ^ kb \/ (k mod 2 ^ kb = k' mod 2 ^ kb /\ i <= j) -> k < k' \/ (k = k' /\ i <= j).
Proof using Hnb Hag.
  intros Hk Hk' Hlow. pose proof (Hag k k' Hk Hk') as Hq. rewrite pow_kb in Hlow.
  pose proof (Z.div_mod k (256 ^ nb) ltac:(lia)). pose proof (Z.div_mod k' (256 ^ nb) ltac:(lia)). nia.
Qed.

(** ** Nothing to sort *)
(** When no low key descends the rows are sorted. *)
Lemma low_ge_sorted : (forall i, (0 < i < length keys)%nat -> low_ge nb keys i) -> StronglySorted key_le (rows_of_keys keys).
Proof using Hnb Hag.
  intros Hge. apply Sorted_StronglySorted; [apply _|]. unfold rows_of_keys.
  assert (H : forall (l : list Z) m, (forall i x y, l !! i = Some x -> l !! S i = Some y -> x <= y) -> Sorted key_le (imap (fun i k => (k, Z.of_nat (m + i))) l)).
  { clear. induction l as [|x l IH]; intros m Hl; cbn [imap]; constructor.
    - erewrite imap_ext; [apply (IH (S m)); intros i; apply (Hl (S i))|]. intros i y _. unfold compose. do 2 f_equal. lia.
    - destruct l as [|y l]; cbn [imap]; constructor. apply key_le_spec. cbn [fst snd compose].
      specialize (Hl 0%nat x y eq_refl eq_refl). unfold compose. cbn. lia. }
  apply (H keys 0%nat). intros i x y Hx Hy. specialize (Hge (S i)). unfold low_ge in Hge.
  pose proof (lookup_lt_Some _ _ _ Hy). replace (S i - 1)%nat with i in Hge by lia. specialize (Hge ltac:(lia) _ _ Hy Hx).
  rewrite pow_kb in Hge. pose proof (Hag x y ltac:(by eapply list_elem_of_lookup_2) ltac:(by eapply list_elem_of_lookup_2)) as Hq.
  pose proof (Z.div_mod x (256 ^ nb) ltac:(lia)). pose proof (Z.div_mod y (256 ^ nb) ltac:(lia)). nia.
Qed.

(** When none ascends the keys descend. *)
Lemma low_le_descending : (forall i, (0 < i < length keys)%nat -> low_le_prev nb keys i) -> StronglySorted Z.ge keys.
Proof using Hnb Hag.
  intros Hle. apply Sorted_StronglySorted; [intros x y z; lia|].
  assert (H : forall l : list Z, (forall i x y, l !! i = Some x -> l !! S i = Some y -> x >= y) -> Sorted Z.ge l).
  { clear. induction l as [|x l IH]; intros Hl; constructor; [apply IH; intros i; apply (Hl (S i))|].
    destruct l as [|y l]; constructor. by apply (Hl 0%nat). }
  apply H. intros i x y Hx Hy. specialize (Hle (S i)). unfold low_le_prev in Hle.
  pose proof (lookup_lt_Some _ _ _ Hy). replace (S i - 1)%nat with i in Hle by lia. specialize (Hle ltac:(lia) _ _ Hy Hx).
  rewrite pow_kb in Hle. pose proof (Hag x y ltac:(by eapply list_elem_of_lookup_2) ltac:(by eapply list_elem_of_lookup_2)) as Hq.
  pose proof (Z.div_mod x (256 ^ nb) ltac:(lia)). pose proof (Z.div_mod y (256 ^ nb) ltac:(lia)). nia.
Qed.
(** ** The sort *)
Context (idx_bits : Z) (Hidx : 0 <= idx_bits) (Hfit : 8 * nb + idx_bits <= 64) (Hlen : length keys < 2 ^ idx_bits) (Hlen32 : length keys < 2 ^ 32).

Lemma unpack_words s :
  s ≡ₚ imap (pack nb) keys -> packed_unpack_fn kb (mask_of idx_bits) s = (unpack_row <$> s).*2.
Proof using Hnb Hidx Hfit Hlen Hlen32.
  intros Hp. unfold packed_unpack_fn. rewrite <- list_fmap_compose. apply list_fmap_ext. intros j v Hv.
  unfold compose, unpack_row. cbn [snd].
  assert (Hin : v ∈ imap (pack nb) keys) by (rewrite <- Hp; by eapply list_elem_of_lookup_2).
  apply elem_of_lookup_imap in Hin as (i & k & -> & Hk). apply lookup_lt_Some in Hk.
  rewrite Z.shiftr_div_pow2 by lia. rewrite pack_high by lia.
  assert (2 ^ idx_bits <= 2 ^ 64) by (apply Z.pow_le_mono_r; lia).
  assert (Z.land i (mask_of idx_bits) = i) as ->.
  { unfold mask_of. destruct (idx_bits <? 64) eqn:E; bprop; rewrite land_mask by lia; apply Z.mod_small; lia. }
  apply i64_small. unfold INT64_MIN, INT64_MAX. assert (2 ^ idx_bits <= 2 ^ 56) by (apply Z.pow_le_mono_r; lia). lia.
Qed.

(** Sorted by the low bytes, then by the row. *)
Lemma unpack_sorted s :
  s ≡ₚ imap (pack nb) keys -> StronglySorted (low_le id (fun v w => v / 2 ^ kb <= w / 2 ^ kb) nb) s ->
  packed_unpack_fn kb (mask_of idx_bits) s = (kv_sort (rows_of_keys keys)).*2.
Proof using Hnb Hag Hidx Hfit Hlen Hlen32.
  intros Hp Hs. rewrite unpack_words by done. f_equal. apply kv_sort_unique.
  - rewrite <- unpack_pack. by apply fmap_Permutation.
  - apply (StronglySorted_fmap _ (fun v w => key_le (unpack_row v) (unpack_row w))); [done|].
    eapply StronglySorted_weaken_in; [|exact Hs]. intros v w Hv Hw Hlow. rewrite Hp in Hv, Hw.
    apply elem_of_lookup_imap in Hv as (i & k & -> & Hk), Hw as (j & k' & -> & Hk').
    unfold low_le in Hlow. unfold id in Hlow. rewrite <- (pow_kb nb), !pack_low, !pack_high in Hlow by lia.
    apply key_le_spec. unfold unpack_row. cbn [fst snd]. rewrite !pack_high, !Nat2Z.id, Hk, Hk' by lia. cbn [default].
    unfold id. apply low_order; [by eapply list_elem_of_lookup_2..|done].
Qed.

Lemma packed_radix_ok pool sched tmp :
  runs_all sched -> length tmp = length keys ->
  exists s d f, packed_radix_sort_run true pool sched (imap (pack nb) keys) tmp nb = Some (Some (s, d, f)) /\
    packed_unpack_fn kb (mask_of idx_bits) s = (kv_sort (rows_of_keys keys)).*2.
Proof using Hnb Hag Hidx Hfit Hlen Hlen32.
  intros Hs Hl. unfold packed_radix_sort_run. assert (Hli : length (imap (pack nb) keys) = length keys) by apply length_imap.
  destruct (radix_loop_ok id (fun v w => v / 2 ^ kb <= w / 2 ^ kb) (sched_of pool sched) (n_tasks_of pool) nb 0 (imap (pack nb) keys) tmp false)
    as (s & d & f & -> & Hp & Hd & Hss); [by apply runs_all_of|apply n_tasks_pos|lia|lia| |].
  - apply low_le_0. assert (Hsrt : forall m, StronglySorted (fun v w => v / 2 ^ kb <= w / 2 ^ kb) (imap (fun i k => pack nb (m + i) k) keys)).
    { clear -Hnb. induction keys as [|k ks IH]; intros m; cbn [imap]; constructor.
      - specialize (IH (S m)). erewrite imap_ext; [exact IH|]. intros i x _. unfold compose. f_equal. lia.
      - apply Forall_forall. intros v Hv. apply elem_of_lookup_imap in Hv as (i & x & -> & _). unfold compose.
        rewrite !pack_high by lia. lia. }
    apply (Hsrt 0%nat).
  - cbn [mbind option_bind]. exists s, d, f. split; [done|]. by apply unpack_sorted.
Qed.

End packed.
