(* ===== verification/MsdSort.v ===== *)
(** * The MSD+LSB radix sort ([src/ops/sort.c], [bucket_lsb_sort],
    [msd_bucket_sort_fn], [msd_radix_sort_run])

    One pass by the most significant byte splits the rows into 256 buckets,
    and every bucket is sorted on its own by the other bytes.  The buckets are
    tasks of the pool: [order] is the order in which they run. *)
From Stdlib Require Import ZArith Lia.
From stdpp Require Import sorting.
From S2P Require Import Prelude SortArr SortKey Pool Radix RadixSort.

Definition RADIX_MSD_ROWS : Z := 1000000.

(** ** One bucket *)
Section bucket.
Context {A : Type} (dg : A -> nat).

(** [pos = off[byte]++; dst[pos] = src[i]]. *)
Definition scatter_step (st : list nat * list A) (x : A) : option (list nat * list A) :=
  let '(off, dst) := st in
  pos ← off !! dg x; off ← aset off (dg x) (S pos); dst ← aset dst pos x; Some (off, dst).

(** One turn of the loop over the bytes. *)
Definition lsb_pass (src dst : list A) : option (list A * list A * bool) :=
  hist ← fold_opt (hist_step dg) (replicate 256 0) src;
  if existsb (fun b => default 0 (hist !! b) =? u32 (length src)) (seq 0 256) then Some (src, dst, false)
  else '(_, dst) ← fold_opt scatter_step ((col_offsets hist 0).1, dst) src; Some (dst, src, true).
End bucket.

Fixpoint lsb_loop (k bp : nat) (src dst : list kv) (swapped : bool) : option (list kv * list kv * bool) :=
  match k with
  | O => Some (src, dst, swapped)
  | S k =>
      '(src, dst, sw) ← lsb_pass (A := kv) (fun x => byte_at (8 * bp) x.1) src dst;
      lsb_loop k (S bp) src dst (xorb swapped sw)
  end.

Definition bucket_lsb_sort (rows tmp : list kv) (n_bytes : nat) : option (list kv * list kv * bool) :=
  let n := length rows in
  if (n <=? 64)%nat then s ← key_introsort rows n; Some (s, tmp, false)
  else lsb_loop n_bytes 0 rows tmp false.

(** [memcpy] of [l] to the part of [a] at [off]. *)
Definition put {A} (a : list A) (off : nat) (l : list A) : list A := take off a ++ l ++ drop (off + length l) a.

(** One bucket; an odd number of passes leaves the rows in the other buffer,
    from where they are copied. *)
Definition sort_bucket (offs : list nat) (n_bytes : nat) (st : list kv * list kv) (b : nat) : option (list kv * list kv) :=
  let '(data, tmp) := st in
  off ← offs !! b; stop ← offs !! S b;
  let cnt := (stop - off)%nat in
  if (cnt <=? 1)%nat then Some (data, tmp)
  else
    '(s, d, sw) ← bucket_lsb_sort (part data off (off + cnt)) (part tmp off (off + cnt)) n_bytes;
    Some (put data off s, put tmp off (if sw : bool then s else d)).

Definition msd_bucket_sort_fn (offs : list nat) (n_bytes start stop : nat) (st : list kv * list kv)
    : option (list kv * list kv) :=
  fold_opt (sort_bucket offs n_bytes) st (seq start (stop - start)).

(** [bucket_offsets[b] = running], and the total last. *)
Definition bucket_offsets (hist : list (list Z)) : list nat :=
  let '(offs, total) :=
    col_offsets ((fun b => foldl (fun acc h => acc + default 0 (h !! b)) 0 hist) <$> seq 0 256) 0 in
  offs ++ [total].

(** The result and, as in [radix_sort_run], the other buffer and which is which. *)
Fixpoint msd_radix_sort_run (alloc_ok alloc_ok2 : bool) (pool : option nat)
    (sched : list (list (write kv)) -> list (write kv)) (order : list nat)
    (rows tmp : list kv) (n_bytes : nat) : option (option (list kv * list kv * bool)) :=
  let n := length rows in
  if (n_bytes <=? 5)%nat || (n <=? RADIX_MSD_ROWS) then radix_sort_run alloc_ok2 pool sched rows tmp n_bytes
  else if negb alloc_ok then radix_sort_run alloc_ok2 pool sched rows tmp n_bytes
  else
    match n_bytes with
    | O => None
    | S msd_byte =>
        let dg := fun x : kv => byte_at (8 * msd_byte) x.1 in
        let n_tasks := n_tasks_of pool in
        hist ← mapM (radix_hist_fn dg rows n_tasks) (seq 0 n_tasks);
        if uniform hist n then msd_radix_sort_run alloc_ok alloc_ok2 pool sched order rows tmp msd_byte
        else
          let cols := prefix_sum hist (seq 0 256) 0 in
          let offs := bucket_offsets hist in
          ws ← mapM (fun t => radix_scatter_fn dg rows n_tasks t (task_offsets cols t)) (seq 0 n_tasks);
          data ← do_writes (sched_of pool sched ws) tmp;
          '(data, scratch) ← (match pool with
             | Some _ => fold_opt (fun st b => msd_bucket_sort_fn offs msd_byte b (S b) st) (data, rows) order
             | None => msd_bucket_sort_fn offs msd_byte 0 256 (data, rows)
             end);
          Some (Some (data, scratch, true))
    end.

(** ** The passes of a bucket *)
Section lsb_ok.
Context {A : Type} (dg : A -> nat) (dg_ok : forall x, (dg x < 256)%nat).

Lemma buckets_cons l x : buckets dg (x :: l) = <[dg x := x :: digit dg (dg x) l]> (buckets dg l).
Proof using dg_ok.
  unfold buckets. rewrite <- (table_insert (fun b => digit dg b (x :: l)) (fun b => digit dg b l) (dg x)).
  - unfold digit. by rewrite filter_cons_True.
  - apply dg_ok.
  - intros k Hk. unfold digit. by rewrite filter_cons_False by done.
Qed.

Lemma scatter_ok l off dst :
  length off = 256%nat -> exists off' ws, fold_opt (scatter_step dg) (off, dst) l = (d ← do_writes ws dst; Some (off', d)) /\
    ws ≡ₚ concat (zip_with place off (buckets dg l)).
Proof using dg_ok.
  revert off dst. induction l as [|x l IH]; intros off dst Hl; cbn [fold_opt].
  { exists off, []. split; [done|]. rewrite buckets_nil. clear dst.
    replace (zip_with place off (replicate 256 [])) with (replicate (length off) (@nil (nat * A))).
    - rewrite Hl. by vm_compute.
    - rewrite <- Hl. clear. induction off as [|o off IH]; cbn; [done|]. by f_equal. }
  pose proof (dg_ok x) as Hx. destruct (lookup_lt_is_Some_2 off (dg x)) as [pos Hpos]; [lia|].
  unfold scatter_step at 2. rewrite Hpos. cbn [mbind option_bind]. rewrite (aset_ok off) by lia. cbn [mbind option_bind].
  assert (Hws : forall ws' : list (write A), (ws' ≡ₚ concat (zip_with place (<[dg x := S pos]> off) (buckets dg l))) ->
    (pos, x) :: ws' ≡ₚ concat (zip_with place off (buckets dg (x :: l)))).
  { intros ws' Hw. rewrite buckets_cons, Hw. symmetry.
    assert (off = <[dg x := pos]> (<[dg x := S pos]> off)) as He by (by rewrite list_insert_insert_eq, list_insert_id).
    rewrite He at 1.
    eapply zip_insert_perm.
    - by apply list_lookup_insert_eq; lia.
    - by apply buckets_lookup.
    - unfold place. cbn [imap]. rewrite Nat.add_0_r. apply perm_skip.
      enough (imap _ _ = imap _ _) as -> by done. apply imap_ext. intros. cbn. f_equal. lia. }
  destruct (aset dst pos x) as [dst'|] eqn:Ed; cbn [mbind option_bind].
  - destruct (IH (<[dg x := S pos]> off) dst') as (off' & ws & -> & Hw); [by rewrite length_insert|].
    exists off', ((pos, x) :: ws). unfold do_writes. cbn [fold_opt fst snd]. rewrite Ed. cbn [mbind option_bind].
    split; [done|by apply Hws].
  - destruct (IH (<[dg x := S pos]> off) dst) as (off' & ws & _ & Hw); [by rewrite length_insert|].
    exists off', ((pos, x) :: ws). unfold do_writes. cbn [fold_opt fst snd]. rewrite Ed. cbn [mbind option_bind].
    split; [done|by apply Hws].
Qed.

Lemma counts_nat (l : list A) : length l < 2 ^ 32 -> counts dg l = (fun r => Z.of_nat (length r)) <$> buckets dg l.
Proof using Type.
  intros Hl. unfold counts, buckets. rewrite <- list_fmap_compose. apply list_fmap_ext. intros i b _. unfold compose.
  pose proof (length_filter (fun x => dg x = b) l). apply u32_small. unfold digit. lia.
Qed.

Lemma existsb_counts (l : list A) :
  length l < 2 ^ 32 -> existsb (fun b => default 0 (counts dg l !! b) =? u32 (length l)) (seq 0 256) = true ->
  bucketed dg l = l.
Proof using dg_ok.
  intros Hn He. apply existsb_exists in He as (b & Hb & He). apply in_seq in Hb.
  rewrite counts_lookup in He by lia. cbn in He. bprop.
  pose proof (length_filter (fun x => dg x = b) l). unfold digit in He. rewrite !u32_small in He by lia.
  apply (bucketed_uniform _ _ b); [lia|]. apply full_digit. unfold digit. lia.
Qed.

Lemma lsb_pass_ok src dst :
  length dst = length src -> length src < 2 ^ 32 ->
  exists dst' sw, lsb_pass dg src dst = Some (bucketed dg src, dst', sw) /\ length dst' = length src.
Proof using dg_ok.
  intros Hl Hn. unfold lsb_pass. rewrite hist_ok by done. cbn [mbind option_bind]. fold (counts dg src).
  destruct (existsb _ _) eqn:E.
  { exists dst, false. split; [|done]. by rewrite (existsb_counts src). }
  rewrite counts_nat by done. pose proof (col_offsets_ok (buckets dg src) 0) as Hc.
  destruct (col_offsets _ 0) as [os r]. destruct Hc as (Hlen & Hpl & _). cbn [fst].
  destruct (scatter_ok src os dst) as (off' & ws & -> & Hw).
  { rewrite Hlen. unfold buckets. by rewrite length_fmap, length_seq. }
  rewrite (do_writes_place _ (bucketed dg src)).
  - cbn [mbind option_bind]. by exists src, true.
  - by rewrite Hw, Hpl.
  - by rewrite bucketed_perm.
Qed.
End lsb_ok.

Abbreviation row_order := (low_le (A := kv) fst (fun p q : kv => p.2 <= q.2)).

Lemma byte_dg_ok s (x : kv) : (byte_at s x.1 < 256)%nat.
Proof. apply byte_at_lt. Qed.

Lemma lsb_loop_ok (k bp : nat) src dst sw :
  length dst = length src -> length src < 2 ^ 32 -> StronglySorted (row_order bp) src ->
  exists s d f, lsb_loop k bp src dst sw = Some (s, d, f) /\ s ≡ₚ src /\ length d = length src /\
    StronglySorted (row_order (bp + k)) s.
Proof.
  revert bp src dst sw. induction k as [|k IH]; intros bp src dst sw Hl Hn Hs; cbn [lsb_loop].
  { exists src, dst, sw. by rewrite Nat.add_0_r. }
  destruct (lsb_pass_ok (fun x : kv => byte_at (8 * bp) x.1) (byte_dg_ok _) src dst Hl Hn) as (d1 & f1 & -> & Hd1).
  cbn [mbind option_bind]. pose proof (bucketed_perm (fun x : kv => byte_at (8 * bp) x.1) (byte_dg_ok _) src) as Hp.
  pose proof (Permutation_length Hp) as Hpl.
  destruct (IH (S bp) (bucketed (fun x : kv => byte_at (8 * bp) x.1) src) d1 (xorb sw f1)) as (s & d & f & -> & Hps & Hd & Hss);
    [lia|lia|by apply low_le_pass|].
  exists s, d, f. split_and!; [done|by rewrite Hps|lia|]. by rewrite <- Nat.add_succ_comm.
Qed.

Lemma bucket_lsb_sort_ok rows tmp n_bytes :
  length tmp = length rows -> length rows < 2 ^ 32 -> ascending rows -> agree_above n_bytes rows.*1 ->
  exists d f, bucket_lsb_sort rows tmp n_bytes = Some (kv_sort rows, d, f) /\ length d = length rows.
Proof.
  intros Hl Hn Ha Hag. unfold bucket_lsb_sort. bif.
  { rewrite key_introsort_ok by lia. cbn [mbind option_bind]. by eexists _, _. }
  destruct (lsb_loop_ok n_bytes 0 rows tmp false) as (s & d & f & -> & Hp & Hd & Hss); [done|done|by apply low_le_0|].
  exists d, f. split; [|done]. rewrite <- (kv_sort_unique rows s); [done|done|by eapply rows_sorted].
Qed.

(** ** All buckets *)
Lemma concat_around {A} (ls : list (list A)) b l :
  ls !! b = Some l -> concat ls = concat (take b ls) ++ l ++ concat (drop (S b) ls).
Proof. intros Hb. by rewrite <- (take_drop_middle ls b l Hb) at 1; rewrite concat_app. Qed.

Lemma put_concat {A} (ls : list (list A)) b l l' :
  ls !! b = Some l -> length l' = length l ->
  put (concat ls) (length (concat (take b ls))) l' = concat (<[b := l']> ls).
Proof.
  intros Hb Hl. pose proof (lookup_lt_Some _ _ _ Hb). rewrite (insert_take_drop ls b l'), concat_app by done.
  rewrite (concat_around ls b l Hb) at 1. unfold put. rewrite take_app_length, Hl, <- drop_drop.
  by rewrite !drop_app_length.
Qed.

Lemma part_concat {A} (ls : list (list A)) b l :
  ls !! b = Some l -> part (concat ls) (length (concat (take b ls))) (length (concat (take b ls)) + length l) = l.
Proof.
  intros Hb. rewrite (concat_around ls b l Hb) at 1. unfold part. rewrite take_app_add, take_app_length.
  apply drop_app_length.
Qed.

(** The start of bucket [b], and the end of the last. *)
Definition starts_of {A} (ls : list (list A)) (offs : list nat) : Prop :=
  forall b, (b <= length ls)%nat -> offs !! b = Some (length (concat (take b ls))).

Lemma starts_insert {A} (ls : list (list A)) offs b l l' :
  starts_of ls offs -> ls !! b = Some l -> length l' = length l -> starts_of (<[b := l']> ls) offs.
Proof.
  intros Hs Hb Hl c Hc. rewrite length_insert in Hc. rewrite Hs by done. f_equal.
  destruct (decide (c <= b)%nat). { by rewrite take_insert_ge. }
  rewrite take_insert_lt, !length_concat by lia. rewrite list_fmap_insert. f_equal.
  rewrite list_insert_id; [done|]. rewrite list_lookup_fmap, lookup_take_lt, Hb by lia. simpl. by f_equal.
Qed.

Lemma length_put {A} (a : list A) off l : (off + length l <= length a)%nat -> length (put a off l) = length a.
Proof. intros. unfold put. rewrite !length_app, length_take, length_drop. lia. Qed.

Lemma sort_bucket_ok offs n_bytes ls tmp b l :
  starts_of ls offs -> ls !! b = Some l -> length tmp = length (concat ls) -> length (concat ls) < 2 ^ 32 ->
  ascending l -> agree_above n_bytes l.*1 ->
  exists tmp', sort_bucket offs n_bytes (concat ls, tmp) b = Some (concat (<[b := kv_sort l]> ls), tmp') /\
    length tmp' = length tmp.
Proof.
  intros Hs Hb Ht Hn Ha Hag. pose proof (lookup_lt_Some _ _ _ Hb) as Hlt. unfold sort_bucket.
  rewrite (Hs b), (Hs (S b)) by lia. cbn [mbind option_bind].
  assert (Hnext : length (concat (take (S b) ls)) = (length (concat (take b ls)) + length l)%nat).
  { rewrite (take_S_r _ _ l), concat_app, length_app by done. cbn [concat]. by rewrite app_nil_r. }
  assert (Hle : (length (concat (take b ls)) + length l <= length (concat ls))%nat).
  { rewrite (concat_around ls b l Hb), !length_app. lia. }
  rewrite Hnext. replace (length (concat (take b ls)) + length l - length (concat (take b ls)))%nat with (length l) by lia.
   pose proof (Permutation_length (kv_sort_perm l)) as Hsl. bif.
  - exists tmp. split; [|done]. assert (kv_sort l = l) as -> by (apply kv_sort_id; destruct l as [|x [|]]; [..|simpl in *; lia]; repeat constructor).
    by rewrite list_insert_id.
  - rewrite (part_concat _ _ l) by done.
    destruct (bucket_lsb_sort_ok l (part tmp (length (concat (take b ls))) (length (concat (take b ls)) + length l)) n_bytes)
      as (d & f & -> & Hd); [rewrite part_length; lia|lia|done|done|].
    cbn [mbind option_bind]. rewrite (put_concat _ _ l) by done. eexists. split; [done|]. apply length_put. destruct f; lia.
Qed.

Lemma sort_buckets_ok offs n_bytes order (ls : list (list kv)) tmp :
  NoDup order -> Forall (fun b => (b < length ls)%nat) order -> starts_of ls offs ->
  length tmp = length (concat ls) -> length (concat ls) < 2 ^ 32 ->
  (forall b l, b ∈ order -> ls !! b = Some l -> ascending l /\ agree_above n_bytes l.*1) ->
  exists ls' tmp', fold_opt (sort_bucket offs n_bytes) (concat ls, tmp) order = Some (concat ls', tmp') /\
    length tmp' = length tmp /\
    forall b, ls' !! b = if decide (b ∈ order) then kv_sort <$> ls !! b else ls !! b.
Proof.
  revert ls tmp. induction order as [|b order IH]; intros ls tmp Hnd Hlt Hs Ht Hn Hok; cbn [fold_opt].
  { exists ls, tmp. split_and!; [done..|]. intros b. by rewrite decide_False by apply not_elem_of_nil. }
  apply NoDup_cons in Hnd as [Hni Hnd]. apply Forall_cons in Hlt as [Hb Hlt].
  destruct (lookup_lt_is_Some_2 ls b Hb) as [l Hl]. destruct (Hok b l) as [Ha Hag]; [by left|done|].
  destruct (sort_bucket_ok offs n_bytes ls tmp b l) as (tmp1 & -> & Ht1); [done..|]. cbn [mbind option_bind].
  pose proof (Permutation_length (kv_sort_perm l)) as Hsl.
  assert (Hcl : length (concat (<[b := kv_sort l]> ls)) = length (concat ls)).
  { rewrite <- (put_concat _ _ l) by done. apply length_put. rewrite (concat_around ls b l Hl), !length_app. lia. }
  destruct (IH (<[b := kv_sort l]> ls) tmp1) as (ls' & tmp' & -> & Ht' & Hls).
  - done.
  - by rewrite length_insert.
  - by eapply starts_insert.
  - lia.
  - lia.
  - intros c lc Hc. assert (c <> b) by (by intros ->). rewrite list_lookup_insert_ne by done. apply Hok. by right.
  - exists ls', tmp'. split_and!; [done|lia|]. intros c. rewrite Hls. destruct (decide (c = b)) as [->|Hne].
    + rewrite decide_False by done. rewrite (decide_True (P := b ∈ b :: order)) by (by left).
      by rewrite list_lookup_insert_eq, Hl.
    + rewrite list_lookup_insert_ne by done. apply decide_ext. rewrite elem_of_cons. naive_solver.
Qed.

Lemma col_offsets_lookup {A} (ls : list (list A)) r :
  let '(os, r') := col_offsets ((fun l => Z.of_nat (length l)) <$> ls) r in
  length os = length ls /\ r' = (r + length (concat ls))%nat /\
  forall b, (b < length ls)%nat -> os !! b = Some (r + length (concat (take b ls)))%nat.
Proof.
  revert r. induction ls as [|l ls IH]; intros r; cbn [fmap list_fmap col_offsets].
  { cbn. split_and!; [done|lia|intros; lia]. }
  rewrite Nat2Z.id. specialize (IH (r + length l)%nat). destruct (col_offsets _ _) as [os r']. destruct IH as (Hl & -> & Hb).
  cbn [length concat]. rewrite length_app. split_and!; [lia|lia|]. intros [|b] Hlt; cbn [lookup list_lookup take concat].
  - f_equal. cbn. lia.
  - etrans; [apply Hb; lia|]. rewrite length_app. f_equal. lia.
Qed.

Section offsets.
Context {A : Type} (dg : A -> nat) (dg_ok : forall x, (dg x < 256)%nat).

Lemma counts_sum b (parts : list (list A)) acc :
  (b < 256)%nat -> length (concat parts) < 2 ^ 32 ->
  foldl (fun acc h => acc + default 0 (h !! b)) acc (counts dg <$> parts) = acc + length (digit dg b (concat parts)).
Proof using Type.
  intros Hb. revert acc. induction parts as [|p parts IH]; intros acc Hn; cbn [fmap list_fmap foldl concat] in *; [cbn; lia|].
  rewrite length_app in Hn. rewrite IH by lia. rewrite counts_lookup, digit_app, length_app by done. cbn [default].
  pose proof (length_filter (fun x => dg x = b) p). unfold digit. rewrite u32_small by lia. unfold id. lia.
Qed.

Lemma bucket_offsets_ok parts src :
  concat parts = src -> length src < 2 ^ 32 -> starts_of (buckets dg src) (bucket_offsets (counts dg <$> parts)).
Proof using Type.
  intros <- Hn b Hb. unfold bucket_offsets.
  assert ((fun b => foldl (fun acc h => acc + default 0 (h !! b)) 0 (counts dg <$> parts)) <$> seq 0 256 =
    (fun l => Z.of_nat (length l)) <$> buckets dg (concat parts)) as ->.
  { unfold buckets. rewrite <- list_fmap_compose. apply list_fmap_ext. intros i c Hc. apply lookup_seq in Hc.
    rewrite counts_sum by (done || lia). unfold compose. lia. }
  pose proof (col_offsets_lookup (buckets dg (concat parts)) 0) as Hc. destruct (col_offsets _ 0) as [os r].
  destruct Hc as (Hl & -> & Hlk). destruct (decide (b = length (buckets dg (concat parts)))) as [->|].
  - rewrite lookup_app_r, <- Hl, Nat.sub_diag by lia. cbn. by rewrite Hl, firstn_all.
  - rewrite lookup_app_l by lia. rewrite Hlk by lia. done.
Qed.
End offsets.

Lemma byte_split (b : nat) x : x / 256 ^ b = 256 * (x / 256 ^ S b) + byte_at (8 * b) x.
Proof.
  rewrite byte_at_div, Nat2Z.inj_succ, Z.pow_succ_r, (Z.mul_comm 256 (256 ^ b)), <- Z.div_div by lia.
  rewrite Z2Nat.id by (apply Z.mod_pos_bound; lia). apply Z.div_mod. lia.
Qed.

(** Sorting every bucket is sorting. *)
Lemma buckets_sort (byte : nat) rows :
  agree_above (S byte) rows.*1 ->
  concat (kv_sort <$> buckets (fun x : kv => byte_at (8 * byte) x.1) rows) = kv_sort rows.
Proof.
  intros Hag. set (dg := fun x : kv => byte_at (8 * byte) x.1).
  assert (kv_sort <$> buckets dg rows = buckets dg (kv_sort rows)) as ->.
  { unfold buckets. rewrite <- list_fmap_compose. apply list_fmap_ext. intros i b _. unfold compose. symmetry.
    apply kv_sort_unique; [|apply StronglySorted_filter, kv_sort_sorted]. unfold digit. by rewrite kv_sort_perm. }
  fold (bucketed dg (kv_sort rows)). pose proof (bucketed_perm dg (byte_dg_ok _) (kv_sort rows)) as Hp.
  apply kv_sort_unique; [by rewrite Hp, kv_sort_perm|].
  eapply StronglySorted_weaken_in; [|apply (bucketed_sorted dg key_le), kv_sort_sorted].
  intros x y Hx Hy [Hd|[_ Hle]]; [|done]. rewrite Hp, kv_sort_perm in Hx, Hy. apply key_le_spec. left.
  assert (x.1 / 256 ^ S byte = y.1 / 256 ^ S byte) as Hq by (apply Hag; apply list_elem_of_fmap; by eexists).
  pose proof (byte_split byte x.1) as Hbx. pose proof (byte_split byte y.1) as Hby. rewrite Hq in Hbx.
  assert (x.1 / 256 ^ byte < y.1 / 256 ^ byte) as Hlt by (unfold dg in Hd; clear -Hbx Hby Hd; lia).
  destruct (Z.lt_ge_cases x.1 y.1) as [|Hge]; [done|]. pose proof (Z.div_le_mono y.1 x.1 (256 ^ byte) ltac:(lia) Hge). lia.
Qed.

Lemma msd_bucket_one offs n_bytes st b : msd_bucket_sort_fn offs n_bytes b (S b) st = sort_bucket offs n_bytes st b.
Proof.
  unfold msd_bucket_sort_fn. replace (S b - b)%nat with 1%nat by lia. cbn [seq fold_opt].
  by destruct (sort_bucket offs n_bytes st b).
Qed.

(** The dispatch of one task per bucket is the loop over the order. *)
Lemma bucket_dispatch (pool : option nat) offs n_bytes st order :
  (match pool with
   | Some _ => fold_opt (fun st b => msd_bucket_sort_fn offs n_bytes b (S b) st) st order
   | None => msd_bucket_sort_fn offs n_bytes 0 256 st
   end) = fold_opt (sort_bucket offs n_bytes) st (match pool with Some _ => order | None => seq 0 256 end).
Proof. destruct pool; [|done]. apply fold_opt_ext. intros s b. apply msd_bucket_one. Qed.

Lemma agree_uniform (byte : nat) rows b :
  (forall x : kv, x ∈ rows -> byte_at (8 * byte) x.1 = b) -> agree_above (S byte) rows.*1 -> agree_above byte rows.*1.
Proof.
  intros Hu Hag k1 k2 H1 H2. pose proof (Hag k1 k2 H1 H2) as Hq.
  apply list_elem_of_fmap in H1 as (x & -> & Hx), H2 as (y & -> & Hy). by rewrite (byte_split byte x.1), (byte_split byte y.1), (Hu x Hx), (Hu y Hy), Hq.
Qed.

Lemma digit_bucket_ok (byte b : nat) rows :
  ascending rows -> agree_above (S byte) rows.*1 ->
  ascending (digit (fun x : kv => byte_at (8 * byte) x.1) b rows) /\
  agree_above byte (digit (fun x : kv => byte_at (8 * byte) x.1) b rows).*1.
Proof.
  intros Ha Hag. split; [by apply StronglySorted_filter|].
  apply (agree_uniform byte _ b); [by intros x [Hx _]%list_elem_of_filter|].
  intros k1 k2 (x & -> & Hx)%list_elem_of_fmap (y & -> & Hy)%list_elem_of_fmap. unfold digit in Hx, Hy.
  apply list_elem_of_filter in Hx as [_ Hx], Hy as [_ Hy]. apply Hag; apply list_elem_of_fmap; by eexists.
Qed.

Lemma msd_radix_sort_run_ok alloc_ok pool sched order rows tmp n_bytes :
  runs_all sched -> order ≡ₚ seq 0 256 -> length tmp = length rows -> length rows < 2 ^ 32 ->
  ascending rows -> agree_above n_bytes rows.*1 ->
  exists d f, msd_radix_sort_run alloc_ok true pool sched order rows tmp n_bytes = Some (Some (kv_sort rows, d, f)) /\
    length d = length rows.
Proof.
  intros Hs Ho Hl Hn Ha. induction n_bytes as [|byte IH]; intros Hag; cbn [msd_radix_sort_run].
  { by apply radix_sort_run_ok. }
  destruct (_ || _) eqn:E; [by apply radix_sort_run_ok|]. clear E.
  destruct (negb alloc_ok); [by apply radix_sort_run_ok|].
  set (dg := fun x : kv => byte_at (8 * byte) x.1) in *. assert (dg_ok : forall x, (dg x < 256)%nat) by apply byte_dg_ok.
  rewrite hist_rows_ok by done. cbn [mbind option_bind].
  pose proof (task_parts_all rows (n_tasks_of pool) (n_tasks_pos pool)) as Hparts.
  destruct (uniform _ _) eqn:E.
  { apply (uniform_ok dg _ rows) in E as (b & Hb & Hu); [|done..]. apply IH. apply (agree_uniform byte _ b); [|done].
    by apply (full_digit dg). }
  destruct (scatters_ok dg dg_ok (n_tasks_of pool) rows (n_tasks_pos pool) Hn) as (ws & Hm & Hp). rewrite Hm. cbn [mbind option_bind].
  rewrite (do_writes_place _ (bucketed dg rows)); [|by rewrite (runs_all_of pool sched Hs)|by rewrite bucketed_perm].
  cbn [mbind option_bind]. rewrite bucket_dispatch.
  set (ord := match pool with Some _ => order | None => seq 0 256 end).
  assert (Hord : ord ≡ₚ seq 0 256) by (by destruct pool). clear Ho.
  assert (Hbl : length (buckets dg rows) = 256%nat) by (unfold buckets; by rewrite length_fmap, length_seq).
  assert (Hcl : length (concat (buckets dg rows)) = length rows) by (fold (bucketed dg rows); by rewrite bucketed_perm).
  destruct (sort_buckets_ok (bucket_offsets (counts dg <$> task_list (n_tasks_of pool) rows)) byte ord (buckets dg rows) rows)
    as (ls' & tmp' & Hr & Ht' & Hls).
  - rewrite Hord. apply NoDup_seq.
  - rewrite Hord, Hbl. apply Forall_forall. intros b Hb%elem_of_seq. lia.
  - by apply bucket_offsets_ok.
  - by rewrite Hcl.
  - by rewrite Hcl.
  - intros b l Hb Hlk. rewrite Hord, elem_of_seq in Hb. rewrite buckets_lookup in Hlk by lia. injection Hlk as <-.
    by apply digit_bucket_ok.
  - unfold bucketed at 1. rewrite Hr. cbn [mbind option_bind]. exists tmp', true. split; [|done].
    rewrite <- (buckets_sort byte rows Hag). fold dg. repeat f_equal. apply list_eq. intros b. rewrite Hls, list_lookup_fmap.
    destruct (decide (b < 256)%nat); [rewrite decide_True by (rewrite Hord, elem_of_seq; lia); done|].
    rewrite !lookup_ge_None_2 by lia. by case_decide.
Qed.

(** C19. The radix sorts, byte by byte from the low end and hybrid from the high
    end, end and turn rows in ascending order of their index into the rows
    sorted by key with ties by the index, [kv_sort], whatever the number of
    tasks, the order in which their buffered writes land and the order of the
    buckets, for up to [2^32 - 1] rows whose keys agree above the bytes
    sorted; without memory for the hybrid's tables it falls back to the other. *)
Theorem radix_sorts_rows alloc_ok pool sched order rows tmp n_bytes :
  runs_all sched -> order ≡ₚ seq 0 256 -> length tmp = length rows -> length rows < 2 ^ 32 ->
  ascending rows -> agree_above n_bytes rows.*1 ->
  (exists d f, radix_sort_run true pool sched rows tmp n_bytes = Some (Some (kv_sort rows, d, f))) /\
  (exists d f, msd_radix_sort_run alloc_ok true pool sched order rows tmp n_bytes = Some (Some (kv_sort rows, d, f))) /\
  kv_sort rows ≡ₚ rows /\ StronglySorted key_le (kv_sort rows).
Proof.
  intros H1 H2 H3 H4 H5 H6. split_and!.
  - destruct (radix_sort_run_ok pool sched rows tmp n_bytes) as (d & f & ? & _); [done..|]. by exists d, f.
  - destruct (msd_radix_sort_run_ok alloc_ok pool sched order rows tmp n_bytes) as (d & f & ? & _); [done..|]. by exists d, f.
  - apply kv_sort_perm.
  - apply kv_sort_sorted.
Qed.

(** Three tasks whose writes land in reverse. *)
Lemma radix_sorts_rows_witness :
  let rows := [(513, 0); (7, 1); (512, 2); (7, 3); (1, 4)] in
  exists d f, radix_sort_run true (Some 3%nat) (fun ws => rev (concat ws)) rows (replicate 5 (0, 0)) 2 = Some (Some (kv_sort rows, d, f)) /\
    kv_sort rows = [(1, 4); (7, 1); (7, 3); (512, 2); (513, 0)].
Proof.
  intros rows.
  destruct (radix_sorts_rows true (Some 3%nat) (fun ws => rev (concat ws)) (seq 0 256) rows (replicate 5 (0, 0)) 2) as ((d & f & Hr) & _).
  - intros ws. symmetry. apply Permutation_rev.
  - done.
  - done.
  - by vm_compute.
  - unfold rows. repeat (apply SSorted_cons || constructor); cbn; lia.
  - intros x y Hx Hy. assert (H : forall z, z ∈ rows.*1 -> 0 <= z < 256 ^ 2%nat).
    { apply Forall_forall. unfold rows. cbn [fmap list_fmap fst]. rewrite !Forall_cons. cbn. split_and!; [lia..|constructor]. }
    by rewrite !Z.div_small by auto.
  - exists d, f. split; [exact Hr|by vm_compute].
Defined.
