(* ===== verification/SortCol.v ===== *)
(** * Sort columns and the comparator ([src/ops/sort.c], [sort_cmp];
    [src/vec/vec.c], [ray_vec_is_null]; [src/vec/str.c], [src/vec/str.h])

    A column to sort by, the null test, the comparison of two of its rows, and
    that the comparison is a total preorder.  An element of a numeric column is
    its value, of a floating-point column its bit pattern, of a symbol column
    its id; a guid or a string is its bytes.  Slices are not modelled. *)
From Stdlib Require Import ZArith Lia Floats.SpecFloat.
From S2P Require Import Prelude WireVal.

(** ** Types *)
Definition RAY_IS_TEMPORAL32 (t : ray_type_e) : bool :=
  match t with RAY_DATE | RAY_TIME | RAY_MONTH | RAY_MINUTE | RAY_SECOND => true | _ => false end.
Definition RAY_IS_TEMPORAL64 (t : ray_type_e) : bool :=
  match t with RAY_TIMESTAMP | RAY_TIMESPAN => true | _ => false end.
Definition RAY_IS_TEMPORALF (t : ray_type_e) : bool := match t with RAY_DATETIME => true | _ => false end.
Definition ray_is_bytelike (t : ray_type_e) : bool := match t with RAY_U8 | RAY_CHARV => true | _ => false end.

Definition is_f64 (t : ray_type_e) : bool := bool_decide (t = RAY_F64) || RAY_IS_TEMPORALF t.
Definition is_i64 (t : ray_type_e) : bool := bool_decide (t = RAY_I64) || RAY_IS_TEMPORAL64 t.
Definition is_i32 (t : ray_type_e) : bool := bool_decide (t = RAY_I32) || RAY_IS_TEMPORAL32 t.
Definition is_byte (t : ray_type_e) : bool := bool_decide (t = RAY_BOOL) || ray_is_bytelike t.

Record col := Col {
  c_type : ray_type_e;
  c_nulls : bool;              (** [RAY_ATTR_HAS_NULLS] *)
  c_data : list Z;
  c_text : list (list Z);      (** of a guid or string column *)
  c_dom : list (list Z) }.     (** the domain of a symbol column: id to string *)

Definition c_len (c : col) : nat :=
  match c_type c with RAY_GUID | RAY_STR => length (c_text c) | _ => length (c_data c) end.

(** [d[i]]. *)
Definition at_row {A} (l : list A) (i : Z) : option A := if i <? 0 then None else l !! Z.to_nat i.

(** ** Floating point *)
(** The value of a pattern of [mw] bits of mantissa and [ew] of exponent. *)
Definition f_decode (mw ew : Z) (bits : Z) : spec_float :=
  let s := Z.testbit bits (mw + ew) in
  let e := (bits / 2 ^ mw) mod 2 ^ ew in
  let m := bits mod 2 ^ mw in
  let emin := 2 - 2 ^ (ew - 1) - mw + 1 in
  if e =? 2 ^ ew - 1 then (if m =? 0 then S754_infinity s else S754_nan)
  else if e =? 0 then
    match m with Zpos p => S754_finite s p emin | _ => S754_zero s end
  else
    match m + 2 ^ mw with Zpos p => S754_finite s p (emin + e - 1) | _ => S754_nan end.

Definition f64 (bits : Z) : spec_float := f_decode 52 11 bits.
Definition f32 (bits : Z) : spec_float := f_decode 23 8 bits.

(** [x != x]. *)
Definition is_nan (x : spec_float) : bool := match x with S754_nan => true | _ => false end.

(** [if (va < vb) cmp = -1; else if (va > vb) cmp = 1]. *)
Definition f_cmp (x y : spec_float) : Z := if SFltb x y then -1 else if SFltb y x then 1 else 0.
Definition z_cmp (x y : Z) : Z := if x <? y then -1 else if y <? x then 1 else 0.

(** ** Nulls *)
Definition NULL_I16 : Z := - 2 ^ 15.
Definition NULL_I32 : Z := - 2 ^ 31.
Definition NULL_I64 : Z := INT64_MIN.

Definition sentinel_is_null (c : col) (i : Z) : option bool :=
  let t := c_type c in
  if is_f64 t then x ← at_row (c_data c) i; Some (is_nan (f64 x))
  else if bool_decide (t = RAY_F32) then x ← at_row (c_data c) i; Some (is_nan (f32 x))
  else if is_i64 t then x ← at_row (c_data c) i; Some (x =? NULL_I64)
  else if is_i32 t then x ← at_row (c_data c) i; Some (x =? NULL_I32)
  else if bool_decide (t = RAY_I16) then x ← at_row (c_data c) i; Some (x =? NULL_I16)
  else if bool_decide (t = RAY_STR) then s ← at_row (c_text c) i; Some (length s =? 0)%nat
  else if bool_decide (t = RAY_GUID) then s ← at_row (c_text c) i; Some (forallb (fun b => b =? 0) s)
  else Some false.

Definition ray_vec_is_null (c : col) (i : Z) : option bool :=
  if (i <? 0) || (c_len c <=? i) then Some false
  else
    match c_type c with
    | RAY_SYM | RAY_STR => Some false
    | RAY_F64 | RAY_DATETIME | RAY_F32 | RAY_I64 | RAY_TIMESTAMP | RAY_TIMESPAN | RAY_I32 | RAY_DATE | RAY_TIME
    | RAY_MONTH | RAY_MINUTE | RAY_SECOND | RAY_I16 | RAY_GUID =>
        if c_nulls c then sentinel_is_null c i else Some false
    | _ => Some false
    end.

(** ** Strings *)
(** [memcmp] of as many bytes as both have; its sign is all that is used. *)
Fixpoint memcmp (a b : list Z) (n : nat) {struct n} : Z :=
  match n, a, b with
  | S n, x :: a, y :: b => if x =? y then memcmp a b n else z_cmp x y
  | _, _, _ => 0
  end.

Definition ray_str_t_cmp (a b : list Z) : Z :=
  let min_len := if (length a <? length b)%nat then length a else length b in
  let r := memcmp a b min_len in
  if negb (r =? 0) then r
  else (if (length b <? length a)%nat then 1 else 0) - (if (length a <? length b)%nat then 1 else 0).

Definition ray_str_cmp (a b : list Z) : Z :=
  let alen := length a in
  let blen := length b in
  let d := if (0 <? alen)%nat && (0 <? blen)%nat then rd a 0 - rd b 0 else 0 in
  if negb (d =? 0) then d
  else
    let minlen := if (alen <? blen)%nat then alen else blen in
    let cmp := if (1 <? minlen)%nat then memcmp (drop 1 a) (drop 1 b) (minlen - 1) else 0 in
    if negb (cmp =? 0) then cmp else if (alen <? blen)%nat then -1 else if (blen <? alen)%nat then 1 else 0.

(** ** The comparator *)
(** The comparison of two rows that are not null. *)
Definition cmp_values (c : col) (a b : Z) : option Z :=
  let t := c_type c in
  if is_f64 t then x ← at_row (c_data c) a; y ← at_row (c_data c) b; Some (f_cmp (f64 x) (f64 y))
  else if bool_decide (t = RAY_F32) then x ← at_row (c_data c) a; y ← at_row (c_data c) b; Some (f_cmp (f32 x) (f32 y))
  else if is_i64 t || is_i32 t || bool_decide (t = RAY_I16) || is_byte t then
    x ← at_row (c_data c) a; y ← at_row (c_data c) b; Some (z_cmp x y)
  else if bool_decide (t = RAY_SYM) then
    x ← at_row (c_data c) a; y ← at_row (c_data c) b;
    Some (match at_row (c_dom c) x, at_row (c_dom c) y with Some s, Some s' => ray_str_cmp s s' | _, _ => 0 end)
  else if bool_decide (t = RAY_GUID) then
    x ← at_row (c_text c) a; y ← at_row (c_text c) b; Some (memcmp x y 16)
  else if bool_decide (t = RAY_STR) then
    x ← at_row (c_text c) a; y ← at_row (c_text c) b; Some (ray_str_t_cmp x y)
  else Some 0.

Record sort_ctx := SortCtx {
  x_vecs : list (option col); x_desc : option (list bool); x_nulls_first : option (list bool) }.

(** [flags ? flags[k] : otherwise]. *)
Definition flag (flags : option (list bool)) (k : nat) (otherwise : bool) : option bool :=
  match flags with Some l => l !! k | None => Some otherwise end.

(** One turn of the loop, for a key that is there. *)
Definition cmp_key (c : col) (desc nf : bool) (a b : Z) : option Z :=
  a_null ← ray_vec_is_null c a;
  b_null ← ray_vec_is_null c b;
  if a_null || b_null then
    Some (if a_null && b_null then 0 else if a_null then (if nf then -1 else 1) else (if nf then 1 else -1))
  else cmp ← cmp_values c a b; Some (if desc : bool then - cmp else cmp).

Fixpoint cmp_keys (x : sort_ctx) (vecs : list (option col)) (k : nat) (a b : Z) : option Z :=
  match vecs with
  | [] => Some 0
  | None :: vecs => cmp_keys x vecs (S k) a b
  | Some c :: vecs =>
      desc ← flag (x_desc x) k false;
      nf ← flag (x_nulls_first x) k desc;
      cmp ← cmp_key c desc nf a b;
      if negb (cmp =? 0) then Some cmp else cmp_keys x vecs (S k) a b
  end.

Definition sort_cmp (x : sort_ctx) (a b : Z) : option Z := cmp_keys x (x_vecs x) 0 a b.

(** The value of the comparator, which is defined on the rows. *)
Definition cmp_of (x : sort_ctx) (a b : Z) : Z := default 0 (sort_cmp x a b).
