(* ===== verification/SortOrd.v ===== *)
(** * The comparator is a total preorder

    [sort_cmp] of [SortCol] orders the rows of well-formed columns: the sign
    flips when the rows are swapped, and it is transitive.  Floating-point
    values compare as signed magnitudes, strings and guids byte by byte. *)
From Stdlib Require Import ZArith Lia Floats.SpecFloat.
From stdpp Require Import sorting.
From S2P Require Import Prelude WireVal SortCol.

(** ** Preorders as comparison functions *)
Record preorder_on {A} (P : A -> Prop) (c : A -> A -> Z) : Prop := {
  pre_flip : forall a b, P a -> P b -> Z.sgn (c b a) = - Z.sgn (c a b);
  pre_trans : forall a b d, P a -> P b -> P d -> c a b <= 0 -> c b d <= 0 -> c a d <= 0 }.

Section preorders.
Context {A : Type}.
Implicit Types (P : A -> Prop) (c : A -> A -> Z).

Lemma pre_sgn P c a b : preorder_on P c -> P a -> P b -> (c a b <= 0 <-> 0 <= c b a) /\ (c a b = 0 <-> c b a = 0).
Proof. intros Hc Ha Hb. pose proof (pre_flip P c Hc a b Ha Hb). destruct (Z.sgn_spec (c a b)), (Z.sgn_spec (c b a)); lia. Qed.

Lemma pre_refl P c a : preorder_on P c -> P a -> c a a = 0.
Proof. intros Hc Ha. pose proof (pre_flip P c Hc a a Ha Ha). destruct (Z.sgn_spec (c a a)); lia. Qed.

(** Equal rows compare alike with any other. *)
Lemma pre_eq_l P c a b d : preorder_on P c -> P a -> P b -> P d -> c a b = 0 -> Z.sgn (c a d) = Z.sgn (c b d).
Proof.
  intros Hc Ha Hb Hd He. destruct (pre_sgn P c a b Hc Ha Hb) as [_ Hba]. apply Hba in He as He'.
  pose proof (pre_trans P c Hc a b d Ha Hb Hd). pose proof (pre_trans P c Hc b a d Hb Ha Hd).
  pose proof (pre_trans P c Hc d a b Hd Ha Hb). pose proof (pre_trans P c Hc d b a Hd Hb Ha).
  pose proof (pre_flip P c Hc a d Ha Hd). pose proof (pre_flip P c Hc b d Hb Hd).
  destruct (Z.sgn_spec (c a d)), (Z.sgn_spec (c b d)), (Z.sgn_spec (c d a)), (Z.sgn_spec (c d b)); lia.
Qed.

Lemma pre_map {B} (f : A -> B) (P' : B -> Prop) (c' : B -> B -> Z) :
  preorder_on P' c' -> preorder_on (fun a => P' (f a)) (fun a b => c' (f a) (f b)).
Proof. intros [Hf Ht]. split; [intros; by apply Hf|intros ? b ? ? ? ?; by apply (Ht _ (f b))]. Qed.

Lemma pre_weaken P P' c : (forall a, P' a -> P a) -> preorder_on P c -> preorder_on P' c.
Proof. intros Hi [Hf Ht]. split; [auto|intros ? b ? ? ? ?; apply (Ht _ b); auto]. Qed.

Lemma pre_ext P c c' :
  (forall a b, P a -> P b -> Z.sgn (c' a b) = Z.sgn (c a b)) -> preorder_on P c -> preorder_on P c'.
Proof.
  intros He [Hf Ht]. split.
  - intros a b Ha Hb. rewrite !He by done. by apply Hf.
  - intros a b d Ha Hb Hd H1 H2. pose proof (He a b Ha Hb). pose proof (He b d Hb Hd). pose proof (He a d Ha Hd).
    specialize (Ht a b d Ha Hb Hd).
    destruct (Z.sgn_spec (c a b)), (Z.sgn_spec (c b d)), (Z.sgn_spec (c a d)), (Z.sgn_spec (c' a b)), (Z.sgn_spec (c' b d)),
      (Z.sgn_spec (c' a d)); lia.
Qed.

Lemma pre_desc P c (desc : bool) : preorder_on P c -> preorder_on P (fun a b => if desc then - c a b else c a b).
Proof.
  intros Hc. destruct desc; [|done]. split.
  - intros a b Ha Hb. rewrite !Z.sgn_opp. rewrite (pre_flip P c Hc a b) by done. done.
  - intros a b d Ha Hb Hd. pose proof (pre_trans P c Hc d b a Hd Hb Ha).
    pose proof (pre_sgn P c a b Hc Ha Hb). pose proof (pre_sgn P c b d Hc Hb Hd). pose proof (pre_sgn P c a d Hc Ha Hd).
    destruct (pre_sgn P c b a Hc Hb Ha), (pre_sgn P c d b Hc Hd Hb), (pre_sgn P c d a Hc Hd Ha). lia.
Qed.

(** Nulls before or after the rest. *)
Definition null_cmp (nul : A -> bool) (nf : bool) (c : A -> A -> Z) (a b : A) : Z :=
  if nul a || nul b then
    (if nul a && nul b then 0 else if nul a then (if nf then -1 else 1) else (if nf then 1 else -1))
  else c a b.

Lemma pre_null P c nul nf :
  preorder_on P c -> preorder_on (fun a => nul a = false -> P a) (null_cmp nul nf c).
Proof.
  intros [Hf Ht]. unfold null_cmp. split.
  - intros a b Ha Hb. destruct (nul a), (nul b), nf; cbn; try done; by apply Hf; auto.
  - intros a b d Ha Hb Hd. destruct (nul a), (nul b), (nul d), nf; cbn; try lia; by apply Ht; auto.
Qed.

Lemma pre_lex P c1 c2 :
  preorder_on P c1 -> preorder_on P c2 -> preorder_on P (fun a b => if negb (c1 a b =? 0) then c1 a b else c2 a b).
Proof.
  intros H1 H2. split.
  - intros a b Ha Hb. pose proof (pre_flip P c1 H1 a b Ha Hb). pose proof (pre_flip P c2 H2 a b Ha Hb).
    destruct (pre_sgn P c1 a b H1 Ha Hb) as [_ He].
    destruct (c1 a b =? 0) eqn:E1, (c1 b a =? 0) eqn:E2; bprop; cbn [negb]; try done; lia.
  - intros a b d Ha Hb Hd. pose proof (pre_trans P c1 H1 a b d Ha Hb Hd) as T1. pose proof (pre_trans P c2 H2 a b d Ha Hb Hd) as T2.
    pose proof (pre_eq_l P c1 a b d H1 Ha Hb Hd) as EL.
    destruct (pre_sgn P c1 b d H1 Hb Hd) as [Hbd Hbd0], (pre_sgn P c1 a d H1 Ha Hd) as [Had Had0], (pre_sgn P c1 a b H1 Ha Hb) as [Hab Hab0].
    pose proof (pre_eq_l P c1 d b a H1 Hd Hb Ha) as ER. pose proof (pre_eq_l P c1 a d b H1 Ha Hd Hb) as EM.
    pose proof (pre_flip P c1 H1 a b Ha Hb). pose proof (pre_flip P c1 H1 b d Hb Hd). pose proof (pre_flip P c1 H1 a d Ha Hd).
    destruct (Z.sgn_spec (c1 a b)), (Z.sgn_spec (c1 b d)), (Z.sgn_spec (c1 a d)),
      (c1 a b =? 0) eqn:E1, (c1 b d =? 0) eqn:E2, (c1 a d =? 0) eqn:E3; bprop; cbn [negb]; try lia; intros; try lia.
Qed.
End preorders.

Lemma pre_z : preorder_on (fun _ => True) z_cmp.
Proof. split; [intros a b _ _; unfold z_cmp; repeat case_match; bprop; simpl; lia|]. intros a b d _ _ _. unfold z_cmp. repeat case_match; bprop; lia. Qed.

(** ** Strings *)
Fixpoint lex (a b : list Z) : Z :=
  match a, b with
  | [], [] => 0
  | [], _ => -1
  | _, [] => 1
  | x :: a, y :: b => if x =? y then lex a b else z_cmp x y
  end.

Lemma pre_lex_bytes : preorder_on (fun _ => True) lex.
Proof.
  split.
  - intros a b _ _. revert b. induction a as [|x a IH]; intros [|y b]; cbn [lex]; try done.
    rewrite (Z.eqb_sym y x). destruct (x =? y); [apply IH|]. by apply (pre_flip _ _ pre_z).
  - intros a b d _ _ _. revert b d. induction a as [|x a IH]; intros [|y b] [|z d]; cbn [lex]; try lia.
    destruct (x =? y) eqn:E1, (y =? z) eqn:E2, (x =? z) eqn:E3; bprop; subst; try lia; try apply IH; intros H1 H2;
      unfold z_cmp in *; repeat case_match; bprop; lia.
Qed.

Lemma memcmp_lex n a b : length a = n -> length b = n -> memcmp a b n = lex a b.
Proof.
  revert a b. induction n as [|n IH]; intros [|x a] [|y b]; cbn [length memcmp lex]; intros; try lia.
  destruct (x =? y); [apply IH; lia|done].
Qed.

Lemma memcmp_prefix a b :
  let m := memcmp a b (Nat.min (length a) (length b)) in
  lex a b = if m =? 0 then z_cmp (length a) (length b) else m.
Proof.
  cbn zeta. revert b. induction a as [|x a IH]; intros [|y b]; cbn [length Nat.min memcmp lex]; try done.
  rewrite IH. destruct (x =? y) eqn:E; bprop.
  - unfold z_cmp. repeat case_match; bprop; try done; lia.
  - unfold z_cmp. destruct (x <? y) eqn:E2; bprop; [done|]. rewrite (proj2 (Z.ltb_lt y x)) by lia. done.
Qed.

Lemma min_len (n m : nat) : (if (n <? m)%nat then n else m) = Nat.min n m.
Proof. bif; lia. Qed.

Lemma ray_str_t_cmp_lex a b : ray_str_t_cmp a b = lex a b.
Proof.
  rewrite memcmp_prefix. unfold ray_str_t_cmp. rewrite min_len.
  destruct (memcmp a b _ =? 0); cbn [negb]; [|done]. unfold z_cmp. repeat case_match; bprop; lia.
Qed.

Lemma ray_str_cmp_lex a b : Z.sgn (ray_str_cmp a b) = Z.sgn (lex a b).
Proof.
  unfold ray_str_cmp. destruct a as [|x a], b as [|y b]; [done..|].
  cbn [length lex]. rewrite !rd_cons_0, !skipn_cons, !drop_0.
  rewrite (proj2 (Nat.ltb_lt 0 (S (length a)))), (proj2 (Nat.ltb_lt 0 (S (length b)))) by lia. cbn [andb].
  destruct (x =? y) eqn:E; bprop.
  - subst. rewrite Z.sub_diag. cbn [Z.eqb negb]. rewrite min_len, memcmp_prefix. cbn [Nat.min].
    replace (S (Nat.min (length a) (length b)) - 1)%nat with (Nat.min (length a) (length b)) by lia.
    replace (0 =? 0) with true by done. cbn [negb].
    destruct (1 <? S _)%nat eqn:E2; bprop.
    + destruct (memcmp a b _ =? 0); cbn [negb]; [|done]. unfold z_cmp. repeat case_match; bprop; done || lia.
    + replace (Nat.min (length a) (length b)) with 0%nat by lia. cbn [memcmp]. replace (0 =? 0) with true by done. cbn [negb].
      unfold z_cmp. repeat case_match; bprop; done || lia.
  - rewrite (proj2 (Z.eqb_neq (x - y) 0)) by lia. cbn [negb]. unfold z_cmp. destruct (x <? y) eqn:E2; bprop; [|rewrite (proj2 (Z.ltb_lt y x)) by lia];
      destruct (Z.sgn_spec (x - y)); simpl; lia.
Qed.

(** ** Floating point *)
Section floats.
Context (mw ew : Z) (Hmw : 0 < mw) (Hew : 1 < ew).

(** The signed magnitude of a pattern. *)
Definition f_mag (bits : Z) : Z :=
  let k := bits mod 2 ^ (mw + ew) in if Z.testbit bits (mw + ew) then - k else k.

Abbreviation emin := (2 - 2 ^ (ew - 1) - mw + 1).

(** What a pattern of magnitude [k] decodes to. *)
Inductive f_view (s : bool) (k : Z) : spec_float -> Prop :=
  | view_inf : k = (2 ^ ew - 1) * 2 ^ mw -> f_view s k (S754_infinity s)
  | view_zero : k = 0 -> f_view s k (S754_zero s)
  | view_finite E m p e :
      0 <= m < 2 ^ mw -> 0 <= E < 2 ^ ew - 1 -> k = E * 2 ^ mw + m -> 0 < k ->
      (E = 0 /\ Zpos p = m /\ e = emin \/ 0 < E /\ Zpos p = m + 2 ^ mw /\ e = emin + E - 1) ->
      f_view s k (S754_finite s p e).

Lemma f_decode_view bits :
  is_nan (f_decode mw ew bits) = false ->
  f_view (Z.testbit bits (mw + ew)) (bits mod 2 ^ (mw + ew)) (f_decode mw ew bits).
Proof using Hmw Hew.
  unfold f_decode. set (s := Z.testbit _ _). set (M := 2 ^ mw). assert (0 < M) by (apply Z.pow_pos_nonneg; lia).
  assert (0 < 2 ^ ew) by (apply Z.pow_pos_nonneg; lia).
  pose proof (Z.mod_pos_bound (bits / M) (2 ^ ew) ltac:(lia)). pose proof (Z.mod_pos_bound bits M ltac:(lia)).
  assert (bits mod 2 ^ (mw + ew) = (bits / M) mod 2 ^ ew * M + bits mod M) as ->.
  { rewrite Z.pow_add_r by lia. fold M. rewrite Z.rem_mul_r by lia. lia. }
  set (e := (bits / M) mod 2 ^ ew) in *. set (m := bits mod M) in *.
  destruct (e =? 2 ^ ew - 1) eqn:E1; bprop.
  - destruct (m =? 0) eqn:E2; bprop; [|done]. intros _. apply view_inf. fold M. lia.
  - destruct (e =? 0) eqn:E2; bprop.
    + destruct m as [|p|p] eqn:Em; intros _; [apply view_zero; lia| |lia].
      eapply (view_finite _ _ 0 (Zpos p)); fold M; [lia|lia|lia|nia|]. left. split_and!; [done|done|lia].
    + destruct (m + M) as [|p|p] eqn:Em; intros Hn; try lia.
      eapply (view_finite _ _ e m); fold M; [lia|lia|lia|nia|]. right. split_and!; [lia|lia|lia].
Qed.

Lemma view_range s k x : f_view s k x -> 0 <= k <= (2 ^ ew - 1) * 2 ^ mw.
Proof using Hmw Hew.
  assert (0 < 2 ^ mw) by (apply Z.pow_pos_nonneg; lia). assert (1 < 2 ^ ew) by (apply Z.pow_gt_1; lia).
  intros [->| ->|E m p e ? ? -> ? ?]; nia.
Qed.

(** Exponent first, then mantissa: the order of the magnitudes. *)
Lemma finite_compare s1 s2 k1 k2 p1 e1 p2 e2 :
  f_view s1 k1 (S754_finite s1 p1 e1) -> f_view s2 k2 (S754_finite s2 p2 e2) ->
  match Z.compare e1 e2 with Lt => Lt | Gt => Gt | Eq => Pos.compare_cont Eq p1 p2 end = (k1 ?= k2).
Proof using Hmw Hew.
  assert (0 < 2 ^ mw) by (apply Z.pow_pos_nonneg; lia).
  intros V1 V2. inversion V1 as [| |E1 m1 ? ? Hm1 HE1 Hk1 _ C1]. inversion V2 as [| |E2 m2 ? ? Hm2 HE2 Hk2 _ C2]. subst.
  change (Pos.compare_cont Eq p1 p2) with (Z.pos p1 ?= Z.pos p2).
  destruct (Z.compare_spec e1 e2).
  - destruct (Z.compare_spec (Z.pos p1) (Z.pos p2)); symmetry; [apply Z.compare_eq_iff|apply Z.compare_lt_iff|apply Z.compare_gt_iff];
      destruct C1 as [(?&?&?)|(?&?&?)], C2 as [(?&?&?)|(?&?&?)]; nia.
  - symmetry. apply Z.compare_lt_iff. destruct C1 as [(?&?&?)|(?&?&?)], C2 as [(?&?&?)|(?&?&?)]; nia.
  - symmetry. apply Z.compare_gt_iff. destruct C1 as [(?&?&?)|(?&?&?)], C2 as [(?&?&?)|(?&?&?)]; nia.
Qed.

Lemma view_finite_bounds s s' k p e : f_view s k (S754_finite s' p e) -> s' = s /\ 0 < k < (2 ^ ew - 1) * 2 ^ mw.
Proof using Hmw Hew.
  assert (0 < 2 ^ mw) by (apply Z.pow_pos_nonneg; lia). intros V. inversion V. subst. split; [done|]. nia.
Qed.

Lemma view_compare s1 k1 x s2 k2 y :
  f_view s1 k1 x -> f_view s2 k2 y ->
  SFcompare x y = Some ((if s1 then - k1 else k1) ?= (if s2 then - k2 else k2)).
Proof using Hmw Hew.
  assert (0 < 2 ^ mw) by (apply Z.pow_pos_nonneg; lia). assert (1 < 2 ^ ew) by (apply Z.pow_gt_1; lia).
  assert (0 < (2 ^ ew - 1) * 2 ^ mw) by nia.
  assert (Hlt : forall a b, a < b -> Some Lt = Some (a ?= b)) by (intros; f_equal; symmetry; by apply Z.compare_lt_iff).
  assert (Hgt : forall a b, b < a -> Some Gt = Some (a ?= b)) by (intros; f_equal; symmetry; by apply Z.compare_gt_iff).
  assert (Heq : forall a b, a = b -> Some Eq = Some (a ?= b)) by (intros; f_equal; symmetry; by apply Z.compare_eq_iff).
  intros V1 V2. destruct x as [sx|sx| |sx px ex], y as [sy|sy| |sy py ey]; try (by inversion V1); try (by inversion V2).
  all: try (apply view_finite_bounds in V1 as HV1; destruct HV1 as [HS1 HV1]; subst sx);
       try (apply view_finite_bounds in V2 as HV2; destruct HV2 as [HS2 HV2]; subst sy).
  9: { cbn [SFcompare]. pose proof (finite_compare s1 s2 k1 k2 px ex py ey V1 V2) as Hc.
       destruct s1, s2; [|apply Hlt; lia|apply Hgt; lia|by rewrite <- Hc].
       rewrite Z.compare_opp, <- (finite_compare true true k2 k1 py ey px ex V2 V1).
       rewrite (Z.compare_antisym ex ey). f_equal. destruct (ex ?= ey); cbn [CompOpp]; [|done..].
       symmetry. apply Pos.compare_antisym. }
  all: destruct s1, s2; inversion V1; inversion V2; subst; cbn [SFcompare];
    first [apply Hlt; lia|apply Hgt; lia|apply Heq; lia].
Qed.

Lemma f_cmp_mag x y :
  is_nan (f_decode mw ew x) = false -> is_nan (f_decode mw ew y) = false ->
  f_cmp (f_decode mw ew x) (f_decode mw ew y) = z_cmp (f_mag x) (f_mag y).
Proof using Hmw Hew.
  intros Hx Hy. apply f_decode_view in Hx, Hy. unfold f_cmp, SFltb.
  rewrite (view_compare _ _ _ _ _ _ Hx Hy), (view_compare _ _ _ _ _ _ Hy Hx).
  fold (f_mag x) (f_mag y). unfold z_cmp, Z.ltb. rewrite (Z.compare_antisym (f_mag y) (f_mag x)).
  by destruct (f_mag x ?= f_mag y).
Qed.
End floats.

(** A pattern is not a number when its magnitude is above the infinity. *)
Lemma is_nan_mag mw ew bits :
  0 < mw -> 1 < ew -> is_nan (f_decode mw ew bits) = ((2 ^ ew - 1) * 2 ^ mw <? bits mod 2 ^ (mw + ew)).
Proof.
  intros Hmw Hew. assert (0 < 2 ^ mw) by (apply Z.pow_pos_nonneg; lia). assert (1 < 2 ^ ew) by (apply Z.pow_gt_1; lia).
  rewrite Z.pow_add_r, Z.rem_mul_r by lia. pose proof (Z.mod_pos_bound (bits / 2 ^ mw) (2 ^ ew) ltac:(lia)).
  pose proof (Z.mod_pos_bound bits (2 ^ mw) ltac:(lia)). unfold f_decode.
  destruct (_ =? 2 ^ ew - 1) eqn:E1; bprop.
  - rewrite E1. destruct (bits mod 2 ^ mw =? 0) eqn:E2; bprop; cbn [is_nan]; symmetry; bprop; lia.
  - symmetry. destruct (_ =? 0) eqn:E2; bprop.
    + rewrite E2. destruct (bits mod 2 ^ mw); cbn [is_nan]; bprop; nia.
    + destruct (_ + 2 ^ mw) eqn:E3; cbn [is_nan]; bprop; nia.
Qed.

(** ** Columns *)
Abbreviation row n i := (0 <= i < n).

(** A float column without the null flag has no nan; a guid has 16 bytes; the
    ids of a symbol column are in its domain. *)
Record col_ok (n : Z) (c : col) : Prop := {
  ok_len : n <= c_len c;
  ok_f64 : is_f64 (c_type c) = true -> c_nulls c = false -> Forall (fun x => is_nan (f64 x) = false) (c_data c);
  ok_f32 : c_type c = RAY_F32 -> c_nulls c = false -> Forall (fun x => is_nan (f32 x) = false) (c_data c);
  ok_guid : c_type c = RAY_GUID -> Forall (fun s => length s = 16%nat) (c_text c);
  ok_sym : c_type c = RAY_SYM -> Forall (fun x => 0 <= x < length (c_dom c)) (c_data c) }.

Lemma at_row_ok {A} (l : list A) n i : n <= length l -> row n i -> exists x, at_row l i = Some x /\ x ∈ l.
Proof.
  intros Hn Hi. unfold at_row. rewrite (proj2 (Z.ltb_ge i 0)) by lia.
  destruct (lookup_lt_is_Some_2 l (Z.to_nat i)) as [x Hx]; [lia|]. exists x. split; [done|].
  by eapply list_elem_of_lookup_2.
Qed.

(** The element of a row. *)
Definition word_at (c : col) (i : Z) : Z := default 0 (at_row (c_data c) i).
Definition text_at (c : col) (i : Z) : list Z := default [] (at_row (c_text c) i).

Lemma word_at_ok c n i : n <= length (c_data c) -> row n i -> at_row (c_data c) i = Some (word_at c i) /\ word_at c i ∈ c_data c.
Proof. intros Hn Hi. unfold word_at. destruct (at_row_ok (c_data c) n i Hn Hi) as (x & -> & ?). done. Qed.

Lemma text_at_ok c n i : n <= length (c_text c) -> row n i -> at_row (c_text c) i = Some (text_at c i) /\ text_at c i ∈ c_text c.
Proof. intros Hn Hi. unfold text_at. destruct (at_row_ok (c_text c) n i Hn Hi) as (x & -> & ?). done. Qed.

(** The comparison as a function on the rows. *)
Definition value_cmp (c : col) (a b : Z) : Z := default 0 (cmp_values c a b).
Definition null_at (c : col) (a : Z) : bool := default false (ray_vec_is_null c a).

Section column.
Context (n : Z) (c : col) (Hc : col_ok n c).

Lemma null_at_ok a : row n a -> ray_vec_is_null c a = Some (null_at c a).
Proof using Hc.
  intros Ha. pose proof (ok_len _ _ Hc) as Hl. unfold null_at, ray_vec_is_null.
  rewrite (proj2 (Z.ltb_ge a 0)), (proj2 (Z.leb_gt (c_len c) a)) by lia. cbn [orb].
  unfold c_len in Hl. unfold sentinel_is_null, is_f64, is_i64, is_i32.
  destruct (c_type c) eqn:Et; cbn -[at_row forallb]; try done; destruct (c_nulls c); try done;
    first [destruct (word_at_ok c n a Hl Ha) as [-> _]|destruct (text_at_ok c n a Hl Ha) as [-> _]]; done.
Qed.

(** What is to be shown of the comparison of a column. *)
Definition cmp_good : Prop := exists P : Z -> Prop,
  preorder_on (fun a => row n a /\ P a) (value_cmp c) /\
  (forall a, row n a -> null_at c a = false -> P a) /\
  (forall a b, row n a -> row n b -> cmp_values c a b = Some (value_cmp c a b)).

Lemma words_good (P : Z -> Prop) (f : Z -> Z -> Z) :
  n <= length (c_data c) ->
  (forall a b, cmp_values c a b = (x ← at_row (c_data c) a; y ← at_row (c_data c) b; Some (f x y))) ->
  preorder_on P f -> (forall a, row n a -> null_at c a = false -> P (word_at c a)) -> cmp_good.
Proof using Type.
  intros Hl Hv Hf HP.
  assert (Hs : forall a b, row n a -> row n b -> cmp_values c a b = Some (f (word_at c a) (word_at c b))).
  { intros a b Ha Hb. rewrite Hv. destruct (word_at_ok c n a Hl Ha) as [-> _], (word_at_ok c n b Hl Hb) as [-> _]. done. }
  exists (fun a => P (word_at c a)). split_and!; [|done|].
  - eapply pre_ext; [|eapply pre_weaken; [|apply (pre_map (word_at c) P f Hf)]].
    + intros a b [Ha _] [Hb _]. unfold value_cmp. by rewrite Hs.
    + by intros a [_ ?].
  - intros a b Ha Hb. unfold value_cmp. by rewrite Hs.
Qed.

Lemma texts_good (P : list Z -> Prop) (f : list Z -> list Z -> Z) :
  n <= length (c_text c) ->
  (forall a b, cmp_values c a b = (x ← at_row (c_text c) a; y ← at_row (c_text c) b; Some (f x y))) ->
  preorder_on P f -> Forall P (c_text c) -> cmp_good.
Proof using Type.
  intros Hl Hv Hf HP. rewrite Forall_forall in HP.
  assert (Hs : forall a b, row n a -> row n b -> cmp_values c a b = Some (f (text_at c a) (text_at c b))).
  { intros a b Ha Hb. rewrite Hv. destruct (text_at_ok c n a Hl Ha) as [-> _], (text_at_ok c n b Hl Hb) as [-> _]. done. }
  exists (fun a => P (text_at c a)). split_and!.
  - eapply pre_ext; [|eapply pre_weaken; [|apply (pre_map (text_at c) P f Hf)]].
    + intros a b [Ha _] [Hb _]. unfold value_cmp. by rewrite Hs.
    + by intros a [_ ?].
  - intros a Ha _. apply HP. by destruct (text_at_ok c n a Hl Ha).
  - intros a b Ha Hb. unfold value_cmp. by rewrite Hs.
Qed.

Lemma pre_float mw ew :
  0 < mw -> 1 < ew -> preorder_on (fun x => is_nan (f_decode mw ew x) = false) (fun x y => f_cmp (f_decode mw ew x) (f_decode mw ew y)).
Proof using Type.
  intros Hmw Hew. eapply pre_ext; [|eapply pre_weaken; [|apply (pre_map (f_mag mw ew) _ _ pre_z)]]; [|done].
  intros x y Hx Hy. cbn beta. by rewrite f_cmp_mag.
Qed.

Lemma pre_sym : preorder_on (fun x => 0 <= x < length (c_dom c))
  (fun x y => match at_row (c_dom c) x, at_row (c_dom c) y with Some s, Some s' => ray_str_cmp s s' | _, _ => 0 end).
Proof using Type.
  eapply pre_ext; [|eapply pre_weaken; [|apply (pre_map (fun x => default [] (at_row (c_dom c) x)) _ _ pre_lex_bytes)]]; [|done].
  intros x y Hx Hy. cbn beta. destruct (at_row_ok (c_dom c) _ x ltac:(done) Hx) as (s & -> & _).
  destruct (at_row_ok (c_dom c) _ y ltac:(done) Hy) as (s' & -> & _). apply ray_str_cmp_lex.
Qed.

Lemma pre_guid : preorder_on (fun s => length s = 16%nat) (fun s s' => memcmp s s' 16).
Proof using Type.
  eapply pre_ext; [|eapply pre_weaken; [|apply pre_lex_bytes]]; [|done]. intros s s' Hs Hs'. by rewrite memcmp_lex.
Qed.

Lemma pre_text : preorder_on (fun _ => True) ray_str_t_cmp.
Proof using Type. eapply pre_ext; [|apply pre_lex_bytes]. intros s s' _ _. by rewrite ray_str_t_cmp_lex. Qed.

Lemma not_null_f64 a : is_f64 (c_type c) = true -> row n a -> null_at c a = false -> is_nan (f64 (word_at c a)) = false.
Proof using Hc.
  intros Ht Ha Hn. pose proof (ok_len _ _ Hc) as Hl. pose proof (ok_f64 _ _ Hc Ht) as Hf.
  unfold null_at, ray_vec_is_null in Hn. rewrite (proj2 (Z.ltb_ge a 0)), (proj2 (Z.leb_gt (c_len c) a)) in Hn by lia.
  unfold sentinel_is_null in Hn. rewrite Ht in Hn. unfold c_len in Hl.
  destruct (c_type c); try done; cbn [orb default] in Hn; destruct (word_at_ok c n a Hl Ha) as [Hw Hin];
    (destruct (c_nulls c); [by rewrite Hw in Hn|]); specialize (Hf eq_refl); rewrite Forall_forall in Hf; by apply Hf.
Qed.

Lemma not_null_f32 a : c_type c = RAY_F32 -> row n a -> null_at c a = false -> is_nan (f32 (word_at c a)) = false.
Proof using Hc.
  intros Ht Ha Hn. pose proof (ok_len _ _ Hc) as Hl. pose proof (ok_f32 _ _ Hc Ht) as Hf.
  unfold null_at, ray_vec_is_null in Hn. rewrite (proj2 (Z.ltb_ge a 0)), (proj2 (Z.leb_gt (c_len c) a)) in Hn by lia.
  unfold sentinel_is_null in Hn. rewrite Ht in Hn. unfold c_len in Hl. rewrite Ht in Hl.
  cbn [orb default] in Hn. destruct (word_at_ok c n a Hl Ha) as [Hw Hin].
  destruct (c_nulls c); [by rewrite Hw in Hn|]. specialize (Hf eq_refl). rewrite Forall_forall in Hf. by apply Hf.
Qed.

Lemma value_cmp_ok : cmp_good.
Proof using Hc.
  pose proof (ok_len _ _ Hc) as Hl. unfold c_len in Hl.
  pose proof not_null_f64 as H64. pose proof not_null_f32 as H32.
  pose proof (ok_guid _ _ Hc) as Hg. pose proof (ok_sym _ _ Hc) as Hs.
  destruct (c_type c) eqn:Et;
    try (eapply (words_good (fun _ => True) z_cmp); [done|intros; unfold cmp_values; by rewrite Et|apply pre_z|done]).
  - exists (fun _ => True). split_and!; [|done|]; unfold value_cmp, cmp_values; rewrite Et; [|done]. by split.
  - eapply texts_good; [done|intros; unfold cmp_values; by rewrite Et|apply pre_guid|by apply Hg].
  - eapply words_good; [done|intros; unfold cmp_values; by rewrite Et|by apply pre_float|].
    intros a Ha Hn. by apply H32.
  - eapply words_good; [done|intros; unfold cmp_values; by rewrite Et|by apply pre_float|].
    intros a Ha Hn. by apply H64.
  - eapply words_good; [done|intros; unfold cmp_values; by rewrite Et|apply pre_sym|].
    intros a Ha _. specialize (Hs eq_refl). rewrite Forall_forall in Hs. apply Hs. by destruct (word_at_ok c n a Hl Ha).
  - eapply words_good; [done|intros; unfold cmp_values; by rewrite Et|by apply pre_float|].
    intros a Ha Hn. by apply H64.
  - exists (fun _ => True). split_and!; [|done|]; unfold value_cmp, cmp_values; rewrite Et; [|done]. by split.
  - eapply texts_good; [done|intros; unfold cmp_values; by rewrite Et|apply pre_text|by apply Forall_true].
Qed.

(** One key, with its nulls and its direction. *)
Definition key_cmp (desc nf : bool) (a b : Z) : Z :=
  null_cmp (null_at c) nf (fun a b => if desc then - value_cmp c a b else value_cmp c a b) a b.

Lemma cmp_key_ok desc nf a b : row n a -> row n b -> cmp_key c desc nf a b = Some (key_cmp desc nf a b).
Proof using Hc.
  intros Ha Hb. unfold cmp_key, key_cmp, null_cmp. rewrite !null_at_ok by done. cbn [mbind option_bind].
  destruct (null_at c a || null_at c b); [done|]. destruct value_cmp_ok as (_ & _ & _ & ->); [|done..]. done.
Qed.

Lemma key_cmp_pre desc nf : preorder_on (fun a => row n a) (key_cmp desc nf).
Proof using Hc.
  destruct value_cmp_ok as (P & Hp & Hn & _). eapply pre_weaken; [|apply pre_null, pre_desc, Hp]. cbn beta. auto.
Qed.
End column.

(** ** Several keys *)
Definition flags_ok (flags : option (list bool)) (k : nat) : Prop := from_option (fun l => (k <= length l)%nat) True flags.

Record ctx_ok (n : Z) (x : sort_ctx) : Prop := {
  cx_cols : Forall (fun o => forall c, o = Some c -> col_ok n c) (x_vecs x);
  cx_desc : flags_ok (x_desc x) (length (x_vecs x));
  cx_nf : flags_ok (x_nulls_first x) (length (x_vecs x)) }.

Lemma flag_read flags k m o : flags_ok flags m -> (k < m)%nat -> exists b, flag flags k o = Some b.
Proof.
  unfold flag, flags_ok. destruct flags as [l|]; cbn [from_option]; intros; [|by exists o].
  destruct (lookup_lt_is_Some_2 l k) as [b ->]; [lia|by exists b].
Qed.

Lemma cmp_keys_ok n x vecs k m :
  Forall (fun o => forall c, o = Some c -> col_ok n c) vecs -> flags_ok (x_desc x) m -> flags_ok (x_nulls_first x) m ->
  (k + length vecs <= m)%nat ->
  exists f, preorder_on (fun a => row n a) f /\ forall a b, row n a -> row n b -> cmp_keys x vecs k a b = Some (f a b).
Proof.
  intros Hv Hd Hnf. revert k. induction Hv as [|[c|] vecs Hc Hv IH]; intros k Hk; cbn [cmp_keys length] in *.
  - exists (fun _ _ => 0). split; [|done]. by split.
  - destruct (IH (S k) ltac:(lia)) as (f & Hf & Hfs).
    destruct (flag_read (x_desc x) k m false Hd) as [desc ->]; [lia|]. cbn [mbind option_bind].
    destruct (flag_read (x_nulls_first x) k m desc Hnf) as [nf ->]; [lia|]. cbn [mbind option_bind].
    eexists. split; [apply pre_lex; [apply (key_cmp_pre n c (Hc c eq_refl) desc nf)|apply Hf]|].
    intros a b Ha Hb. rewrite (cmp_key_ok n c (Hc c eq_refl)) by done. cbn [mbind option_bind].
    destruct (negb _); [done|by apply Hfs].
  - by apply IH; lia.
Qed.

(** On the rows of its columns [sort_cmp] is defined and a total preorder. *)
Lemma sort_cmp_pre n x :
  ctx_ok n x -> exists f, preorder_on (fun a => row n a) f /\ forall a b, row n a -> row n b -> sort_cmp x a b = Some (f a b).
Proof. intros [Hc Hd Hn]. by apply (cmp_keys_ok n x (x_vecs x) 0 (length (x_vecs x))). Qed.

Lemma cmp_of_pre n x : ctx_ok n x -> preorder_on (fun a => row n a) (cmp_of x).
Proof.
  intros Hx. destruct (sort_cmp_pre n x Hx) as (f & Hf & Hs). eapply pre_ext; [|exact Hf].
  intros a b Ha Hb. unfold cmp_of. by rewrite Hs.
Qed.

(** C22. On the rows of well-formed columns the comparator of the sorts reads
    inside its columns and is a total preorder: swapping the rows flips the
    sign, and it is transitive, through every type, direction, null order and
    number of keys.  (A float column whose nans are not flagged as nulls would
    break it: a nan compares equal to everything.) *)
Theorem sort_cmp_total_preorder n x :
  ctx_ok n x ->
  (forall a b, row n a -> row n b -> sort_cmp x a b = Some (cmp_of x a b)) /\
  (forall a b, row n a -> row n b -> Z.sgn (cmp_of x b a) = - Z.sgn (cmp_of x a b)) /\
  (forall a b d, row n a -> row n b -> row n d -> cmp_of x a b <= 0 -> cmp_of x b d <= 0 -> cmp_of x a d <= 0).
Proof.
  intros Hx. split_and!; [|apply (cmp_of_pre n x Hx)..].
  intros a b Ha Hb. destruct (sort_cmp_pre n x Hx) as (f & _ & Hs). unfold cmp_of. by rewrite Hs.
Qed.

(** Two keys: floats with a null, descending, then symbols. *)
Lemma sort_cmp_total_preorder_witness :
  let f := Col RAY_F64 true [0x3FF0000000000000; 0xFFF8000000000000; 0xBFF0000000000000; 0x3FF0000000000000] [] [] in
  let s := Col RAY_SYM false [1; 0; 0; 0] [] [[98; 99]; [98]] in
  let x := SortCtx [Some f; None; Some s] (Some [true; false; false]) (Some [false; true; true]) in
  cmp_of x 0 2 = -1 /\ cmp_of x 1 2 = 1 /\ cmp_of x 0 3 = -1 /\ Z.sgn (cmp_of x 3 0) = - Z.sgn (cmp_of x 0 3).
Proof.
  intros f s x. split; [by vm_compute|]. split; [by vm_compute|]. split; [by vm_compute|].
  apply (sort_cmp_total_preorder 4 x); [|lia|lia].
  split; [|by vm_compute; lia..]. unfold x. cbn [x_vecs]. rewrite !Forall_cons. split_and!; [intros c [= <-]|done|intros c [= <-]|constructor].
  - split; done.
  - split; [done|done|done|done|]. intros _. unfold s. cbn [c_data c_dom]. rewrite !Forall_cons. cbn. split_and!; [lia..|constructor].
Defined.

