(* ===== verification/SortMerge.v ===== *)
(** * The comparison sorts ([src/ops/sort.c], [sort_insertion],
    [sort_merge_recursive], [sort_phase1_fn], [merge_runs], [sort_merge_fn] and
    the merge fallback of [sort_indices_ex])

    The rows are sorted by [sort_cmp] from [0 .. n-1], in insertion sorted
    pieces that are merged; with a pool the chunks and the pairs of runs are
    tasks, which [sched] orders in every dispatch. *)
From Stdlib Require Import ZArith Lia.
From stdpp Require Import sorting.
From S2P Require Import Prelude WireVal SortArr Radix SortCol SortOrd MsdSort.

Definition sort_insertion (x : sort_ctx) (arr : list Z) (n : nat) : option (list Z) :=
  insertion_sort (fun e key => 0 <? cmp_of x e key) arr n.

Fixpoint sort_merge_recursive (fuel : nat) (x : sort_ctx) (arr : list Z) : option (list Z) :=
  let n := length arr in
  if (n <=? 64)%nat then sort_insertion x arr n
  else
    match fuel with
    | O => None
    | S fuel =>
        let mid := (n / 2)%nat in
        l ← sort_merge_recursive fuel x (take mid arr);
        r ← sort_merge_recursive fuel x (drop mid arr);
        merge_loop (fun a b => cmp_of x a b <=? 0) (S n) (l ++ r) (l ++ r) 0 mid mid n 0
    end.

(** The piece [[lo, hi)] of a chunk. *)
Definition phase1_chunk (x : sort_ctx) (n_chunks : nat) (indices : list Z) (chunk_idx : nat) : option (list Z) :=
  let nrows := length indices in
  let chunk_size := ((nrows + n_chunks - 1) / n_chunks)%nat in
  let lo := (chunk_idx * chunk_size)%nat in
  let hi := Nat.min (lo + chunk_size) nrows in
  if (hi <=? lo)%nat then Some indices
  else r ← sort_merge_recursive (hi - lo) x (part indices lo hi); Some (put indices lo r).

Definition sort_phase1_fn (x : sort_ctx) (n_chunks start stop : nat) (indices : list Z) : option (list Z) :=
  fold_opt (phase1_chunk x n_chunks) indices (seq start (stop - start)).

Definition merge_runs (x : sort_ctx) (src dst : list Z) (lo mid hi : nat) : option (list Z) :=
  merge_loop (fun a b => cmp_of x a b <=? 0) (S (hi - lo)) src dst lo mid mid hi lo.

Definition merge_pair (x : sort_ctx) (src : list Z) (run_size : nat) (dst : list Z) (pair_idx : nat) : option (list Z) :=
  let nrows := length src in
  let lo := (pair_idx * 2 * run_size)%nat in
  let mid := Nat.min (lo + run_size) nrows in
  let hi := Nat.min (lo + run_size + run_size) nrows in
  if (nrows <=? lo)%nat then Some dst
  else if (hi <=? mid)%nat then Some (put dst lo (part src lo hi))
  else merge_runs x src dst lo mid hi.

Definition sort_merge_fn (x : sort_ctx) (src : list Z) (run_size start stop : nat) (dst : list Z) : option (list Z) :=
  fold_opt (merge_pair x src run_size) dst (seq start (stop - start)).

(** [while (run_size < nrows)]; the pool is there. *)
Fixpoint merge_passes (fuel : nat) (x : sort_ctx) (sched : nat -> list nat) (run_size : nat) (src dst : list Z)
    : option (list Z) :=
  let nrows := length src in
  if (run_size <? nrows)%nat then
    match fuel with
    | O => None
    | S fuel =>
        let n_pairs := ((nrows + 2 * run_size - 1) / (2 * run_size))%nat in
        dst ← (if (1 <? n_pairs)%nat then
                 fold_opt (fun d p => sort_merge_fn x src run_size p (S p) d) dst (sched n_pairs)
               else sort_merge_fn x src run_size 0 n_pairs dst);
        merge_passes fuel x sched (run_size * 2) dst src
    end
  else Some src.

(** The fallback; [None] inside is the error of a missing buffer. *)
Definition sort_fallback (x : sort_ctx) (pool : option nat) (sched : nat -> list nat) (alloc_ok : bool) (nrows : nat)
    : option (option (list Z)) :=
  let indices := seqZ 0 nrows in
  if (nrows <=? 64)%nat then r ← sort_insertion x indices nrows; Some (Some r)
  else if negb alloc_ok then Some None
  else
    let n_workers := default 1%nat pool in
    if bool_decide (is_Some pool) && (1 <? n_workers)%nat && (1024 <? nrows) then
      indices ← fold_opt (fun l c => sort_phase1_fn x n_workers c (S c) l) indices (sched n_workers);
      let chunk_size := ((nrows + n_workers - 1) / n_workers)%nat in
      r ← merge_passes nrows x sched chunk_size indices (replicate nrows 0);
      Some (Some r)
    else r ← sort_merge_recursive nrows x indices; Some (Some r).

(** ** The order *)
Section order.
Context (n : Z) (c : Z -> Z -> Z) (Hc : preorder_on (fun a => row n a) c).

(** By the comparison, ties by the row. *)
Definition before (a b : Z) : Prop := row n a /\ row n b /\ (c a b < 0 \/ (c a b = 0 /\ a <= b)).

(** The one arrangement of the rows in that order. *)
Definition graded (l : list Z) : Prop := l ≡ₚ seqZ 0 n /\ StronglySorted before l.

Lemma before_trans : Transitive before.
Proof using Hc.
  intros a b d (Ha & Hb & H1) (_ & Hd & H2). split_and!; [lia..|].
  pose proof (pre_trans _ _ Hc a b d Ha Hb Hd) as Ht. pose proof (pre_eq_l _ _ a b d Hc Ha Hb Hd) as E1.
  pose proof (pre_eq_l _ _ a d b Hc Ha Hd Hb) as E2. pose proof (pre_eq_l _ _ b d a Hc Hb Hd Ha) as E3.
  pose proof (pre_flip _ _ Hc a d Ha Hd). pose proof (pre_flip _ _ Hc a b Ha Hb). pose proof (pre_flip _ _ Hc b d Hb Hd).
  destruct (Z.sgn_spec (c a b)), (Z.sgn_spec (c a d)), (Z.sgn_spec (c b d)), (Z.sgn_spec (c d a)), (Z.sgn_spec (c b a)),
    (Z.sgn_spec (c d b)); lia.
Qed.

Lemma before_antisym : AntiSymm (=) before.
Proof using Hc.
  intros a b (Ha & Hb & H1) (_ & _ & H2). pose proof (pre_flip _ _ Hc a b Ha Hb) as F.
  destruct (Z.sgn_spec (c a b)), (Z.sgn_spec (c b a)); lia.
Qed.

Lemma graded_unique l l' : graded l -> graded l' -> l = l'.
Proof using Hc.
  intros [Hp Hs] [Hp' Hs']. 
  pose proof before_trans. pose proof before_antisym. apply (StronglySorted_unique before); [done..|]. by rewrite Hp.
Qed.

(** Of two different rows one comes first. *)
Lemma before_cases a b : row n a -> row n b -> a < b -> if 0 <? c a b then before b a else before a b.
Proof using Hc.
  intros Ha Hb Hab. pose proof (pre_flip _ _ Hc a b Ha Hb) as F. unfold before.
  destruct (Z.sgn_spec (c a b)), (Z.sgn_spec (c b a)); bif; split_and!; lia.
Qed.
End order.

(** ** The sorts *)
Section sorts.
Context (n : Z) (c : Z -> Z -> Z) (Hc : preorder_on (fun a => row n a) c).
Abbreviation T := (before n c).
#[local] Instance T_trans : Transitive T.
Proof using Hc. by apply before_trans. Qed.

(** Ascending rows, as the sorts get them. *)
Definition rows_asc (l : list Z) : Prop := StronglySorted Z.lt l /\ Forall (fun a => row n a) l.

(** What a sort makes of them. *)
Definition sorted_of (l l' : list Z) : Prop := l' ≡ₚ l /\ StronglySorted T l'.

Lemma rows_asc_app l1 l2 : rows_asc (l1 ++ l2) -> rows_asc l1 /\ rows_asc l2 /\ forall a b, a ∈ l1 -> b ∈ l2 -> a < b.
Proof using Type.
  intros [Hs Hr]. apply StronglySorted_app in Hs as (H12 & H1 & H2). apply Forall_app in Hr as [R1 R2].
  by split_and!; [split|split|].
Qed.

(** Merging rows with later rows. *)
Lemma merge_sorted l1 l2 m1 m2 :
  (forall a b, a ∈ l1 -> b ∈ l2 -> a < b) -> Forall (fun a => row n a) l1 -> Forall (fun a => row n a) l2 ->
  sorted_of l1 m1 -> sorted_of l2 m2 -> sorted_of (l1 ++ l2) (list_merge (lerel (fun a b => c a b <=? 0)) m1 m2).
Proof using Hc.
  intros H12 R1 R2 [P1 S1] [P2 S2]. rewrite Forall_forall in R1, R2. split.
  - by rewrite merge_Permutation, P1, P2.
  - apply run_merge_sorted; [apply _|done..|]. intros a b Ha Hb. rewrite P1 in Ha. rewrite P2 in Hb.
    pose proof (before_cases n c Hc a b (R1 a Ha) (R2 b Hb) (H12 a b Ha Hb)) as Hb'.
    destruct (0 <? c a b) eqn:E1, (c a b <=? 0) eqn:E2; bprop; done || lia.
Qed.

End sorts.

Section recursion.
Context (n : Z) (x : sort_ctx) (Hc : preorder_on (fun a => row n a) (cmp_of x)).
#[local] Instance cmp_trans : Transitive (before n (cmp_of x)).
Proof using Hc. by apply before_trans. Qed.

Lemma insertion_rows arr : rows_asc n arr -> exists arr', sort_insertion x arr (length arr) = Some arr' /\ sorted_of n (cmp_of x) arr arr'.
Proof using Hc.
  intros [Hs Hr]. destruct (insertion_sort_ok (fun e key => 0 <? cmp_of x e key) (before n (cmp_of x)) arr) as (arr' & Ha & Hp & Hss).
  - eapply StronglySorted_weaken_in; [|exact Hs]. rewrite Forall_forall in Hr. intros a b Ha Hb Hab. unfold agrees.
    apply before_cases; auto.
  - exists arr'. done.
Qed.

Lemma merge_recursive_ok fuel arr :
  (length arr <= fuel)%nat -> rows_asc n arr -> exists arr', sort_merge_recursive fuel x arr = Some arr' /\ sorted_of n (cmp_of x) arr arr'.
Proof using Hc.
  revert arr. induction fuel as [|fuel IH]; intros arr Hf Ha; cbn [sort_merge_recursive].
  { rewrite (proj2 (Nat.leb_le _ _)) by lia. by apply insertion_rows. }
  bif; [by apply insertion_rows|]. set (mid := (length arr / 2)%nat).
  assert (Hmid : (0 < mid < length arr)%nat).
  { unfold mid. split; [apply Nat.div_str_pos; lia|apply Nat.div_lt; lia]. }
  assert (Ha' := Ha). rewrite <- (take_drop mid arr) in Ha'. apply rows_asc_app in Ha' as (A1 & A2 & A12).
  destruct (IH (take mid arr)) as (l & -> & Hl); [rewrite length_take; lia|done|].
  destruct (IH (drop mid arr)) as (r & -> & Hr); [rewrite length_drop; lia|done|]. cbn [mbind option_bind].
  assert (Hll : length l = mid) by (rewrite (proj1 Hl), length_take; lia).
  assert (Hlr : length r = (length arr - mid)%nat) by (by rewrite (proj1 Hr), length_drop).
  rewrite merge_loop_ok by (rewrite ?length_app; lia). eexists. split; [done|].
  rewrite Nat.sub_0_r, !Nat.add_0_l, drop_ge, app_nil_r by (rewrite length_app; lia). cbn [take app].
  assert (part (l ++ r) 0 mid = l) as -> by (unfold part; rewrite drop_0; by apply take_app_length').
  assert (part (l ++ r) mid (length arr) = r) as ->.
  { unfold part. rewrite take_ge by (rewrite length_app; lia). by apply drop_app_length'. }
  rewrite <- (take_drop mid arr) at 1. apply (merge_sorted n (cmp_of x) Hc); [done|apply A1|apply A2|done|done].
Qed.
End recursion.

(** ** Tasks on disjoint pieces *)
Lemma lookup_put {A} (a : list A) off l i :
  (off + length l <= length a)%nat ->
  put a off l !! i = if decide (off <= i < off + length l)%nat then l !! (i - off)%nat else a !! i.
Proof.
  intros Hl. unfold put. destruct (decide (i < off)%nat) as [H|H].
  { rewrite lookup_app_l by (rewrite length_take; lia). rewrite decide_False by lia. by apply lookup_take_lt. }
  rewrite lookup_app_r, length_take_le by (rewrite ?length_take; lia). case_decide.
  - by rewrite lookup_app_l by lia.
  - rewrite lookup_app_r, lookup_drop by lia. f_equal. lia.
Qed.

Lemma lookup_part {A} (a : list A) i e j : part a i e !! j = if decide (i + j < e)%nat then a !! (i + j)%nat else None.
Proof.
  unfold part. rewrite lookup_drop. case_decide; [by apply lookup_take_lt|].
  apply lookup_ge_None. rewrite length_take. lia.
Qed.

Lemma part_put {A} (a : list A) off l : (off + length l <= length a)%nat -> part (put a off l) off (off + length l) = l.
Proof.
  intros Hl. apply list_eq. intros j. rewrite lookup_part, lookup_put by done.
  destruct (decide (j < length l)%nat).
  - rewrite !decide_True by lia. f_equal. lia.
  - rewrite decide_False by lia. symmetry. apply lookup_ge_None. lia.
Qed.

Lemma part_put_other {A} (a : list A) off l lo hi :
  (off + length l <= length a)%nat -> (hi <= off \/ off + length l <= lo)%nat -> part (put a off l) lo hi = part a lo hi.
Proof.
  intros Hl Hd. apply list_eq. intros j. rewrite !lookup_part. case_decide; [|done].
  rewrite lookup_put by done. by rewrite decide_False by lia.
Qed.

(** Two pieces do not meet. *)
Abbreviation apart l1 h1 l2 h2 := (h1 <= l2 \/ h2 <= l1)%nat.

(** Every task replaces its own piece, of which it may read the old contents:
    all are replaced, in any order, and what is apart from them stays. *)
Lemma pieces_ok {A} (f : list A -> nat -> option (list A)) (lo hi : nat -> nat) (new : nat -> list A -> Prop) order d :
  NoDup order ->
  (forall t u, t ∈ order -> u ∈ order -> t <> u -> apart (lo t) (hi t) (lo u) (hi u)) ->
  (forall t, t ∈ order -> (lo t <= hi t <= length d)%nat) ->
  (forall t d', t ∈ order -> length d' = length d -> part d' (lo t) (hi t) = part d (lo t) (hi t) ->
     exists l, f d' t = Some (put d' (lo t) l) /\ new t l /\ (lo t + length l = hi t)%nat) ->
  exists d', fold_opt f d order = Some d' /\ length d' = length d /\
    (forall t, t ∈ order -> new t (part d' (lo t) (hi t))) /\
    (forall l h, (forall t, t ∈ order -> apart l h (lo t) (hi t)) -> part d' l h = part d l h).
Proof.
  revert d. induction order as [|t order IH]; intros d Hnd Hap Hle Hf; cbn [fold_opt].
  { exists d. split_and!; [done|done| |done]. by intros t []%not_elem_of_nil. }
  apply NoDup_cons in Hnd as [Hni Hnd].
  destruct (Hf t d) as (l & -> & Hnew & Hlen); [by left|done|done|]. cbn [mbind option_bind].
  specialize (Hle t ltac:(by left)) as Ht.
  assert (Hl1 : length (put d (lo t) l) = length d) by (apply length_put; lia).
  assert (Happ : forall u, u ∈ order -> apart (lo t) (hi t) (lo u) (hi u)).
  { intros u Hu. apply Hap; [by left|by right|by intros ->]. }
  assert (Hsame : forall lu hu, apart lu hu (lo t) (hi t) -> part (put d (lo t) l) lu hu = part d lu hu).
  { intros lu hu Hd. apply part_put_other; lia. }
  destruct (IH (put d (lo t) l)) as (d' & -> & Hld & Hn & Hrest).
  - done.
  - intros u v Hu Hv. apply Hap; by right.
  - intros u Hu. rewrite Hl1. apply Hle. by right.
  - intros u d' Hu Hd' Hp. apply Hf; [by right|by rewrite Hd', Hl1|]. rewrite Hp. apply Hsame.
    destruct (Happ u Hu); [by right|by left].
  - exists d'. split_and!; [done|lia| |].
    + intros u [->|Hu]%elem_of_cons; [|by apply Hn]. rewrite Hrest by done. rewrite <- Hlen, part_put by lia. done.
    + intros lu hu Hd. rewrite Hrest by (intros; apply Hd; by right). apply Hsame. apply Hd. by left.
Qed.

Lemma part_join {A} (a : list A) lo mid hi : (lo <= mid <= hi)%nat -> part a lo mid ++ part a mid hi = part a lo hi.
Proof.
  intros Hm. unfold part. rewrite <- (take_drop (mid - lo) (drop lo (take hi a))). f_equal.
  - rewrite take_drop_commute, take_take. do 2 f_equal. lia.
  - rewrite drop_drop. f_equal. lia.
Qed.

Lemma put_nil {A} (a : list A) off : put a off [] = a.
Proof. unfold put. cbn [length app]. by rewrite Nat.add_0_r, take_drop. Qed.

Lemma fold_one {S X} (f : S -> X -> option S) s x : fold_opt f s [x] = f s x.
Proof. cbn [fold_opt]. by destruct (f s x). Qed.

Section merges.
Context (N : nat) (c : Z -> Z -> Z) (Hc : preorder_on (fun a => row N a) c).
Abbreviation iota := (seqZ 0 N).
Abbreviation srt := (sorted_of N c).

Lemma iota_rows lo hi : rows_asc N (part iota lo hi).
Proof using Type.
  assert (Hs : StronglySorted Z.lt iota).
  { rewrite <- (Z2Nat.id N) by lia. generalize (Z.to_nat N) as m. intros m. generalize 0 as s. induction m as [|m IH]; intros s; [constructor|].
    rewrite seqZ_cons by lia. constructor; [by rewrite Nat2Z.inj_succ, Z.pred_succ|]. apply Forall_forall. intros y Hy%elem_of_seqZ. lia. }
  unfold part. split.
  - rewrite <- (take_drop hi iota), <- (take_drop lo (take hi iota)) in Hs.
    apply StronglySorted_app in Hs as (_ & Hs & _). by apply StronglySorted_app in Hs as (_ & _ & Hs).
  - apply Forall_drop, Forall_take, Forall_forall. intros a Ha%elem_of_seqZ. lia.
Qed.

(** The list is in runs of [r] rows: each is sorted, and has the rows of its
    positions. *)
Definition runs (r : nat) (l : list Z) : Prop :=
  length l = N /\ forall k, (k * r < N)%nat ->
    srt (part iota (k * r) (Nat.min (k * r + r) N)) (part l (k * r) (Nat.min (k * r + r) N)).

Lemma runs_whole r l : (0 < N <= r)%nat -> runs r l -> graded N c l.
Proof using Type.
  intros Hr [Hl Hruns]. specialize (Hruns 0%nat ltac:(lia)). rewrite Nat.mul_0_l, Nat.add_0_l, Nat.min_r in Hruns by lia.
  unfold part in Hruns. rewrite !drop_0, !take_ge in Hruns by (rewrite ?length_seqZ; lia). exact Hruns.
Qed.

(** The pieces of a dispatch over [m] tasks of [s] rows. *)
Lemma pieces_runs (f : list Z -> nat -> option (list Z)) s m order d :
  (0 < s)%nat -> (N <= m * s)%nat -> order ≡ₚ seq 0 m -> length d = N ->
  (forall t d', (t < m)%nat -> length d' = N ->
     part d' (Nat.min (t * s) N) (Nat.min (t * s + s) N) = part d (Nat.min (t * s) N) (Nat.min (t * s + s) N) ->
     exists l, f d' t = Some (put d' (Nat.min (t * s) N) l) /\
       srt (part iota (Nat.min (t * s) N) (Nat.min (t * s + s) N)) l) ->
  exists d', fold_opt f d order = Some d' /\ runs s d'.
Proof using Type.
  intros Hs Hm Ho Hd Hf.
  destruct (pieces_ok f (fun t => Nat.min (t * s) N) (fun t => Nat.min (t * s + s) N)
    (fun t l => srt (part iota (Nat.min (t * s) N) (Nat.min (t * s + s) N)) l) order d) as (d' & Hr & Hl & Hn & _).
  - rewrite Ho. apply NoDup_seq.
  - intros t u _ _ Htu. destruct (Nat.lt_total t u) as [|[|]]; [left; nia|done|right; nia].
  - intros t _. lia.
  - intros t d' Ht Hd' Hp. rewrite Ho, elem_of_seq in Ht. destruct (Hf t d') as (l & Hl & Hsl); [lia|lia|done|].
    exists l. split_and!; [done|done|]. rewrite (proj1 Hsl), part_length by (rewrite length_seqZ; lia). lia.
  - exists d'. split; [done|]. split; [lia|]. intros k Hk. specialize (Hn k). rewrite Ho, elem_of_seq in Hn.
    rewrite (Nat.min_l (k * s)) in Hn by lia. apply Hn. nia.
Qed.

(** Two neighbouring runs make a run of twice the size. *)
Lemma runs_merge r src t :
  runs r src -> (t * (2 * r) + r < N)%nat ->
  let lo := (t * (2 * r))%nat in let hi := Nat.min (lo + 2 * r) N in
  srt (part iota lo hi) (list_merge (lerel (fun a b => c a b <=? 0)) (part src lo (lo + r)) (part src (lo + r) hi)).
Proof using Hc.
  intros [Hls Hruns] Ht lo hi.
  pose proof (Hruns (2 * t)%nat ltac:(lia)) as H1. pose proof (Hruns (2 * t + 1)%nat ltac:(lia)) as H2.
  replace (2 * t * r)%nat with lo in H1 by lia. replace ((2 * t + 1) * r)%nat with (lo + r)%nat in H2 by lia.
  replace (Nat.min (lo + r + r) N) with hi in H2 by lia. rewrite (Nat.min_l (lo + r)) in H1 by lia.
  pose proof (iota_rows lo hi) as Hrows. rewrite <- (part_join _ lo (lo + r) hi) in Hrows by lia.
  apply rows_asc_app in Hrows as ((_ & R1) & (_ & R2) & H12).
  pose proof (merge_sorted N c Hc _ _ _ _ H12 R1 R2 H1 H2) as Hms. by rewrite part_join in Hms by lia.
Qed.
End merges.

Section passes.
Context (N : nat) (x : sort_ctx) (Hc : preorder_on (fun a => row N a) (cmp_of x)).
Abbreviation iota := (seqZ 0 N).
Abbreviation srt := (sorted_of N (cmp_of x)).

Lemma phase1_ok n_chunks order :
  (0 < N)%nat -> (0 < n_chunks)%nat -> order ≡ₚ seq 0 n_chunks ->
  let s := ((N + n_chunks - 1) / n_chunks)%nat in
  (0 < s)%nat /\ exists d', fold_opt (phase1_chunk x n_chunks) iota order = Some d' /\ runs N (cmp_of x) s d'.
Proof using Hc.
  intros HN Hn Ho s.
  assert (Hs : (N <= n_chunks * s)%nat).
  { unfold s. pose proof (Nat.div_mod (N + n_chunks - 1) n_chunks ltac:(lia)).
    pose proof (Nat.mod_upper_bound (N + n_chunks - 1) n_chunks ltac:(lia)). lia. }
  split; [nia|]. assert (Hli : length iota = N) by (rewrite length_seqZ; lia).
  apply (pieces_runs N (cmp_of x) _ s n_chunks); [nia|done|done|done|]. intros t d' Ht Hd' Hp.
  unfold phase1_chunk. rewrite Hd'. fold s. bif.
  - exists []. rewrite put_nil. split; [done|]. rewrite part_nil by lia. split; [done|constructor].
  - rewrite (Nat.min_l (t * s)) in Hp |- * by lia. rewrite Hp.
    destruct (merge_recursive_ok N x Hc (Nat.min (t * s + s) N - t * s) (part iota (t * s) (Nat.min (t * s + s) N))) as (l & -> & Hl);
      [rewrite part_length; lia|apply iota_rows|].
    cbn [mbind option_bind]. by exists l.
Qed.

Lemma merge_pass_ok r src dst m order :
  (0 < r)%nat -> runs N (cmp_of x) r src -> length dst = N -> (N <= m * (2 * r))%nat -> order ≡ₚ seq 0 m ->
  exists d', fold_opt (merge_pair x src r) dst order = Some d' /\ runs N (cmp_of x) (2 * r) d'.
Proof using Hc.
  intros Hr [Hls Hruns] Hd Hm Ho. apply (pieces_runs N (cmp_of x) _ (2 * r) m); [lia|done|done|done|]. intros t d' Ht Hd' _.
  unfold merge_pair. rewrite Hls. replace (t * 2 * r)%nat with (t * (2 * r))%nat by lia. bif.
  { exists []. rewrite put_nil. split; [done|]. rewrite part_nil by lia. split; [done|constructor]. }
  rewrite (Nat.min_l (t * (2 * r))) by lia.
  replace (Nat.min (t * (2 * r) + r + r) N) with (Nat.min (t * (2 * r) + 2 * r) N) by lia. bif.
  - eexists. split; [done|]. specialize (Hruns (2 * t)%nat ltac:(lia)).
    replace (2 * t * r)%nat with (t * (2 * r))%nat in Hruns by lia.
    replace (Nat.min (t * (2 * r) + 2 * r) N) with (Nat.min (t * (2 * r) + r) N) by lia. done.
  - pose proof (runs_merge N (cmp_of x) Hc r src t (conj Hls Hruns) ltac:(lia)) as Hms. cbn zeta in Hms.
    set (lo := (t * (2 * r))%nat) in *. set (hi := Nat.min (lo + 2 * r) N) in *. rewrite (Nat.min_l (lo + r)) by lia.
    unfold merge_runs. rewrite merge_loop_ok by lia. replace (lo + (lo + r - lo) + (hi - (lo + r)))%nat with hi by lia.
    pose proof (Permutation_length (proj1 Hms)) as Hml. rewrite part_length in Hml by (rewrite length_seqZ; lia).
    eexists. split; [|exact Hms]. unfold put. rewrite Hml. by replace (lo + (hi - lo))%nat with hi by lia.
Qed.

Lemma merge_passes_ok fuel sched r src dst :
  (forall m, sched m ≡ₚ seq 0 m) -> (0 < N)%nat -> (0 < r)%nat -> (N - r <= fuel)%nat -> runs N (cmp_of x) r src -> length dst = N ->
  exists l, merge_passes fuel x sched r src dst = Some l /\ graded N (cmp_of x) l.
Proof using Hc.
  intros Hsch HN. revert r src dst. induction fuel as [|fuel IH]; intros r src dst Hr Hf Hruns Hd; cbn [merge_passes];
    (destruct (r <? length src)%nat eqn:E; bprop; [|exists src; split; [done|]; apply (runs_whole N (cmp_of x) r); [destruct Hruns; lia|done]]).
  { destruct Hruns. lia. }
  assert (Hls := proj1 Hruns). rewrite Hls in *. set (m := ((N + 2 * r - 1) / (2 * r))%nat).
  assert (Hm : (N <= m * (2 * r))%nat).
  { unfold m. pose proof (Nat.div_mod (N + 2 * r - 1) (2 * r) ltac:(lia)).
    pose proof (Nat.mod_upper_bound (N + 2 * r - 1) (2 * r) ltac:(lia)). lia. }
  assert (Hdisp : (if (1 <? m)%nat then fold_opt (fun d p => sort_merge_fn x src r p (S p) d) dst (sched m)
                   else sort_merge_fn x src r 0 m dst) =
                  fold_opt (merge_pair x src r) dst (if (1 <? m)%nat then sched m else seq 0 m)).
  { bif; [|unfold sort_merge_fn; by rewrite Nat.sub_0_r]. apply fold_opt_ext. intros d p. unfold sort_merge_fn.
    replace (S p - p)%nat with 1%nat by lia. apply fold_one. }
  rewrite Hdisp. destruct (merge_pass_ok r src dst m (if (1 <? m)%nat then sched m else seq 0 m)) as (d' & -> & Hd');
    [done|done|done|done|by bif|].
  cbn [mbind option_bind]. apply IH; [lia|lia| |done]. by rewrite Nat.mul_comm.
Qed.

(** The fallback grades the rows, whatever the pool and its schedule. *)
Lemma sort_fallback_ok pool sched :
  (forall m, sched m ≡ₚ seq 0 m) -> (0 < N)%nat ->
  exists l, sort_fallback x pool sched true N = Some (Some l) /\ graded N (cmp_of x) l.
Proof using Hc.
  intros Hsch HN. unfold sort_fallback. assert (Hli : length iota = N) by (rewrite length_seqZ; lia).
  assert (Hiota : rows_asc N iota).
  { pose proof (iota_rows N 0 N) as Hi. unfold part in Hi. by rewrite drop_0, take_ge in Hi by lia. }
  cbn zeta. bif.
  { replace (sort_insertion x iota N) with (sort_insertion x iota (length iota)) by (by rewrite Hli). destruct (insertion_rows N x Hc iota Hiota) as (l & -> & Hl). cbn [mbind option_bind]. by exists l. }
  cbn [negb]. destruct (_ && _) eqn:E2.
  - bprop. set (nw := default 1%nat pool) in *.
    assert (fold_opt (fun l c => sort_phase1_fn x nw c (S c) l) iota (sched nw) = fold_opt (phase1_chunk x nw) iota (sched nw)) as ->.
    { apply fold_opt_ext. intros d c. unfold sort_phase1_fn. replace (S c - c)%nat with 1%nat by lia. apply fold_one. }
    destruct (phase1_ok nw (sched nw)) as (Hs & d' & -> & Hd'); [done|lia|done|]. cbn [mbind option_bind].
    destruct (merge_passes_ok N sched ((N + nw - 1) / nw) d' (replicate N 0)) as (l & -> & Hl);
      [done|done|done|lia|done|by rewrite length_replicate|]. cbn [mbind option_bind]. by exists l.
  - destruct (merge_recursive_ok N x Hc N iota) as (l & -> & Hl); [lia|done|]. cbn [mbind option_bind]. by exists l.
Qed.
End passes.

(** C20. The comparison sorts of [sort_indices_ex], the insertion sort of a
    short column, the recursive merge sort and the parallel chunks with their
    merge passes, end and leave the one arrangement of the rows that is sorted
    by [sort_cmp] with ties by the row, whatever the number of workers and the
    order of the tasks. *)
Theorem sort_fallback_grades (N : nat) x pool sched :
  ctx_ok N x -> (forall m, sched m ≡ₚ seq 0 m) -> (0 < N)%nat ->
  exists l, sort_fallback x pool sched true N = Some (Some l) /\ graded N (cmp_of x) l.
Proof. intros Hx Hs HN. apply sort_fallback_ok; [|done|done]. by apply cmp_of_pre. Qed.

Lemma sort_fallback_grades_witness :
  let c := Col RAY_GUID false [] (replicate 3 (replicate 16 7) ++ [replicate 16 1]) [] in
  exists l, sort_fallback (SortCtx [Some c] None None) (Some 2%nat) (fun m => rev (seq 0 m)) true 4 = Some (Some l) /\
    l = [3; 0; 1; 2] /\ graded 4 (cmp_of (SortCtx [Some c] None None)) l.
Proof.
  intros c. destruct (sort_fallback_grades 4 (SortCtx [Some c] None None) (Some 2%nat) (fun m => rev (seq 0 m))) as (l & Hl & Hg).
  - split; [|done|done]. apply Forall_cons. split; [|constructor]. intros c' [= <-]. split; [done|done|done|by repeat constructor|done].
  - intros m. symmetry. apply Permutation_rev.
  - lia.
  - exists l. split; [exact Hl|]. split; [|exact Hg]. vm_compute in Hl. by injection Hl.
Defined.
