(* ===== verification/SortSym.v ===== *)
(** * Ranks of symbols ([src/ops/sort.c], [build_enum_rank])

    The ids up to the largest of a column are sorted by their strings, bottom
    up, and each id is given its position.  Widths and bounds are 32 bits. *)
From Stdlib Require Import ZArith Lia.
From stdpp Require Import sorting.
From S2P Require Import Prelude WireVal SortArr Pool Radix RadixSort MsdSort SortCol SortOrd SortMerge.

Definition ENUM_POOL_ROWS : Z := 100000.

Definition enum_max_fn (data : list Z) (start stop : nat) (local_max : Z) : option Z :=
  fold_opt (fun m i => v ← data !! i; Some (if m <? u32 v then u32 v else m)) local_max (seq start (stop - start)).

(** The string of an id, empty where the domain has none. *)
Definition dom_str (dom : list (list Z)) (id : Z) : list Z := default [] (at_row dom id).

Definition enum_cmp (dom : list (list Z)) (ia ib : Z) : Z :=
  let a := dom_str dom ia in
  let b := dom_str dom ib in
  let ml := if (length a <? length b)%nat then length a else length b in
  let cmp := if (0 <? ml)%nat then memcmp a b ml else 0 in
  if cmp =? 0 then (if (length b <? length a)%nat then 1 else 0) - (if (length a <? length b)%nat then 1 else 0)
  else cmp.

(** The merge of [ids[lo..mid)] and [ids[mid..hi)] for one [i]. *)
Definition rank_merge (dom : list (list Z)) (n_ids width : Z) (ids tmp : list Z) (i : Z) : option (list Z) :=
  let lo := i in
  let mid := u32 (lo + width) in
  let mid := if n_ids <? mid then n_ids else mid in
  let hi := u32 (lo + u32 (2 * width)) in
  let hi := if n_ids <? hi then n_ids else hi in
  let '(lo, mid, hi) := (Z.to_nat lo, Z.to_nat mid, Z.to_nat hi) in
  merge_loop (fun a b => enum_cmp dom a b <=? 0) (S (hi - lo)) ids tmp lo mid mid hi lo.

Fixpoint rank_inner (fuel : nat) (dom : list (list Z)) (n_ids width : Z) (ids tmp : list Z) (i : Z) : option (list Z) :=
  if i <? n_ids then
    match fuel with
    | O => None
    | S fuel =>
        tmp ← rank_merge dom n_ids width ids tmp i;
        rank_inner fuel dom n_ids width ids tmp (u32 (i + u32 (2 * width)))
    end
  else Some tmp.

Fixpoint rank_outer (fuel : nat) (dom : list (list Z)) (n_ids width : Z) (ids tmp : list Z) : option (list Z) :=
  if width <? n_ids then
    match fuel with
    | O => None
    | S fuel =>
        tmp ← rank_inner (Z.to_nat n_ids) dom n_ids width ids tmp 0;
        rank_outer fuel dom n_ids (u32 (width * 2)) tmp ids
    end
  else Some ids.

(** [rank[ids[i]] = i]. *)
Definition rank_of (n_ids : Z) (ids : list Z) : option (list Z) :=
  fold_opt (fun rank i => id ← ids !! i; aset rank (Z.to_nat id) (Z.of_nat i)) (replicate (Z.to_nat n_ids) 0)
    (seq 0 (Z.to_nat n_ids)).

(** [None] inside: no ranks, for lack of memory or too large an id. *)
Definition build_enum_rank (alloc_ok : bool) (pool : option nat) (run : list (nat * (Z * Z))) (c : col) (nrows : nat)
    : option (option (list Z)) :=
  let data := c_data c in
  max_id ← (match pool with
    | Some nw =>
        if ENUM_POOL_ROWS <? nrows then
          pw ← per_worker (enum_max_fn data) (replicate nw 0) run;
          Some (foldl (fun m v => if m <? v then v else m) 0 pw)
        else enum_max_fn data 0 nrows 0
    | None => enum_max_fn data 0 nrows 0
    end);
  if UINT32_MAX - 1 <=? max_id then Some None
  else if negb alloc_ok then Some None
  else
    let n_ids := max_id + 1 in
    ids ← rank_outer 33 (c_dom c) n_ids 1 (seqZ 0 n_ids) (replicate (Z.to_nat n_ids) 0);
    rank ← rank_of n_ids ids;
    Some (Some rank).

(** ** The largest id *)
Lemma enum_max_fn_ok data start stop (m0 : Z) :
  (stop <= length data)%nat -> Forall (fun v => 0 <= v < 2 ^ 32) data ->
  exists m, enum_max_fn data start stop m0 = Some m /\ m0 <= m /\ (m = m0 \/ m ∈ data) /\
    forall i v, (start <= i < stop)%nat -> data !! i = Some v -> v <= m.
Proof.
  intros Hl Hd. unfold enum_max_fn. remember (stop - start)%nat as n eqn:En. revert start m0 En.
  induction n as [|n IH]; intros start m0 En; cbn [seq fold_opt].
  { exists m0. split_and!; [done|lia|by left|intros; lia]. }
  destruct (lookup_lt_is_Some_2 data start) as [v Ev]; [lia|]. rewrite Ev. cbn [mbind option_bind].
  assert (Hv : 0 <= v < 2 ^ 32) by (by eapply Forall_lookup_1 in Hd). rewrite u32_small by lia.
  destruct (IH (S start) (if m0 <? v then v else m0)) as (m & -> & Hm & Hin & Hb); [lia|].
  exists m. split_and!; [done|destruct (m0 <? v) eqn:E; bprop; lia| |].
  - destruct Hin as [->|]; [|by right]. destruct (m0 <? v); [right; by eapply list_elem_of_lookup_2|by left].
  - intros i w Hi Hw. destruct (decide (i = start)) as [->|]; [|apply (Hb i); [lia|done]].
    simplify_eq. destruct (m0 <? v) eqn:E; bprop; lia.
Qed.

Lemma foldl_max (pw : list Z) m0 :
  let m := foldl (fun m v => if m <? v then v else m) m0 pw in m0 <= m /\ (m = m0 \/ m ∈ pw) /\ forall v, v ∈ pw -> v <= m.
Proof.
  cbn zeta. revert m0. induction pw as [|v pw IH]; intros m0; cbn [foldl].
  { split_and!; [lia|by left|]. by intros v []%not_elem_of_nil. }
  destruct (IH (if m0 <? v then v else m0)) as (H1 & H2 & H3). destruct (m0 <? v) eqn:E; bprop; split_and!; [lia| | |lia| |].
  - right. apply elem_of_cons. destruct H2 as [->|]; [by left|by right].
  - intros w [->|Hw]%elem_of_cons; [lia|by apply H3].
  - destruct H2 as [->|]; [by left|right; by apply elem_of_cons; right].
  - intros w [->|Hw]%elem_of_cons; [lia|by apply H3].
Qed.

(** The largest id, found by one thread or by many. *)
Lemma max_id_ok pool run (data : list Z) :
  (forall nw, pool = Some nw -> run_of (length data) nw run) -> Forall (fun v => 0 <= v < 2 ^ 32) data ->
  exists m, (match pool with
    | Some nw =>
        if ENUM_POOL_ROWS <? length data then
          pw ← per_worker (enum_max_fn data) (replicate nw 0) run;
          Some (foldl (fun m v => if m <? v then v else m) 0 pw)
        else enum_max_fn data 0 (length data) 0
    | None => enum_max_fn data 0 (length data) 0
    end) = Some m /\ 0 <= m /\ (m = 0 \/ m ∈ data) /\ forall v, v ∈ data -> v <= m.
Proof.
  intros Hrun Hd.
  assert (Hseq : exists m, enum_max_fn data 0 (length data) 0 = Some m /\ 0 <= m /\ (m = 0 \/ m ∈ data) /\ forall v, v ∈ data -> v <= m).
  { destruct (enum_max_fn_ok data 0 (length data) 0) as (m & -> & ? & ? & Hb); [done|done|]. exists m. split_and!; [done..|].
    intros v (i & Hi)%list_elem_of_lookup. apply (Hb i); [|done]. apply lookup_lt_Some in Hi. lia. }
  destruct pool as [nw|]; [|done]. bif; [|done]. specialize (Hrun nw eq_refl).
  destruct (per_worker_ok (fun s => 0 <= s /\ (s = 0 \/ s ∈ data))
    (fun call s => forall i v, (Z.to_nat call.2.1 <= i < Z.to_nat call.2.2)%nat -> data !! i = Some v -> v <= s)
    Z.le (enum_max_fn data) (replicate nw 0) run) as (pw & -> & Hl & HP & _ & Hq).
  - apply _.
  - intros c s s' Hs HQ i v Hi Hv. specialize (HQ i v Hi Hv). lia.
  - intros call s Hin [H0 Hs]. destruct (run_range _ _ _ Hrun _ Hin) as (j & Ej & Hj & _). rewrite Ej. cbn [fst snd].
    pose proof grain_pos.
    destruct (enum_max_fn_ok data (Z.to_nat (j * TASK_GRAIN)) (Z.to_nat (Z.min (j * TASK_GRAIN + TASK_GRAIN) (length data))) s)
      as (m & -> & ? & Hm & Hb); [lia|done|]. exists m. split_and!; [done|lia| |lia|done].
    destruct Hm as [->|]; [done|by right].
  - apply Forall_replicate. split; [lia|by left].
  - intros call Hin. destruct (run_range _ _ _ Hrun _ Hin) as (j & _ & _ & Hc). by rewrite length_replicate.
  - cbn [mbind option_bind]. destruct (foldl_max pw 0) as (H0 & Hin & Hb). eexists. split; [done|]. split_and!; [done| |].
    + destruct Hin as [->|Hin]; [by left|]. rewrite Forall_forall in HP. by apply (HP _ Hin).
    + intros v (i & Hi)%list_elem_of_lookup. destruct (run_covers _ _ _ Hrun i) as (call & Hc & Ec); [by eapply lookup_lt_Some|].
      destruct (Hq call Hc) as (s & Hs & HQ). rewrite Ec in HQ. cbn [fst snd] in HQ.
      trans s; [|apply Hb; by eapply list_elem_of_lookup_2]. apply (HQ i v); [|done]. pose proof grain_pos.
      apply lookup_lt_Some in Hi. pose proof (Z.div_mod i TASK_GRAIN ltac:(lia)). pose proof (Z.mod_pos_bound i TASK_GRAIN ltac:(lia)).
      assert (0 <= i / TASK_GRAIN) by (apply Z.div_pos; lia). nia.
Qed.

(** ** The sort of the ids *)
Lemma enum_cmp_lex dom ia ib : enum_cmp dom ia ib = lex (dom_str dom ia) (dom_str dom ib).
Proof.
  unfold enum_cmp. rewrite <- ray_str_t_cmp_lex. unfold ray_str_t_cmp. rewrite min_len.
  destruct (0 <? _)%nat eqn:E; bprop; [by destruct (memcmp _ _ _ =? 0)|].
  replace (Nat.min _ _) with 0%nat by lia. done.
Qed.

Lemma enum_cmp_pre dom n : preorder_on (fun a => row n a) (enum_cmp dom).
Proof.
  eapply pre_ext; [|eapply pre_weaken; [|apply (pre_map (dom_str dom) _ _ pre_lex_bytes)]]; [|done].
  intros a b _ _. cbn beta. by rewrite enum_cmp_lex.
Qed.

Lemma rank_of_ok (N : nat) ids :
  ids ≡ₚ seqZ 0 N -> exists rank, rank_of N ids = Some rank /\ length rank = N /\
    forall (i : nat) id, ids !! i = Some id -> at_row rank id = Some (Z.of_nat i).
Proof.
  intros Hp. assert (Hl : length ids = N) by (rewrite Hp, length_seqZ; lia).
  assert (Hnd : NoDup ids) by (rewrite Hp; apply NoDup_seqZ).
  assert (Hin : forall i id, ids !! i = Some id -> 0 <= id < N).
  { intros i id Hi. apply list_elem_of_lookup_2 in Hi. rewrite Hp, elem_of_seqZ in Hi. lia. }
  unfold rank_of. rewrite Nat2Z.id.
  enough (H : forall m s rank, (s + m = N)%nat -> length rank = N -> (forall i id, (i < s)%nat -> ids !! i = Some id -> at_row rank id = Some (Z.of_nat i)) ->
    exists r, fold_opt (fun rank i => id ← ids !! i; aset rank (Z.to_nat id) (Z.of_nat i)) rank (seq s m) = Some r /\ length r = N /\
      forall i id, ids !! i = Some id -> at_row r id = Some (Z.of_nat i)).
  { destruct (H N 0%nat (replicate N 0)) as (r & ? & ? & ?); [done|apply length_replicate|intros; lia|]. by exists r. }
  induction m as [|m IH]; intros s rank Hs Hlr Hr; cbn [seq fold_opt].
  { exists rank. split_and!; [done|done|]. intros i id Hi. apply Hr; [|done]. apply lookup_lt_Some in Hi. lia. }
  destruct (lookup_lt_is_Some_2 ids s) as [id Hid]; [lia|]. pose proof (Hin _ _ Hid). rewrite Hid. cbn [mbind option_bind].
  rewrite aset_ok by lia. cbn [mbind option_bind]. apply IH; [lia|by rewrite length_insert|].
  intros i id' Hi Hid'. pose proof (Hin _ _ Hid'). unfold at_row. rewrite (proj2 (Z.ltb_ge id' 0)) by lia.
  destruct (decide (i = s)) as [->|Hne].
  - simplify_eq. apply list_lookup_insert_eq. lia.
  - assert (id' <> id) by (intros ->; apply Hne; by eapply NoDup_lookup).
    rewrite list_lookup_insert_ne by lia. specialize (Hr i id' ltac:(lia) Hid'). unfold at_row in Hr.
    by rewrite (proj2 (Z.ltb_ge id' 0)) in Hr by lia.
Qed.
Section ranking.
Context (dom : list (list Z)) (N : nat) (HN : (0 < N)%nat) (HN31 : N <= 2 ^ 31).
Abbreviation c := (enum_cmp dom).

Lemma rank_merge_ok (w : nat) ids tmp (t : nat) :
  (0 < w)%nat -> 2 * w <= 2 ^ 31 -> runs N c w ids -> length tmp = N -> (t * (2 * w) < N)%nat ->
  exists l, rank_merge dom N w ids tmp (t * (2 * w))%nat = Some (put tmp (t * (2 * w)) l) /\
    sorted_of N c (part (seqZ 0 N) (t * (2 * w)) (Nat.min (t * (2 * w) + 2 * w) N)) l.
Proof using HN HN31.
  intros Hw Hw2 Hruns Hl Ht. unfold rank_merge.
  rewrite (u32_small (2 * w)) by lia. rewrite !u32_small by lia.
  replace (Z.to_nat (if N <? (t * (2 * w))%nat + w then N else (t * (2 * w))%nat + w)) with (Nat.min (t * (2 * w) + w) N) by (bif; lia).
  replace (Z.to_nat (if N <? (t * (2 * w))%nat + 2 * w then N else (t * (2 * w))%nat + 2 * w))
    with (Nat.min (t * (2 * w) + 2 * w) N) by (bif; lia).
  rewrite Nat2Z.id. assert (Hli := proj1 Hruns). set (lo := (t * (2 * w))%nat) in *.
  rewrite merge_loop_ok by lia.
  replace (lo + (Nat.min (lo + w) N - lo) + (Nat.min (lo + 2 * w) N - Nat.min (lo + w) N))%nat with (Nat.min (lo + 2 * w) N) by lia.
  assert (Hms : sorted_of N c (part (seqZ 0 N) lo (Nat.min (lo + 2 * w) N))
    (list_merge (lerel (fun a b => c a b <=? 0)) (part ids lo (Nat.min (lo + w) N)) (part ids (Nat.min (lo + w) N) (Nat.min (lo + 2 * w) N)))).
  { destruct (decide (lo + w < N)%nat) as [Hlt|Hge].
    - rewrite (Nat.min_l (lo + w)) by lia. apply (runs_merge N c (enum_cmp_pre dom N) w ids t); [done|lia].
    - rewrite !Nat.min_r, (part_nil ids N N), list_merge_nil_r by lia. destruct Hruns as [_ Hruns].
      specialize (Hruns (2 * t)%nat ltac:(lia)). replace (2 * t * w)%nat with lo in Hruns by lia. by rewrite Nat.min_r in Hruns by lia. }
  pose proof (Permutation_length (proj1 Hms)) as Hml. rewrite part_length in Hml by (rewrite length_seqZ; lia).
  eexists. split; [|exact Hms]. unfold put. rewrite Hml. by replace (lo + (Nat.min (lo + 2 * w) N - lo))%nat with (Nat.min (lo + 2 * w) N) by lia.
Qed.

(** The inner loop visits the pairs of runs in order. *)
Lemma rank_inner_fold fuel (w m t : nat) ids tmp :
  (0 < w)%nat -> 2 * w <= 2 ^ 31 -> (N <= m * (2 * w))%nat -> (m * (2 * w) < N + 2 * w)%nat -> (t <= m)%nat -> (m - t <= fuel)%nat ->
  rank_inner fuel dom N w ids tmp (t * (2 * w))%nat =
    fold_opt (fun d t => rank_merge dom N w ids d (t * (2 * w))%nat) tmp (seq t (m - t)).
Proof using HN HN31.
  intros Hw Hw2 Hm Hm2. revert t tmp. induction fuel as [|fuel IH]; intros t tmp Ht Hf.
  { replace (m - t)%nat with 0%nat by lia. cbn [rank_inner seq fold_opt]. by rewrite (proj2 (Z.ltb_ge _ _)) by nia. }
  cbn [rank_inner]. destruct (decide (t = m)) as [->|Hne].
  { rewrite Nat.sub_diag. cbn [seq fold_opt]. by rewrite (proj2 (Z.ltb_ge _ _)) by lia. }
  assert ((S t * (2 * w) <= m * (2 * w))%nat) by (apply Nat.mul_le_mono_r; lia).
  rewrite (proj2 (Z.ltb_lt _ _)) by lia. replace (m - t)%nat with (S (m - S t)) by lia. cbn [seq fold_opt].
  destruct (rank_merge _ _ _ _ _ _) as [tmp'|]; cbn [mbind option_bind]; [|done].
  rewrite (u32_small (2 * w)), u32_small by lia. replace ((t * (2 * w))%nat + 2 * w) with (Z.of_nat (S t * (2 * w))) by lia.
  apply IH; lia.
Qed.

Lemma rank_outer_ok fuel (k : nat) ids tmp :
  (k + fuel = 33)%nat -> (k <= 31)%nat -> runs N c (2 ^ k) ids -> length tmp = N ->
  exists l, rank_outer fuel dom N (2 ^ k) ids tmp = Some l /\ graded N c l.
Proof using HN HN31.
  revert k ids tmp. induction fuel as [|fuel IH]; intros k ids tmp Hkf Hk Hruns Hl; [lia|]. cbn [rank_outer].
  assert (Hpow : 2 ^ k = Z.of_nat (2 ^ k)) by (by rewrite Nat2Z.inj_pow).
  bif; [|exists ids; split; [done|]; apply (runs_whole N c (2 ^ k)); [lia|done]].
  assert (Hk30 : (k <= 30)%nat) by (destruct (decide (k = 31)%nat) as [->|]; [change (2 ^ 31%nat) with (2 ^ 31) in *; lia|lia]).
  assert (Hw2 : 2 * 2 ^ k <= 2 ^ 31).
  { rewrite <- Z.pow_succ_r by lia. apply Z.pow_le_mono_r; lia. }
  set (w := (2 ^ k)%nat) in *. assert (Hw : (0 < w)%nat) by (unfold w; lia). rewrite Hpow in *. rewrite Nat2Z.id.
  set (m := ((N + 2 * w - 1) / (2 * w))%nat).
  assert (Hm : (N <= m * (2 * w))%nat /\ (m * (2 * w) < N + 2 * w)%nat /\ (m <= N)%nat).
  { unfold m. pose proof (Nat.div_mod (N + 2 * w - 1) (2 * w) ltac:(lia)).
    pose proof (Nat.mod_upper_bound (N + 2 * w - 1) (2 * w) ltac:(lia)). split_and!; [lia|lia|nia]. }
  pose proof (rank_inner_fold N w m 0 ids tmp Hw Hw2 (proj1 Hm) (proj1 (proj2 Hm)) ltac:(lia) ltac:(lia)) as Hin.
  rewrite Nat.mul_0_l, Nat.sub_0_r in Hin. change (Z.of_nat 0) with 0 in Hin. rewrite Hin.
  destruct (pieces_runs N c (fun d t => rank_merge dom N w ids d (t * (2 * w))%nat) (2 * w) m (seq 0 m) tmp) as (d' & -> & Hd');
    [lia|lia|done|done| |].
  { intros t d' Ht Hd' _. assert (Hlt : (t * (2 * w) < N)%nat) by nia. rewrite (Nat.min_l (t * (2 * w))) by lia.
    apply rank_merge_ok; done. }
  cbn [mbind option_bind]. rewrite u32_small by lia. replace (w * 2) with (2 ^ S k) by (rewrite Nat2Z.inj_succ, Z.pow_succ_r by lia; lia).
  apply IH; [lia|lia| |by destruct Hruns].
  replace (2 ^ S k)%nat with (2 * w)%nat; [done|]. unfold w. by rewrite Nat.pow_succ_r'.
Qed.

(** Runs of one row need no sorting. *)
Lemma runs_one : runs N c 1 (seqZ 0 N).
Proof using HN.
  split; [rewrite length_seqZ; lia|]. intros k Hk. split; [done|].
  destruct (lookup_lt_is_Some_2 (seqZ 0 N) (k * 1)) as [y Hy]; [rewrite length_seqZ; lia|].
  rewrite (part_cons _ _ _ y), part_nil by (done || lia). apply lookup_seqZ in Hy.
  repeat constructor.
Qed.

End ranking.

(** Ranks compare as the strings, equal strings by their ids. *)
Lemma build_enum_rank_ok pool run c nrows :
  (forall nw, pool = Some nw -> run_of nrows nw run) -> length (c_data c) = nrows ->
  length (c_dom c) <= 2 ^ 31 -> (0 < length (c_dom c))%nat -> Forall (fun v => 0 <= v < length (c_dom c)) (c_data c) ->
  exists rank, build_enum_rank true pool run c nrows = Some (Some rank) /\
    forall a b, a ∈ c_data c -> b ∈ c_data c -> exists ra rb, at_row rank a = Some ra /\ at_row rank b = Some rb /\
      0 <= ra < 2 ^ 31 /\ 0 <= rb < 2 ^ 31 /\
      (ra < rb <-> lex (dom_str (c_dom c) a) (dom_str (c_dom c) b) < 0 \/
        (lex (dom_str (c_dom c) a) (dom_str (c_dom c) b) = 0 /\ a < b)).
Proof.
  intros Hrun <- Hdom Hdom0 Hd. unfold build_enum_rank.
  destruct (max_id_ok pool run (c_data c) Hrun) as (m & -> & Hm0 & Hm & Hb).
  { eapply Forall_impl; [exact Hd|]. cbn beta. lia. }
  cbn [mbind option_bind].
  assert (Hmd : m < length (c_dom c)).
  { destruct Hm as [->|Hm]; [lia|]. rewrite Forall_forall in Hd. by apply (Hd m). }
  rewrite (proj2 (Z.leb_gt _ _)) by (unfold UINT32_MAX; lia). cbn [negb].
  set (N := Z.to_nat (m + 1)). replace (m + 1) with (Z.of_nat N) by lia.
  pose proof (runs_one (c_dom c) N ltac:(lia)) as H1.
  destruct (rank_outer_ok (c_dom c) N ltac:(lia) ltac:(lia) 33 0 (seqZ 0 N) (replicate N 0)) as (ids & Hids & Hg);
    [done|lia|done|apply length_replicate|]. change (2 ^ 0%nat) with 1 in Hids. rewrite Hids. cbn [mbind option_bind].
  destruct (rank_of_ok N ids (proj1 Hg)) as (rank & -> & Hlr & Hr). cbn [mbind option_bind].
  exists rank. split; [done|]. intros a b Ha Hb'.
  assert (Hpos : forall v, v ∈ c_data c -> exists i : nat, ids !! i = Some v /\ (i < N)%nat /\ 0 <= v < N).
  { intros v Hv. pose proof (Hb v Hv). rewrite Forall_forall in Hd. pose proof (Hd v Hv).
    assert (v ∈ ids) as (i & Hi)%list_elem_of_lookup by (rewrite (proj1 Hg), elem_of_seqZ; lia). exists i. split_and!; [done| |lia|lia].
    apply lookup_lt_Some in Hi. rewrite (proj1 Hg), length_seqZ in Hi. lia. }
  destruct (Hpos a Ha) as (i & Hi & HiN & Hra), (Hpos b Hb') as (j & Hj & HjN & Hrb).
  exists i, j. rewrite (Hr _ _ Hi), (Hr _ _ Hj). split_and!; [done|done|lia|lia|lia|lia|].
  rewrite <- enum_cmp_lex. pose proof (enum_cmp_pre (c_dom c) N) as Hpre.
  pose proof (StronglySorted_lookup_lt _ _ i j a b (proj2 Hg) Hi Hj) as Hij.
  pose proof (StronglySorted_lookup_lt _ _ j i b a (proj2 Hg) Hj Hi) as Hji.
  destruct (pre_sgn _ _ a b Hpre Hra Hrb) as [F1 F2]. destruct (decide (i = j)) as [->|Hne].
  { simplify_eq. split; [lia|]. rewrite (pre_refl _ _ a Hpre) by done. lia. }
  assert (a <> b). { intros ->. apply Hne. eapply NoDup_lookup; [|exact Hi|exact Hj]. rewrite (proj1 Hg). apply NoDup_seqZ. }
  split.
  - intros Hlt. destruct (Hij ltac:(lia)) as (_ & _ & ?). lia.
  - intros Hc. destruct (decide (i < j)%nat) as [|Hge]; [lia|]. destruct (Hji ltac:(lia)) as (_ & _ & ?). lia.
Qed.

(** C29. The ranks of a symbol column end within 32 merge passes on 32-bit
    widths, exist for every id of the column, and order the ids as their
    strings, byte by byte with the shorter first, two ids with one string by
    the id: whether the largest id was found by one thread or by the workers of
    a dispatch, in any order. *)
Theorem enum_ranks_order pool run c nrows :
  (forall nw, pool = Some nw -> run_of nrows nw run) -> length (c_data c) = nrows ->
  length (c_dom c) <= 2 ^ 31 -> (0 < length (c_dom c))%nat -> Forall (fun v => 0 <= v < length (c_dom c)) (c_data c) ->
  exists rank, build_enum_rank true pool run c nrows = Some (Some rank) /\
    forall a b, a ∈ c_data c -> b ∈ c_data c -> exists ra rb, at_row rank a = Some ra /\ at_row rank b = Some rb /\
      (ra < rb <-> lex (dom_str (c_dom c) a) (dom_str (c_dom c) b) < 0 \/
        (lex (dom_str (c_dom c) a) (dom_str (c_dom c) b) = 0 /\ a < b)).
Proof.
  intros H1 H2 H3 H4 H5. destruct (build_enum_rank_ok pool run c nrows H1 H2 H3 H4 H5) as (rank & -> & Hr).
  exists rank. split; [done|]. intros a b Ha Hb. destruct (Hr a b Ha Hb) as (ra & rb & ? & ? & _ & _ & ?). by exists ra, rb.
Qed.

Lemma enum_ranks_order_witness :
  let c := Col RAY_SYM false [2; 0; 2; 1] [] [[98]; [97; 122]; [97]] in
  exists rank, build_enum_rank true None [] c 4 = Some (Some rank) /\ rank = [2; 1; 0] /\
    exists ra rb, at_row rank 2 = Some ra /\ at_row rank 1 = Some rb /\
      (ra < rb <-> lex [97] [97; 122] < 0 \/ (lex [97] [97; 122] = 0 /\ 2 < 1)).
Proof.
  intros c. destruct (enum_ranks_order None [] c 4) as (rank & Hr & Ho); [done|done|by vm_compute|vm_compute; lia| |].
  - unfold c. cbn [c_data c_dom]. rewrite !Forall_cons. cbn. split_and!; [lia..|constructor].
  - exists rank. split; [exact Hr|]. split; [vm_compute in Hr; by injection Hr|].
    apply (Ho 2 1); [by left|do 3 right; by left].
Defined.
