(* ===== verification/SortEnc.v ===== *)
(** * Sort keys of a column ([src/ops/sort.c], [radix_encode_fn],
    [radix_decode_into]; [src/ops/internal.h], [radix_key_bytes])

    A row of a single sort column becomes 64 bits whose unsigned order is the
    order of [sort_cmp] with its direction and its nulls, but for the clashes
    of [keys_compare_as_rows], and the sorted keys are turned back into the
    values. *)
From Stdlib Require Import ZArith Lia Floats.SpecFloat.
From stdpp Require Import sorting.
From S2P Require Import Prelude WireVal SortArr SortKey Pool Radix RadixSort MsdSort SortCol SortOrd SortMerge SortSym.

Definition UINT64_MAX : Z := 2 ^ 64 - 1.
(** [~x] on 64 bits. *)
Definition not64 (x : Z) : Z := u64 (Z.lnot x).
Definition flip (desc : bool) (e : Z) : Z := if desc then not64 e else e.

Definition radix_key_bytes (t : ray_type_e) : nat :=
  match t with
  | RAY_BOOL | RAY_U8 | RAY_CHARV => 1
  | RAY_I16 => 2
  | RAY_I32 | RAY_DATE | RAY_TIME | RAY_MONTH | RAY_MINUTE | RAY_SECOND => 4
  | _ => 8
  end.

(** ** The lanes of the switch *)
(** [(uintW_t)d ^ (1 << (W-1))]. *)
Definition enc_int (w d : Z) : Z := Z.lxor (wrap w d) (2 ^ (w - 1)).

(** The 32- and 64-bit integers; with nulls every row is tested. *)
Definition enc_wide (w : Z) (has_nulls desc nf : bool) (is_null : option bool) (d : Z) : option Z :=
  let null_e := if xorb nf desc then 0 else UINT64_MAX in
  if has_nulls then null ← is_null; Some (flip desc (if null : bool then null_e else enc_int w d))
  else Some (flip desc (enc_int w d)).

(** The narrow integers: with nulls the values move up by one and the null has
    a key of its own; [e] is the key without nulls. *)
Definition enc_narrow (null_hi : Z) (has_nulls desc nf : bool) (is_null : option bool) (e : Z) : option Z :=
  let null_e := if xorb nf desc then 0 else null_hi in
  if has_nulls then null ← is_null; Some (flip desc (if null : bool then null_e else e + 1))
  else Some (flip desc e).

Definition f64_mask (bits : Z) : Z := Z.lor (u64 (- Z.shiftr bits 63)) (Z.shiftl 1 63).

Definition enc_f64 (desc nf : bool) (bits : Z) : Z :=
  let nan_e := if xorb nf desc then 0 else UINT64_MAX in
  if (Z.land bits 0x7FF0000000000000 =? 0x7FF0000000000000) && negb (Z.land bits 0x000FFFFFFFFFFFFF =? 0)
  then flip desc nan_e
  else flip desc (Z.lxor bits (f64_mask bits)).

(** The key of a row.  The code has no case for the other types and does not
    get here with them. *)
Definition radix_encode_row (c : col) (desc nf : bool) (rank : list Z) (i : Z) : option Z :=
  let t := c_type c in
  if is_i64 t then d ← at_row (c_data c) i; enc_wide 64 (c_nulls c) desc nf (ray_vec_is_null c i) d
  else if is_f64 t then d ← at_row (c_data c) i; Some (enc_f64 desc nf d)
  else if is_i32 t then d ← at_row (c_data c) i; enc_wide 32 (c_nulls c) desc nf (ray_vec_is_null c i) d
  else if bool_decide (t = RAY_SYM) then
    raw ← at_row (c_data c) i; r ← at_row rank (u32 raw); Some (flip desc r)
  else if bool_decide (t = RAY_I16) then
    d ← at_row (c_data c) i; enc_narrow 0x10001 (c_nulls c) desc nf (ray_vec_is_null c i) (enc_int 16 d)
  else if is_byte t then
    d ← at_row (c_data c) i; enc_narrow 0x101 (c_nulls c) desc nf (ray_vec_is_null c i) d
  else None.

(** One call: the keys of a range, with their row numbers; [enc] is the key of
    a row, that of a column or of several. *)
Definition radix_encode_fn (enc : Z -> option Z) (start stop : nat) (rows : list kv) : option (list kv) :=
  fold_opt (fun rows i => k ← enc (Z.of_nat i); aset (A := kv) rows i (k, Z.of_nat i)) rows (seq start (stop - start)).

(** A dispatch over the rows, or one call. *)
Definition encode_rows (enc : Z -> option Z) (pool : option nat) (run : list (nat * (Z * Z))) (rows : list kv) : option (list kv) :=
  match pool with
  | Some _ => fold_opt (fun rows call => radix_encode_fn enc (Z.to_nat (snd call).1) (Z.to_nat (snd call).2) rows) rows run
  | None => radix_encode_fn enc 0 (length rows) rows
  end.

(** ** Decoding *)
Definition dec_int (w : Z) (desc : bool) (k : Z) : Z := sgn w (Z.lxor (wrap w (flip desc k)) (2 ^ (w - 1))).

Definition dec_f64 (desc : bool) (k : Z) : Z :=
  let k := flip desc k in
  let mask := if negb (Z.shiftr k 63 =? 0) then Z.shiftl 1 63 else not64 0 in Z.lxor k mask.

(** What is written for a key; nothing for the other types. *)
Definition radix_decode_key (t : ray_type_e) (desc : bool) (k : Z) : option Z :=
  if is_i64 t then Some (dec_int 64 desc k)
  else if is_f64 t then Some (dec_f64 desc k)
  else if is_i32 t then Some (dec_int 32 desc k)
  else if bool_decide (t = RAY_I16) then Some (dec_int 16 desc k)
  else if is_byte t then Some (u8 (flip desc k))
  else None.

Definition radix_decode_into (t : ray_type_e) (keys : list Z) (desc : bool) : option (list Z) :=
  mapM (radix_decode_key t desc) keys.

(** ** The lanes in order *)
(** Elements in the range of their type. *)
Definition elem_ok (t : ray_type_e) (dom : list (list Z)) (d : Z) : Prop :=
  if is_i64 t then INT64_MIN <= d <= INT64_MAX
  else if is_f64 t then 0 <= d < 2 ^ 64
  else if is_i32 t then - 2 ^ 31 <= d < 2 ^ 31
  else if bool_decide (t = RAY_I16) then - 2 ^ 15 <= d < 2 ^ 15
  else if is_byte t then 0 <= d < 256
  else True.

Lemma not64_eq x : word x -> not64 x = UINT64_MAX - x.
Proof.
  intros Hx. unfold not64, u64, wrap, UINT64_MAX. rewrite Z.lnot_eq_pred_opp. symmetry.
  apply (Z.mod_unique_pos _ _ (-1)); lia.
Qed.

Lemma flip_word desc x : word x -> word (flip desc x).
Proof. intros Hx. destruct desc; cbn; [|done]. rewrite not64_eq by done. unfold UINT64_MAX. lia. Qed.

Lemma flip_flip desc x : word x -> flip desc (flip desc x) = x.
Proof. intros Hx. destruct desc; cbn; [|done]. rewrite (not64_eq x), not64_eq by (done || (unfold UINT64_MAX; lia)). lia. Qed.

Lemma flip_cmp desc x y : word x -> word y -> z_cmp (flip desc x) (flip desc y) = if desc then - z_cmp x y else z_cmp x y.
Proof.
  intros Hx Hy. destruct desc; cbn; [|done]. rewrite !not64_eq by done. unfold z_cmp. repeat case_match; bprop; lia.
Qed.

(** Adding the sign bit is flipping it. *)
Lemma lxor_top w x : 0 < w -> 0 <= x < 2 ^ w -> Z.lxor x (2 ^ (w - 1)) = (x + 2 ^ (w - 1)) mod 2 ^ w.
Proof.
  intros Hw Hx. assert (E : 2 ^ w = 2 * 2 ^ (w - 1)) by (rewrite <- Z.pow_succ_r by lia; f_equal; lia).
  assert (0 < 2 ^ (w - 1)) by lia.
  destruct (Z.lt_ge_cases x (2 ^ (w - 1))) as [Hlt|Hge].
  - rewrite Z.mod_small by lia. rewrite Z.add_nocarry_lxor; [done|]. apply Z.bits_inj'. intros i Hi.
    rewrite Z.land_spec, Z.bits_0, Z.pow2_bits_eqb by lia. destruct (w - 1 =? i) eqn:E1; bprop; [subst i|by rewrite andb_false_r].
    rewrite testbit_high with (w := w - 1) by lia. done.
  - assert (Hx' : x = (x - 2 ^ (w - 1)) + 2 ^ (w - 1)) by lia. set (y := x - 2 ^ (w - 1)) in *.
    assert (Hd : Z.land y (2 ^ (w - 1)) = 0).
    { apply Z.bits_inj'. intros i Hi. rewrite Z.land_spec, Z.bits_0, Z.pow2_bits_eqb by lia.
      destruct (w - 1 =? i) eqn:E1; bprop; [subst i|by rewrite andb_false_r]. rewrite testbit_high with (w := w - 1) by lia. done. }
    rewrite Hx', Z.add_nocarry_lxor, Z.lxor_assoc, Z.lxor_nilpotent, Z.lxor_0_r by done.
    rewrite <- Z.add_nocarry_lxor by done. replace (y + 2 ^ (w - 1) + 2 ^ (w - 1)) with (y + 1 * 2 ^ w) by lia.
    rewrite Z_mod_plus_full. symmetry. apply Z.mod_small. lia.
Qed.

(** A signed integer moves up by half the range. *)
Lemma enc_int_eq w d : 0 < w -> - 2 ^ (w - 1) <= d < 2 ^ (w - 1) -> enc_int w d = d + 2 ^ (w - 1).
Proof.
  intros Hw Hd. assert (E : 2 ^ w = 2 * 2 ^ (w - 1)) by (rewrite <- Z.pow_succ_r by lia; f_equal; lia).
  unfold enc_int, wrap. rewrite lxor_top by (try apply Z.mod_pos_bound; lia). rewrite Zplus_mod_idemp_l. apply Z.mod_small. lia.
Qed.

Lemma z_cmp_shift k x y : z_cmp (x + k) (y + k) = z_cmp x y.
Proof. unfold z_cmp. repeat case_match; bprop; lia. Qed.

(** ** Floating point *)
Lemma land_field x m k : 0 <= k -> 0 <= m -> Z.land x (Z.shiftl (2 ^ m - 1) k) = ((x / 2 ^ k) mod 2 ^ m) * 2 ^ k.
Proof.
  intros Hk Hm. rewrite <- Z.shiftl_mul_pow2, <- land_mask, <- Z.shiftr_div_pow2 by lia.
  apply Z.bits_inj'. intros i Hi. rewrite Z.land_spec, !Z.shiftl_spec by lia.
  destruct (Z.lt_ge_cases i k) as [Hlt|Hge].
  - rewrite !(Z.testbit_neg_r _ (i - k)) by lia. by rewrite andb_false_r.
  - rewrite Z.land_spec, Z.shiftr_spec by lia. by replace (i - k + k) with i by lia.
Qed.

(** The test of the exponent and the mantissa is that for a nan. *)
Lemma nan_test bits :
  (Z.land bits 0x7FF0000000000000 =? 0x7FF0000000000000) && negb (Z.land bits 0x000FFFFFFFFFFFFF =? 0) = is_nan (f64 bits).
Proof.
  change 0x7FF0000000000000 with (Z.shiftl (2 ^ 11 - 1) 52) at 1. rewrite land_field by lia.
  change 0x000FFFFFFFFFFFFF with (2 ^ 52 - 1). rewrite land_mask by lia. unfold f64, f_decode.
  pose proof (Z.mod_pos_bound (bits / 2 ^ 52) (2 ^ 11) ltac:(lia)). pose proof (Z.mod_pos_bound bits (2 ^ 52) ltac:(lia)).
  set (e := (bits / 2 ^ 52) mod 2 ^ 11) in *. set (m := bits mod 2 ^ 52) in *.
  destruct (e =? 2 ^ 11 - 1) eqn:E1; bprop.
  - rewrite E1. rewrite (proj2 (Z.eqb_eq _ _)) by lia. by destruct (m =? 0).
  - rewrite (proj2 (Z.eqb_neq (e * 2 ^ 52) _)) by lia. cbn [andb]. symmetry.
    destruct (e =? 0); [by destruct m|]. destruct (m + 2 ^ 52) eqn:E; [lia|done|lia].
Qed.

Lemma enc_f64_mag bits :
  0 <= bits < 2 ^ 64 -> Z.lxor bits (f64_mask bits) = f_mag 52 11 bits + (if Z.testbit bits 63 then 2 ^ 63 - 1 else 2 ^ 63).
Proof.
  intros Hb. unfold f64_mask, f_mag. change (52 + 11) with 63.
  assert (Ht : Z.testbit bits 63 = (2 ^ 63 <=? bits)).
  { rewrite Z.testbit_eqb by lia. destruct (Z.lt_ge_cases bits (2 ^ 63)).
    - rewrite Z.div_small by lia. symmetry. by apply Z.leb_gt.
    - assert (bits / 2 ^ 63 = 1) as -> by (symmetry; apply (Z.div_unique_pos _ _ _ (bits - 2 ^ 63)); lia).
      symmetry. by apply Z.leb_le. }
  rewrite Ht, Z.shiftr_div_pow2 by lia. destruct (2 ^ 63 <=? bits) eqn:E; bprop.
  - assert (bits / 2 ^ 63 = 1) as -> by (symmetry; apply (Z.div_unique_pos _ _ _ (bits - 2 ^ 63)); lia).
    change (Z.lor (u64 (- (1))) (Z.shiftl 1 63)) with (Z.ones 64).
    assert (bits mod 2 ^ 63 = bits - 2 ^ 63) as -> by (symmetry; apply (Z.mod_unique_pos _ _ 1); lia).
    rewrite Z.lxor_comm. enough (Z.lxor (Z.ones 64) bits = Z.ones 64 - bits) as -> by (change (Z.ones 64) with (2 ^ 64 - 1); lia).
    assert (Hon : forall i, 0 <= i -> Z.testbit (Z.ones 64) i = (i <? 64)) by (intros; by rewrite Z.testbit_ones_nonneg by lia).
    rewrite Z.sub_nocarry_ldiff.
    + apply Z.bits_inj'. intros i Hi. rewrite Z.lxor_spec, Z.ldiff_spec, Hon by done.
      destruct (i <? 64) eqn:Ei; bprop; [by destruct (Z.testbit bits i)|]. by rewrite (testbit_high 64) by lia.
    + apply Z.bits_inj'. intros i Hi. rewrite Z.ldiff_spec, Z.bits_0, Hon by done.
      destruct (i <? 64) eqn:Ei; bprop; [by rewrite andb_false_r|]. by rewrite (testbit_high 64) by lia.
  - rewrite Z.div_small, Z.mod_small by lia. change (Z.lor (u64 (- 0)) (Z.shiftl 1 63)) with (2 ^ (64 - 1)).
    rewrite lxor_top by lia. rewrite Z.mod_small by lia. lia.
Qed.

(** A value's key is between those of a nan. *)
Lemma enc_f64_range bits :
  0 <= bits < 2 ^ 64 -> is_nan (f64 bits) = false -> 0 < Z.lxor bits (f64_mask bits) < UINT64_MAX.
Proof.
  intros Hb Hn. rewrite enc_f64_mag by done. unfold f64 in Hn. rewrite is_nan_mag in Hn by lia. bprop.
  unfold f_mag, UINT64_MAX. pose proof (Z.mod_pos_bound bits (2 ^ (52 + 11)) ltac:(lia)).
  change (52 + 11) with 63 in *. destruct (Z.testbit bits 63); lia.
Qed.

(** The two zeros, in one order or the other. *)
Definition zeros (x y : Z) : bool := ((x =? 0) && (y =? 2 ^ 63)) || ((x =? 2 ^ 63) && (y =? 0)).

(** The keys compare as the values, but for the two zeros: these are equal and
    their keys are not. *)
Lemma enc_f64_cmp x y :
  0 <= x < 2 ^ 64 -> 0 <= y < 2 ^ 64 -> is_nan (f64 x) = false -> is_nan (f64 y) = false ->
  if zeros x y then f_cmp (f64 x) (f64 y) = 0 /\ Z.lxor x (f64_mask x) <> Z.lxor y (f64_mask y)
  else z_cmp (Z.lxor x (f64_mask x)) (Z.lxor y (f64_mask y)) = f_cmp (f64 x) (f64 y).
Proof.
  intros Hx Hy Nx Ny. unfold f64. rewrite f_cmp_mag by (done || lia). rewrite !enc_f64_mag by done.
  assert (Hs : forall b, 0 <= b < 2 ^ 64 ->
    if Z.testbit b 63 then f_mag 52 11 b <= 0 /\ (f_mag 52 11 b = 0 -> b = 2 ^ 63) else 0 <= f_mag 52 11 b /\ (f_mag 52 11 b = 0 -> b = 0)).
  { intros b Hb. unfold f_mag. change (52 + 11) with 63. pose proof (Z.mod_pos_bound b (2 ^ 63) ltac:(lia)).
    pose proof (Z.div_mod b (2 ^ 63) ltac:(lia)) as Hd.
    assert (b / 2 ^ 63 = 0 \/ b / 2 ^ 63 = 1) as Hq.
    { assert (b / 2 ^ 63 < 2) by (apply Z.div_lt_upper_bound; lia). assert (0 <= b / 2 ^ 63) by (apply Z.div_pos; lia). lia. }
    rewrite Z.testbit_eqb by lia. destruct Hq as [E|E]; rewrite E in *; [change (0 mod 2 =? 1) with false|change (1 mod 2 =? 1) with true]; cbv iota; split; lia. }
  pose proof (Hs x Hx) as Sx. pose proof (Hs y Hy) as Sy. destruct (zeros x y) eqn:E; unfold zeros in E.
  - assert (x = 0 /\ y = 2 ^ 63 \/ x = 2 ^ 63 /\ y = 0) as [[-> ->]|[-> ->]] by (bprop; lia); by vm_compute.
  - assert (~ (x = 0 /\ y = 2 ^ 63) /\ ~ (x = 2 ^ 63 /\ y = 0)) as Hz.
    { split; intros [-> ->]; vm_compute in E; done. }
    destruct (Z.testbit x 63), (Z.testbit y 63); unfold z_cmp; repeat case_match; bprop; lia.
Qed.

(** ** Keys and nulls *)
(** The null key is outside the others, on the side that [nf] asks for. *)
Lemma null_lane_ok (desc nf na nb : bool) ne ea eb :
  word ne -> word ea -> word eb ->
  (nb = true -> na = false -> if xorb nf desc then ne < ea else ea < ne) ->
  (na = true -> nb = false -> if xorb nf desc then ne < eb else eb < ne) ->
  z_cmp (flip desc (if na then ne else ea)) (flip desc (if nb then ne else eb)) =
  if na || nb then (if na && nb then 0 else if na then (if nf then -1 else 1) else (if nf then 1 else -1))
  else if desc then - z_cmp ea eb else z_cmp ea eb.
Proof.
  intros Hn Ha Hb Hna Hnb. rewrite flip_cmp by (by destruct na, nb). unfold z_cmp.
  destruct na, nb, desc, nf; cbn in *; try specialize (Hna eq_refl eq_refl); try specialize (Hnb eq_refl eq_refl); try done;
    repeat case_match; bprop; lia.
Qed.

(** What the sort passes to [compute_key_nbytes]. *)
Definition key_nbytes_max (c : col) : nat :=
  let t := c_type c in
  let b := radix_key_bytes t in
  if c_nulls c && (is_byte t || bool_decide (t = RAY_I16)) && (b <? 8)%nat then S b else b.

(** The types with a key. *)
Definition encodable (t : ray_type_e) : bool :=
  is_i64 t || is_f64 t || is_i32 t || bool_decide (t = RAY_SYM) || bool_decide (t = RAY_I16) || is_byte t.

(** The ranks of a symbol column compare as its strings. *)
Definition rank_ok (c : col) (rank : list Z) : Prop :=
  forall a b, a ∈ c_data c -> b ∈ c_data c -> exists ra rb, at_row rank a = Some ra /\ at_row rank b = Some rb /\
    0 <= ra < 2 ^ 31 /\ 0 <= rb < 2 ^ 31 /\
    (ra < rb <-> lex (dom_str (c_dom c) a) (dom_str (c_dom c) b) < 0 \/
      (lex (dom_str (c_dom c) a) (dom_str (c_dom c) b) = 0 /\ a < b)).

(** What the keys need of a column: elements in range, and a domain of
    distinct strings. *)
Record enc_ok (c : col) (rank : list Z) : Prop := {
  eo_type : encodable (c_type c) = true;
  eo_elems : Forall (elem_ok (c_type c) (c_dom c)) (c_data c);
  eo_dom : c_type c = RAY_SYM -> NoDup (c_dom c) /\ length (c_dom c) <= 2 ^ 31 /\ rank_ok c rank }.

(** The rows on which the keys and the comparator differ: zeros of different
    signs, and, where the null key is all ones, a null and the largest long. *)
Definition opposite_zeros (c : col) (a b : Z) : bool := is_f64 (c_type c) && zeros (word_at c a) (word_at c b).
Definition null_tie (c : col) (desc nf : bool) (a b : Z) : bool :=
  is_i64 (c_type c) && Bool.eqb nf desc && null_at c a && (word_at c b =? INT64_MAX).

(** The null key has no more bytes than the others: not so in a column of
    32-bit integers with the nulls at the other end than by default. *)
Definition null_fits (c : col) (desc nf : bool) : Prop := is_i32 (c_type c) = true -> c_nulls c = true -> nf = negb desc.

Lemma lex_eq a b : lex a b = 0 -> a = b.
Proof.
  revert b. induction a as [|x a IH]; intros [|y b]; cbn [lex]; try done.
  destruct (x =? y) eqn:E; bprop; [subst; intros H; f_equal; by apply IH|]. unfold z_cmp. repeat case_match; bprop; lia.
Qed.

Section keys.
Context (n : Z) (c : col) (Hc : col_ok n c) (desc nf : bool) (rank : list Z) (He : enc_ok c rank).

(** The keys of the rows: a null key and the keys of the other rows, in the
    order of the comparator but for the clashes, and below
    [256 ^ key_nbytes_max] where the null key fits. *)
Record keys_view (ne : Z) (e : Z -> Z) : Prop := {
  kv_row : forall a, row n a -> radix_encode_row c desc nf rank a = Some (flip desc (if null_at c a then ne else e a));
  kv_ne : 0 <= ne < 2 ^ 64;
  kv_e : forall a, row n a -> 0 <= e a < 2 ^ 64;
  kv_sep : forall a b, row n a -> row n b -> null_at c b = true -> null_at c a = false ->
    if null_tie c desc nf b a then e a = ne else if xorb nf desc then ne < e a else e a < ne;
  kv_cmp : forall a b, row n a -> row n b -> null_at c a = false -> null_at c b = false ->
    if opposite_zeros c a b then value_cmp c a b = 0 /\ e a <> e b else z_cmp (e a) (e b) = Z.sgn (value_cmp c a b);
  kv_low : null_fits c desc nf -> forall a, row n a -> (if null_at c a then ne else e a) < 256 ^ key_nbytes_max c }.

Lemma sgn_z_cmp x y : Z.sgn (z_cmp x y) = z_cmp x y.
Proof using Type. unfold z_cmp. by repeat case_match. Qed.

Lemma data_row a : n <= length (c_data c) -> row n a ->
  at_row (c_data c) a = Some (word_at c a) /\ elem_ok (c_type c) (c_dom c) (word_at c a) /\ word_at c a ∈ c_data c.
Proof using Hc He.
  intros Hl Ha. destruct (word_at_ok c n a Hl Ha) as [H1 H2]. pose proof (eo_elems _ _ He) as Hel.
  rewrite Forall_forall in Hel. auto.
Qed.

(** Whether a row is null. *)
Lemma null_at_eq a : row n a -> null_at c a =
  if is_f64 (c_type c) then c_nulls c && is_nan (f64 (word_at c a))
  else if is_i64 (c_type c) then c_nulls c && (word_at c a =? NULL_I64)
  else if is_i32 (c_type c) then c_nulls c && (word_at c a =? NULL_I32)
  else if bool_decide (c_type c = RAY_I16) then c_nulls c && (word_at c a =? NULL_I16)
  else false.
Proof using Hc He.
  intros Ha. pose proof (eo_type _ _ He) as Ht. pose proof (ok_len _ _ Hc) as Hl. unfold null_at, ray_vec_is_null.
  rewrite (proj2 (Z.ltb_ge a 0)), (proj2 (Z.leb_gt (c_len c) a)) by lia. cbn [orb].
  unfold c_len in Hl. unfold sentinel_is_null, is_f64, is_i64, is_i32, encodable in *.
  destruct (c_type c) eqn:Et; try done; cbn -[at_row]; destruct (c_nulls c); try done;
    by destruct (word_at_ok c n a Hl Ha) as [-> _].
Qed.

(** Before the null, or after it. *)
Definition null_key (hi : Z) : Z := if xorb nf desc then 0 else hi.

(** The lanes whose key is the value moved up by [k]. *)
Lemma moved_view k hi :
  is_f64 (c_type c) = false -> n <= length (c_data c) ->
  (forall a, row n a -> radix_encode_row c desc nf rank a = Some (flip desc (if null_at c a then null_key hi else word_at c a + k))) ->
  (forall a b, row n a -> row n b -> value_cmp c a b = z_cmp (word_at c a) (word_at c b)) ->
  0 <= hi < 2 ^ 64 -> 256 ^ key_nbytes_max c <= 2 ^ 64 ->
  (forall a, row n a -> 0 <= word_at c a + k < 256 ^ key_nbytes_max c) ->
  (null_fits c desc nf -> forall b, row n b -> null_at c b = true -> null_key hi < 256 ^ key_nbytes_max c) ->
  (forall a b, row n a -> row n b -> null_at c b = true -> null_at c a = false ->
    if null_tie c desc nf b a then word_at c a + k = null_key hi
    else if xorb nf desc then 0 < word_at c a + k else word_at c a + k < hi) ->
  exists ne e, keys_view ne e.
Proof using Type.
  intros Hf Hl Henc Hval Hhi Hnb Hrange Hnull Hsep. exists (null_key hi), (fun a => word_at c a + k). split.
  - done.
  - unfold null_key. destruct (xorb nf desc); lia.
  - intros a Ha. specialize (Hrange a Ha). lia.
  - intros a b Ha Hb Nb Na. unfold null_key. specialize (Hsep a b Ha Hb Nb Na). unfold null_key in Hsep. by destruct (null_tie c desc nf b a), (xorb nf desc).
  - intros a b Ha Hb _ _. unfold opposite_zeros. rewrite Hf. cbn [andb]. by rewrite Hval, sgn_z_cmp, z_cmp_shift.
  - intros Hfit a Ha. destruct (null_at c a) eqn:E; [by apply (Hnull Hfit a)|by apply Hrange].
Qed.

Lemma value_cmp_words (f : Z -> Z -> Z) a b :
  n <= length (c_data c) -> row n a -> row n b ->
  cmp_values c a b = (x ← at_row (c_data c) a; y ← at_row (c_data c) b; Some (f x y)) ->
  value_cmp c a b = f (word_at c a) (word_at c b).
Proof using Type.
  intros Hl Ha Hb Hv. unfold value_cmp. rewrite Hv.
  destruct (word_at_ok c n a Hl Ha) as [-> _], (word_at_ok c n b Hl Hb) as [-> _]. done.
Qed.

Lemma wide_view w nb0 :
  (w = 64 /\ is_i64 (c_type c) = true \/ w = 32 /\ is_i64 (c_type c) = false /\ is_i32 (c_type c) = true) ->
  is_f64 (c_type c) = false -> n <= length (c_data c) -> key_nbytes_max c = nb0 -> 256 ^ nb0 = 2 ^ w ->
  (forall a b, row n a -> row n b -> value_cmp c a b = z_cmp (word_at c a) (word_at c b)) ->
  exists ne e, keys_view ne e.
Proof using Hc He.
  intros Hw Hf Hl Hnb Hnbw Hval. assert (Hwp : 0 < w) by lia.
  assert (E2 : 2 ^ w = 2 * 2 ^ (w - 1)) by (rewrite <- Z.pow_succ_r by lia; f_equal; lia).
  assert (H64 : 2 ^ w <= 2 ^ 64) by (apply Z.pow_le_mono_r; lia).
  assert (Hr : forall a, row n a -> at_row (c_data c) a = Some (word_at c a) /\ - 2 ^ (w - 1) <= word_at c a < 2 ^ (w - 1)).
  { intros a Ha. destruct (data_row a Hl Ha) as (H1 & H2 & _). split; [done|]. unfold elem_ok in H2.
    destruct Hw as [(-> & Hi)|(-> & Hi & Hj)]; rewrite Hi in H2; [unfold INT64_MIN, INT64_MAX in H2; lia|].
    rewrite Hf, Hj in H2. lia. }
  assert (Hnul : forall a, row n a -> null_at c a = c_nulls c && (word_at c a =? - 2 ^ (w - 1))).
  { intros a Ha. rewrite null_at_eq, Hf by done. destruct Hw as [(-> & Hi)|(-> & Hi & Hj)]; rewrite Hi; [done|]. by rewrite Hj. }
  apply (moved_view (2 ^ (w - 1)) UINT64_MAX); [done|done| |done|unfold UINT64_MAX; lia|rewrite Hnb; lia|..].
  - intros a Ha. destruct (Hr a Ha) as [Hd Hdr].
    assert (radix_encode_row c desc nf rank a = enc_wide w (c_nulls c) desc nf (ray_vec_is_null c a) (word_at c a)) as ->.
    { unfold radix_encode_row. rewrite Hf, Hd. destruct Hw as [(-> & Hi)|(-> & Hi & Hj)]; rewrite Hi; [done|]. by rewrite Hj. }
    unfold enc_wide. rewrite (null_at_ok n c Hc a Ha), (Hnul a Ha), enc_int_eq by lia. unfold null_key. by destruct (c_nulls c).
  - intros a Ha. rewrite Hnb, Hnbw. destruct (Hr a Ha). lia.
  - intros Hfit b Hb Nb. rewrite Hnul in Nb by done. rewrite Hnb, Hnbw. bprop. unfold null_key, UINT64_MAX.
    destruct Hw as [(-> & Hi)|(-> & Hi & Hj)]; [destruct (xorb nf desc); lia|].
    rewrite (Hfit Hj H) by done. destruct desc; cbn [xorb negb]; lia.
  - intros a b Ha Hb Nb Na. unfold null_tie. rewrite Nb. rewrite Hnul in Nb, Na by done. destruct (c_nulls c); [|done].
    cbn [andb] in Na. bprop. destruct (Hr a Ha) as [_ Hra]. unfold null_key, UINT64_MAX, INT64_MAX.
    destruct Hw as [(-> & ->)|(-> & -> & _)]; destruct nf, desc; cbn [Bool.eqb andb xorb]; try bif; lia.
Qed.

(** The narrow lanes; [m] is what makes a value a byte or two. *)
Lemma narrow_view (m null_hi lim : Z) :
  is_f64 (c_type c) = false -> is_i64 (c_type c) = false -> n <= length (c_data c) ->
  (forall a, row n a -> radix_encode_row c desc nf rank a = enc_narrow null_hi (c_nulls c) desc nf (ray_vec_is_null c a) (word_at c a + m)) ->
  (forall a, row n a -> 0 <= word_at c a + m < lim) -> null_hi = lim + 1 -> 1 < lim < 2 ^ 32 ->
  (c_nulls c = true -> null_hi < 256 ^ key_nbytes_max c) -> lim <= 256 ^ key_nbytes_max c <= 2 ^ 64 ->
  (forall a b, row n a -> row n b -> value_cmp c a b = z_cmp (word_at c a) (word_at c b)) ->
  (c_nulls c = false -> forall a, row n a -> null_at c a = false) ->
  exists ne e, keys_view ne e.
Proof using Hc.
  intros Hf Hi Hl Henc Hr Hhi Hlim Hnb1 Hnb Hval Hnul.
  apply (moved_view (m + if c_nulls c then 1 else 0) null_hi); [done|done| |done|lia|lia|..].
  - intros a Ha. rewrite Henc by done. unfold enc_narrow. rewrite (null_at_ok n c Hc a Ha). unfold null_key.
    destruct (c_nulls c) eqn:Ec; cbn [mbind option_bind]; [by rewrite Z.add_assoc|]. by rewrite (Hnul eq_refl a Ha), Z.add_0_r.
  - intros a Ha. specialize (Hr a Ha). destruct (c_nulls c); [specialize (Hnb1 eq_refl)|]; lia.
  - intros _ b Hb Nb. unfold null_key. destruct (c_nulls c) eqn:Ec; [|by rewrite (Hnul eq_refl b Hb) in Nb].
    specialize (Hnb1 eq_refl). destruct (xorb nf desc); lia.
  - intros a b Ha Hb Nb _. unfold null_tie. rewrite Hi. cbn [andb]. destruct (c_nulls c) eqn:Ec; [|by rewrite (Hnul eq_refl b Hb) in Nb].
    specialize (Hr a Ha). destruct (xorb nf desc); lia.
Qed.

Lemma f64_view :
  is_f64 (c_type c) = true -> is_i64 (c_type c) = false -> n <= length (c_data c) -> key_nbytes_max c = 8%nat ->
  (forall a b, row n a -> row n b -> value_cmp c a b = f_cmp (f64 (word_at c a)) (f64 (word_at c b))) ->
  exists ne e, keys_view ne e.
Proof using Hc He.
  intros Hf Hi Hl Hnb Hval.
  assert (Hr : forall a, row n a -> 0 <= word_at c a < 2 ^ 64 /\ at_row (c_data c) a = Some (word_at c a)).
  { intros a Ha. destruct (data_row a Hl Ha) as (H1 & H2 & H3). unfold elem_ok in H2. rewrite Hi, Hf in H2. auto. }
  assert (Hnul : forall a, row n a -> null_at c a = is_nan (f64 (word_at c a))).
  { intros a Ha. rewrite null_at_eq, Hf by done. destruct (c_nulls c) eqn:Ec; [done|]. cbn [andb].
    pose proof (ok_f64 _ _ Hc Hf Ec) as Hok. rewrite Forall_forall in Hok. symmetry. apply Hok. by apply data_row. }
  exists (null_key UINT64_MAX), (fun a => if is_nan (f64 (word_at c a)) then 0 else Z.lxor (word_at c a) (f64_mask (word_at c a))).
  assert (He' : forall a, row n a -> is_nan (f64 (word_at c a)) = false -> 0 < Z.lxor (word_at c a) (f64_mask (word_at c a)) < UINT64_MAX).
  { intros a Ha Na. apply enc_f64_range; [by apply Hr|done]. }
  unfold UINT64_MAX in He'. split.
  - intros a Ha. unfold radix_encode_row. rewrite Hi, Hf. destruct (Hr a Ha) as (_ & ->). cbn [mbind option_bind].
    unfold enc_f64. rewrite nan_test, (Hnul a Ha). by destruct (is_nan _).
  - unfold null_key, UINT64_MAX. destruct (xorb nf desc); lia.
  - intros a Ha. destruct (is_nan _) eqn:E; [lia|]. specialize (He' a Ha E). lia.
  - intros a b Ha Hb _ Na. unfold null_tie. rewrite Hi. cbn [andb]. rewrite Hnul in Na by done. rewrite Na. specialize (He' a Ha Na). unfold null_key, UINT64_MAX.
    destruct (xorb nf desc); lia.
  - intros a b Ha Hb Na Nb. rewrite Hnul in Na, Nb by done. rewrite Na, Nb, Hval by done.
    destruct (Hr a Ha) as (Ra & _), (Hr b Hb) as (Rb & _). pose proof (enc_f64_cmp _ _ Ra Rb Na Nb) as Hcmp.
    unfold opposite_zeros. rewrite Hf. cbn [andb]. destruct (zeros _ _); [done|]. rewrite Hcmp. unfold f_cmp. by repeat case_match.
  - intros _ a Ha. rewrite Hnb, (Hnul a Ha). change (256 ^ 8%nat) with (2 ^ 64). unfold null_key, UINT64_MAX.
    destruct (is_nan _) eqn:E; [destruct (xorb nf desc); lia|]. specialize (He' a Ha E). lia.
Qed.

Lemma sym_view : c_type c = RAY_SYM -> n <= length (c_data c) -> exists ne e, keys_view ne e.
Proof using Hc He.
  intros Ht Hl. destruct (eo_dom _ _ He Ht) as (Hnd & Hdl & Hrank).
  pose proof (ok_sym _ _ Hc Ht) as Hid. rewrite Forall_forall in Hid.
  assert (Hnb : key_nbytes_max c = 8%nat) by (unfold key_nbytes_max; rewrite Ht; by destruct (c_nulls c)).
  assert (Hw : forall a, row n a -> at_row (c_data c) a = Some (word_at c a) /\ word_at c a ∈ c_data c) by (intros; by apply (word_at_ok c n)).
  assert (Hnul : forall a, row n a -> null_at c a = false) by (intros a Ha; rewrite null_at_eq by done; by rewrite Ht).
  set (rk := fun a => default 0 (at_row rank (word_at c a))).
  assert (Hrk : forall a, row n a -> at_row rank (word_at c a) = Some (rk a) /\ 0 <= rk a < 2 ^ 31).
  { intros a Ha. destruct (Hw a Ha) as [_ Hin]. destruct (Hrank _ _ Hin Hin) as (ra & _ & Hra & _ & ? & _). unfold rk. by rewrite Hra. }
  assert (Hdom : forall a, row n a -> at_row (c_dom c) (word_at c a) = Some (dom_str (c_dom c) (word_at c a))).
  { intros a Ha. destruct (Hw a Ha) as [_ Hin]. destruct (at_row_ok (c_dom c) _ (word_at c a) ltac:(done) (Hid _ Hin)) as (x & Hx & _).
    unfold dom_str. by rewrite Hx. }
  exists (null_key UINT64_MAX), rk. split.
  - intros a Ha. rewrite (Hnul a Ha). unfold radix_encode_row. rewrite Ht. destruct (Hw a Ha) as [-> Hin]. cbn [mbind option_bind].
    specialize (Hid _ Hin). cbn. rewrite u32_small by lia. by destruct (Hrk a Ha) as [-> _].
  - unfold null_key, UINT64_MAX. destruct (xorb nf desc); lia.
  - intros a Ha. destruct (Hrk a Ha). lia.
  - intros a b Ha Hb Nb. by rewrite Hnul in Nb.
  - intros a b Ha Hb _ _. assert (opposite_zeros c a b = false) as -> by (unfold opposite_zeros; by rewrite Ht).
    rewrite (value_cmp_words (fun x y => match at_row (c_dom c) x, at_row (c_dom c) y with Some s, Some s' => ray_str_cmp s s' | _, _ => 0 end) a b)
      by (done || (unfold cmp_values; by rewrite Ht)).
    rewrite !Hdom by done. rewrite ray_str_cmp_lex.
    destruct (Hw a Ha) as [_ Ia], (Hw b Hb) as [_ Ib]. destruct (Hrank _ _ Ia Ib) as (ra & rb & Hra & Hrb & _ & _ & Hcmp).
    destruct (Hrank _ _ Ib Ia) as (rb' & ra' & Hrb' & Hra' & _ & _ & Hcmp'). simplify_eq.
    assert (Hea : rk a = ra) by (unfold rk; by rewrite Hra). assert (Heb : rk b = rb) by (unfold rk; by rewrite Hrb).
    rewrite Hea, Heb. assert (Hsame : lex (dom_str (c_dom c) (word_at c a)) (dom_str (c_dom c) (word_at c b)) = 0 -> word_at c a = word_at c b).
    { intros H0. apply lex_eq in H0. pose proof (Hdom a Ha) as Da. pose proof (Hdom b Hb) as Db. rewrite <- H0 in Db.
      pose proof (Hid _ Ia). pose proof (Hid _ Ib). unfold at_row in Da, Db.
      rewrite (proj2 (Z.ltb_ge (word_at c a) 0)) in Da by lia. rewrite (proj2 (Z.ltb_ge (word_at c b) 0)) in Db by lia.
      pose proof (NoDup_lookup _ _ _ _ Hnd Da Db). lia. }
    pose proof (pre_flip _ _ pre_lex_bytes (dom_str (c_dom c) (word_at c a)) (dom_str (c_dom c) (word_at c b)) I I) as Hfl.
    set (L := lex (dom_str (c_dom c) (word_at c a)) _) in *. set (L' := lex (dom_str (c_dom c) (word_at c b)) _) in *.
    assert (Heq : L = 0 -> ra = rb) by (intros H0; specialize (Hsame H0); rewrite Hsame in Hra; congruence).
    unfold z_cmp. destruct (Z.sgn_spec L), (Z.sgn_spec L'); repeat case_match; bprop; lia.
  - intros _ a Ha. rewrite (Hnul a Ha), Hnb. change (256 ^ 8%nat) with (2 ^ 64). destruct (Hrk a Ha). lia.
Qed.

Lemma keys_exist : exists ne e, keys_view ne e.
Proof using Hc He.
  pose proof (ok_len _ _ Hc) as Hl. pose proof (eo_type _ _ He) as Henc. unfold c_len in Hl.
  assert (Hel : forall a, n <= length (c_data c) -> row n a -> elem_ok (c_type c) (c_dom c) (word_at c a) /\ at_row (c_data c) a = Some (word_at c a)).
  { intros a Hl' Ha. destruct (data_row a Hl' Ha) as (? & ? & _). done. }
  destruct (c_type c) eqn:Et; try done; cbn in Hl.
  all: match type of Et with
       | _ = RAY_SYM => by apply sym_view
       | _ = RAY_F64 => apply f64_view
       | _ = RAY_DATETIME => apply f64_view
       | _ = RAY_I64 => apply (wide_view 64 8)
       | _ = RAY_TIMESTAMP => apply (wide_view 64 8)
       | _ = RAY_TIMESPAN => apply (wide_view 64 8)
       | _ = RAY_I16 => apply (narrow_view (2 ^ 15) 0x10001 (2 ^ 16))
       | _ = RAY_BOOL => apply (narrow_view 0 0x101 (2 ^ 8))
       | _ = RAY_U8 => apply (narrow_view 0 0x101 (2 ^ 8))
       | _ = RAY_CHARV => apply (narrow_view 0 0x101 (2 ^ 8))
       | _ => apply (wide_view 32 4)
       end; try (by rewrite Et); try done.
  all: try (by unfold key_nbytes_max; rewrite Et; destruct (c_nulls c)).
  all: try (intros a b Ha Hb; apply (value_cmp_words z_cmp); [done|done|done|]; unfold cmp_values; by rewrite Et).
  all: try (intros a b Ha Hb; apply (value_cmp_words (fun x y => f_cmp (f64 x) (f64 y))); [done|done|done|];
    unfold cmp_values; by rewrite Et).
  all: try (by left; rewrite Et). all: try (by right; rewrite Et).
  all: try (intros Ec a Ha; rewrite null_at_eq by done; rewrite Et; cbn; by rewrite Ec).
  all: try (intros Ec; unfold key_nbytes_max; rewrite Et, Ec; done).
  all: try (unfold key_nbytes_max; rewrite Et; destruct (c_nulls c); done).
  all: intros a Ha; destruct (Hel a Hl Ha) as [Hd Hdr].
  all: match type of Et with
       | _ = RAY_I16 => assert (- 2 ^ 15 <= word_at c a < 2 ^ 15) by exact Hd
       | _ => assert (0 <= word_at c a < 256) by exact Hd
       end; try lia.
  all: unfold radix_encode_row; rewrite Et, Hdr; rewrite ?Z.add_0_r; try done.
  rewrite <- (enc_int_eq 16) by lia. done.
Qed.

(** The key of a row, as a function. *)
Definition key_of (a : Z) : Z := default 0 (radix_encode_row c desc nf rank a).

Lemma clash_nulls a b : row n a -> row n b ->
  (opposite_zeros c a b = true -> null_at c a = false /\ null_at c b = false) /\
  (null_tie c desc nf a b = true -> null_at c a = true /\ null_at c b = false).
Proof using Hc He.
  intros Ha Hb. unfold opposite_zeros, null_tie, zeros. rewrite (null_at_eq b Hb). split; intros H.
  - rewrite (null_at_eq a Ha). bprop. rewrite H. destruct H0 as [H0|H0]; bprop; rewrite H0, H1; by destruct (c_nulls c).
  - bprop. rewrite H. assert (is_f64 (c_type c) = false) as -> by (revert H; by destruct (c_type c)). rewrite H0. by destruct (c_nulls c).
Qed.

(** What the unsigned comparison of two keys says of the rows. *)
Definition keys_agree (ka kb r a b : Z) : Prop :=
  if opposite_zeros c a b then ka <> kb /\ r = 0
  else if null_tie c desc nf a b || null_tie c desc nf b a then ka = kb /\ r <> 0
  else z_cmp ka kb = Z.sgn r.

Lemma view_agrees ne e a b : keys_view ne e -> row n a -> row n b ->
  keys_agree (flip desc (if null_at c a then ne else e a)) (flip desc (if null_at c b then ne else e b)) (key_cmp c desc nf a b) a b.
Proof using Hc He.
  intros [Hrow Hne Hew Hsep Hcmp Hlow] Ha Hb. destruct (clash_nulls a b Ha Hb) as [Hzn Htn], (clash_nulls b a Hb Ha) as [_ Htn'].
  assert (Hinj : forall x y, word x -> word y -> flip desc x = flip desc y <-> x = y).
  { intros x y Hx Hy. split; [|by intros ->]. intros H%(f_equal (flip desc)). by rewrite !flip_flip in H. }
  unfold keys_agree, key_cmp, null_cmp. destruct (opposite_zeros c a b) eqn:Ez.
  { destruct (Hzn eq_refl) as [Na Nb]. specialize (Hcmp a b Ha Hb Na Nb). rewrite Ez in Hcmp. destruct Hcmp as [H0 H1].
    rewrite Na, Nb, H0. cbn [orb]. rewrite Hinj by auto. by destruct desc. }
  destruct (null_tie c desc nf a b) eqn:E1; cbn [orb].
  { destruct (Htn eq_refl) as [Na Nb]. specialize (Hsep b a Hb Ha Na Nb). rewrite E1 in Hsep. rewrite Na, Nb, Hsep. by destruct nf. }
  destruct (null_tie c desc nf b a) eqn:E2.
  { destruct (Htn' eq_refl) as [Nb Na]. specialize (Hsep a b Ha Hb Nb Na). rewrite E2 in Hsep. rewrite Na, Nb, Hsep. by destruct nf. }
  rewrite (null_lane_ok desc nf); [|done|auto|auto|..].
  - destruct (null_at c a) eqn:Na, (null_at c b) eqn:Nb; cbn [orb andb]; try by destruct nf.
    specialize (Hcmp a b Ha Hb Na Nb). rewrite Ez in Hcmp. rewrite Hcmp. destruct desc; [by rewrite Z.sgn_opp|done].
  - intros Nb Na. specialize (Hsep a b Ha Hb Nb Na). by rewrite E2 in Hsep.
  - intros Na Nb. specialize (Hsep b a Hb Ha Na Nb). by rewrite E1 in Hsep.
Qed.

(** Unsigned comparison of the keys is the comparator, but for the clashes. *)
Lemma key_of_ok : (forall a, row n a -> radix_encode_row c desc nf rank a = Some (key_of a) /\ word (key_of a)) /\
  (forall a b, row n a -> row n b -> keys_agree (key_of a) (key_of b) (key_cmp c desc nf a b) a b) /\
  (null_fits c desc nf -> forall a b, row n a -> row n b -> key_of a / 256 ^ key_nbytes_max c = key_of b / 256 ^ key_nbytes_max c).
Proof using Hc He.
  destruct keys_exist as (ne & e & Hview). pose proof Hview as [Hrow Hne Hew _ _ Hlow].
  assert (Hk : forall a, row n a -> key_of a = flip desc (if null_at c a then ne else e a)).
  { intros a Ha. unfold key_of. by rewrite Hrow. }
  assert (Hw : forall a, row n a -> word (if null_at c a then ne else e a)) by (intros a Ha; destruct (null_at c a); auto).
  split_and!.
  - intros a Ha. rewrite Hk, Hrow by done. split; [done|]. by apply flip_word, Hw.
  - intros a b Ha Hb. rewrite !Hk by done. by apply view_agrees.
  - intros Hfit. assert (Hnb : (1 <= key_nbytes_max c <= 8)%nat).
    { unfold key_nbytes_max. destruct (c_nulls c && _); cbn [andb]; [|destruct (c_type c); cbn; lia].
      destruct (_ <? 8)%nat eqn:E; bprop; destruct (c_type c); cbn in *; lia. }
    assert (Hdiv : forall a, row n a -> key_of a / 256 ^ key_nbytes_max c = if desc then 256 ^ (8 - key_nbytes_max c) - 1 else 0).
    { intros a Ha. rewrite Hk by done. specialize (Hlow Hfit a Ha). specialize (Hw a Ha). set (x := if null_at c a then ne else e a) in *.
      assert (Hp : 2 ^ 64 = 256 ^ key_nbytes_max c * 256 ^ (8 - key_nbytes_max c)).
      { rewrite <- Z.pow_add_r by lia. replace (key_nbytes_max c + (8 - key_nbytes_max c)) with 8 by lia. done. }
      destruct desc; cbn [flip]; [|apply Z.div_small; lia]. rewrite not64_eq by done. unfold UINT64_MAX.
      symmetry. apply (Z.div_unique_pos _ _ _ (256 ^ key_nbytes_max c - 1 - x)); lia. }
    intros a b Ha Hb. by rewrite !Hdiv.
Qed.
End keys.

(** ** The whole array *)
(** Keys with the row numbers. *)
Definition keyed (n : nat) (k : Z -> Z) : list kv := (fun i => (k i, i)) <$> seqZ 0 n.

Lemma keyed_lookup n k (i : nat) : keyed n k !! i = if decide (i < n)%nat then Some (k (Z.of_nat i), Z.of_nat i) else None.
Proof.
  unfold keyed. rewrite list_lookup_fmap. case_decide.
  - rewrite lookup_seqZ_lt by lia. done.
  - rewrite lookup_seqZ_ge by lia. done.
Qed.

Section arrays.
Context (N : nat) (enc : Z -> option Z) (key : Z -> Z) (Hk : forall a, row N a -> enc a = Some (key a)).

Lemma encode_fn_ok start stop rows :
  (start <= stop <= N)%nat -> length rows = N ->
  exists rows', radix_encode_fn enc start stop rows = Some rows' /\ length rows' = N /\
    forall i, rows' !! i = if decide (start <= i < stop)%nat then Some (key (Z.of_nat i), Z.of_nat i) else rows !! i.
Proof using Hk.
  intros Hs Hl. unfold radix_encode_fn. remember (stop - start)%nat as m eqn:Em. revert start rows Hs Hl Em.
  induction m as [|m IH]; intros start rows Hs Hl Em; cbn [seq fold_opt].
  { exists rows. split_and!; [done|done|]. intros i. by rewrite decide_False by lia. }
  rewrite (Hk start) by lia. cbn [mbind option_bind].
  rewrite aset_ok by lia. cbn [mbind option_bind].
  match goal with |- context [fold_opt _ ?r (seq (S start) m)] => destruct (IH (S start) r) as (rows' & -> & Hl' & Hi) end;
    [lia|by rewrite length_insert|lia|]. exists rows'. split_and!; [done|done|]. intros i. rewrite Hi.
  destruct (decide (i = start)) as [->|Hne].
  - rewrite decide_False, decide_True by lia. apply list_lookup_insert_eq. change (start < length (A := kv) rows)%nat. lia.
  - rewrite list_lookup_insert_ne by done. repeat case_decide; done || lia.
Qed.

(** Every row is encoded, whatever the calls and their order. *)
Lemma encode_rows_ok pool run rows :
  (forall nw, pool = Some nw -> run_of N nw run) -> length rows = N ->
  encode_rows enc pool run rows = Some (keyed N key).
Proof using Hk.
  intros Hrun Hl. assert (Hall : forall rows', length rows' = N -> (forall i, (i < N)%nat -> rows' !! i = Some (key (Z.of_nat i), Z.of_nat i)) -> rows' = keyed N key).
  { intros rows' Hl' Hi. apply list_eq. intros i. rewrite keyed_lookup. case_decide; [by apply Hi|]. apply lookup_ge_None_2. lia. }
  unfold encode_rows. destruct pool as [nw|].
  - specialize (Hrun nw eq_refl). pose proof (run_range N nw run Hrun) as Hrange. pose proof (run_covers N nw run Hrun) as Hcov.
    enough (H : exists rows', fold_opt (fun rows call => radix_encode_fn enc (Z.to_nat (snd call).1) (Z.to_nat (snd call).2) rows) rows run = Some rows' /\
      length rows' = N /\ (forall i, rows !! i = Some (key (Z.of_nat i), Z.of_nat i) -> rows' !! i = Some (key (Z.of_nat i), Z.of_nat i)) /\
      forall call i, call ∈ run -> (Z.to_nat call.2.1 <= i < Z.to_nat call.2.2)%nat -> rows' !! i = Some (key (Z.of_nat i), Z.of_nat i)).
    { destruct H as (rows' & -> & Hl' & _ & Hi). f_equal. apply Hall; [done|]. intros i HiN. destruct (Hcov i HiN) as (call & Hin & Ec).
      apply (Hi call); [done|]. rewrite Ec. cbn [fst snd]. pose proof grain_pos.
      pose proof (Z.div_mod i TASK_GRAIN ltac:(lia)). pose proof (Z.mod_pos_bound i TASK_GRAIN ltac:(lia)).
      assert (0 <= i / TASK_GRAIN) by (apply Z.div_pos; lia). nia. }
    clear Hrun Hcov Hall. revert rows Hl. induction run as [|call run IH]; intros rows Hl; cbn [fold_opt].
    { exists rows. split_and!; [done|done|done|]. by intros call i []%not_elem_of_nil. }
    destruct (Hrange call) as (j & Ej & Hj & _); [by left|].
    destruct (encode_fn_ok (Z.to_nat call.2.1) (Z.to_nat call.2.2) rows) as (rows1 & -> & Hl1 & Hi1); [rewrite Ej; cbn [fst snd]; pose proof grain_pos; lia|done|].
    cbn [mbind option_bind]. destruct (IH ltac:(intros; apply Hrange; by right) rows1 Hl1) as (rows' & -> & Hl' & Hkeep & Hdo).
    exists rows'. split_and!; [done|done| |].
    + intros i Hi. apply Hkeep. rewrite Hi1. by case_decide.
    + intros call' i [->|Hin]%elem_of_cons Hi; [|by apply (Hdo call')]. apply Hkeep. rewrite Hi1. by rewrite decide_True.
  - destruct (encode_fn_ok 0 (length rows) rows) as (rows' & -> & Hl' & Hi); [lia|done|]. f_equal. apply Hall; [done|].
    intros i HiN. rewrite Hi. by rewrite decide_True by lia.
Qed.
End arrays.

(** ** Decoding the keys *)
Lemma dec_enc_int w desc d :
  0 < w <= 64 -> - 2 ^ (w - 1) <= d < 2 ^ (w - 1) -> dec_int w desc (flip desc (enc_int w d)) = d.
Proof.
  intros Hw Hd. assert (E2 : 2 ^ w = 2 * 2 ^ (w - 1)) by (rewrite <- Z.pow_succ_r by lia; f_equal; lia).
  assert (2 ^ w <= 2 ^ 64) by (apply Z.pow_le_mono_r; lia). unfold dec_int. rewrite enc_int_eq by lia.
  rewrite flip_flip by lia. rewrite wrap_small, lxor_top by lia. unfold sgn, wrap.
  replace (d + 2 ^ (w - 1) + 2 ^ (w - 1)) with (d + 1 * 2 ^ w) by lia. rewrite Z_mod_plus_full, Zmod_mod.
  destruct (Z.lt_ge_cases d 0).
  - assert (d mod 2 ^ w = d + 2 ^ w) as -> by (symmetry; apply (Z.mod_unique_pos _ _ (-1)); lia). bif; lia.
  - rewrite Z.mod_small by lia. bif; lia.
Qed.

Lemma dec_enc_f64 desc nf bits :
  0 <= bits < 2 ^ 64 -> is_nan (f64 bits) = false -> dec_f64 desc (enc_f64 desc nf bits) = bits.
Proof.
  intros Hb Hn. unfold enc_f64. rewrite nan_test, Hn. pose proof (enc_f64_range bits Hb Hn) as Hr. unfold UINT64_MAX in Hr.
  unfold dec_f64. rewrite flip_flip by lia. rewrite enc_f64_mag in * by done. unfold f_mag in *. change (52 + 11) with 63 in *.
  pose proof (Z.mod_pos_bound bits (2 ^ 63) ltac:(lia)). rewrite Z.shiftr_div_pow2 by lia.
  pose proof (enc_f64_mag bits Hb) as Hm. unfold f_mag in Hm. change (52 + 11) with 63 in Hm.
  unfold f64_mask in Hm. rewrite Z.shiftr_div_pow2 in Hm by lia. destruct (Z.testbit bits 63) eqn:Et.
  - rewrite Z.div_small by lia. cbn [Z.eqb negb]. rewrite <- Hm.
    assert (bits / 2 ^ 63 = 1) as -> by (apply Z.testbit_true in Et; [|lia]; assert (bits / 2 ^ 63 < 2) by (apply Z.div_lt_upper_bound; lia); assert (0 <= bits / 2 ^ 63) by (apply Z.div_pos; lia); assert (bits / 2 ^ 63 = 0 \/ bits / 2 ^ 63 = 1) as [E|E] by lia; [by rewrite E in Et|done]).
    change (Z.lor (u64 (- (1))) (Z.shiftl 1 63)) with (not64 0). by rewrite Z.lxor_assoc, Z.lxor_nilpotent, Z.lxor_0_r.
  - assert ((bits mod 2 ^ 63 + 2 ^ 63) / 2 ^ 63 = 1) as -> by (symmetry; apply (Z.div_unique_pos _ _ _ (bits mod 2 ^ 63)); lia).
    cbn [Z.eqb negb]. rewrite <- Hm.
    assert (bits / 2 ^ 63 = 0) as -> by (apply Z.testbit_false in Et; [|lia]; assert (bits / 2 ^ 63 < 2) by (apply Z.div_lt_upper_bound; lia); assert (0 <= bits / 2 ^ 63) by (apply Z.div_pos; lia); assert (bits / 2 ^ 63 = 0 \/ bits / 2 ^ 63 = 1) as [E|E] by lia; [done|by rewrite E in Et]).
    change (Z.lor (u64 (- 0)) (Z.shiftl 1 63)) with (Z.shiftl 1 63). by rewrite Z.lxor_assoc, Z.lxor_nilpotent, Z.lxor_0_r.
Qed.

Section decoding.
Context (n : Z) (c : col) (Hc : col_ok n c) (desc nf : bool) (rank : list Z) (He : enc_ok c rank).

(** The keys that [ray_sort] decodes: the values moved up by one for a null,
    and the ranks, are gathered by index instead. *)
Definition decodable : bool :=
  negb (bool_decide (c_type c = RAY_SYM)) && negb (c_nulls c && (is_byte (c_type c) || bool_decide (c_type c = RAY_I16))).

Lemma decode_key_ok a :
  decodable = true -> row n a -> null_at c a = false ->
  radix_decode_key (c_type c) desc (key_of c desc nf rank a) = Some (word_at c a).
Proof using Hc He.
  intros Hd Ha Hn. unfold decodable in Hd. bprop. pose proof (eo_type _ _ He) as Ht. pose proof (ok_len _ _ Hc) as Hl.
  pose proof (null_at_ok n c Hc a Ha) as Hnul. rewrite Hn in Hnul.
  assert (Hl' : n <= length (c_data c)) by (clear -Hl Ht; revert Hl Ht; unfold c_len; by destruct (c_type c)).
  destruct (data_row n c Hc rank He a Hl' Ha) as (Hw & Hel & _). unfold key_of, radix_encode_row, radix_decode_key, encodable, elem_ok in *.
  rewrite Hw in *. cbn [mbind option_bind].
  assert (Hwide : forall w, 0 < w <= 64 -> - 2 ^ (w - 1) <= word_at c a < 2 ^ (w - 1) ->
    Some (dec_int w desc (default 0 (enc_wide w (c_nulls c) desc nf (ray_vec_is_null c a) (word_at c a)))) = Some (word_at c a)).
  { intros w Hw0 Hr. unfold enc_wide. rewrite Hnul. f_equal. destruct (c_nulls c); cbn [mbind option_bind default]; by apply dec_enc_int. }
  destruct (is_i64 (c_type c)) eqn:E64; [apply Hwide; [lia|unfold INT64_MIN, INT64_MAX in Hel; lia]|].
  destruct (is_f64 (c_type c)) eqn:Ef.
  { cbn [default]. unfold id. f_equal. apply dec_enc_f64; [done|].
    rewrite (null_at_eq n c Hc rank He a Ha), Ef in Hn. destruct (c_nulls c) eqn:Ec; cbn [andb] in Hn; [done|].
    pose proof (ok_f64 _ _ Hc Ef Ec) as Hok. rewrite Forall_forall in Hok. apply Hok. by destruct (word_at_ok c n a Hl' Ha). }
  destruct (is_i32 (c_type c)) eqn:E32; [apply Hwide; lia|].
  rewrite H. destruct (bool_decide (c_type c = RAY_I16)) eqn:E16.
  { destruct H0 as [->|H0]; [|by rewrite orb_true_r in H0]. cbn [enc_narrow default]. unfold id. f_equal. apply dec_enc_int; lia. }
  destruct (is_byte (c_type c)) eqn:Eb; [|by rewrite H in Ht].
  destruct H0 as [->|]; [|done]. cbn [default enc_narrow]. unfold id. f_equal. rewrite flip_flip by lia. by apply u8_small.
Qed.
End decoding.

(** C21. For every type with a key, either direction, either placement of the
    nulls and any two rows, the unsigned comparison of the 64-bit keys is the
    comparison of the rows by [sort_cmp], with two exceptions, and in these it
    is not: two zeros of different signs are equal rows with different keys,
    and a null and the largest long, where the null's key is all ones ([nf] and
    [desc] alike), are different rows with one key (lines 948 and 988).
    Integers move up by half their range, floats are folded at the sign,
    symbols are ranked, and the nulls get a key of their own. *)
Theorem keys_compare_as_rows n c desc nf rank a b :
  col_ok n c -> enc_ok c rank -> row n a -> row n b ->
  exists ka kb r, radix_encode_row c desc nf rank a = Some ka /\ radix_encode_row c desc nf rank b = Some kb /\
    word ka /\ word kb /\ sort_cmp (SortCtx [Some c] (Some [desc]) (Some [nf])) a b = Some r /\
    if opposite_zeros c a b then r = 0 /\ ka <> kb
    else if null_tie c desc nf a b || null_tie c desc nf b a then r <> 0 /\ ka = kb
    else (ka < kb <-> r < 0) /\ (ka = kb <-> r = 0).
Proof.
  intros Hc He Ha Hb. destruct (key_of_ok n c Hc desc nf rank He) as (Hk & Hcmp & _).
  destruct (Hk a Ha) as [Ea Wa], (Hk b Hb) as [Eb Wb]. specialize (Hcmp a b Ha Hb).
  exists (key_of c desc nf rank a), (key_of c desc nf rank b), (key_cmp c desc nf a b). do 4 (split; [done|]). split.
  - unfold sort_cmp. cbn [x_vecs cmp_keys x_desc x_nulls_first flag lookup list_lookup mbind option_bind].
    rewrite (cmp_key_ok n c Hc) by done. cbn [mbind option_bind]. destruct (_ =? 0) eqn:E; bprop; cbn [negb]; [by rewrite E|done].
  - unfold keys_agree in Hcmp. destruct (opposite_zeros c a b); [tauto|]. destruct (_ || _); [tauto|].
    unfold z_cmp in Hcmp. destruct (Z.sgn_spec (key_cmp c desc nf a b)); repeat case_match; bprop; lia.
Qed.

(** Minus infinity and a null, descending with nulls first; the zeros; the null
    and the largest long, ascending with nulls last. *)
Lemma keys_compare_as_rows_witness :
  let c := Col RAY_F64 true [0xFFF0000000000000; 0xFFF8000000000000; 2 ^ 63; 0] [] [] in
  let d := Col RAY_I64 true [NULL_I64; INT64_MAX] [] [] in
  (exists ka kb r, radix_encode_row c true true [] 0 = Some ka /\ radix_encode_row c true true [] 1 = Some kb /\
    word ka /\ word kb /\ sort_cmp (SortCtx [Some c] (Some [true]) (Some [true])) 0 1 = Some r /\
    (ka < kb <-> r < 0) /\ (ka = kb <-> r = 0) /\ r = 1) /\
  (exists ka kb, radix_encode_row c true true [] 2 = Some ka /\ radix_encode_row c true true [] 3 = Some kb /\ ka <> kb) /\
  (exists k, radix_encode_row d false false [] 0 = Some k /\ radix_encode_row d false false [] 1 = Some k).
Proof.
  intros c d. assert (Hc : enc_ok c []).
  { split; [done| |done]. assert (Hel : Forall (fun x => 0 <= x < 2 ^ 64) (c_data c)); [|exact Hel].
    unfold c; cbn [c_data]; rewrite !Forall_cons; split_and!; [lia..|constructor]. }
  assert (Hd : enc_ok d []).
  { split; [done| |done]. assert (Hel : Forall (fun x => INT64_MIN <= x <= INT64_MAX) (c_data d)); [|exact Hel].
    unfold d, NULL_I64, INT64_MIN, INT64_MAX; cbn [c_data]; rewrite !Forall_cons; split_and!; [lia..|constructor]. }
  split; [|split].
  - destruct (keys_compare_as_rows 4 c true true [] 0 1) as (ka & kb & r & H1 & H2 & H3 & H4 & H5 & H6); [split; done|exact Hc|lia|lia|].
    destruct H6 as [H6 H7]. exists ka, kb, r. do 7 (split; [assumption|]). vm_compute in H5. by injection H5.
  - destruct (keys_compare_as_rows 4 c true true [] 2 3) as (ka & kb & r & H1 & H2 & _ & _ & _ & H6); [split; done|exact Hc|lia|lia|].
    exists ka, kb. split; [exact H1|]. split; [exact H2|]. exact (proj2 H6).
  - destruct (keys_compare_as_rows 2 d false false [] 0 1) as (ka & kb & r & H1 & H2 & _ & _ & _ & H6); [split; done|exact Hd|lia|lia|].
    exists ka. split; [exact H1|]. rewrite H2. by rewrite (proj2 H6).
Defined.

(** C30. Decoding the key of a row that is not null gives the row's value back,
    bit for bit, in both directions and with either placement of the nulls,
    for every type and column whose sorted keys [ray_sort] decodes. *)
Theorem decode_inverts_encode n c desc nf rank a :
  col_ok n c -> enc_ok c rank -> decodable c = true -> row n a -> ray_vec_is_null c a = Some false ->
  exists k, radix_encode_row c desc nf rank a = Some k /\ radix_decode_key (c_type c) desc k = at_row (c_data c) a.
Proof.
  intros Hc He Hd Ha Hn. destruct (key_of_ok n c Hc desc nf rank He) as (Hk & _). destruct (Hk a Ha) as [Ek _].
  exists (key_of c desc nf rank a). split; [done|].
  rewrite (decode_key_ok n c Hc desc nf rank He a Hd Ha) by (unfold null_at; by rewrite Hn).
  assert (n <= length (c_data c)) as Hl.
  { pose proof (ok_len _ _ Hc) as Hl. pose proof (eo_type _ _ He) as Ht. clear -Hl Ht. revert Hl Ht. unfold c_len.
    by destruct (c_type c). }
  by destruct (word_at_ok c n a Hl Ha) as [-> _].
Qed.

Lemma decode_inverts_encode_witness :
  let c := Col RAY_F64 true [0xFFF8000000000000; 0xBFF8000000000000] [] [] in
  exists k, radix_encode_row c true false [] 1 = Some k /\ radix_decode_key RAY_F64 true k = Some 0xBFF8000000000000.
Proof.
  intros c. apply (decode_inverts_encode 2 c true false [] 1); [split; done| |done|lia|done].
  split; [done| |done].
  assert (Hel : Forall (fun x => 0 <= x < 2 ^ 64) (c_data c)) by (unfold c; cbn [c_data]; rewrite !Forall_cons; split_and!; [lia..|constructor]). exact Hel.
Defined.
