(* ===== verification/SortIdx.v ===== *)
(** * Sorting by one column ([src/ops/sort.c], [sort_indices_ex], one key)

    The keys of the column are encoded, counted, and sorted by the introsort,
    by the packed radix sort or by the radix sort of pairs, and where that
    cannot be done the rows are merge-sorted by the comparator.  An [env] is
    what the run-time supplies: the pool, the calls of its dispatches and the
    order of its tasks, and which allocations succeed. *)
From Stdlib Require Import ZArith Lia.
From stdpp Require Import sorting.
From S2P Require Import Prelude WireVal SortArr SortKey Pool Radix RadixSort PackedSort MsdSort SortCol SortOrd SortMerge SortSym SortEnc.

Definition RADIX_SORT_THRESHOLD : Z := 4096.

Record env := Env {
  e_pool : option nat;                               (** the workers, with the main thread *)
  e_cap : Z;                                         (** the ring of the pool *)
  e_runs : nat -> list (nat * (Z * Z));              (** the calls of the range dispatches *)
  e_rows : list (list (write kv)) -> list (write kv);  (** the writes of a scatter of pairs *)
  e_words : list (list (write Z)) -> list (write Z);   (** and of packed words *)
  e_buckets : list nat;                              (** the order of the buckets *)
  e_tasks : nat -> list nat;                         (** the order of the other tasks *)
  e_alloc : nat -> bool }.                           (** the allocations, in the order of the source *)

(** How a branch ends: with the rows in order, undone, or undone with
    [sorted_idx] null. *)
Inductive sorted_rows := Sorted_ (idx : list Z) | NotSorted | NullIdx.

(** [while (nn > 0) { idx_bits++; nn >>= 1; }]. *)
Fixpoint bit_count (fuel : nat) (nn : Z) (bits : Z) : option Z :=
  match fuel with
  | O => None
  | S fuel => if 0 <? nn then bit_count fuel (Z.shiftr nn 1) (bits + 1) else Some bits
  end.

Definition calls_of (pool : option nat) (run : list (nat * (Z * Z))) (n : nat) : list (nat * (Z * Z)) :=
  match pool with Some _ => run | None => [(0%nat, (0, Z.of_nat n))] end.

(** The packed path. *)
Definition sort_packed (v : env) (pool : option nat) (keys : list Z) (nb : nat) (idx_bits : Z) : option sorted_rows :=
  let n := length keys in
  let key_bits := 8 * nb in
  if negb (e_alloc v 0) then Some NotSorted
  else
    '(keys, u, r) ← packed_detect key_bits (mask_of key_bits) (default 1%nat pool) keys (calls_of pool (e_runs v 0) n);
    '(u, r) ← packed_boundaries (mask_of key_bits) keys u r;
    if (u =? 0)%nat then Some (Sorted_ (seqZ 0 n))
    else if (r =? 0)%nat && (1 <? n)%nat then Some (Sorted_ ((fun i => n - 1 - i) <$> seqZ 0 n))
    else
      s ← packed_radix_sort_run (e_alloc v 1) pool (e_words v) keys (replicate n 0) nb;
      Some (match s with
            | Some (sorted, _, _) => Sorted_ (packed_unpack_fn key_bits (mask_of idx_bits) sorted)
            | None => NotSorted
            end).

(** The radix sort of pairs, with its second arrays. *)
Definition sort_msd (v : env) (tmp_ok : bool) (pool : option nat) (rows : list kv) (nb : nat) : option sorted_rows :=
  if negb tmp_ok then Some NotSorted
  else
    s ← msd_radix_sort_run (e_alloc v 3) (e_alloc v 4) pool (e_rows v) (e_buckets v) rows (replicate (length rows) (0, 0)) nb;
    Some (match s with Some (sorted, _, _) => Sorted_ sorted.*2 | None => NullIdx end).

(** The path of the pairs. *)
Definition sort_pairs (v : env) (pool : option nat) (rows : list kv) (nb : nat) : option sorted_rows :=
  u ← detect_sortedness pool (e_runs v 1) rows.*1;
  if (u =? 0)%nat then Some (Sorted_ rows.*2) else sort_msd v (e_alloc v 2) pool rows nb.

Definition sort_keys (v : env) (pool : option nat) (rows : list kv) (nbytes_max : nat) : option sorted_rows :=
  let n := length rows in
  if n <=? RADIX_SORT_THRESHOLD then s ← key_introsort rows n; Some (Sorted_ s.*2)
  else
    nb ← compute_key_nbytes pool (e_runs v 2) rows.*1 nbytes_max;
    idx_bits ← bit_count 64 n 0;
    if (nb <=? 3)%nat && (8 * nb + idx_bits <=? 64) then sort_packed v pool rows.*1 nb idx_bits
    else sort_pairs v pool rows nb.

(** The branch of a single key; [pool] of [sort_indices_ex]. *)
Definition sort_single_key (v : env) (c : col) (desc nf : bool) (nrows : nat) : option sorted_rows :=
  rank ← (if bool_decide (c_type c = RAY_SYM) then build_enum_rank (e_alloc v 5) (e_pool v) (e_runs v 3) c nrows
          else Some (Some []));
  match rank with
  | None => Some NotSorted
  | Some rank =>
      let sk_pool := if SMALL_POOL_THRESHOLD <=? nrows then e_pool v else None in
      if negb (e_alloc v 6) then Some NotSorted
      else
        rows ← encode_rows (radix_encode_row c desc nf rank) sk_pool (e_runs v 4) (replicate nrows (0, 0));
        sort_keys v sk_pool rows (key_nbytes_max c)
  end.

Definition can_radix (c : col) : bool := encodable (c_type c).

(** What follows the branches: the fallback where the rows are not in order,
    and the copy into the result; [None] inside is an error. *)
Definition sort_result (v : env) (x : sort_ctx) (nrows : nat) (s : sorted_rows) : option (option (list Z)) :=
  match s with
  | Sorted_ idx => if e_alloc v 8 then Some (Some idx) else Some None
  | NotSorted | NullIdx =>
      r ← sort_fallback x (e_pool v) (e_tasks v) (e_alloc v 9) nrows;
      match r with
      | None => Some None
      | Some idx => if negb (e_alloc v 8) then Some None else match s with NullIdx => None | _ => Some (Some idx) end
      end
  end.

(** One column, above 64 rows not of pooled strings; [None] inside is an
    error. *)
Definition sort_indices_1 (v : env) (c : col) (descs nulls_first : option bool) (nrows : nat) : option (option (list Z)) :=
  if (nrows =? 0)%nat then Some (Some [])
  else if negb (e_alloc v 7) then Some None
  else
    let desc := default false descs in
    let nf := default (negb desc) nulls_first in
    s ← (if (64 <? nrows)%nat && can_radix c then sort_single_key v c desc nf nrows else Some NotSorted);
    sort_result v (SortCtx [Some c] (option_map (fun d => [d]) descs) (Some [nf])) nrows s.

(** ** The environment *)
(** The dispatches make the calls of the pool, within the ring; every task
    and every write is done once. *)
Record env_ok (n : nat) (v : env) : Prop := {
  ev_ring : 0 < e_cap v < 2 ^ 32 /\ n <= e_cap v * TASK_GRAIN;
  ev_runs : forall nw k, e_pool v = Some nw -> exists grow_ok,
    (e_runs v k).*2 ≡ₚ ray_pool_dispatch_tasks (e_cap v) n grow_ok /\ Forall (fun call => (call.1 < nw)%nat) (e_runs v k);
  ev_rows : runs_all (e_rows v);
  ev_words : runs_all (e_words v);
  ev_buckets : e_buckets v ≡ₚ seq 0 256;
  ev_tasks : forall m, e_tasks v m ≡ₚ seq 0 m }.

Lemma env_run n v nw k : env_ok n v -> (0 < n)%nat -> e_pool v = Some nw -> run_of n nw (e_runs v k).
Proof.
  intros Hv Hn Hp. destruct (ev_ring _ _ Hv) as [Hc Hcap]. destruct (ev_runs _ _ Hv nw k Hp) as (g & Hr & Hw).
  split; [|done]. rewrite <- (dispatch_is_run (e_cap v) n g); [done|done|lia|].
  pose proof grain_pos. apply Z.lt_succ_r, Z.div_lt_upper_bound; lia.
Qed.

Lemma bit_count_ok (fuel : nat) nn bits :
  0 <= nn < 2 ^ fuel -> exists b, bit_count (S fuel) nn bits = Some (bits + b) /\ 0 <= b <= fuel /\ nn < 2 ^ b.
Proof.
  revert nn bits. induction fuel as [|fuel IH]; intros nn bits Hn; cbn [bit_count].
  { rewrite (proj2 (Z.ltb_ge _ _)) by (simpl in Hn; lia). exists 0. rewrite Z.add_0_r. split_and!; [done|lia|lia|simpl in *; lia]. }
  bif; [|exists 0; rewrite Z.add_0_r; split_and!; [done|lia|lia|lia]].
  rewrite Nat2Z.inj_succ, Z.pow_succ_r in Hn by lia.
  destruct (IH (Z.shiftr nn 1) (bits + 1)) as (b & Hb & Hr & Hlt).
  { rewrite Z.shiftr_div_pow2 by lia. split; [apply Z.div_pos; lia|apply Z.div_lt_upper_bound; lia]. }
  exists (1 + b). split_and!; [etrans; [exact Hb|f_equal; lia]|lia|lia|]. rewrite Z.pow_add_r by lia.
  rewrite Z.shiftr_div_pow2 in Hlt by lia. pose proof (Z.div_mod nn (2 ^ 1) ltac:(lia)). pose proof (Z.mod_pos_bound nn (2 ^ 1) ltac:(lia)). lia.
Qed.

Lemma bit_count_mono fuel fuel' nn bits b :
  (fuel <= fuel')%nat -> bit_count fuel nn bits = Some b -> bit_count fuel' nn bits = Some b.
Proof.
  revert fuel' nn bits. induction fuel as [|fuel IH]; intros [|fuel'] nn bits Hf Hb; [done|done|lia|].
  cbn [bit_count] in *. bif; [|done]. apply IH; [lia|done].
Qed.

(** ** Rows and keys *)
Lemma keyed_rows n k : keyed n k = rows_of_keys (k <$> seqZ 0 n).
Proof.
  apply list_eq. intros i. rewrite keyed_lookup. unfold rows_of_keys. rewrite list_lookup_imap, list_lookup_fmap. case_decide.
  - rewrite lookup_seqZ_lt by lia. cbn. by rewrite Z.add_0_l.
  - by rewrite lookup_seqZ_ge by lia.
Qed.

Lemma rows_idx keys : (rows_of_keys keys).*2 = seqZ 0 (length keys).
Proof.
  apply list_eq. intros i. unfold rows_of_keys. rewrite list_lookup_fmap, list_lookup_imap.
  destruct (decide (i < length keys)%nat) as [H|H].
  - destruct (lookup_lt_is_Some_2 keys i H) as [k ->]. rewrite lookup_seqZ_lt by lia. done.
  - rewrite (lookup_ge_None_2 keys) by lia. by rewrite lookup_seqZ_ge by lia.
Qed.

Lemma rows_fst keys : (rows_of_keys keys).*1 = keys.
Proof.
  apply list_eq. intros i. unfold rows_of_keys. rewrite list_lookup_fmap, list_lookup_imap. by destruct (keys !! i).
Qed.

Lemma rows_length keys : length (rows_of_keys keys) = length keys.
Proof. apply length_imap. Qed.

Lemma rows_ascending keys : ascending (rows_of_keys keys).
Proof.
  unfold rows_of_keys. assert (H : forall m, ascending (imap (fun i k => (k, Z.of_nat (m + i))) keys)).
  { induction keys as [|k ks IH]; intros m; cbn [imap]; constructor.
    - erewrite imap_ext; [apply (IH (S m))|]. intros i x _. unfold compose. do 2 f_equal. lia.
    - apply Forall_forall. intros p Hp. apply elem_of_lookup_imap in Hp as (i & x & -> & _). unfold compose. cbn. lia. }
  apply (H 0%nat).
Qed.

Lemma sorted_keys_id keys : StronglySorted Z.le keys -> kv_sort (rows_of_keys keys) = rows_of_keys keys.
Proof.
  intros Hs. apply kv_sort_id. unfold rows_of_keys.
  assert (H : forall m, StronglySorted key_le (imap (fun i k => (k, Z.of_nat (m + i))) keys)).
  { induction Hs as [|k ks Hs IH Hk]; intros m; cbn [imap]; constructor.
    - erewrite imap_ext; [apply (IH (S m))|]. intros i x _. unfold compose. do 2 f_equal. lia.
    - apply Forall_forall. intros p Hp. apply elem_of_lookup_imap in Hp as (i & x & -> & Hx). unfold compose.
      rewrite Forall_forall in Hk. specialize (Hk x ltac:(by eapply list_elem_of_lookup_2)). apply key_le_spec. cbn. lia. }
  apply (H 0%nat).
Qed.

(** The rows backwards. *)
Abbreviation backwards n := ((fun i => Z.of_nat n - 1 - i) <$> seqZ 0 (Z.of_nat n)).

(** A result is the sorted rows, or the rows backwards where the keys
    descend. *)
Definition keys_done (keys : list Z) (s : sorted_rows) : Prop :=
  match s with
  | Sorted_ idx => idx = (kv_sort (rows_of_keys keys)).*2 \/ (idx = backwards (length keys) /\ StronglySorted Z.ge keys)
  | _ => True
  end.

Section single.
Context (n : nat) (v : env) (Hv : env_ok n v) (Hn : n < 2 ^ 32) (pool : option nat) (Hpool : pool = e_pool v \/ pool = None).
Context (keys : list Z) (Hkl : length keys = n) (Hwords : Forall (fun k => word k) keys).

Lemma pool_run nw k : (0 < n)%nat -> pool = Some nw -> run_of (length keys) nw (e_runs v k).
Proof using Hv Hpool Hkl. intros H0 Hp. rewrite Hkl. destruct Hpool as [E|E]; [|congruence]. apply env_run; [done|done|congruence]. Qed.

Lemma calls_of_ok k : (0 < n)%nat -> calls_ok n (default 1%nat pool) (calls_of pool (e_runs v k) n).
Proof using Hv Hpool Hkl.
  intros H0. destruct pool as [nw|] eqn:E; cbn [default calls_of]; [|apply one_call_ok]. apply run_calls_ok.
  destruct Hpool as [E'|E']; [by apply env_run|done].
Qed.

Lemma sort_packed_ok nb idx_bits :
  (1 < n)%nat -> (1 <= nb <= 3)%nat -> 0 <= idx_bits -> 8 * nb + idx_bits <= 64 -> n < 2 ^ idx_bits -> agree_above nb keys ->
  exists s, sort_packed v pool keys nb idx_bits = Some s /\ keys_done keys s /\ s <> NullIdx.
Proof using Hv Hn Hpool Hkl.
  intros H1 Hnb Hi Hfit Hlen Hag. unfold sort_packed. destruct (e_alloc v 0); cbn [negb]; [|by eexists].
  assert (Hlen' : length keys < 2 ^ (64 - 8 * nb)).
  { rewrite Hkl. eapply Z.lt_le_trans; [exact Hlen|]. apply Z.pow_le_mono_r; lia. }
  pose proof (calls_of_ok 0 ltac:(lia)) as Hcalls. rewrite <- Hkl in Hcalls at 1.
  destruct (packed_detect_ok nb ltac:(lia) keys Hlen' _ _ Hcalls) as (u & r & Hd & Hu & Hr & _).
  rewrite Hkl, Hd. cbn [mbind option_bind].
  destruct (packed_boundaries_ok nb ltac:(lia) keys u r) as (u' & r' & -> & Hu' & Hr' & _); [lia|]. cbn [mbind option_bind].
  destruct (u' =? 0)%nat eqn:E1; bprop.
  { eexists. split_and!; [done| |done]. left. destruct (Hu' E1) as [Hu0 Hub]. rewrite (kv_sort_id (rows_of_keys keys)).
    - by rewrite rows_idx, Hkl.
    - apply (low_ge_sorted nb); [lia|done|]. intros i Hi'. destruct (decide (i mod Z.to_nat TASK_GRAIN = 0)%nat); auto. }
  destruct (_ && _) eqn:E2; bprop.
  { eexists. split_and!; [done| |done]. right. rewrite Hkl. split; [done|]. destruct (Hr' H) as [Hr0 Hrb].
    apply (low_le_descending nb); [lia|done|]. intros i Hi'. destruct (decide (i mod Z.to_nat TASK_GRAIN = 0)%nat); auto. }
  destruct (e_alloc v 1); [|by eexists].
  destruct (packed_radix_ok nb Hnb keys Hag idx_bits Hi Hfit ltac:(lia) ltac:(lia) pool (e_words v) (replicate n 0)) as (s & d & f & -> & Hs);
    [by eapply ev_words|by rewrite length_replicate|]. cbn [mbind option_bind].
  eexists. split_and!; [done| |done]. left. done.
Qed.

(** Without memory for its tables the sort is given up or has not begun. *)
Lemma msd_no_tables alloc_ok sched order rows tmp nb :
  msd_radix_sort_run alloc_ok false pool sched order rows tmp nb = Some None \/
  msd_radix_sort_run alloc_ok false pool sched order rows tmp nb = msd_radix_sort_run alloc_ok true pool sched order rows tmp nb.
Proof using Type.
  induction nb as [|nb IH]; cbn [msd_radix_sort_run]; [by left|].
  destruct (_ || _); [by left|]. destruct (negb alloc_ok); [by left|].
  destruct (mapM _ _) as [hist|]; cbn [mbind option_bind]; [|by right]. destruct (uniform hist _); [done|by right].
Qed.

Lemma sort_msd_ok tmp_ok nb :
  agree_above nb keys ->
  exists s, sort_msd v tmp_ok pool (rows_of_keys keys) nb = Some s /\ (e_alloc v 4 = true -> s <> NullIdx) /\
    forall idx, s = Sorted_ idx -> idx = (kv_sort (rows_of_keys keys)).*2.
Proof using Hv Hn Hkl.
  intros Hag. unfold sort_msd. destruct tmp_ok; cbn [negb]; [|by exists NotSorted]. rewrite rows_length, Hkl.
  destruct (msd_radix_sort_run_ok (e_alloc v 3) pool (e_rows v) (e_buckets v) (rows_of_keys keys) (replicate n (0, 0)) nb) as (d & f & Hm & _).
  - by eapply ev_rows.
  - by eapply ev_buckets.
  - by rewrite length_replicate, rows_length.
  - by rewrite rows_length, Hkl.
  - apply rows_ascending.
  - by rewrite rows_fst.
  - assert (Hdone : exists s, Some (Sorted_ (kv_sort (rows_of_keys keys)).*2) = Some s /\ (e_alloc v 4 = true -> s <> NullIdx) /\
      forall idx, s = Sorted_ idx -> idx = (kv_sort (rows_of_keys keys)).*2).
    { eexists. split; [reflexivity|]. split; [done|]. by intros ? [= <-]. }
    destruct (e_alloc v 4) eqn:E4; [by rewrite Hm|].
    destruct (msd_no_tables (e_alloc v 3) (e_rows v) (e_buckets v) (rows_of_keys keys) (replicate n (0, 0)) nb) as [-> | ->];
      [by exists NullIdx|by rewrite Hm].
Qed.

Lemma sort_pairs_ok nb :
  (0 < n)%nat -> agree_above nb keys ->
  exists s, sort_pairs v pool (rows_of_keys keys) nb = Some s /\ keys_done keys s /\ (e_alloc v 4 = true -> s <> NullIdx).
Proof using Hv Hn Hpool Hkl.
  intros H0 Hag. unfold sort_pairs. rewrite rows_fst.
  destruct (detect_sortedness_ok pool (e_runs v 1) keys) as (u & -> & Hu); [intros; by apply pool_run|]. cbn [mbind option_bind].
  destruct (u =? 0)%nat eqn:E1; bprop.
  { eexists. split_and!; [done| |done]. left. by rewrite sorted_keys_id by (apply no_descent_sorted; auto). }
  destruct (sort_msd_ok (e_alloc v 2) nb Hag) as (s & -> & Hnn & Hs). exists s. split_and!; [done| |done].
  destruct s as [idx| |]; [|done..]. left. by apply Hs.
Qed.

Lemma sort_keys_ok nbytes_max :
  (0 < n)%nat -> (1 <= nbytes_max <= 8)%nat -> agree_above nbytes_max keys ->
  exists s, sort_keys v pool (rows_of_keys keys) nbytes_max = Some s /\ keys_done keys s /\ (e_alloc v 4 = true -> s <> NullIdx).
Proof using Hv Hn Hpool Hkl Hwords.
  intros H0 Hmax Hag. unfold sort_keys. rewrite rows_length, Hkl. bif.
  { rewrite <- Hkl, <- (rows_length keys), key_introsort_ok by (rewrite rows_length; lia). cbn [mbind option_bind].
    eexists. split_and!; [done|by left|done]. }
  rewrite rows_fst.
  destruct (compute_key_nbytes_ok pool (e_runs v 2) keys nbytes_max) as (nb & -> & Hnb & Hagb & _); [intros; by apply pool_run|done|lia|].
  cbn [mbind option_bind]. destruct (bit_count_ok 63 n 0) as (b & -> & Hb & Hlt); [lia|]. cbn [mbind option_bind]. rewrite Z.add_0_l.
  assert (Hag' : agree_above nb keys) by (destruct Hagb as [|<-]; done). unfold RADIX_SORT_THRESHOLD in *.
  destruct (_ && _) eqn:E2; bprop.
  - destruct (sort_packed_ok nb b) as (s & Hs & Hd & Hnn); [lia..|done|]. by exists s.
  - by apply sort_pairs_ok.
Qed.

(** Narrow keys that never rise, and do fall, are not sorted but reversed. *)
Lemma sort_keys_falling nbytes_max x y :
  RADIX_SORT_THRESHOLD < n -> (1 <= nbytes_max <= 3)%nat -> agree_above nbytes_max keys -> e_alloc v 0 = true ->
  StronglySorted Z.ge keys -> x ∈ keys -> y ∈ keys -> x < y ->
  sort_keys v pool (rows_of_keys keys) nbytes_max = Some (Sorted_ (backwards n)).
Proof using Hv Hn Hpool Hkl Hwords.
  intros Hbig Hmax Hag Ha Hge Hx Hy Hxy. unfold sort_keys, RADIX_SORT_THRESHOLD in *. rewrite rows_length, rows_fst, Hkl.
  rewrite (proj2 (Z.leb_gt _ _)) by lia.
  destruct (compute_key_nbytes_ok pool (e_runs v 2) keys nbytes_max) as (nb & -> & Hnb & Hagb & _);
    [intros; apply pool_run; [lia|done]|done|lia|].
  assert (Hagn : agree_above nb keys) by (destruct Hagb as [|<-]; done).
  cbn [mbind option_bind]. destruct (bit_count_ok 32 n 0) as (b & Eb & Hb & Hlt); [lia|].
  destruct (bit_count_ok 63 n 0) as (b' & Eb' & _); [lia|].
  assert (bit_count 64 n 0 = Some b) as ->.
  { rewrite (bit_count_mono 33 64 n 0 (0 + b)) by (done || lia). done. }
  cbn [mbind option_bind]. rewrite (proj2 (Nat.leb_le nb 3)), (proj2 (Z.leb_le (8 * nb + b) 64)) by lia. cbn [andb].
  unfold sort_packed. rewrite Ha. cbn [negb].
  assert (Hlen' : length keys < 2 ^ (64 - 8 * nb)).
  { rewrite Hkl. eapply Z.lt_le_trans; [exact Hn|]. apply Z.pow_le_mono_r; lia. }
  assert (Hfall : forall i, (0 < i < length keys)%nat -> low_le_prev nb keys i).
  { intros i Hi p q Hp Hq. pose proof (StronglySorted_lookup_lt _ _ _ _ _ _ Hge Hq Hp ltac:(lia)).
    destruct (decide (p mod 2 ^ (8 * nb) <= q mod 2 ^ (8 * nb))) as [|Hf]; [done|].
    destruct (low_order nb ltac:(lia) keys Hagn q p 0 0) as [|[-> _]]; [by eapply list_elem_of_lookup_2..|lia|lia|lia]. }
  pose proof (calls_of_ok 0 ltac:(lia)) as Hcalls. rewrite <- Hkl in Hcalls at 1.
  destruct (packed_detect_ok nb ltac:(lia) keys Hlen' _ _ Hcalls) as (u & r & Hd & Hu & _ & Hr).
  rewrite Hkl, Hd. cbn [mbind option_bind].
  destruct (packed_boundaries_ok nb ltac:(lia) keys u r) as (u' & r' & -> & Hu' & _ & Hr'); [lia|]. cbn [mbind option_bind].
  rewrite (Hr' (Hr Hfall) Hfall), (proj2 (Nat.ltb_lt 1 n)), Nat.eqb_refl by lia. cbn [andb].
  destruct (u' =? 0)%nat eqn:E1; bprop; [|reflexivity].
  destruct (Hu' E1) as [Hu0 Hub]. exfalso. apply list_elem_of_lookup_1 in Hx as [i Hi], Hy as [j Hj].
  assert (Hss : StronglySorted key_le (rows_of_keys keys)).
  { apply (low_ge_sorted nb); [lia|done|]. intros k Hk. destruct (decide (k mod Z.to_nat TASK_GRAIN = 0)%nat); auto. }
  assert (Hr0 : forall m z, keys !! m = Some z -> rows_of_keys keys !! m = Some (z, Z.of_nat m)).
  { intros m z Hm. unfold rows_of_keys. by rewrite list_lookup_imap, Hm. }
  assert (j < i)%nat.
  { destruct (decide (j < i)%nat) as [|Hji]; [done|]. destruct (decide (i = j)) as [->|]; [rewrite Hi in Hj; injection Hj as ->; lia|].
    pose proof (StronglySorted_lookup_lt _ _ _ _ _ _ Hge Hi Hj ltac:(lia)). lia. }
  pose proof (StronglySorted_lookup_lt _ _ _ _ _ _ Hss (Hr0 _ _ Hj) (Hr0 _ _ Hi) ltac:(done)) as Hle.
  apply key_le_spec in Hle. cbn [fst snd] in Hle. lia.
Qed.
End single.

(** ** The order of the rows *)
(** The rows in the order of the comparator with ties by the row, or
    backwards where no earlier row is before a later one. *)
Definition ordered (n : nat) (cmp : Z -> Z -> Z) (idx : list Z) : Prop :=
  graded n cmp idx \/ (idx = backwards n /\ forall a b, row n a -> row n b -> a < b -> 0 <= cmp a b).

(** What the radix machinery needs of a column: no pooled strings, elements in
    range, a domain of distinct strings, and the nulls of 32 and 64-bit
    integers at their default end, or else no largest long. *)
Record radix_ready (c : col) (desc nf : bool) : Prop := {
  rr_str : c_type c <> RAY_STR;
  rr_elems : Forall (elem_ok (c_type c) (c_dom c)) (c_data c);
  rr_nulls : is_i64 (c_type c) || is_i32 (c_type c) = true -> c_nulls c = true ->
    nf = negb desc \/ is_i64 (c_type c) = true /\ INT64_MAX ∉ c_data c;
  rr_dom : c_type c = RAY_SYM -> NoDup (c_dom c) /\ length (c_dom c) <= 2 ^ 31 }.

(** What [sort_indices_ex] may assume of a column: up to 64 rows, nothing but
    that it is one. *)
Record col_sortable (n : nat) (c : col) (desc nf : bool) : Prop := {
  cs_col : col_ok n c;
  cs_len : c_len c = n;
  cs_radix : (64 < n)%nat -> radix_ready c desc nf }.

(** No two zeros of different signs. *)
Definition one_zero (n : nat) (c : col) : Prop := forall a b, row n a -> row n b -> opposite_zeros c a b = false.

(** Sorting by keys that compare as the rows grades the rows. *)
Lemma rows_graded (n : nat) (key : Z -> Z) (cmp : Z -> Z -> Z) :
  (forall a b, row n a -> row n b -> z_cmp (key a) (key b) = Z.sgn (cmp a b)) ->
  graded n cmp (kv_sort (rows_of_keys (key <$> seqZ 0 n))).*2.
Proof.
  intros Hcmp. assert (Hl : length (key <$> seqZ 0 n) = n) by (rewrite length_fmap, length_seqZ; lia).
  assert (Hp : kv_sort (rows_of_keys (key <$> seqZ 0 n)) ≡ₚ rows_of_keys (key <$> seqZ 0 n)) by apply kv_sort_perm.
  split; [rewrite (fmap_Permutation snd _ _ Hp), rows_idx, Hl; done|].
  assert (Hin : forall p, p ∈ kv_sort (rows_of_keys (key <$> seqZ 0 n)) -> p.1 = key p.2 /\ row n p.2).
  { intros p Hin. rewrite Hp, <- keyed_rows in Hin. unfold keyed in Hin. apply list_elem_of_fmap in Hin as (a & -> & Ha%elem_of_seqZ).
    cbn. split; [done|lia]. }
  apply (StronglySorted_fmap snd (fun p q => before n cmp p.2 q.2)); [done|].
  eapply StronglySorted_weaken_in; [|apply kv_sort_sorted]. intros p q Hp' Hq Hle.
  destruct (Hin p Hp') as [E1 R1], (Hin q Hq) as [E2 R2]. split_and!; [lia..|]. apply key_le_spec in Hle. rewrite E1, E2 in Hle.
  specialize (Hcmp p.2 q.2 R1 R2). unfold z_cmp in Hcmp. destruct (Z.sgn_spec (cmp p.2 q.2)); repeat case_match; bprop; lia.
Qed.

Lemma rows_in_order (n : nat) (key : Z -> Z) (cmp : Z -> Z -> Z) s :
  (forall a b, row n a -> row n b -> z_cmp (key a) (key b) = Z.sgn (cmp a b)) ->
  keys_done (key <$> seqZ 0 n) s -> match s with Sorted_ idx => ordered n cmp idx | _ => True end.
Proof.
  intros Hcmp Hd. destruct s as [idx| |]; [|done..]. cbn in Hd. destruct Hd as [->|[-> Hge]]; [left; by apply rows_graded|].
  assert (Hl : length (key <$> seqZ 0 n) = n) by (rewrite length_fmap, length_seqZ; lia).
  right. rewrite Hl. split; [done|]. intros a b Ha Hb Hab.
  assert (Hk : forall i, row n i -> (key <$> seqZ 0 n) !! Z.to_nat i = Some (key i)).
  { intros i Hi. rewrite list_lookup_fmap, lookup_seqZ_lt by lia. cbn. f_equal. f_equal. lia. }
  pose proof (StronglySorted_lookup_lt _ _ _ _ _ _ Hge (Hk a Ha) (Hk b Hb) ltac:(lia)).
  specialize (Hcmp a b Ha Hb). unfold z_cmp in Hcmp. destruct (Z.sgn_spec (cmp a b)); repeat case_match; bprop; lia.
Qed.

Lemma graded_ext (n : Z) (f g : Z -> Z -> Z) l : (forall a b, row n a -> row n b -> f a b = g a b) -> graded n f l -> graded n g l.
Proof.
  intros He [Hp Hss]. split; [done|]. eapply StronglySorted_weaken; [|exact Hss]. intros a b (Ha & Hb & Hc).
  split_and!; [lia..|]. by rewrite <- He by lia.
Qed.

(** Without memory the fallback is given up, or did not need it. *)
Lemma fallback_memory x pool tasks alloc_ok n :
  sort_fallback x pool tasks alloc_ok n = sort_fallback x pool tasks true n \/
  alloc_ok = false /\ sort_fallback x pool tasks alloc_ok n = Some None.
Proof. destruct alloc_ok; [by left|]. unfold sort_fallback. cbn zeta. destruct (n <=? 64)%nat; [left|right]; reflexivity || (split; reflexivity). Qed.

(** Without memory the ranks are not built, or were not needed. *)
Lemma no_rank_memory alloc_ok pool run c n :
  build_enum_rank alloc_ok pool run c n = build_enum_rank true pool run c n \/
  build_enum_rank alloc_ok pool run c n = Some None /\ alloc_ok = false.
Proof.
  destruct alloc_ok; [by left|]. unfold build_enum_rank. cbn zeta. destruct (match pool with Some _ => _ | None => _ end) as [m|]; [|by left].
  cbn [mbind option_bind negb]. destruct (_ <=? m); [by left|by right].
Qed.

(** The rows in order, one way or the other. *)
Lemma sort_result_ok n v x s (Q : list Z -> Prop) :
  env_ok n v -> (0 < n)%nat -> preorder_on (fun a => row n a) (cmp_of x) -> s <> NullIdx ->
  match s with Sorted_ idx => Q idx | _ => True end -> (forall idx, graded n (cmp_of x) idx -> Q idx) ->
  exists r, sort_result v x n s = Some r /\ (forall idx, r = Some idx -> Q idx) /\
    (e_alloc v 8 = true -> e_alloc v 9 = true -> is_Some r).
Proof.
  intros Hv Hn Hpre Hnn Hs Hg. unfold sort_result. destruct s as [idx| |]; [| |by destruct (Hnn eq_refl)].
  { destruct (e_alloc v 8); [|by exists None]. exists (Some idx). split; [done|]. split; [by intros ? [= <-]|by eexists]. }
  destruct (sort_fallback_ok n x Hpre (e_pool v) (e_tasks v)) as (l & Hl & Hgl); [apply ev_tasks with n; done|done|].
  destruct (fallback_memory x (e_pool v) (e_tasks v) (e_alloc v 9) n) as [E | [-> E]]; rewrite ?E, ?Hl; cbn [mbind option_bind].
  - destruct (e_alloc v 8); cbn [negb]; [|by exists None]. exists (Some l). split; [reflexivity|]. split; [|by eexists].
    intros idx [= <-]. by apply Hg.
  - exists None. split; [reflexivity|]. by split.
Qed.

Lemma backwards_lookup n (i : nat) : (i < n)%nat -> backwards n !! i = Some (Z.of_nat n - 1 - i).
Proof. intros Hi. rewrite list_lookup_fmap, lookup_seqZ_lt by lia. cbn. f_equal. Qed.

Lemma backwards_length n : length (backwards n) = n.
Proof. rewrite length_fmap, length_seqZ. lia. Qed.

Lemma backwards_perm n : backwards n ≡ₚ seqZ 0 n.
Proof.
  assert (backwards n = reverse (seqZ 0 n)) as ->; [|apply reverse_Permutation].
  apply list_eq. intros i. destruct (decide (i < n)%nat) as [Hi|Hi].
  - rewrite backwards_lookup, reverse_lookup, length_seqZ, lookup_seqZ_lt by (rewrite ?length_seqZ; lia). f_equal. lia.
  - rewrite !lookup_ge_None_2; [done|rewrite length_reverse, length_seqZ; lia|rewrite backwards_length; lia].
Qed.

Lemma backwards_sorted (n : nat) (R : relation Z) : (forall a b, row n a -> row n b -> a < b -> R b a) -> StronglySorted R (backwards n).
Proof.
  intros HR. assert (H : StronglySorted (fun a b => row n a /\ row n b /\ b < a) (backwards n)).
  { apply Sorted_StronglySorted; [intros x y z; lia|].
    assert (H : forall (m : nat) s, 0 <= s -> s + m = n -> Sorted (fun a b => row n a /\ row n b /\ b < a) ((fun i => Z.of_nat n - 1 - i) <$> seqZ s m)).
    { induction m as [|m IH]; intros s Hs Hm; [constructor|]. rewrite seqZ_cons by lia. cbn [fmap list_fmap].
      rewrite Nat2Z.inj_succ, Z.pred_succ. specialize (IH (Z.succ s) ltac:(lia) ltac:(lia)). constructor; [done|].
      destruct m as [|m]; [constructor|]. rewrite seqZ_cons by lia. constructor. lia. }
    apply (H n 0); lia. }
  eapply StronglySorted_weaken; [|exact H]. intros a b (Ha & Hb & Hlt). by apply HR.
Qed.

(** Either way the rows never fall. *)
Lemma ordered_sorted (n : nat) cmp idx :
  preorder_on (fun a => row n a) cmp -> ordered n cmp idx -> idx ≡ₚ seqZ 0 n /\ StronglySorted (fun a b => cmp a b <= 0) idx.
Proof.
  intros Hpre [[Hp Hss]|[-> Hback]]; (split; [done || apply backwards_perm|]).
  - eapply StronglySorted_weaken; [|exact Hss]. intros a b (_ & _ & ?). lia.
  - apply backwards_sorted. intros a b Ha Hb Hab. specialize (Hback a b Ha Hb Hab). pose proof (pre_sgn _ _ a b Hpre Ha Hb). lia.
Qed.

(** Rows in the order of their keys never fall, where the keys refine the
    comparator. *)
Lemma refined_sorted (n : nat) (key : Z -> Z) (cmp : Z -> Z -> Z) idx :
  (forall a b, row n a -> row n b -> z_cmp (key a) (key b) = Z.sgn (cmp a b) \/ cmp a b = 0) ->
  ordered n (fun a b => z_cmp (key a) (key b)) idx -> idx ≡ₚ seqZ 0 n /\ StronglySorted (fun a b => cmp a b <= 0) idx.
Proof.
  intros Hr Ho. destruct (ordered_sorted n _ idx (pre_weaken _ (fun a => row n a) _ (fun _ _ => I) (pre_map key _ _ pre_z)) Ho) as [Hp Hss].
  split; [done|]. eapply StronglySorted_weaken_in; [|exact Hss]. intros a b Ha Hb Hle. rewrite Hp in Ha, Hb. apply elem_of_seqZ in Ha, Hb.
  destruct (Hr a b) as [E|E]; [lia..| |lia]. cbn beta in Hle. rewrite E in Hle. destruct (Z.sgn_spec (cmp a b)); lia.
Qed.

Section column.
Context (n : nat) (v : env) (Hv : env_ok n v) (Hn : n < 2 ^ 32) (H0 : (0 < n)%nat).
Context (c : col) (desc nf : bool) (Hs : col_sortable n c desc nf).
Abbreviation cmp := (key_cmp c desc nf).

(** The result: in order, and stably so but for zeros of different signs. *)
Definition in_order (idx : list Z) : Prop :=
  (idx ≡ₚ seqZ 0 n /\ StronglySorted (fun a b => cmp a b <= 0) idx) /\ (one_zero n c -> ordered n cmp idx).

Lemma graded_in_order idx : graded n cmp idx -> in_order idx.
Proof using Hs.
  intros Hg. assert (Ho : ordered n cmp idx) by by left. split; [|done].
  by apply ordered_sorted; [apply key_cmp_pre, (cs_col _ _ _ _ Hs)|].
Qed.

Section radix.
Context (H64 : (64 < n)%nat).

Lemma sortable_enc rank : encodable (c_type c) = true -> (c_type c = RAY_SYM -> rank_ok c rank) -> enc_ok c rank.
Proof using Hs H64.
  intros Ht Hr. destruct (cs_radix _ _ _ _ Hs H64) as [Hstr He _ Hd]. split; [done..|]. intros Hsym. destruct (Hd Hsym). auto.
Qed.

Lemma sortable_fits : null_fits c desc nf.
Proof using Hs H64.
  intros Ht Hn'. destruct (rr_nulls _ _ _ (cs_radix _ _ _ _ Hs H64)) as [|[Hi _]]; [by rewrite Ht, orb_true_r|done..|].
  revert Hi Ht. by destruct (c_type c).
Qed.

Lemma sortable_tie a b : row n a -> row n b -> null_tie c desc nf a b = false.
Proof using Hs H64.
  intros Ha Hb. apply not_true_iff_false. unfold null_tie.
  intros [[[Hi Hnf%eqb_prop]%andb_true_iff Hna]%andb_true_iff Hw%Z.eqb_eq]%andb_true_iff.
  assert (Hnul : c_nulls c = true).
  { apply not_false_iff_true. intros E. unfold null_at, ray_vec_is_null in Hna. rewrite E in Hna. clear -Hi Hna. revert Hi Hna.
    destruct (_ || _); [done|]. by destruct (c_type c). }
  destruct (rr_nulls _ _ _ (cs_radix _ _ _ _ Hs H64)) as [E|[_ Hno]]; [by rewrite Hi|done|subst nf; by destruct desc|].
  apply Hno. rewrite <- Hw. apply (word_at_ok c n b); [|done]. pose proof (ok_len _ _ (cs_col _ _ _ _ Hs)) as Hl. unfold c_len in Hl.
  clear -Hi Hl. revert Hi Hl. by destruct (c_type c).
Qed.

(** Keys that compare as the rows, but for zeros of different signs. *)
Definition refines (key : Z -> Z) : Prop := forall a b, row n a -> row n b ->
  z_cmp (key a) (key b) = Z.sgn (cmp a b) \/ opposite_zeros c a b = true /\ cmp a b = 0.

Lemma key_refines rank : enc_ok c rank -> refines (key_of c desc nf rank).
Proof using Hs H64.
  intros He a b Ha Hb. destruct (key_of_ok n c (cs_col _ _ _ _ Hs) desc nf rank He) as (_ & Hk & _). specialize (Hk a b Ha Hb).
  unfold keys_agree in Hk. rewrite !sortable_tie in Hk by done. cbn [orb] in Hk. destruct (opposite_zeros c a b); [right; tauto|by left].
Qed.

Lemma keys_in_order key s : refines key -> keys_done (key <$> seqZ 0 n) s ->
  match s with Sorted_ idx => in_order idx | _ => True end.
Proof using Hs.
  intros Hr Hd. pose proof (rows_in_order n key (fun a b => z_cmp (key a) (key b)) s) as Hfine.
  destruct s as [idx| |]; [|done..]. cbn beta iota in Hfine. split.
  - apply (refined_sorted n key); [intros a b Ha Hb; destruct (Hr a b Ha Hb) as [|[_ ?]]; auto|].
    apply Hfine; [|done]. intros a b _ _. unfold z_cmp. by repeat case_match.
  - intros Hz. apply (rows_in_order n key cmp (Sorted_ idx)); [|done]. intros a b Ha Hb.
    destruct (Hr a b Ha Hb) as [|[E _]]; [done|]. by rewrite Hz in E.
Qed.

(** With the memory for them the keys of the rows are sorted. *)
Lemma sort_single_key_eq :
  encodable (c_type c) = true ->
  exists keys pool, (pool = e_pool v \/ pool = None) /\ length keys = n /\ Forall (fun k => word k) keys /\
    (1 <= key_nbytes_max c <= 8)%nat /\ agree_above (key_nbytes_max c) keys /\
    (exists key, keys = key <$> seqZ 0 n /\ refines key) /\
    (sort_single_key v c desc nf n = sort_keys v pool (rows_of_keys keys) (key_nbytes_max c) \/
     sort_single_key v c desc nf n = Some NotSorted /\ e_alloc v 5 && e_alloc v 6 = false).
Proof using Hv H0 Hs H64.
  intros Ht. unfold sort_single_key. pose proof (cs_col _ _ _ _ Hs) as Hc.
  assert (Hrank : exists r, (if bool_decide (c_type c = RAY_SYM) then build_enum_rank true (e_pool v) (e_runs v 3) c n
      else Some (Some [])) = Some (Some r) /\ enc_ok c r).
  { case_bool_decide as Et; [|eexists; split; [done|]; by apply sortable_enc].
    pose proof (cs_len _ _ _ _ Hs) as Hl. unfold c_len in Hl. rewrite Et in Hl.
    destruct (rr_dom _ _ _ (cs_radix _ _ _ _ Hs H64) Et) as [Hnd Hdl]. pose proof (ok_sym _ _ Hc Et) as Hids.
    assert (Hpos : (0 < length (c_dom c))%nat).
    { destruct (c_data c) as [|x l]; [simpl in Hl; lia|]. apply Forall_cons in Hids as [Hx _]. lia. }
    destruct (build_enum_rank_ok (e_pool v) (e_runs v 3) c n) as (rank & Hr & Hrk);
      [intros nw Hp; by apply env_run|done|done|done|done|].
    exists rank. split; [done|]. by apply sortable_enc. }
  destruct Hrank as (rank & Hr & Henc).
  set (pool := if SMALL_POOL_THRESHOLD <=? n then e_pool v else None).
  assert (Hpool : pool = e_pool v \/ pool = None) by (unfold pool; bif; auto).
  destruct (key_of_ok n c Hc desc nf rank Henc) as (Hk & _ & Hdiv). pose proof (key_refines rank Henc) as Hcmp.
  assert (Hin : forall k, k ∈ key_of c desc nf rank <$> seqZ 0 n -> exists a, k = key_of c desc nf rank a /\ row n a).
  { intros k (a & -> & Ha%elem_of_seqZ)%list_elem_of_fmap. exists a. split; [done|lia]. }
  exists (key_of c desc nf rank <$> seqZ 0 n), pool. split_and!; [done| | | | | | |].
  - rewrite length_fmap, length_seqZ. lia.
  - apply Forall_forall. intros k Hk'. destruct (Hin k Hk') as (a & -> & Ha). by apply Hk.
  - unfold key_nbytes_max. destruct (c_nulls c && _); cbn [andb]; [|destruct (c_type c); cbn; lia].
    destruct (_ <? 8)%nat eqn:E; bprop; destruct (c_type c); cbn in *; lia.
  - unfold key_nbytes_max. destruct (c_nulls c && _); cbn [andb]; [|destruct (c_type c); cbn; lia].
    destruct (_ <? 8)%nat eqn:E; bprop; destruct (c_type c); cbn in *; lia.
  - intros x y Hx Hy. destruct (Hin x Hx) as (a & -> & Ha), (Hin y Hy) as (b & -> & Hb). by apply (Hdiv sortable_fits).
  - by eexists.
  - destruct (no_rank_memory (e_alloc v 5) (e_pool v) (e_runs v 3) c n) as [E | [E1 E2]].
    + rewrite E, Hr. cbn [mbind option_bind]. destruct (e_alloc v 6); cbn [negb]; [left|right; by rewrite andb_false_r].
      fold pool. rewrite (encode_rows_ok n _ (key_of c desc nf rank)); [|intros a Ha; by apply Hk|intros nw Hp; apply env_run; [done|done|destruct Hpool; congruence]|apply length_replicate].
      cbn [mbind option_bind]. by rewrite keyed_rows.
    + case_bool_decide as Et; [rewrite E1; right; by rewrite E2|]. injection Hr as <-. cbn [mbind option_bind].
      destruct (e_alloc v 6); cbn [negb]; [left|right; by rewrite andb_false_r].
      fold pool. rewrite (encode_rows_ok n _ (key_of c desc nf [])); [|intros a Ha; by apply Hk|intros nw Hp; apply env_run; [done|done|destruct Hpool; congruence]|apply length_replicate].
      cbn [mbind option_bind]. by rewrite keyed_rows.
Qed.

Lemma sort_single_key_ok :
  encodable (c_type c) = true ->
  exists s, sort_single_key v c desc nf n = Some s /\ (e_alloc v 4 = true -> s <> NullIdx) /\
    match s with Sorted_ idx => in_order idx | _ => True end.
Proof using Hv Hn H0 Hs H64.
  intros Ht. destruct (sort_single_key_eq Ht) as (keys & pool & Hpool & Hl & Hw & Hmax & Hag & (key & -> & Hcmp) & E).
  destruct E as [-> | [-> _]]; [|by exists NotSorted].
  destruct (sort_keys_ok n v Hv Hn pool Hpool (key <$> seqZ 0 n) Hl Hw (key_nbytes_max c)) as (s & -> & Hd & Hnn); [done..|].
  exists s. split_and!; [done|done|]. by apply (keys_in_order key).
Qed.
End radix.

(** The comparator of the fallback. *)
Lemma fallback_cmp descs :
  default false descs = desc -> let x := SortCtx [Some c] (option_map (fun d => [d]) descs) (Some [nf]) in
  forall a b, row n a -> row n b -> cmp_of x a b = cmp a b.
Proof using Hs.
  intros Hd x a b Ha Hb. pose proof (cs_col _ _ _ _ Hs) as Hc. unfold cmp_of, sort_cmp, x. cbn [x_vecs cmp_keys x_desc x_nulls_first].
  replace (flag (option_map (fun d => [d]) descs) 0 false) with (Some desc) by (destruct descs; cbn in *; by rewrite <- Hd).
  cbn [mbind option_bind flag lookup list_lookup]. rewrite (cmp_key_ok n c Hc) by done. cbn [mbind option_bind].
  destruct (cmp a b =? 0) eqn:E; bprop; cbn [negb default]; [by rewrite E|done].
Qed.

Lemma sort_column_ok descs nulls_first :
  default false descs = desc -> default (negb desc) nulls_first = nf -> e_alloc v 4 = true ->
  exists r, sort_indices_1 v c descs nulls_first n = Some r /\
    (forall idx, r = Some idx -> in_order idx /\ ((n <= 64)%nat -> graded n cmp idx)) /\
    (e_alloc v 7 = true -> e_alloc v 8 = true -> e_alloc v 9 = true -> is_Some r).
Proof using Hv Hn H0 Hs.
  intros Hd Hnf H4. unfold sort_indices_1. rewrite (proj2 (Nat.eqb_neq n 0)) by lia.
  destruct (e_alloc v 7); cbn [negb]; [|by exists None]. rewrite Hd, Hnf.
  assert (Hrad : exists s, (if (64 <? n)%nat && can_radix c then sort_single_key v c desc nf n else Some NotSorted) = Some s /\
      s <> NullIdx /\ match s with Sorted_ idx => in_order idx /\ ((n <= 64)%nat -> graded n cmp idx) | _ => True end).
  { destruct (_ && _) eqn:E; [|by exists NotSorted]. bprop. destruct (sort_single_key_ok H) as (s & -> & Hnn & Hso); [done|].
    exists s. split_and!; [done|auto|]. destruct s; [|done..]. split; [done|lia]. }
  destruct Hrad as (s & -> & Hnn & Hso). cbn [mbind option_bind].
  set (x := SortCtx _ _ _). pose proof (fallback_cmp descs Hd) as Hx. fold x in Hx. cbn zeta in Hx.
  destruct (sort_result_ok n v x s (fun idx => in_order idx /\ ((n <= 64)%nat -> graded n cmp idx))) as (r & -> & Ho & Hsome);
    [done|done| |done|done| |by exists r].
  - eapply pre_ext; [|apply (key_cmp_pre n c (cs_col _ _ _ _ Hs) desc nf)]. intros a b Ha Hb. cbn beta. by rewrite Hx.
  - intros idx Hg. assert (graded n cmp idx) by by apply (graded_ext n (cmp_of x)). split; [by apply graded_in_order|done].
Qed.

(** Rows that never rise, of a narrow type, are reversed. *)
Lemma sort_falling_ok descs nulls_first :
  default false descs = desc -> default (negb desc) nulls_first = nf -> (forall k, e_alloc v k = true) ->
  RADIX_SORT_THRESHOLD < n -> encodable (c_type c) = true -> (key_nbytes_max c <= 3)%nat ->
  (forall a b, row n a -> row n b -> a < b -> 0 <= cmp a b) -> (exists a b, row n a /\ row n b /\ 0 < cmp a b) ->
  sort_indices_1 v c descs nulls_first n = Some (Some (backwards n)).
Proof using Hv Hn H0 Hs.
  intros Hd Hnf Hal Hbig Ht Hmax Hfall (a & b & Ha & Hb & Hlt). unfold sort_indices_1. rewrite (proj2 (Nat.eqb_neq n 0)) by lia.
  rewrite !Hal, Hd, Hnf. cbn [negb]. unfold can_radix. unfold RADIX_SORT_THRESHOLD in Hbig.
  rewrite Ht, (proj2 (Nat.ltb_lt 64 n)) by lia. cbn [andb].
  destruct (sort_single_key_eq ltac:(lia) Ht) as (keys & pool & Hpool & Hl & Hw & Hm & Hag & (key & -> & Href) & E).
  destruct E as [-> | [_ E]]; [|by rewrite !Hal in E].
  assert (Hcmp : forall i j, row n i -> row n j -> z_cmp (key i) (key j) = Z.sgn (cmp i j)).
  { intros i j Hi Hj. destruct (Href i j Hi Hj) as [|[Ez _]]; [done|]. exfalso. clear -Hmax Ez.
    assert (Hf : is_f64 (c_type c) = true) by (unfold opposite_zeros in Ez; by destruct (is_f64 _)). apply Nat.leb_le in Hmax.
    clear Ez. revert Hf Hmax. unfold key_nbytes_max. by destruct (c_type c), (c_nulls c). }
  assert (Hk : forall i, row n i -> (key <$> seqZ 0 n) !! Z.to_nat i = Some (key i)).
  { intros i Hi. rewrite list_lookup_fmap, lookup_seqZ_lt by lia. cbn. f_equal. f_equal. lia. }
  assert (Hz : forall i j, row n i -> row n j -> 0 <= cmp i j -> key j <= key i).
  { intros i j Hi Hj Hc. specialize (Hcmp i j Hi Hj). unfold z_cmp in Hcmp.
    destruct (Z.sgn_spec (cmp i j)); repeat case_match; bprop; lia. }
  rewrite (sort_keys_falling n v Hv Hn pool Hpool (key <$> seqZ 0 n) Hl Hw (key_nbytes_max c) (key b) (key a)).
  - cbn [mbind option_bind sort_result]. by rewrite Hal.
  - exact Hbig.
  - lia.
  - exact Hag.
  - apply Hal.
  - apply StronglySorted_of_lookup. intros i j p q Hi Hj Hij.
    assert (Hin : forall (m : nat) z, (key <$> seqZ 0 n) !! m = Some z -> z = key m /\ row n m).
    { intros m z Hm'. pose proof (lookup_lt_Some _ _ _ Hm') as Hlm. rewrite Hl in Hlm.
      rewrite <- (Nat2Z.id m), Hk in Hm' by lia. injection Hm' as <-. split; [done|lia]. }
    destruct (Hin i p Hi) as [-> Hri], (Hin j q Hj) as [-> Hrj]. specialize (Hz i j Hri Hrj (Hfall i j Hri Hrj ltac:(lia))). lia.
  - by eapply list_elem_of_lookup_2, Hk.
  - by eapply list_elem_of_lookup_2, Hk.
  - pose proof (Hz a b Ha Hb ltac:(lia)). specialize (Hcmp a b Ha Hb). unfold z_cmp in Hcmp.
    destruct (Z.sgn_spec (cmp a b)); repeat case_match; bprop; lia.
Qed.
End column.

(** C4. Grading one column ([sort_indices_ex] with one key), for any number of
    rows up to [2^32 - 1] that fits the ring, any direction, pool, schedule and
    failing allocations but that of the tables of the radix passes
    ([e_alloc v 4]).  Up to 64 rows the column may be any well-formed one ([col_ok]).
    Above that it is not of pooled strings (their sort is not modelled), its elements are in the
    range of its type and its domain is of distinct strings; and if it is of
    32 or 64-bit integers and flagged as having nulls, the nulls are at the end
    they are by default, or it is of 64-bit integers without the largest one:
    otherwise the keys of nulls and of the largest value meet (line 948).
    Then there is an error only when memory for the result or the fallback is
    missing, and a result is a permutation of the rows along which [sort_cmp]
    never goes down.  Up to 64 rows it is the stable one, ties in row order.
    Above, it is the stable one whenever some earlier row is before a later
    one and the column has not zeros of both signs: without the first the
    packed path may reverse the rows, without the second the keys put the
    negative zeros first (line 988). *)
Theorem sort_indices_1_sorts n v c descs nulls_first :
  env_ok n v -> n < 2 ^ 32 -> (0 < n)%nat ->
  let desc := default false descs in
  let nf := default (negb desc) nulls_first in
  let cmp := cmp_of (SortCtx [Some c] (Some [desc]) (Some [nf])) in
  col_sortable n c desc nf -> e_alloc v 4 = true ->
  exists r, sort_indices_1 v c descs nulls_first n = Some r /\
    (e_alloc v 7 = true -> e_alloc v 8 = true -> e_alloc v 9 = true -> is_Some r) /\
    forall idx, r = Some idx ->
      idx ≡ₚ seqZ 0 n /\
      StronglySorted (fun a b => cmp a b <= 0) idx /\
      ((n <= 64)%nat -> graded n cmp idx) /\
      (one_zero n c -> (exists a b, row n a /\ row n b /\ a < b /\ cmp a b < 0) -> graded n cmp idx).
Proof.
  intros Hv Hn H0 desc nf cmp Hs H4.
  destruct (sort_column_ok n v Hv Hn H0 c desc nf Hs descs nulls_first eq_refl eq_refl H4) as (r & Hr & Ho & Hsome).
  exists r. split_and!; [done|done|]. intros idx Hi. destruct (Ho idx Hi) as [[[Hp Hss] Hst] Hsmall].
  assert (Hcmp : forall a b, row n a -> row n b -> cmp a b = key_cmp c desc nf a b).
  { intros a b Ha Hb. by apply (fallback_cmp n c desc nf Hs (Some desc)). }
  assert (Hback : graded n (key_cmp c desc nf) idx -> graded n cmp idx) by (intros Hg; apply (graded_ext n (key_cmp c desc nf)); [intros; by rewrite Hcmp|done]).
  split_and!; [done| |auto|].
  - apply (StronglySorted_weaken_in (fun a b => key_cmp c desc nf a b <= 0)); [|done]. intros a b Ha Hb Hle.
    rewrite Hp in Ha, Hb. apply elem_of_seqZ in Ha, Hb. rewrite Hcmp by lia. done.
  - intros Hz (a & b & Ha & Hb & Hab & Hlt). destruct (Hst Hz) as [Hg|[-> Hfall]]; [auto|].
    specialize (Hfall a b Ha Hb Hab). rewrite Hcmp in Hlt by lia. lia.
Qed.

(** No pool, and all the memory. *)
Definition no_pool_env : env := Env None 1 (fun _ => []) (@concat _) (@concat _) (seq 0 256) (seq 0) (fun _ => true).

Lemma no_pool_env_ok (n : nat) : n <= TASK_GRAIN -> env_ok n no_pool_env.
Proof. intros Hn. split; cbn; [lia|done|by intros ws|by intros ws|done|done]. Qed.

(** Seventy bytes descending, and zeros of both signs among seventy doubles. *)
Lemma sort_indices_1_sorts_witness :
  let c := Col RAY_U8 false ((fun i => i * 7 mod 35) <$> seqZ 0 70) [] [] in
  let z := Col RAY_F64 false ((fun i => if i mod 2 =? 0 then 0 else 2 ^ 63) <$> seqZ 0 70) [] [] in
  (exists idx, sort_indices_1 no_pool_env c (Some true) None 70 = Some (Some idx) /\
    take 4 idx = [4; 9; 14; 19] /\ idx ≡ₚ seqZ 0 70) /\
  exists idx, sort_indices_1 no_pool_env z None None 70 = Some (Some idx) /\ take 4 idx = [1; 3; 5; 7] /\
    StronglySorted (fun a b => cmp_of (SortCtx [Some z] (Some [false]) (Some [true])) a b <= 0) idx.
Proof.
  intros c z. split.
  - destruct (sort_indices_1_sorts 70 no_pool_env c (Some true) None) as (r & Hr & Hsome & Hr').
    + apply no_pool_env_ok. by vm_compute.
    + lia.
    + lia.
    + split; [split; done|done|]. intros _. split; [done| |done|done].
      assert (Hel : Forall (fun x => 0 <= x < 256) (c_data c)); [|exact Hel]. unfold c. cbn [c_data].
      apply Forall_forall. intros x (i & -> & _)%list_elem_of_fmap. pose proof (Z.mod_pos_bound (i * 7) 35 ltac:(lia)). lia.
    + done.
    + destruct (Hsome eq_refl eq_refl eq_refl) as [idx ->]. exists idx. split; [exact Hr|]. split; [|exact (proj1 (Hr' idx eq_refl))].
      vm_compute in Hr. injection Hr as <-. reflexivity.
  - destruct (sort_indices_1_sorts 70 no_pool_env z None None) as (r & Hr & Hsome & Hr').
    + apply no_pool_env_ok. by vm_compute.
    + lia.
    + lia.
    + assert (Hz : forall x, x ∈ c_data z -> x = 0 \/ x = 2 ^ 63).
      { intros x (i & -> & _)%list_elem_of_fmap. destruct (i mod 2 =? 0); auto. }
      split; [|done|].
      * split; try done. intros _ _. apply Forall_forall. intros x Hx. by destruct (Hz x Hx) as [-> | ->].
      * intros _. split; [done| |done|done]. assert (Hel : Forall (fun x => 0 <= x < 2 ^ 64) (c_data z)); [|exact Hel].
        apply Forall_forall. intros x Hx. destruct (Hz x Hx); lia.
    + done.
    + destruct (Hsome eq_refl eq_refl eq_refl) as [idx ->]. exists idx. split; [exact Hr|].
      split; [|exact (proj1 (proj2 (Hr' idx eq_refl)))]. vm_compute in Hr. injection Hr as <-. reflexivity.
Defined.

(** C31. More than 4096 rows of a narrow type that never rise, and do fall, are
    returned backwards, equal rows included: with two equal rows this is not
    the stable order that every other path gives, though "q's grade must be"
    stable (the comment of [key_lt]). *)
Theorem packed_path_reverses_ties n v c descs nulls_first :
  env_ok n v -> (forall k, e_alloc v k = true) -> RADIX_SORT_THRESHOLD < n < 2 ^ 32 ->
  let desc := default false descs in
  let nf := default (negb desc) nulls_first in
  let cmp := cmp_of (SortCtx [Some c] (Some [desc]) (Some [nf])) in
  col_sortable n c desc nf -> encodable (c_type c) = true -> (key_nbytes_max c <= 3)%nat ->
  (forall a b, row n a -> row n b -> a < b -> 0 <= cmp a b) -> (exists a b, row n a /\ row n b /\ 0 < cmp a b) ->
  sort_indices_1 v c descs nulls_first n = Some (Some (backwards n)) /\
  ((exists a b, row n a /\ row n b /\ a < b /\ cmp a b = 0) -> ~ graded n cmp (backwards n)).
Proof.
  intros Hv Hal Hn desc nf cmp Hs Ht Hmax Hfall Hlt. assert (0 < n) by (unfold RADIX_SORT_THRESHOLD in Hn; lia).
  assert (Hcmp : forall a b, row n a -> row n b -> cmp a b = key_cmp c desc nf a b).
  { intros a b Ha Hb. by apply (fallback_cmp n c desc nf Hs (Some desc)). }
  split.
  - apply (sort_falling_ok n v Hv ltac:(lia) ltac:(lia) c desc nf Hs descs nulls_first eq_refl eq_refl Hal (proj1 Hn) Ht Hmax).
    + intros a b Ha Hb Hab. rewrite <- Hcmp by lia. auto.
    + destruct Hlt as (a & b & Ha & Hb & Hlt). exists a, b. rewrite <- Hcmp by lia. auto.
  - intros (a & b & Ha & Hb & Hab & Heq) [_ Hss].
    pose proof (StronglySorted_lookup_lt _ _ _ _ _ _ Hss
      (backwards_lookup n (n - 1 - Z.to_nat b) ltac:(lia)) (backwards_lookup n (n - 1 - Z.to_nat a) ltac:(lia)) ltac:(lia)) as (_ & _ & Hlt').
    replace (Z.of_nat n - 1 - Z.of_nat (n - 1 - Z.to_nat b)) with b in Hlt' by lia.
    replace (Z.of_nat n - 1 - Z.of_nat (n - 1 - Z.to_nat a)) with a in Hlt' by lia.
    pose proof (pre_sgn _ _ a b (key_cmp_pre n c (cs_col _ _ _ _ Hs) desc nf) Ha Hb).
    rewrite (Hcmp a b) in Heq by lia. rewrite (Hcmp b a) in Hlt' by lia. lia.
Qed.

(** A byte column of two thousand ones and then zeros. *)
Definition falling : col := Col RAY_U8 false (replicate 2000 1 ++ replicate 2097 0) [] [].

Lemma falling_row i : row 4097%nat i -> at_row (c_data falling) i = Some (if i <? 2000 then 1 else 0).
Proof.
  intros Hi. unfold at_row, falling. cbn [c_data]. rewrite (proj2 (Z.ltb_ge i 0)) by lia. bif.
  - rewrite lookup_app_l by (rewrite length_replicate; lia). apply lookup_replicate_2. lia.
  - rewrite lookup_app_r, length_replicate by (rewrite length_replicate; lia). apply lookup_replicate_2. lia.
Qed.

Lemma falling_cmp a b : row 4097%nat a -> row 4097%nat b ->
  cmp_of (SortCtx [Some falling] (Some [false]) (Some [true])) a b = (if a <? 2000 then 1 else 0) - (if b <? 2000 then 1 else 0).
Proof.
  intros Ha Hb. unfold cmp_of, sort_cmp. cbn [x_vecs cmp_keys x_desc x_nulls_first flag lookup list_lookup mbind option_bind].
  unfold cmp_key. assert (Hn : forall i, ray_vec_is_null falling i = Some false) by (intros i; unfold ray_vec_is_null; by destruct (_ || _)).
  rewrite !Hn.
  cbn [mbind option_bind orb]. change (cmp_values falling a b) with (x ← at_row (c_data falling) a; y ← at_row (c_data falling) b; Some (z_cmp x y)).
  rewrite !falling_row by done. cbn [mbind option_bind]. by destruct (a <? 2000), (b <? 2000).
Qed.

Lemma packed_path_reverses_ties_witness :
  sort_indices_1 no_pool_env falling None None 4097 = Some (Some (backwards 4097)) /\
  ~ graded 4097%nat (cmp_of (SortCtx [Some falling] (Some [false]) (Some [true]))) (backwards 4097).
Proof.
  destruct (packed_path_reverses_ties 4097 no_pool_env falling None None) as [H1 H2].
  - apply no_pool_env_ok. by vm_compute.
  - done.
  - unfold RADIX_SORT_THRESHOLD. lia.
  - split; [split; done| |].
    + unfold c_len, falling. cbn [c_type c_data]. by rewrite length_app, !length_replicate.
    + intros _. split; [done| |done|done]. assert (Hel : Forall (fun x => 0 <= x < 256) (c_data falling)); [|exact Hel]. unfold falling. cbn [c_data].
      apply Forall_app. split; apply Forall_replicate; lia.
  - done.
  - cbn. lia.
  - cbn [default negb]. intros a b Ha Hb Hab. rewrite falling_cmp by done. repeat case_match; bprop; lia.
  - exists 0, 2000. split; [lia|]. split; [lia|]. cbn [default negb]. rewrite falling_cmp by lia. done.
  - split; [exact H1|]. apply H2. exists 0, 1. split; [lia|]. split; [lia|]. split; [lia|]. cbn [default negb]. by rewrite falling_cmp by lia.
Defined.
