(* ===== verification/SortPack.v ===== *)
(** * Packing the keys of several columns ([src/ops/sort.c])

    The value of each column of a row, the range of the values over the rows,
    and the composite key: each value above its minimum in the bits that its
    range needs, the first column in the highest bits. *)
From Stdlib Require Import ZArith Lia.
From stdpp Require Import sorting.
From S2P Require Import Prelude WireVal SortArr SortKey Pool Radix RadixSort PackedSort MsdSort SortCol SortOrd SortSym SortEnc.

Definition MK_PRESCAN_MAX_KEYS : nat := 8.

(** ** The values of a key *)
(** A column, with the ranks of its symbols. *)
Definition mkey : Type := col * option (list Z).

(** A key the prescan has a case for. *)
Definition has_values (key : mkey) : bool :=
  let t := c_type key.1 in
  match key.2 with
  | Some _ => true
  | None => is_i64 t || is_f64 t || is_i32 t || bool_decide (t = RAY_I16) || is_byte t
  end.

(** The value of a row, an [int64_t]. *)
Definition key_val (key : mkey) (i : Z) : option Z :=
  let '(c, rank) := key in
  match rank with
  | Some rank => raw ← at_row (c_data c) i; at_row rank (u32 raw)
  | None =>
      if is_f64 (c_type c) then bits ← at_row (c_data c) i; Some (i64 (Z.lxor bits (f64_mask bits)))
      else if has_values key then at_row (c_data c) i
      else Some 0
  end.

(** ** The range of the values *)
Definition min_max (st : Z * Z) (v : Z) : Z * Z := (if v <? st.1 then v else st.1, if st.2 <? v then v else st.2).

Definition scan_key (key : mkey) (start stop : nat) (st : Z * Z) : option (Z * Z) :=
  if has_values key then
    fold_opt (fun st i => v ← key_val key (Z.of_nat i); Some (min_max st v)) st (seq start (stop - start))
  else Some st.

Definition no_range : Z * Z := (INT64_MAX, INT64_MIN).

(** One task: the ranges of all keys over its rows. *)
Definition mk_prescan_fn (keys : list mkey) (start stop : nat) (sts : list (Z * Z)) : option (list (Z * Z)) :=
  mapM (fun p => scan_key p.1 start stop p.2) (zip keys sts).

(** The ranges of key [k] that the workers found, as one. *)
Definition merge_ranges (pw : list (list (Z * Z))) (k : nat) : option (Z * Z) :=
  fold_opt (fun st w =>
    m ← w !! k; Some (if m.1 <? st.1 then m.1 else st.1, if st.2 <? m.2 then m.2 else st.2)) no_range pw.

(** The minimum and maximum of every key.  The arrays of the workers are on the
    stack when they are small, and not tested for null when they are not. *)
Definition key_ranges (alloc_ok : bool) (pool : option nat) (run : list (nat * (Z * Z))) (keys : list mkey) (nrows : nat)
    : option (list (Z * Z)) :=
  match (if (length keys <=? MK_PRESCAN_MAX_KEYS)%nat then pool else None) with
  | Some nw =>
      if (512 <? nw * length keys)%nat && negb alloc_ok then None
      else
        pw ← per_worker (mk_prescan_fn keys) (replicate nw (replicate (length keys) no_range)) run;
        mapM (merge_ranges pw) (seq 0 (length keys))
  | None => mapM (fun key => scan_key key 0 nrows no_range) keys
  end.

(** ** The bits of a key *)
(** [while (((uint64_t)1 << bits) <= range && bits < 64) bits++]. *)
Fixpoint bits_loop (fuel : nat) (range bits : Z) : option Z :=
  match fuel with
  | O => None
  | S fuel => if (2 ^ bits <=? range) && (bits <? 64) then bits_loop fuel range (bits + 1) else Some bits
  end.

Definition bits_of (range : Z) : option Z := bits_loop 64 range 1.
Definition range_of (st : Z * Z) : Z := u64 (st.2 - st.1).

Definition total_bits (bits : list Z) : Z := foldl (fun t b => u16 (t + b)) 0 bits.

(** The shifts, from the last key up, and the bits below them. *)
Fixpoint bit_shifts (bits : list Z) : list Z * Z :=
  match bits with
  | [] => ([], 0)
  | b :: bits => let '(shifts, accum) := bit_shifts bits in (accum :: shifts, u8 (accum + b))
  end.

(** [(total_bits + 7) / 8], and at least one. *)
Definition comp_nbytes (total : Z) : nat :=
  let nb := Z.to_nat ((total + 7) / 8) in if (nb <? 1)%nat then 1%nat else nb.

(** ** The composite key *)
Record key_part := Part { pt_key : mkey; pt_desc : bool; pt_min : Z; pt_range : Z; pt_shift : Z }.

Definition compose_row (parts : list key_part) (i : Z) : option Z :=
  fold_opt (fun composite p =>
    val ← key_val (pt_key p) i;
    let x := u64 (u64 val - u64 (pt_min p)) in
    let x := if pt_desc p then u64 (u64 (pt_range p) - x) else x in
    Some (Z.lor composite (u64 (Z.shiftl x (pt_shift p))))) 0 parts.

Fixpoint make_parts (keys : list mkey) (descs : list bool) (ranges : list (Z * Z)) (shifts : list Z) : list key_part :=
  match keys, descs, ranges, shifts with
  | key :: keys, d :: descs, r :: ranges, s :: shifts => Part key d r.1 (range_of r) s :: make_parts keys descs ranges shifts
  | _, _, _, _ => []
  end.

(** ** The value of a column, one direction *)
Section value.
Context (n : Z) (c : col) (Hc : col_ok n c) (desc nf : bool) (rank : list Z) (He : enc_ok c rank).
Definition mkey_of : mkey := (c, if bool_decide (c_type c = RAY_SYM) then Some rank else None).
Definition val_at (a : Z) : Z := default 0 (key_val mkey_of a).

(** The doubles of a column are all of one sign, and none is a nan. *)
Definition one_sign : Prop := is_f64 (c_type c) = true ->
  Forall (fun x => is_nan (f64 x) = false) (c_data c) /\
  (Forall (fun x => x < 2 ^ 63) (c_data c) \/ Forall (fun x => 2 ^ 63 <= x) (c_data c)).

Lemma data_len : n <= length (c_data c).
Proof using Hc He.
  pose proof (ok_len _ _ Hc) as Hl. pose proof (eo_type _ _ He) as Ht. clear -Hl Ht. revert Hl Ht. unfold c_len. by destruct (c_type c).
Qed.

Lemma word_in a : row n a ->
  at_row (c_data c) a = Some (word_at c a) /\ elem_ok (c_type c) (c_dom c) (word_at c a) /\ word_at c a ∈ c_data c.
Proof using Hc He. apply (data_row n c Hc rank He), data_len. Qed.

Lemma i64_in_range x : INT64_MIN <= i64 x <= INT64_MAX.
Proof using Type.
  unfold i64, sgn, INT64_MIN, INT64_MAX. pose proof (wrap_range 64 x ltac:(lia)). bif; lia.
Qed.

Lemma sym_rank a : c_type c = RAY_SYM -> row n a ->
  exists r, at_row rank (u32 (word_at c a)) = Some r /\ at_row rank (word_at c a) = Some r /\ 0 <= r < 2 ^ 31.
Proof using Hc He.
  intros Ht Ha. destruct (word_in a Ha) as (_ & _ & Hin). destruct (eo_dom _ _ He Ht) as (_ & Hdl & Hr).
  pose proof (ok_sym _ _ Hc Ht) as Hid. rewrite Forall_forall in Hid. specialize (Hid _ Hin).
  rewrite u32_small by lia. destruct (Hr _ _ Hin Hin) as (r & _ & Hra & _ & ? & _). by exists r.
Qed.

Lemma val_at_ok a : row n a -> key_val mkey_of a = Some (val_at a) /\ INT64_MIN <= val_at a <= INT64_MAX.
Proof using Hc He.
  intros Ha. destruct (word_in a Ha) as (Hw & Hel & _). pose proof (eo_type _ _ He) as Ht.
  assert (Hs : forall x, key_val mkey_of a = Some x -> INT64_MIN <= x <= INT64_MAX ->
    key_val mkey_of a = Some (val_at a) /\ INT64_MIN <= val_at a <= INT64_MAX) by (intros x Hx; unfold val_at; by rewrite Hx).
  unfold mkey_of in Hs |- *. case_bool_decide as Esym.
  - destruct (sym_rank a Esym Ha) as (r & Hr & _ & Hrr). apply (Hs r); [cbn [key_val]; rewrite Hw; cbn [mbind option_bind]; exact Hr|].
    unfold INT64_MIN, INT64_MAX. lia.
  - destruct (is_f64 (c_type c)) eqn:Ef.
    + eapply Hs; [cbn [key_val]; rewrite Ef, Hw; reflexivity|]. apply i64_in_range.
    + assert (Hv : has_values (c, None) = true).
      { unfold has_values, encodable in *. cbn [fst snd]. rewrite Ef, (bool_decide_eq_false_2 _ Esym) in Ht. rewrite Ef.
        revert Ht. by destruct (is_i64 _), (is_i32 _), (bool_decide _), (is_byte _). }
      apply (Hs (word_at c a)); [cbn [key_val]; rewrite Ef, Hv; exact Hw|].
      unfold elem_ok, encodable, INT64_MIN, INT64_MAX in *. rewrite Ef in Hel, Ht. rewrite (bool_decide_eq_false_2 _ Esym) in Ht.
      destruct (is_i64 _); [lia|]. destruct (is_i32 _); [lia|]. destruct (bool_decide _); [lia|]. destruct (is_byte _); [lia|done].
Qed.
(** The order of the values is that of the keys of one column. *)
Abbreviation K := (key_of c false true rank).

Lemma asc_key a x : row n a -> radix_encode_row c false true rank a = Some x -> K a = x.
Proof using Type. intros _ H. unfold key_of. by rewrite H. Qed.

Lemma z_cmp_mono (f g : Z -> Z) a b : (forall x y, (x = a \/ x = b) -> (y = a \/ y = b) -> g x < g y -> f x < f y) ->
  (g a = g b -> f a = f b) -> z_cmp (f a) (f b) = z_cmp (g a) (g b).
Proof using Type.
  intros Hlt Heq. unfold z_cmp. destruct (Z.lt_trichotomy (g a) (g b)) as [H|[H|H]].
  - pose proof (Hlt a b ltac:(auto) ltac:(auto) H). repeat case_match; bprop; lia.
  - rewrite (Heq H), H. repeat case_match; bprop; lia.
  - pose proof (Hlt b a ltac:(auto) ltac:(auto) H). repeat case_match; bprop; lia.
Qed.

Lemma sign_val x : 0 <= x < 2 ^ 64 -> i64 x = if x <? 2 ^ 63 then x else x - 2 ^ 64.
Proof using Type.
  intros Hx. unfold i64, sgn. rewrite wrap_small by lia. change (64 - 1) with 63. bif; lia.
Qed.

Lemma val_order_f64 a b : is_f64 (c_type c) = true -> one_sign -> row n a -> row n b -> z_cmp (val_at a) (val_at b) = z_cmp (K a) (K b).
Proof using Hc He.
  intros Hf Ho Ha Hb. destruct (Ho Hf) as [Hnan Hsign]. rewrite Forall_forall in Hnan.
  assert (Hi : is_i64 (c_type c) = false) by (revert Hf; by destruct (c_type c)).
  assert (Hs : bool_decide (c_type c = RAY_SYM) = false) by (revert Hf; by destruct (c_type c)).
  assert (Hv : forall r, row n r -> exists m, 0 <= m < 2 ^ 64 /\ K r = m /\ val_at r = i64 m /\
      ((Forall (fun x => x < 2 ^ 63) (c_data c) -> 2 ^ 63 <= m) /\ (Forall (fun x => 2 ^ 63 <= x) (c_data c) -> m < 2 ^ 63))).
  { intros r Hr. destruct (word_in r Hr) as (Hw & Hel & Hin). unfold elem_ok in Hel. rewrite Hi, Hf in Hel.
    pose proof (enc_f64_mag _ Hel) as Hm. specialize (Hnan _ Hin). pose proof (enc_f64_range _ Hel Hnan) as Hrg.
    exists (Z.lxor (word_at c r) (f64_mask (word_at c r))). unfold UINT64_MAX in Hrg. split; [lia|]. split_and!.
    - apply asc_key; [done|]. unfold radix_encode_row. rewrite Hi, Hf, Hw. cbn [mbind option_bind]. unfold enc_f64.
      by rewrite nan_test, Hnan.
    - unfold val_at, mkey_of. rewrite Hs. cbn [key_val]. by rewrite Hf, Hw.
    - intros Hlt. rewrite Forall_forall in Hlt. specialize (Hlt _ Hin). rewrite Hm. unfold f_mag. change (52 + 11) with 63.
      rewrite Z.testbit_eqb, Z.div_small by lia. change (0 mod 2 =? 1) with false.
      pose proof (Z.mod_pos_bound (word_at c r) (2 ^ 63) ltac:(lia)). lia.
    - intros Hge. rewrite Forall_forall in Hge. specialize (Hge _ Hin). rewrite Hm. unfold f_mag. change (52 + 11) with 63.
      assert (word_at c r / 2 ^ 63 = 1) as Hq by (symmetry; apply (Z.div_unique_pos _ _ _ (word_at c r - 2 ^ 63)); lia).
      rewrite Z.testbit_eqb, Hq by lia. change (1 mod 2 =? 1) with true.
      pose proof (Z.mod_pos_bound (word_at c r) (2 ^ 63) ltac:(lia)). lia. }
  destruct (Hv a Ha) as (ma & Hma & -> & -> & Ha1 & Ha2), (Hv b Hb) as (mb & Hmb & -> & -> & Hb1 & Hb2).
  rewrite !sign_val by lia. destruct Hsign as [Hsg|Hsg]; [specialize (Ha1 Hsg); specialize (Hb1 Hsg)|specialize (Ha2 Hsg); specialize (Hb2 Hsg)];
    unfold z_cmp; repeat case_match; bprop; lia.
Qed.

(** The keys of integers are monotone in them. *)
Lemma asc_int : is_f64 (c_type c) = false -> c_type c <> RAY_SYM ->
  exists g, (forall r, row n r -> K r = g (word_at c r)) /\
    forall x y, elem_ok (c_type c) (c_dom c) x -> elem_ok (c_type c) (c_dom c) y -> x < y -> g x < g y.
Proof using Hc He.
  intros Hf Hs. pose proof (eo_type _ _ He) as Ht. unfold encodable in Ht. rewrite Hf, (bool_decide_eq_false_2 _ Hs) in Ht.
  assert (Hnull : forall r, row n r -> ray_vec_is_null c r = Some (null_at c r)) by (intros; by apply null_at_ok with n).
  assert (Hat : forall r, row n r -> null_at c r = if is_i64 (c_type c) then c_nulls c && (word_at c r =? NULL_I64)
      else if is_i32 (c_type c) then c_nulls c && (word_at c r =? NULL_I32)
      else if bool_decide (c_type c = RAY_I16) then c_nulls c && (word_at c r =? NULL_I16) else false).
  { intros r Hr. rewrite (null_at_eq n c Hc rank He) by done. by rewrite Hf. }
  unfold elem_ok. rewrite Hf. unfold NULL_I64, NULL_I32, NULL_I16, INT64_MIN, INT64_MAX in *.
  destruct (is_i64 (c_type c)) eqn:E1; [exists (fun x => x + 2 ^ 63); split; [|lia]|].
  2: destruct (is_i32 (c_type c)) eqn:E2; [exists (fun x => x + 2 ^ 31); split; [|lia]|].
  3: destruct (bool_decide (c_type c = RAY_I16)) eqn:E3.
  3: exists (fun x => if c_nulls c then if x =? - 2 ^ 15 then 0 else x + 2 ^ 15 + 1 else x + 2 ^ 15); split;
       [|intros x y Hx Hy Hxy; repeat case_match; bprop; lia].
  4: destruct (is_byte (c_type c)) eqn:E4; [|done].
  4: exists (fun x => if c_nulls c then x + 1 else x); split; [|intros x y _ _ Hxy; case_match; lia].
  all: intros r Hr; destruct (word_in r Hr) as (Hw & Hel & _); unfold elem_ok, INT64_MIN, INT64_MAX in Hel;
    rewrite ?E1, ?Hf, ?E2, ?E3, ?E4 in Hel; apply asc_key; [done|]; unfold radix_encode_row;
    rewrite ?E1, ?Hf, ?E2, ?(bool_decide_eq_false_2 _ Hs), ?E3, ?E4, Hw; cbn [mbind option_bind];
    unfold enc_wide, enc_narrow; rewrite Hnull, Hat by done; cbn [xorb flip mbind option_bind].
  - rewrite enc_int_eq by lia. destruct (c_nulls c); [|done]. cbn [andb]. f_equal. destruct (_ =? _) eqn:E; bprop; lia.
  - rewrite enc_int_eq by lia. destruct (c_nulls c); [|done]. cbn [andb]. f_equal. destruct (_ =? _) eqn:E; bprop; lia.
  - rewrite enc_int_eq by lia. destruct (c_nulls c); [|done]. cbn [andb]. f_equal.
  - by destruct (c_nulls c).
Qed.

Lemma val_order a b : one_sign -> row n a -> row n b -> z_cmp (val_at a) (val_at b) = z_cmp (K a) (K b).
Proof using Hc He.
  intros Ho Ha Hb. destruct (is_f64 (c_type c)) eqn:Hf; [by apply val_order_f64|]. destruct (decide (c_type c = RAY_SYM)) as [Et|Et].
  - assert (Hr : forall r, row n r -> val_at r = K r); [|by rewrite !Hr].
    intros r Hr. destruct (sym_rank r Et Hr) as (x & Hx & _ & _). destruct (word_in r Hr) as (Hw & _).
    transitivity x; [|symmetry; apply asc_key; [done|]].
    + unfold val_at, mkey_of. rewrite bool_decide_eq_true_2 by done. cbn [key_val]. rewrite Hw. cbn [mbind option_bind]. by rewrite Hx.
    + unfold radix_encode_row. rewrite Et. cbn. rewrite Hw. cbn [mbind option_bind]. by rewrite Hx.
  - destruct (asc_int Hf Et) as (g & Hg & Hmono). rewrite !Hg by done.
    assert (Hv : forall r, row n r -> val_at r = word_at c r).
    { intros r Hr. destruct (word_in r Hr) as (Hw & _). unfold val_at, mkey_of. rewrite bool_decide_eq_false_2 by done. cbn [key_val].
      pose proof (eo_type _ _ He) as Ht. unfold encodable in Ht. rewrite Hf, (bool_decide_eq_false_2 _ Et) in Ht.
      assert (has_values (c, None) = true) as ->; [|by rewrite Hf, Hw].
      unfold has_values. cbn [fst snd]. rewrite Hf. revert Ht. by destruct (is_i64 _), (is_i32 _), (bool_decide _), (is_byte _). }
    rewrite !Hv by done. symmetry. destruct (word_in a Ha) as (_ & Ea & _), (word_in b Hb) as (_ & Eb & _).
    apply (z_cmp_mono g (fun x => x)); [|by intros ->].
    intros x y [-> | ->] [-> | ->] Hlt; first [lia|by apply Hmono].
Qed.

(** Doubles of one sign are not zeros of different signs. *)
Lemma one_sign_zeros a b : one_sign -> row n a -> row n b -> opposite_zeros c a b = false.
Proof using Hc He.
  intros Ho Ha Hb. unfold opposite_zeros. destruct (is_f64 (c_type c)) eqn:Hf; [|done]. destruct (Ho Hf) as [_ Hs].
  destruct (word_in a Ha) as (_ & _ & Ia), (word_in b Hb) as (_ & _ & Ib). unfold zeros. rewrite !Forall_forall in Hs.
  destruct Hs as [Hs|Hs]; pose proof (Hs _ Ia) as Sa; pose proof (Hs _ Ib) as Sb; cbn beta in Sa, Sb.
  - rewrite (proj2 (Z.eqb_neq (word_at c b) (2 ^ 63))), (proj2 (Z.eqb_neq (word_at c a) (2 ^ 63))) by lia. by rewrite andb_false_r.
  - rewrite (proj2 (Z.eqb_neq (word_at c b) 0)), (proj2 (Z.eqb_neq (word_at c a) 0)) by lia. by rewrite andb_false_r.
Qed.

Context (Hnf : c_nulls c = true -> nf = negb desc).

Lemma val_cmp a b : one_sign -> row n a -> row n b ->
  Z.sgn (key_cmp c desc nf a b) = if desc then - z_cmp (val_at a) (val_at b) else z_cmp (val_at a) (val_at b).
Proof using Hc He Hnf.
  intros Ho Ha Hb. rewrite (val_order a b Ho Ha Hb). destruct (key_of_ok n c Hc false true rank He) as (_ & Hk & _).
  specialize (Hk a b Ha Hb). unfold keys_agree, null_tie in Hk. rewrite (one_sign_zeros a b Ho Ha Hb) in Hk.
  cbn [Bool.eqb] in Hk. rewrite !andb_false_r in Hk. cbn [andb orb] in Hk. rewrite Hk. unfold key_cmp, null_cmp. destruct (c_nulls c) eqn:En.
  - rewrite (Hnf eq_refl). destruct desc; [|done]. cbn [negb].
    destruct (null_at c a), (null_at c b); cbn [orb andb]; try done. by rewrite Z.sgn_opp.
  - assert (Hno : forall r, null_at c r = false).
    { intros r. unfold null_at, ray_vec_is_null. rewrite En. destruct (_ || _); [done|]. by destruct (c_type c). }
    rewrite !Hno. cbn [orb]. destruct desc; [by rewrite Z.sgn_opp|done].
Qed.
End value.

(** ** Packing *)
Definition sum_bits (bits : list Z) : Z := foldr Z.add 0 bits.
Definition fits (x b : Z) : Prop := 0 <= b /\ 0 <= x < 2 ^ b.

Fixpoint packed (xs bits : list Z) : Z :=
  match xs, bits with x :: xs, b :: bits => x * 2 ^ sum_bits bits + packed xs bits | _, _ => 0 end.

(** The first difference. *)
Fixpoint first_cmp (xs ys : list Z) : Z :=
  match xs, ys with x :: xs, y :: ys => if z_cmp x y =? 0 then first_cmp xs ys else z_cmp x y | _, _ => 0 end.

Lemma packed_range xs bits : Forall2 fits xs bits -> 0 <= sum_bits bits /\ 0 <= packed xs bits < 2 ^ sum_bits bits.
Proof.
  induction 1 as [|x b xs bits [Hb Hx] _ [IHs IHp]]; cbn [packed sum_bits foldr]; [lia|]. fold (sum_bits bits).
  rewrite Z.pow_add_r by lia. nia.
Qed.

Lemma packed_cmp xs ys bits :
  Forall2 fits xs bits -> Forall2 fits ys bits -> z_cmp (packed xs bits) (packed ys bits) = first_cmp xs ys.
Proof.
  intros Hx. revert ys. induction Hx as [|x b xs bits [Hb Hx] Hxs IH]; intros ys Hy.
  { by apply Forall2_nil_inv_r in Hy as ->. }
  apply Forall2_cons_inv_r in Hy as (y & ys' & [_ Hyb] & Hys & ->). cbn [packed first_cmp].
  destruct (packed_range _ _ Hxs) as [Hs Hpx], (packed_range _ _ Hys) as [_ Hpy].
  destruct (z_cmp x y =? 0) eqn:E; bprop.
  - assert (x = y) as -> by (revert E; unfold z_cmp; repeat case_match; bprop; lia). rewrite <- (IH ys') by done.
    rewrite !(Z.add_comm (y * _)). apply z_cmp_shift.
  - revert E. unfold z_cmp. destruct (x <? y) eqn:E1; bprop; [|destruct (y <? x) eqn:E2; bprop; [|done]]; intros _;
      repeat case_match; bprop; nia.
Qed.

Lemma bit_shifts_ok bits :
  Forall (Z.le 0) bits -> sum_bits bits <= 64 -> (bit_shifts bits).2 = sum_bits bits /\ length (bit_shifts bits).1 = length bits.
Proof.
  induction 1 as [|b bits Hb Hbs IH]; intros Hs; cbn [bit_shifts sum_bits foldr] in *; [done|]. fold (sum_bits bits) in *.
  assert (Hnn : 0 <= sum_bits bits) by (clear -Hbs; induction Hbs; cbn in *; [lia|unfold sum_bits in *; lia]).
  destruct IH as [E1 E2]; [lia|]. destruct (bit_shifts bits) as [shifts accum]. cbn [fst snd length] in *. subst accum.
  rewrite u8_small by lia. split; [lia|by rewrite E2].
Qed.

(** The fold of the code packs. *)
Lemma pack_fold_ok {P} (f : Z -> P -> option Z) (x sh : P -> Z) ps bits h :
  (forall comp p, p ∈ ps -> f comp p = Some (Z.lor comp (u64 (Z.shiftl (x p) (sh p))))) ->
  sh <$> ps = (bit_shifts bits).1 -> Forall2 fits (x <$> ps) bits -> 0 <= h -> sum_bits bits <= 64 -> h * 2 ^ sum_bits bits < 2 ^ 64 ->
  fold_opt f (h * 2 ^ sum_bits bits) ps = Some (h * 2 ^ sum_bits bits + packed (x <$> ps) bits).
Proof.
  intros Hf. revert bits h. induction ps as [|p ps IH]; intros bits h Hsh Hfit Hh Hs Hlt; cbn [fmap list_fmap] in *.
  { apply Forall2_nil_inv_l in Hfit as ->. cbn. f_equal. lia. }
  apply Forall2_cons_inv_l in Hfit as (b & bits' & [Hb Hx] & Hfit & ->). destruct (packed_range _ _ Hfit) as [Hs' _].
  cbn [fold_opt packed sum_bits foldr] in *. fold (sum_bits bits') in *.
  assert (Hbits : Forall (Z.le 0) bits') by (clear -Hfit; induction Hfit as [|? ? ? ? [] ]; by constructor).
  destruct (bit_shifts_ok bits' Hbits ltac:(lia)) as [E1 _]. cbn [bit_shifts] in Hsh. destruct (bit_shifts bits') as [shifts accum] eqn:E.
  cbn [fst snd] in *. injection Hsh as Hp Hsh. rewrite E1 in Hp. rewrite Hf, Hp by (by left). cbn [mbind option_bind].
  assert (H64 : 2 ^ (b + sum_bits bits') <= 2 ^ 64) by (apply Z.pow_le_mono_r; lia).
  assert (Hprod : 2 ^ (b + sum_bits bits') = 2 ^ b * 2 ^ sum_bits bits') by (apply Z.pow_add_r; lia).
  rewrite Z.shiftl_mul_pow2 by lia. assert (Hxs : 0 <= x p * 2 ^ sum_bits bits' < 2 ^ (b + sum_bits bits')) by nia.
  unfold u64. rewrite wrap_small by lia. rewrite <- (Z.shiftl_mul_pow2 h) by lia. rewrite lor_shiftl_add by lia.
  replace (h * 2 ^ (b + sum_bits bits') + x p * 2 ^ sum_bits bits') with ((h * 2 ^ b + x p) * 2 ^ sum_bits bits') by lia.
  rewrite (IH (fun comp q Hq => Hf comp q ltac:(by right)) bits' (h * 2 ^ b + x p)).
  - rewrite Z.shiftl_mul_pow2, Hprod by lia. f_equal. lia.
  - by rewrite E.
  - done.
  - nia.
  - lia.
  - rewrite Hprod in *. assert (Hw : 2 ^ 64 = 2 ^ (64 - (b + sum_bits bits')) * (2 ^ b * 2 ^ sum_bits bits')).
    { rewrite <- !Z.pow_add_r by lia. f_equal. lia. }
    assert (h < 2 ^ (64 - (b + sum_bits bits'))) by nia. nia.
Qed.

(** ** Bits *)
Lemma bits_loop_ok (fuel : nat) range bits :
  1 <= bits -> bits + fuel = 65 -> (0 < fuel)%nat -> 0 <= range < 2 ^ 64 -> bits = 1 \/ 2 ^ (bits - 1) <= range ->
  exists b, bits_loop fuel range bits = Some b /\ 1 <= b <= 64 /\ range < 2 ^ b /\ (b = 1 \/ 2 ^ (b - 1) <= range).
Proof.
  revert bits. induction fuel as [|fuel IH]; intros bits Hb Hf Hpos Hr Hlow; [lia|]. cbn [bits_loop].
  destruct (_ && _) eqn:E; bprop.
  - apply IH; [lia|lia|lia|done|]. right. by replace (bits + 1 - 1) with bits by lia.
  - exists bits. split_and!; [done|lia|lia| |done]. destruct (decide (bits = 64)) as [->|]; [lia|]. destruct E; bprop; lia.
Qed.

Lemma bits_of_ok range :
  0 <= range < 2 ^ 64 -> exists b, bits_of range = Some b /\ 1 <= b <= 64 /\ range < 2 ^ b /\ (b = 1 \/ 2 ^ (b - 1) <= range).
Proof. intros Hr. apply bits_loop_ok; [lia|lia|lia|done|by left]. Qed.

Lemma total_bits_ok bits : Forall (fun b => 1 <= b <= 64) bits -> (length bits <= 16)%nat -> total_bits bits = sum_bits bits.
Proof.
  unfold total_bits. enough (H : forall t, 0 <= t -> Forall (fun b => 1 <= b <= 64) bits -> t + 64 * length bits < 2 ^ 16 ->
    foldl (fun t b => u16 (t + b)) t bits = t + sum_bits bits).
  { intros Hb Hl. rewrite H by (done || lia). lia. }
  induction bits as [|b bits IH]; intros t Ht Hb Hl; cbn [foldl sum_bits foldr length] in *; [lia|]. fold (sum_bits bits).
  apply Forall_cons in Hb as [Hb Hbs]. unfold u16 at 2. rewrite wrap_small by lia. rewrite IH by (done || lia). lia.
Qed.

Lemma sum_bits_pos bits : Forall (fun b => 1 <= b <= 64) bits -> length bits <= sum_bits bits.
Proof.
  induction 1 as [|b bits Hb _ IH]; cbn [sum_bits foldr length] in *; [lia|]. fold (sum_bits bits) in *. lia.
Qed.

Lemma comp_nbytes_ok total keys :
  1 <= total <= 64 -> (forall k, k ∈ keys -> 0 <= k < 2 ^ total) ->
  (1 <= comp_nbytes total <= 8)%nat /\ agree_above (comp_nbytes total) keys.
Proof.
  intros Ht Hk. unfold comp_nbytes. assert (H1 : 1 <= (total + 7) / 8) by (apply Z.div_le_lower_bound; lia).
  assert (H8 : (total + 7) / 8 <= 8) by (apply Z.lt_succ_r, Z.div_lt_upper_bound; lia).
  rewrite (proj2 (Nat.ltb_ge _ _)) by lia. split; [lia|]. intros x y Hx Hy.
  assert (Hp : 2 ^ total <= 256 ^ Z.to_nat ((total + 7) / 8)).
  { replace 256 with (2 ^ 8) by done. rewrite <- Z.pow_mul_r by lia. apply Z.pow_le_mono_r; [lia|].
    rewrite Z2Nat.id by lia. pose proof (Z.div_mod (total + 7) 8 ltac:(lia)). pose proof (Z.mod_pos_bound (total + 7) 8 ltac:(lia)). lia. }
  rewrite !Z.div_small; [done| |]; [specialize (Hk y Hy)|specialize (Hk x Hx)]; lia.
Qed.

(** ** Ranges *)
Section ranges.
Context (N : nat) (key : mkey) (f : Z -> Z) (Hv : has_values key = true)
  (Hf : forall a, row N a -> key_val key a = Some (f a) /\ INT64_MIN <= f a <= INT64_MAX).

(** The least and the greatest value. *)
Definition spans (st : Z * Z) : Prop :=
  (forall a, row N a -> st.1 <= f a <= st.2) /\ (exists a, row N a /\ f a = st.1) /\ (exists a, row N a /\ f a = st.2).

(** A range on the way: its ends are values, or the ends of [no_range]. *)
Definition partial (st : Z * Z) : Prop :=
  (st.1 = INT64_MAX \/ exists a, row N a /\ f a = st.1) /\ (st.2 = INT64_MIN \/ exists a, row N a /\ f a = st.2).
Definition wider (st st' : Z * Z) : Prop := st'.1 <= st.1 /\ st.2 <= st'.2.

Lemma partial_spans st : (0 < N)%nat -> partial st -> (forall a, row N a -> st.1 <= f a <= st.2) -> spans st.
Proof using Hf.
  intros HN [H1 H2] Hin. split; [done|]. destruct (Hf 0 ltac:(lia)) as [_ Hr]. specialize (Hin 0 ltac:(lia)) as H0. split.
  - destruct H1 as [H1|]; [|done]. exists 0. split; [lia|]. lia.
  - destruct H2 as [H2|]; [|done]. exists 0. split; [lia|]. lia.
Qed.

Lemma min_max_ok st a : row N a -> partial st ->
  partial (min_max st (f a)) /\ wider st (min_max st (f a)) /\ (min_max st (f a)).1 <= f a <= (min_max st (f a)).2.
Proof using Type.
  intros Ha [H1 H2]. unfold min_max, wider, partial. cbn [fst snd].
  destruct (f a <? st.1) eqn:E1, (st.2 <? f a) eqn:E2; bprop; split_and!; try lia; try done; right; by exists a.
Qed.

Lemma scan_key_ok start stop st :
  (start <= stop <= N)%nat -> partial st ->
  exists st', scan_key key start stop st = Some st' /\ partial st' /\ wider st st' /\
    forall i : nat, (start <= i < stop)%nat -> st'.1 <= f i <= st'.2.
Proof using Hv Hf.
  intros Hs Hp. unfold scan_key. rewrite Hv. remember (stop - start)%nat as m eqn:Em. revert start st Hs Hp Em.
  induction m as [|m IH]; intros start st Hs Hp Em; cbn [seq fold_opt].
  { exists st. split; [done|]. split; [exact Hp|]. split; [by split|]. intros i Hi. lia. }
  destruct (Hf start ltac:(lia)) as [-> _]. cbn [mbind option_bind].
  destruct (min_max_ok st start ltac:(lia) Hp) as (Hp1 & Hw1 & Hin1).
  destruct (IH (S start) (min_max st (f start)) ltac:(lia) Hp1 ltac:(lia)) as (st' & -> & Hp' & Hw' & Hin').
  exists st'. unfold wider in *. split; [done|]. split; [exact Hp'|]. split; [lia|].
  intros i Hi. destruct (decide (i = start)) as [->|]; [lia|]. apply Hin'. lia.
Qed.
End ranges.

Lemma mapM_exists {A B} (f : A -> option B) (R : A -> B -> Prop) l :
  (forall x, x ∈ l -> exists y, f x = Some y /\ R x y) -> exists k, mapM f l = Some k /\ Forall2 R l k.
Proof.
  induction l as [|x l IH]; intros H; [by exists []|]. destruct (H x) as (y & Hy & HR); [by left|].
  destruct IH as (k & Hk & Hall); [intros; apply H; by right|]. exists (y :: k). split; [|by constructor].
  cbn [mapM]. rewrite Hy. cbn [mbind option_bind]. by rewrite Hk.
Qed.

Lemma Forall2_compose {A B C} (P : A -> B -> Prop) (Q : B -> C -> Prop) (R : A -> C -> Prop) l k m :
  (forall x y z, P x y -> Q y z -> R x z) -> Forall2 P l k -> Forall2 Q k m -> Forall2 R l m.
Proof.
  intros HR HP. revert m. induction HP as [|x y l k Hxy _ IH]; intros m HQ; inversion HQ; subst; constructor; [by eapply HR|auto].
Qed.

Section all_ranges.
Context (N : nat) (keys : list mkey) (fs : list (Z -> Z)).
Definition valued (key : mkey) (f : Z -> Z) : Prop :=
  has_values key = true /\ forall a, row N a -> key_val key a = Some (f a) /\ INT64_MIN <= f a <= INT64_MAX.
Context (Hkeys : Forall2 valued keys fs).

Abbreviation parts_ok := (Forall2 (partial N) fs).

Lemma mk_prescan_ok start stop sts :
  (start <= stop <= N)%nat -> parts_ok sts ->
  exists sts', mk_prescan_fn keys start stop sts = Some sts' /\ parts_ok sts' /\ Forall2 wider sts sts' /\
    Forall2 (fun (f : Z -> Z) st => forall i : nat, (start <= i < stop)%nat -> st.1 <= f i <= st.2) fs sts'.
Proof using Hkeys.
  intros Hs. unfold mk_prescan_fn. revert sts. induction Hkeys as [|key f keys' fs' [Hv Hf] _ IH]; intros sts Hp.
  { apply Forall2_nil_inv_l in Hp as ->. by exists []. }
  apply Forall2_cons_inv_l in Hp as (st & sts' & Hp1 & Hp & ->).
  change (zip (key :: keys') (st :: sts')) with ((key, st) :: zip keys' sts'). cbn [mapM fst snd].
  destruct (scan_key_ok N key f Hv Hf start stop st Hs Hp1) as (st1 & -> & H1 & H2 & H3).
  destruct (IH ltac:(by apply Forall2_cons in Hkeys as [_ ?]) sts' Hp) as (sts1 & E & H4 & H5 & H6).
  cbn [mbind option_bind]. rewrite E. exists (st1 :: sts1). split_and!; [done|by constructor..].
Qed.

Lemma merge_ranges_ok (k : nat) f (pw : list (list (Z * Z))) st :
  partial N f st -> (forall w, w ∈ pw -> exists m, w !! k = Some m /\ partial N f m) ->
  exists st', fold_opt (fun st w => m ← w !! k; Some (if m.1 <? st.1 then m.1 else st.1, if st.2 <? m.2 then m.2 else st.2)) st pw = Some st' /\
    partial N f st' /\ wider st st' /\ forall w m, w ∈ pw -> w !! k = Some m -> wider m st'.
Proof using Type.
  revert st. induction pw as [|w pw IH]; intros st Hp Hw; cbn [fold_opt].
  { exists st. split; [done|]. split; [done|]. split; [by split|]. by intros w m []%not_elem_of_nil. }
  destruct (Hw w) as (m & Hm & Hpm); [by left|]. rewrite Hm. cbn [mbind option_bind].
  match goal with |- context [fold_opt _ ?s pw] => destruct (IH s) as (st' & -> & Hp' & Hw' & Hall) end.
  { destruct Hp, Hpm. split; cbn [fst snd]; bif; done. }
  { intros w' Hin. apply Hw. by right. }
  exists st'. unfold wider in *. cbn [fst snd] in *. split; [done|]. split; [done|]. split.
  - destruct (m.1 <? st.1) eqn:E1, (st.2 <? m.2) eqn:E2; bprop; lia.
  - intros w' m' [->|Hin]%elem_of_cons Hm'; [|by apply (Hall w')]. rewrite Hm in Hm'. injection Hm' as <-.
    destruct (m.1 <? st.1) eqn:E1, (st.2 <? m.2) eqn:E2; bprop; lia.
Qed.

Lemma no_range_partial f : partial N f no_range.
Proof using Type. split; by left. Qed.

Context (HN : (0 < N)%nat).

Lemma key_ranges_ok alloc_ok pool run :
  (forall nw, pool = Some nw -> run_of N nw run) -> (alloc_ok = true) ->
  exists ranges, key_ranges alloc_ok pool run keys N = Some ranges /\ Forall2 (spans N) fs ranges.
Proof using HN Hkeys.
  intros Hrun ->. unfold key_ranges. pose proof (Forall2_length _ _ _ Hkeys) as Hlen.
  destruct (if (length keys <=? MK_PRESCAN_MAX_KEYS)%nat then pool else None) as [nw|] eqn:Epool.
  - assert (Hp : pool = Some nw) by (destruct (_ <=? _)%nat; done). specialize (Hrun nw Hp). rewrite andb_false_r.
    assert (Hle : PreOrder (Forall2 wider)).
    { split; [intros l; apply Forall_Forall2_diag, Forall_true; by split|].
      intros l1 l2 l3 H12 H23. eapply Forall2_compose; [|exact H12|exact H23]. unfold wider. intros; lia. }
    destruct (per_worker_ok parts_ok
      (fun call sts => Forall2 (fun (f : Z -> Z) st => forall i : nat, (Z.to_nat call.2.1 <= i < Z.to_nat call.2.2)%nat -> st.1 <= f i <= st.2) fs sts)
      (Forall2 wider) (mk_prescan_fn keys) (replicate nw (replicate (length keys) no_range)) run) as (pw & -> & Hl & Hpw & _ & Hq).
    + done.
    + intros call s s' Hss Hs. eapply Forall2_compose; [|exact Hs|exact Hss]. unfold wider. cbn beta. intros f st st' H Hw i Hi.
      specialize (H i Hi). lia.
    + intros call sts Hin Hs. destruct (run_range _ _ _ Hrun call Hin) as (j & Ej & Hj & _). pose proof grain_pos.
      destruct (mk_prescan_ok (Z.to_nat call.2.1) (Z.to_nat call.2.2) sts) as (sts' & -> & H1 & H2 & H3); [rewrite Ej; cbn [fst snd]; lia|done|].
      by exists sts'.
    + apply Forall_replicate. rewrite Hlen. clear. induction fs; cbn; constructor; [apply no_range_partial|done].
    + intros call Hin. rewrite length_replicate. destruct (run_range _ _ _ Hrun call Hin) as (j & _ & _ & ?). done.
    + cbn [mbind option_bind]. rewrite Forall_forall in Hpw.
      destruct (mapM_exists (merge_ranges pw) (fun k st => forall f, fs !! k = Some f -> spans N f st) (seq 0 (length keys))) as (ranges & -> & Hr).
      * intros k Hk%elem_of_seq. destruct (lookup_lt_is_Some_2 fs k) as [f Ef]; [lia|].
        destruct (merge_ranges_ok k f pw no_range) as (st & Hst & Hp1 & _ & Hall); [apply no_range_partial| |].
        { intros w Hw. destruct (Forall2_lookup_l _ _ _ _ _ (Hpw w Hw) Ef) as (m & ? & ?). by exists m. }
        exists st. split; [exact Hst|]. intros f' Hf'. rewrite Ef in Hf'. injection Hf' as <-.
        destruct (Forall2_lookup_r _ _ _ _ _ Hkeys Ef) as (key & _ & Hv & Hf).
        apply (partial_spans N key f Hf); [done|done|]. intros a Ha.
        destruct (run_covers _ _ _ Hrun (Z.to_nat a)) as (call & Hin & Ec); [lia|].
        destruct (Hq call Hin) as (w & Hw & Hwq). destruct (Forall2_lookup_l _ _ _ _ _ Hwq Ef) as (m & Hm & Hmi).
        specialize (Hall w m ltac:(by eapply list_elem_of_lookup_2) Hm). unfold wider in Hall.
        specialize (Hmi (Z.to_nat a)). rewrite Ec in Hmi. cbn [fst snd] in Hmi. rewrite Z2Nat.id in Hmi by lia. pose proof grain_pos.
        pose proof (Z.div_mod a TASK_GRAIN ltac:(lia)). pose proof (Z.mod_pos_bound a TASK_GRAIN ltac:(lia)).
        assert (0 <= a / TASK_GRAIN) by (apply Z.div_pos; lia). specialize (Hmi ltac:(nia)). lia.
      * exists ranges. split; [done|]. apply Forall2_same_length_lookup_2.
        { rewrite <- (Forall2_length _ _ _ Hr), length_seq. done. }
        intros k f st Hf Hst. destruct (Forall2_lookup_r _ _ _ _ _ Hr Hst) as (k' & Hk' & Hk''). apply lookup_seq in Hk' as [-> _]. by apply Hk''.
  - clear Epool. induction Hkeys as [|key f keys' fs' [Hv Hf] Hrest IH].
    { by exists []. }
    destruct (scan_key_ok N key f Hv Hf 0 N no_range) as (st & E & Hp & _ & Hin); [lia|apply no_range_partial|].
    destruct IH as (ranges & Er & Hr); [by apply Forall2_cons in Hkeys as [_ ?]|by apply Forall2_length in Hrest|].
    cbn [mapM]. rewrite E. cbn [mbind option_bind]. rewrite Er. exists (st :: ranges). split; [done|]. constructor; [|done].
    apply (partial_spans N key f Hf); [done|done|]. intros a Ha. specialize (Hin (Z.to_nat a) ltac:(lia)). by rewrite Z2Nat.id in Hin by lia.
Qed.
End all_ranges.

