(* ===== verification/SortMulti.v ===== *)
(** * Sorting by several columns ([src/ops/sort.c], [sort_indices_ex])

    The values of the columns of a row are packed into one key, each in the
    bits its range needs.  Where they do not fit into 64 bits, or a column has
    no integer values, every column is graded by itself and the dense ranks of
    the rows are packed instead; where that cannot be done either the rows are
    merge-sorted by the comparator. *)
From Stdlib Require Import ZArith Lia.
From stdpp Require Import sorting.
From S2P Require Import Prelude WireVal SortArr SortKey Pool Radix RadixSort PackedSort MsdSort SortCol SortOrd SortMerge SortSym SortEnc SortIdx SortPack.

(** Keys in place: introsort for few rows, the radix sort of pairs for many. *)
Definition sort_composed (v : env) (tmp_ok : bool) (pool : option nat) (rows : list kv) (nb : nat) : option sorted_rows :=
  if length rows <=? RADIX_SORT_THRESHOLD then s ← key_introsort rows (length rows); Some (Sorted_ s.*2)
  else sort_msd v tmp_ok pool rows nb.

(** The composite fits. *)
Definition sort_composite (v : env) (pool : option nat) (parts : list key_part) (nb nrows : nat) : option sorted_rows :=
  if negb (e_alloc v 10) then Some NotSorted
  else
    rows ← encode_rows (compose_row parts) pool (e_runs v 6) (replicate nrows (0, 0));
    u ← detect_sortedness pool (e_runs v 1) rows.*1;
    if (u =? 0)%nat then Some (Sorted_ rows.*2) else sort_composed v (e_alloc v 11) pool rows nb.

(** ** Ranks instead of values *)
(** The rows in order, numbered from 0, those that compare equal alike. *)
Fixpoint dense_loop (x : sort_ctx) (prev : Z) (idx : list Z) (cur : Z) (r : list Z) : option (list Z * Z) :=
  match idx with
  | [] => Some (r, cur)
  | i :: idx =>
      cmp ← sort_cmp x prev i;
      let cur := if negb (cmp =? 0) then u32 (cur + 1) else cur in
      r ← aset r (Z.to_nat i) cur; dense_loop x i idx cur r
  end.

Definition dense_ranks (x : sort_ctx) (idx : list Z) : option (list Z * Z) :=
  match idx with
  | [] => None
  | i :: idx' => r ← aset (replicate (length idx) 0) (Z.to_nat i) 0; dense_loop x i idx' 0 r
  end.

(** What the run-time supplies: for the whole sort, and for the sort of each
    key by itself. *)
Record menv := MEnv {
  m_main : env;
  m_sub : nat -> env;
  m_enum_alloc : nat -> bool;      (** the ranks of the symbols of a key *)
  m_rank_alloc : nat -> bool }.    (** the ranks of its rows *)

(** The ranks of every key, or nothing when some sort or allocation fails. *)
Fixpoint rank_keys (v : menv) (k : nat) (cols : list col) (descs nfs : list bool) (nrows : nat)
    : option (option (list (list Z * Z))) :=
  match cols, descs, nfs with
  | c :: cols, d :: descs, nf :: nfs =>
      idx ← sort_indices_1 (m_sub v k) c (Some d) (Some nf) nrows;
      match idx with
      | None => Some None
      | Some idx =>
          if negb (m_rank_alloc v k) then Some None
          else
            r ← dense_ranks (SortCtx [Some c] (Some [d]) (Some [nf])) idx;
            rs ← rank_keys v (S k) cols descs nfs nrows;
            Some (option_map (cons r) rs)
      end
  | _, _, _ => Some (Some [])
  end.

(** The ranks of a row, each at its shift. *)
Definition rank_row (ranks : list (list Z)) (shifts : list Z) (i : Z) : option Z :=
  fold_opt (fun composite p => r ← at_row p.1 i; Some (Z.lor composite (u64 (Z.shiftl r p.2)))) 0 (zip ranks shifts).

Definition sort_by_ranks (v : menv) (pool : option nat) (cols : list col) (descs nfs : list bool) (nrows : nat)
    : option sorted_rows :=
  rs ← rank_keys v 0 cols descs nfs nrows;
  match rs with
  | None => Some NotSorted
  | Some rs =>
      bits ← mapM bits_of rs.*2;
      let total := total_bits bits in
      if 64 <? total then Some NotSorted
      else if negb (e_alloc (m_main v) 12) then Some NotSorted
      else
        rows ← radix_encode_fn (rank_row rs.*1 (bit_shifts bits).1) 0 nrows (replicate nrows (0, 0));
        sort_composed (m_main v) (e_alloc (m_main v) 13) pool rows (comp_nbytes total)
  end.

(** ** All of it *)
(** A column of strings or guids has no integer values. *)
Definition is_wide (t : ray_type_e) : bool := bool_decide (t = RAY_STR) || bool_decide (t = RAY_GUID).

Definition can_radix_all (cols : list (option col)) : bool :=
  forallb (fun o => match o with Some c => is_wide (c_type c) || encodable (c_type c) | None => false end) cols.

(** The ranks of the symbol columns. *)
Fixpoint build_ranks (v : menv) (k : nat) (cols : list col) (nrows : nat) : option (option (list mkey)) :=
  match cols with
  | [] => Some (Some [])
  | c :: cols =>
      r ← (if bool_decide (c_type c = RAY_SYM) then
             r ← build_enum_rank (m_enum_alloc v k) (e_pool (m_main v)) (e_runs (m_main v) (16 + k)) c nrows;
             Some (option_map Some r)
           else Some (Some None));
      match r with
      | None => Some None
      | Some r => keys ← build_ranks v (S k) cols nrows; Some (option_map (cons (c, r)) keys)
      end
  end.

Definition sort_several_keys (v : menv) (cols : list col) (descs nfs : list bool) (nrows : nat) : option sorted_rows :=
  keys ← build_ranks v 0 cols nrows;
  match keys with
  | None => Some NotSorted
  | Some keys =>
      let pool := if SMALL_POOL_THRESHOLD <=? nrows then e_pool (m_main v) else None in
      if existsb (fun c => is_wide (c_type c)) cols then sort_by_ranks v pool cols descs nfs nrows
      else
        ranges ← key_ranges (e_alloc (m_main v) 14) pool (e_runs (m_main v) 5) keys nrows;
        bits ← mapM bits_of (range_of <$> ranges);
        let total := total_bits bits in
        if 64 <? total then sort_by_ranks v pool cols descs nfs nrows
        else sort_composite (m_main v) pool (make_parts keys descs ranges (bit_shifts bits).1) (comp_nbytes total) nrows
  end.

(** [default_nf]. *)
Definition default_flags (n_cols : nat) (descs nulls_first : option (list bool)) : list bool :=
  match nulls_first with
  | Some l => l
  | None => match descs with Some l => negb <$> l | None => replicate n_cols true end
  end.

(** The rows of several columns in order. *)
Definition sort_indices_n (v : menv) (cols : list (option col)) (descs nulls_first : option (list bool)) (nrows : nat)
    : option (option (list Z)) :=
  let n_cols := length cols in
  if (n_cols =? 0)%nat || (nrows =? 0)%nat then Some (Some [])
  else if (16 <? n_cols)%nat then Some None
  else if negb (e_alloc (m_main v) 7) then Some None
  else
    let ds := default (replicate n_cols false) descs in
    let nfs := default_flags n_cols descs nulls_first in
    s ← (if (64 <? nrows)%nat && can_radix_all cols then
           cs ← mapM id cols; sort_several_keys v cs ds nfs nrows
         else Some NotSorted);
    sort_result (m_main v) (SortCtx cols descs (Some nfs)) nrows s.

Definition sort_indices_ex (v : menv) (cols : list (option col)) (descs nulls_first : option (list bool)) (nrows : nat)
    : option (option (list Z)) :=
  match cols with
  | [c] => c ← c; sort_indices_1 (m_main v) c (descs ≫= head) (nulls_first ≫= head) nrows
  | _ => sort_indices_n v cols descs nulls_first nrows
  end.

(** ** The comparator of several columns *)
(** A column with its direction and the place of its nulls. *)
Abbreviation kcol := (col * bool * bool)%type.

Fixpoint lex_keys (ks : list kcol) (a b : Z) : Z :=
  match ks with
  | [] => 0
  | (c, d, nf) :: ks => if key_cmp c d nf a b =? 0 then lex_keys ks a b else key_cmp c d nf a b
  end.

Lemma cmp_keys_lex n x ks k a b :
  Forall (fun q : kcol => col_ok n q.1.1) ks -> row n a -> row n b ->
  (forall (i : nat) q, ks !! i = Some q ->
    flag (x_desc x) (k + i) false = Some q.1.2 /\ forall o, flag (x_nulls_first x) (k + i) o = Some q.2) ->
  cmp_keys x (Some <$> ks.*1.*1) k a b = Some (lex_keys ks a b).
Proof.
  intros Hc Ha Hb. revert k. induction Hc as [|[[c d] nf] ks Hc _ IH]; intros k Hfl; [done|]. cbn [fmap list_fmap cmp_keys lex_keys fst snd].
  destruct (Hfl 0%nat _ eq_refl) as [Hd Hn]. rewrite Nat.add_0_r in Hd, Hn. cbn [fst snd] in *. rewrite Hd. cbn [mbind option_bind].
  rewrite Hn. cbn [mbind option_bind]. rewrite (cmp_key_ok n c Hc) by done. cbn [mbind option_bind].
  destruct (key_cmp c d nf a b =? 0); cbn [negb]; [|done]. apply IH. intros i q Hi. rewrite Nat.add_succ_comm. by apply (Hfl (S i)).
Qed.

(** Values that compare as the keys do. *)
Lemma first_cmp_lex (ks : list kcol) (gs : list (Z -> Z)) a b :
  Forall2 (fun q g => z_cmp (g a) (g b) = Z.sgn (key_cmp q.1.1 q.1.2 q.2 a b)) ks gs ->
  first_cmp ((fun g => g a) <$> gs) ((fun g => g b) <$> gs) = Z.sgn (lex_keys ks a b).
Proof.
  induction 1 as [|[[c d] nf] g ks gs Hg _ IH]; [done|]. cbn [fmap list_fmap first_cmp lex_keys fst snd] in *.
  rewrite Hg, IH. destruct (key_cmp c d nf a b =? 0) eqn:E; bprop; [by rewrite E|].
  destruct (Z.sgn _ =? 0) eqn:E2; bprop; [|done]. lia.
Qed.

Section pack.
Context (n : nat) (ks : list kcol) (gs : list (Z -> Z)) (bits : list Z).
Context (Hbits : Forall (fun b => 1 <= b <= 64) bits) (Hsum : sum_bits bits <= 64).
Context (Hfit : forall a, row n a -> Forall2 fits ((fun g => g a) <$> gs) bits).
Context (Hcmp : forall a b, row n a -> row n b -> Forall2 (fun q g => z_cmp (g a) (g b) = Z.sgn (key_cmp q.1.1 q.1.2 q.2 a b)) ks gs).

Definition pack_key (a : Z) : Z := packed ((fun g => g a) <$> gs) bits.

Lemma pack_key_range a : row n a -> 0 <= pack_key a < 2 ^ sum_bits bits.
Proof using Hfit. intros Ha. apply (packed_range _ _ (Hfit a Ha)). Qed.

Lemma pack_key_word a : row n a -> word (pack_key a).
Proof using Hfit Hsum.
  intros Ha. pose proof (pack_key_range a Ha). assert (2 ^ sum_bits bits <= 2 ^ 64) by (apply Z.pow_le_mono_r; lia). lia.
Qed.

Lemma pack_key_cmp a b : row n a -> row n b -> z_cmp (pack_key a) (pack_key b) = Z.sgn (lex_keys ks a b).
Proof using Hfit Hcmp. intros Ha Hb. unfold pack_key. rewrite (packed_cmp _ _ _ (Hfit a Ha) (Hfit b Hb)). apply first_cmp_lex, Hcmp; done. Qed.

Lemma pack_agree : (1 <= length bits)%nat -> agree_above (comp_nbytes (sum_bits bits)) (pack_key <$> seqZ 0 n).
Proof using Hfit Hbits Hsum.
  intros Hl. apply comp_nbytes_ok; [pose proof (sum_bits_pos bits Hbits); lia|].
  intros k (a & -> & Ha%elem_of_seqZ)%list_elem_of_fmap. apply pack_key_range. lia.
Qed.

Lemma nonneg_bits : Forall (Z.le 0) bits.
Proof using Hbits. eapply Forall_impl; [exact Hbits|]. cbn. lia. Qed.
End pack.

(** The value of a part, without the bounds. *)
Definition part_val (p : key_part) (a : Z) : Z :=
  let x := default 0 (key_val (pt_key p) a) - pt_min p in if pt_desc p then pt_range p - x else x.

Definition part_ok (p : key_part) (a : Z) : Prop := exists v, key_val (pt_key p) a = Some v /\
  INT64_MIN <= v <= INT64_MAX /\ INT64_MIN <= pt_min p <= INT64_MAX /\ 0 <= v - pt_min p <= pt_range p /\ pt_range p < 2 ^ 64.

Lemma compose_row_ok parts bits a :
  (forall p, p ∈ parts -> part_ok p a) -> pt_shift <$> parts = (bit_shifts bits).1 ->
  Forall2 fits ((fun g => g a) <$> (part_val <$> parts)) bits -> sum_bits bits <= 64 ->
  compose_row parts a = Some (pack_key (part_val <$> parts) bits a).
Proof.
  intros Hp Hsh Hfit Hs. unfold compose_row, pack_key. rewrite <- list_fmap_compose in Hfit |- *.
  pose proof (pack_fold_ok (fun composite p =>
    val ← key_val (pt_key p) a;
    let x := u64 (u64 val - u64 (pt_min p)) in
    let x := if pt_desc p then u64 (u64 (pt_range p) - x) else x in
    Some (Z.lor composite (u64 (Z.shiftl x (pt_shift p))))) (fun p => part_val p a) pt_shift parts bits 0) as Hfold.
  rewrite Z.mul_0_l, Z.add_0_l in Hfold. apply Hfold; [|done|exact Hfit|done|done|done].
  intros comp p Hin. destruct (Hp p Hin) as (v & Hv & Hr & Hm & Hx & Hlt). unfold part_val. rewrite Hv. cbn [mbind option_bind default].
  unfold INT64_MIN, INT64_MAX in *. cbn zeta. unfold id.
  assert (Hsub : u64 (u64 v - u64 (pt_min p)) = v - pt_min p).
  { unfold u64, wrap. rewrite <- Zminus_mod. apply Z.mod_small. lia. }
  rewrite Hsub. destruct (pt_desc p); [|done]. rewrite (u64_small (pt_range p)) by lia. by rewrite (u64_small (pt_range p - (v - pt_min p))) by lia.
Qed.

(** ** The keys in order *)
(** Where a branch sorts the rows it grades them. *)
Definition settled (n : Z) (cmp : Z -> Z -> Z) (s : sorted_rows) : Prop := match s with Sorted_ idx => graded n cmp idx | _ => True end.

Lemma keys_length (key : Z -> Z) (n : nat) : length (key <$> seqZ 0 n) = n.
Proof. rewrite length_fmap, length_seqZ. lia. Qed.

Section sorting.
Context (n : nat) (v : env) (Hv : env_ok n v) (Hn : n < 2 ^ 32) (H0 : (0 < n)%nat).
Context (pool : option nat) (Hpool : pool = e_pool v \/ pool = None).
Context (key : Z -> Z) (cmp : Z -> Z -> Z) (Hcmp : forall a b, row n a -> row n b -> z_cmp (key a) (key b) = Z.sgn (cmp a b)).
Abbreviation keys := (key <$> seqZ 0 n).

Lemma sort_composed_ok tmp_ok nb :
  agree_above nb keys ->
  exists s, sort_composed v tmp_ok pool (rows_of_keys keys) nb = Some s /\ (e_alloc v 4 = true -> s <> NullIdx) /\ settled n cmp s.
Proof using Hv Hn H0 Hcmp.
  intros Hag. pose proof (keys_length key n) as Hl. unfold sort_composed. rewrite rows_length. bif.
  - rewrite <- (rows_length keys), key_introsort_ok by (rewrite rows_length; lia). cbn [mbind option_bind].
    eexists. split; [reflexivity|]. split; [done|]. by apply rows_graded.
  - destruct (sort_msd_ok n v Hv Hn pool keys Hl tmp_ok nb Hag) as (s & -> & Hnn & Hs). exists s. split; [done|]. split; [done|].
    destruct s as [idx| |]; [|done..]. cbn. rewrite (Hs idx eq_refl). by apply rows_graded.
Qed.

Lemma sort_composite_ok parts nb :
  (forall a, row n a -> compose_row parts a = Some (key a)) -> Forall (fun k => word k) keys -> agree_above nb keys ->
  exists s, sort_composite v pool parts nb n = Some s /\ (e_alloc v 4 = true -> s <> NullIdx) /\ settled n cmp s.
Proof using Hv Hn H0 Hpool Hcmp.
  intros Hrow Hw Hag. unfold sort_composite. destruct (e_alloc v 10); cbn [negb]; [|by exists NotSorted].
  assert (Hrun : forall k nw, pool = Some nw -> run_of n nw (e_runs v k)).
  { intros k nw Hp. destruct Hpool as [E|E]; [|congruence]. apply env_run; [done|done|congruence]. }
  rewrite (encode_rows_ok n _ key) by (done || apply Hrun || apply length_replicate). cbn [mbind option_bind]. rewrite keyed_rows, rows_fst.
  destruct (detect_sortedness_ok pool (e_runs v 1) keys) as (u & -> & Hu); [intros nw Hp; rewrite keys_length; by apply Hrun|].
  cbn [mbind option_bind]. destruct (u =? 0)%nat eqn:E; bprop; [|by apply sort_composed_ok].
  eexists. split; [reflexivity|]. split; [done|]. cbn. rewrite <- (sorted_keys_id keys) at 1 by (apply no_descent_sorted; auto).
  by apply rows_graded.
Qed.
End sorting.

(** ** Dense ranks *)
Lemma at_row_insert (r : list Z) i v a : row (length r) i -> 0 <= a ->
  at_row (<[Z.to_nat i := v]> r) a = if decide (a = i) then Some v else at_row r a.
Proof.
  intros Hi Ha. unfold at_row. rewrite (proj2 (Z.ltb_ge a 0)) by lia. case_decide as E.
  - subst. apply list_lookup_insert_eq. lia.
  - apply list_lookup_insert_ne. lia.
Qed.

Section dense.
Context (n : nat) (Hn : n < 2 ^ 32) (x : sort_ctx) (Hdef : forall a b, row n a -> row n b -> sort_cmp x a b = Some (cmp_of x a b)).
Context (Hpre : preorder_on (fun a => row n a) (cmp_of x)).
Abbreviation c := (cmp_of x).

(** The ranks of the rows passed, the last of which is [prev]. *)
Record ranked (pre : list Z) (prev cur : Z) (r : list Z) : Prop := {
  rk_length : length r = n;
  rk_rows : forall a, a ∈ pre -> row n a /\ c a prev <= 0;
  rk_prev : prev ∈ pre /\ at_row r prev = Some cur;
  rk_cur : 0 <= cur < length pre;
  rk_bound : forall a, a ∈ pre -> exists k, at_row r a = Some k /\ 0 <= k <= cur;
  rk_cmp : forall a b ka kb, a ∈ pre -> b ∈ pre -> at_row r a = Some ka -> at_row r b = Some kb -> z_cmp ka kb = Z.sgn (c a b) }.

Lemma ranked_step pre prev cur r i :
  ranked pre prev cur r -> row n i -> i ∉ pre -> c prev i <= 0 -> length pre < n ->
  let cur' := if negb (c prev i =? 0) then u32 (cur + 1) else cur in ranked (pre ++ [i]) i cur' (<[Z.to_nat i := cur']> r).
Proof using Hn Hpre.
  intros [Hl Hrows [Hp Hpr] Hcur Hb Hc] Hi Hni Hle Hlen cur'. destruct (Hrows prev Hp) as [Hprev _].
  assert (Hcur' : cur' = cur + (if c prev i =? 0 then 0 else 1)).
  { unfold cur'. destruct (c prev i =? 0); cbn [negb]; [lia|]. apply u32_small. lia. }
  assert (Hai : forall a k, a ∈ pre -> at_row r a = Some k -> z_cmp k cur' = Z.sgn (c a i) /\ c a i <= 0).
  { intros a k Ha Hk. destruct (Hrows a Ha) as [Hra Hap]. pose proof (pre_trans _ _ Hpre a prev i Hra Hprev Hi Hap Hle).
    destruct (Hb a Ha) as (k' & Hk' & Hkr). assert (k' = k) by congruence. subst k'. split; [|done]. rewrite Hcur'.
    destruct (c prev i =? 0) eqn:E; bprop.
    - rewrite Z.add_0_r, (Hc a prev k cur Ha Hp Hk Hpr). pose proof (pre_sgn _ _ prev i Hpre Hprev Hi) as [_ Hz]. apply Hz in E as E'.
      pose proof (pre_eq_l _ _ prev i a Hpre Hprev Hi Hra E). pose proof (pre_flip _ _ Hpre a prev Hra Hprev).
      pose proof (pre_flip _ _ Hpre a i Hra Hi). lia.
    - assert (c a i <> 0).
      { intros Ez. pose proof (pre_eq_l _ _ a i prev Hpre Hra Hi Hprev Ez). pose proof (pre_flip _ _ Hpre prev i Hprev Hi).
        pose proof (pre_flip _ _ Hpre prev a Hprev Hra). destruct (Z.sgn_spec (c a prev)), (Z.sgn_spec (c i prev)), (Z.sgn_spec (c prev i)); lia. }
      unfold z_cmp. destruct (Z.sgn_spec (c a i)); repeat case_match; bprop; lia. }
  assert (Hlook : forall a, 0 <= a -> at_row (<[Z.to_nat i := cur']> r) a = if decide (a = i) then Some cur' else at_row r a).
  { intros a Ha. apply at_row_insert; [lia|done]. }
  assert (Hold : forall a, a ∈ pre -> at_row (<[Z.to_nat i := cur']> r) a = at_row r a).
  { intros a Ha. rewrite Hlook by (destruct (Hrows a Ha); lia). rewrite decide_False; [done|]. by intros ->. }
  assert (Hnew : at_row (<[Z.to_nat i := cur']> r) i = Some cur') by (rewrite Hlook, decide_True by lia; done).
  split.
  - by rewrite length_insert.
  - intros a [Ha| ->%list_elem_of_singleton]%elem_of_app; [|split; [done|]; rewrite (pre_refl _ _ _ Hpre Hi); lia].
    destruct (Hb a Ha) as (k & Hk & _). split; [by apply Hrows|]. by apply (Hai a k).
  - split; [apply elem_of_app; right; by left|done].
  - rewrite length_app. cbn [length]. destruct (_ =? 0); lia.
  - intros a [Ha| ->%list_elem_of_singleton]%elem_of_app.
    + destruct (Hb a Ha) as (k & Hk & ?). exists k. rewrite Hold by done. split; [done|]. destruct (_ =? 0); lia.
    + exists cur'. split; [done|]. destruct (_ =? 0); lia.
  - intros a b ka kb [Ha| ->%list_elem_of_singleton]%elem_of_app [Hb'| ->%list_elem_of_singleton]%elem_of_app;
      intros Hka Hkb.
    + rewrite Hold in Hka, Hkb by done. by apply (Hc a b).
    + rewrite Hold in Hka by done. rewrite Hnew in Hkb. injection Hkb as <-. by apply Hai.
    + rewrite Hold in Hkb by done. rewrite Hnew in Hka. injection Hka as <-.
      destruct (Hai b kb Hb' Hkb) as [Hz _]. destruct (Hrows b Hb') as [Hrb _].
      pose proof (pre_flip _ _ Hpre b i Hrb Hi) as Hfl. rewrite Hfl, <- Hz. unfold z_cmp. repeat case_match; bprop; lia.
    + rewrite Hnew in Hka, Hkb. injection Hka as <-. injection Hkb as <-. rewrite (pre_refl _ _ _ Hpre Hi).
      unfold z_cmp. repeat case_match; bprop; lia.
Qed.

Lemma dense_loop_ok pre prev cur r idx :
  ranked pre prev cur r -> NoDup (pre ++ idx) -> Forall (fun a => row n a) idx -> StronglySorted (fun a b => c a b <= 0) (prev :: idx) ->
  (length pre + length idx <= n)%nat ->
  exists r' m prev', dense_loop x prev idx cur r = Some (r', m) /\ ranked (pre ++ idx) prev' m r'.
Proof using Hn Hpre Hdef.
  revert pre prev cur r. induction idx as [|i idx IH]; intros pre prev cur r Hr Hnd Hrows Hss Hlen; cbn [dense_loop].
  { exists r, cur, prev. by rewrite app_nil_r. }
  apply Forall_cons in Hrows as [Hi Hrows]. apply StronglySorted_cons in Hss as [Hle Hss]. apply Forall_cons in Hle as [Hle _].
  destruct (rk_prev _ _ _ _ Hr) as [Hp _]. destruct (rk_rows _ _ _ _ Hr prev Hp) as [Hrp _].
  rewrite Hdef by done. cbn [mbind option_bind]. cbn [length] in Hlen.
  assert (Hni : i ∉ pre).
  { intros Hin. apply NoDup_app in Hnd as (_ & Hd & _). apply (Hd i Hin). by left. }
  pose proof (ranked_step pre prev cur r i Hr Hi Hni Hle ltac:(lia)) as Hstep. cbn zeta in Hstep.
  pose proof (rk_length _ _ _ _ Hr). rewrite aset_ok by lia. cbn [mbind option_bind].
  destruct (IH _ _ _ _ Hstep) as (r' & m & prev' & E & Hr').
  - by rewrite <- app_assoc.
  - done.
  - done.
  - rewrite length_app. cbn [length]. lia.
  - exists r', m, prev'. split; [exact E|]. by rewrite <- app_assoc in Hr'.
Qed.

(** The ranks of all rows compare as the rows. *)
Lemma dense_ranks_ok idx :
  (0 < n)%nat -> idx ≡ₚ seqZ 0 n -> StronglySorted (fun a b => c a b <= 0) idx ->
  exists r m, dense_ranks x idx = Some (r, m) /\ 0 <= m < 2 ^ 32 /\
    (forall a, row n a -> exists k, at_row r a = Some k /\ 0 <= k <= m) /\
    forall a b ka kb, row n a -> row n b -> at_row r a = Some ka -> at_row r b = Some kb -> z_cmp ka kb = Z.sgn (c a b).
Proof using Hn Hpre Hdef.
  intros H0 Hp Hss. pose proof (Permutation_length Hp) as Hl. rewrite length_seqZ, Nat2Z.id in Hl.
  assert (Hin : forall a, a ∈ idx <-> row n a) by (intros a; rewrite Hp, elem_of_seqZ; lia).
  destruct idx as [|i idx]; [simpl in Hl; lia|]. unfold dense_ranks.
  assert (Hi : row n i) by (apply Hin; by left). rewrite aset_ok by (rewrite length_replicate; lia). cbn [mbind option_bind].
  assert (Hfirst : ranked [i] i 0 (<[Z.to_nat i := 0]> (replicate (length (i :: idx)) 0))).
  { assert (Hat : at_row (<[Z.to_nat i := 0]> (replicate (length (i :: idx)) 0)) i = Some 0).
    { rewrite at_row_insert by (rewrite ?length_replicate; lia). by rewrite decide_True. }
    split.
    - by rewrite length_insert, length_replicate.
    - intros a ->%list_elem_of_singleton. rewrite (pre_refl _ _ _ Hpre Hi). lia.
    - split; [by left|exact Hat].
    - simpl. lia.
    - intros a ->%list_elem_of_singleton. exists 0. split; [exact Hat|lia].
    - intros a b ka kb ->%list_elem_of_singleton ->%list_elem_of_singleton. rewrite Hat. intros [= <-] [= <-].
      by rewrite (pre_refl _ _ _ Hpre Hi). }
  destruct (dense_loop_ok [i] i 0 _ idx Hfirst) as (r & m & prev & -> & Hr).
  - rewrite <- (Permutation_app_comm idx [i]), (Permutation_app_comm idx [i]). change ([i] ++ idx) with (i :: idx). rewrite Hp. apply NoDup_seqZ.
  - apply Forall_forall. intros a Ha. apply Hin. by right.
  - done.
  - simpl in *. lia.
  - exists r, m. change ([i] ++ idx) with (i :: idx) in Hr. destruct Hr as [Hlr _ _ Hm Hb Hc]. split; [done|]. split; [lia|]. split.
    + intros a Ha. apply Hb. by apply Hin.
    + intros a b ka kb Ha Hb'. apply Hc; by apply Hin.
Qed.
End dense.

(** ** Several columns *)
Definition rank_at (r : list Z * Z) (a : Z) : Z := default 0 (at_row r.1 a).

Lemma rank_row_ok (l : list (list Z * Z)) bits a :
  (forall r, r ∈ l -> at_row r.1 a = Some (rank_at r a)) -> Forall2 fits ((fun g => g a) <$> (rank_at <$> l)) bits -> sum_bits bits <= 64 ->
  rank_row l.*1 (bit_shifts bits).1 a = Some (pack_key (rank_at <$> l) bits a).
Proof.
  intros Hl Hfit Hs. unfold rank_row, pack_key. rewrite <- list_fmap_compose in Hfit |- *.
  pose proof (Forall2_length _ _ _ Hfit) as Hlen. rewrite length_fmap in Hlen.
  assert (Hnn : Forall (Z.le 0) bits) by (clear -Hfit; remember (_ <$> l) as k eqn:E; clear E; induction Hfit as [|? ? ? ? [] ]; by constructor).
  destruct (bit_shifts_ok bits Hnn Hs) as [_ Hsl].
  set (ps := zip l.*1 (bit_shifts bits).1).
  assert (Hx : (fun p => default 0 (at_row p.1 a)) <$> ps = (fun r => rank_at r a) <$> l).
  { transitivity ((fun r => default 0 (at_row r a)) <$> ps.*1); [by rewrite <- list_fmap_compose|].
    unfold ps. rewrite fst_zip by (rewrite length_fmap; lia). by rewrite <- list_fmap_compose. }
  pose proof (pack_fold_ok (fun composite p => r ← at_row p.1 a; Some (Z.lor composite (u64 (Z.shiftl r p.2))))
    (fun p => default 0 (at_row p.1 a)) snd ps bits 0) as Hfold.
  rewrite Z.mul_0_l, Z.add_0_l, Hx in Hfold. apply Hfold; [|by apply snd_zip; rewrite length_fmap; lia|exact Hfit|done|done|done].
  intros comp [r sh] Hin. apply elem_of_zip_l in Hin as Hin1. apply list_elem_of_fmap in Hin1 as (r' & -> & Hr').
  cbn [fst snd]. by rewrite (Hl r' Hr').
Qed.

Lemma bits_ok (ranges : list Z) :
  Forall (fun r => 0 <= r < 2 ^ 64) ranges -> (length ranges <= 16)%nat ->
  exists bits, mapM bits_of ranges = Some bits /\ total_bits bits = sum_bits bits /\ Forall (fun b => 1 <= b <= 64) bits /\
    Forall2 (fun r b => r < 2 ^ b /\ (b = 1 \/ 2 ^ (b - 1) <= r)) ranges bits.
Proof.
  intros Hr Hl.
  destruct (mapM_exists bits_of (fun r b => 1 <= b <= 64 /\ r < 2 ^ b /\ (b = 1 \/ 2 ^ (b - 1) <= r)) ranges) as (bits & E & Hb).
  { intros r Hin. rewrite Forall_forall in Hr. apply bits_of_ok. auto. }
  exists bits. pose proof (Forall2_length _ _ _ Hb) as Hlen.
  assert (H64 : Forall (fun b => 1 <= b <= 64) bits) by (clear -Hb; induction Hb as [|? ? ? ? [] ]; by constructor).
  split; [done|]. split; [apply total_bits_ok; [done|lia]|]. split; [done|]. eapply Forall2_impl; [exact Hb|]. by intros r b [_ ?].
Qed.

Abbreviation col_of q := (q.1.1 : col).
Abbreviation sortable n := (fun q : kcol => col_sortable n (col_of q) q.1.2 q.2).
Abbreviation q_cmp q := (key_cmp (col_of q) q.1.2 q.2).

Lemma lex_keys_pre (n : nat) ks : Forall (sortable n) ks -> preorder_on (fun a => row n a) (lex_keys ks).
Proof.
  induction 1 as [|[[c d] nf] ks Hq _ IH]; cbn [lex_keys].
  - split; cbn; lia.
  - eapply pre_ext; [|apply (pre_lex _ (key_cmp c d nf) (lex_keys ks)); [apply key_cmp_pre, Hq|done]].
    intros a b _ _. cbn beta. by destruct (_ =? 0).
Qed.

Section several.
Context (n : nat) (v : menv) (Hmain : env_ok n (m_main v)) (Hsub : forall k, env_ok n (m_sub v k)) (Hn : n < 2 ^ 32) (H0 : (0 < n)%nat).
Context (Ha4 : e_alloc (m_main v) 4 = true) (Hs4 : forall k, e_alloc (m_sub v k) 4 = true).
Context (pool : option nat) (Hpool : pool = e_pool (m_main v) \/ pool = None).


(** The ranks [r.1], at most [r.2], of the rows in one column. *)
Definition ranks_of (q : kcol) (r : list Z * Z) : Prop :=
  0 <= r.2 < 2 ^ 32 /\ (forall a, row n a -> at_row r.1 a = Some (rank_at r a) /\ 0 <= rank_at r a <= r.2) /\
  forall a b, row n a -> row n b -> z_cmp (rank_at r a) (rank_at r b) = Z.sgn (q_cmp q a b).

Lemma sort_cmp_one q a b : sortable n q -> row n a -> row n b ->
  sort_cmp (SortCtx [Some (col_of q)] (Some [q.1.2]) (Some [q.2])) a b = Some (q_cmp q a b).
Proof using Type.
  intros Hq Ha Hb. unfold sort_cmp. cbn [x_vecs].
  rewrite (cmp_keys_lex n _ [q]) by (done || (intros [|i] q' [= <-]; by split) || (repeat constructor; apply Hq)).
  destruct q as [[c d] nf]. cbn [lex_keys fst snd]. destruct (_ =? 0) eqn:E; bprop; [by rewrite E|done].
Qed.

Lemma rank_keys_ok ks k : Forall (sortable n) ks ->
  exists rs, rank_keys v k ks.*1.*1 ks.*1.*2 ks.*2 n = Some rs /\ forall l, rs = Some l -> Forall2 ranks_of ks l.
Proof using Hsub Hs4 Hn H0.
  intros Hks. revert k. induction Hks as [|q ks Hq _ IH]; intros k; cbn [fmap list_fmap rank_keys].
  { exists (Some []). split; [done|]. by intros l [= <-]. }
  destruct (sort_column_ok n (m_sub v k) (Hsub k) Hn H0 (col_of q) q.1.2 q.2 Hq (Some q.1.2) (Some q.2)) as (r & -> & Ho & _); [done..|].
  cbn [mbind option_bind]. destruct r as [idx|]; [|by exists None]. destruct (Ho idx eq_refl) as [[[Hp Hss] _] _].
  destruct (m_rank_alloc v k); cbn [negb]; [|by exists None].
  pose proof (key_cmp_pre n _ (cs_col _ _ _ _ Hq) q.1.2 q.2) as Hpre.
  set (x := SortCtx [Some (col_of q)] (Some [q.1.2]) (Some [q.2])).
  assert (Hx : forall a b, row n a -> row n b -> cmp_of x a b = q_cmp q a b).
  { intros a b Ha Hb. unfold cmp_of, x. by rewrite sort_cmp_one. }
  destruct (dense_ranks_ok n Hn x) with (idx := idx) as (r & m & -> & Hm & Hr & Hc); [| |done|done| |].
  - intros a b Ha Hb. rewrite Hx by done. by apply sort_cmp_one.
  - eapply pre_ext; [|exact Hpre]. intros a b Ha Hb. cbn beta. by rewrite Hx.
  - eapply StronglySorted_weaken_in; [|exact Hss]. intros a b Ha Hb Hle. rewrite Hp in Ha, Hb. apply elem_of_seqZ in Ha, Hb.
    by rewrite Hx by lia.
  - cbn [mbind option_bind]. destruct (IH (S k)) as (rs & -> & Hrs). cbn [mbind option_bind].
    exists (option_map (cons (r, m)) rs). split; [done|]. intros l Hl. destruct rs as [rs|]; [|done]. injection Hl as <-.
    constructor; [|by apply Hrs]. unfold ranks_of, rank_at. cbn [fst snd]. split; [done|]. split.
    + intros a Ha. destruct (Hr a Ha) as (i & -> & ?). by cbn [default].
    + intros a b Ha Hb. destruct (Hr a Ha) as (i & Ei & ?), (Hr b Hb) as (j & Ej & ?). rewrite <- Hx by done.
      rewrite Ei, Ej. cbn [default]. unfold id. by apply Hc.
Qed.

Lemma sort_by_ranks_ok ks : Forall (sortable n) ks -> (1 <= length ks <= 16)%nat ->
  exists s, sort_by_ranks v pool ks.*1.*1 ks.*1.*2 ks.*2 n = Some s /\ s <> NullIdx /\ settled n (lex_keys ks) s.
Proof using Hmain Hsub Hs4 Ha4 Hn H0 Hpool.
  intros Hks Hlen. unfold sort_by_ranks. destruct (rank_keys_ok ks 0 Hks) as (rs & -> & Hrs). cbn [mbind option_bind].
  destruct rs as [l|]; [|by exists NotSorted]. specialize (Hrs l eq_refl). pose proof (Forall2_length _ _ _ Hrs) as Hl.
  assert (Hall : forall r, r ∈ l -> exists q, ranks_of q r).
  { intros r [i Hi]%list_elem_of_lookup. destruct (Forall2_lookup_r _ _ _ _ _ Hrs Hi) as (q & _ & ?). by exists q. }
  destruct (bits_ok l.*2) as (bits & -> & Ht & Hb & Hrb); [|rewrite length_fmap; lia|].
  { apply Forall_forall. intros m (r & -> & Hr)%list_elem_of_fmap. destruct (Hall r Hr) as (q & ? & _). lia. }
  cbn [mbind option_bind]. rewrite Ht. pose proof (Forall2_length _ _ _ Hrb) as Hlb. rewrite length_fmap in Hlb.
  destruct (64 <? sum_bits bits) eqn:E; bprop; [by exists NotSorted|].
  destruct (e_alloc (m_main v) 12); cbn [negb]; [|by exists NotSorted].
  set (gs := rank_at <$> l).
  assert (Hfit : forall a, row n a -> Forall2 fits ((fun g => g a) <$> gs) bits).
  { intros a Ha. apply Forall2_same_length_lookup_2; [unfold gs; rewrite !length_fmap; lia|].
    intros i x b Hx Hb'. unfold gs in Hx. rewrite <- list_fmap_compose in Hx. apply list_lookup_fmap_Some in Hx as (r & -> & Hr).
    destruct (Hall r ltac:(by eapply list_elem_of_lookup_2)) as (q & _ & Hra & _). specialize (Hra a Ha).
    assert (Er : l.*2 !! i = Some r.2) by (apply list_lookup_fmap_Some; by exists r).
    destruct (Forall2_lookup_l _ _ _ _ _ Hrb Er) as (b' & Eb & Hlt & _).
    assert (b' = b) by congruence. subst b'. rewrite Forall_lookup in Hb. specialize (Hb i b Hb'). cbn. split; lia. }
  assert (Hcmp : forall a b, row n a -> row n b -> Forall2 (fun q g => z_cmp (g a) (g b) = Z.sgn (q_cmp q a b)) ks gs).
  { intros a b Ha Hb'. apply Forall2_fmap_r. eapply Forall2_impl; [exact Hrs|]. intros q r (_ & _ & Hq). by apply Hq. }
  pose proof (encode_rows_ok n (rank_row l.*1 (bit_shifts bits).1) (pack_key gs bits)) as Henc.
  specialize (fun H => Henc H None [] (replicate n (0, 0))). cbn [encode_rows] in Henc. rewrite length_replicate in Henc.
  rewrite Henc; [|intros a Ha; apply rank_row_ok; [|by apply Hfit|done]|done|done].
  - cbn [mbind option_bind]. rewrite keyed_rows.
    destruct (sort_composed_ok n (m_main v) Hmain Hn H0 pool (pack_key gs bits) (lex_keys ks)
      (fun a b Ha Hb' => pack_key_cmp n ks gs bits Hfit Hcmp a b Ha Hb') (e_alloc (m_main v) 13) (comp_nbytes (sum_bits bits))) as (s & -> & Hnn & Hs).
    + apply (pack_agree n gs bits Hb E Hfit). lia.
    + exists s. auto.
  - intros r Hr. destruct (Hall r Hr) as (q & _ & Hra & _). by apply Hra.
Qed.
End several.

(** ** The values of several columns *)
(** The doubles of a column are of one sign, or some of each are so close to
    zero that the range of their values takes all 64 bits. *)
Definition floats_ok (c : col) : Prop :=
  one_sign c \/ is_f64 (c_type c) = true /\ exists x y, x ∈ c_data c /\ y ∈ c_data c /\ x < 2 ^ 63 <= y /\ x + y < 2 ^ 64.

(** The key of a column, with the ranks of its symbols. *)
Definition keyed_col (q : kcol) (key : mkey) : Prop :=
  exists rank, key = mkey_of (col_of q) rank /\ enc_ok (col_of q) rank.

Definition key_at (key : mkey) (a : Z) : Z := default 0 (key_val key a).

Lemma keyed_valued n q key : sortable n q -> keyed_col q key -> valued n key (key_at key).
Proof.
  intros Hq (rank & -> & He). split.
  - pose proof (eo_type _ _ He) as Ht. unfold has_values, mkey_of, encodable in *. cbn [fst snd].
    case_bool_decide as Es; [done|]. rewrite orb_false_r in Ht. revert Ht.
    by destruct (is_i64 _), (is_f64 _), (is_i32 _), (bool_decide _), (is_byte _).
  - intros a Ha. apply (val_at_ok n _ (cs_col _ _ _ _ Hq) _ He a Ha).
Qed.

(** The range of the second case. *)
Lemma wide_floats n q key st x y :
  sortable n q -> keyed_col q key -> is_f64 (c_type (col_of q)) = true ->
  x ∈ c_data (col_of q) -> y ∈ c_data (col_of q) -> x < 2 ^ 63 <= y -> x + y < 2 ^ 64 ->
  (forall a, row n a -> st.1 <= key_at key a <= st.2) -> 2 ^ 63 <= st.2 - st.1.
Proof.
  intros Hq (rank & -> & He) Hf Hx Hy Hxy Hsum Hin. pose proof (eo_elems _ _ He) as Hel. rewrite Forall_forall in Hel.
  assert (Hv : forall z, z ∈ c_data (col_of q) -> 0 <= z < 2 ^ 64 /\ exists a, row n a /\ key_at (mkey_of (col_of q) rank) a = i64 (Z.lxor z (f64_mask z))).
  { intros z Hz. specialize (Hel z Hz). unfold elem_ok in Hel. rewrite Hf in Hel.
    assert (is_i64 (c_type (col_of q)) = false) as E by (revert Hf; by destruct (c_type (col_of q))). rewrite E in Hel. split; [exact Hel|].
    apply list_elem_of_lookup_1 in Hz as [i Hi]. pose proof (lookup_lt_Some _ _ _ Hi) as Hlt.
    assert (Hl : length (c_data (col_of q)) = n) by (rewrite <- (cs_len _ _ _ _ Hq); unfold c_len; revert Hf; by destruct (c_type (col_of q))).
    exists i. split; [lia|]. unfold key_at, mkey_of, key_val. rewrite bool_decide_eq_false_2 by (revert Hf; by destruct (c_type (col_of q))).
    rewrite Hf. unfold at_row. rewrite (proj2 (Z.ltb_ge i 0)), Nat2Z.id by lia. by rewrite Hi. }
  destruct (Hv x Hx) as (Hx1 & a & Ha & Ea), (Hv y Hy) as (Hy1 & b & Hb & Eb).
  pose proof (Hin a Ha) as Ha'. pose proof (Hin b Hb) as Hb'. rewrite Ea in Ha'. rewrite Eb in Hb'.
  rewrite enc_f64_mag in Ha', Hb' by done. unfold f_mag in Ha', Hb'. change (52 + 11) with 63 in Ha', Hb'.
  rewrite Z.testbit_eqb, Z.div_small in Ha' by lia. change (0 mod 2 =? 1) with false in Ha'.
  assert (y / 2 ^ 63 = 1) as Hq1 by (symmetry; apply (Z.div_unique_pos _ _ _ (y - 2 ^ 63)); lia).
  assert (y mod 2 ^ 63 = y - 2 ^ 63) as Hm1 by (symmetry; apply (Z.mod_unique_pos _ _ 1); lia).
  rewrite Z.testbit_eqb, Hq1, Hm1 in Hb' by lia. change (1 mod 2 =? 1) with true in Hb'. cbv iota in Ha', Hb'.
  rewrite (Z.mod_small x) in Ha' by lia. unfold i64, sgn in Ha', Hb'. rewrite !wrap_small in Ha' by lia. rewrite !wrap_small in Hb' by lia.
  change (64 - 1) with 63 in *. revert Ha' Hb'. bif; bif; lia.
Qed.

Lemma make_parts_shift keys descs ranges shifts :
  length descs = length keys -> length ranges = length keys -> length shifts = length keys ->
  pt_shift <$> make_parts keys descs ranges shifts = shifts /\ length (make_parts keys descs ranges shifts) = length keys.
Proof.
  revert descs ranges shifts. induction keys as [|key keys IH]; intros [|d descs] [|r ranges] [|s shifts] H1 H2 H3; try discriminate; [done|].
  destruct (IH descs ranges shifts) as [E1 E2]; [simpl in *; lia..|]. cbn [make_parts fmap list_fmap pt_shift length]. by rewrite E1, E2.
Qed.

Lemma make_parts_lookup keys descs ranges shifts (i : nat) p :
  make_parts keys descs ranges shifts !! i = Some p ->
  exists key d r s, keys !! i = Some key /\ descs !! i = Some d /\ ranges !! i = Some r /\ p = Part key d r.1 (range_of r) s.
Proof.
  revert descs ranges shifts i. induction keys as [|key keys IH]; intros [|d descs] [|r ranges] [|s shifts] i; try done.
  cbn [make_parts]. destruct i as [|i]; [intros [= <-]; by exists key, d, r, s|]. intros H. exact (IH _ _ _ i H).
Qed.

Lemma sum_bits_app l k : sum_bits (l ++ k) = sum_bits l + sum_bits k.
Proof.
  induction l as [|x l IH]; [done|]. change (sum_bits ((x :: l) ++ k)) with (x + sum_bits (l ++ k)).
  change (sum_bits (x :: l)) with (x + sum_bits l). lia.
Qed.

Section values.
Context (n : nat) (ks : list kcol) (Hks : Forall (sortable n) ks) (keys : list mkey) (Hkeys : Forall2 keyed_col ks keys).
Context (ranges : list (Z * Z)) (Hranges : Forall2 (spans n) (key_at <$> keys) ranges) (bits : list Z).
Context (Hb : Forall (fun b => 1 <= b <= 64) bits)
  (Hrb : Forall2 (fun r b => r < 2 ^ b /\ (b = 1 \/ 2 ^ (b - 1) <= r)) (range_of <$> ranges) bits).

Lemma all_keys_valued : Forall2 (valued n) keys (key_at <$> keys).
Proof using Hks Hkeys.
  apply Forall2_fmap_r, Forall2_same_length_lookup_2; [done|]. intros i key key' Hi Hi'. assert (key' = key) as -> by congruence.
  destruct (Forall2_lookup_r _ _ _ _ _ Hkeys Hi) as (q & Hq & Hk). rewrite Forall_lookup in Hks. by apply (keyed_valued n q); [apply (Hks i)|].
Qed.

(** Everything about the column of a place. *)
Lemma column_at (i : nat) q : ks !! i = Some q ->
  exists key st b, keys !! i = Some key /\ ranges !! i = Some st /\ bits !! i = Some b /\
    sortable n q /\ keyed_col q key /\ spans n (key_at key) st /\ 1 <= b <= 64 /\ range_of st < 2 ^ b /\
    (b = 1 \/ 2 ^ (b - 1) <= range_of st) /\ INT64_MIN <= st.1 <= INT64_MAX /\ range_of st = st.2 - st.1 /\ 0 <= range_of st < 2 ^ 64.
Proof using Hks Hkeys Hranges Hb Hrb.
  intros Hi. destruct (Forall2_lookup_l _ _ _ _ _ Hkeys Hi) as (key & Hk & Hkc).
  assert (Ek : (key_at <$> keys) !! i = Some (key_at key)) by (by rewrite list_lookup_fmap, Hk).
  destruct (Forall2_lookup_l _ _ _ _ _ Hranges Ek) as (st & Hst & Hsp).
  assert (Er : (range_of <$> ranges) !! i = Some (range_of st)) by (by rewrite list_lookup_fmap, Hst).
  destruct (Forall2_lookup_l _ _ _ _ _ Hrb Er) as (b & Eb & Hlt & Hlow). pose proof (proj1 (Forall_lookup _ _) Hb) as Hbl.
  destruct (Forall2_lookup_l _ _ _ _ _ all_keys_valued Hk) as (f & Ef & _ & Hf). assert (f = key_at key) as -> by congruence.
  pose proof Hsp as (_ & (a1 & Ha1 & E1) & (a2 & Ha2 & E2)). pose proof (proj2 (Hf a1 Ha1)) as B1. pose proof (proj2 (Hf a2 Ha2)) as B2.
  rewrite E1 in B1. rewrite E2 in B2. pose proof (proj1 Hsp a1 Ha1). unfold INT64_MIN, INT64_MAX in *.
  assert (Hr : range_of st = st.2 - st.1) by (apply u64_small; lia).
  pose proof (Hbl i b Eb) as Hbb. pose proof (Forall_lookup_1 _ _ _ _ Hks Hi) as Hq. cbn beta in Hbb.
  exists key, st, b. do 6 (split; [assumption|]). split; [exact Hbb|]. split; [exact Hlt|]. split; [exact Hlow|]. rewrite Hr. lia.
Qed.

Abbreviation parts := (make_parts keys ks.*1.*2 ranges (bit_shifts bits).1).

Lemma lengths : length keys = length ks /\ length ranges = length ks /\ length bits = length ks.
Proof using Hkeys Hranges Hrb.
  pose proof (Forall2_length _ _ _ Hkeys) as L1. pose proof (Forall2_length _ _ _ Hranges) as L2.
  pose proof (Forall2_length _ _ _ Hrb) as L3. rewrite !length_fmap in *. lia.
Qed.

Lemma part_place (i : nat) p : parts !! i = Some p ->
  exists q key st b s, ks !! i = Some q /\ keys !! i = Some key /\ ranges !! i = Some st /\ bits !! i = Some b /\
    p = Part key q.1.2 st.1 (range_of st) s.
Proof using Hks Hkeys Hranges Hb Hrb.
  intros Hp. destruct (make_parts_lookup _ _ _ _ _ _ Hp) as (key & d & st & s & Hk & Hd & Hst & ->).
  rewrite !list_lookup_fmap in Hd. destruct (ks !! i) as [q|] eqn:Hq; [|done]. injection Hd as <-.
  destruct (column_at i q Hq) as (key' & st' & b & Hk' & Hst' & Eb & _). exists q, key, st, b, s. done.
Qed.

Lemma parts_ok a : row n a -> forall p, p ∈ parts -> part_ok p a.
Proof using Hks Hkeys Hranges Hb Hrb.
  intros Ha p [i Hi]%list_elem_of_lookup_1. destruct (part_place i p Hi) as (q & key & st & b & s & Hq & Hk & Hst & Eb & ->).
  destruct (column_at i q Hq) as (key' & st' & b' & Hk' & Hst' & _ & Hs & Hkc & Hsp & _ & _ & _ & Hm & Hr & Hr').
  assert (key' = key) as -> by congruence. assert (st' = st) as -> by congruence.
  destruct (proj2 (keyed_valued n q key Hs Hkc) a Ha) as [Hv Hv']. pose proof (proj1 Hsp a Ha). exists (key_at key a).
  cbn [pt_key pt_min pt_range]. split_and!; try done; lia.
Qed.

Context (Hsum : sum_bits bits <= 64).

Lemma parts_fit a : row n a -> Forall2 fits ((fun g => g a) <$> (part_val <$> parts)) bits.
Proof using Hks Hkeys Hranges Hb Hrb Hsum.
  intros Ha. destruct lengths as (L1 & L2 & L3).
  assert (Hnn : Forall (Z.le 0) bits) by (eapply Forall_impl; [exact Hb|]; cbn; lia).
  destruct (bit_shifts_ok bits Hnn Hsum) as [_ L4]. destruct (make_parts_shift keys ks.*1.*2 ranges (bit_shifts bits).1) as [_ L5];
    [rewrite !length_fmap; lia|lia|lia|].
  apply Forall2_same_length_lookup_2; [rewrite !length_fmap; lia|]. intros i x b Hx Eb. rewrite <- list_fmap_compose in Hx.
  apply list_lookup_fmap_Some in Hx as (p & -> & Hp). destruct (part_place i p Hp) as (q & key & st & b' & s & Hq & Hk & Hst & Eb' & ->).
  destruct (column_at i q Hq) as (key' & st' & b'' & Hk' & Hst' & Eb'' & Hs & Hkc & Hsp & Hb1 & Hlt & _ & _ & Hr & _).
  assert (key' = key) as -> by congruence. assert (st' = st) as -> by congruence. assert (b'' = b) as -> by congruence.
  pose proof (proj1 Hsp a Ha). unfold compose, part_val, fits. cbn [pt_key pt_min pt_range pt_desc].
  change (default 0 (key_val key a)) with (key_at key a). destruct q.1.2; split; lia.
Qed.

Context (Hnf : Forall (fun q : kcol => c_nulls (col_of q) = true -> q.2 = negb q.1.2) ks) (Hfl : Forall (fun q : kcol => floats_ok (col_of q)) ks).
Context (Hn2 : (2 <= length ks)%nat).

(** With two columns in 64 bits no column takes them all. *)
Lemma bit_left (i : nat) b : bits !! i = Some b -> b <= 63.
Proof using Hb Hn2 Hsum Hkeys Hranges Hrb.
  intros Hi. pose proof (Forall2_length _ _ _ Hkeys) as L1. pose proof (Forall2_length _ _ _ Hranges) as L2.
  pose proof (Forall2_length _ _ _ Hrb) as L3. rewrite !length_fmap in *.
  rewrite <- (take_drop_middle bits i b Hi) in Hsum, Hb, L3. rewrite length_app in L3. cbn [length] in L3.
  apply Forall_app in Hb as [Hb1 Hb2]. apply Forall_cons in Hb2 as [_ Hb2].
  pose proof (sum_bits_pos _ Hb1) as S1. pose proof (sum_bits_pos _ Hb2) as S2.
  rewrite sum_bits_app in Hsum. change (sum_bits (b :: drop (S i) bits)) with (b + sum_bits (drop (S i) bits)) in Hsum. lia.
Qed.

Lemma all_one_sign (i : nat) q : ks !! i = Some q -> one_sign (col_of q).
Proof using Hks Hkeys Hranges Hb Hrb Hfl Hn2 Hsum.
  intros Hi. rewrite Forall_lookup in Hfl. destruct (Hfl i q Hi) as [|(Hf & x & y & Hx & Hy & Hxy & Hs)]; [done|exfalso].
  destruct (column_at i q Hi) as (key & st & b & Hk & Hst & Eb & Hq & Hkc & Hsp & Hb1 & Hlt & _ & _ & Hr & _).
  pose proof (wide_floats n q key st x y Hq Hkc Hf Hx Hy Hxy Hs (proj1 Hsp)) as Hw. pose proof (bit_left i b Eb).
  assert (2 ^ b <= 2 ^ 63) by (apply Z.pow_le_mono_r; lia). lia.
Qed.

Lemma parts_cmp a b : row n a -> row n b ->
  Forall2 (fun q g => z_cmp (g a) (g b) = Z.sgn (q_cmp q a b)) ks (part_val <$> parts).
Proof using Hks Hkeys Hranges Hb Hrb Hfl Hn2 Hsum Hnf.
  intros Ha Hb'. destruct lengths as (L1 & L2 & L3).
  assert (Hnn : Forall (Z.le 0) bits) by (eapply Forall_impl; [exact Hb|]; cbn; lia).
  destruct (bit_shifts_ok bits Hnn Hsum) as [_ L4]. destruct (make_parts_shift keys ks.*1.*2 ranges (bit_shifts bits).1) as [_ L5];
    [rewrite !length_fmap; lia|lia|lia|].
  apply Forall2_same_length_lookup_2; [rewrite length_fmap; lia|]. intros i q g Hq Hg.
  apply list_lookup_fmap_Some in Hg as (p & -> & Hp). destruct (part_place i p Hp) as (q' & key & st & b' & s & Hq' & Hk & Hst & Eb' & ->).
  assert (q' = q) as -> by congruence.
  destruct (column_at i q Hq) as (key' & st' & b'' & Hk' & Hst' & Eb'' & Hs & (rank & Ekey & He) & _).
  assert (key' = key) as -> by congruence. rewrite Forall_lookup in Hnf.
  rewrite (val_cmp n (col_of q) (cs_col _ _ _ _ Hs) q.1.2 q.2 rank He (Hnf i q Hq) a b (all_one_sign i q Hq) Ha Hb').
  unfold part_val. cbn [pt_key pt_min pt_range pt_desc]. rewrite Ekey. fold (val_at (col_of q) rank a) (val_at (col_of q) rank b).
  unfold z_cmp. destruct q.1.2; repeat case_match; bprop; lia.
Qed.
End values.

(** ** The whole sort *)
Section whole.
Context (n : nat) (v : menv) (Hmain : env_ok n (m_main v)) (Hsub : forall k, env_ok n (m_sub v k)) (Hn : n < 2 ^ 32) (H0 : (0 < n)%nat).
Context (Ha4 : e_alloc (m_main v) 4 = true) (Hs4 : forall k, e_alloc (m_sub v k) 4 = true) (H64 : (64 < n)%nat).

Lemma build_ranks_ok ks k : Forall (sortable n) ks ->
  exists r, build_ranks v k ks.*1.*1 n = Some r /\
    forall keys, r = Some keys -> Forall2 (fun q key => encodable (c_type (col_of q)) = true -> keyed_col q key) ks keys.
Proof using Hmain H0 H64.
  intros Hks. revert k. induction Hks as [|q ks Hq _ IH]; intros k; cbn [fmap list_fmap build_ranks].
  { exists (Some []). split; [done|]. by intros l [= <-]. }
  assert (Hr : exists r, (if bool_decide (c_type (col_of q) = RAY_SYM) then
      r ← build_enum_rank (m_enum_alloc v k) (e_pool (m_main v)) (e_runs (m_main v) (16 + k)) (col_of q) n; Some (option_map Some r)
      else Some (Some None)) = Some r /\
      forall o, r = Some o -> encodable (c_type (col_of q)) = true -> keyed_col q (col_of q, o)).
  { case_bool_decide as Et.
    - pose proof (cs_col _ _ _ _ Hq) as Hc. pose proof (cs_len _ _ _ _ Hq) as Hl. unfold c_len in Hl. rewrite Et in Hl.
      destruct (rr_dom _ _ _ (cs_radix _ _ _ _ Hq H64) Et) as [Hnd Hdl]. pose proof (ok_sym _ _ Hc Et) as Hids.
      assert (Hpos : (0 < length (c_dom (col_of q)))%nat).
      { destruct (c_data (col_of q)) as [|x l]; [simpl in Hl; lia|]. apply Forall_cons in Hids as [Hx _]. lia. }
      destruct (build_enum_rank_ok (e_pool (m_main v)) (e_runs (m_main v) (16 + k)) (col_of q) n) as (rank & Hr & Hrk);
        [intros nw Hp; by apply env_run|done|done|done|done|].
      destruct (no_rank_memory (m_enum_alloc v k) (e_pool (m_main v)) (e_runs (m_main v) (16 + k)) (col_of q) n) as [E | [E _]];
        rewrite E; [rewrite Hr; exists (Some (Some rank))|by exists None].
      split; [done|]. intros o [= <-] Henc. exists rank. split; [unfold mkey_of; by rewrite bool_decide_eq_true_2|].
      by apply (sortable_enc n (col_of q) q.1.2 q.2).
    - exists (Some None). split; [done|]. intros o [= <-] Henc. exists []. split; [unfold mkey_of; by rewrite bool_decide_eq_false_2|].
      by apply (sortable_enc n (col_of q) q.1.2 q.2). }
  destruct Hr as (r & -> & Hr). cbn [mbind option_bind]. destruct r as [o|]; [|by exists None].
  destruct (IH (S k)) as (rs & -> & Hrs). cbn [mbind option_bind]. exists (option_map (cons (col_of q, o)) rs). split; [done|].
  intros l Hl. destruct rs as [rs|]; [|done]. injection Hl as <-. constructor; [by apply Hr|by apply Hrs].
Qed.

Lemma sort_several_keys_ok ks : Forall (sortable n) ks -> (2 <= length ks <= 16)%nat ->
  Forall (fun q : kcol => c_nulls (col_of q) = true -> q.2 = negb q.1.2) ks -> Forall (fun q : kcol => floats_ok (col_of q)) ks ->
  can_radix_all (Some <$> ks.*1.*1) = true -> e_alloc (m_main v) 14 = true ->
  exists s, sort_several_keys v ks.*1.*1 ks.*1.*2 ks.*2 n = Some s /\ s <> NullIdx /\ settled n (lex_keys ks) s.
Proof using Hmain Hsub Hs4 Ha4 Hn H0 H64.
  intros Hks Hlen Hnf Hfl Hrad H14. unfold sort_several_keys. destruct (build_ranks_ok ks 0 Hks) as (r & -> & Hr). cbn [mbind option_bind].
  destruct r as [keys|]; [|by exists NotSorted]. specialize (Hr keys eq_refl).
  set (pool := if SMALL_POOL_THRESHOLD <=? n then e_pool (m_main v) else None).
  assert (Hpool : pool = e_pool (m_main v) \/ pool = None) by (unfold pool; bif; auto).
  pose proof (sort_by_ranks_ok n v Hmain Hsub Hn H0 Ha4 Hs4 pool Hpool ks Hks ltac:(lia)) as Hby.
  destruct (existsb _ _) eqn:Ew; [exact Hby|].
  assert (Henc : forall q, q ∈ ks -> encodable (c_type (col_of q)) = true).
  { intros q Hq. assert (Hin : In (col_of q) ks.*1.*1) by (apply list_elem_of_In, list_elem_of_fmap; exists q.1; split; [done|]; apply list_elem_of_fmap; by exists q).
    assert (Ew' : ~ exists c, In c ks.*1.*1 /\ is_wide (c_type c) = true) by (rewrite <- existsb_exists, Ew; done). unfold can_radix_all in Hrad. rewrite forallb_forall in Hrad.
    specialize (Hrad (Some (col_of q)) ltac:(apply list_elem_of_In, list_elem_of_fmap; exists (col_of q); split; [done|by apply list_elem_of_In])).
    cbn in Hrad. apply orb_true_iff in Hrad as [Hw|]; [|done]. destruct Ew'. by exists (col_of q). }
  assert (Hkeys : Forall2 keyed_col ks keys).
  { apply Forall2_same_length_lookup_2; [by apply Forall2_length in Hr|]. intros i q key Hq Hk.
    destruct (Forall2_lookup_l _ _ _ _ _ Hr Hq) as (key' & Hk' & He). assert (key' = key) as -> by congruence.
    apply He, Henc. by eapply list_elem_of_lookup_2. }
  pose proof (all_keys_valued n ks Hks keys Hkeys) as Hval. rewrite H14.
  destruct (key_ranges_ok n keys (key_at <$> keys) Hval H0 true pool (e_runs (m_main v) 5)) as (ranges & -> & Hranges); [|done|].
  { intros nw Hp. apply env_run; [done|done|]. destruct Hpool; congruence. }
  cbn [mbind option_bind]. pose proof (Forall2_length _ _ _ Hranges) as L2. pose proof (Forall2_length _ _ _ Hkeys) as L1. rewrite length_fmap in L2.
  destruct (bits_ok (range_of <$> ranges)) as (bits & -> & Ht & Hb & Hrb).
  { apply Forall_forall. intros x (st & -> & _)%list_elem_of_fmap. apply wrap_range. lia. }
  { rewrite length_fmap. lia. }
  cbn [mbind option_bind]. rewrite Ht. destruct (64 <? sum_bits bits) eqn:E; [exact Hby|]. bprop.
  set (parts := make_parts keys ks.*1.*2 ranges (bit_shifts bits).1).
  pose proof (parts_fit n ks Hks keys Hkeys ranges Hranges bits Hb Hrb E) as Hfit. fold parts in Hfit.
  pose proof (parts_cmp n ks Hks keys Hkeys ranges Hranges bits Hb Hrb E Hnf Hfl ltac:(lia)) as Hcmp. fold parts in Hcmp.
  destruct (lengths n ks keys Hkeys ranges Hranges bits Hrb) as (_ & _ & L3).
  destruct (sort_composite_ok n (m_main v) Hmain Hn H0 pool Hpool (pack_key (part_val <$> parts) bits) (lex_keys ks)
    (fun a b Ha Hb' => pack_key_cmp n ks _ bits Hfit Hcmp a b Ha Hb') parts (comp_nbytes (sum_bits bits))) as (s & -> & Hnn & Hs).
  - intros a Ha. apply compose_row_ok; [by apply (parts_ok n ks Hks keys Hkeys ranges Hranges bits Hb Hrb)| |by apply Hfit|done].
    apply (make_parts_shift keys ks.*1.*2 ranges); [rewrite !length_fmap; lia|lia|].
    rewrite (proj2 (bit_shifts_ok bits (nonneg_bits bits Hb) E)). lia.
  - apply Forall_forall. intros k (a & -> & Ha%elem_of_seqZ)%list_elem_of_fmap. apply (pack_key_word n _ bits E Hfit). lia.
  - apply (pack_agree n _ bits Hb E Hfit). lia.
  - exists s. auto.
Qed.
End whole.

(** What the sort of several columns assumes of each: that it can be sorted,
    and above 64 rows that its nulls, if any, are where they are by default,
    and the doubles. *)
Definition key_col_ok (n : nat) (q : kcol) : Prop :=
  sortable n q /\ ((64 < n)%nat -> (c_nulls (col_of q) = true -> q.2 = negb q.1.2) /\ floats_ok (col_of q)).

Section columns.
Context (n : nat) (cols : list col) (descs : option (list bool)) (nfs : list bool).
Abbreviation ds := (default (replicate (length cols) false) descs).
Context (Hds : length ds = length cols) (Hnfs : length nfs = length cols).
Abbreviation ks := (zip (zip cols ds) nfs).
Abbreviation x := (SortCtx (Some <$> cols) descs (Some nfs)).

Lemma zipped : ks.*1.*1 = cols /\ ks.*1.*2 = ds /\ ks.*2 = nfs.
Proof using Hds Hnfs.
  assert (Hl : length (zip cols ds) = length cols) by (rewrite length_zip_with; lia).
  rewrite (fst_zip (zip cols ds)), (snd_zip (zip cols ds)) by lia. by rewrite fst_zip, snd_zip by lia.
Qed.

Lemma zip_cmp a b : Forall (sortable n) ks -> row n a -> row n b -> sort_cmp x a b = Some (lex_keys ks a b).
Proof using Hds Hnfs.
  intros Hks Ha Hb. unfold sort_cmp. cbn [x_vecs]. destruct zipped as (E & _ & _).
  transitivity (cmp_keys x (Some <$> ks.*1.*1) 0 a b); [by rewrite E|]. apply (cmp_keys_lex n x ks 0).
  - eapply Forall_impl; [exact Hks|]. intros q Hq. apply Hq.
  - done.
  - done.
  - intros i [[c d] nf] Hq. apply lookup_zip_Some in Hq as [Hq1 Hq2]. apply lookup_zip_Some in Hq1 as [Hc Hd]. cbn [x_desc x_nulls_first Nat.add fst snd].
    split; [|intros o; exact Hq2]. destruct descs as [l|]; [exact Hd|]. cbn [default] in Hd. apply lookup_replicate in Hd as [-> _]. done.
Qed.
End columns.

(** C5. Grading two to sixteen columns ([sort_indices_ex] with several keys), for
    any number of rows up to [2^32 - 1] that fits the ring, any directions,
    pool, schedule and failing allocations but those of the tables of the radix
    passes ([e_alloc _ 4]) and of the ranges of many workers ([e_alloc _ 14]).
    Up to 64 rows the columns may be any well-formed ones, strings included,
    with the nulls at either end.  Above that each column is as for one key
    ([radix_ready]: no pooled strings, elements in range, distinct strings in
    the domain), its nulls, if it is flagged as having them, are at the end
    they are by default, and doubles are all of one sign and none a nan, or
    some of each sign are close to zero ([floats_ok]): otherwise the
    packed values do not compare as the rows do (lines 1101 and 1115).
    Then there is an error only when memory for the result or the fallback is
    missing, and a result is the stable order of the rows by [sort_cmp], ties in
    row order, by whichever way it is made: the packed values, the packed dense
    ranks or the comparator. *)
Theorem sort_indices_ex_sorts n v cols descs nulls_first :
  env_ok n (m_main v) -> (forall k, env_ok n (m_sub v k)) -> n < 2 ^ 32 -> (0 < n)%nat -> (2 <= length cols <= 16)%nat ->
  let ds := default (replicate (length cols) false) descs in
  let nfs := default_flags (length cols) descs nulls_first in
  length ds = length cols -> length nfs = length cols -> Forall (key_col_ok n) (zip (zip cols ds) nfs) ->
  e_alloc (m_main v) 4 = true -> (forall k, e_alloc (m_sub v k) 4 = true) -> e_alloc (m_main v) 14 = true ->
  exists r, sort_indices_ex v (Some <$> cols) descs nulls_first n = Some r /\
    (e_alloc (m_main v) 7 = true -> e_alloc (m_main v) 8 = true -> e_alloc (m_main v) 9 = true -> is_Some r) /\
    forall idx, r = Some idx -> graded n (cmp_of (SortCtx (Some <$> cols) descs (Some nfs))) idx.
Proof.
  intros Hmain Hsub Hn H0 Hlen ds nfs Hds Hnfs Hok Ha4 Hs4 H14.
  assert (E : sort_indices_ex v (Some <$> cols) descs nulls_first n = sort_indices_n v (Some <$> cols) descs nulls_first n).
  { destruct cols as [|c1 [|c2 cols] ]; [done|simpl in Hlen; lia|done]. }
  rewrite E. unfold sort_indices_n. rewrite length_fmap. fold ds nfs.
  rewrite (proj2 (Nat.eqb_neq (length cols) 0)), (proj2 (Nat.eqb_neq n 0)), (proj2 (Nat.ltb_ge 16 (length cols))) by lia. cbn [orb].
  destruct (e_alloc (m_main v) 7); cbn [negb]; [|by exists None].
  set (ks := zip (zip cols ds) nfs) in *. set (x := SortCtx (Some <$> cols) descs (Some nfs)).
  assert (Hks : Forall (sortable n) ks) by (eapply Forall_impl; [exact Hok|]; by intros q (? & _)).
  assert (Hx : forall a b, row n a -> row n b -> cmp_of x a b = lex_keys ks a b).
  { intros a b Ha Hb. unfold cmp_of, x. by rewrite (zip_cmp n cols descs nfs Hds Hnfs a b Hks Ha Hb). }
  assert (Hz : ks.*1.*1 = cols /\ ks.*1.*2 = ds /\ ks.*2 = nfs) by (apply (zipped cols descs nfs Hds Hnfs)). destruct Hz as (E1 & E2 & E3).
  assert (Hkl : length ks = length cols) by (rewrite <- E1, !length_fmap; done).
  assert (Hrad : exists s, (if (64 <? n)%nat && can_radix_all (Some <$> cols) then
      cs ← mapM id (Some <$> cols); sort_several_keys v cs ds nfs n else Some NotSorted) = Some s /\
      s <> NullIdx /\ settled n (lex_keys ks) s).
  { destruct (_ && _) eqn:Er; [|by exists NotSorted]. bprop.
    assert (mapM id (Some <$> cols) = Some cols) as -> by (clear; induction cols as [|c cols IH]; [done|cbn [fmap list_fmap mapM id mbind option_bind]; by rewrite IH]).
    cbn [mbind option_bind]. rewrite <- E1, <- E2, <- E3. apply sort_several_keys_ok; try done; try lia.
    - eapply Forall_impl; [exact Hok|]. by intros q (_ & Hq); apply Hq.
    - eapply Forall_impl; [exact Hok|]. by intros q (_ & Hq); apply Hq.
    - by rewrite E1. }
  destruct Hrad as (s & -> & Hnn & Hs). cbn [mbind option_bind].
  destruct (sort_result_ok n (m_main v) x s (graded n (lex_keys ks))) as (r & -> & Ho & Hsome); [done|done| |done|done| |].
  - eapply pre_ext; [|apply (lex_keys_pre n ks Hks)]. intros a b Ha Hb. cbn beta. by rewrite Hx.
  - intros idx. by apply graded_ext.
  - exists r. split; [done|]. split; [auto|]. intros idx Hi. apply (graded_ext n (lex_keys ks)); [|auto].
    intros a b Ha Hb. symmetry. by apply Hx.
Qed.

(** No pool, and all the memory. *)
Definition no_pool_menv : menv := MEnv no_pool_env (fun _ => no_pool_env) (fun _ => true) (fun _ => true).

Lemma sort_indices_ex_sorts_witness :
  let c1 := Col RAY_U8 false ((fun i => i * 7 mod 35) <$> seqZ 0 70) [] [] in
  let c2 := Col RAY_I64 false ((fun i => 10 - i mod 2) <$> seqZ 0 70) [] [] in
  exists idx, sort_indices_ex no_pool_menv [Some c1; Some c2] (Some [true; false]) None 70 = Some (Some idx) /\
    take 4 idx = [9; 19; 29; 39] /\ drop 66 idx = [30; 40; 50; 60] /\ idx ≡ₚ seqZ 0 70.
Proof.
  intros c1 c2. assert (Henv : env_ok 70 no_pool_env) by (apply no_pool_env_ok; by vm_compute).
  destruct (sort_indices_ex_sorts 70 no_pool_menv [c1; c2] (Some [true; false]) None) as (r & Hr & Hsome & Hr').
  - exact Henv.
  - intros k. exact Henv.
  - lia.
  - lia.
  - simpl. lia.
  - done.
  - done.
  - assert (H1 : Forall (fun x => 0 <= x < 256) (c_data c1)).
    { apply Forall_forall. intros x (i & -> & _)%list_elem_of_fmap. pose proof (Z.mod_pos_bound (i * 7) 35 ltac:(lia)). lia. }
    assert (H2 : Forall (fun x => INT64_MIN <= x <= INT64_MAX) (c_data c2)).
    { apply Forall_forall. intros x (i & -> & _)%list_elem_of_fmap. pose proof (Z.mod_pos_bound i 2 ltac:(lia)).
      unfold INT64_MIN, INT64_MAX. lia. }
    change (zip (zip [c1; c2] _) _) with [(c1, true, false); (c2, false, true)].
    apply Forall_cons. split; [|apply Forall_singleton]; (split; [split; [split; done|done|]; intros _; split; [done| |done|done]|intros _; split; [done|by left]]).
    + exact H1.
    + exact H2.
  - done.
  - done.
  - done.
  - destruct (Hsome eq_refl eq_refl eq_refl) as [idx ->]. exists idx. split; [exact Hr|].
    split; [|split; [|exact (proj1 (Hr' idx eq_refl))]]; vm_compute in Hr; injection Hr as <-; reflexivity.
Defined.

(** Without that: 4.0 and -4.0 by turns, and bits.  The positive doubles come
    first, though [sort_cmp] puts the negative ones first. *)
Definition four_col : col := Col RAY_F64 false ((fun i => if i mod 2 =? 0 then 0x4010000000000000 else 0xC010000000000000) <$> seqZ 0 66) [] [].
Definition bit_col : col := Col RAY_BOOL false ((fun i => i mod 3 / 2) <$> seqZ 0 66) [] [].

Lemma composite_floats_by_sign :
  exists idx, sort_indices_ex no_pool_menv [Some four_col; Some bit_col] None None 66 = Some (Some (0 :: idx)) /\ 1 ∈ idx /\
    sort_cmp (SortCtx [Some four_col; Some bit_col] None (Some [true; true])) 0 1 = Some 1.
Proof. eexists. split; [vm_compute; reflexivity|]. split; [|by vm_compute]. by eapply (list_elem_of_lookup_2 _ 32). Qed.
