(* ===== verification/Tok.v ===== *)
(** * The literal scanner of q ([src/qlang/parse/q_tok.c], section 1)

    The number, date, time and byte literals of q source: one magnitude, the
    type letter behind it, and a whole strand of them as an atom or a vector.

    A C string is the list [s] of the bytes that may be read, its NUL included;
    reading behind it is [None].  Signed arithmetic that leaves 64 bits is
    [None] too, where the code does not check it. *)
From Stdlib Require Import ZArith Lia String Floats.SpecFloat.
From S2P Require Import Prelude WireVal NumParse Calendar.

Definition SIZE_MAX : Z := 2 ^ 64 - 1.
Definition MAX_VEC : nat := 4096.

(** [a && b], with [b] not evaluated where [a] is false. *)
Definition and_then (a b : option bool) : option bool := x ← a; if x : bool then b else Some false.
Infix "&&&" := and_then (at level 40, left associativity) : pq_scope.

Definition char_is (s : list Z) (i : nat) (c : Z) : option bool := x ← s !! i; Some (x =? c).
Definition chk (z : Z) : option Z := if (INT64_MIN <=? z) && (z <=? INT64_MAX) then Some z else None.
Definition negate (neg : bool) (v : Z) : option Z := if neg then chk (- v) else Some v.

(** [strlen], as the string. *)
Fixpoint cstr (l : list Z) : option (list Z) :=
  match l with [] => None | c :: l => if c =? 0 then Some [] else r ← cstr l; Some (c :: r) end.

(** ** Digits *)
Definition tok_digit (c : Z) : bool := (48 <=? c) && (c <=? 57).

Fixpoint dig_run (l : list Z) (room : Z) : option nat :=
  if room <=? 0 then Some 0%nat
  else match l with [] => None | c :: l => if tok_digit c then r ← dig_run l (room - 1); Some (S r) else Some 0%nat end.

Definition tok_dig_run_n (s : list Z) (n : Z) (i : nat) : option nat := dig_run (drop i s) (n - i).
Definition tok_dig_run (s : list Z) (p : nat) : option nat := tok_dig_run_n s SIZE_MAX p.
Definition run_is (s : list Z) (i k : nat) : option bool := r ← tok_dig_run s i; Some (r =? k)%nat.

Definition tok_name_byte (c : Z) : bool := ((97 <=? c) && (c <=? 122)) || ((65 <=? c) && (c <=? 90)) || (c =? 95).

(** [(s[i] - '0') * 10 + (s[i + 1] - '0')], and four such digits. *)
Definition num2 (s : list Z) (i : nat) : option Z := a ← s !! i; b ← s !! (i + 1)%nat; Some ((a - 48) * 10 + (b - 48)).
Definition num4 (s : list Z) (i : nat) : option Z :=
  a ← s !! i; b ← s !! (i + 1)%nat; c ← s !! (i + 2)%nat; d ← s !! (i + 3)%nat;
  Some ((a - 48) * 1000 + (b - 48) * 100 + (c - 48) * 10 + (d - 48)).

(** ** The clock *)
Record tok_clock := Clock {
  k_secs : Z; k_frac : Z; k_hd : nat; k_fields : nat; k_sub : nat; k_dot : bool; k_fd : nat; k_ok : bool }.

Definition tok_frac_ns (s : list Z) (i fd : nat) : option Z :=
  fold_opt (fun f k => if (k <? fd)%nat then c ← s !! (i + k)%nat; Some (f * 10 + (c - 48)) else Some (f * 10)) 0 (seq 0 9).

Definition ovf (z : Z) : bool := negb ((INT64_MIN <=? z) && (z <=? INT64_MAX)).

(** The hour, with its overflow flag and its digits. *)
Fixpoint clock_hour (l : list Z) (room : Z) (f : Z) (ok : bool) (hd : nat) : option (Z * bool * nat) :=
  if room <=? 0 then Some (f, ok, hd)
  else match l with
       | [] => None
       | c :: l =>
           if tok_digit c then
             let m := i64 (f * 10) in
             if ovf (f * 10) then clock_hour l (room - 1) m false (S hd)
             else clock_hour l (room - 1) (i64 (m + (c - 48))) (ok && negb (ovf (m + (c - 48)))) (S hd)
           else Some (f, ok, hd)
       end.

(** The fields behind the hour, [f] those read. *)
Fixpoint clock_fields (fuel : nat) (s : list Z) (n : Z) (i : nat) (f : list Z) (ok : bool) : option (nat * list Z * bool) :=
  match fuel with
  | O => None
  | S fuel =>
      go ← (if (0 <? length f)%nat && (length f <? 3)%nat && (i <? n) then
              char_is s i 58 &&& (r ← tok_dig_run_n s n (i + 1); Some (r =? 2)%nat)
            else Some false);
      if go : bool then v ← num2 s (i + 1); clock_fields fuel s n (i + 3) (f ++ [v]) (ok && (v <? 60)) else Some (i, f, ok)
  end.

(** The fourth field: its digits, its nanoseconds and the index behind it. *)
Definition clock_fourth (s : list Z) (n : Z) (i fields : nat) : option (nat * Z * nat) :=
  colon ← (if (fields =? 3)%nat && (i <? n) then char_is s i 58 else Some false);
  sub ← (if colon : bool then tok_dig_run_n s n (i + 1) else Some 0%nat);
  if (0 <? sub)%nat then frac ← tok_frac_ns s (i + 1) sub; Some (sub, frac, (i + 1 + sub)%nat) else Some (0%nat, 0, i).

(** The dot and its digits: whether there is one, the fraction and its digits,
    whether it may follow a fourth field, and the index behind it. *)
Definition clock_dot (s : list Z) (n : Z) (i fields sub : nat) (frac : Z) : option (bool * Z * nat * bool * nat) :=
  dot ← (if i <? n then
           char_is s i 46 &&& (if (0 <? fields)%nat then Some true else r ← tok_dig_run_n s n (i + 1); Some (0 <? r)%nat)
         else Some false);
  if dot : bool then
    r ← tok_dig_run_n s n (i + 1);
    fr ← tok_frac_ns s (i + 1) r;
    Some (true, fr, r, negb ((0 <? sub)%nat && (negb (frac =? 0) || (9 <? sub)%nat)), (i + 1 + r)%nat)
  else Some (false, frac, sub, true, i).

Definition tok_clock_scan (s : list Z) (n : Z) (i : nat) : option (nat * tok_clock) :=
  '(f0, ok, hd) ← clock_hour (drop i s) (n - i) 0 true 0;
  '(i, f, ok) ← clock_fields 3 s n (i + hd) (if (0 <? hd)%nat then [f0] else []) ok;
  let fields := length f in
  '(sub, frac, i) ← clock_fourth s n i fields;
  '(dot, frac, fd, ok1, i) ← clock_dot s n i fields sub frac;
  let m := i64 (f.[0] * 3600) in
  let a := m + (f.[1] * 60 + f.[2]) in
  Some (i, Clock (if ovf (f.[0] * 3600) then m else i64 a) frac hd fields sub dot fd
             (ok && ok1 && negb (ovf (f.[0] * 3600)) && negb (ovf a))).

Definition tok_clock_ns (c : tok_clock) : option Z := ns ← chk (k_secs c * 1000000000); chk (ns + k_frac c).

Definition tok_clock_frac9 (c : tok_clock) : bool := negb (k_dot c && (k_fd c =? 0)%nat) && (k_fd c <=? 9)%nat.

(** The clock and the index behind it, or an error. *)
Definition tok_clock_tail (s : list Z) (e : nat) : option (option (nat * tok_clock)) :=
  '(q, c) ← tok_clock_scan s SIZE_MAX e;
  bad ← (if negb (k_ok c) || (2 <? k_hd c)%nat || ((1 <? k_fields c)%nat && negb (k_hd c =? 2)%nat) then Some true
         else
           stray ← (if (0 <? k_fields c)%nat && (k_fields c <? 3)%nat && negb (k_dot c) then char_is s q 58 else Some false);
           Some (stray || negb (tok_clock_frac9 c)));
  Some (if bad : bool then None else Some (q, c)).

(** ** Magnitudes *)
Inductive q_tok_el_kind :=
  | Q_TOK_EL_INT | Q_TOK_EL_FLOAT | Q_TOK_EL_NULL | Q_TOK_EL_PINF | Q_TOK_EL_NINF | Q_TOK_EL_DATE | Q_TOK_EL_TIME
  | Q_TOK_EL_TS | Q_TOK_EL_MONTH | Q_TOK_EL_MINUTE | Q_TOK_EL_SECOND | Q_TOK_EL_TIMESPAN | Q_TOK_EL_DT.

#[export] Instance q_tok_el_kind_eq : EqDecision q_tok_el_kind.
Proof. solve_decision. Defined.

Record q_tok_el := El { e_kind : q_tok_el_kind; e_i : Z; e_f : spec_float; e_forces_float : bool }.

Abbreviation zero := (S754_zero false).
Definition el_int (k : q_tok_el_kind) (i : Z) : q_tok_el := El k i zero false.

(** 1 with the new position, 0, or -1 with the error. *)
Inductive scanned := Hit (p : nat) (e : q_tok_el) | Miss | Bad (err : string).

(** The contexts of the temporal literals. *)
Record lit_ctx := Ctx { x_kind : q_tok_el_kind; x_type : ray_type_e; x_bare : bool; x_int_ok : bool; x_point : bool; x_unit : Z }.

Definition LIT_CTX : list lit_ctx :=
  [Ctx Q_TOK_EL_TS RAY_TIMESTAMP true true true 1;
   Ctx Q_TOK_EL_DATE RAY_DATE true false true 86400000000000;
   Ctx Q_TOK_EL_TIME RAY_TIME true true false 1000000;
   Ctx Q_TOK_EL_MONTH RAY_MONTH false false true 0;
   Ctx Q_TOK_EL_MINUTE RAY_MINUTE true true false 60000000000;
   Ctx Q_TOK_EL_SECOND RAY_SECOND true true false 1000000000;
   Ctx Q_TOK_EL_TIMESPAN RAY_TIMESPAN true false false 1;
   Ctx Q_TOK_EL_DT RAY_DATETIME true false true 86400000000000].

(** The letter of a type, 0 without one. *)
Definition q_type_char (t : ray_type_e) : Z :=
  match t with
  | RAY_LIST => 0 | RAY_BOOL => 98 | RAY_GUID => 103 | RAY_U8 => 120 | RAY_I16 => 104 | RAY_I32 => 105 | RAY_I64 => 106
  | RAY_F32 => 101 | RAY_F64 => 102 | RAY_STR | RAY_CHARV => 99 | RAY_SYM | RAY_ENUM => 115 | RAY_TIMESTAMP => 112
  | RAY_MONTH => 109 | RAY_DATE => 100 | RAY_DATETIME => 122 | RAY_TIMESPAN => 110 | RAY_MINUTE => 117 | RAY_SECOND => 118
  | RAY_TIME => 116
  end.

Definition lit_el_special (e : q_tok_el) : bool :=
  match e_kind e with Q_TOK_EL_NULL | Q_TOK_EL_PINF | Q_TOK_EL_NINF => true | _ => false end.

Definition lit_ctx_of_kind (k : q_tok_el_kind) : option lit_ctx := List.find (fun c => bool_decide (x_kind c = k)) LIT_CTX.

Abbreviation kind_is e k := (bool_decide (e_kind e = k)).

Definition lit_el_ok (e : q_tok_el) (c : lit_ctx) (suffixed : bool) : bool :=
  if e_forces_float e && negb (kind_is e Q_TOK_EL_NULL) && negb (kind_is e (x_kind c)) &&
     negb (lit_el_special e && bool_decide (x_kind c = Q_TOK_EL_DT)) then false
  else if kind_is e (x_kind c) || kind_is e Q_TOK_EL_INT || lit_el_special e then true
  else if negb suffixed then bool_decide (x_kind c = Q_TOK_EL_TS) && kind_is e Q_TOK_EL_DATE
  else
    match lit_ctx_of_kind (e_kind e) with
    | Some s => negb (bool_decide (x_type s = RAY_DATETIME)) && negb (x_unit s =? 0) && negb (x_unit c =? 0) &&
        Bool.eqb (x_point s) (x_point c) && (negb (x_point s) || (Z.rem (x_unit s) (x_unit c) =? 0))
    | None => false
    end.

Definition lit_temporal_letter (c : Z) (last : q_tok_el) : bool :=
  if c =? 0 then false
  else
    match List.find (fun x => c =? q_type_char (x_type x)) LIT_CTX with
    | Some x => if kind_is last Q_TOK_EL_INT then x_int_ok x else lit_el_ok last x true
    | None => false
    end.

(** *** The four temporal shapes *)
Definition of_int (z : Z) : spec_float := binary_normalize 53 1024 z 0 false.
Definition fadd : spec_float -> spec_float -> spec_float := SFadd 53 1024.

(** A glued sign. *)
Definition glued_sign (s : list Z) (p : nat) : option (bool * nat) :=
  neg ← char_is s p 45; Some (neg, if neg : bool then S p else p).

Definition bad_date : scanned := Bad "bad date".
Definition bad_clock : scanned := Bad "bad clock".
Definition bad_number : scanned := Bad "bad number".

(** The timestamp of a date and a clock. *)
Definition ts_el (neg : bool) (days : Z) (c : tok_clock) : option q_tok_el :=
  ns ← tok_clock_ns c; v ← negate neg (q_calendar_ts_compose days ns); Some (el_int Q_TOK_EL_TS v).

(** [yyyy.mm.dd], with a clock behind a D or a T. *)
Definition tok_date_arm (s : list Z) (p : nat) : option scanned :=
  '(neg, q) ← glued_sign s p;
  shape ← run_is s q 4 &&& char_is s (q + 4) 46 &&& run_is s (q + 5) 2 &&& char_is s (q + 7) 46 &&& run_is s (q + 8) 2
    &&& (c ← s !! (q + 10)%nat; Some (negb (tok_digit c) && negb (c =? 46)));
  if negb (shape : bool) then Some Miss
  else
    y ← num4 s q; mo ← num2 s (q + 5); d ← num2 s (q + 8);
    if negb (q_calendar_date_valid y mo d) then Some bad_date
    else
      let days := q_calendar_days_from_civil y mo d in
      sep ← s !! (q + 10)%nat;
      if sep =? 68 then
        t ← tok_clock_tail s (q + 11);
        match t with
        | None => Some bad_clock
        | Some (e, c) =>
            stray ← char_is s e 46;
            if stray : bool then Some bad_clock else el ← ts_el neg days c; Some (Hit e el)
        end
      else if sep =? 84 then
        t ← tok_clock_tail s (q + 11);
        match t with
        | None => Some (Bad "bad datetime")
        | Some (e, c) =>
            x ← s !! e;
            if x =? 112 then el ← ts_el neg days c; Some (Hit e el)
            else if (x =? 46) || (3 <? k_fd c)%nat || ((0 <? k_fd c)%nat && (k_fields c <? 3)%nat) then Some (Bad "bad datetime")
            else
              ns ← tok_clock_ns c;
              let f := fadd (of_int days) (fdiv (of_int (Z.quot ns 1000000)) (of_int 86400000)) in
              Some (Hit e (El Q_TOK_EL_DT 0 (if neg then SFopp f else f) false))
        end
      else Some (Hit (q + 10) (el_int Q_TOK_EL_DATE (if neg : bool then - days else days))).

Section scanner.
Context (strtod : list Z -> nat * spec_float) (pow10 : Z -> spec_float) (buf_ok : nat -> bool).
Abbreviation parse_f64 := (ray_parse_f64 strtod pow10 buf_ok).

(** [yyyy.mm], a month and a float at once. *)
Definition tok_month_arm (s : list Z) (p : nat) : option scanned :=
  '(neg, q) ← glued_sign s p;
  shape ← run_is s q 4 &&& char_is s (q + 4) 46 &&& run_is s (q + 5) 2
    &&& (c ← s !! (q + 7)%nat;
         if c =? 46 then Some false
         else if (c =? 101) || (c =? 69) then x ← s !! (q + 8)%nat; Some (negb ((x =? 43) || (x =? 45) || tok_digit x))
         else Some true);
  if negb (shape : bool) then Some Miss
  else
    y ← num4 s q; mo ← num2 s (q + 5);
    let valid := (1 <=? y) && (1 <=? mo) && (mo <=? 12) in
    m ← (if negb valid then char_is s (q + 7) 109 else Some false);
    if m : bool then Some bad_number
    else if valid then
      rest ← cstr (drop p s);
      Some (match parse_f64 rest with
            | Some (u, fv) =>
                if (u =? q + 7 - p)%nat then
                  let v := (y - 2000) * 12 + (mo - 1) in Hit (q + 7) (El Q_TOK_EL_MONTH (if neg : bool then - v else v) fv true)
                else Miss
            | None => Miss
            end)
    else Some Miss.

(** A clock of two hour digits, by what follows the minutes. *)
Definition tok_clock_arm (s : list Z) (p : nat) : option scanned :=
  '(neg, q) ← glued_sign s p;
  '(e, c) ← tok_clock_scan s SIZE_MAX q;
  whole ← (if (k_hd c =? 2)%nat && negb (k_dot c) && (k_fd c =? 0)%nat then x ← s !! e; Some (negb (x =? 58)) else Some false);
  let hms := (k_hd c =? 2)%nat && (k_fields c =? 3)%nat in
  r ← (if whole && (k_fields c =? 2)%nat then Some (Some (Q_TOK_EL_MINUTE, Z.quot (k_secs c) 60))
       else if whole && (k_fields c =? 3)%nat then Some (Some (Q_TOK_EL_SECOND, k_secs c))
       else if hms && (1 <=? k_fd c)%nat && (k_fd c <=? 3)%nat then
         v ← chk (k_secs c * 1000 + Z.quot (k_frac c) 1000000); Some (Some (Q_TOK_EL_TIME, v))
       else if hms && (4 <=? k_fd c)%nat && (k_fd c <=? 9)%nat then
         v ← tok_clock_ns c; Some (Some (Q_TOK_EL_TIMESPAN, v))
       else Some None);
  match r with
  | None => Some Miss
  | Some (k, v) => if negb (k_ok c) then Some bad_clock else v ← negate neg v; Some (Hit e (el_int k v))
  end.

(** [days * 10 + digit], over the digits of the days. *)
Definition span_days (s : list Z) (q dd : nat) : option Z :=
  fold_opt (fun days k => c ← s !! (q + k)%nat; t ← chk (days * 10); chk (t + (c - 48))) 0 (seq 0 dd).

(** Days, a D and a clock. *)
Definition tok_span_arm (s : list Z) (p : nat) : option scanned :=
  '(neg, q) ← glued_sign s p;
  dd ← tok_dig_run s q;
  shape ← (if (1 <=? dd)%nat then char_is s (q + dd) 68 &&& (r ← tok_dig_run s (q + dd + 1); Some (r <=? 2)%nat) else Some false);
  if negb (shape : bool) then Some Miss
  else
    t ← tok_clock_tail s (q + dd + 1);
    match t with
    | None => Some bad_clock
    | Some (e, c) =>
        let bare := (k_fields c =? 0)%nat && (k_fd c =? 0)%nat in
        x ← s !! e;
        letter ← (if lit_temporal_letter x (el_int Q_TOK_EL_TIMESPAN 0) then y ← s !! S e; Some (negb (tok_name_byte y))
                  else Some false);
        if (letter || negb (tok_name_byte x)) && negb (bare && ((x =? 46) || (x =? 58))) then
          days ← span_days s q dd;
          ns ← tok_clock_ns c;
          t ← chk (days * 86400000000000); v ← chk (t + ns); v ← negate neg v;
          Some (Hit e (el_int Q_TOK_EL_TIMESPAN v))
        else Some Miss
    end.

(** The first arm that does not miss. *)
Definition or_else (a b : option scanned) : option scanned :=
  x ← a; match x with Miss => b | _ => Some x end.

Definition q_tok_temporal (s : list Z) (p : nat) : option scanned :=
  or_else (tok_date_arm s p) (or_else (tok_month_arm s p) (or_else (tok_clock_arm s p) (tok_span_arm s p))).

(** *** Specials and numbers *)
Definition lit_special (s : list Z) (p : nat) : option scanned :=
  '(neg, q) ← glued_sign s p;
  z ← char_is s q 48;
  if negb (z : bool) then Some Miss
  else
    k ← s !! S q;
    let is_null := (k =? 78) || (k =? 110) in
    if negb (is_null || (k =? 87) || (k =? 119)) || (neg && is_null) then Some Miss
    else Some (Hit (q + 2) (El (if is_null then Q_TOK_EL_NULL else if neg then Q_TOK_EL_NINF else Q_TOK_EL_PINF) 0 zero
                              ((k =? 110) || (k =? 119)))).

(** Whether the bytes of the number have a dot or an exponent, and a digit. *)
Fixpoint float_shape (l : list Z) (is_float saw_digit : bool) : option (bool * bool) :=
  match l with
  | [] => None
  | c :: l =>
      if tok_digit c then float_shape l is_float true
      else if c =? 46 then float_shape l true saw_digit
      else if ((c =? 101) || (c =? 69)) && saw_digit then
        x ← head l;
        if (x =? 43) || (x =? 45) || tok_digit x then float_shape l true saw_digit else Some (is_float, saw_digit)
      else Some (is_float, saw_digit)
  end.

Definition tok_number (s : list Z) (p : nat) : option scanned :=
  c ← s !! p;
  '(is_float, saw_digit) ← float_shape (drop (if (c =? 45) || (c =? 43) then S p else p) s) false false;
  if negb (saw_digit : bool) then Some Miss
  else
    rest ← cstr (drop p s);
    Some (if is_float : bool then
            match parse_f64 rest with
            | Some (u, v) => if (u =? 0)%nat then Miss else Hit (p + u) (El Q_TOK_EL_FLOAT 0 v true)
            | None => Miss
            end
          else
            match ray_parse_i64 rest with
            | Some (u, v) => if (u =? 0)%nat then Miss else Hit (p + u) (el_int Q_TOK_EL_INT v)
            | None => Miss
            end).

Definition q_tok_magnitude (s : list Z) (p : nat) : option scanned :=
  or_else (lit_special s p) (or_else (q_tok_temporal s p) (tok_number s p)).
End scanner.

(** ** Values *)
Inductive payload := PInt (z : Z) | PFlt (x : spec_float) | PGuid (bytes : list Z).

(** An atom with its null bit, a symbol by its text, or a flat vector with its
    null flag. *)
Inductive lit_val :=
  | VAtom (t : ray_type_e) (p : payload) (null : bool)
  | VSym (text : list Z)
  | VVec (t : ray_type_e) (nulls : bool) (data : list payload).

Definition zero_guid : payload := PGuid (replicate 16 0).

(** The sentinel that stands for a null of the type. *)
Definition null_payload (t : ray_type_e) : payload :=
  match t with
  | RAY_GUID => zero_guid
  | RAY_F64 | RAY_DATETIME | RAY_F32 => PFlt NULL_F64
  | RAY_I64 | RAY_TIMESTAMP | RAY_TIMESPAN => PInt INT64_MIN
  | RAY_I32 | RAY_MONTH | RAY_DATE | RAY_TIME | RAY_MINUTE | RAY_SECOND => PInt (- 2 ^ 31)
  | RAY_CHARV => PInt 0x20
  | RAY_I16 => PInt (- 2 ^ 15)
  | _ => PInt 0
  end.

Definition ray_typed_null (t : ray_type_e) : lit_val :=
  match t with RAY_SYM => VSym [] | _ => VAtom t (null_payload t) true end.

(** A null of a vector that is no slice, at an index inside it: types without a
    sentinel refuse it and keep what they have.  No [VVec] holds pooled
    strings. *)
Definition ray_vec_set_null (v : lit_val) (i : nat) : lit_val :=
  match v with
  | VVec t nulls data =>
      match t with
      | RAY_F64 | RAY_DATETIME | RAY_F32 | RAY_I64 | RAY_TIMESTAMP | RAY_TIMESPAN | RAY_I32 | RAY_MONTH | RAY_DATE
      | RAY_TIME | RAY_MINUTE | RAY_SECOND | RAY_I16 | RAY_GUID =>
          if (i <? length data)%nat then VVec t true (<[i := null_payload t]> data) else v
      | _ => v
      end
  | _ => v
  end.

Definition ray_datetime (x : spec_float) : lit_val := VAtom RAY_DATETIME (PFlt x) false.

(** ** Elements as payloads *)
Definition lit_narrow_special (k : q_tok_el_kind) (width : nat) : Z :=
  let vmin := if (width =? 2)%nat then - 2 ^ 15 else if (width =? 4)%nat then - 2 ^ 31 else INT64_MIN in
  let vmax := if (width =? 2)%nat then 2 ^ 15 - 1 else if (width =? 4)%nat then 2 ^ 31 - 1 else INT64_MAX in
  match k with Q_TOK_EL_NULL => vmin | Q_TOK_EL_PINF => vmax | _ => - vmax end.

Definition lit_int (e : q_tok_el) (width : nat) : Z :=
  if lit_el_special e then lit_narrow_special (e_kind e) width else e_i e.

Definition lit_float (e : q_tok_el) : spec_float :=
  match e_kind e with
  | Q_TOK_EL_NULL => NULL_F64
  | Q_TOK_EL_PINF => f64_inf false
  | Q_TOK_EL_NINF => f64_inf true
  | Q_TOK_EL_FLOAT | Q_TOK_EL_MONTH | Q_TOK_EL_DT => e_f e
  | _ => of_int (e_i e)
  end.

(** [(float)x]. *)
Definition to_f32 (x : spec_float) : spec_float :=
  match x with
  | S754_finite sign m e => binary_normalize 24 128 (if sign then Z.neg m else Z.pos m) e sign
  | _ => x
  end.

Definition lit_mark_nulls (v : lit_val) (buf : list q_tok_el) : lit_val :=
  foldl (fun v i => match buf !! i with
                    | Some e => if kind_is e Q_TOK_EL_NULL then ray_vec_set_null v i else v
                    | None => v
                    end) v (seq 0 (length buf)).

(** The strand through an array of [MAX_VEC]. *)
Definition lit_fill {A} (f : q_tok_el -> option A) (buf : list q_tok_el) : option (list A) :=
  if (length buf <=? MAX_VEC)%nat then mapM f buf else None.

Definition lit_payload (c : lit_ctx) (e : q_tok_el) : option Z :=
  if bool_decide (x_kind c = Q_TOK_EL_TS) && kind_is e Q_TOK_EL_DATE then Some (q_calendar_ts_compose (e_i e) 0)
  else
    match lit_ctx_of_kind (e_kind e) with
    | Some s =>
        if bool_decide (x_kind s = x_kind c) then Some (lit_int e (ray_type_sizes (x_type c)))
        else
          v ← chk (e_i e * x_unit s);
          if x_unit c =? 0 then None else Some (Z.quot v (x_unit c) - (if Z.rem v (x_unit c) <? 0 then 1 else 0))
    | None => Some (lit_int e (ray_type_sizes (x_type c)))
    end.

Definition lit_temporal (c : lit_ctx) (buf : list q_tok_el) : option lit_val :=
  if bool_decide (x_type c = RAY_DATETIME) then
    match buf with
    | [e] =>
        Some (if negb (kind_is e Q_TOK_EL_NULL) && negb (kind_is e Q_TOK_EL_INT) then ray_datetime (lit_float e)
              else ray_typed_null RAY_DATETIME)
    | _ => t ← lit_fill (fun e => Some (PFlt (lit_float e))) buf; Some (lit_mark_nulls (VVec RAY_DATETIME false t) buf)
    end
  else
    match buf with
    | [e] =>
        if kind_is e Q_TOK_EL_NULL then Some (ray_typed_null (x_type c))
        else v ← lit_payload c e; Some (VAtom (x_type c) (PInt v) false)
    | _ =>
        let narrow := (ray_type_sizes (x_type c) =? 4)%nat in
        t ← lit_fill (fun e => v ← lit_payload c e; Some (PInt (if narrow then i32 v else v))) buf;
        Some (lit_mark_nulls (VVec (x_type c) false t) buf)
    end.

(** ** Literals *)
Definition lit_ws (c : Z) : bool := (c =? 32) || (c =? 9) || (c =? 10) || (c =? 13).

Fixpoint run_while (f : Z -> bool) (l : list Z) : option nat :=
  match l with [] => None | c :: l => if f c then r ← run_while f l; Some (S r) else Some 0%nat end.

(** The type letter at [p], if the element takes it: the position behind it
    and the letter, or what they were. *)
Definition q_tok_type_letter (s : list Z) (p : nat) (letter : Z) (last : q_tok_el) : option (nat * Z) :=
  c ← s !! p;
  if negb (c =? 0) &&
     (bool_decide (c ∈ [98; 104; 105; 106; 101; 102]) || (((c =? 103) || (c =? 99)) && kind_is last Q_TOK_EL_NULL) || lit_temporal_letter c last)
  then Some (S p, c) else Some (p, letter).

Definition lit_hex_digit (c : Z) : bool := tok_digit c || ((97 <=? c) && (c <=? 102)) || ((65 <=? c) && (c <=? 70)).
Definition lit_hex_val (c : Z) : Z := if tok_digit c then c - 48 else if (97 <=? c) && (c <=? 102) then c - 97 + 10 else c - 65 + 10.

Definition q_tok_byte_lit_starts (s : list Z) (p : nat) : option bool := char_is s p 48 &&& char_is s (p + 1) 120.

(** [bytes[nb++] = v]. *)
Definition push {A} (l : list A) (x : A) : option (list A) := if (length l <? MAX_VEC)%nat then Some (l ++ [x]) else None.

(** The digits in pairs. *)
Fixpoint hex_pairs (l : list Z) (bytes : list Z) : option (list Z) :=
  match l with
  | a :: b :: l => bytes ← push bytes (Z.lor (Z.shiftl (lit_hex_val a) 4) (lit_hex_val b)); hex_pairs l bytes
  | [a] => None
  | [] => Some bytes
  end.

(** The outcome of a literal: the error, or the position and the value. *)
Abbreviation literal := (string + nat * lit_val)%type.
Abbreviation lit_err m := (Some (inl (m : string))).

Definition lit_byte (s : list Z) (p : nat) : option literal :=
  let d0 := (p + 2)%nat in
  nd ← run_while lit_hex_digit (drop d0 s);
  t ← s !! (d0 + nd)%nat;
  if ((97 <=? t) && (t <=? 122)) || ((65 <=? t) && (t <=? 90)) || (t =? 95) || (t =? 46) then lit_err "bad number"
  else if (2 * MAX_VEC <? nd)%nat then lit_err "numeric literal too long"
  else
    let digits := take nd (drop d0 s) in
    bytes ← (if Nat.odd nd then
               match digits with c :: l => b ← push [] (lit_hex_val c); hex_pairs l b | [] => None end
             else hex_pairs digits []);
    Some (inr ((d0 + nd)%nat, match bytes with
                              | [b] => VAtom RAY_U8 (PInt b) false
                              | _ => VVec RAY_U8 false (PInt <$> bytes)
                              end)).

Definition bool_val (bits : list Z) : lit_val :=
  match bits with [b] => VAtom RAY_BOOL (PInt b) false | _ => VVec RAY_BOOL false (PInt <$> bits) end.

Section literal.
Context (strtod : list Z -> nat * spec_float) (pow10 : Z -> spec_float) (buf_ok : nat -> bool).
Abbreviation magnitude := (q_tok_magnitude strtod pow10 buf_ok).

(** The rest of the strand: the position, the elements and the letter. *)
Fixpoint strand (fuel : nat) (s : list Z) (p : nat) (buf : list q_tok_el) (letter : Z) : option (string + nat * list q_tok_el * Z) :=
  match fuel with
  | O => None
  | S fuel =>
      ws ← run_while lit_ws (drop p s);
      let sp := (p + ws)%nat in
      if (ws =? 0)%nat then Some (inr (p, buf, letter))
      else
        b ← q_tok_byte_lit_starts s sp;
        if b : bool then Some (inr (p, buf, letter))
        else
          r ← magnitude s sp;
          match r with
          | Bad m => lit_err m
          | Miss => Some (inr (p, buf, letter))
          | Hit q e =>
              if negb (letter =? 0) then lit_err "type suffix must end the literal"
              else if (MAX_VEC <=? length buf)%nat then lit_err "numeric literal too long"
              else buf ← push buf e; '(p, letter) ← q_tok_type_letter s q letter e; strand fuel s p buf letter
          end
  end.

(** The bits of a strand, spaces dropped. *)
Fixpoint bool_bits (s : list Z) (at_ : list nat) (bits : list Z) : option (string + list Z) :=
  match at_ with
  | [] => Some (inr bits)
  | i :: at_ =>
      c ← s !! i;
      if (c =? 32) || (c =? 9) then bool_bits s at_ bits
      else if negb (c =? 48) && negb (c =? 49) then lit_err "bad boolean literal"
      else if (MAX_VEC <=? length bits)%nat then lit_err "boolean literal too long"
      else bits ← push bits (c - 48); bool_bits s at_ bits
  end.

(** The row of the table that a strand belongs to, by its letter or else by a
    shape that needs none. *)
Definition ctx_hit (buf : list q_tok_el) (letter : Z) (k : bool * lit_ctx) : bool :=
  (letter =? q_type_char (x_type k.2)) || (negb k.1 && existsb (fun e => x_bare k.2 && kind_is e (x_kind k.2)) buf).

Definition ctx_of (buf : list q_tok_el) (letter : Z) : option (bool * lit_ctx) :=
  List.find (ctx_hit buf letter) ((pair true <$> LIT_CTX) ++ (pair false <$> LIT_CTX)).

(** A strand of numbers. *)
Definition lit_number (buf : list q_tok_el) (letter : Z) : option (string + lit_val) :=
  if (letter =? 101) || (letter =? 102) || ((letter =? 0) && existsb e_forces_float buf) then
    let '(t, conv) := if letter =? 101 then (RAY_F32, to_f32) else (RAY_F64, fun x => x) in
    match buf with
    | [e] => Some (inr (VAtom t (PFlt (conv (lit_float e))) false))
    | _ => d ← lit_fill (fun e => Some (PFlt (conv (lit_float e)))) buf; Some (inr (lit_mark_nulls (VVec t false d) buf))
    end
  else if existsb (fun e => e_forces_float e && negb (lit_el_special e)) buf then lit_err "bad number"
  else
    let width := if letter =? 104 then 2%nat else if letter =? 105 then 4%nat else 8%nat in
    let '(t, bits) := if letter =? 104 then (RAY_I16, 16) else if letter =? 105 then (RAY_I32, 32) else (RAY_I64, 64) in
    match buf with
    | [e] => Some (inr (VAtom t (PInt (sgn bits (lit_int e width))) false))
    | _ =>
        d ← lit_fill (fun e => Some (PInt (sgn bits (lit_int e width)))) buf;
        Some (inr (lit_mark_nulls (VVec t false d) buf))
    end.

(** The value of a strand with its letter. *)
Definition lit_strand (s : list Z) (start p : nat) (buf : list q_tok_el) (letter : Z) : option (string + lit_val) :=
  let all_null := forallb (fun e => kind_is e Q_TOK_EL_NULL) buf in
  if letter =? 98 then
    bits ← bool_bits s (seq start (p - 1 - start)) [];
    match bits with
    | inl m => lit_err m
    | inr [] => lit_err "bad boolean literal"
    | inr bits => Some (inr (bool_val bits))
    end
  else if letter =? 103 then
    if negb all_null then lit_err "bad number"
    else Some (inr (match buf with [_] => ray_typed_null RAY_GUID | _ => VVec RAY_GUID false (replicate (length buf) zero_guid) end))
  else if letter =? 99 then
    if negb all_null then lit_err "bad number"
    else if (MAX_VEC <? length buf)%nat then None
    else Some (inr (match buf with
                    | [_] => VAtom RAY_CHARV (PInt 32) false
                    | _ => VVec RAY_CHARV false (replicate (length buf) (PInt 32))
                    end))
  else
    match ctx_of buf letter with
    | Some (suffixed, c) =>
        if negb (forallb (fun e => lit_el_ok e c suffixed) buf) then lit_err "bad number"
        else v ← lit_temporal c buf; Some (inr v)
    | None => lit_number buf letter
    end.

Definition q_tok_literal (s : list Z) (start : nat) : option literal :=
  b ← q_tok_byte_lit_starts s start;
  if b : bool then lit_byte s start
  else
    nb1 ← run_while (fun c => (c =? 48) || (c =? 49)) (drop start s);
    x ← s !! (start + nb1)%nat;
    if (0 <? nb1)%nat && (x =? 98) then
      if (MAX_VEC <? nb1)%nat then lit_err "boolean literal too long"
      else Some (inr ((start + nb1 + 1)%nat, bool_val ((fun c => c - 48) <$> take nb1 (drop start s))))
    else
      r ← magnitude s start;
      match r with
      | Bad m => lit_err m
      | Miss => lit_err "bad number"
      | Hit q e =>
          '(p, letter) ← q_tok_type_letter s q 0 e;
          r ← strand (length s) s p [e] letter;
          match r with
          | inl m => lit_err m
          | inr (p, buf, letter) =>
              v ← lit_strand s start p buf letter;
              Some (match v with inl m => inl m | inr v => inr (p, v) end)
          end
      end.
End literal.
