(* ===== verification/TokStr.v ===== *)
(** * Whole strings as values ([src/qlang/parse/q_tok.c], sections 2 and 3)

    The scanners of [$]: dates, times, timestamps, timespans, addresses, guids
    and numbers, each of a whole string, and [q_tok], which picks one by the
    type and answers its null where the string is none of its spellings.  A
    string is the list [p] of its bytes; reading outside it is [None]. *)
From Stdlib Require Import ZArith Lia Floats.SpecFloat.
From S2P Require Import Prelude WireLz WireVal NumParse Calendar Tok.

(** [memchr(p, c, len) != NULL]. *)
Definition has_char (c : Z) (p : list Z) : bool := existsb (Z.eqb c) p.

(** [tok_all_digits(p + i, len)]. *)
Definition tok_all_digits (p : list Z) (i len : nat) : option bool :=
  if (len =? 0)%nat then Some false else r ← tok_dig_run_n (drop i p) len 0; Some (r =? len)%nat.

(** ** Dates *)
(** The bytes at the places are digits. *)
Fixpoint digits_at (p : list Z) (at_ : list nat) : option bool :=
  match at_ with [] => Some true | i :: at_ => c ← p !! i; if negb (tok_digit c) then Some false else digits_at p at_ end.

(** The day order of the slash forms is that of [\z]. *)
Definition q_tok_date (date_order : bool) (p : list Z) : option (option (Z * Z * Z)) :=
  if (length p =? 8)%nat then
    ds ← digits_at p (seq 0 8);
    if ds : bool then y ← num4 p 0; m ← num2 p 4; d ← num2 p 6; Some (Some (y, m, d)) else Some None
  else
    ymd ← (if (length p =? 10)%nat then
             c ← p !! 4%nat; if (c =? 46) || (c =? 45) || (c =? 47) then char_is p 7 c else Some false
           else Some false);
    if ymd : bool then
      ds ← digits_at p [0; 1; 2; 3; 5; 6; 8; 9]%nat;
      if ds : bool then y ← num4 p 0; m ← num2 p 5; d ← num2 p 8; Some (Some (y, m, d)) else Some None
    else
      slash ← (if (length p =? 10)%nat then char_is p 2 47 &&& char_is p 5 47 else Some false);
      if slash : bool then
        ds ← digits_at p [0; 1; 3; 4; 6; 7; 8; 9]%nat;
        if ds : bool then
          a ← num2 p 0; b ← num2 p 3; y ← num4 p 6;
          Some (Some (y, if date_order then b else a, if date_order then a else b))
        else Some None
      else Some None.

Definition q_tok_month (p : list Z) : option (option Z) :=
  sep ← (if (length p =? 7)%nat then
           tok_all_digits p 0 4 &&& (c ← p !! 4%nat; Some ((c =? 46) || (c =? 45) || (c =? 47))) &&& tok_all_digits p 5 2
         else Some false);
  packed ← (if sep : bool then Some false
            else if (length p =? 6)%nat then tok_all_digits p 0 6 else Some false);
  if negb (sep || packed) then Some None
  else
    y ← num4 p 0; mo ← num2 p (if sep : bool then 5 else 4);
    if (mo <? 1) || (12 <? mo) || (y <? 1) || (9999 <? y) then Some None else Some (Some ((y - 2000) * 12 + (mo - 1))).

(** ** Addresses and guids *)
Definition tok_hexval (c : Z) : Z :=
  if tok_digit c then c - 48
  else if (97 <=? c) && (c <=? 102) then c - 97 + 10
  else if (65 <=? c) && (c <=? 70) then c - 65 + 10
  else -1.

(** [out[bi++]], inside the 16 bytes. *)
Definition push16 (out : list Z) (x : Z) : option (list Z) := if (length out <? 16)%nat then Some (out ++ [x]) else None.

Fixpoint uuid_loop (fuel : nat) (p : list Z) (i : nat) (out : list Z) : option (option (list Z)) :=
  match fuel with
  | O => None
  | S fuel =>
      if negb (i <? 36)%nat then Some (Some out)
      else if (i =? 8)%nat || (i =? 13)%nat || (i =? 18)%nat || (i =? 23)%nat then
        c ← p !! i; if negb (c =? 45) then Some None else uuid_loop fuel p (S i) out
      else
        a ← p !! i; b ← p !! S i;
        if (tok_hexval a <? 0) || (tok_hexval b <? 0) then Some None
        else out ← push16 out (u8 (Z.lor (Z.shiftl (tok_hexval a) 4) (tok_hexval b))); uuid_loop fuel p (i + 2) out
  end.

Definition q_tok_uuid (p : list Z) : option (option (list Z)) :=
  if negb (length p =? 36)%nat then Some None
  else
    r ← uuid_loop 40 p 0 [];
    Some (match r with Some out => if (length out =? 16)%nat then Some out else None | None => None end).

(** One octet: the index behind its digits, and its value. *)
Fixpoint ipv4_octet (l : list Z) (i : nat) (v : Z) (dig : nat) : option (nat * Z) :=
  match l with
  | [] => Some (i, v)
  | c :: l =>
      if tok_digit c then
        let v := v * 10 + (c - 48) in
        if (3 <? S dig)%nat || (255 <? v) then None else ipv4_octet l (S i) v (S dig)
      else Some (i, v)
  end.

Fixpoint ipv4_octets (n : nat) (p : list Z) (i : nat) (oct : list Z) : option (option (nat * list Z)) :=
  match n with
  | O => Some (Some (i, oct))
  | S n =>
      first ← (if (i <? length p)%nat then c ← p !! i; Some (tok_digit c) else Some false);
      if negb (first : bool) then Some None
      else
        match ipv4_octet (drop i p) i 0 0 with
        | None => Some None
        | Some (i, v) =>
            if (0 <? n)%nat then
              dot ← (if (i <? length p)%nat then char_is p i 46 else Some false);
              if dot : bool then ipv4_octets n p (S i) (oct ++ [v]) else Some None
            else ipv4_octets n p i (oct ++ [v])
        end
  end.

(** The four octets of the string [p]. *)
Definition tok_ipv4_octets (p : list Z) : option (option (list Z)) :=
  r ← ipv4_octets 4 p 0 [];
  Some (match r with Some (i, oct) => if (i =? length p)%nat then Some oct else None | None => None end).

Definition q_tok_ipv4 (p : list Z) : option (option Z) :=
  r ← tok_ipv4_octets p;
  match r with
  | Some oct =>
      a ← oct !! 0%nat; b ← oct !! 1%nat; c ← oct !! 2%nat; d ← oct !! 3%nat;
      Some (Some (Z.lor (Z.lor (Z.lor (Z.shiftl a 24) (Z.shiftl b 16)) (Z.shiftl c 8)) d))
  | None => Some None
  end.

(** The bytes before and behind the [::], the latter where [gap] is set. *)
Record ipv6 := Ipv6 { v6_head : list Z; v6_tail : list Z; v6_gap : bool }.

Definition v6_cur (st : ipv6) : list Z := if v6_gap st then v6_tail st else v6_head st.

(** A byte of the current part, inside the 16 bytes. *)
Definition v6_push (st : ipv6) (x : Z) : option ipv6 :=
  l ← push16 (v6_cur st) x;
  Some (if v6_gap st then Ipv6 (v6_head st) l true else Ipv6 l (v6_tail st) false).

Definition v6_group (p : list Z) (start i : nat) : option Z :=
  fold_opt (fun g k => c ← p !! k; Some (u16 (Z.lor (Z.shiftl g 4) (tok_hexval c)))) 0 (seq start (i - start)).

(** The index behind the hex digits. *)
Fixpoint hex_end (l : list Z) (i : nat) : nat :=
  match l with c :: l => if 0 <=? tok_hexval c then hex_end l (S i) else i | [] => i end.

Fixpoint ipv6_loop (fuel : nat) (p : list Z) (i : nat) (st : ipv6) : option (option ipv6) :=
  match fuel with
  | O => None
  | S fuel =>
      if negb (i <? length p)%nat then Some (Some st)
      else
        let start := i in
        let i := hex_end (drop i p) i in
        quad ← (if (i <? length p)%nat then char_is p i 46 else Some false);
        if quad : bool then
          r ← tok_ipv4_octets (drop start p);
          match r with
          | Some o4 =>
              if (16 <? length (v6_cur st) + 4)%nat then Some None
              else st ← fold_opt v6_push st o4; Some (Some st)
          | None => Some None
          end
        else
          let glen := (i - start)%nat in
          if (glen =? 0)%nat || (4 <? glen)%nat || (16 <? length (v6_cur st) + 2)%nat then Some None
          else
            g ← v6_group p start i;
            st ← v6_push st (u8 (Z.shiftr g 8)); st ← v6_push st (u8 (Z.land g 0xff));
            if (i =? length p)%nat then Some (Some st)
            else
              colon ← char_is p i 58;
              if negb (colon : bool) then Some None
              else
                let i := S i in
                gap ← (if (i <? length p)%nat then char_is p i 58 else Some false);
                if gap : bool then
                  if v6_gap st then Some None else ipv6_loop fuel p (S i) (Ipv6 (v6_head st) (v6_tail st) true)
                else if (i =? length p)%nat then Some None
                else ipv6_loop fuel p i st
  end.

Definition tok_ipv6 (p : list Z) : option (option (list Z)) :=
  if (length p =? 0)%nat then Some None
  else
    gap ← (if (2 <=? length p)%nat then char_is p 0 58 &&& char_is p 1 58 else Some false);
    lone ← (if gap : bool then Some false else char_is p 0 58);
    if lone : bool then Some None
    else
      r ← ipv6_loop (S (length p)) p (if gap : bool then 2 else 0) (Ipv6 [] [] gap);
      Some (match r with
            | Some st =>
                let hn := length (v6_head st) in
                let tn := length (v6_tail st) in
                if v6_gap st then
                  if (16 <=? hn + tn)%nat then None else Some (v6_head st ++ replicate (16 - hn - tn) 0 ++ v6_tail st)
                else if negb (hn =? 16)%nat then None else Some (v6_head st)
            | None => None
            end).

Definition tok_ip_guid (p : list Z) : option (option (list Z)) :=
  r ← tok_ipv4_octets p;
  match r with
  | Some o4 =>
      if (length o4 =? 4)%nat then Some (Some (replicate 10 0 ++ [0xff; 0xff] ++ o4)) else None
  | None => tok_ipv6 p
  end.

(** ** Clocks *)
Definition INT32_MAX : Z := 2147483647.

Definition q_tok_time (p : list Z) : option (option Z) :=
  let len := length p in
  if has_char 58 p then
    '(e, c) ← tok_clock_scan p len 0;
    if negb (e =? len)%nat || negb (k_ok c) || negb (k_fields c =? 3)%nat then Some None
    else
      let m := k_secs c * 1000 in
      let t := m + Z.quot (k_frac c) 1000000 in
      Some (if ovf m || ovf t || (INT32_MAX <? t) then None else Some t)
  else
    ds ← (if (6 <=? len)%nat then tok_all_digits p 0 len else Some false);
    if ds : bool then
      h ← num2 p 0; mi ← num2 p 2; s ← num2 p 4;
      frac ← tok_frac_ns p 6 (if (len <? 9)%nat then len - 6 else 3);
      Some (if (60 <=? mi) || (60 <=? s) then None
            else Some (i32 (h * 3600000 + mi * 60000 + s * 1000 + Z.quot frac 1000000)))
    else Some None.

(** Seconds and the nanoseconds of the fraction. *)
Definition q_tok_clock (p : list Z) : option (option (Z * Z)) :=
  let len := length p in
  if has_char 58 p then
    '(e, c) ← tok_clock_scan p len 0;
    Some (if negb (e =? len)%nat || negb (k_ok c) || (k_fields c <? 2)%nat || (k_dot c && (k_fields c <? 3)%nat) ||
             negb (tok_clock_frac9 c)
          then None else Some (k_secs c, k_frac c))
  else
    ds ← (if (len <? 4)%nat then Some false else tok_all_digits p 0 len);
    if negb (ds : bool) || (len =? 5)%nat then Some None
    else
      h ← num2 p 0; mi ← num2 p 2;
      s ← (if (6 <=? len)%nat then num2 p 4 else Some 0);
      if (6 <=? len)%nat && (9 <? len - 6)%nat then Some None
      else
        frac ← (if (6 <=? len)%nat then tok_frac_ns p 6 (len - 6) else Some 0);
        Some (if (60 <=? mi) || (60 <=? s) then None else Some (h * 3600 + mi * 60 + s, frac)).

Definition q_tok_clock_ns (p : list Z) : option (option Z) :=
  r ← q_tok_clock p;
  Some (match r with
        | Some (secs, frac) =>
            if ovf (secs * 1000000000) || ovf (secs * 1000000000 + frac) then None else Some (secs * 1000000000 + frac)
        | None => None
        end).

(** The days, checked. *)
Fixpoint checked_days (l : list Z) (days : Z) : option Z :=
  match l with
  | [] => Some days
  | c :: l => if ovf (days * 10) || ovf (days * 10 + (c - 48)) then None else checked_days l (days * 10 + (c - 48))
  end.

Definition q_tok_timespan_ns (p : list Z) : option (option Z) :=
  let i := length (prefix_while tok_digit p) in
  d ← (if (0 <? i)%nat && (i <? length p)%nat then char_is p i 68 else Some false);
  if d : bool then
    match checked_days (take i p) 0 with
    | None => Some None
    | Some days =>
        r ← q_tok_clock_ns (drop (i + 1) p);
        Some (match r with Some tod => ts_compose_checked days tod | None => None end)
    end
  else q_tok_clock_ns p.

(** The time of day behind a date. *)
Definition tok_tod_ns (p : list Z) : option (option Z) :=
  '(e, c) ← tok_clock_scan p (length p) 0;
  if negb (e =? length p)%nat || negb (k_ok c) || negb (k_hd c =? 2)%nat || negb (k_fields c =? 3)%nat || negb (tok_clock_frac9 c)
  then Some None
  else ns ← tok_clock_ns c; Some (Some ns).

(** ** Timestamps *)
Section timestamps.
Context (date_order : bool).

(** The index of the first dot, or the length. *)
Definition dot_of (p : list Z) : nat := length (prefix_while (fun c => negb (c =? 46)) p).

Definition unix_seconds (p : list Z) (dot : nat) : option (option Z) :=
  secs ← fold_opt (fun secs k => c ← p !! k; chk (secs * 10 + (c - 48))) 0 (seq 0 dot);
  secs ← chk (secs - 946684800);
  let m := secs * 1000000000 in
  if ovf m then Some None
  else
    frac ← tok_frac_ns p (dot + 1) (if (dot =? length p)%nat then 0 else length p - dot - 1);
    Some (if ovf (m + frac) then None else Some (m + frac)).

Definition q_tok_ts (p : list Z) : option (option Z) :=
  let len := length p in
  let dot := dot_of p in
  unix ← (if (9 <=? dot)%nat && (dot <=? 11)%nat then
            tok_all_digits p 0 dot &&&
            (if (dot =? len)%nat then Some true
             else if (dot + 1 <? len)%nat && (len <=? dot + 10)%nat then tok_all_digits p (dot + 1) (len - dot - 1) else Some false)
          else Some false);
  if unix : bool then unix_seconds p dot
  else
    sep ← (if (10 <=? len)%nat then c ← p !! 4%nat; Some ((c =? 46) || (c =? 45) || (c =? 47)) else Some false);
    packed ← (if sep : bool then Some false else if (8 <=? len)%nat then tok_all_digits p 0 8 else Some false);
    let dl := if sep : bool then 10%nat else if packed : bool then 8%nat else 0%nat in
    if (dl =? 0)%nat then Some None
    else
      date ← q_tok_date date_order (take dl p);
      match date with
      | Some (y, mo, d) =>
          if negb (q_calendar_date_valid y mo d) then Some None
          else
            tod ← (if (dl <? len)%nat then
                     c ← p !! dl;
                     if negb ((c =? 68) || (c =? 84) || (c =? 45) || (c =? 32)) then Some None else tok_tod_ns (drop (dl + 1) p)
                   else Some (Some 0));
            Some (match tod with Some tod => ts_compose_checked (q_calendar_days_from_civil y mo d) tod | None => None end)
      | None => Some None
      end.

Definition tok_ts_bare_d (p : list Z) : option (option Z) :=
  let n := (length p - 1)%nat in
  bare ← (if (0 <? length p)%nat then
            c ← p !! n; if c =? 68 then r ← q_tok_date date_order (take n p); Some (bool_decide (is_Some r)) else Some false
          else Some false);
  q_tok_ts (if bare : bool then take n p else p).

(** ** The entry *)
Context (strtod : list Z -> nat * spec_float) (pow10 : Z -> spec_float) (buf_ok : nat -> bool).

(** A value, or the null of the type. *)
Definition or_null (t : ray_type_e) (v : Z -> lit_val) (r : option Z) : lit_val := match r with Some x => v x | None => ray_typed_null t end.

Definition int_atom (t : ray_type_e) (v : Z) : lit_val := VAtom t (PInt v) false.

(** [while (len && *p == ' ')], at both ends. *)
Fixpoint skip_blanks (p : list Z) : list Z := match p with c :: l => if c =? 32 then skip_blanks l else p | [] => [] end.
Definition trim (p : list Z) : list Z := reverse (skip_blanks (reverse (skip_blanks p))).

(** "X": hex digits up to 0xff. *)
Fixpoint byte_loop (p : list Z) (v : Z) : option Z :=
  match p with
  | [] => Some v
  | c :: p =>
      if tok_hexval c <? 0 then None
      else let v := Z.lor (Z.shiftl v 4) (tok_hexval c) in if 0xff <? v then None else byte_loop p v
  end.

Definition q_tok_int (t : ray_type_e) (p : list Z) : option lit_val :=
  ip ← (if bool_decide (t = RAY_I32) then q_tok_ipv4 p else Some None);
  match ip with
  | Some ip => Some (int_atom RAY_I32 (i32 ip))
  | None =>
      Some (match (if (length p =? 0)%nat then None else ray_parse_i64 p) with
            | Some (used, v) =>
                let out := match t with
                           | RAY_I64 => v =? INT64_MIN
                           | RAY_I32 => (INT32_MAX <? v) || (v <? - INT32_MAX)
                           | _ => (32767 <? v) || (v <? -32767)
                           end in
                if negb (used =? length p)%nat || out then ray_typed_null t else int_atom t v
            | None => ray_typed_null t
            end)
  end.

Definition q_tok_minute (p : list Z) : option lit_val :=
  bare ← (if (0 <? length p)%nat && (length p <=? 2)%nat then
            '(e, c) ← tok_clock_scan p (length p) 0;
            Some (if (e =? length p)%nat && (k_hd c =? length p)%nat then Some (Z.quot (k_secs c) 60) else None)
          else Some None);
  match bare with
  | Some v => Some (int_atom RAY_MINUTE v)
  | None =>
      r ← q_tok_clock p;
      Some (match r with
            | Some (secs, _) => if INT32_MAX <? Z.quot secs 60 then ray_typed_null RAY_MINUTE else int_atom RAY_MINUTE (Z.quot secs 60)
            | None => ray_typed_null RAY_MINUTE
            end)
  end.

(** [None] inside: the designator is not served. *)
Definition q_tok (t : ray_type_e) (p : list Z) : option (option lit_val) :=
  let p := trim p in
  let int_of t r := r ← r; Some (or_null t (int_atom t) r) in
  v ← (match t with
       | RAY_SYM => Some (Some (VSym p))
       | RAY_BOOL =>
           b ← (if (length p =? 1)%nat then c ← p !! 0%nat; Some (bool_decide (c ∈ [49; 84; 116; 88; 120; 89; 121; 0])) else Some false);
           Some (Some (int_atom RAY_BOOL (if b : bool then 1 else 0)))
       | RAY_F64 | RAY_F32 =>
           Some (Some (match (if (length p =? 0)%nat then None else ray_parse_f64 strtod pow10 buf_ok p) with
                       | Some (used, v) =>
                           if negb (used =? length p)%nat then ray_typed_null t
                           else VAtom t (PFlt (match t with RAY_F64 => v | _ => to_f32 v end)) false
                       | None => ray_typed_null t
                       end))
       | RAY_I64 | RAY_I32 | RAY_I16 => v ← q_tok_int t p; Some (Some v)
       | RAY_DATE =>
           r ← q_tok_date date_order p;
           Some (Some (match r with
                       | Some (y, m, d) =>
                           if q_calendar_date_valid y m d then int_atom RAY_DATE (q_calendar_days_from_civil y m d) else ray_typed_null RAY_DATE
                       | None => ray_typed_null RAY_DATE
                       end))
       | RAY_MONTH => v ← int_of RAY_MONTH (q_tok_month p); Some (Some v)
       | RAY_TIME => v ← int_of RAY_TIME (q_tok_time p); Some (Some v)
       | RAY_TIMESTAMP => v ← int_of RAY_TIMESTAMP (tok_ts_bare_d p); Some (Some v)
       | RAY_DATETIME =>
           r ← tok_ts_bare_d p;
           Some (Some (match r with
                       | Some ns => ray_datetime (fdiv (of_int ns) (of_int 86400000000000))
                       | None => ray_typed_null RAY_DATETIME
                       end))
       | RAY_U8 => Some (Some (int_atom RAY_U8 (if (length p =? 0)%nat then 0 else default 0 (byte_loop p 0))))
       | RAY_CHARV =>
           if (length p =? 0)%nat then Some (Some (ray_typed_null RAY_CHARV)) else c ← p !! 0%nat; Some (Some (int_atom RAY_CHARV (u8 c)))
       | RAY_GUID =>
           r ← q_tok_uuid p;
           r ← (match r with Some b => Some (Some b) | None => tok_ip_guid p end);
           Some (Some (match r with Some b => VAtom RAY_GUID (PGuid b) false | None => ray_typed_null RAY_GUID end))
       | RAY_MINUTE => v ← q_tok_minute p; Some (Some v)
       | RAY_SECOND =>
           r ← q_tok_clock p;
           Some (Some (match r with
                       | Some (secs, _) => if INT32_MAX <? secs then ray_typed_null RAY_SECOND else int_atom RAY_SECOND secs
                       | None => ray_typed_null RAY_SECOND
                       end))
       | RAY_TIMESPAN => v ← int_of RAY_TIMESPAN (q_tok_timespan_ns p); Some (Some v)
       | _ => Some None
       end);
  Some v.
End timestamps.
