(* ===== verification/TokSafe.v ===== *)
(** * The scanners stay inside their strings ([src/qlang/parse/q_tok.c])

    Every scan of a literal or of a whole string ends, reads no byte that is
    not there, and puts only values of their type's width into its results. *)
From Stdlib Require Import ZArith Lia String Floats.SpecFloat.
From S2P Require Import Prelude WireLz WireVal NumParse Calendar Tok TokStr.

(** The scans of [s] end at [e]: it is the limit [n], or holds the NUL. *)
Definition stops (s : list Z) (n : Z) (e : nat) : Prop :=
  (e <= length s)%nat /\ (Z.of_nat e = n \/ s !! e = Some 0 /\ e < n).

Lemma stops_read s n e i : stops s n e -> (i <= e)%nat -> i < n -> is_Some (s !! i).
Proof.
  intros [Hl H] Hi Hn. apply lookup_lt_is_Some. destruct H as [H|[H _]]; [lia|].
  apply lookup_lt_Some in H. lia.
Qed.

Lemma tok_digit_ok c : tok_digit c = true <-> 48 <= c <= 57.
Proof. unfold tok_digit. rewrite andb_true_iff, !Z.leb_le. lia. Qed.

(** A run of digits: where it ends and what stands there. *)
Record run_ok (s : list Z) (n : Z) (e i r : nat) : Prop := {
  run_end : (i + r <= e)%nat;
  run_digits : forall k, (k < r)%nat -> exists c, s !! (i + k)%nat = Some c /\ tok_digit c = true;
  run_stop : i + r < n -> exists c, s !! (i + r)%nat = Some c /\ tok_digit c = false }.

Lemma dig_run_ok s n e i : stops s n e -> (i <= e)%nat -> exists r, tok_dig_run_n s n i = Some r /\ run_ok s n e i r.
Proof.
  intros Hs Hi. unfold tok_dig_run_n. remember (e - i)%nat as m eqn:Em. revert i Hi Em.
  induction m as [|m IH]; intros i Hi Em.
  - assert (i = e) as -> by lia. destruct Hs as [Hl [He|[H0 He]]].
    + exists 0%nat. destruct (drop e s); cbn [dig_run]; rewrite (proj2 (Z.leb_le _ 0)) by lia; (split; [done|split; [lia|lia|lia]]).
    + assert (Hd : exists l, drop e s = 0 :: l).
      { exists (drop (S e) s). by apply drop_S. }
      destruct Hd as [l ->]. cbn [dig_run]. rewrite (proj2 (Z.leb_gt _ 0)) by lia. exists 0%nat. split; [done|].
      split; [lia|lia|]. intros _. exists 0. by rewrite Nat.add_0_r.
  - assert (Hn : i < n) by (destruct Hs as [_ [|[]]]; lia). destruct (stops_read s n e i Hs Hi Hn) as [c Hc].
    rewrite (drop_S _ _ _ Hc). cbn [dig_run]. rewrite (proj2 (Z.leb_gt _ 0)) by lia. destruct (tok_digit c) eqn:Ec.
    + destruct (IH (S i) ltac:(lia) ltac:(lia)) as (r & Hr & [He Hd Hst]).
      replace (n - i - 1) with (n - S i) by lia. rewrite Hr. cbn [mbind option_bind]. exists (S r). split; [done|]. split; [lia| |].
      * intros [|k] Hk; [exists c; by rewrite Nat.add_0_r|]. replace (i + S k)%nat with (S i + k)%nat by lia. apply Hd. lia.
      * intros Hlt. replace (i + S r)%nat with (S i + r)%nat in * by lia. apply Hst. lia.
    + exists 0%nat. split; [done|]. split; [lia|lia|]. intros _. exists c. by rewrite Nat.add_0_r.
Qed.

(** ** Digits as numbers *)
Lemma run_digit s n e i r k : run_ok s n e i r -> (k < r)%nat -> exists c, s !! (i + k)%nat = Some c /\ 48 <= c <= 57.
Proof. intros Hr Hk. destruct (run_digits _ _ _ _ _ Hr k Hk) as (c & ? & ?%tok_digit_ok). by exists c. Qed.

Lemma num2_ok s i a b : s !! i = Some a -> s !! (i + 1)%nat = Some b -> 48 <= a <= 57 -> 48 <= b <= 57 ->
  exists v, num2 s i = Some v /\ 0 <= v <= 99.
Proof. intros Ha Hb ? ?. unfold num2. rewrite Ha, Hb. eexists. split; [done|lia]. Qed.

Lemma run_num2 s n e i : run_ok s n e i 2 -> exists v, num2 s i = Some v /\ 0 <= v <= 99.
Proof.
  intros Hr. destruct (run_digit _ _ _ _ _ 0 Hr ltac:(lia)) as (a & Ha & ?), (run_digit _ _ _ _ _ 1 Hr ltac:(lia)) as (b & Hb & ?).
  rewrite Nat.add_0_r in Ha. by apply (num2_ok s i a b).
Qed.

Lemma num4_ok s i : (forall k, (k < 4)%nat -> exists c, s !! (i + k)%nat = Some c /\ 48 <= c <= 57) ->
  exists v, num4 s i = Some v /\ 0 <= v <= 9999.
Proof.
  intros H. destruct (H 0%nat) as (a & Ha & ?), (H 1%nat) as (b & Hb & ?), (H 2%nat) as (c & Hc & ?), (H 3%nat) as (d & Hd & ?); try lia.
  rewrite Nat.add_0_r in Ha. unfold num4. rewrite Ha, Hb, Hc, Hd. eexists. split; [done|lia].
Qed.

Lemma run_num4 s n e i : run_ok s n e i 4 -> exists v, num4 s i = Some v /\ 0 <= v <= 9999.
Proof. intros Hr. apply num4_ok. intros k Hk. by apply (run_digit _ _ _ _ _ k Hr). Qed.

Lemma frac_ok s i fd : (forall k, (k < fd)%nat -> exists c, s !! (i + k)%nat = Some c /\ 48 <= c <= 57) ->
  exists f, tok_frac_ns s i fd = Some f /\ 0 <= f < 10 ^ 9.
Proof.
  intros H. unfold tok_frac_ns.
  enough (Hg : forall (m j : nat) (f : Z), 0 <= f < 10 ^ j -> exists f', fold_opt (fun f k => if (k <? fd)%nat then c ← s !! (i + k)%nat; Some (f * 10 + (c - 48)) else Some (f * 10))
    f (seq j m) = Some f' /\ 0 <= f' < 10 ^ (j + m)%nat).
  { destruct (Hg 9%nat 0%nat 0 ltac:(lia)) as (f & -> & Hf). by exists f. }
  induction m as [|m IH]; intros j f Hf; cbn [seq fold_opt]; [exists f; by rewrite Nat.add_0_r|].
  assert (Hp : 10 ^ Z.of_nat (S j) = 10 * 10 ^ Z.of_nat j) by (rewrite Nat2Z.inj_succ, Z.pow_succ_r; lia).
  replace (j + S m)%nat with (S j + m)%nat by lia. destruct (j <? fd)%nat eqn:E; bprop.
  - destruct (H j E) as (c & -> & Hc). cbn [mbind option_bind]. apply IH. lia.
  - cbn [mbind option_bind]. apply IH. lia.
Qed.

(** ** The clock *)
Definition clock_bounds (c : tok_clock) : Prop :=
  0 <= k_frac c < 10 ^ 9 /\ (k_fields c <= 3)%nat /\ (k_ok c = true -> 0 <= k_secs c <= INT64_MAX) /\
  ((k_hd c <= 2)%nat -> 0 <= k_secs c <= 362439) /\ (k_fields c = 0%nat <-> k_hd c = 0%nat) /\
  (k_hd c = 0%nat -> k_secs c = 0).

Lemma chk_ok z : INT64_MIN <= z <= INT64_MAX -> chk z = Some z.
Proof. intros H. unfold chk. by rewrite !(proj2 (Z.leb_le _ _)) by lia. Qed.

Lemma ovf_false z : INT64_MIN <= z <= INT64_MAX -> ovf z = false.
Proof. intros H. unfold ovf. by rewrite !(proj2 (Z.leb_le _ _)) by lia. Qed.

Lemma ovf_true z : ovf z = false -> INT64_MIN <= z <= INT64_MAX.
Proof. unfold ovf. intros H. bprop. lia. Qed.

Lemma hour_ok s n e i : stops s n e -> (i <= e)%nat ->
  exists f ok hd, clock_hour (drop i s) (n - i) 0 true 0 = Some (f, ok, hd) /\ run_ok s n e i hd /\
    INT64_MIN <= f <= INT64_MAX /\ (ok = true -> 0 <= f) /\ ((hd <= 2)%nat -> 0 <= f < 10 ^ hd /\ ok = true).
Proof.
  intros Hs Hi. destruct (dig_run_ok s n e i Hs Hi) as (r & Hr & Hrun). unfold tok_dig_run_n in Hr.
  enough (H : forall l room f ok hd r, dig_run l room = Some r -> INT64_MIN <= f <= INT64_MAX -> (ok = true -> 0 <= f) ->
    ((hd <= 2)%nat -> 0 <= f < 10 ^ hd /\ ok = true) ->
    exists f' ok', clock_hour l room f ok hd = Some (f', ok', (hd + r)%nat) /\ INT64_MIN <= f' <= INT64_MAX /\ (ok' = true -> 0 <= f') /\
      ((hd + r <= 2)%nat -> 0 <= f' < 10 ^ (hd + r)%nat /\ ok' = true)).
  { destruct (H _ _ 0 true 0%nat r Hr) as (f & ok & -> & Hf & Hok & Hsmall); [unfold INT64_MIN, INT64_MAX; lia|lia|simpl; lia|].
    exists f, ok, r. split; [done|]. auto. }
  clear. induction l as [|c l IH]; intros room f ok hd r Hr Hf Hok Hsm; cbn [dig_run clock_hour] in *;
    (destruct (room <=? 0); [injection Hr as <-; exists f, ok; by rewrite Nat.add_0_r|]); [done|].
  destruct (tok_digit c) eqn:Ec; [|injection Hr as <-; exists f, ok; by rewrite Nat.add_0_r].
  destruct (dig_run l (room - 1)) as [r'|] eqn:Er; cbn [mbind option_bind] in Hr; [|done]. injection Hr as <-.
  apply tok_digit_ok in Ec. replace (hd + S r')%nat with (S hd + r')%nat by lia.
  assert (Hi64 : forall z, INT64_MIN <= i64 z <= INT64_MAX).
  { intros z. unfold i64, sgn, INT64_MIN, INT64_MAX. pose proof (wrap_range 64 z ltac:(lia)). bif; lia. }
  assert (Hpow : (S hd <= 2)%nat -> 10 ^ S hd = 10 * 10 ^ hd) by (intros _; rewrite Nat2Z.inj_succ, Z.pow_succ_r; lia).
  assert (Hp2 : (S hd <= 2)%nat -> 10 ^ hd <= 10) by (intros ?; destruct hd as [|[|] ]; simpl; lia).
  destruct (ovf (f * 10)) eqn:Eo.
  - apply IH; [done|apply Hi64|done|]. intros Hh. destruct (Hsm ltac:(lia)) as [Hsf _]. specialize (Hp2 Hh).
    rewrite ovf_false in Eo; [done|]. unfold INT64_MIN, INT64_MAX. lia.
  - apply ovf_true in Eo. rewrite (i64_small (f * 10)) by done. apply IH; [done|apply Hi64| |].
    + intros Hk. apply andb_true_iff in Hk as [Hk1 Hk2]. apply negb_true_iff, ovf_true in Hk2. rewrite i64_small by done.
      specialize (Hok Hk1). lia.
    + intros Hh. destruct (Hsm ltac:(lia)) as [Hsf Hk]. specialize (Hp2 Hh). specialize (Hpow Hh).
      rewrite ovf_false, i64_small by (unfold INT64_MIN, INT64_MAX; lia). rewrite Hk. split; [lia|done].
Qed.

Lemma char_is_ok s n e i c : stops s n e -> (i <= e)%nat -> i < n -> exists b, char_is s i c = Some b /\ (b = true <-> s !! i = Some c).
Proof.
  intros Hs Hi Hn. destruct (stops_read s n e i Hs Hi Hn) as [x Hx]. unfold char_is. rewrite Hx. cbn [mbind option_bind].
  eexists. split; [done|]. rewrite Z.eqb_eq. split; [by intros ->|by intros [= ->]].
Qed.

(** A byte that is not the NUL is before the end. *)
Lemma stops_next s n e i c : stops s n e -> (i <= e)%nat -> i < n -> s !! i = Some c -> c <> 0 -> (S i <= e)%nat.
Proof.
  intros [Hl H] Hi Hn Hc Hz. destruct (decide (i = e)) as [->|]; [|lia]. destruct H as [?|[H _]]; [lia|congruence].
Qed.

Lemma fields_ok s n e fuel i f ok :
  stops s n e -> (i <= e)%nat -> (length f <= 3)%nat -> (1 <= fuel)%nat -> (f <> [] -> 4 <= fuel + length f)%nat ->
  exists i' g ok', clock_fields fuel s n i f ok = Some (i', f ++ g, ok') /\ (i <= i' <= e)%nat /\ (length (f ++ g) <= 3)%nat /\
    (f = [] -> g = []) /\ Forall (fun v => 0 <= v <= 99) g /\ (ok' = true -> ok = true).
Proof.
  intros Hs. revert i f ok. induction fuel as [|fuel IH]; intros i f ok Hi Hl Hf Hfl; [lia|]. cbn [clock_fields].
  assert (Hstop : exists i' g ok', Some (i, f, ok) = Some (i', f ++ g, ok') /\ (i <= i' <= e)%nat /\ (length (f ++ g) <= 3)%nat /\
    (f = [] -> g = []) /\ Forall (fun v => 0 <= v <= 99) g /\ (ok' = true -> ok = true)).
  { exists i, [], ok. rewrite app_nil_r. by split_and!. }
  destruct (_ && _ && _) eqn:E; bprop; [|exact Hstop].
  destruct (char_is_ok s n e i 58 Hs Hi) as (b & -> & Hb); [lia|]. unfold and_then. cbn [mbind option_bind].
  destruct b; [|exact Hstop]. assert (Hi1 : (S i <= e)%nat) by (apply (stops_next s n e i 58); [done|done|lia|by apply Hb|done]).
  destruct (dig_run_ok s n e (i + 1) Hs ltac:(lia)) as (r & -> & Hr). cbn [mbind option_bind].
  destruct (r =? 2)%nat eqn:E2; bprop; [|exact Hstop]. subst r. destruct (run_num2 _ _ _ _ Hr) as (v & -> & Hv). cbn [mbind option_bind].
  destruct (IH (i + 3)%nat (f ++ [v]) (ok && (v <? 60))) as (i' & g & ok' & -> & Hi' & Hlg & _ & Hg & Hok').
  - pose proof (run_end _ _ _ _ _ Hr). lia.
  - rewrite length_app. simpl. lia.
  - destruct f; [simpl in *; lia|]. specialize (Hfl ltac:(done)). simpl in *. lia.
  - intros _. rewrite length_app. destruct f; [simpl in *; lia|]. specialize (Hfl ltac:(done)). simpl in *. lia.
  - exists i', (v :: g), ok'. rewrite <- app_assoc in *. split; [done|]. split; [lia|]. split; [exact Hlg|]. split.
    + intros ->. simpl in *. lia.
    + split; [by constructor|]. intros Hk. specialize (Hok' Hk). by apply andb_true_iff in Hok' as [? _].
Qed.

Lemma read_fields (f0 : Z) g : Forall (fun v => 0 <= v <= 99) g -> 0 <= (f0 :: g).[1] <= 99 /\ 0 <= (f0 :: g).[2] <= 99.
Proof.
  intros Hg. unfold rd. cbn [lookup list_lookup].
  assert (H : forall (i : nat), 0 <= default 0 (g !! i) <= 99).
  { intros i. destruct (g !! i) as [v|] eqn:E; cbn [default]; [|lia]. rewrite Forall_lookup in Hg. by apply (Hg i). }
  split; apply H.
Qed.

Lemma fourth_ok s n e i fields : stops s n e -> (i <= e)%nat ->
  exists sub frac j, clock_fourth s n i fields = Some (sub, frac, j) /\ (i <= j <= e)%nat /\ 0 <= frac < 10 ^ 9 /\ (sub = 0%nat -> j = i) /\
    (sub <> 0%nat -> fields = 3%nat).
Proof.
  intros Hs Hi. unfold clock_fourth.
  assert (Hno : exists sub frac j, Some (0%nat, 0, i) = Some (sub, frac, j) /\ (i <= j <= e)%nat /\ 0 <= frac < 10 ^ 9 /\ (sub = 0%nat -> j = i) /\
    (sub <> 0%nat -> fields = 3%nat)).
  { exists 0%nat, 0, i. repeat (split; [done || lia|]). done. }
  destruct (_ && _) eqn:E; bprop; [|exact Hno]. destruct (char_is_ok s n e i 58 Hs Hi) as (b & -> & Hb); [lia|]. cbn [mbind option_bind].
  destruct b; [|exact Hno]. assert ((S i <= e)%nat) by (apply (stops_next s n e i 58); [done|lia|lia|by apply Hb|done]).
  destruct (dig_run_ok s n e (i + 1) Hs ltac:(lia)) as (r & -> & Hr). cbn [mbind option_bind]. destruct (0 <? r)%nat eqn:Er; [|exact Hno]. bprop.
  destruct (frac_ok s (i + 1) r) as (fr & -> & Hfr); [intros k Hk; by apply (run_digit _ _ _ _ _ k Hr)|]. cbn [mbind option_bind].
  pose proof (run_end _ _ _ _ _ Hr). exists r, fr, (i + 1 + r)%nat. split; [done|]. split; [lia|]. split; [done|]. split; [lia|done].
Qed.

Lemma dot_ok s n e i fields sub frac : stops s n e -> (i <= e)%nat -> 0 <= frac < 10 ^ 9 ->
  exists dot fr fd ok j, clock_dot s n i fields sub frac = Some (dot, fr, fd, ok, j) /\ (i <= j <= e)%nat /\ 0 <= fr < 10 ^ 9 /\
    (dot = false -> j = i /\ fd = sub).
Proof.
  intros Hs Hi Hfr. unfold clock_dot.
  assert (Hno : exists dot fr fd ok j, Some (false, frac, sub, true, i) = Some (dot, fr, fd, ok, j) /\ (i <= j <= e)%nat /\ 0 <= fr < 10 ^ 9 /\
    (dot = false -> j = i /\ fd = sub)).
  { exists false, frac, sub, true, i. repeat (split; [done || lia|]). done. }
  destruct (i <? n) eqn:En; bprop; [|exact Hno]. destruct (char_is_ok s n e i 46 Hs Hi En) as (b & -> & Hb). unfold and_then. cbn [mbind option_bind].
  destruct b; [|exact Hno]. assert ((S i <= e)%nat) by (apply (stops_next s n e i 46); [done|lia|lia|by apply Hb|done]).
  destruct (dig_run_ok s n e (i + 1) Hs ltac:(lia)) as (r & Hrr & Hr). rewrite Hrr. cbn [mbind option_bind].
  destruct (frac_ok s (i + 1) r) as (fr & -> & Hfr'); [intros k Hk; by apply (run_digit _ _ _ _ _ k Hr)|]. cbn [mbind option_bind].
  pose proof (run_end _ _ _ _ _ Hr).
  destruct (0 <? fields)%nat, (0 <? r)%nat; try exact Hno; eexists true, fr, r, _, (i + 1 + r)%nat; (split; [reflexivity|]); (split; [lia|]); by split.
Qed.

Lemma i64_range z : INT64_MIN <= i64 z <= INT64_MAX.
Proof. unfold i64, sgn, INT64_MIN, INT64_MAX. pose proof (wrap_range 64 z ltac:(lia)). bif; lia. Qed.

Lemma tok_clock_scan_ok s n e i : stops s n e -> (i <= e)%nat ->
  exists j c, tok_clock_scan s n i = Some (j, c) /\ (i + k_hd c <= j <= e)%nat /\ clock_bounds c /\ run_ok s n e i (k_hd c).
Proof.
  intros Hs Hi. unfold tok_clock_scan. destruct (hour_ok s n e i Hs Hi) as (f0 & ok & hd & -> & Hrun & Hf0 & Hok & Hsm).
  cbn [mbind option_bind]. pose proof (run_end _ _ _ _ _ Hrun) as He.
  destruct (fields_ok s n e 3 (i + hd) (if (0 <? hd)%nat then [f0] else []) ok Hs He) as (j & g & ok1 & -> & Hj & Hl & Hnil & Hg & Hok1);
    [destruct (0 <? hd)%nat; simpl; lia|lia|destruct (0 <? hd)%nat; [simpl; lia|done]|]. cbn [mbind option_bind].
  set (f := (if (0 <? hd)%nat then [f0] else []) ++ g) in *.
  destruct (fourth_ok s n e j (length f) Hs ltac:(lia)) as (sub & frac & j1 & -> & Hj1 & Hfrac & _). cbn [mbind option_bind].
  destruct (dot_ok s n e j1 (length f) sub frac Hs ltac:(lia) Hfrac) as (dot & fr & fd & ok2 & j2 & -> & Hj2 & Hfr & _). cbn [mbind option_bind].
  eexists j2, _. split; [reflexivity|]. cbn [k_hd]. split; [lia|]. split; [|exact Hrun]. unfold clock_bounds. cbn [k_frac k_fields k_ok k_secs k_hd].
  split; [done|]. split; [done|].
  assert (Hf : f.[0] = (if (0 <? hd)%nat then f0 else 0) /\ 0 <= f.[1] <= 99 /\ 0 <= f.[2] <= 99).
  { unfold f. destruct (0 <? hd)%nat eqn:E; cbn [app]; [split; [done|by apply read_fields]|]. rewrite Hnil by done. unfold rd. simpl. lia. }
  destruct Hf as (E0 & H1 & H2). rewrite E0. unfold INT64_MIN, INT64_MAX in *.
  assert (Hz : (hd = 0)%nat -> f0 = 0) by (intros ->; destruct (Hsm ltac:(lia)) as [Hz _]; simpl in Hz; lia).
  split; [|split; [|split]].
  - intros Hk. apply andb_true_iff in Hk as [Hk Ha]. apply andb_true_iff in Hk as [Hk Hm]. apply andb_true_iff in Hk as [Hk _].
    apply negb_true_iff in Hm, Ha. rewrite Hm. apply ovf_true in Hm. rewrite (i64_small (_ * 3600)) in * by done. apply ovf_true in Ha.
    rewrite i64_small by done. specialize (Hok (Hok1 Hk)). unfold INT64_MIN, INT64_MAX in *. bif; lia.
  - intros Hh. destruct (Hsm Hh) as [Hs0 _]. assert (10 ^ hd <= 100) by (destruct hd as [|[|[|] ] ]; simpl; lia).
    rewrite ovf_false, (i64_small (_ * 3600)), i64_small; unfold INT64_MIN, INT64_MAX; bif; lia.
  - unfold f. destruct (0 <? hd)%nat eqn:E; bprop; [simpl; lia|]. rewrite Hnil by done. simpl. lia.
  - intros ->. change (0 <? 0)%nat with false in *. cbv iota in *. unfold f in *. rewrite Hnil by done. reflexivity.
Qed.

(** ** Conditions that are evaluated from the left *)
Definition bool_ok (a : option bool) (P : Prop) : Prop := exists x, a = Some x /\ (x = true -> P).

Lemma and_then_ok a b (P Q : Prop) : bool_ok a P -> (P -> bool_ok b Q) -> bool_ok (a &&& b) (P /\ Q).
Proof.
  intros (x & -> & Hx) Hb. unfold and_then. cbn [mbind option_bind]. destruct x; [|by exists false].
  destruct (Hb (Hx eq_refl)) as (y & -> & Hy). exists y. auto.
Qed.

Lemma bool_ok_if (c : bool) a (P : Prop) : (c = true -> bool_ok a P) -> bool_ok (if c then a else Some false) (c = true /\ P).
Proof. destruct c; [|by exists false]. intros H. destruct (H eq_refl) as (x & -> & Hx). exists x. auto. Qed.

(** ** Literals *)
Definition el_ok (e : q_tok_el) : Prop :=
  match e_kind e with
  | Q_TOK_EL_INT => INT64_MIN <= e_i e <= INT64_MAX
  | Q_TOK_EL_TS | Q_TOK_EL_TIMESPAN => - INT64_MAX <= e_i e <= INT64_MAX
  | Q_TOK_EL_DATE => -3000000 <= e_i e <= 3000000
  | Q_TOK_EL_TIME => -1000000000 <= e_i e <= 1000000000
  | Q_TOK_EL_MONTH => -100000 <= e_i e <= 100000
  | Q_TOK_EL_MINUTE => -10000 <= e_i e <= 10000
  | Q_TOK_EL_SECOND => -1000000 <= e_i e <= 1000000
  | _ => True
  end.

(** No more than five digits stand before a D. *)
Definition days_ok (s : list Z) : Prop := forall i r, tok_dig_run s i = Some r -> s !! (i + r)%nat = Some 68 -> (r <= 5)%nat.

Lemma negate_ok neg v : - INT64_MAX <= v <= INT64_MAX -> exists w, negate neg v = Some w /\ (w = v \/ w = - v).
Proof.
  intros Hv. unfold negate. destruct neg; [|by eauto]. rewrite chk_ok by (unfold INT64_MIN, INT64_MAX in *; lia). eauto.
Qed.

Lemma clock_ns_ok c : 0 <= k_frac c < 10 ^ 9 -> 0 <= k_secs c <= 362439 -> exists ns, tok_clock_ns c = Some ns /\ 0 <= ns < 362440000000000.
Proof.
  intros Hf Hs. unfold tok_clock_ns. rewrite chk_ok by (unfold INT64_MIN, INT64_MAX; lia). cbn [mbind option_bind].
  rewrite chk_ok by (unfold INT64_MIN, INT64_MAX; lia). eexists. split; [done|lia].
Qed.

Lemma ts_compose_range days ns : - INT64_MAX <= q_calendar_ts_compose days ns <= INT64_MAX.
Proof.
  unfold q_calendar_ts_compose, ts_compose_checked. destruct (_ || _) eqn:E; bprop; [|lia]. unfold INT64_MAX. bif; lia.
Qed.

Lemma ts_el_ok neg days c : 0 <= k_frac c < 10 ^ 9 -> 0 <= k_secs c <= 362439 ->
  exists el, ts_el neg days c = Some el /\ el_ok el.
Proof.
  intros Hf Hs. unfold ts_el. destruct (clock_ns_ok c Hf Hs) as (ns & -> & _). cbn [mbind option_bind].
  pose proof (ts_compose_range days ns) as Hr. destruct (negate_ok neg _ Hr) as (w & -> & Hw). cbn [mbind option_bind].
  eexists. split; [done|]. cbn. destruct Hw; lia.
Qed.

Lemma date_range y m d : q_calendar_date_valid y m d = true -> -3000000 <= q_calendar_days_from_civil y m d <= 3000000.
Proof.
  intros Hv. rewrite days_from_civil_number by done. pose proof (day_in_year y m d Hv) as Hd. pose proof (date_valid_spec y m d) as [Hs _].
  destruct (Hs Hv) as (Hy & _). unfold day_number. pose proof (year_start_mono 0 (y - 1) ltac:(lia)). pose proof (year_start_mono (y - 1) 9999 ltac:(lia)).
  change (year_start 0) with 0 in *. change (year_start 9999) with 3652059 in *. destruct (is_leap y); lia.
Qed.

Section literal_safe.
Context (b : list Z) (Hb : bytes_ok b) (Hz : 0 ∉ b) (Hlen : length b < 2 ^ 31).
Abbreviation s := (b ++ [0]).
Abbreviation e := (length b).

Lemma lit_stops : stops s SIZE_MAX e.
Proof using Hlen.
  split; [rewrite length_app; simpl; lia|]. right. split; [apply list_lookup_middle; done|]. unfold SIZE_MAX. lia.
Qed.

Lemma lit_read j : (j <= e)%nat -> exists c, s !! j = Some c /\ 0 <= c < 256 /\ (c <> 0 -> (S j <= e)%nat) /\ ((j < e)%nat -> c <> 0).
Proof using Hb Hz.
  intros Hj. destruct (decide (j = e)) as [->|].
  - exists 0. rewrite list_lookup_middle by done. repeat (split; [done || lia|]). lia.
  - destruct (lookup_lt_is_Some_2 b j ltac:(lia)) as [c Hc]. exists c. rewrite lookup_app_l by lia. split; [done|].
    pose proof (list_elem_of_lookup_2 _ _ _ Hc) as Hin. unfold bytes_ok in Hb. rewrite Forall_forall in Hb. specialize (Hb c Hin).
    split; [apply Hb|]. split; [lia|]. intros _ ->. done.
Qed.

Lemma lit_next j c : (j <= e)%nat -> s !! j = Some c -> c <> 0 -> (S j <= e)%nat.
Proof using Hb Hz. intros Hj Hc. destruct (lit_read j Hj) as (x & Hx & _ & Hn & _). assert (x = c) as -> by congruence. auto. Qed.

Lemma lit_char j c : (j <= e)%nat -> bool_ok (char_is s j c) (s !! j = Some c).
Proof using Hb Hz.
  intros Hj. destruct (lit_read j Hj) as (x & Hx & _). unfold char_is. rewrite Hx. cbn [mbind option_bind]. eexists. split; [done|].
  rewrite Z.eqb_eq. by intros ->.
Qed.

Abbreviation lit_run := (run_ok s SIZE_MAX e).

Lemma lit_run_ok j : (j <= e)%nat -> exists r, tok_dig_run s j = Some r /\ lit_run j r.
Proof using Hlen. intros Hj. apply (dig_run_ok s SIZE_MAX e j lit_stops Hj). Qed.

Lemma lit_run_is j k : (j <= e)%nat -> bool_ok (run_is s j k) (lit_run j k).
Proof using Hlen.
  intros Hj. destruct (lit_run_ok j Hj) as (r & Hr & Hrun). unfold run_is. rewrite Hr. cbn [mbind option_bind]. eexists. split; [done|].
  rewrite Nat.eqb_eq. by intros ->.
Qed.

Lemma sign_ok p : (p <= e)%nat -> exists neg q, glued_sign s p = Some (neg, q) /\ (p <= q <= e)%nat /\ (q <= S p)%nat.
Proof using Hb Hz.
  intros Hp. unfold glued_sign. destruct (lit_char p 45 Hp) as (neg & -> & Hn). cbn [mbind option_bind]. eexists neg, _. split; [done|].
  destruct neg; [|lia]. pose proof (lit_next p 45 Hp (Hn eq_refl) ltac:(done)). lia.
Qed.

Lemma tail_ok j : (j <= e)%nat -> exists t, tok_clock_tail s j = Some t /\
  forall q c, t = Some (q, c) -> (j <= q <= e)%nat /\ 0 <= k_frac c < 10 ^ 9 /\ 0 <= k_secs c <= 362439.
Proof using Hb Hz Hlen.
  intros Hj. unfold tok_clock_tail. destruct (tok_clock_scan_ok s SIZE_MAX e j lit_stops Hj) as (q & c & -> & Hq & Hc & _).
  cbn [mbind option_bind]. destruct Hc as (Hfr & Hf & _ & Hs & _).
  destruct (negb (k_ok c) || _ || _) eqn:E1; cbn [mbind option_bind]; [by exists None|].
  assert (Hbad : exists bad, (stray ← (if (0 <? k_fields c)%nat && (k_fields c <? 3)%nat && negb (k_dot c) then char_is s q 58 else Some false);
    Some (stray || negb (tok_clock_frac9 c))) = Some bad).
  { destruct (_ && _ && _); [|by eexists]. destruct (lit_char q 58 ltac:(lia)) as (x & -> & _). by eexists. }
  destruct Hbad as [bad ->]. cbn [mbind option_bind]. destruct bad; [by exists None|]. exists (Some (q, c)). split; [done|].
  intros q' c' [= <- <-]. bprop. split; [lia|]. split; [exact Hfr|]. apply Hs. lia.
Qed.

(** What an arm returns. *)
Definition arm_ok (p : nat) (r : option scanned) : Prop :=
  exists x, r = Some x /\ forall q el, x = Hit q el -> (p < q <= e)%nat /\ el_ok el.

Lemma arm_other p x : (forall q el, x <> Hit q el) -> arm_ok p (Some x).
Proof using Type. intros H. exists x. split; [done|]. intros q el E. by destruct (H q el). Qed.

Lemma arm_hit p q el : (p < q <= e)%nat -> el_ok el -> arm_ok p (Some (Hit q el)).
Proof using Type. intros H1 H2. exists (Hit q el). split; [done|]. intros q' el' [= <- <-]. auto. Qed.

Lemma or_else_ok p a c : arm_ok p a -> arm_ok p c -> arm_ok p (or_else a c).
Proof using Type.
  intros (x & -> & Hx) Hc. unfold or_else. cbn [mbind option_bind]. destruct x as [q el| |m]; [exists (Hit q el); auto|done|by apply arm_other].
Qed.


Lemma date_arm_ok p : (p <= e)%nat -> arm_ok p (tok_date_arm s p).
Proof using Hb Hz Hlen.
  intros Hp. unfold tok_date_arm. destruct (sign_ok p Hp) as (neg & q & -> & Hq & _). cbn [mbind option_bind].
  assert (Hshape : bool_ok (run_is s q 4 &&& char_is s (q + 4) 46 &&& run_is s (q + 5) 2 &&& char_is s (q + 7) 46 &&& run_is s (q + 8) 2
    &&& (c ← s !! (q + 10)%nat; Some (negb (tok_digit c) && negb (c =? 46))))
    (((((lit_run q 4 /\ s !! (q + 4)%nat = Some 46) /\ lit_run (q + 5) 2) /\ s !! (q + 7)%nat = Some 46) /\ lit_run (q + 8) 2) /\ True)).
  { repeat (apply and_then_ok; [|intros Hprev]).
    - apply lit_run_is. lia.
    - apply lit_char. pose proof (run_end _ _ _ _ _ Hprev). lia.
    - destruct Hprev as [Hr Hc]. pose proof (run_end _ _ _ _ _ Hr). pose proof (lit_next (q + 4) 46 ltac:(lia) Hc ltac:(done)). apply lit_run_is. lia.
    - destruct Hprev as [_ Hr]. pose proof (run_end _ _ _ _ _ Hr). apply lit_char. lia.
    - destruct Hprev as [[_ Hr] Hc]. pose proof (run_end _ _ _ _ _ Hr). pose proof (lit_next (q + 7) 46 ltac:(lia) Hc ltac:(done)). apply lit_run_is. lia.
    - destruct Hprev as [_ Hr]. pose proof (run_end _ _ _ _ _ Hr). destruct (lit_read (q + 10) ltac:(lia)) as (c & -> & _). by eexists. }
  destruct Hshape as (shape & -> & Hsh). cbn [mbind option_bind]. destruct shape; cbn [negb]; [|by apply arm_other].
  destruct (Hsh eq_refl) as (((((Hr4 & _) & Hr5) & _) & Hr8) & _). clear Hsh.
  destruct (run_num4 _ _ _ _ Hr4) as (y & -> & _), (run_num2 _ _ _ _ Hr5) as (mo & -> & _), (run_num2 _ _ _ _ Hr8) as (d & -> & _).
  cbn [mbind option_bind]. destruct (q_calendar_date_valid y mo d) eqn:Ev; cbn [negb]; [|by apply arm_other].
  pose proof (run_end _ _ _ _ _ Hr8) as He. destruct (lit_read (q + 10) ltac:(lia)) as (sep & Hsep & _ & Hnext & _). rewrite Hsep. cbn [mbind option_bind].
  cbv zeta. destruct (sep =? 68) eqn:E1; bprop; [|destruct (sep =? 84) eqn:E2; bprop].
  - specialize (Hnext ltac:(lia)). destruct (tail_ok (q + 11) ltac:(lia)) as (t & -> & Ht). cbn [mbind option_bind].
    destruct t as [[en c]|]; [|by apply arm_other]. destruct (Ht en c eq_refl) as (Hen & Hfr & Hse).
    destruct (lit_char en 46 ltac:(lia)) as (x & -> & _). cbn [mbind option_bind]. destruct x; [by apply arm_other|].
    destruct (ts_el_ok neg (q_calendar_days_from_civil y mo d) c Hfr Hse) as (el & -> & Hel). cbn [mbind option_bind]. apply arm_hit; [lia|done].
  - specialize (Hnext ltac:(lia)). destruct (tail_ok (q + 11) ltac:(lia)) as (t & -> & Ht). cbn [mbind option_bind].
    destruct t as [[en c]|]; [|by apply arm_other]. destruct (Ht en c eq_refl) as (Hen & Hfr & Hse).
    destruct (lit_read en ltac:(lia)) as (x & -> & _). cbn [mbind option_bind]. destruct (x =? 112).
    + destruct (ts_el_ok neg (q_calendar_days_from_civil y mo d) c Hfr Hse) as (el & -> & Hel). cbn [mbind option_bind]. apply arm_hit; [lia|done].
    + destruct (_ || _ || _); [by apply arm_other|]. destruct (clock_ns_ok c Hfr Hse) as (ns & -> & _). cbn [mbind option_bind].
      apply arm_hit; [lia|done].
  - apply arm_hit; [lia|]. pose proof (date_range y mo d Ev). cbn. destruct neg; lia.
Qed.

Lemma clock_arm_ok p : (p <= e)%nat -> arm_ok p (tok_clock_arm s p).
Proof using Hb Hz Hlen.
  intros Hp. unfold tok_clock_arm. destruct (sign_ok p Hp) as (neg & q & -> & Hq & _). cbn [mbind option_bind].
  destruct (tok_clock_scan_ok s SIZE_MAX e q lit_stops ltac:(lia)) as (en & c & -> & Hen & (Hfr & Hf & _ & Hs & Hfh & _) & Hrun). cbn [mbind option_bind].
  assert (Hw : exists whole, (if (k_hd c =? 2)%nat && negb (k_dot c) && (k_fd c =? 0)%nat then x ← s !! en; Some (negb (x =? 58)) else Some false) = Some whole /\
    (whole = true -> k_hd c = 2%nat)).
  { destruct (_ && _ && _) eqn:E; bprop; [|by exists false]. destruct (lit_read en ltac:(lia)) as (x & -> & _). cbn [mbind option_bind]. by eexists. }
  destruct Hw as (whole & -> & Hwh). cbn [mbind option_bind]. cbv zeta.
  assert (Hdone : forall k v, k_hd c = 2%nat -> (forall w, w = v \/ w = - v -> el_ok (el_int k w)) -> - INT64_MAX <= v <= INT64_MAX ->
    arm_ok p (if negb (k_ok c) then Some bad_clock else v ← negate neg v; Some (Hit en (el_int k v)))).
  { intros k v Hh Hel Hv. destruct (k_ok c); cbn [negb]; [|by apply arm_other]. destruct (negate_ok neg v Hv) as (w & -> & Hw).
    cbn [mbind option_bind]. apply arm_hit; [lia|by apply Hel]. }
  assert (Hq60 : k_hd c = 2%nat -> 0 <= Z.quot (k_secs c) 60 <= 6041).
  { intros Hh. specialize (Hs ltac:(lia)). Z.to_euclidean_division_equations. lia. }
  assert (Hq6 : 0 <= Z.quot (k_frac c) 1000000 <= 999).
  { Z.to_euclidean_division_equations. lia. }
  destruct (whole && _) eqn:E1; [|destruct (whole && (_ =? 3)%nat) eqn:E2; [|destruct (_ && (k_fd c <=? 3)%nat) eqn:E3; [|destruct (_ && (k_fd c <=? 9)%nat) eqn:E4; [|cbn [mbind option_bind]; by apply arm_other]]]]; bprop;
    cbn [mbind option_bind]; (assert (Hh : k_hd c = 2%nat) by (auto || lia)); specialize (Hs ltac:(lia)); specialize (Hq60 Hh).
  - apply Hdone; [done| |unfold INT64_MAX; lia]. intros w Hw. cbn. lia.
  - apply Hdone; [done| |unfold INT64_MAX; lia]. intros w Hw. cbn. lia.
  - rewrite chk_ok by (unfold INT64_MIN, INT64_MAX; lia). cbn [mbind option_bind]. apply Hdone; [done| |unfold INT64_MAX; lia]. intros w Hw. cbn. lia.
  - destruct (clock_ns_ok c Hfr Hs) as (ns & -> & Hns). cbn [mbind option_bind]. apply Hdone; [done| |unfold INT64_MAX; lia].
    intros w Hw. cbn. unfold INT64_MAX. lia.
Qed.

Lemma special_ok p : (p <= e)%nat -> arm_ok p (lit_special s p).
Proof using Hb Hz.
  intros Hp. unfold lit_special. destruct (sign_ok p Hp) as (neg & q & -> & Hq & _). cbn [mbind option_bind].
  destruct (lit_char q 48 ltac:(lia)) as (z & -> & Hc). cbn [mbind option_bind]. destruct z; cbn [negb]; [|by apply arm_other].
  pose proof (lit_next q 48 ltac:(lia) (Hc eq_refl) ltac:(done)) as Hn. destruct (lit_read (S q) Hn) as (k & -> & _ & Hk & _).
  cbn [mbind option_bind]. cbv zeta. destruct (negb _ || _) eqn:E; [by apply arm_other|]. apply arm_hit; [|by destruct ((k =? 78) || (k =? 110)), neg].
  assert (k <> 0) as Hk0 by (intros ->; by rewrite orb_false_iff in E; destruct E). specialize (Hk Hk0). lia.
Qed.

Lemma float_shape_ok l is_float saw : exists r, float_shape (l ++ [0]) is_float saw = Some r.
Proof using Type.
  revert is_float saw. induction l as [|c l IH]; intros is_float saw; [by eexists|]. cbn [app float_shape].
  destruct (tok_digit c); [apply IH|]. destruct (c =? 46); [apply IH|]. destruct (_ && saw); [|by eexists].
  assert (Hh : exists x, head (l ++ [0]) = Some x) by (destruct l; by eexists). destruct Hh as [x ->]. cbn [mbind option_bind].
  destruct (_ || _ || _); [apply IH|by eexists].
Qed.

(** The day counts of the literal are short. *)
Lemma span_days_ok q dd : lit_run q dd -> (dd <= 5)%nat -> exists days, span_days s q dd = Some days /\ 0 <= days <= 99999.
Proof using Type.
  intros Hrun Hdd. unfold span_days.
  enough (Hg : forall (m j : nat) (f : Z), (j + m = dd)%nat -> 0 <= f < 10 ^ j -> exists f',
    fold_opt (fun days k => c ← s !! (q + k)%nat; t ← chk (days * 10); chk (t + (c - 48))) f (seq j m) = Some f' /\ 0 <= f' < 10 ^ dd).
  { destruct (Hg dd 0%nat 0 ltac:(lia) ltac:(lia)) as (f & -> & Hf). exists f. split; [done|].
    assert (10 ^ dd <= 10 ^ 5) by (apply Z.pow_le_mono_r; lia). lia. }
  induction m as [|m IH]; intros j f Hj Hf; cbn [seq fold_opt]; [exists f; by replace dd with j by lia|].
  destruct (run_digit _ _ _ _ _ j Hrun ltac:(lia)) as (c & -> & Hc). cbn [mbind option_bind].
  assert (Hp : 10 ^ Z.of_nat (S j) = 10 * 10 ^ Z.of_nat j) by (rewrite Nat2Z.inj_succ, Z.pow_succ_r; lia).
  assert (10 ^ S j <= 10 ^ 5) by (apply Z.pow_le_mono_r; lia).
  rewrite chk_ok by (unfold INT64_MIN, INT64_MAX; lia). cbn [mbind option_bind]. rewrite chk_ok by (unfold INT64_MIN, INT64_MAX; lia).
  apply IH; lia.
Qed.

Lemma span_arm_ok p : days_ok s -> (p <= e)%nat -> arm_ok p (tok_span_arm s p).
Proof using Hb Hz Hlen.
  intros Hdays Hp. unfold tok_span_arm. destruct (sign_ok p Hp) as (neg & q & -> & Hq & _). cbn [mbind option_bind].
  destruct (lit_run_ok q ltac:(lia)) as (dd & Hdd & Hrun). rewrite Hdd. cbn [mbind option_bind]. pose proof (run_end _ _ _ _ _ Hrun).
  assert (Hshape : bool_ok (if (1 <=? dd)%nat then char_is s (q + dd) 68 &&& (r ← tok_dig_run s (q + dd + 1); Some (r <=? 2)%nat) else Some false)
    ((1 <=? dd)%nat = true /\ (s !! (q + dd)%nat = Some 68 /\ True))).
  { apply bool_ok_if. intros _. apply and_then_ok; [apply lit_char; lia|]. intros H68.
    pose proof (lit_next (q + dd) 68 ltac:(lia) H68 ltac:(done)). destruct (lit_run_ok (q + dd + 1) ltac:(lia)) as (r & -> & _). by eexists. }
  destruct Hshape as (shape & -> & Hsh). cbn [mbind option_bind]. destruct shape; cbn [negb]; [|by apply arm_other].
  destruct (Hsh eq_refl) as (_ & H68 & _). clear Hsh. pose proof (lit_next (q + dd) 68 ltac:(lia) H68 ltac:(done)).
  destruct (tail_ok (q + dd + 1) ltac:(lia)) as (t & -> & Ht). cbn [mbind option_bind]. destruct t as [[en c]|]; [|by apply arm_other].
  destruct (Ht en c eq_refl) as (Hen & Hfr & Hse). cbv zeta. destruct (lit_read en ltac:(lia)) as (x & -> & _ & Hnext & _). cbn [mbind option_bind].
  assert (Hl : exists letter, (if lit_temporal_letter x (el_int Q_TOK_EL_TIMESPAN 0) then y ← s !! S en; Some (negb (tok_name_byte y)) else Some false) = Some letter).
  { destruct (lit_temporal_letter x _) eqn:El; [|by eexists]. assert (x <> 0) by (intros ->; done).
    destruct (lit_read (S en)) as (y & -> & _); [auto|]. by eexists. }
  destruct Hl as [letter ->]. cbn [mbind option_bind]. destruct (_ && _); [|by apply arm_other].
  destruct (span_days_ok q dd Hrun (Hdays q dd Hdd H68)) as (days & -> & Hd). cbn [mbind option_bind].
  destruct (clock_ns_ok c Hfr Hse) as (ns & -> & Hns). cbn [mbind option_bind].
  rewrite chk_ok by (unfold INT64_MIN, INT64_MAX; lia). cbn [mbind option_bind].
  rewrite chk_ok by (unfold INT64_MIN, INT64_MAX; lia). cbn [mbind option_bind].
  destruct (negate_ok neg (days * 86400000000000 + ns) ltac:(unfold INT64_MAX; lia)) as (w & -> & Hw). cbn [mbind option_bind].
  apply arm_hit; [lia|]. cbn. unfold INT64_MAX. lia.
Qed.

Section with_float.
Context (strtod : list Z -> nat * spec_float) (pow10 : Z -> spec_float) (buf_ok : nat -> bool).

Lemma cstr_ok p : (p <= e)%nat -> cstr (drop p s) = Some (drop p b).
Proof using Hz.
  intros Hp. rewrite drop_app_le by done. assert (Hd : 0 ∉ drop p b) by (intros Hin; apply Hz; by apply (subseteq_drop p b)). revert Hd.
  induction (drop p b) as [|c l IH]; intros Hd; [done|]. apply not_elem_of_cons in Hd as [Hc Hl]. cbn [cstr app].
  rewrite (proj2 (Z.eqb_neq _ _)) by done. by rewrite IH.
Qed.

Lemma drop_bytes p : bytes_ok (drop p b).
Proof using Hb. by apply bytes_ok_drop. Qed.

Lemma month_arm_ok p : (p <= e)%nat -> arm_ok p (tok_month_arm strtod pow10 buf_ok s p).
Proof using Hb Hz Hlen.
  intros Hp. unfold tok_month_arm. destruct (sign_ok p Hp) as (neg & q & -> & Hq & _). cbn [mbind option_bind].
  assert (Hshape : bool_ok (run_is s q 4 &&& char_is s (q + 4) 46 &&& run_is s (q + 5) 2
    &&& (c ← s !! (q + 7)%nat;
         if c =? 46 then Some false
         else if (c =? 101) || (c =? 69) then x ← s !! (q + 8)%nat; Some (negb ((x =? 43) || (x =? 45) || tok_digit x))
         else Some true))
    (((lit_run q 4 /\ s !! (q + 4)%nat = Some 46) /\ lit_run (q + 5) 2) /\ True)).
  { repeat (apply and_then_ok; [|intros Hprev]).
    - apply lit_run_is. lia.
    - apply lit_char. pose proof (run_end _ _ _ _ _ Hprev). lia.
    - destruct Hprev as [Hr Hc]. pose proof (run_end _ _ _ _ _ Hr). pose proof (lit_next (q + 4) 46 ltac:(lia) Hc ltac:(done)). apply lit_run_is. lia.
    - destruct Hprev as [_ Hr]. pose proof (run_end _ _ _ _ _ Hr). destruct (lit_read (q + 7) ltac:(lia)) as (c & -> & _ & Hnext & _).
      cbn [mbind option_bind]. destruct (c =? 46); [by eexists|]. destruct (_ || _) eqn:E; [|by eexists].
      destruct (lit_read (q + 8)) as (x & -> & _); [|by eexists]. assert (c <> 0) by (bprop; lia). specialize (Hnext ltac:(done)). lia. }
  destruct Hshape as (shape & -> & Hsh). cbn [mbind option_bind]. destruct shape; cbn [negb]; [|by apply arm_other].
  destruct (Hsh eq_refl) as (((Hr4 & _) & Hr5) & _). clear Hsh.
  destruct (run_num4 _ _ _ _ Hr4) as (y & -> & Hy), (run_num2 _ _ _ _ Hr5) as (mo & -> & Hmo). cbn [mbind option_bind].
  pose proof (run_end _ _ _ _ _ Hr5) as He. cbv zeta. destruct (_ && _ && _) eqn:Ev; cbn [negb].
  - cbn [mbind option_bind]. rewrite cstr_ok by done. cbn [mbind option_bind].
    destruct (ray_parse_f64 _ _ _ _) as [[u fv]|]; [|by apply arm_other]. destruct (_ =? _)%nat; [|by apply arm_other].
    apply arm_hit; [lia|]. bprop. cbn. destruct neg; lia.
  - destruct (lit_char (q + 7) 109 ltac:(lia)) as (x & -> & _). cbn [mbind option_bind]. destruct x; by apply arm_other.
Qed.


Lemma number_ok p : (p <= e)%nat -> arm_ok p (tok_number strtod pow10 buf_ok s p).
Proof using Hb Hz.
  intros Hp. unfold tok_number. destruct (lit_read p Hp) as (c & -> & _ & Hn & _). cbn [mbind option_bind].
  set (k := if _ : bool then S p else p). assert (Hk : (k <= e)%nat).
  { unfold k. destruct (_ || _) eqn:E; [|done]. apply Hn. bprop. lia. }
  replace (drop k s) with (drop k b ++ [0]) by (by rewrite drop_app_le). destruct (float_shape_ok (drop k b) false false) as [[is_float saw] ->]. cbn [mbind option_bind].
  destruct saw; cbn [negb]; [|by apply arm_other]. rewrite cstr_ok by done. cbn [mbind option_bind].
  destruct is_float.
  - destruct (ray_parse_f64 _ _ _ _) as [[u v]|] eqn:E; [|by apply arm_other]. pose proof (f64_used _ _ _ _ _ _ (drop_bytes p) E) as Hu.
    rewrite length_drop in Hu. destruct (u =? 0)%nat eqn:Eu; bprop; [by apply arm_other|]. apply arm_hit; [lia|done].
  - destruct (ray_parse_i64 _) as [[u v]|] eqn:E; [|by apply arm_other]. destruct (i64_used _ _ _ (drop_bytes p) E) as [Hu Hv].
    rewrite length_drop in Hu. destruct (u =? 0)%nat eqn:Eu; bprop; [by apply arm_other|]. apply arm_hit; [lia|done].
Qed.

Lemma magnitude_ok p : days_ok s -> (p <= e)%nat -> arm_ok p (q_tok_magnitude strtod pow10 buf_ok s p).
Proof using Hb Hz Hlen.
  intros Hdays Hp. unfold q_tok_magnitude, q_tok_temporal.
  repeat apply or_else_ok; auto using special_ok, date_arm_ok, month_arm_ok, clock_arm_ok, span_arm_ok, number_ok.
Qed.
End with_float.
End literal_safe.
