(* ===== verification/TokLit.v ===== *)
(** * Literals are values of their types ([src/qlang/parse/q_tok.c], section 1)

    A whole literal: its type letter, its strand and the value made of it.
    The scan ends behind the first byte and inside the source, fills no array
    past its end, and answers atoms and vectors whose payloads fit the type. *)
From Stdlib Require Import ZArith Lia String Floats.SpecFloat.
From S2P Require Import Prelude WireLz WireVal NumParse Calendar Tok TokStr TokSafe.

(** ** Values of a type *)
Definition width_ok (t : ray_type_e) (z : Z) : Prop :=
  match t with
  | RAY_BOOL => 0 <= z <= 1
  | RAY_U8 | RAY_CHARV => 0 <= z < 256
  | _ => - 2 ^ (8 * ray_type_sizes t - 1) <= z < 2 ^ (8 * ray_type_sizes t - 1)
  end.

(** The kind of payload of the type. *)
Definition shape_ok (t : ray_type_e) (p : payload) : Prop :=
  match t, p with
  | (RAY_F64 | RAY_F32 | RAY_DATETIME), PFlt _ => True
  | (RAY_F64 | RAY_F32 | RAY_DATETIME), _ => False
  | RAY_GUID, PGuid l => length l = 16%nat /\ bytes_ok l
  | RAY_GUID, _ => False
  | (RAY_LIST | RAY_STR | RAY_SYM | RAY_ENUM), _ => False
  | _, PInt _ => True
  | _, _ => False
  end.

Definition elem_ok (t : ray_type_e) (p : payload) : Prop :=
  shape_ok t p /\ match p with PInt z => width_ok t z | _ => True end.

Definition val_ok (v : lit_val) : Prop :=
  match v with
  | VAtom t p _ => shape_ok t p
  | VSym _ => True
  | VVec t _ d => (length d <= MAX_VEC)%nat /\ Forall (elem_ok t) d
  end.

Definition nullable (t : ray_type_e) : bool := match t with RAY_LIST | RAY_SYM | RAY_STR | RAY_ENUM => false | _ => true end.

Lemma sgn_range bits z : 0 < bits -> - 2 ^ (bits - 1) <= sgn bits z < 2 ^ (bits - 1).
Proof.
  intros Hb. unfold sgn. pose proof (wrap_range bits z ltac:(lia)) as Hw.
  assert (2 ^ bits = 2 * 2 ^ (bits - 1)) by (rewrite <- Z.pow_succ_r by lia; f_equal; lia). bif; lia.
Qed.

Lemma null_elem_ok t : nullable t = true -> elem_ok t (null_payload t).
Proof.
  destruct t; try done; intros _; split; try exact I; cbn; unfold INT64_MIN; try lia.
  split; [done|]. unfold bytes_ok. repeat constructor; unfold byte_ok; lia.
Qed.

Lemma set_null_ok v i : val_ok v -> val_ok (ray_vec_set_null v i).
Proof.
  destruct v as [| |t n d]; [done|done|]. intros [Hl Hd]. unfold ray_vec_set_null.
  destruct (i <? length d)%nat; [|by destruct t].
  destruct t; (split; [rewrite ?length_insert; done|]); try done; (apply Forall_insert; [done|by apply null_elem_ok]).
Qed.

Lemma mark_nulls_ok buf v : val_ok v -> val_ok (lit_mark_nulls v buf).
Proof.
  unfold lit_mark_nulls. generalize (seq 0 (length buf)) as l. intros l. revert v. induction l as [|i l IH]; intros v Hv; [done|].
  cbn [foldl]. apply IH. destruct (buf !! i) as [x|]; [|done]. destruct (bool_decide _); [by apply set_null_ok|done].
Qed.

Lemma fill_ok {A} (f : q_tok_el -> option A) (P : A -> Prop) buf : (length buf <= MAX_VEC)%nat ->
  (forall x, x ∈ buf -> exists a, f x = Some a /\ P a) -> exists d, lit_fill f buf = Some d /\ (length d <= MAX_VEC)%nat /\ Forall P d.
Proof.
  intros Hl Hf. unfold lit_fill. rewrite (proj2 (Nat.leb_le _ _)) by done.
  enough (exists d, mapM f buf = Some d /\ length d = length buf /\ Forall P d) as (d & -> & Hd & HP) by (exists d; split; [done|]; split; [lia|done]).
  clear Hl. induction buf as [|x buf IH]; [by exists []|]. destruct (Hf x ltac:(left)) as (a & Ha & Hp).
  destruct IH as (d & Hd & Hn & HP); [intros y Hy; apply Hf; by right|]. exists (a :: d). cbn [mapM]. rewrite Ha, Hd. cbn.
  split; [done|]. split; [by rewrite Hn|by constructor].
Qed.

(** ** Elements in the context of a type *)
Definition ctx_bits (c : lit_ctx) : Z := 8 * ray_type_sizes (x_type c).

Lemma ctx_in (c : lit_ctx) (P : lit_ctx -> Prop) : Forall P LIT_CTX -> c ∈ LIT_CTX -> P c.
Proof. rewrite Forall_forall. auto. Qed.

(** Closed tests of kinds, evaluated. *)
Ltac kind_tests :=
  repeat match goal with
  | |- context [lit_ctx_of_kind ?k] => let k' := eval cbn in k in let r := eval vm_compute in (lit_ctx_of_kind k') in change (lit_ctx_of_kind k) with r
  | |- context [@bool_decide (?a = ?b :> q_tok_el_kind) ?d] => let r := eval vm_compute in (@bool_decide (a = b) d) in change (@bool_decide (a = b) d) with r
  end; cbv iota beta.

Lemma lit_payload_ok c suffixed x : c ∈ LIT_CTX -> x_type c <> RAY_DATETIME -> el_ok x -> lit_el_ok x c suffixed = true ->
  exists v, lit_payload c x = Some v /\ (ray_type_sizes (x_type c) = 8%nat -> INT64_MIN <= v <= INT64_MAX).
Proof.
  intros Hc. pattern c. revert Hc. apply ctx_in. unfold LIT_CTX.
  repeat apply List.Forall_cons; [..|apply List.Forall_nil]; intros Hdt Hx Hok; try done;
    destruct x as [k i f ff], k, suffixed, ff; try (vm_compute in Hok; discriminate Hok); clear Hok; cbn in Hx;
    unfold lit_payload; kind_tests; cbn [andb lit_int lit_el_special x_type x_kind x_unit e_kind e_i]; rewrite ?chk_ok by (unfold INT64_MIN, INT64_MAX in *; lia);
    cbn; (eexists; split; [reflexivity|]); intros Hw; try discriminate Hw; unfold INT64_MIN, INT64_MAX in *; cbv beta iota delta [Nat.eqb]; try lia;
    rewrite ?Z.quot_1_r, ?Z.rem_1_r; try change (0 <? 0) with false; cbv iota; try lia; pose proof (ts_compose_range i 0); unfold INT64_MAX in *; lia.
Qed.

(** ** Values of a strand *)
Lemma elem_int t z : shape_ok t (PInt 0) -> width_ok t z -> elem_ok t (PInt z).
Proof. intros Hs Hw. split; [by destruct t|done]. Qed.

Lemma ctx_type c : c ∈ LIT_CTX ->
  (x_type c <> RAY_DATETIME -> shape_ok (x_type c) (PInt 0)) /\
  (x_type c <> RAY_DATETIME -> ray_type_sizes (x_type c) = 4%nat \/ ray_type_sizes (x_type c) = 8%nat) /\
  (x_type c <> RAY_DATETIME -> forall z, width_ok (x_type c) z <-> - 2 ^ (ctx_bits c - 1) <= z < 2 ^ (ctx_bits c - 1)) /\
  val_ok (ray_typed_null (x_type c)).
Proof.
  intros Hc. pattern c. revert Hc. apply ctx_in. unfold LIT_CTX.
  repeat apply List.Forall_cons; [..|apply List.Forall_nil]; (split; [done|]); (split; [by auto|]); done.
Qed.

Lemma lit_temporal_ok c suffixed buf : c ∈ LIT_CTX -> (length buf <= MAX_VEC)%nat -> Forall el_ok buf ->
  forallb (fun x => lit_el_ok x c suffixed) buf = true -> exists v, lit_temporal c buf = Some v /\ val_ok v.
Proof.
  intros Hc Hl Hbuf Hok. rewrite forallb_forall in Hok. rewrite Forall_forall in Hbuf. unfold lit_temporal.
  destruct (ctx_type c Hc) as (Hs & Hsz & Hw & Ht). destruct (bool_decide (x_type c = RAY_DATETIME)) eqn:E.
  - apply bool_decide_eq_true in E.
    assert (Hv : exists v, (t ← lit_fill (fun x => Some (PFlt (lit_float x))) buf; Some (lit_mark_nulls (VVec RAY_DATETIME false t) buf)) = Some v /\ val_ok v).
    { destruct (fill_ok (fun x => Some (PFlt (lit_float x))) (elem_ok RAY_DATETIME) buf Hl) as (d & -> & Hd); [intros x _; by eexists|].
      eexists. split; [reflexivity|]. by apply mark_nulls_ok. }
    destruct buf as [|x [|] ]; [done| |done]. eexists. split; [reflexivity|]. by destruct (_ && _).
  - apply bool_decide_eq_false in E. specialize (Hs E). specialize (Hsz E). specialize (Hw E).
    assert (Hp : forall x, x ∈ buf -> exists v, lit_payload c x = Some v /\ (ray_type_sizes (x_type c) = 8%nat -> INT64_MIN <= v <= INT64_MAX)).
    { intros x Hx. apply (lit_payload_ok c suffixed); auto. apply Hok. by apply list_elem_of_In. }
    assert (Hv : exists v, (t ← lit_fill (fun x => v ← lit_payload c x; Some (PInt (if (ray_type_sizes (x_type c) =? 4)%nat then i32 v else v))) buf;
      Some (lit_mark_nulls (VVec (x_type c) false t) buf)) = Some v /\ val_ok v).
    { edestruct (fill_ok (fun x => v ← lit_payload c x; Some (PInt (if (ray_type_sizes (x_type c) =? 4)%nat then i32 v else v))) (elem_ok (x_type c)) buf Hl)
        as (d & -> & Hd).
      - intros x Hx. destruct (Hp x Hx) as (v & -> & Hr). cbn [mbind option_bind]. eexists. split; [reflexivity|]. apply elem_int; [done|]. apply Hw.
        unfold ctx_bits. destruct Hsz as [Hsz|Hsz]; rewrite Hsz.
        + apply (sgn_range 32 v). lia.
        + specialize (Hr Hsz). unfold INT64_MIN, INT64_MAX in Hr. simpl. lia.
      - eexists. split; [reflexivity|]. by apply mark_nulls_ok. }
    destruct buf as [|x [|] ]; [done| |done]. destruct (bool_decide _); [by eexists|].
    destruct (Hp x ltac:(left)) as (v & -> & _). cbn [mbind option_bind]. eexists. split; [reflexivity|]. by destruct (x_type c).
Qed.

Lemma bool_val_ok bits : (length bits <= MAX_VEC)%nat -> Forall (fun z => 0 <= z <= 1) bits -> val_ok (bool_val bits).
Proof.
  intros Hl Hb. assert (val_ok (VVec RAY_BOOL false (PInt <$> bits))).
  { split; [by rewrite length_fmap|]. apply Forall_fmap. eapply Forall_impl; [exact Hb|]. intros z Hz. by apply elem_int. }
  by destruct bits as [|x [|] ].
Qed.

Lemma lit_number_ok buf letter : (length buf <= MAX_VEC)%nat -> exists r, lit_number buf letter = Some r /\ forall v, r = inr v -> val_ok v.
Proof.
  intros Hl. unfold lit_number.
  assert (Hvec : forall t f, (forall x, elem_ok t (f x)) ->
    exists r, (d ← lit_fill (fun x => Some (f x)) buf; Some (@inr string _ (lit_mark_nulls (VVec t false d) buf))) = Some r /\ forall v, r = inr v -> val_ok v).
  { intros t f Hf. destruct (fill_ok (fun x => Some (f x)) (elem_ok t) buf Hl) as (d & -> & Hd); [intros x _; by eexists|].
    eexists. split; [reflexivity|]. intros v [= <-]. by apply mark_nulls_ok. }
  assert (Hatom : forall t p, shape_ok t p -> exists r, Some (@inr string _ (VAtom t p false)) = Some r /\ forall v, r = inr v -> val_ok v).
  { intros t p Hp. eexists. split; [reflexivity|]. by intros v [= <-]. }
  destruct (_ || _).
  - destruct (letter =? 101); (destruct buf as [|x [|] ]; [apply (Hvec _ (fun x => PFlt _))|apply Hatom|apply (Hvec _ (fun x => PFlt _))]; done).
  - destruct (existsb _ buf); [by eexists|]. cbv zeta.
    assert (Hw : forall x t bits, t = RAY_I16 /\ bits = 16 \/ t = RAY_I32 /\ bits = 32 \/ t = RAY_I64 /\ bits = 64 -> elem_ok t (PInt (sgn bits x))).
    { intros x t bits [ [-> ->]|[ [-> ->]|[-> ->] ] ]; (split; [done|]); [exact (sgn_range 16 x eq_refl)|exact (sgn_range 32 x eq_refl)|exact (sgn_range 64 x eq_refl)]. }
    set (k := if letter =? 104 then (RAY_I16, 16) else _). assert (Hk : k.1 = RAY_I16 /\ k.2 = 16 \/ k.1 = RAY_I32 /\ k.2 = 32 \/ k.1 = RAY_I64 /\ k.2 = 64).
    { unfold k. repeat bif; auto. }
    destruct k as [t bits]. cbn [fst snd] in Hk.
    destruct buf as [|x [|] ]; [apply (Hvec _ (fun x => PInt _))|apply Hatom|apply (Hvec _ (fun x => PInt _))]; intros; by apply Hw.
Qed.

(** ** Hex digits in pairs *)
Definition hexv (c : Z) : Prop := lit_hex_digit c = true.

Lemma hex_val_range c : hexv c -> 0 <= lit_hex_val c < 16.
Proof. unfold hexv, lit_hex_digit, lit_hex_val, tok_digit. intros H. repeat bif; bprop; try lia; destruct H; bprop; destruct H; bprop; lia. Qed.

Lemma hex_pair_range a c : 0 <= a < 16 -> 0 <= c < 16 -> 0 <= Z.lor (Z.shiftl a 4) c < 256.
Proof.
  intros Ha Hc. assert (H : forallb (fun a => forallb (fun c => (0 <=? Z.lor (Z.shiftl a 4) c) && (Z.lor (Z.shiftl a 4) c <? 256)) (seqZ 0 16)) (seqZ 0 16) = true)
    by (vm_compute; reflexivity).
  rewrite forallb_forall in H. specialize (H a ltac:(apply list_elem_of_In, elem_of_seqZ; lia)). rewrite forallb_forall in H.
  specialize (H c ltac:(apply list_elem_of_In, elem_of_seqZ; lia)). bprop. lia.
Qed.

Lemma push_ok {A} (l : list A) x : (length l < MAX_VEC)%nat -> push l x = Some (l ++ [x]).
Proof. intros H. unfold push. by rewrite (proj2 (Nat.ltb_lt _ _)). Qed.

Lemma hex_pairs_ok k l bytes : length l = (2 * k)%nat -> (length bytes + k <= MAX_VEC)%nat -> Forall hexv l -> bytes_ok bytes ->
  exists r, hex_pairs l bytes = Some r /\ (length r <= MAX_VEC)%nat /\ bytes_ok r.
Proof.
  revert l bytes. induction k as [|k IH]; intros l bytes Hl Hn Hh Hb.
  - destruct l; [|done]. exists bytes. split; [done|]. split; [lia|done].
  - destruct l as [|a [|c l] ]; [done|simpl in Hl; lia|]. apply Forall_cons in Hh as [Ha Hh]. apply Forall_cons in Hh as [Hc Hh].
    cbn [hex_pairs]. rewrite push_ok by lia. cbn [mbind option_bind]. apply IH; [simpl in Hl; lia|rewrite length_app; simpl; lia|done|].
    apply Forall_app. split; [done|]. constructor; [|constructor]. apply hex_pair_range; by apply hex_val_range.
Qed.

Lemma run_while_ok f l : f 0 = false -> exists r, run_while f (l ++ [0]) = Some r /\ (r <= length l)%nat /\ Forall (fun c => f c = true) (take r (l ++ [0])).
Proof.
  intros H0. induction l as [|c l IH]; cbn [app run_while].
  - rewrite H0. exists 0%nat. by repeat constructor.
  - destruct (f c) eqn:E; [|exists 0%nat; repeat constructor; simpl; lia]. destruct IH as (r & -> & Hr & Hf). exists (S r).
    split; [done|]. split; [simpl; lia|]. cbn [take]. by constructor.
Qed.

Lemma guid_zero_ok : elem_ok RAY_GUID zero_guid.
Proof. split; [|done]. split; [done|]. unfold bytes_ok. repeat constructor; unfold byte_ok; lia. Qed.

Lemma ctx_of_in buf letter k c : ctx_of buf letter = Some (k, c) -> c ∈ LIT_CTX.
Proof.
  intros [H _]%List.find_some. apply list_elem_of_In, elem_of_app in H. destruct H as [H|H]; apply list_elem_of_fmap in H as (x & [= -> ->] & Hx); done.
Qed.

(** ** The whole literal *)
Section literal_ok.
Context (b : list Z) (Hb : bytes_ok b) (Hz : 0 ∉ b) (Hlen : length b < 2 ^ 31).
Abbreviation s := (b ++ [0]).
Abbreviation e := (length b).

Lemma lit_while f p : f 0 = false -> (p <= e)%nat ->
  exists r, run_while f (drop p s) = Some r /\ (p + r <= e)%nat /\ Forall (fun c => f c = true) (take r (drop p s)).
Proof using Type.
  intros H0 Hp. rewrite drop_app_le by done. destruct (run_while_ok f (drop p b) H0) as (r & -> & Hr & Hf). rewrite length_drop in Hr.
  exists r. split; [done|]. split; [lia|done].
Qed.

Lemma byte_starts_ok p : (p <= e)%nat -> exists x, q_tok_byte_lit_starts s p = Some x /\ (x = true -> (p + 2 <= e)%nat).
Proof using Hb Hz.
  intros Hp. unfold q_tok_byte_lit_starts.
  assert (H : bool_ok (char_is s p 48 &&& char_is s (p + 1) 120) (s !! p = Some 48 /\ s !! (p + 1)%nat = Some 120)).
  { apply and_then_ok; [by apply lit_char|]. intros H. apply lit_char; [done|done|]. pose proof (lit_next b Hb Hz p 48 Hp H ltac:(done)). lia. }
  destruct H as (x & -> & Hx). exists x. split; [done|]. intros ->. destruct (Hx eq_refl) as [H1 H2].
  pose proof (lit_next b Hb Hz p 48 Hp H1 ltac:(done)) as Hn. pose proof (lit_next b Hb Hz (p + 1) 120 ltac:(lia) H2 ltac:(done)). lia.
Qed.

Definition lit_ok (p : nat) (r : option literal) : Prop :=
  exists x, r = Some x /\ forall q v, x = inr (q, v) -> (p < q <= e)%nat /\ val_ok v.

Lemma lit_ok_err p m : lit_ok p (lit_err m).
Proof using Type. by eexists. Qed.

Lemma lit_ok_val p q v : (p < q <= e)%nat -> val_ok v -> lit_ok p (Some (inr (q, v))).
Proof using Type. intros Hq Hv. eexists. split; [done|]. by intros q' v' [= <- <-]. Qed.

Lemma lit_byte_ok p : (p + 2 <= e)%nat -> lit_ok p (lit_byte s p).
Proof using Hb Hz.
  intros Hp. unfold lit_byte. destruct (lit_while lit_hex_digit (p + 2) eq_refl Hp) as (nd & -> & Hnd & Hhex). cbn [mbind option_bind].
  destruct (lit_read b Hb Hz (p + 2 + nd) Hnd) as (t & -> & _). cbn [mbind option_bind].
  destruct (_ || _ || _ || _); [apply lit_ok_err|]. destruct (2 * MAX_VEC <? nd)%nat eqn:El; [apply lit_ok_err|]. bprop. cbv zeta.
  set (ds := take nd (drop (p + 2) s)) in *. assert (Hds : length ds = nd) by (unfold ds; rewrite length_take, length_drop, length_app; simpl; lia).
  assert (H : exists bytes, (if Nat.odd nd then match ds with c :: l => x ← push [] (lit_hex_val c); hex_pairs l x | [] => None end else hex_pairs ds []) = Some bytes /\
    (length bytes <= MAX_VEC)%nat /\ bytes_ok bytes).
  { destruct (Nat.odd nd) eqn:Eo.
    - apply Nat.odd_spec in Eo as [k Hk]. destruct ds as [|c l] eqn:Ed; [simpl in Hds; lia|]. apply Forall_cons in Hhex as [Hc Hl].
      unfold MAX_VEC in *. rewrite push_ok by (unfold MAX_VEC; simpl; lia). cbn [mbind option_bind]. apply (hex_pairs_ok k); [simpl in Hds; lia|simpl; unfold MAX_VEC; lia|done|].
      constructor; [|constructor]. pose proof (hex_val_range c Hc). unfold byte_ok. lia.
    - assert (Nat.even nd = true) as [k Hk]%Nat.even_spec by (by rewrite <- Nat.negb_odd, Eo). apply (hex_pairs_ok k); [lia|simpl; lia|done|constructor]. }
  destruct H as (bytes & -> & Hn & Hby). cbn [mbind option_bind]. apply lit_ok_val; [lia|].
  assert (val_ok (VVec RAY_U8 false (PInt <$> bytes))).
  { split; [by rewrite length_fmap|]. apply Forall_fmap. eapply Forall_impl; [exact Hby|]. intros z Hr. by apply elem_int. }
  by destruct bytes as [|x [|] ].
Qed.

Lemma bool_bits_ok at_ bits : Forall (fun i => (i <= e)%nat) at_ -> (length bits <= MAX_VEC)%nat -> Forall (fun z => 0 <= z <= 1) bits ->
  exists r, bool_bits s at_ bits = Some r /\ forall l, r = inr l -> (length l <= MAX_VEC)%nat /\ Forall (fun z => 0 <= z <= 1) l.
Proof using Hb Hz.
  revert bits. induction at_ as [|i at_ IH]; intros bits Hat Hl Hbits; cbn [bool_bits].
  - eexists. split; [done|]. by intros l [= <-].
  - apply Forall_cons in Hat as [Hi Hat]. destruct (lit_read b Hb Hz i Hi) as (c & -> & _). cbn [mbind option_bind].
    destruct (_ || _); [by apply IH|]. destruct (_ && _) eqn:Ec; [by eexists|]. destruct (_ <=? _)%nat eqn:El; [by eexists|]. bprop.
    rewrite push_ok by done. cbn [mbind option_bind]. apply IH; [done|rewrite length_app; simpl; lia|].
    apply Forall_app. split; [done|]. constructor; [|constructor]. destruct Ec; bprop; lia.
Qed.

Lemma type_letter_ok p letter x : (p <= e)%nat -> exists q l, q_tok_type_letter s p letter x = Some (q, l) /\ (p <= q <= e)%nat.
Proof using Hb Hz.
  intros Hp. unfold q_tok_type_letter. destruct (lit_read b Hb Hz p Hp) as (c & -> & _ & Hn & _). cbn [mbind option_bind].
  destruct (negb _ && _) eqn:E; [|eexists _, _; split; [done|lia]]. eexists _, _. split; [done|]. bprop. specialize (Hn ltac:(done)). lia.
Qed.

(** A strand that was read: its position and its elements. *)
Definition strand_ok (p : nat) (buf : list q_tok_el) : Prop := (p <= e)%nat /\ (1 <= length buf <= MAX_VEC)%nat /\ Forall el_ok buf.

Lemma lit_strand_ok start p buf letter : (start <= p)%nat -> strand_ok p buf ->
  exists r, lit_strand s start p buf letter = Some r /\ forall v, r = inr v -> val_ok v.
Proof using Hb Hz.
  intros Hs (Hp & Hn & Hel). unfold lit_strand. cbv zeta. destruct (letter =? 98).
  { destruct (bool_bits_ok (seq start (p - 1 - start)) []) as (r & -> & Hr); [|simpl; lia|constructor|].
    - apply Forall_forall. intros i [_ Hi]%elem_of_seq. lia.
    - cbn [mbind option_bind]. destruct r as [m|[|x l] ]; [by eexists|by eexists|]. destruct (Hr _ eq_refl). eexists. split; [done|].
      intros v [= <-]. by apply (bool_val_ok (x :: l)). }
  destruct (letter =? 103).
  { destruct (negb _); [by eexists|]. eexists. split; [done|]. intros v [= <-].
    assert (val_ok (VVec RAY_GUID false (replicate (length buf) zero_guid))).
    { split; [rewrite length_replicate; lia|]. apply Forall_replicate, guid_zero_ok. }
    destruct buf as [|x [|] ]; [done|apply guid_zero_ok|done]. }
  destruct (letter =? 99).
  { destruct (negb _); [by eexists|]. rewrite (proj2 (Nat.ltb_ge _ _)) by lia. eexists. split; [done|]. intros v [= <-].
    assert (val_ok (VVec RAY_CHARV false (replicate (length buf) (PInt 32)))).
    { split; [rewrite length_replicate; lia|]. apply Forall_replicate. by apply elem_int. }
    by destruct buf as [|x [|] ]. }
  destruct (ctx_of buf letter) as [ [k c]|] eqn:Ec; [|apply lit_number_ok; lia].
  destruct (forallb _ buf) eqn:Ef; cbn [negb]; [|by eexists].
  destruct (lit_temporal_ok c k buf (ctx_of_in _ _ _ _ Ec) ltac:(lia) Hel Ef) as (v & -> & Hv). cbn [mbind option_bind]. eexists. split; [done|]. by intros v' [= <-].
Qed.

Context (strtod : list Z -> nat * spec_float) (pow10 : Z -> spec_float) (buf_ok : nat -> bool).

Lemma strand_total fuel p buf letter : days_ok s -> (e - p < fuel)%nat -> strand_ok p buf ->
  exists r, strand strtod pow10 buf_ok fuel s p buf letter = Some r /\
    forall q buf' l, r = inr (q, buf', l) -> (p <= q)%nat /\ strand_ok q buf'.
Proof using Hb Hz Hlen.
  intros Hd. revert p buf letter. induction fuel as [|fuel IH]; intros p buf letter Hf Hok; [lia|]. cbn [strand].
  assert (Hstay : exists r, Some (@inr string _ (p, buf, letter)) = Some r /\ forall q buf' l, r = inr (q, buf', l) -> (p <= q)%nat /\ strand_ok q buf').
  { eexists. split; [done|]. by intros q buf' l [= <- <- <-]. }
  destruct Hok as (Hp & Hn & Hel). destruct (lit_while lit_ws p eq_refl Hp) as (ws & -> & Hws & _). cbn [mbind option_bind]. cbv zeta.
  destruct (ws =? 0)%nat eqn:Ew; [done|]. bprop. destruct (byte_starts_ok (p + ws) Hws) as (x & -> & _). cbn [mbind option_bind]. destruct x; [done|].
  destruct (magnitude_ok b Hb Hz Hlen strtod pow10 buf_ok (p + ws) Hd Hws) as (r & -> & Hr). cbn [mbind option_bind].
  destruct r as [q x| |m]; [|done|by eexists]. destruct (Hr q x eq_refl) as [Hq Hx].
  destruct (negb _); [by eexists|]. destruct (_ <=? _)%nat eqn:El; [by eexists|]. bprop. rewrite push_ok by lia. cbn [mbind option_bind].
  destruct (type_letter_ok q letter x ltac:(lia)) as (q' & l & -> & Hq'). cbn [mbind option_bind].
  destruct (IH q' (buf ++ [x]) l ltac:(lia)) as (r' & Hr' & Hp').
  - split; [lia|]. split; [rewrite length_app; simpl; lia|]. apply Forall_app. by repeat constructor.
  - rewrite Hr'. exists r'. split; [done|]. intros q'' buf' l' E. destruct (Hp' _ _ _ E) as [Hq'' Hok]. split; [lia|done].
Qed.

Lemma literal_total start : days_ok s -> (start <= e)%nat -> lit_ok start (q_tok_literal strtod pow10 buf_ok s start).
Proof using Hb Hz Hlen.
  intros Hd Hs. unfold q_tok_literal. destruct (byte_starts_ok start Hs) as (x & -> & Hx). cbn [mbind option_bind].
  destruct x; [by apply lit_byte_ok, Hx|].
  destruct (lit_while (fun c => (c =? 48) || (c =? 49)) start eq_refl Hs) as (nb & -> & Hnb & Hbits). cbn [mbind option_bind].
  destruct (lit_read b Hb Hz (start + nb) Hnb) as (c & -> & _ & Hnext & _). cbn [mbind option_bind].
  destruct (_ && _) eqn:E1.
  - destruct (MAX_VEC <? nb)%nat eqn:E2; [apply lit_ok_err|]. bprop. subst c. specialize (Hnext ltac:(done)). apply lit_ok_val; [lia|].
    apply bool_val_ok; [rewrite length_fmap, length_take; lia|]. apply Forall_fmap. eapply Forall_impl; [exact Hbits|].
    intros c Hc. cbn. apply orb_true_iff in Hc as [?%Z.eqb_eq|?%Z.eqb_eq]; lia.
  - clear E1. destruct (magnitude_ok b Hb Hz Hlen strtod pow10 buf_ok start Hd Hs) as (r & -> & Hr). cbn [mbind option_bind].
    destruct r as [q y| |m]; [|apply lit_ok_err|apply lit_ok_err]. destruct (Hr q y eq_refl) as [Hq Hy].
    destruct (type_letter_ok q 0 y ltac:(lia)) as (p & letter & -> & Hp). cbn [mbind option_bind].
    destruct (strand_total (length s) p [y] letter Hd) as (r & -> & Hst); [rewrite length_app; simpl; lia| |].
    + split; [lia|]. split; [unfold MAX_VEC; simpl; lia|]. by repeat constructor.
    + cbn [mbind option_bind]. destruct r as [m|[ [p' buf] l] ]; [apply lit_ok_err|]. destruct (Hst p' buf l eq_refl) as [Hp' Hok].
      destruct (lit_strand_ok start p' buf l ltac:(lia) Hok) as (v & -> & Hv). cbn [mbind option_bind].
      destruct v as [m|v]; [apply lit_ok_err|]. apply lit_ok_val; [|by apply Hv]. destruct Hok. lia.
Qed.
End literal_ok.

(** C10. Reading a literal from a source string of fewer than 2^31 bytes, at any
    position and whatever the bytes are, ends, reads nothing behind the NUL and
    writes nothing behind its arrays of [MAX_VEC] elements, and has no overflow
    in its unchecked arithmetic, provided no D follows more than five digits.
    Where it answers a value, it has consumed at least one byte and none behind
    the source, and the value is one of its type: the payload is of the type's
    kind, and a vector has at most [MAX_VEC] elements, each in the width of the
    type. *)
Theorem q_tok_literal_safe strtod pow10 buf_ok (b : list Z) (start : nat) :
  bytes_ok b -> 0 ∉ b -> length b < 2 ^ 31 -> days_ok (b ++ [0]) -> (start <= length b)%nat ->
  exists r, q_tok_literal strtod pow10 buf_ok (b ++ [0]) start = Some r /\
    forall p v, r = inr (p, v) -> (start < p <= length b)%nat /\ val_ok v.
Proof. intros Hb Hz Hlen Hd Hs. by apply (literal_total b Hb Hz Hlen). Qed.

Definition no_float (_ : list Z) : nat * spec_float := (0%nat, zero).

(** [12D03:04 0N]. *)
Lemma q_tok_literal_safe_witness :
  exists r, q_tok_literal no_float (fun _ => zero) (fun _ => true) ([49; 50; 68; 48; 51; 58; 48; 52; 32; 48; 78] ++ [0]) 0 = Some r /\
    forall p v, r = inr (p, v) -> (0 < p <= 11)%nat /\ val_ok v.
Proof.
  apply (q_tok_literal_safe no_float (fun _ => zero) (fun _ => true) [49; 50; 68; 48; 51; 58; 48; 52; 32; 48; 78] 0).
  - unfold bytes_ok, byte_ok. repeat constructor; lia.
  - apply (bool_decide_unpack _). vm_compute. exact I.
  - simpl. lia.
  - intros i r _ Hd. assert (Hn : (i + r)%nat = 2%nat) by (revert Hd; generalize (i + r)%nat; intros n; do 12 (destruct n as [|n]; [done|]); done). lia.
  - simpl. lia.
Defined.

(** Without the bound on the digits before a D the arithmetic overflows. *)
Lemma q_tok_literal_overflow :
  q_tok_literal no_float (fun _ => zero) (fun _ => true) [49; 48; 54; 55; 53; 50; 68; 0] 0 = None /\
  exists v, q_tok_literal no_float (fun _ => zero) (fun _ => true) [49; 48; 54; 55; 53; 49; 68; 0] 0 = Some (inr (7%nat, v)).
Proof. split; [vm_compute; reflexivity|eexists; vm_compute; reflexivity]. Qed.
