(* ===== verification/TokStrSafe.v ===== *)
(** * Whole strings are scanned safely ([src/qlang/parse/q_tok.c], sections 2 and 3)

    Every scanner of [$] is total on every string: it reads inside the string,
    fills no array past its end, and what it answers is in the domain of its
    type. *)
From Stdlib Require Import ZArith Lia Floats.SpecFloat.
From S2P Require Import Prelude WireLz WireVal NumParse Calendar Tok TokStr TokSafe TokLit.

(** ** Runs of digits in a string *)
Definition digits (p : list Z) (i len : nat) : Prop := forall k, (k < len)%nat -> exists c, p !! (i + k)%nat = Some c /\ 48 <= c <= 57.

Lemma digits_sub p i len j m : digits p i len -> (i <= j)%nat -> (j + m <= i + len)%nat -> digits p j m.
Proof. intros H Hi Hm k Hk. destruct (H (j - i + k)%nat ltac:(lia)) as (c & Hc & Hd). exists c. by replace (j + k)%nat with (i + (j - i + k))%nat by lia. Qed.

Lemma digits_num2 p i len j : digits p i len -> (i <= j)%nat -> (j + 2 <= i + len)%nat -> exists v, num2 p j = Some v /\ 0 <= v <= 99.
Proof.
  intros H Hi Hj. pose proof (digits_sub p i len j 2 H Hi Hj) as Hd. destruct (Hd 0%nat ltac:(lia)) as (a & Ha & ?), (Hd 1%nat ltac:(lia)) as (b & Hb & ?).
  rewrite Nat.add_0_r in Ha. by apply (num2_ok p j a b).
Qed.

Lemma digits_num4 p i len j : digits p i len -> (i <= j)%nat -> (j + 4 <= i + len)%nat -> exists v, num4 p j = Some v /\ 0 <= v <= 9999.
Proof. intros H Hi Hj. apply num4_ok. by apply (digits_sub p i len j 4). Qed.

Lemma digits_frac p i len j fd : digits p i len -> (i <= j)%nat -> (j + fd <= i + len)%nat -> exists f, tok_frac_ns p j fd = Some f /\ 0 <= f < 10 ^ 9.
Proof. intros H Hi Hj. apply frac_ok. by apply (digits_sub p i len j fd). Qed.

Lemma all_digits_ok p i len : (i + len <= length p)%nat -> bool_ok (tok_all_digits p i len) (digits p i len).
Proof.
  intros Hl. unfold tok_all_digits. destruct (len =? 0)%nat; [by exists false|].
  destruct (dig_run_ok (drop i p) len len 0) as (r & -> & Hr); [split; [rewrite length_drop; lia|by left]|lia|].
  cbn [mbind option_bind]. eexists. split; [done|]. intros ->%Nat.eqb_eq k Hk. destruct (run_digit _ _ _ _ _ k Hr Hk) as (c & Hc & Hd).
  exists c. by rewrite lookup_drop in Hc.
Qed.

Lemma digits_at_ok p (l : list nat) : Forall (fun i => (i < length p)%nat) l ->
  bool_ok (digits_at p l) (forall i, i ∈ l -> exists c, p !! i = Some c /\ 48 <= c <= 57).
Proof.
  induction l as [|i l IH]; intros Hl; cbn [digits_at]; [eexists; split; [done|]; intros _ i Hi; by apply elem_of_nil in Hi|].
  apply Forall_cons in Hl as [Hi Hl]. destruct (lookup_lt_is_Some_2 p i Hi) as [c Hc]. rewrite Hc. cbn [mbind option_bind].
  destruct (tok_digit c) eqn:Ed; cbn [negb]; [|by exists false]. destruct (IH Hl) as (x & -> & Hx). exists x. split; [done|].
  intros Ht j [->|Hj]%elem_of_cons; [exists c; by apply tok_digit_ok in Ed|by apply Hx].
Qed.

Lemma at_num2 p (l : list nat) i : (forall i, i ∈ l -> exists c, p !! i = Some c /\ 48 <= c <= 57) -> i ∈ l -> (i + 1)%nat ∈ l -> exists v, num2 p i = Some v /\ 0 <= v <= 99.
Proof. intros H Hi Hj. destruct (H _ Hi) as (a & Ha & ?), (H _ Hj) as (b & Hb & ?). by apply (num2_ok p i a b). Qed.

Lemma at_num4 p (l : list nat) i : (forall i, i ∈ l -> exists c, p !! i = Some c /\ 48 <= c <= 57) -> i ∈ l -> (i + 1)%nat ∈ l -> (i + 2)%nat ∈ l -> (i + 3)%nat ∈ l ->
  exists v, num4 p i = Some v /\ 0 <= v <= 9999.
Proof.
  intros H H0 H1 H2 H3. apply num4_ok. intros k Hk. destruct k as [|[|[|[|k] ] ] ]; [rewrite Nat.add_0_r|..|lia]; by apply H.
Qed.

Lemma char_ok p i c : (i < length p)%nat -> bool_ok (char_is p i c) (p !! i = Some c).
Proof.
  intros Hi. unfold char_is. destruct (lookup_lt_is_Some_2 p i Hi) as [x ->]. cbn [mbind option_bind]. eexists. split; [done|]. by intros ->%Z.eqb_eq.
Qed.


(** ** Dates *)
Lemma date_ok ord p : exists r, q_tok_date ord p = Some r.
Proof.
  unfold q_tok_date. destruct (length p =? 8)%nat eqn:E8; bprop.
  { destruct (digits_at_ok p (seq 0 8)) as (x & -> & Hx).
    { apply Forall_forall. intros i [_ Hi]%elem_of_seq. lia. }
    cbn [mbind option_bind]. destruct x; [|by eexists]. specialize (Hx eq_refl).
    destruct (at_num4 p _ 0 Hx) as (y & -> & _); [by apply elem_of_seq; lia..|].
    destruct (at_num2 p _ 4 Hx) as (m & -> & _); [by apply elem_of_seq; lia..|].
    destruct (at_num2 p _ 6 Hx) as (d & -> & _); [by apply elem_of_seq; lia..|]. by eexists. }
  destruct (length p =? 10)%nat eqn:E10; bprop; [|by eexists].
  destruct (lookup_lt_is_Some_2 p 4 ltac:(lia)) as [c ->]. cbn [mbind option_bind].
  assert (H7 : exists x, (if (c =? 46) || (c =? 45) || (c =? 47) then char_is p 7 c else Some false) = Some x).
  { destruct (_ || _ || _); [|by eexists]. destruct (char_ok p 7 c ltac:(lia)) as (x & -> & _). by eexists. }
  destruct H7 as [x ->]. cbn [mbind option_bind]. destruct x.
  { destruct (digits_at_ok p [0; 1; 2; 3; 5; 6; 8; 9]%nat) as (y & -> & Hy); [repeat constructor; lia|].
    cbn [mbind option_bind]. destruct y; [|by eexists]. specialize (Hy eq_refl).
    destruct (at_num4 p _ 0 Hy) as (y & -> & _); [set_solver..|]. destruct (at_num2 p _ 5 Hy) as (m & -> & _); [set_solver..|].
    destruct (at_num2 p _ 8 Hy) as (d & -> & _); [set_solver..|]. by eexists. }
  destruct (and_then_ok (char_is p 2 47) (char_is p 5 47) (p !! 2%nat = Some 47) (p !! 5%nat = Some 47)) as (z & -> & _).
  { apply char_ok. lia. }
  { intros _. apply char_ok. lia. }
  cbn [mbind option_bind]. destruct z; [|by eexists].
  destruct (digits_at_ok p [0; 1; 3; 4; 6; 7; 8; 9]%nat) as (y & -> & Hy); [repeat constructor; lia|].
  cbn [mbind option_bind]. destruct y; [|by eexists]. specialize (Hy eq_refl).
  destruct (at_num2 p _ 0 Hy) as (a & -> & _); [set_solver..|]. destruct (at_num2 p _ 3 Hy) as (b & -> & _); [set_solver..|].
  destruct (at_num4 p _ 6 Hy) as (y & -> & _); [set_solver..|]. by eexists.
Qed.

Lemma month_ok p : exists r, q_tok_month p = Some r /\ forall v, r = Some v -> -100000 <= v <= 100000.
Proof.
  unfold q_tok_month.
  assert (Hsep : bool_ok (if (length p =? 7)%nat then tok_all_digits p 0 4 &&& (c ← p !! 4%nat; Some ((c =? 46) || (c =? 45) || (c =? 47))) &&& tok_all_digits p 5 2 else Some false)
    ((length p =? 7)%nat = true /\ ((digits p 0 4 /\ True) /\ digits p 5 2))).
  { apply bool_ok_if. intros Hl. bprop. repeat apply and_then_ok; [apply all_digits_ok; lia|intros _|intros _; apply all_digits_ok; lia].
    destruct (lookup_lt_is_Some_2 p 4 ltac:(lia)) as [c ->]. by eexists. }
  destruct Hsep as (sep & -> & Hsep). cbn [mbind option_bind].
  assert (Hpack : bool_ok (if sep then Some false else if (length p =? 6)%nat then tok_all_digits p 0 6 else Some false) ((length p =? 6)%nat = true /\ digits p 0 6)).
  { destruct sep; [by exists false|]. apply bool_ok_if. intros Hl. bprop. apply all_digits_ok. lia. }
  destruct Hpack as (packed & -> & Hpack). cbn [mbind option_bind].
  destruct (negb (sep || packed)) eqn:En; [by eexists|].
  assert (Hy : exists y mo, num4 p 0 = Some y /\ num2 p (if sep then 5 else 4) = Some mo).
  { destruct sep.
    - destruct (Hsep eq_refl) as (_ & [H4 _] & H2). destruct (digits_num4 p 0 4 0 H4) as (y & -> & _); [lia..|]. destruct (digits_num2 p 5 2 5 H2) as (m & -> & _); [lia..|]. by eauto.
    - destruct packed; [|done]. destruct (Hpack eq_refl) as [_ H6]. destruct (digits_num4 p 0 6 0 H6) as (y & -> & _); [lia..|].
      destruct (digits_num2 p 0 6 4 H6) as (m & -> & _); [lia..|]. by eauto. }
  destruct Hy as (y & mo & -> & ->). cbn [mbind option_bind]. destruct (_ || _ || _ || _) eqn:E; [by eexists|]. bprop. eexists. split; [done|]. intros v [= <-]. lia.
Qed.

(** ** Clocks *)
Lemma scan_ok p : exists e c, tok_clock_scan p (length p) 0 = Some (e, c) /\ (k_hd c <= e)%nat /\ clock_bounds c.
Proof.
  destruct (tok_clock_scan_ok p (length p) (length p) 0) as (e & c & -> & He & Hc & _); [by split; [|left]|lia|]. exists e, c. split; [done|]. split; [lia|done].
Qed.

Lemma ms_quot f : 0 <= f < 10 ^ 9 -> 0 <= Z.quot f 1000000 <= 999.
Proof. intros Hf. Z.to_euclidean_division_equations. lia. Qed.

Lemma time_ok p : exists r, q_tok_time p = Some r /\ forall v, r = Some v -> 0 <= v <= INT32_MAX.
Proof.
  unfold q_tok_time. cbv zeta. destruct (has_char 58 p).
  - destruct (scan_ok p) as (e & c & -> & _ & (Hf & _ & Hok & _)). cbn [mbind option_bind]. destruct (_ || _ || _) eqn:E; [by eexists|]. bprop.
    eexists. split; [done|]. intros v. destruct (ovf _ || _ || _) eqn:Eo; [done|]. intros [= <-]. bprop. specialize (Hok ltac:(done)). pose proof (ms_quot _ Hf). lia.
  - assert (Hd : bool_ok (if (6 <=? length p)%nat then tok_all_digits p 0 (length p) else Some false) ((6 <=? length p)%nat = true /\ digits p 0 (length p))).
    { apply bool_ok_if. intros _. by apply all_digits_ok. }
    destruct Hd as (x & -> & Hx). cbn [mbind option_bind]. destruct x; [|by eexists]. destruct (Hx eq_refl) as [Hl Hd]. bprop.
    destruct (digits_num2 p 0 _ 0 Hd) as (h & -> & Hh); [lia..|]. destruct (digits_num2 p 0 _ 2 Hd) as (mi & -> & Hmi); [lia..|].
    destruct (digits_num2 p 0 _ 4 Hd) as (s & -> & Hs); [lia..|]. cbn [mbind option_bind].
    destruct (digits_frac p 0 _ 6 (if (length p <? 9)%nat then length p - 6 else 3) Hd) as (f & -> & Hf); [lia|bif; lia|]. cbn [mbind option_bind].
    eexists. split; [done|]. intros v. destruct (_ || _) eqn:E; [done|]. intros [= <-]. bprop. pose proof (ms_quot _ Hf).
    rewrite i32_small by lia. unfold INT32_MAX. lia.
Qed.

Lemma clock_ok p : exists r, q_tok_clock p = Some r /\ forall secs frac, r = Some (secs, frac) -> 0 <= secs <= INT64_MAX /\ 0 <= frac < 10 ^ 9.
Proof.
  unfold q_tok_clock. cbv zeta. destruct (has_char 58 p).
  - destruct (scan_ok p) as (e & c & -> & _ & (Hf & _ & Hok & _)). cbn [mbind option_bind]. eexists. split; [done|]. intros s f.
    destruct (_ || _ || _ || _ || _) eqn:E; [done|]. intros [= <- <-]. bprop. split; [by apply Hok|done].
  - assert (Hd : bool_ok (if (length p <? 4)%nat then Some false else tok_all_digits p 0 (length p)) ((4 <= length p)%nat /\ digits p 0 (length p))).
    { destruct (length p <? 4)%nat eqn:E; [by exists false|]. bprop. destruct (all_digits_ok p 0 (length p) ltac:(lia)) as (x & -> & Hx). exists x. auto. }
    destruct Hd as (x & -> & Hx). cbn [mbind option_bind]. destruct (negb x || _) eqn:E; [by eexists|]. bprop. destruct x; [|done].
    destruct (Hx eq_refl) as [Hl Hd]. destruct (digits_num2 p 0 _ 0 Hd) as (h & -> & Hh); [lia..|].
    destruct (digits_num2 p 0 _ 2 Hd) as (mi & -> & Hmi); [lia..|]. cbn [mbind option_bind].
    destruct (6 <=? length p)%nat eqn:E6; cbn [andb]; bprop.
    + destruct (digits_num2 p 0 _ 4 Hd) as (s & -> & Hs); [lia..|]. cbn [mbind option_bind]. destruct (9 <? _)%nat; [by eexists|].
      destruct (digits_frac p 0 _ 6 (length p - 6) Hd) as (f & -> & Hf); [lia..|]. cbn [mbind option_bind]. eexists. split; [done|].
      intros s' f'. destruct (_ || _) eqn:E2; [done|]. intros [= <- <-]. bprop. unfold INT64_MAX. lia.
    + cbn [mbind option_bind]. eexists. split; [done|]. intros s' f'. destruct (_ || _) eqn:E2; [done|]. intros [= <- <-]. bprop. unfold INT64_MAX. lia.
Qed.

Lemma ovf_range z : ovf z = false -> INT64_MIN <= z <= INT64_MAX.
Proof. apply ovf_true. Qed.

Lemma clock_ns_total p : exists r, q_tok_clock_ns p = Some r /\ forall v, r = Some v -> 0 <= v <= INT64_MAX.
Proof.
  unfold q_tok_clock_ns. destruct (clock_ok p) as (r & -> & Hr). cbn [mbind option_bind]. eexists. split; [done|]. intros v. destruct r as [ [s f]|]; [|done].
  destruct (_ || _) eqn:E; [done|]. intros [= <-]. bprop. destruct (Hr s f eq_refl) as [Hs Hf]. match goal with H : ovf (_ + _) = false |- _ => apply ovf_true in H end. lia.
Qed.

Lemma compose_range days ns v : ts_compose_checked days ns = Some v -> - INT64_MAX <= v <= INT64_MAX.
Proof. unfold ts_compose_checked. destruct (_ || _) eqn:E; [done|]. intros [= <-]. bprop. lia. Qed.

Lemma timespan_ok p : exists r, q_tok_timespan_ns p = Some r /\ forall v, r = Some v -> - INT64_MAX <= v <= INT64_MAX.
Proof.
  unfold q_tok_timespan_ns. cbv zeta. set (i := length (prefix_while tok_digit p)).
  assert (Hbare : forall q, exists r, q_tok_clock_ns q = Some r /\ forall v, r = Some v -> - INT64_MAX <= v <= INT64_MAX).
  { intros q. destruct (clock_ns_total q) as (r & -> & Hr). exists r. split; [done|]. intros v E. specialize (Hr v E). unfold INT64_MAX in *. lia. }
  assert (Hd : exists d, (if (0 <? i)%nat && (i <? length p)%nat then char_is p i 68 else Some false) = Some d).
  { destruct (_ && _) eqn:E; [|by eexists]. bprop. destruct (char_ok p i 68 ltac:(lia)) as (d & -> & _). by eexists. }
  destruct Hd as [d ->]. cbn [mbind option_bind]. destruct d; [|done]. destruct (checked_days _ _) as [days|]; [|by eexists].
  destruct (clock_ns_total (drop (i + 1) p)) as (r & -> & _). cbn [mbind option_bind]. eexists. split; [done|]. intros v. destruct r; [|done]. apply compose_range.
Qed.

(** ** Timestamps *)
Lemma dot_of_spec p : (dot_of p <= length p)%nat.
Proof. apply prefix_while_length. Qed.

Lemma unix_ok p : digits p 0 (dot_of p) -> (9 <= dot_of p <= 11)%nat ->
  (dot_of p = length p \/ (dot_of p + 1 < length p)%nat /\ (length p <= dot_of p + 10)%nat /\ digits p (dot_of p + 1) (length p - dot_of p - 1)) ->
  exists r, unix_seconds p (dot_of p) = Some r /\ forall v, r = Some v -> - INT64_MAX <= v <= INT64_MAX.
Proof.
  set (dot := dot_of p). intros Hd Hdot Hfrac. unfold unix_seconds.
  assert (Hs : exists s, fold_opt (fun secs k => c ← p !! k; chk (secs * 10 + (c - 48))) 0 (seq 0 dot) = Some s /\ 0 <= s < 10 ^ 11).
  { enough (Hg : forall (m j : nat) (f : Z), (j + m = dot)%nat -> 0 <= f < 10 ^ j -> exists f',
      fold_opt (fun secs k => c ← p !! k; chk (secs * 10 + (c - 48))) f (seq j m) = Some f' /\ 0 <= f' < 10 ^ dot).
    { destruct (Hg dot 0%nat 0 ltac:(lia) ltac:(lia)) as (f & -> & Hf). exists f. split; [done|].
      assert (10 ^ dot <= 10 ^ 11) by (apply Z.pow_le_mono_r; lia). lia. }
    induction m as [|m IH]; intros j f Hj Hf; cbn [seq fold_opt]; [exists f; by replace dot with j by lia|].
    destruct (Hd j ltac:(lia)) as (c & Hcj & Hc). rewrite Nat.add_0_l in Hcj. rewrite Hcj. cbn [mbind option_bind].
    assert (Hp : 10 ^ Z.of_nat (S j) = 10 * 10 ^ Z.of_nat j) by (rewrite Nat2Z.inj_succ, Z.pow_succ_r; lia).
    assert (10 ^ S j <= 10 ^ 11) by (apply Z.pow_le_mono_r; lia).
    rewrite chk_ok by (unfold INT64_MIN, INT64_MAX; lia). cbn [mbind option_bind]. apply IH; lia. }
  destruct Hs as (s & -> & Hs). cbn [mbind option_bind]. rewrite chk_ok by (unfold INT64_MIN, INT64_MAX; lia). cbn [mbind option_bind]. cbv zeta.
  destruct (ovf _) eqn:Eo; [by eexists|].
  assert (Hf : exists f, tok_frac_ns p (dot + 1) (if (dot =? length p)%nat then 0%nat else (length p - dot - 1)%nat) = Some f /\ 0 <= f < 10 ^ 9).
  { apply frac_ok. destruct (dot =? length p)%nat eqn:E; bprop; [intros k Hk; lia|]. destruct Hfrac as [|(_ & _ & Hfr)]; [done|exact Hfr]. }
  destruct Hf as (f & -> & Hf). cbn [mbind option_bind]. eexists. split; [done|]. intros v. destruct (ovf (_ + _)) eqn:E2; [done|]. intros [= <-].
  apply ovf_true in E2. unfold INT64_MIN, INT64_MAX in *. lia.
Qed.

Lemma tod_ok p : exists r, tok_tod_ns p = Some r.
Proof.
  unfold tok_tod_ns. destruct (scan_ok p) as (e & c & -> & He & (Hf & _ & _ & Hs & _)). cbn [mbind option_bind]. destruct (_ || _ || _ || _ || _) eqn:E; [by eexists|].
  bprop. destruct (clock_ns_ok c Hf (Hs ltac:(lia))) as (ns & -> & _). by eexists.
Qed.

Lemma ts_ok ord p : exists r, q_tok_ts ord p = Some r /\ forall v, r = Some v -> - INT64_MAX <= v <= INT64_MAX.
Proof.
  unfold q_tok_ts. cbv zeta. pose proof (dot_of_spec p) as Hdl.
  assert (Hunix : bool_ok (if (9 <=? dot_of p)%nat && (dot_of p <=? 11)%nat then
      tok_all_digits p 0 (dot_of p) &&& (if (dot_of p =? length p)%nat then Some true
       else if (dot_of p + 1 <? length p)%nat && (length p <=? dot_of p + 10)%nat then tok_all_digits p (dot_of p + 1) (length p - dot_of p - 1) else Some false)
    else Some false)
    ((9 <=? dot_of p)%nat && (dot_of p <=? 11)%nat = true /\ (digits p 0 (dot_of p) /\
      (dot_of p = length p \/ (dot_of p + 1 < length p)%nat /\ (length p <= dot_of p + 10)%nat /\ digits p (dot_of p + 1) (length p - dot_of p - 1))))).
  { apply bool_ok_if. intros Hb. apply and_then_ok; [apply all_digits_ok; lia|]. intros _. destruct (_ =? _)%nat eqn:E; bprop; [eexists; split; [done|by left]|].
    destruct (_ && _) eqn:E2; [|by exists false]. bprop. destruct (all_digits_ok p (dot_of p + 1) (length p - dot_of p - 1) ltac:(lia)) as (x & -> & Hx).
    exists x. split; [done|]. intros Ht. right. auto. }
  destruct Hunix as (unix & -> & Hu). cbn [mbind option_bind]. destruct unix.
  { destruct (Hu eq_refl) as (Hb & Hd & Hf). bprop. by apply unix_ok. }
  assert (Hsep : bool_ok (if (10 <=? length p)%nat then c ← p !! 4%nat; Some ((c =? 46) || (c =? 45) || (c =? 47)) else Some false) ((10 <=? length p)%nat = true /\ True)).
  { apply bool_ok_if. intros Hl. bprop. destruct (lookup_lt_is_Some_2 p 4 ltac:(lia)) as [c ->]. by eexists. }
  destruct Hsep as (sep & -> & Hsep). cbn [mbind option_bind].
  assert (Hpack : bool_ok (if sep then Some false else if (8 <=? length p)%nat then tok_all_digits p 0 8 else Some false) ((8 <=? length p)%nat = true /\ digits p 0 8)).
  { destruct sep; [by exists false|]. apply bool_ok_if. intros Hl. bprop. apply all_digits_ok. lia. }
  destruct Hpack as (packed & -> & Hpack). cbn [mbind option_bind].
  set (dl := if sep then 10%nat else if packed then 8%nat else 0%nat). destruct (dl =? 0)%nat; [by eexists|].
  destruct (date_ok ord (take dl p)) as [r ->]. cbn [mbind option_bind]. destruct r as [ [ [y mo] d]|]; [|by eexists].
  destruct (negb _); [by eexists|].
  assert (Ht : exists tod, (if (dl <? length p)%nat then
      c ← p !! dl; if negb ((c =? 68) || (c =? 84) || (c =? 45) || (c =? 32)) then Some None else tok_tod_ns (drop (dl + 1) p) else Some (Some 0)) = Some tod).
  { destruct (_ <? _)%nat eqn:E; [|by eexists]. bprop. destruct (lookup_lt_is_Some_2 p dl ltac:(lia)) as [c ->]. cbn [mbind option_bind].
    destruct (negb _); [by eexists|apply tod_ok]. }
  destruct Ht as [tod ->]. cbn [mbind option_bind]. eexists. split; [done|]. intros v. destruct tod; [apply compose_range|done].
Qed.

Lemma bare_d_ok ord p : exists r, tok_ts_bare_d ord p = Some r /\ forall v, r = Some v -> - INT64_MAX <= v <= INT64_MAX.
Proof.
  unfold tok_ts_bare_d. cbv zeta. set (n := (length p - 1)%nat).
  assert (H : exists x, (if (0 <? length p)%nat then c ← p !! n; if c =? 68 then r ← q_tok_date ord (take n p); Some (bool_decide (is_Some r)) else Some false else Some false) = Some x).
  { destruct (_ <? _)%nat eqn:E; [|by eexists]. bprop. destruct (lookup_lt_is_Some_2 p n ltac:(lia)) as [c ->]. cbn [mbind option_bind].
    destruct (c =? 68); [|by eexists]. destruct (date_ok ord (take n p)) as [r ->]. by eexists. }
  destruct H as [x ->]. cbn [mbind option_bind]. apply ts_ok.
Qed.

(** ** Guids *)
Lemma hexval_range c : -1 <= tok_hexval c <= 15.
Proof. unfold tok_hexval, tok_digit. repeat bif; bprop; try lia; destruct_and?; bprop; lia. Qed.

Lemma push16_ok l x : (length l < 16)%nat -> push16 l x = Some (l ++ [x]).
Proof. intros H. unfold push16. by rewrite (proj2 (Nat.ltb_lt _ _)). Qed.

(** The places of the loop, with the bytes made before each. *)
Definition uuid_places : list (nat * nat) :=
  [(0, 0); (2, 1); (4, 2); (6, 3); (8, 4); (9, 4); (11, 5); (13, 6); (14, 6); (16, 7); (18, 8); (19, 8); (21, 9); (23, 10);
   (24, 10); (26, 11); (28, 12); (30, 13); (32, 14); (34, 15); (36, 16)]%nat.

Definition uuid_dash (i : nat) : bool := (i =? 8)%nat || (i =? 13)%nat || (i =? 18)%nat || (i =? 23)%nat.

Lemma uuid_step i n : (i, n) ∈ uuid_places ->
  (i = 36 /\ n = 16)%nat \/
  (S i <= 35)%nat /\ (if uuid_dash i then (S i, n) ∈ uuid_places else (n < 16)%nat /\ (i + 2, S n)%nat ∈ uuid_places).
Proof.
  intros Hin. unfold uuid_places in Hin. repeat (apply elem_of_cons in Hin as [ [= -> ->]|Hin]; [first [by left|right; cbn [uuid_dash Nat.eqb orb]; split; [lia|]; cbn; first [split; [lia|]|idtac]; unfold uuid_places; set_solver]|]).
  by apply elem_of_nil in Hin.
Qed.

Lemma uuid_loop_ok fuel p i out : length p = 36%nat -> (i, length out) ∈ uuid_places -> (36 - i < fuel)%nat -> bytes_ok out ->
  exists r, uuid_loop fuel p i out = Some r /\ forall l, r = Some l -> length l = 16%nat /\ bytes_ok l.
Proof.
  intros Hp. revert i out. induction fuel as [|fuel IH]; intros i out Hin Hf Hb; [lia|]. cbn [uuid_loop].
  destruct (uuid_step i (length out) Hin) as [ [-> Hn]|[Hi Hstep] ].
  - eexists. split; [done|]. by intros l [= <-].
  - rewrite (proj2 (Nat.ltb_lt i 36)) by lia. cbn [negb]. fold (uuid_dash i). destruct (lookup_lt_is_Some_2 p i ltac:(lia)) as [a Ha].
    destruct (lookup_lt_is_Some_2 p (S i) ltac:(lia)) as [c Hc]. destruct (uuid_dash i); rewrite Ha; cbn [mbind option_bind].
    + destruct (negb _); [by eexists|]. apply IH; [done|lia|done].
    + destruct Hstep as [Hn Hin']. rewrite Hc. cbn [mbind option_bind]. destruct (_ || _); [by eexists|]. rewrite push16_ok by done. cbn [mbind option_bind].
      apply IH; [by rewrite length_app, Nat.add_1_r|lia|]. apply Forall_app. split; [done|]. constructor; [apply u8_range|constructor].
Qed.

Definition guid_ok (l : list Z) : Prop := length l = 16%nat /\ bytes_ok l.

Lemma uuid_ok p : exists r, q_tok_uuid p = Some r /\ forall l, r = Some l -> guid_ok l.
Proof.
  unfold q_tok_uuid. destruct (_ =? _)%nat eqn:E; cbn [negb]; [|by eexists]. bprop.
  destruct (uuid_loop_ok 40 p 0 [] E ltac:(left) ltac:(lia) ltac:(constructor)) as (r & -> & Hr). cbn [mbind option_bind].
  eexists. split; [done|]. intros l. destruct r as [out|]; [|done]. destruct (Hr out eq_refl) as [Hl Hb]. rewrite Hl. by intros [= <-].
Qed.

(** ** Addresses *)
Lemma ipv4_octet_ok l i v dig j w : ipv4_octet l i v dig = Some (j, w) -> 0 <= v <= 255 -> (i <= j <= i + length l)%nat /\ 0 <= w <= 255.
Proof.
  revert i v dig. induction l as [|c l IH]; intros i v dig H Hv; cbn [ipv4_octet] in H; [injection H as <- <-; simpl; lia|].
  destruct (tok_digit c) eqn:Ed; [|injection H as <- <-; simpl; lia]. cbv zeta in H. destruct (_ || _) eqn:E; [done|]. apply tok_digit_ok in Ed. bprop.
  apply IH in H; [simpl; lia|lia].
Qed.

Lemma octets_ok n p i oct : (i <= length p)%nat -> bytes_ok oct ->
  exists r, ipv4_octets n p i oct = Some r /\ forall j l, r = Some (j, l) -> length l = (length oct + n)%nat /\ bytes_ok l.
Proof.
  revert i oct. induction n as [|n IH]; intros i oct Hi Hb; cbn [ipv4_octets].
  - eexists. split; [done|]. intros j l [= <- <-]. split; [lia|done].
  - assert (Hfirst : exists x, (if (i <? length p)%nat then c ← p !! i; Some (tok_digit c) else Some false) = Some x).
    { destruct (_ <? _)%nat eqn:E; [|by eexists]. bprop. destruct (lookup_lt_is_Some_2 p i E) as [c ->]. by eexists. }
    destruct Hfirst as [x ->]. cbn [mbind option_bind]. destruct x; cbn [negb]; [|by eexists].
    destruct (ipv4_octet (drop i p) i 0 0) as [ [j v]|] eqn:Eo; [|by eexists]. apply ipv4_octet_ok in Eo as [Hj Hv]; [|lia]. rewrite length_drop in Hj.
    assert (Hb' : bytes_ok (oct ++ [v])) by (apply Forall_app; split; [done|]; constructor; [unfold byte_ok; lia|constructor]).
    assert (Hnext : forall k, (k <= length p)%nat -> exists r, ipv4_octets n p k (oct ++ [v]) = Some r /\ forall j l, r = Some (j, l) -> length l = (length oct + S n)%nat /\ bytes_ok l).
    { intros k Hk. destruct (IH k (oct ++ [v]) Hk Hb') as (r & -> & Hr). exists r. split; [done|]. intros j' l E. destruct (Hr _ _ E) as [Hl Hbl].
      rewrite length_app in Hl. simpl in Hl. split; [lia|done]. }
    destruct (0 <? n)%nat; [|apply Hnext; lia].
    assert (Hdot : exists y, (if (j <? length p)%nat then char_is p j 46 else Some false) = Some y /\ (y = true -> (j < length p)%nat)).
    { destruct (_ <? _)%nat eqn:E; [|by exists false]. bprop. destruct (char_ok p j 46 E) as (y & -> & _). by exists y. }
    destruct Hdot as (y & -> & Hy). cbn [mbind option_bind]. destruct y; [|by eexists]. apply Hnext. specialize (Hy eq_refl). lia.
Qed.

Lemma ipv4_octets_ok p : exists r, tok_ipv4_octets p = Some r /\ forall l, r = Some l -> length l = 4%nat /\ bytes_ok l.
Proof.
  unfold tok_ipv4_octets. destruct (octets_ok 4 p 0 [] ltac:(lia) ltac:(constructor)) as (r & -> & Hr). cbn [mbind option_bind]. eexists. split; [done|].
  intros l. destruct r as [ [i oct]|]; [|done]. destruct (_ =? _)%nat; [|done]. intros [= <-]. by apply (Hr i oct).
Qed.

Lemma ipv4_ok p : exists r, q_tok_ipv4 p = Some r.
Proof.
  unfold q_tok_ipv4. destruct (ipv4_octets_ok p) as (r & -> & Hr). cbn [mbind option_bind]. destruct r as [oct|]; [|by eexists].
  destruct (Hr oct eq_refl) as [Hl _]. destruct oct as [|a [|b [|c [|d [|] ] ] ] ]; try done. by eexists.
Qed.

Lemma hex_end_spec l i : (i <= hex_end l i <= i + length l)%nat.
Proof. revert i. induction l as [|c l IH]; intros i; cbn [hex_end]; [simpl; lia|]. destruct (0 <=? _); [|simpl; lia]. specialize (IH (S i)). simpl. lia. Qed.

Definition v6_ok (st : ipv6) : Prop := bytes_ok (v6_head st) /\ bytes_ok (v6_tail st).

Lemma v6_push_ok st x : v6_ok st -> byte_ok x -> (length (v6_cur st) < 16)%nat ->
  exists st', v6_push st x = Some st' /\ v6_ok st' /\ length (v6_cur st') = S (length (v6_cur st)).
Proof.
  intros [Hh Ht] Hx Hl. unfold v6_push. rewrite push16_ok by done. cbn [mbind option_bind]. eexists. split; [done|]. unfold v6_cur in *.
  assert (Hc : forall l, bytes_ok l -> bytes_ok (l ++ [x])) by (intros l H; apply Forall_app; split; [done|constructor; [done|constructor]]).
  destruct (v6_gap st); (split; [split; simpl; auto|rewrite ?length_app; simpl; rewrite length_app; simpl; lia]).
Qed.

Lemma v6_pushes_ok l st : v6_ok st -> bytes_ok l -> (length (v6_cur st) + length l <= 16)%nat -> exists st', fold_opt v6_push st l = Some st' /\ v6_ok st'.
Proof.
  revert st. induction l as [|x l IH]; intros st Hst Hl Hn; cbn [fold_opt]; [by exists st|]. apply Forall_cons in Hl as [Hx Hl]. cbn [length] in Hn.
  destruct (v6_push_ok st x Hst Hx ltac:(lia)) as (st' & -> & Hst' & Hc). cbn [mbind option_bind]. apply IH; [done|done|lia].
Qed.

Lemma v6_group_ok p start i : (i <= length p)%nat -> exists g, v6_group p start i = Some g.
Proof.
  intros Hi. unfold v6_group. generalize 0. assert (Hall : Forall (fun k => (k < length p)%nat) (seq start (i - start))).
  { apply Forall_forall. intros k [Hk1 Hk]%elem_of_seq. lia. }
  induction (seq start (i - start)) as [|k l IH]; intros g; cbn [fold_opt]; [by exists g|]. apply Forall_cons in Hall as [Hk Hall].
  destruct (lookup_lt_is_Some_2 p k Hk) as [c ->]. cbn [mbind option_bind]. by apply IH.
Qed.

Lemma ipv6_loop_ok fuel p i st : (i <= S (length p))%nat -> (length p - i < fuel)%nat -> v6_ok st ->
  exists r, ipv6_loop fuel p i st = Some r /\ forall st', r = Some st' -> v6_ok st'.
Proof.
  revert i st. induction fuel as [|fuel IH]; intros i st Hi Hf Hst; [lia|]. cbn [ipv6_loop].
  destruct (i <? length p)%nat eqn:El; cbn [negb]; [|eexists; split; [done|by intros st' [= <-] ] ]. bprop. cbv zeta.
  pose proof (hex_end_spec (drop i p) i) as Hh. rewrite length_drop in Hh. set (j := hex_end (drop i p) i) in *.
  assert (Hchar : forall k c, exists x, (if (k <? length p)%nat then char_is p k c else Some false) = Some x /\ (x = true -> (k < length p)%nat)).
  { intros k c. destruct (_ <? _)%nat eqn:E; [|by exists false]. bprop. destruct (char_ok p k c E) as (x & -> & _). by exists x. }
  destruct (Hchar j 46) as (quad & -> & _). cbn [mbind option_bind]. destruct quad.
  - destruct (ipv4_octets_ok (drop i p)) as (r & -> & Hr). cbn [mbind option_bind]. destruct r as [o4|]; [|by eexists]. destruct (Hr o4 eq_refl) as [Hl Hb].
    destruct (_ <? _)%nat eqn:E; [by eexists|]. bprop. destruct (v6_pushes_ok o4 st Hst Hb ltac:(lia)) as (st' & -> & Hst'). cbn [mbind option_bind].
    eexists. split; [done|]. by intros st'' [= <-].
  - destruct (_ || _ || _) eqn:E; [by eexists|]. bprop. destruct (v6_group_ok p i j ltac:(lia)) as [g ->]. cbn [mbind option_bind].
    destruct (v6_push_ok st (u8 (Z.shiftr g 8)) Hst ltac:(apply u8_range) ltac:(lia)) as (st1 & -> & Hst1 & Hc1). cbn [mbind option_bind].
    destruct (v6_push_ok st1 (u8 (Z.land g 255)) Hst1 ltac:(apply u8_range) ltac:(lia)) as (st2 & -> & Hst2 & _). cbn [mbind option_bind].
    destruct (j =? length p)%nat eqn:Ej; bprop; [eexists; split; [done|by intros st' [= <-] ]|].
    destruct (char_ok p j 58 ltac:(lia)) as (colon & -> & _). cbn [mbind option_bind]. destruct colon; cbn [negb]; [|by eexists].
    destruct (Hchar (S j) 58) as (gap & -> & Hgap). cbn [mbind option_bind]. destruct gap.
    + specialize (Hgap eq_refl). destruct (v6_gap st2); [by eexists|]. apply IH; [lia|lia|]. destruct Hst2. by split.
    + destruct (S j =? length p)%nat eqn:E2; [by eexists|]. bprop. apply IH; [lia|lia|done].
Qed.

Lemma zeros_ok n : bytes_ok (replicate n 0).
Proof. apply Forall_replicate. unfold byte_ok. lia. Qed.

Lemma ipv6_ok p : exists r, tok_ipv6 p = Some r /\ forall l, r = Some l -> guid_ok l.
Proof.
  unfold tok_ipv6. destruct (_ =? _)%nat eqn:E0; [by eexists|]. bprop.
  assert (Hgap : bool_ok (if (2 <=? length p)%nat then char_is p 0 58 &&& char_is p 1 58 else Some false) ((2 <=? length p)%nat = true /\ (p !! 0%nat = Some 58 /\ p !! 1%nat = Some 58))).
  { apply bool_ok_if. intros Hl. bprop. apply and_then_ok; [apply char_ok; lia|intros _; apply char_ok; lia]. }
  destruct Hgap as (gap & -> & Hgap). cbn [mbind option_bind].
  assert (Hlone : exists x, (if gap then Some false else char_is p 0 58) = Some x) by (destruct gap; [by eexists|]; destruct (char_ok p 0 58 ltac:(lia)) as (x & -> & _); by eexists).
  destruct Hlone as [lone ->]. cbn [mbind option_bind]. destruct lone; [by eexists|].
  destruct (ipv6_loop_ok (S (length p)) p (if gap then 2 else 0) (Ipv6 [] [] gap)) as (r & -> & Hr); [| |by split; constructor|].
  { destruct gap; [|lia]. destruct (Hgap eq_refl) as [Hl _]. bprop. lia. }
  { destruct gap; lia. }
  cbn [mbind option_bind]. cbv zeta. eexists. split; [done|]. intros l. destruct r as [st|]; [|done]. destruct (Hr st eq_refl) as [Hh Ht]. destruct (v6_gap st).
  - destruct (16 <=? _)%nat eqn:E; [done|]. bprop. intros [= <-]. split; [rewrite !length_app, length_replicate; lia|]. apply Forall_app. split; [done|].
    apply Forall_app. split; [apply zeros_ok|done].
  - destruct (_ =? 16)%nat eqn:E; [|done]. bprop. by intros [= <-].
Qed.

Lemma ip_guid_ok p : exists r, tok_ip_guid p = Some r /\ forall l, r = Some l -> guid_ok l.
Proof.
  unfold tok_ip_guid. destruct (ipv4_octets_ok p) as (r & -> & Hr). cbn [mbind option_bind]. destruct r as [o4|]; [|apply ipv6_ok].
  destruct (Hr o4 eq_refl) as [Hl Hb]. rewrite Hl. eexists. split; [done|]. intros l [= <-]. split; [cbn; by rewrite Hl|].
  cbn. do 12 (apply List.Forall_cons; [unfold byte_ok; lia|]). exact Hb.
Qed.

(** ** The entry *)
(** The types whose null is a sentinel among the integers, and characters,
    whose null is the blank. *)
Definition null_free (t : ray_type_e) : bool :=
  match t with
  | RAY_CHARV | RAY_I16 | RAY_I32 | RAY_I64 | RAY_MONTH | RAY_DATE | RAY_TIME | RAY_MINUTE | RAY_SECOND | RAY_TIMESTAMP | RAY_TIMESPAN => true
  | _ => false
  end.

(** The null of the type, or a value of the type that is not its null. *)
Definition res_ok (t : ray_type_e) (v : lit_val) : Prop :=
  v = ray_typed_null t \/
  exists pl, v = VAtom t pl false /\ elem_ok t pl /\ (null_free t = true -> pl <> null_payload t).

Lemma res_int t z : shape_ok t (PInt 0) -> width_ok t z -> (null_free t = true -> PInt z <> null_payload t) -> res_ok t (int_atom t z).
Proof. intros Hs Hw Hn. right. exists (PInt z). split; [done|]. split; [by apply elem_int|done]. Qed.

Lemma res_or_null t r : shape_ok t (PInt 0) -> (forall v, r = Some v -> width_ok t v /\ (null_free t = true -> PInt v <> null_payload t)) ->
  res_ok t (or_null t (int_atom t) r).
Proof. intros Hs H. destruct r as [v|]; [|by left]. destruct (H v eq_refl). by apply res_int. Qed.

(** Integers of 32 and 64 bits other than the sentinel. *)
Lemma res_int32 t z : t ∈ [RAY_I32; RAY_MONTH; RAY_DATE; RAY_TIME; RAY_MINUTE; RAY_SECOND] -> - INT32_MAX <= z <= INT32_MAX -> res_ok t (int_atom t z).
Proof.
  unfold INT32_MAX. intros Ht Hz. set_unfold in Ht. apply res_int; [by destruct_or?; subst|destruct_or?; subst; cbn; lia|].
  intros _ E. destruct_or?; subst; cbn in E; injection E; lia.
Qed.

Lemma res_int64 t z : t ∈ [RAY_I64; RAY_TIMESTAMP; RAY_TIMESPAN] -> - INT64_MAX <= z <= INT64_MAX -> res_ok t (int_atom t z).
Proof.
  unfold INT64_MAX. intros Ht Hz. set_unfold in Ht. apply res_int; [by destruct_or?; subst|destruct_or?; subst; cbn; lia|].
  intros _ E. destruct_or?; subst; cbn in E; unfold INT64_MIN in E; injection E; lia.
Qed.

Lemma skip_blanks_ok p : bytes_ok p -> bytes_ok (skip_blanks p).
Proof. induction p as [|c p IH]; intros Hp; cbn [skip_blanks]; [done|]. destruct (c =? 32); [|done]. apply IH. by apply Forall_cons in Hp as [_ ?]. Qed.

Lemma trim_ok p : bytes_ok p -> bytes_ok (trim p).
Proof. intros Hp. unfold trim. apply Forall_reverse, skip_blanks_ok, Forall_reverse, skip_blanks_ok, Hp. Qed.

(** What is left of a string does not begin with a blank. *)
Lemma skip_blanks_suffix p : exists k, p = k ++ skip_blanks p /\ head (skip_blanks p) <> Some 32.
Proof.
  induction p as [|c p (k & Hk & Hh)]; [by exists []|]. cbn [skip_blanks]. destruct (c =? 32) eqn:E; bprop.
  - exists (c :: k). split; [by rewrite Hk at 1|done].
  - exists []. split; [done|]. cbn. by intros [= ->].
Qed.

Lemma trim_head p c : trim p !! 0%nat = Some c -> c <> 32.
Proof.
  unfold trim. destruct (skip_blanks_suffix p) as (_ & _ & Hh). set (q := skip_blanks p) in *.
  destruct (skip_blanks_suffix (reverse q)) as (k & Hk & _). set (l := skip_blanks (reverse q)) in *.
  apply (f_equal reverse) in Hk. rewrite reverse_involutive, reverse_app in Hk.
  intros Hc. rewrite Hk in Hh. destruct (reverse l); [done|]. cbn in *. congruence.
Qed.

Lemma byte_loop_ok p v : 0 <= v < 256 -> forall w, byte_loop p v = Some w -> 0 <= w < 256.
Proof.
  revert v. induction p as [|c p IH]; intros v Hv w; cbn [byte_loop]; [by intros [= <-]|].
  destruct (tok_hexval c <? 0) eqn:E; [done|]. bprop. cbv zeta. destruct (255 <? _) eqn:E2; [done|]. bprop. apply IH. split; [|lia].
  apply Z.lor_nonneg. split; [apply Z.shiftl_nonneg; lia|lia].
Qed.

Lemma int_ok t p : bytes_ok p -> t ∈ [RAY_I64; RAY_I32; RAY_I16] ->
  exists v, q_tok_int t p = Some v /\
    (res_ok t v \/ t = RAY_I32 /\ exists ip, q_tok_ipv4 p = Some (Some ip) /\ v = int_atom RAY_I32 (i32 ip)).
Proof.
  intros Hp Ht. set_unfold in Ht. unfold q_tok_int.
  assert (Hip : exists ip, (if bool_decide (t = RAY_I32) then q_tok_ipv4 p else Some None) = Some ip /\ (forall x, ip = Some x -> t = RAY_I32 /\ q_tok_ipv4 p = Some (Some x))).
  { destruct (bool_decide _) eqn:E; [|by eexists]. apply bool_decide_eq_true in E. destruct (ipv4_ok p) as [r Hr]. exists r. split; [done|]. by intros x ->. }
  destruct Hip as (ip & -> & Hip). cbn [mbind option_bind]. destruct ip as [x|].
  { destruct (Hip x eq_refl) as [-> Hx]. eexists. split; [done|]. right. eauto. }
  eexists. split; [done|]. left. destruct (length p =? 0)%nat; [by left|]. destruct (ray_parse_i64 p) as [ [u v]|] eqn:E; [|by left].
  destruct (i64_used _ _ _ Hp E) as [_ Hv]. cbv zeta. destruct (negb _ || _) eqn:Eo; [by left|]. bprop. destruct_or?; subst; bprop.
  - apply res_int64; [set_solver|]. unfold INT64_MIN, INT64_MAX in *. lia.
  - apply res_int32; [set_solver|]. lia.
  - apply res_int; [done|cbn; lia|]. intros _ E'. cbn in E'. injection E'. lia.
Qed.

Lemma secs_div s : 0 <= s <= INT64_MAX -> 0 <= Z.quot s 60.
Proof. intros Hs. Z.to_euclidean_division_equations. lia. Qed.

Lemma minute_ok p : exists v, q_tok_minute p = Some v /\ res_ok RAY_MINUTE v.
Proof.
  unfold q_tok_minute.
  assert (Hb : exists bare, (if (0 <? length p)%nat && (length p <=? 2)%nat then
      '(e, c) ← tok_clock_scan p (length p) 0; Some (if (e =? length p)%nat && (k_hd c =? length p)%nat then Some (Z.quot (k_secs c) 60) else None)
    else Some None) = Some bare /\ forall v, bare = Some v -> 0 <= v <= INT32_MAX).
  { destruct (_ && _) eqn:E; [|by eexists]. bprop. destruct (scan_ok p) as (e & c & -> & He & (_ & _ & _ & Hs & _)). cbn [mbind option_bind]. eexists. split; [done|].
    intros v. destruct (_ && _) eqn:E2; [|done]. bprop. intros [= <-]. specialize (Hs ltac:(lia)). unfold INT32_MAX. Z.to_euclidean_division_equations. lia. }
  destruct Hb as (bare & -> & Hb). cbn [mbind option_bind]. destruct bare as [v|].
  { eexists. split; [done|]. specialize (Hb v eq_refl). apply res_int32; [set_solver|lia]. }
  destruct (clock_ok p) as (r & -> & Hr). cbn [mbind option_bind]. eexists. split; [done|]. destruct r as [ [s f]|]; [|by left].
  destruct (Hr s f eq_refl) as [Hs _]. pose proof (secs_div s Hs). destruct (_ <? _) eqn:E; [by left|]. bprop. apply res_int32; [set_solver|lia].
Qed.

(** A scanner of integers, by its range. *)
Ltac answers_int scan range :=
  let r := fresh "r" in let Hr := fresh "Hr" in let v := fresh "v" in
  destruct scan as (r & -> & Hr); cbn [mbind option_bind]; eexists; split; [reflexivity|]; right; left; destruct r as [v|];
  [specialize (Hr v eq_refl); apply range; [set_solver|unfold INT32_MAX in *; lia]|by left].

(** What [$] answers for the type. *)
Definition tok_res_ok (t : ray_type_e) (p : list Z) (r : option lit_val) : Prop :=
  match r with
  | None => t ∈ [RAY_LIST; RAY_STR; RAY_ENUM]
  | Some v =>
      (t = RAY_SYM /\ v = VSym (trim p)) \/ res_ok t v \/
      (t = RAY_I32 /\ exists ip, q_tok_ipv4 (trim p) = Some (Some ip) /\ v = int_atom RAY_I32 (i32 ip))
  end.

(** C11. Reading a whole string as a value of a type, whatever the type and the
    bytes of the string are, ends, reads nothing outside the string and fills
    no array past its end.  It answers nothing for the types it does not serve
    (lists, pooled strings and enumerations), the trimmed text for a symbol,
    and otherwise the type's null, marked so, or an unmarked atom whose payload
    fits the type.  For characters, integers and the temporal types kept in
    integers (all but datetimes) the payload of such an atom is not the
    sentinel of the null, with one exception: a dotted address read as an int
    is the 32 bits of the address, and of 128.0.0.0 they are the sentinel.
    For guids, floats and datetimes nothing is said of the payload but that
    it is one of the type; booleans and bytes have no null. *)
Theorem q_tok_safe date_order strtod pow10 buf_ok (t : ray_type_e) (p : list Z) :
  bytes_ok p -> exists r, q_tok date_order strtod pow10 buf_ok t p = Some r /\ tok_res_ok t p r.
Proof.
  intros Hp%trim_ok. unfold q_tok, tok_res_ok. set (q := trim p) in *. cbv zeta. destruct t; try (eexists; split; [done|set_solver]). (* LIST, SYM, ENUM, STR *)
  - (* BOOL *)
    assert (H : exists b, (if (length q =? 1)%nat then c ← q !! 0%nat; Some (bool_decide (c ∈ [49; 84; 116; 88; 120; 89; 121; 0])) else Some false) = Some b).
    { destruct (_ =? _)%nat eqn:E; [|by eexists]. bprop. destruct (lookup_lt_is_Some_2 q 0 ltac:(lia)) as [c ->]. by eexists. }
    destruct H as [b ->]. cbn [mbind option_bind]. eexists. split; [done|]. right. left. apply res_int; [done| |done]. by destruct b.
  - (* GUID *)
    destruct (uuid_ok q) as (r & -> & Hr). cbn [mbind option_bind].
    assert (H : exists r', match r with Some b => Some (Some b) | None => tok_ip_guid q end = Some r' /\ forall l, r' = Some l -> guid_ok l).
    { destruct r as [l|]; [|apply ip_guid_ok]. eexists. split; [done|]. intros l' [= <-]. by apply Hr. }
    destruct H as (r' & -> & Hr'). cbn [mbind option_bind]. eexists. split; [done|]. right. left. destruct r' as [l|]; [|by left].
    right. exists (PGuid l). split; [done|]. split; [|done]. split; [by apply Hr'|done].
  - (* U8 *)
    eexists. split; [done|]. right. left. apply res_int; [done| |done]. destruct (_ =? _)%nat; [cbn; lia|].
    destruct (byte_loop q 0) as [w|] eqn:E; [|cbn; lia]. apply (byte_loop_ok q 0 ltac:(lia) w E).
  - destruct (int_ok RAY_I16 q Hp ltac:(set_solver)) as (v & -> & Hv). cbn [mbind option_bind]. eexists. split; [done|]. by right.
  - destruct (int_ok RAY_I32 q Hp ltac:(set_solver)) as (v & -> & Hv). cbn [mbind option_bind]. eexists. split; [done|]. by right.
  - destruct (int_ok RAY_I64 q Hp ltac:(set_solver)) as (v & -> & Hv). cbn [mbind option_bind]. eexists. split; [done|]. by right.
  - (* F32 *)
    eexists. split; [done|]. right. left. destruct (length q =? 0)%nat; [by left|]. destruct (ray_parse_f64 _ _ _ _) as [ [u v]|]; [|by left].
    destruct (negb _); [by left|]. right. by eexists.
  - (* F64 *)
    eexists. split; [done|]. right. left. destruct (length q =? 0)%nat; [by left|]. destruct (ray_parse_f64 _ _ _ _) as [ [u v]|]; [|by left].
    destruct (negb _); [by left|]. right. by eexists.
  - (* CHARV *)
    destruct (length q =? 0)%nat eqn:E; bprop; [eexists; split; [done|]; right; left; by left|]. destruct (lookup_lt_is_Some_2 q 0 ltac:(lia)) as [c Hc].
    rewrite Hc. cbn [mbind option_bind]. eexists. split; [done|]. right. left. apply res_int; [done|apply u8_range|]. intros _ [= E32].
    assert (Hb : byte_ok c) by (eapply (proj1 (Forall_forall _ _) Hp), list_elem_of_lookup_2, Hc). rewrite u8_small in E32 by done. by apply (trim_head p c Hc).
  - answers_int (bare_d_ok date_order q) res_int64.
  - answers_int (month_ok q) res_int32.
  - (* DATE *)
    destruct (date_ok date_order q) as [r ->]. cbn [mbind option_bind]. eexists. split; [done|]. right. left. destruct r as [ [ [y m] d]|]; [|by left].
    destruct (q_calendar_date_valid y m d) eqn:E; [|by left]. apply res_int32; [set_solver|]. pose proof (date_range y m d E). unfold INT32_MAX. lia.
  - (* DATETIME *)
    destruct (bare_d_ok date_order q) as (r & -> & _). cbn [mbind option_bind]. eexists. split; [done|]. right. left. destruct r as [ns|]; [|by left].
    right. by eexists.
  - answers_int (timespan_ok q) res_int64.
  - destruct (minute_ok q) as (v & -> & Hv). cbn [mbind option_bind]. eexists. split; [done|]. right. by left.
  - (* SECOND *)
    destruct (clock_ok q) as (r & -> & Hr). cbn [mbind option_bind]. eexists. split; [done|]. right. left. destruct r as [ [s f]|]; [|by left].
    destruct (Hr s f eq_refl) as [Hs _]. destruct (_ <? _) eqn:E; [by left|]. bprop. apply res_int32; [set_solver|lia].
  - answers_int (time_ok q) res_int32.
Qed.

(** An address, and a timestamp of the Unix clock. *)
Lemma q_tok_safe_witness :
  (exists r, q_tok false no_float (fun _ => zero) (fun _ => true) RAY_I32 [49; 50; 55; 46; 48; 46; 48; 46; 49] = Some r /\
    tok_res_ok RAY_I32 [49; 50; 55; 46; 48; 46; 48; 46; 49] r) /\
  q_tok false no_float (fun _ => zero) (fun _ => true) RAY_I32 [49; 50; 56; 46; 48; 46; 48; 46; 48] = Some (Some (VAtom RAY_I32 (PInt (- 2 ^ 31)) false)).
Proof.
  split; [|vm_compute; reflexivity]. apply (q_tok_safe false no_float (fun _ => zero) (fun _ => true) RAY_I32).
  unfold bytes_ok, byte_ok. repeat constructor; lia.
Defined.

