(* ===== verification/Fmt.v ===== *)
(** * The tokens of atoms ([src/qlang/q_fmt.c], [src/lang/format.c])

    How the console prints an atom whose payload is an integer or a guid: the
    digits, the sentinels, the dates and clocks, and the letter of the type.
    A token is the list of its characters, without the NUL; a buffer is given
    by its size. *)
From Stdlib Require Import ZArith Lia String.
From S2P Require Import Prelude WireVal Calendar Tok.

(** ** [printf] *)
(** The digits of a magnitude, at most [S fuel]. *)
Fixpoint ndig (fuel : nat) (z : Z) : nat :=
  match fuel with O => 1 | S fuel => if z <? 10 then 1 else S (ndig fuel (z / 10)) end.

(** The last [w] digits. *)
Fixpoint fixed (w : nat) (z : Z) : list Z := match w with O => [] | S w => fixed w (z / 10) ++ [48 + z mod 10] end.

(** [%0wu], and [%0wd]. *)
Definition print_u (w : nat) (z : Z) : list Z := fixed (Nat.max w (ndig 19 z)) z.
Definition print_d (w : nat) (z : Z) : list Z :=
  if z <? 0 then 45 :: fixed (Nat.max (w - 1) (ndig 19 (- z))) (- z) else print_u w z.

Definition hex_chr (d : Z) : Z := if d <? 10 then 48 + d else 97 + (d - 10).

(** A text in a buffer of [n] bytes. *)
Definition snprintf (n : nat) (text : list Z) : list Z := take (n - 1) text.

(** ** [format.c] *)
Definition time_to_hms (ms : Z) : Z * Z * Z * Z :=
  let mask := Z.shiftr ms 31 in
  let val := Z.lxor mask ms - mask in
  let secs := Z.quot val 1000 in
  let rem := Z.rem secs 3600 in
  (Z.quot secs 3600, Z.quot rem 60, Z.rem rem 60, Z.rem val 1000).

Definition NSECS_IN_DAY : Z := 24 * 60 * 60 * 1000000000.

Definition ts_to_parts (ns : Z) : (Z * Z * Z) * (Z * Z * Z * Z) :=
  let days := Z.quot ns NSECS_IN_DAY in
  let span := Z.rem ns NSECS_IN_DAY in
  let '(days, span) := if span <? 0 then (days - 1, span + NSECS_IN_DAY) else (days, span) in
  let secs := Z.quot span 1000000000 in
  let rem := Z.rem secs 3600 in
  (date_to_ymd (i32 days), (Z.quot secs 3600, Z.quot rem 60, Z.rem rem 60, Z.rem span 1000000000)).

(** The year and the month of a month number. *)
Definition month_parts (p : Z) : Z * Z :=
  (2000 + (if 0 <=? p then Z.quot p 12 else - Z.quot (- p + 11) 12), 1 + Z.rem (Z.rem p 12 + 12) 12).

Definition fmt_month (val : Z) : list Z := let '(y, m) := month_parts val in print_d 4 y ++ [46] ++ print_d 2 m ++ [109].

Definition ymd_text (ymd : Z * Z * Z) : list Z :=
  let '(y, m, d) := ymd in print_d 4 y ++ [46] ++ print_d 2 m ++ [46] ++ print_d 2 d.

Definition fmt_date (val : Z) : list Z := ymd_text (date_to_ymd val).

(** A sign, of a magnitude. *)
Definition sign_of (val : Z) : list Z := if val <? 0 then [45] else [].

Definition fmt_time (val : Z) : list Z :=
  let '(h, m, s, ms) := time_to_hms val in
  sign_of val ++ print_d 2 h ++ [58] ++ print_d 2 m ++ [58] ++ print_d 2 s ++ [46] ++ print_d 3 ms.

Definition u32_abs (val : Z) : Z := if val <? 0 then u32 (- val) else val.

Definition fmt_minute (val : Z) : list Z :=
  let m := u32_abs val in sign_of val ++ print_u 2 (m / 60) ++ [58] ++ print_u 2 (m mod 60).

Definition fmt_second (val : Z) : list Z :=
  let s := u32_abs val in sign_of val ++ print_u 2 (s / 3600) ++ [58] ++ print_u 2 (s / 60 mod 60) ++ [58] ++ print_u 2 (s mod 60).

Definition fmt_timespan (val : Z) : list Z :=
  let n := if val <? 0 then u64 (u64 (- (val + 1)) + 1) else val in
  sign_of val ++ print_u 1 (n / 86400000000000) ++ [68] ++ print_u 2 (n / 3600000000000 mod 24) ++ [58] ++
    print_u 2 (n / 60000000000 mod 60) ++ [58] ++ print_u 2 (n / 1000000000 mod 60) ++ [46] ++ print_u 9 (n mod 1000000000).

Definition fmt_timestamp (val : Z) : list Z :=
  let '(ymd, (h, mi, s, ns)) := ts_to_parts val in
  ymd_text ymd ++ [68] ++ print_d 2 h ++ [58] ++ print_d 2 mi ++ [58] ++ print_d 2 s ++ [46] ++ print_d 9 ns.

(** ** [q_fmt.c] *)
Definition sentinel_tok (v : Z) (width : nat) (suffix : list Z) (n : nat) : option (list Z) :=
  let vmax := if (width =? 2)%nat then 2 ^ 15 - 1 else if (width =? 4)%nat then 2 ^ 31 - 1 else INT64_MAX in
  let base :=
    if v =? - vmax - 1 then Some [48; 78]
    else if (width =? 2)%nat then None
    else if v =? vmax then Some [48; 87]
    else if v =? - vmax then Some [45; 48; 87] else None in
  b ← base; Some (snprintf n (b ++ suffix)).

Definition int_tok (v : Z) (width : nat) (suffix : list Z) (n : nat) : list Z :=
  default (snprintf n (print_d 1 v ++ suffix)) (sentinel_tok v width suffix n).

(** The value through the formatter of its type. *)
Definition tok_via_atom (text : list Z) (n : nat) : list Z := take (if (n <=? length text)%nat then n - 1 else length text) text.

Definition date_payload (v : Z) (n : nat) : list Z :=
  if (v <? q_calendar_days_from_civil 1 1 1) || (q_calendar_days_from_civil 9999 12 31 <? v)
  then snprintf n [48; 48; 48; 48; 46; 48; 48; 46; 48; 48]
  else tok_via_atom (fmt_date v) n.

Definition month_payload (p : Z) (n : nat) : list Z :=
  let '(y, m) := month_parts p in
  if (y <? 1) || (9999 <? y) then snprintf n [48; 48; 48; 48; 46; 48; 48] else snprintf n (print_d 4 y ++ [46] ++ print_d 2 m).

(** The bytes of a group, while two characters fit. *)
Fixpoint guid_group (l : list Z) (n : nat) (out : list Z) : list Z :=
  match l with
  | b :: l => if (length out + 2 <? n)%nat then guid_group l n (out ++ [hex_chr (Z.shiftr b 4); hex_chr (Z.land b 0xf)]) else out
  | [] => out
  end.

Definition guid_tok (b16 : list Z) (n : nat) : list Z :=
  if (n =? 0)%nat then []
  else
    let dash out := if (length out + 1 <? n)%nat then out ++ [45] else out in
    let out := guid_group (take 4 b16) n [] in
    let out := guid_group (take 2 (drop 4 b16)) n (dash out) in
    let out := guid_group (take 2 (drop 6 b16)) n (dash out) in
    let out := guid_group (take 2 (drop 8 b16)) n (dash out) in
    let out := guid_group (take 6 (drop 10 b16)) n (dash out) in
    if (length out <? n)%nat then out else take (n - 1) out.

Record q_ttok := Ttok { tt_type : ray_type_e; tt_lettered : bool; tt_width : nat; tt_text : Z -> nat -> list Z }.

(** The integer rows of the table. *)
Definition Q_TTOK : list q_ttok :=
  [Ttok RAY_DATE false 4 date_payload;
   Ttok RAY_MONTH true 4 month_payload;
   Ttok RAY_TIME false 4 (fun x => tok_via_atom (fmt_time x));
   Ttok RAY_MINUTE false 4 (fun x => tok_via_atom (fmt_minute x));
   Ttok RAY_SECOND false 4 (fun x => tok_via_atom (fmt_second x));
   Ttok RAY_TIMESPAN false 8 (fun x => tok_via_atom (fmt_timespan x));
   Ttok RAY_TIMESTAMP false 8 (fun x => tok_via_atom (fmt_timestamp x))].

Definition ttok_find (t : ray_type_e) : option q_ttok := List.find (fun r => bool_decide (tt_type r = t)) Q_TTOK.

(** The token and whether it is a bare sentinel. *)
Definition ttok_elem (r : q_ttok) (z : Z) (n : nat) : list Z * bool :=
  let x := if (tt_width r =? 4)%nat then i32 z else z in
  match sentinel_tok x (tt_width r) [] n with Some tok => (tok, true) | None => (tt_text r x n, false) end.

Definition tok_append (out : list Z) (n : nat) (c : Z) : list Z := if (length out + 1 <? n)%nat then out ++ [c] else out.

(** The token of an atom; [None] for floats, datetimes and symbols. *)
Definition atom_tok (a : lit_val) (suffixed : bool) (n : nat) : option (list Z) :=
  match a with
  | VAtom t (PInt z) _ =>
      match ttok_find t with
      | Some tr =>
          let '(out, sentinel) := ttok_elem tr z n in
          Some (if if tt_lettered tr then suffixed else sentinel then tok_append out n (q_type_char t) else out)
      | None =>
          match t with
          | RAY_BOOL => Some (snprintf n (print_d 1 (if u8 z =? 0 then 0 else 1) ++ (if suffixed then [98] else [])))
          | RAY_U8 => Some (snprintf n ([48; 120] ++ [hex_chr (Z.shiftr (u8 z) 4); hex_chr (Z.land (u8 z) 0xf)]))
          | RAY_I16 => Some (int_tok (sgn 16 z) 2 (if suffixed then [104] else []) n)
          | RAY_I32 => Some (int_tok (i32 z) 4 (if suffixed then [105] else []) n)
          | RAY_I64 => Some (int_tok z 8 [] n)
          | _ => None
          end
      end
  | VAtom RAY_GUID (PGuid b) _ => Some (guid_tok b n)
  | _ => None
  end.
