(* ===== verification/TokScan.v ===== *)
(** * Scanning what was printed ([src/qlang/parse/q_tok.c])

    The scanners on texts of a known shape: what the digits, dates and clocks
    of a printed token are read as, wherever the text stands in the string. *)
From Stdlib Require Import ZArith Lia String Floats.SpecFloat.
From S2P Require Import Prelude WireLz WireVal NumParse Calendar Tok TokStr TokSafe Fmt.

(** ** Printed digits *)
Definition digs (ds : list Z) : Prop := Forall (fun c => 48 <= c <= 57) ds.

Lemma length_fixed w z : length (fixed w z) = w.
Proof. revert z. induction w as [|w IH]; intros z; cbn [fixed]; [done|]. rewrite length_app, IH. simpl. lia. Qed.

Lemma fixed_digs w z : digs (fixed w z).
Proof.
  revert z. induction w as [|w IH]; intros z; cbn [fixed]; [constructor|]. apply Forall_app. split; [apply IH|]. constructor; [|constructor]. lia.
Qed.

Lemma dv_fixed (w : nat) z : 0 <= z < 10 ^ w -> dv (fixed w z) = z.
Proof.
  revert z. induction w as [|w IH]; intros z Hz; cbn [fixed]; [change (10 ^ Z.of_nat 0) with 1 in Hz; change (dv []) with 0; lia|].
  rewrite Nat2Z.inj_succ, Z.pow_succ_r in Hz by lia. rewrite dv_app, IH by lia. rewrite dv_cons. change (dv []) with 0. change (10 ^ Z.of_nat (length [48 + z mod 10])) with 10. change (10 ^ Z.of_nat (length [])) with 1. unfold dval. lia.
Qed.

Lemma ndig_spec (fuel : nat) z : 0 <= z < 10 ^ S fuel -> (1 <= ndig fuel z <= S fuel)%nat /\ z < 10 ^ ndig fuel z.
Proof.
  revert z. induction fuel as [|fuel IH]; intros z Hz; cbn [ndig]; [simpl in *; lia|]. destruct (z <? 10) eqn:E; bprop; [simpl; lia|].
  rewrite Nat2Z.inj_succ, Z.pow_succ_r in Hz by lia. destruct (IH (z / 10)) as [Hn Hp]; [lia|]. split; [lia|]. rewrite Nat2Z.inj_succ, Z.pow_succ_r by lia. lia.
Qed.

Lemma ndig_max (fuel w : nat) z : (1 <= w)%nat -> z < 10 ^ w -> (ndig fuel z <= w)%nat.
Proof.
  revert w z. induction fuel as [|fuel IH]; intros w z Hw Hz; cbn [ndig]; [lia|]. destruct (z <? 10) eqn:E; bprop; [lia|].
  destruct w as [|[|w] ]; [lia|simpl in Hz; lia|]. specialize (IH (S w) (z / 10)). rewrite Nat2Z.inj_succ, Z.pow_succ_r in Hz by lia.
  specialize (IH ltac:(lia) ltac:(lia)). lia.
Qed.

Lemma print_u_fixed (w : nat) z : (1 <= w)%nat -> z < 10 ^ w -> print_u w z = fixed w z.
Proof. intros Hw Hz. unfold print_u. pose proof (ndig_max 19 w z Hw Hz). by replace (Nat.max w (ndig 19 z)) with w by lia. Qed.

Lemma print_d_fixed (w : nat) z : (1 <= w)%nat -> 0 <= z < 10 ^ w -> print_d w z = fixed w z.
Proof. intros Hw Hz. unfold print_d. rewrite (proj2 (Z.ltb_ge _ _)) by lia. apply print_u_fixed; [done|lia]. Qed.

Lemma fixed2 v : fixed 2 v = [48 + v / 10 mod 10; 48 + v mod 10].
Proof. done. Qed.

Lemma fixed4 v : fixed 4 v = [48 + v / 10 / 10 / 10 mod 10; 48 + v / 10 / 10 mod 10; 48 + v / 10 mod 10; 48 + v mod 10].
Proof. done. Qed.

(** ** A text at a place *)
Lemma at_read {A} (s : list A) i c l : drop i s = c :: l -> s !! i = Some c /\ drop (S i) s = l.
Proof.
  intros H. split.
  - pose proof (lookup_drop s i 0) as Hl. rewrite H, Nat.add_0_r in Hl. by rewrite <- Hl.
  - by rewrite <- (Nat.add_1_r i), <- drop_drop, H.
Qed.

Lemma at_app {A} (s : list A) i l r : drop i s = l ++ r -> drop (i + length l) s = r.
Proof. intros H. rewrite <- drop_drop, H. by rewrite drop_app_length. Qed.

Lemma at_lookup {A} (s : list A) i l k : drop i s = l -> s !! (i + k)%nat = l !! k.
Proof. intros <-. by rewrite lookup_drop. Qed.

Lemma at_length {A} (s : list A) i l r : drop i s = l ++ r -> (0 < length l)%nat -> (i + length l + length r = length s)%nat.
Proof. intros H Hl. apply (f_equal length) in H. rewrite length_drop, length_app in H. lia. Qed.

Lemma num2_at s (i : nat) v r : drop i s = fixed 2 v ++ r -> 0 <= v < 100 -> num2 s i = Some v.
Proof.
  intros H Hv. unfold num2. pose proof (at_lookup s i _ 0 H) as H0. rewrite Nat.add_0_r in H0. rewrite H0, (at_lookup s i _ 1 H), fixed2. cbn. f_equal. lia.
Qed.

Lemma num4_at s i v r : drop i s = fixed 4 v ++ r -> 0 <= v < 10000 -> num4 s i = Some v.
Proof.
  intros H Hv. unfold num4. pose proof (at_lookup s i _ 0 H) as H0. rewrite Nat.add_0_r in H0.
  rewrite H0, (at_lookup s i _ 1 H), (at_lookup s i _ 2 H), (at_lookup s i _ 3 H), fixed4. cbn. f_equal. lia.
Qed.

(** The text ends at [k]: the limit is there, or another character. *)
Definition ends (n : Z) (k : nat) (r : list Z) (bad : Z -> bool) : Prop :=
  Z.of_nat k = n \/ (k < n /\ exists c r', r = c :: r' /\ bad c = false).

Lemma ends_weaken n k r (f g : Z -> bool) : (forall c, f c = false -> g c = false) -> ends n k r f -> ends n k r g.
Proof. intros Hfg [H|(H & c & r' & E & Hc)]; [by left|]. right. split; [done|]. exists c, r'. auto. Qed.

Lemma dig_run_at ds r room : digs ds -> ends (length ds + room) (length ds) r tok_digit -> 0 <= room -> dig_run (ds ++ r) (length ds + room) = Some (length ds).
Proof.
  intros Hds. revert room. induction ds as [|c ds IH]; intros room He Hr; cbn [app].
  - simpl in *. destruct (room <=? 0) eqn:E; bprop.
    + destruct r; cbn [dig_run]; by rewrite (proj2 (Z.leb_le _ 0)) by lia.
    + destruct He as [He|(_ & c & r' & -> & Hc)]; [simpl in He; lia|]. cbn [dig_run]. by rewrite (proj2 (Z.leb_gt _ 0)), Hc by lia.
  - apply Forall_cons in Hds as [Hc Hds]. cbn [dig_run length]. rewrite (proj2 (Z.leb_gt _ 0)) by lia.
    rewrite (proj2 (tok_digit_ok c)) by done. replace (S (length ds) + room - 1) with (length ds + room) by lia.
    rewrite IH; [done|done| |done]. destruct He as [He|(He & c' & r' & E & Hb)]; [left; simpl in He; lia|right]. split; [simpl in He; lia|]. by exists c', r'.
Qed.

Lemma run_at s n i ds r : drop i s = ds ++ r -> digs ds -> i + length ds <= n -> ends n (i + length ds) r tok_digit -> tok_dig_run_n s n i = Some (length ds).
Proof.
  intros H Hds Hn He. unfold tok_dig_run_n. rewrite H. replace (n - i) with (length ds + (n - i - length ds)) by lia.
  apply dig_run_at; [done| |lia]. destruct He as [He|(He & Hc)]; [left; lia|right; split; [lia|done] ].
Qed.

Lemma digs_IS ds : digs ds -> Forall (fun c => IS_DIGIT c = true) ds.
Proof. intros H. eapply Forall_impl; [exact H|]. cbn. intros c Hc. unfold IS_DIGIT. by rewrite (proj2 (Z.leb_le _ _)), (proj2 (Z.ltb_lt _ _)) by lia. Qed.

(** ** Clocks *)
Lemma hour_go ds r room f (hd : nat) : digs ds -> ends (length ds + room) (length ds) r tok_digit -> 0 <= room ->
  0 <= f -> f * 10 ^ length ds + dv ds <= INT64_MAX ->
  clock_hour (ds ++ r) (length ds + room) f true hd = Some (f * 10 ^ length ds + dv ds, true, (hd + length ds)%nat).
Proof.
  intros Hds. revert room f hd. induction ds as [|c ds IH]; intros room f hd He Hr Hf Hb; cbn [app].
  - change (dv []) with 0 in *. change (10 ^ Z.of_nat (length [])) with 1 in *. rewrite Z.mul_1_r, Z.add_0_r, Nat.add_0_r in *. simpl in He |- *.
    destruct (room <=? 0) eqn:E; bprop; [destruct r; cbn [clock_hour]; by rewrite (proj2 (Z.leb_le _ 0)) by lia|].
    destruct He as [He|(_ & c & r' & -> & Hc)]; [lia|]. cbn [clock_hour]. by rewrite (proj2 (Z.leb_gt _ 0)), Hc by lia.
  - apply Forall_cons in Hds as [Hc Hds]. cbn [clock_hour length]. rewrite (proj2 (Z.leb_gt _ 0)) by lia. rewrite (proj2 (tok_digit_ok c)) by done.
    rewrite dv_cons in Hb |- *. cbn [length] in Hb. rewrite Nat2Z.inj_succ, Z.pow_succ_r in Hb |- * by lia. unfold dval in *.
    assert (Hdv : 0 <= dv ds) by (by apply dv_bounds, digs_IS).
    assert (Hp : 0 < 10 ^ length ds) by lia. assert (Hf1 : (f * 10 + (c - 48)) * 10 ^ length ds + dv ds <= INT64_MAX) by lia.
    assert (Hf2 : f * 10 + (c - 48) <= INT64_MAX) by nia.
    rewrite ovf_false by (unfold INT64_MIN, INT64_MAX in *; lia). cbv zeta. rewrite (i64_small (f * 10)) by (unfold INT64_MIN, INT64_MAX in *; lia).
    rewrite ovf_false, i64_small by (unfold INT64_MIN, INT64_MAX in *; lia). cbn [andb negb].
    replace (Z.succ (length ds) + room - 1) with (length ds + room) by lia. rewrite IH; [|done| |done|lia|done].
    + f_equal. f_equal; [f_equal; lia|lia].
    + destruct He as [He|(He & c' & r' & E & Hb')]; [left; simpl in He; lia|right]. split; [simpl in He; lia|]. by exists c', r'.
Qed.

Lemma hour_at s n i ds r : drop i s = ds ++ r -> digs ds -> i + length ds <= n -> ends n (i + length ds) r tok_digit -> dv ds <= INT64_MAX ->
  clock_hour (drop i s) (n - i) 0 true 0 = Some (dv ds, true, length ds).
Proof.
  intros H Hds Hn He Hb. rewrite H. replace (n - i) with (length ds + (n - i - length ds)) by lia.
  rewrite hour_go; [f_equal; f_equal; f_equal; lia|done| |lia|lia|lia]. destruct He as [He|(He & Hc)]; [left; lia|right; split; [lia|done] ].
Qed.

(** Not a digit, a colon or a dot. *)
Definition clock_bad (c : Z) : bool := tok_digit c || (c =? 58) || (c =? 46).

Lemma field_step fuel s n i f v r : (0 < length f < 3)%nat -> drop i s = 58 :: fixed 2 v ++ r -> 0 <= v < 60 -> i + 3 <= n ->
  ends n (i + 3) r tok_digit -> clock_fields (S fuel) s n i f true = clock_fields fuel s n (i + 3) (f ++ [v]) true.
Proof.
  intros Hl H Hv Hn He. cbn [clock_fields]. rewrite !(proj2 (Nat.ltb_lt _ _)) by lia. rewrite (proj2 (Z.ltb_lt _ _)) by lia. cbn [andb].
  destruct (at_read s i _ _ H) as [Hc Hd]. unfold char_is, and_then. rewrite Hc. cbn [mbind option_bind]. change (58 =? 58) with true. cbv iota.
  rewrite <- (Nat.add_1_r i) in Hd. rewrite (run_at s n (i + 1) (fixed 2 v) r Hd (fixed_digs 2 v)) by (rewrite length_fixed; try lia; replace (i + 1 + 2)%nat with (i + 3)%nat by lia; done).
  rewrite length_fixed. cbn [mbind option_bind]. change (2 =? 2)%nat with true. cbv iota. rewrite (num2_at s (i + 1) v r Hd) by lia. cbn [mbind option_bind].
  by rewrite (proj2 (Z.ltb_lt _ _)) by lia.
Qed.

Lemma not_char s n i r c (f : Z -> bool) : drop i s = r -> ends n i r f -> (f c = true) ->
  (if i <? n then char_is s i c else Some false) = Some false.
Proof.
  intros H He Hf. destruct He as [He|(He & x & r' & -> & Hx)]; [by rewrite (proj2 (Z.ltb_ge _ _)) by lia|].
  rewrite (proj2 (Z.ltb_lt _ _)) by lia. destruct (at_read s i _ _ H) as [Hc _]. unfold char_is. rewrite Hc. cbn [mbind option_bind].
  f_equal. apply Z.eqb_neq. intros ->. congruence.
Qed.

Lemma field_stop fuel s n i f ok r : drop i s = r -> (length f = 3)%nat \/ ends n i r (fun c => c =? 58) -> clock_fields (S fuel) s n i f ok = Some (i, f, ok).
Proof.
  intros H He. cbn [clock_fields]. destruct ((0 <? length f)%nat && (length f <? 3)%nat) eqn:E; cbn [andb]; [|done].
  destruct He as [He|He]; [bprop; lia|]. pose proof (not_char s n i r 58 _ H He eq_refl) as Hc. destruct (i <? n); [|done].
  unfold and_then. rewrite Hc. done.
Qed.

Lemma frac_at s i ds r : drop i s = ds ++ r -> digs ds -> (length ds <= 9)%nat -> tok_frac_ns s i (length ds) = Some (dv ds * 10 ^ (9 - length ds)).
Proof.
  intros H Hds Hl. unfold tok_frac_ns.
  assert (Hlk : forall k, (k < length ds)%nat -> s !! (i + k)%nat = ds !! k).
  { intros k Hk. rewrite (at_lookup s i _ k H). by apply lookup_app_l. }
  clear H. enough (Hg : forall k, (k <= 9)%nat -> fold_opt (fun f k => if (k <? length ds)%nat then c ← s !! (i + k)%nat; Some (f * 10 + (c - 48)) else Some (f * 10)) 0 (seq 0 k) =
    Some (dv (take k ds) * 10 ^ (k - Z.min k (length ds)))).
  { rewrite Hg by lia. rewrite take_ge by done. f_equal. f_equal. f_equal. lia. }
  induction k as [|k IH]; intros Hk; [done|]. rewrite seq_S, fold_opt_snoc, IH by lia. cbn [mbind option_bind Nat.add].
  destruct (k <? length ds)%nat eqn:E; bprop.
  - rewrite Hlk by done. destruct (lookup_lt_is_Some_2 ds k E) as [c Hc]. rewrite Hc. cbn [mbind option_bind]. rewrite (take_S_r _ _ _ Hc), dv_app.
    rewrite Z.min_l, Z.min_l by lia. replace (Z.of_nat k - Z.of_nat k) with 0 by lia. replace (Z.of_nat (S k) - Z.of_nat (S k)) with 0 by lia.
    change (10 ^ Z.of_nat (length [c])) with 10. rewrite dv_cons. change (dv []) with 0. change (10 ^ Z.of_nat (length (@nil Z))) with 1. unfold dval. f_equal. lia.
  - rewrite !take_ge by lia. rewrite !Z.min_r by lia. replace (S k - Z.of_nat (length ds)) with (Z.succ (k - length ds)) by lia. rewrite Z.pow_succ_r by lia. f_equal. lia.
Qed.

(** The fields behind the hour, and the fraction, as text. *)
Definition fields_text (ms : list Z) : list Z := concat ((fun v => 58 :: fixed 2 v) <$> ms).
Definition frac_text (fr : option (list Z)) : list Z := match fr with Some ds => 46 :: ds | None => [] end.

Lemma length_fields ms : length (fields_text ms) = (3 * length ms)%nat.
Proof. unfold fields_text. induction ms as [|v ms IH]; [done|]. cbn [fmap list_fmap concat]. rewrite length_app, IH. simpl. lia. Qed.

Lemma fields_at s n ms i f r : (length f = 1)%nat -> (length ms <= 2)%nat -> Forall (fun v => 0 <= v < 60) ms ->
  drop i s = fields_text ms ++ r -> i + 3 * length ms <= n -> ends n (i + 3 * length ms) r (fun c => tok_digit c || (c =? 58)) ->
  clock_fields 3 s n i f true = Some ((i + 3 * length ms)%nat, f ++ ms, true).
Proof.
  intros Hf Hl Hms H Hn He.
  assert (Hd : forall k r', (k <= length ms)%nat -> ends n (i + 3 * k) (58 :: r') tok_digit \/ k = length ms) by (intros k r' Hk; destruct (decide (k = length ms)); [by right|left; right; split; [lia|by exists 58, r'] ]).
  assert (Hw : ends n (i + 3 * length ms) r tok_digit) by (eapply ends_weaken; [|exact He]; intros c Hc; by apply orb_false_iff in Hc as [Hc _]).
  assert (H58 : ends n (i + 3 * length ms) r (fun c => c =? 58)) by (eapply ends_weaken; [|exact He]; intros c Hc; by apply orb_false_iff in Hc as [_ Hc]).
  destruct ms as [|m [|m2 [|] ] ]; [| | |simpl in Hl; lia]; cbn [length] in *; unfold fields_text in H; cbn [fmap list_fmap concat] in H.
  - rewrite (field_stop 2 s n i f true r); [by rewrite Nat.mul_0_r, Nat.add_0_r, app_nil_r|exact H|right; by rewrite Nat.mul_0_r, Nat.add_0_r in H58].
  - apply Forall_cons in Hms as [Hm _]. rewrite app_nil_r in H. rewrite (field_step 2 s n i f m r); [|lia|exact H|done|lia|exact Hw].
    pose proof (at_app s i (58 :: fixed 2 m) r H) as H2. cbn [length] in H2. rewrite length_fixed in H2. rewrite (field_stop 1 s n (i + 3) _ true r H2); [done|right; exact H58].
  - apply Forall_cons in Hms as [Hm Hms]. apply Forall_cons in Hms as [Hm2 _]. rewrite app_nil_r in H.
    assert (H1 : drop i s = 58 :: fixed 2 m ++ ((58 :: fixed 2 m2) ++ r)) by (rewrite H; by rewrite <- app_assoc).
    rewrite (field_step 2 s n i f m ((58 :: fixed 2 m2) ++ r)); [|lia|exact H1|done|lia|destruct (Hd 1%nat (fixed 2 m2 ++ r) ltac:(lia)); [done|lia] ].
    pose proof (at_app s i (58 :: fixed 2 m) _ H1) as H2. cbn [length] in H2. rewrite length_fixed in H2.
    rewrite (field_step 1 s n (i + 3) _ m2 r); [|rewrite length_app; simpl; lia|exact H2|done|lia|replace (i + 3 + 3)%nat with (i + 3 * 2)%nat by lia; exact Hw].
    pose proof (at_app s (i + 3) (58 :: fixed 2 m2) _ H2) as H3. cbn [length] in H3. rewrite length_fixed in H3.
    rewrite (field_stop 0 s n (i + 3 + 3) _ true r H3); [|left; rewrite !length_app; simpl; lia]. replace (i + 3 + 3)%nat with (i + 3 * 2)%nat by lia. by rewrite <- app_assoc.
Qed.

Definition clock_text (hd : list Z) (ms : list Z) (fr : option (list Z)) : list Z := hd ++ fields_text ms ++ frac_text fr.

Definition clock_secs (hd ms : list Z) : Z := dv hd * 3600 + (rd ms 0 * 60 + rd ms 1).
Definition frac_ns (fr : option (list Z)) : Z := match fr with Some ds => dv ds * 10 ^ (9 - length ds) | None => 0 end.
Definition frac_len (fr : option (list Z)) : nat := match fr with Some ds => length ds | None => 0 end.

(** What may stand in a printed clock. *)
Record clock_ok (hd ms : list Z) (fr : option (list Z)) : Prop := {
  ck_hd : digs hd; ck_len : (1 <= length hd)%nat; ck_bound : dv hd <= 2 ^ 50; ck_ms : (length ms <= 2)%nat; ck_60 : Forall (fun v => 0 <= v < 60) ms;
  ck_fr : match fr with Some ds => digs ds /\ (length ds <= 9)%nat | None => True end }.

Lemma frac_text_ends fr n k r : ends n (k + length (frac_text fr)) r clock_bad -> k + length (frac_text fr) <= n ->
  ends n k (frac_text fr ++ r) (fun c => tok_digit c || (c =? 58)).
Proof.
  intros He Hn. destruct fr as [ds|]; cbn [frac_text app length] in *.
  - right. split; [lia|]. by exists 46, (ds ++ r).
  - rewrite Nat.add_0_r in He. eapply ends_weaken; [|exact He]. intros c Hc. unfold clock_bad in Hc. by apply orb_false_iff in Hc as [Hc _].
Qed.

Lemma dot_at s n i fields fr r : (0 < fields)%nat -> match fr with Some ds => digs ds /\ (length ds <= 9)%nat | None => True end ->
  drop i s = frac_text fr ++ r -> i + length (frac_text fr) <= n -> ends n (i + length (frac_text fr)) r clock_bad ->
  clock_dot s n i fields 0 0 = Some (bool_decide (is_Some fr), frac_ns fr, frac_len fr, true, (i + length (frac_text fr))%nat).
Proof.
  intros Hf Hfr H Hn He. unfold clock_dot. destruct fr as [ds|]; cbn [frac_text app length frac_ns frac_len] in *.
  - destruct Hfr as [Hds Hl]. rewrite (proj2 (Z.ltb_lt _ _)) by lia. destruct (at_read s i _ _ H) as [Hc Hd]. unfold char_is, and_then. rewrite Hc.
    cbn [mbind option_bind]. change (46 =? 46) with true. cbv iota. rewrite (proj2 (Nat.ltb_lt 0 fields)) by exact Hf. cbn [mbind option_bind].
    rewrite <- (Nat.add_1_r i) in Hd. rewrite (run_at s n (i + 1) ds r Hd Hds); [|lia|].
    + cbn [mbind option_bind]. rewrite (frac_at s (i + 1) ds r Hd Hds Hl). cbn [mbind option_bind]. by replace (i + 1 + length ds)%nat with (i + S (length ds))%nat by lia.
    + replace (i + 1 + length ds)%nat with (i + S (length ds))%nat by lia. eapply ends_weaken; [|exact He]. intros c Hc'. unfold clock_bad in Hc'.
      apply orb_false_iff in Hc' as [Hc' _]. by apply orb_false_iff in Hc' as [Hc' _].
  - rewrite Nat.add_0_r in *. pose proof (not_char s n i r 46 clock_bad H He eq_refl) as Hc. destruct (i <? n); [|done]. unfold and_then. rewrite Hc. done.
Qed.

Lemma fourth_at s n i fields r : drop i s = r -> ends n i r (fun c => c =? 58) -> clock_fourth s n i fields = Some (0%nat, 0, i).
Proof.
  intros H He. unfold clock_fourth. pose proof (not_char s n i r 58 _ H He eq_refl) as Hc. destruct (_ =? _)%nat; cbn [andb]; [|done].
  destruct (i <? n); [rewrite Hc; done|done].
Qed.

Lemma scan_at s n i hd ms fr r : clock_ok hd ms fr -> drop i s = clock_text hd ms fr ++ r -> i + length (clock_text hd ms fr) <= n ->
  ends n (i + length (clock_text hd ms fr)) r clock_bad ->
  tok_clock_scan s n i = Some ((i + length (clock_text hd ms fr))%nat,
    Clock (clock_secs hd ms) (frac_ns fr) (length hd) (S (length ms)) 0 (bool_decide (is_Some fr)) (frac_len fr) true).
Proof.
  intros [Hhd Hl Hb Hms H60 Hfr] H Hn He. unfold clock_text in *. rewrite !length_app, length_fields in Hn, He |- *. unfold tok_clock_scan.
  rewrite <- !app_assoc in H. pose proof (at_app s i hd _ H) as H1. pose proof (at_app s _ _ _ H1) as H2. rewrite length_fields in H2.
  assert (He2 : ends n (i + length hd + 3 * length ms + length (frac_text fr)) r clock_bad) by (by replace (i + length hd + 3 * length ms + length (frac_text fr))%nat with (i + (length hd + (3 * length ms + length (frac_text fr))))%nat by lia).
  pose proof (frac_text_ends fr n (i + length hd + 3 * length ms) r He2 ltac:(lia)) as He1.
  rewrite (hour_at s n i hd _ H Hhd); [|lia| |unfold INT64_MAX; lia].
  2: { destruct ms as [|m ms]; [|right; split; [cbn [length] in Hn; lia|]; exists 58; eexists; split; [reflexivity|done] ].
       cbn [length] in He1. rewrite Nat.mul_0_r, Nat.add_0_r in He1. eapply ends_weaken; [|exact He1]. intros c Hc. by apply orb_false_iff in Hc as [Hc _]. }
  cbn [mbind option_bind]. rewrite (proj2 (Nat.ltb_lt 0 (length hd))) by lia.
  replace (i + length hd)%Z with (Z.of_nat (i + length hd)) in * by lia.
  rewrite (fields_at s n ms (i + length hd) [dv hd] (frac_text fr ++ r)); [|done|done|done|exact H1|lia|exact He1].
  cbn [mbind option_bind]. rewrite (fourth_at s n (i + length hd + 3 * length ms) _ _ H2).
  2: { eapply ends_weaken; [|exact He1]. intros c Hc. by apply orb_false_iff in Hc as [_ Hc]. }
  cbn [mbind option_bind]. rewrite (dot_at s n (i + length hd + 3 * length ms) _ fr r); [|simpl; lia|exact Hfr|exact H2|lia|exact He2].
  cbn [mbind option_bind app length]. cbv zeta.
  assert (Hf : 0 <= rd ms 0 < 60 /\ 0 <= rd ms 1 < 60).
  { destruct ms as [|a [|c [|] ] ]; cbn; [lia|apply Forall_cons in H60 as [? _]; lia|apply Forall_cons in H60 as [? H60]; apply Forall_cons in H60 as [? _]; lia|simpl in Hms; lia]. }
  assert (Hd : 0 <= dv hd) by (by apply dv_bounds, digs_IS).
  replace (rd (dv hd :: ms) 0) with (dv hd) by done. replace (rd (dv hd :: ms) 1) with (rd ms 0) by done. replace (rd (dv hd :: ms) 2) with (rd ms 1) by done.
  rewrite !(ovf_false (dv hd * 3600)) by (unfold INT64_MIN, INT64_MAX; lia). rewrite (i64_small (dv hd * 3600)) by (unfold INT64_MIN, INT64_MAX; lia).
  rewrite ovf_false, i64_small by (unfold INT64_MIN, INT64_MAX; lia). cbn [andb negb]. unfold clock_secs.
  by replace (i + length hd + 3 * length ms + length (frac_text fr))%nat with (i + (length hd + (3 * length ms + length (frac_text fr))))%nat by lia.
Qed.
