(* ===== verification/TokTrip.v ===== *)
(** * Tokens are read back ([src/qlang/q_fmt.c] and [src/qlang/parse/q_tok.c])

    What the console prints for an atom, the scanners read as the same atom:
    the element form by [$], the value form as a literal. *)
From Stdlib Require Import ZArith Lia String Floats.SpecFloat.
From S2P Require Import Prelude WireLz WireVal NumParse Calendar Tok TokStr TokSafe TokLit TokStrSafe Fmt TokScan.

(** ** Printed clocks *)
Lemma abs_mask z : - 2 ^ 31 < z < 2 ^ 31 -> Z.lxor (Z.shiftr z 31) z - Z.shiftr z 31 = Z.abs z.
Proof.
  intros Hz. destruct (Z.le_gt_cases 0 z).
  - assert (Z.shiftr z 31 = 0) as -> by (rewrite Z.shiftr_div_pow2 by lia; apply Z.div_small; lia). rewrite Z.lxor_0_l. lia.
  - assert (Z.shiftr z 31 = -1) as -> by (rewrite Z.shiftr_div_pow2 by lia; symmetry; apply (Z.div_unique _ _ _ (z + 2 ^ 31)); lia).
    rewrite Z.lxor_m1_l. unfold Z.lnot. lia.
Qed.

(** A magnitude of at least [w] digits. *)
Lemma print_hd (w : nat) h : (1 <= w)%nat -> 0 <= h < 10 ^ 19 ->
  digs (print_u w h) /\ (w <= length (print_u w h) <= Nat.max w 20)%nat /\ dv (print_u w h) = h /\ (h < 10 ^ w -> length (print_u w h) = w) /\ print_d w h = print_u w h.
Proof.
  intros Hw Hh. unfold print_u. destruct (ndig_spec 19 h) as [Hn Hp]; [simpl; lia|]. rewrite length_fixed. split; [apply fixed_digs|]. split; [lia|]. split; [|split].
  - apply dv_fixed. split; [lia|]. eapply Z.lt_le_trans; [exact Hp|]. apply Z.pow_le_mono_r; lia.
  - intros Hlt. pose proof (ndig_max 19 w h Hw Hlt). lia.
  - unfold print_d. by rewrite (proj2 (Z.ltb_ge _ _)) by lia.
Qed.

Lemma hms_text a m s : 0 <= m < 60 -> 0 <= s < 60 -> a ++ [58] ++ print_u 2 m ++ [58] ++ print_u 2 s = a ++ fields_text [m; s].
Proof. intros Hm Hs. rewrite !print_u_fixed by lia. unfold fields_text. cbn [fmap list_fmap concat]. by rewrite app_nil_r. Qed.

Lemma time_text z : - 2 ^ 31 < z < 2 ^ 31 ->
  exists h m s f, fmt_time z = sign_of z ++ clock_text (print_u 2 h) [m; s] (Some (fixed 3 f)) /\
    clock_ok (print_u 2 h) [m; s] (Some (fixed 3 f)) /\ Z.abs z = (h * 3600 + m * 60 + s) * 1000 + f /\ 0 <= h < 1000 /\ 0 <= m < 60 /\ 0 <= s < 60 /\ 0 <= f < 1000.
Proof.
  intros Hz. unfold fmt_time, time_to_hms. cbv zeta. rewrite abs_mask by done. set (a := Z.abs z). assert (Ha : 0 <= a < 2 ^ 31) by lia.
  exists (Z.quot (Z.quot a 1000) 3600), (Z.quot (Z.rem (Z.quot a 1000) 3600) 60), (Z.rem (Z.rem (Z.quot a 1000) 3600) 60), (Z.rem a 1000).
  set (h := Z.quot (Z.quot a 1000) 3600). set (m := Z.quot (Z.rem _ 3600) 60). set (s := Z.rem (Z.rem _ 3600) 60). set (f := Z.rem a 1000).
  assert (Hr : 0 <= h < 1000 /\ 0 <= m < 60 /\ 0 <= s < 60 /\ 0 <= f < 1000 /\ a = (h * 3600 + m * 60 + s) * 1000 + f).
  { unfold h, m, s, f. clearbody a. clear Hz. Z.to_euclidean_division_equations. lia. }
  clearbody h m s f. destruct Hr as (Hh & Hm & Hs & Hf & Hv). destruct (print_hd 2 h) as (H1 & H2 & H3 & _ & ->); [lia|lia|].
  rewrite (print_d_fixed 2 m), (print_d_fixed 2 s), (print_d_fixed 3 f) by lia. split.
  - unfold clock_text, fields_text, frac_text. cbn [fmap list_fmap concat]. by rewrite app_nil_r, <- !app_assoc.
  - split; [|done]. split; [done|lia|rewrite H3; lia|simpl; lia|repeat constructor; lia|]. rewrite length_fixed. split; [apply fixed_digs|lia].
Qed.

Lemma u32_abs_small z : - 2 ^ 31 <= z < 2 ^ 31 -> u32_abs z = Z.abs z.
Proof. intros Hz. unfold u32_abs, u32, wrap. destruct (z <? 0) eqn:E; bprop; [rewrite Z.mod_small by lia; lia|lia]. Qed.

Lemma minute_text z : - 2 ^ 31 <= z < 2 ^ 31 ->
  exists h m, fmt_minute z = sign_of z ++ clock_text (print_u 2 h) [m] None /\ clock_ok (print_u 2 h) [m] None /\
    Z.abs z = h * 60 + m /\ 0 <= h < 10 ^ 8 /\ 0 <= m < 60.
Proof.
  intros Hz. unfold fmt_minute. cbv zeta. rewrite u32_abs_small by done. set (a := Z.abs z). exists (a / 60), (a mod 60).
  destruct (print_hd 2 (a / 60)) as (H1 & H2 & H3 & _ & _); [lia|lia|]. split; [|split; [|lia] ].
  - rewrite (print_u_fixed 2 (a mod 60)) by lia. unfold clock_text, fields_text, frac_text. cbn [fmap list_fmap concat]. by rewrite !app_nil_r.
  - split; [done|lia|rewrite H3; lia|simpl; lia| |done]. repeat constructor; lia.
Qed.

Lemma second_text z : - 2 ^ 31 <= z < 2 ^ 31 ->
  exists h m s, fmt_second z = sign_of z ++ clock_text (print_u 2 h) [m; s] None /\ clock_ok (print_u 2 h) [m; s] None /\
    Z.abs z = h * 3600 + m * 60 + s /\ 0 <= h < 10 ^ 6 /\ 0 <= m < 60 /\ 0 <= s < 60.
Proof.
  intros Hz. unfold fmt_second. cbv zeta. rewrite u32_abs_small by done. set (a := Z.abs z). exists (a / 3600), (a / 60 mod 60), (a mod 60).
  destruct (print_hd 2 (a / 3600)) as (H1 & H2 & H3 & _ & _); [lia|lia|]. split; [|split; [|lia] ].
  - rewrite hms_text by lia. unfold clock_text, frac_text. by rewrite app_nil_r.
  - split; [done|lia|rewrite H3; lia|simpl; lia| |done]. repeat constructor; lia.
Qed.

(** The clock of a day. *)
Lemma day_clock h m s f : 0 <= h < 24 -> 0 <= m < 60 -> 0 <= s < 60 -> 0 <= f < 10 ^ 9 -> clock_ok (fixed 2 h) [m; s] (Some (fixed 9 f)).
Proof.
  intros Hh Hm Hs Hf. split; [apply fixed_digs|by rewrite length_fixed; lia|rewrite dv_fixed; [lia|simpl; lia]|simpl; lia|repeat constructor; lia|].
  rewrite length_fixed. split; [apply fixed_digs|lia].
Qed.

Lemma timespan_text z : INT64_MIN < z <= INT64_MAX ->
  exists d h m s f, fmt_timespan z = sign_of z ++ print_u 1 d ++ [68] ++ clock_text (fixed 2 h) [m; s] (Some (fixed 9 f)) /\
    Z.abs z = d * 86400000000000 + (h * 3600 + m * 60 + s) * 1000000000 + f /\
    0 <= d <= 106751 /\ 0 <= h < 24 /\ 0 <= m < 60 /\ 0 <= s < 60 /\ 0 <= f < 10 ^ 9.
Proof.
  unfold INT64_MIN, INT64_MAX. intros Hz. unfold fmt_timespan.
  assert (Hn : (if z <? 0 then u64 (u64 (- (z + 1)) + 1) else z) = Z.abs z).
  { destruct (z <? 0) eqn:E; bprop; [|lia]. rewrite (u64_small (- (z + 1))), u64_small by lia. lia. }
  rewrite Hn. cbv zeta. set (a := Z.abs z).
  exists (a / 86400000000000), (a / 3600000000000 mod 24), (a / 60000000000 mod 60), (a / 1000000000 mod 60), (a mod 1000000000).
  split; [|lia]. rewrite (print_u_fixed 2 (a / 3600000000000 mod 24)), (print_u_fixed 9) by lia. f_equal. f_equal. f_equal. unfold clock_text, frac_text.
  rewrite !print_u_fixed by lia. unfold fields_text. cbn [fmap list_fmap concat]. by rewrite app_nil_r, <- !app_assoc.
Qed.

Definition date_text (y m d : Z) : list Z := fixed 4 y ++ [46] ++ fixed 2 m ++ [46] ++ fixed 2 d.

Lemma date_valid_range y m d : q_calendar_date_valid y m d = true -> 1 <= y <= 9999 /\ 1 <= m <= 12 /\ 1 <= d <= 31.
Proof.
  intros Hv. apply date_valid_spec in Hv as (Hy & Hm & Hd). split; [done|]. split; [done|].
  assert (Hl : month_len (is_leap y) m <= 31) by (destruct (month_cases m Hm) as [->|[->|[->|[->|[->|[->|[->|[->|[->|[->|[->| ->] ] ] ] ] ] ] ] ] ] ];
    destruct (is_leap y); vm_compute; discriminate). lia.
Qed.

Lemma ymd_text_day days : -730119 <= days <= 2921939 ->
  exists y m d, date_to_ymd days = (y, m, d) /\ ymd_text (y, m, d) = date_text y m d /\ q_calendar_date_valid y m d = true /\
    q_calendar_days_from_civil y m d = days.
Proof.
  intros Hd. destruct (date_of_day days Hd) as (y & m & d & E & Hv & Hn). exists y, m, d. split; [done|]. pose proof (date_valid_range y m d Hv).
  split; [|split; [done|by rewrite days_from_civil_number] ]. unfold ymd_text, date_text. by rewrite !print_d_fixed by lia.
Qed.

Lemma timestamp_text z : INT64_MIN < z <= INT64_MAX ->
  exists y mo d h m s f, fmt_timestamp z = date_text y mo d ++ [68] ++ clock_text (fixed 2 h) [m; s] (Some (fixed 9 f)) /\
    q_calendar_date_valid y mo d = true /\
    z = q_calendar_days_from_civil y mo d * 86400000000000 + (h * 3600 + m * 60 + s) * 1000000000 + f /\
    0 <= h < 24 /\ 0 <= m < 60 /\ 0 <= s < 60 /\ 0 <= f < 10 ^ 9.
Proof.
  unfold INT64_MIN, INT64_MAX. intros Hz. unfold fmt_timestamp, ts_to_parts. cbv zeta. change NSECS_IN_DAY with 86400000000000.
  set (k := if Z.rem z 86400000000000 <? 0 then _ else _).
  assert (Hk : k = (z / 86400000000000, z mod 86400000000000)).
  { unfold k. destruct (_ <? 0) eqn:E; bprop; f_equal; Z.to_euclidean_division_equations; lia. }
  rewrite Hk. clear k Hk. set (days := z / 86400000000000). set (span := z mod 86400000000000).
  assert (Hsp : 0 <= span < 86400000000000 /\ z = days * 86400000000000 + span /\ -106752 <= days <= 106751) by (unfold days, span; lia).
  clearbody days span. destruct Hsp as (Hsp & Hv & Hd). rewrite i32_small by lia. destruct (ymd_text_day days ltac:(lia)) as (y & mo & d & -> & Ht & Hok & Hc).
  exists y, mo, d, (Z.quot (Z.quot span 1000000000) 3600), (Z.quot (Z.rem (Z.quot span 1000000000) 3600) 60), (Z.rem (Z.rem (Z.quot span 1000000000) 3600) 60), (Z.rem span 1000000000).
  set (h := Z.quot (Z.quot span 1000000000) 3600). set (m := Z.quot (Z.rem _ 3600) 60). set (s := Z.rem (Z.rem _ 3600) 60). set (f := Z.rem span 1000000000).
  assert (Hr : 0 <= h < 24 /\ 0 <= m < 60 /\ 0 <= s < 60 /\ 0 <= f < 10 ^ 9 /\ span = (h * 3600 + m * 60 + s) * 1000000000 + f).
  { unfold h, m, s, f. clear - Hsp. Z.to_euclidean_division_equations. lia. }
  clearbody h m s f. destruct Hr as (Hh & Hm & Hs & Hf & Hsv). split; [|rewrite Hc; split; [done|]; split; [lia|done] ].
  rewrite Ht, !print_d_fixed by (simpl; lia). unfold clock_text, fields_text, frac_text. cbn [fmap list_fmap concat]. by rewrite app_nil_r, <- !app_assoc.
Qed.

(** ** Read by [$] *)
Lemma skip_blanks_id p : 32 ∉ p -> skip_blanks p = p.
Proof. destruct p as [|c p]; [done|]. intros H. apply not_elem_of_cons in H as [Hc _]. cbn [skip_blanks]. by rewrite (proj2 (Z.eqb_neq _ _)). Qed.

Lemma trim_id p : 32 ∉ p -> trim p = p.
Proof. intros H. unfold trim. rewrite (skip_blanks_id p) by done. rewrite skip_blanks_id by (by rewrite elem_of_reverse). apply reverse_involutive. Qed.

(** Digits and punctuation. *)
Definition token_chars (p : list Z) : Prop := Forall (fun c => 45 <= c <= 58 \/ c = 68) p.

Lemma token_not (p : list Z) x : token_chars p -> ~ (45 <= x <= 58) -> x <> 68 -> x ∉ p.
Proof. intros H Hx Hx' Hin. unfold token_chars in H. rewrite Forall_forall in H. specialize (H x Hin). lia. Qed.

Lemma digs_chars ds : digs ds -> token_chars ds.
Proof. intros H. eapply Forall_impl; [exact H|]. cbn. lia. Qed.

Lemma app_chars p q : token_chars p -> token_chars q -> token_chars (p ++ q).
Proof. intros Hp Hq. apply Forall_app. done. Qed.

Lemma one_char c : 45 <= c <= 58 \/ c = 68 -> token_chars [c].
Proof. intros H. constructor; [done|constructor]. Qed.

Lemma clock_chars hd ms fr : clock_ok hd ms fr -> token_chars (clock_text hd ms fr).
Proof.
  intros [Hhd _ _ _ _ Hfr]. apply app_chars; [by apply digs_chars|]. apply app_chars.
  - unfold fields_text. induction ms as [|v ms IH]; [constructor|]. cbn [fmap list_fmap concat]. apply app_chars; [|done]. change (token_chars ([58] ++ fixed 2 v)). apply app_chars; [apply one_char; lia|apply digs_chars, fixed_digs].
  - destruct fr as [ds|]; [|constructor]. apply (app_chars [46]); [apply one_char; lia|apply digs_chars, Hfr].
Qed.

Lemma sign_chars z : token_chars (sign_of z).
Proof. unfold sign_of. destruct (z <? 0); [apply one_char; lia|constructor]. Qed.

Lemma date_chars y m d : token_chars (date_text y m d).
Proof. unfold date_text. do 4 (apply app_chars; [first [by apply digs_chars, fixed_digs|by apply one_char; lia]|]). apply digs_chars, fixed_digs. Qed.

Lemma clock_colon hd m ms fr : has_char 58 (clock_text hd (m :: ms) fr) = true.
Proof.
  unfold has_char. apply existsb_exists. exists 58. split; [|done]. unfold clock_text. apply in_or_app. right. apply in_or_app. left. by left.
Qed.

Lemma scan_whole hd ms fr : clock_ok hd ms fr ->
  tok_clock_scan (clock_text hd ms fr) (length (clock_text hd ms fr)) 0 =
    Some (length (clock_text hd ms fr), Clock (clock_secs hd ms) (frac_ns fr) (length hd) (S (length ms)) 0 (bool_decide (is_Some fr)) (frac_len fr) true).
Proof. intros Hok. apply (scan_at _ _ 0 hd ms fr []); [done|by rewrite app_nil_r|lia|by left]. Qed.

Lemma secs2 hd m s : clock_secs hd [m; s] = dv hd * 3600 + (m * 60 + s).
Proof. done. Qed.

Lemma secs1 hd m : clock_secs hd [m] = dv hd * 3600 + m * 60.
Proof. unfold clock_secs. cbn. lia. Qed.

Lemma tok_time_text hd m s f : clock_ok hd [m; s] (Some (fixed 3 f)) -> 0 <= f < 1000 -> (dv hd * 3600 + m * 60 + s) * 1000 + f <= INT32_MAX ->
  0 <= dv hd -> q_tok_time (clock_text hd [m; s] (Some (fixed 3 f))) = Some (Some ((dv hd * 3600 + m * 60 + s) * 1000 + f)).
Proof.
  intros Hok Hf Hb Hd. unfold q_tok_time, INT32_MAX in *. cbv zeta. rewrite clock_colon, scan_whole by done. cbn [mbind option_bind k_ok k_fields k_secs k_frac frac_ns]. rewrite Nat.eqb_refl. cbn [negb orb length Nat.eqb].
  rewrite secs2, length_fixed, dv_fixed by (simpl; lia). destruct Hok as [_ _ _ _ H60 _]. apply Forall_cons in H60 as [Hm H60]. apply Forall_cons in H60 as [Hs _].
  change (10 ^ (9 - 3%nat)) with 1000000. rewrite Z.quot_mul by done. rewrite !ovf_false by (unfold INT64_MIN, INT64_MAX; lia). cbn [orb].
  rewrite (proj2 (Z.ltb_ge _ _)) by lia. f_equal. f_equal. lia.
Qed.

Lemma tok_clock_text hd m ms fr : clock_ok hd (m :: ms) fr -> (match fr with Some ds => 0 < length ds | None => True end)%nat -> (fr = None \/ length ms = 1%nat) ->
  q_tok_clock (clock_text hd (m :: ms) fr) = Some (Some (clock_secs hd (m :: ms), frac_ns fr)).
Proof.
  intros Hok Hl Hd. unfold q_tok_clock. cbv zeta. rewrite clock_colon, scan_whole by done. cbn [mbind option_bind k_ok k_fields k_secs k_frac k_dot]. rewrite Nat.eqb_refl. cbn [negb orb length].
  destruct Hok as [_ _ _ _ _ Hfr]. unfold tok_clock_frac9. cbn [k_dot k_fd]. destruct fr as [ds|]; cbn [frac_len frac_ns].
  - destruct Hfr as [_ H9]. destruct Hd as [|Hd]; [done|]. rewrite Hd. rewrite (proj2 (Nat.eqb_neq _ _)) by lia. by rewrite (proj2 (Nat.leb_le _ _)) by lia.
  - done.
Qed.

Lemma all_digits_at p i ds r : drop i p = ds ++ r -> digs ds -> (0 < length ds)%nat -> tok_all_digits p i (length ds) = Some true.
Proof.
  intros H Hds Hl. unfold tok_all_digits. rewrite (proj2 (Nat.eqb_neq _ _)) by lia.
  rewrite (run_at (drop i p) (length ds) 0 ds r) by (first [done|lia|by left]). cbn [mbind option_bind]. by rewrite Nat.eqb_refl.
Qed.

Lemma digits_at_true p (l : list nat) : Forall (fun i => exists c, p !! i = Some c /\ 48 <= c <= 57) l -> digits_at p l = Some true.
Proof.
  induction 1 as [|i l (c & Hc & Hd) _ IH]; [done|]. cbn [digits_at]. rewrite Hc. cbn [mbind option_bind]. by rewrite (proj2 (tok_digit_ok c)).
Qed.

Lemma length_date y m d : length (date_text y m d) = 10%nat.
Proof. done. Qed.

Lemma tok_date_text ord y m d : 0 <= y < 10000 -> 0 <= m < 100 -> 0 <= d < 100 -> q_tok_date ord (date_text y m d) = Some (Some (y, m, d)).
Proof.
  intros Hy Hm Hd. unfold q_tok_date. rewrite length_date. change (10 =? 8)%nat with false. change (10 =? 10)%nat with true. cbv iota.
  change (date_text y m d !! 4%nat) with (Some 46). cbn [mbind option_bind]. change (46 =? 46) with true. cbn [orb]. unfold char_is.
  change (date_text y m d !! 7%nat) with (Some 46). cbn [mbind option_bind]. change (46 =? 46) with true. cbv iota.
  rewrite digits_at_true by (unfold date_text; rewrite fixed4, !fixed2; repeat constructor; (eexists; split; [reflexivity|lia])). cbn [mbind option_bind].
  rewrite (num4_at _ 0 y ([46] ++ fixed 2 m ++ [46] ++ fixed 2 d)) by done. cbn [mbind option_bind].
  rewrite (num2_at _ 5 m ([46] ++ fixed 2 d)) by done. cbn [mbind option_bind]. by rewrite (num2_at _ 8 d []) by done.
Qed.

Lemma tok_month_text y m : 1 <= y <= 9999 -> 1 <= m <= 12 -> q_tok_month (fixed 4 y ++ [46] ++ fixed 2 m) = Some (Some ((y - 2000) * 12 + (m - 1))).
Proof.
  intros Hy Hm. set (p := fixed 4 y ++ [46] ++ fixed 2 m). unfold q_tok_month. change (length p =? 7)%nat with true. cbv iota.
  assert (H4 : tok_all_digits p 0 4 = Some true) by (apply (all_digits_at p 0 (fixed 4 y) ([46] ++ fixed 2 m) eq_refl (fixed_digs 4 y)); cbn; lia).
  assert (H2 : tok_all_digits p 5 2 = Some true) by (apply (all_digits_at p 5 (fixed 2 m) [] eq_refl (fixed_digs 2 m)); cbn; lia).
  unfold and_then. rewrite H4. cbn [mbind option_bind]. change (p !! 4%nat) with (Some 46). cbn [mbind option_bind]. change (46 =? 46) with true. cbn [orb]. rewrite H2. cbn [mbind option_bind orb negb].
  rewrite (num4_at p 0 y ([46] ++ fixed 2 m)) by (done || lia). cbn [mbind option_bind]. rewrite (num2_at p 5 m []) by (done || lia). cbn [mbind option_bind].
  by rewrite !(proj2 (Z.ltb_ge _ _)) by lia.
Qed.

Lemma prefix_digs ds c r : digs ds -> tok_digit c = false -> prefix_while tok_digit (ds ++ c :: r) = ds.
Proof.
  intros Hds Hc. rewrite prefix_while_app by (eapply Forall_impl; [exact Hds|]; intros x Hx; by apply tok_digit_ok). cbn [prefix_while]. rewrite Hc. apply app_nil_r.
Qed.

Lemma checked_days_digs ds days : digs ds -> 0 <= days -> days * 10 ^ length ds + dv ds <= INT64_MAX -> checked_days ds days = Some (days * 10 ^ length ds + dv ds).
Proof.
  revert days. induction ds as [|c ds IH]; intros days Hds Hd Hb; cbn [checked_days].
  - change (dv []) with 0. change (10 ^ Z.of_nat (length (@nil Z))) with 1. f_equal. lia.
  - apply Forall_cons in Hds as [Hc Hds]. cbn [length] in *. rewrite dv_cons, Nat2Z.inj_succ, Z.pow_succ_r in * by lia. unfold dval in *.
    assert (Hdv : 0 <= dv ds) by (by apply dv_bounds, digs_IS). assert (Hp : 0 < 10 ^ length ds) by lia.
    assert (Hf2 : days * 10 + (c - 48) <= INT64_MAX) by nia.
    rewrite !ovf_false by (unfold INT64_MIN, INT64_MAX in *; lia). cbn [orb]. rewrite IH; [f_equal; lia|done|lia|lia].
Qed.

Lemma compose_small days ns : - INT64_MAX <= days * 86400000000000 + ns <= INT64_MAX -> ts_compose_checked days ns = Some (days * 86400000000000 + ns).
Proof. intros H. unfold ts_compose_checked, NS_PER_DAY. by rewrite !(proj2 (Z.ltb_ge _ _)) by lia. Qed.

Lemma clock_ns_text h m s f : 0 <= h < 24 -> 0 <= m < 60 -> 0 <= s < 60 -> 0 <= f < 10 ^ 9 ->
  q_tok_clock_ns (clock_text (fixed 2 h) [m; s] (Some (fixed 9 f))) = Some (Some ((h * 3600 + m * 60 + s) * 1000000000 + f)).
Proof.
  intros Hh Hm Hs Hf. unfold q_tok_clock_ns. rewrite tok_clock_text by (first [by apply day_clock|rewrite length_fixed; lia|by right]). cbn [mbind option_bind frac_ns].
  rewrite secs2, length_fixed, !dv_fixed by (simpl; lia). change (10 ^ (9 - 9%nat)) with 1. rewrite !ovf_false by (unfold INT64_MIN, INT64_MAX; lia). cbn [orb]. f_equal. f_equal. lia.
Qed.

Lemma tok_timespan_text d h m s f : 0 <= d <= 106751 -> 0 <= h < 24 -> 0 <= m < 60 -> 0 <= s < 60 -> 0 <= f < 10 ^ 9 ->
  d * 86400000000000 + ((h * 3600 + m * 60 + s) * 1000000000 + f) <= INT64_MAX ->
  q_tok_timespan_ns (print_u 1 d ++ [68] ++ clock_text (fixed 2 h) [m; s] (Some (fixed 9 f))) =
    Some (Some (d * 86400000000000 + ((h * 3600 + m * 60 + s) * 1000000000 + f))).
Proof.
  intros Hd Hh Hm Hs Hf Hb. destruct (print_hd 1 d) as (Hds & Hl & Hv & _); [lia|lia|]. set (ds := print_u 1 d) in *. unfold q_tok_timespan_ns. cbv zeta.
  cbn [app]. rewrite prefix_digs by done. rewrite length_app. cbn [length]. rewrite !(proj2 (Nat.ltb_lt _ _)) by lia. cbn [andb].
  unfold char_is. rewrite lookup_app_r, Nat.sub_diag by lia. cbn [mbind option_bind lookup list_lookup]. change (68 =? 68) with true. cbv iota.
  rewrite take_app_length, checked_days_digs by (done || lia || (rewrite Hv; unfold INT64_MAX; lia)).
  replace (drop (length ds + 1) (ds ++ 68 :: clock_text (fixed 2 h) [m; s] (Some (fixed 9 f)))) with (clock_text (fixed 2 h) [m; s] (Some (fixed 9 f)))
    by (rewrite <- drop_drop, drop_app_length; done).
  rewrite clock_ns_text by done. cbn [mbind option_bind]. rewrite compose_small; [f_equal; f_equal; lia|]. rewrite Hv. unfold INT64_MAX in *. lia.
Qed.

Lemma dot_of_date y m d r : dot_of (date_text y m d ++ r) = 4%nat.
Proof.
  unfold dot_of, date_text. rewrite <- app_assoc. rewrite prefix_while_app by (eapply Forall_impl; [apply fixed_digs|]; cbn; intros x Hx; by rewrite (proj2 (Z.eqb_neq x 46)) by lia).
  cbn [app prefix_while]. change (negb (46 =? 46)) with false. cbv iota. by rewrite app_nil_r, length_fixed.
Qed.

Lemma tok_ts_text ord y mo d h m s f : q_calendar_date_valid y mo d = true -> 0 <= h < 24 -> 0 <= m < 60 -> 0 <= s < 60 -> 0 <= f < 10 ^ 9 ->
  let v := q_calendar_days_from_civil y mo d * 86400000000000 + ((h * 3600 + m * 60 + s) * 1000000000 + f) in
  - INT64_MAX <= v <= INT64_MAX ->
  q_tok_ts ord (date_text y mo d ++ [68] ++ clock_text (fixed 2 h) [m; s] (Some (fixed 9 f))) = Some (Some v).
Proof.
  intros Hv Hh Hm Hs Hf v Hb. destruct (date_valid_range y mo d Hv) as (Hy & Hmo & Hd). set (ck := clock_text (fixed 2 h) [m; s] (Some (fixed 9 f))).
  unfold q_tok_ts. cbv zeta. rewrite dot_of_date. change (9 <=? 4)%nat with false. cbn [andb mbind option_bind].
  rewrite !length_app, length_date. change (10 <=? 10 + (length [68%Z] + length ck))%nat with true. cbv iota.
  change ((date_text y mo d ++ [68] ++ ck) !! 4%nat) with (Some 46). cbn [mbind option_bind]. change (46 =? 46) with true. cbn [orb mbind option_bind]. cbv iota. change (10 =? 0)%nat with false. cbv iota.
  replace (take 10 (date_text y mo d ++ [68] ++ ck)) with (date_text y mo d) by done. rewrite tok_date_text by lia. cbn [mbind option_bind]. rewrite Hv. cbn [negb].
  change ((10 <? 10 + (length [68%Z] + length ck))%nat) with true. cbv iota. change ((date_text y mo d ++ [68] ++ ck) !! 10%nat) with (Some 68).
  cbn [mbind option_bind]. change (68 =? 68) with true. cbn [orb negb]. change (drop (10 + 1) (date_text y mo d ++ [68] ++ ck)) with ck.
  assert (Ht : tok_tod_ns ck = Some (Some ((h * 3600 + m * 60 + s) * 1000000000 + f))).
  { unfold tok_tod_ns. pose proof (day_clock h m s f Hh Hm Hs Hf) as Hok. unfold ck. rewrite scan_whole by done. cbn [mbind option_bind k_ok k_hd k_fields].
    rewrite Nat.eqb_refl, length_fixed. cbn [negb orb length Nat.eqb]. unfold tok_clock_frac9. cbn [k_dot k_fd frac_len]. rewrite length_fixed.
    cbn [Nat.eqb andb negb Nat.leb]. rewrite andb_false_r. cbn [negb]. unfold tok_clock_ns. cbn [k_secs k_frac frac_ns].
    rewrite secs2, length_fixed, !dv_fixed by (simpl; lia). change (10 ^ (9 - 9%nat)) with 1. rewrite chk_ok by (unfold INT64_MIN, INT64_MAX; lia). cbn [mbind option_bind].
    rewrite chk_ok by (unfold INT64_MIN, INT64_MAX; lia). cbn [mbind option_bind]. f_equal. f_equal. lia. }
  rewrite Ht. cbn [mbind option_bind]. rewrite compose_small; [done|exact Hb].
Qed.

Lemma tok_bare_d_id ord p c : last p = Some c -> c <> 68 -> tok_ts_bare_d ord p = q_tok_ts ord p.
Proof.
  intros Hl Hc. unfold tok_ts_bare_d. cbv zeta. destruct (0 <? length p)%nat eqn:E; bprop; [|destruct p; [done|simpl in E; lia] ].
  rewrite last_lookup in Hl. replace (length p - 1)%nat with (pred (length p)) by lia. rewrite Hl. cbn [mbind option_bind]. by rewrite (proj2 (Z.eqb_neq c 68)).
Qed.

(** *** Integers *)
Lemma no_dot_ipv4 p : 46 ∉ p -> q_tok_ipv4 p = Some None.
Proof.
  intros H. unfold q_tok_ipv4, tok_ipv4_octets. cbn [ipv4_octets].
  destruct p as [|c p]; [done|]. change (0 <? length (c :: p))%nat with true. cbv iota. change ((c :: p) !! 0%nat) with (Some c). cbn [mbind option_bind].
  destruct (tok_digit c); cbn [negb]; [|done]. destruct (ipv4_octet (drop 0 (c :: p)) 0 0 0) as [ [i v]|]; [|done]. cbn [Nat.ltb Nat.leb].
  assert (Hd : (if (i <? length (c :: p))%nat then char_is (c :: p) i 46 else Some false) = Some false).
  { destruct (_ <? _)%nat eqn:E; [|done]. bprop. destruct (lookup_lt_is_Some_2 (c :: p) i E) as [x Hx]. unfold char_is. rewrite Hx. cbn [mbind option_bind].
    f_equal. apply Z.eqb_neq. intros ->. apply H. by eapply list_elem_of_lookup_2. }
  rewrite Hd. done.
Qed.

Definition int_text (z : Z) : list Z := sign_of z ++ print_u 1 (Z.abs z).

Lemma ndig_pos fuel z : (1 <= ndig fuel z)%nat.
Proof. destruct fuel as [|fuel]; cbn [ndig]; [lia|]. destruct (z <? 10); lia. Qed.

Lemma print_int z : print_d 1 z = int_text z.
Proof.
  unfold print_d, int_text, sign_of. destruct (z <? 0) eqn:E; bprop; [|by rewrite Z.abs_eq by lia]. rewrite Z.abs_neq by lia. unfold print_u. cbn [app].
  pose proof (ndig_pos 19 (- z)). by replace (Nat.max (1 - 1) (ndig 19 (- z))) with (Nat.max 1 (ndig 19 (- z))) by lia.
Qed.

Lemma int_text_chars z : INT64_MIN <= z <= INT64_MAX -> token_chars (int_text z).
Proof. unfold INT64_MIN, INT64_MAX. intros Hz. apply app_chars; [apply sign_chars|]. apply digs_chars. by apply print_hd; lia. Qed.

Lemma int_text_length z : INT64_MIN <= z <= INT64_MAX -> (1 <= length (int_text z) <= 21)%nat.
Proof.
  unfold INT64_MIN, INT64_MAX. intros Hz. unfold int_text. rewrite length_app. destruct (print_hd 1 (Z.abs z)) as (_ & Hl & _); [lia|lia|].
  unfold sign_of. destruct (z <? 0); simpl length in *; lia.
Qed.

Lemma digs_not_sign ds r : digs ds -> (0 < length ds)%nat -> exists c l, ds ++ r = c :: l /\ 48 <= c <= 57.
Proof. destruct ds as [|c ds]; [simpl; lia|]. intros [Hc _]%Forall_cons _. by exists c, (ds ++ r). Qed.

Lemma parse_int_text z r : INT64_MIN <= z <= INT64_MAX -> bytes_ok r -> (r = [] \/ exists c l, r = c :: l /\ tok_digit c = false) ->
  ray_parse_i64 (int_text z ++ r) = Some (length (int_text z), z).
Proof.
  intros Hz Hr Hend. pose proof (int_text_chars z Hz) as Hch. destruct (print_hd 1 (Z.abs z)) as (Hds & Hl & Hv & _); [lia|unfold INT64_MIN, INT64_MAX in Hz; lia|].
  rewrite ray_parse_i64_ref.
  2: { apply Forall_app. split; [|done]. eapply Forall_impl; [exact Hch|]. cbn. unfold byte_ok. lia. }
  unfold int_text in *. set (ds := print_u 1 (Z.abs z)) in *.
  assert (Hp : prefix_while IS_DIGIT (ds ++ r) = ds).
  { rewrite prefix_while_app by (by apply digs_IS). destruct Hend as [->|(c & l & -> & Hc)]; [apply app_nil_r|]. cbn [prefix_while].
    replace (IS_DIGIT c) with false; [apply app_nil_r|]. symmetry. unfold tok_digit in Hc. unfold IS_DIGIT. destruct (48 <=? c) eqn:E; [|done]. cbn [andb] in *. bprop. apply Z.ltb_ge. lia. }
  unfold i64_spec, sign_of in *. destruct (z <? 0) eqn:E; bprop; cbn [app] in *.
  - change (45 =? chMinus) with true. cbv iota. cbn [drop]. rewrite drop_0, Hp. cbv zeta. rewrite (proj2 (Nat.ltb_lt _ _)) by lia. fold (dv ds). rewrite Hv.
    rewrite !(proj2 (Z.leb_le _ _)) by (unfold INT64_MIN, INT64_MAX in *; lia). cbn [andb length]. f_equal. f_equal. lia.
  - destruct (digs_not_sign ds r Hds ltac:(lia)) as (c & l & El & Hc). rewrite El, (proj2 (Z.eqb_neq c chMinus)), (proj2 (Z.eqb_neq c chPlus)) by (unfold chMinus, chPlus; lia).
    cbn [drop]. rewrite <- El. rewrite Hp. cbv zeta. rewrite (proj2 (Nat.ltb_lt _ _)) by lia. fold (dv ds). rewrite Hv.
    rewrite !(proj2 (Z.leb_le _ _)) by (unfold INT64_MIN, INT64_MAX in *; lia). cbn [andb]. f_equal. f_equal. lia.
Qed.

Lemma tok_int_text t z : t ∈ [RAY_I64; RAY_I32; RAY_I16] ->
  match t with RAY_I64 => - INT64_MAX <= z <= INT64_MAX | RAY_I32 => - INT32_MAX <= z <= INT32_MAX | _ => -32767 <= z <= 32767 end ->
  q_tok_int t (int_text z) = Some (int_atom t z).
Proof.
  intros Ht Hz. assert (Hz' : - INT64_MAX <= z <= INT64_MAX) by (set_unfold in Ht; unfold INT32_MAX, INT64_MAX in *; destruct_or?; subst; lia).
  assert (Hzz : INT64_MIN <= z <= INT64_MAX) by (unfold INT64_MIN, INT64_MAX in *; lia). unfold q_tok_int.
  rewrite no_dot_ipv4.
  2: { unfold int_text, sign_of. intros Hin. destruct (print_hd 1 (Z.abs z)) as (Hds & _); [lia|unfold INT64_MAX in *; lia|]. apply elem_of_app in Hin as [Hin|Hin].
       - destruct (z <? 0); [|by apply elem_of_nil in Hin]. apply list_elem_of_singleton in Hin. done.
       - unfold digs in Hds. rewrite Forall_forall in Hds. specialize (Hds _ Hin). lia. }
  replace (if bool_decide (t = RAY_I32) then Some None else Some None) with (Some (@None Z)) by (by destruct (bool_decide _)). cbn [mbind option_bind].
  pose proof (int_text_length z Hzz). rewrite (proj2 (Nat.eqb_neq _ _)) by lia. pose proof (parse_int_text z [] Hzz ltac:(constructor) ltac:(by left)) as Hp. rewrite app_nil_r in Hp. rewrite Hp.
  rewrite Nat.eqb_refl. cbn [negb orb]. set_unfold in Ht. destruct_or?; subst; cbv zeta.
  - rewrite (proj2 (Z.eqb_neq _ _)); [done|]. unfold INT64_MIN, INT64_MAX in *. lia.
  - by rewrite !(proj2 (Z.ltb_ge _ _)) by lia.
  - by rewrite !(proj2 (Z.ltb_ge _ _)) by lia.
Qed.

(** *** Guids *)
Lemma hex_chr_val d : 0 <= d < 16 -> tok_hexval (hex_chr d) = d /\ hex_chr d <> 32.
Proof.
  intros Hd. assert (H : forallb (fun d => (tok_hexval (hex_chr d) =? d) && negb (hex_chr d =? 32)) (seqZ 0 16) = true) by (vm_compute; reflexivity).
  rewrite forallb_forall in H. specialize (H d ltac:(apply list_elem_of_In, elem_of_seqZ; lia)). bprop. done.
Qed.

Lemma nibbles b : byte_ok b -> 0 <= Z.shiftr b 4 < 16 /\ 0 <= Z.land b 0xf < 16 /\ u8 (Z.lor (Z.shiftl (Z.shiftr b 4) 4) (Z.land b 0xf)) = b.
Proof.
  intros Hb. revert b Hb. apply (byte_all (fun b => 0 <= Z.shiftr b 4 < 16 /\ 0 <= Z.land b 0xf < 16 /\ u8 (Z.lor (Z.shiftl (Z.shiftr b 4) 4) (Z.land b 0xf)) = b)).
  vm_compute. reflexivity.
Qed.

Definition hex2 (b : Z) : list Z := [hex_chr (Z.shiftr b 4); hex_chr (Z.land b 0xf)].
Definition hexes (l : list Z) : list Z := concat (hex2 <$> l).

Lemma length_hexes l : length (hexes l) = (2 * length l)%nat.
Proof. unfold hexes. induction l as [|b l IH]; [done|]. cbn [fmap list_fmap concat]. rewrite length_app, IH. simpl. lia. Qed.

Lemma guid_group_text l n out : (length out + 2 * length l < n)%nat -> guid_group l n out = out ++ hexes l.
Proof.
  revert out. induction l as [|b l IH]; intros out Hn; cbn [guid_group]; [by rewrite app_nil_r|]. cbn [length] in Hn. rewrite (proj2 (Nat.ltb_lt _ _)) by lia.
  rewrite IH by (rewrite length_app; simpl; lia). by rewrite <- app_assoc.
Qed.

Definition guid_text (b : list Z) : list Z :=
  hexes (take 4 b) ++ [45] ++ hexes (take 2 (drop 4 b)) ++ [45] ++ hexes (take 2 (drop 6 b)) ++ [45] ++ hexes (take 2 (drop 8 b)) ++ [45] ++ hexes (take 6 (drop 10 b)).

Ltac guid_len := rewrite ?length_app, ?length_hexes, ?length_take, ?length_drop; cbn [length]; lia.

Lemma guid_tok_text b n : length b = 16%nat -> (37 <= n)%nat -> guid_tok b n = guid_text b /\ length (guid_text b) = 36%nat.
Proof.
  intros Hb Hn. assert (Hl : length (guid_text b) = 36%nat) by (unfold guid_text; guid_len). split; [|done].
  unfold guid_tok. rewrite (proj2 (Nat.eqb_neq n 0)) by lia. cbv zeta.
  assert (Hdash : forall o, (length o + 1 < n)%nat -> (if (length o + 1 <? n)%nat then o ++ [45] else o) = o ++ [45]) by (intros o Ho; by rewrite (proj2 (Nat.ltb_lt _ _))).
  set (o1 := hexes (take 4 b)). set (o2 := (o1 ++ [45]) ++ hexes (take 2 (drop 4 b))). set (o3 := (o2 ++ [45]) ++ hexes (take 2 (drop 6 b))).
  set (o4 := (o3 ++ [45]) ++ hexes (take 2 (drop 8 b))).
  assert (Ho : length o1 = 8%nat /\ length o2 = 13%nat /\ length o3 = 18%nat /\ length o4 = 23%nat) by (unfold o4, o3, o2, o1; split_and!; guid_len).
  destruct Ho as (H1 & H2 & H3 & H4).
  rewrite (guid_group_text (take 4 b)) by guid_len. cbn [app]. fold o1. rewrite (Hdash o1) by lia.
  rewrite (guid_group_text (take 2 (drop 4 b))) by (rewrite length_app; guid_len). fold o2. rewrite (Hdash o2) by lia.
  rewrite (guid_group_text (take 2 (drop 6 b))) by (rewrite length_app; guid_len). fold o3. rewrite (Hdash o3) by lia.
  rewrite (guid_group_text (take 2 (drop 8 b))) by (rewrite length_app; guid_len). fold o4. rewrite (Hdash o4) by lia.
  rewrite (guid_group_text (take 6 (drop 10 b))) by (rewrite length_app; guid_len).
  assert (Ht : (o4 ++ [45]) ++ hexes (take 6 (drop 10 b)) = guid_text b) by (unfold o4, o3, o2, o1, guid_text; by rewrite <- !app_assoc).
  rewrite Ht. by rewrite Hl, (proj2 (Nat.ltb_lt _ _)) by lia.
Qed.

(** The loop of the uuid over one group, and over a dash. *)
Lemma uuid_group fuel p i out l r : drop i p = hexes l ++ r -> bytes_ok l -> (length out + length l <= 16)%nat -> (i + 2 * length l <= 36)%nat ->
  (forall k, (k < length l)%nat -> uuid_dash (i + 2 * k) = false) ->
  uuid_loop (length l + fuel) p i out = uuid_loop fuel p (i + 2 * length l) (out ++ l).
Proof.
  revert i out. induction l as [|b l IH]; intros i out H Hb Hn Hi Hd; [by rewrite Nat.mul_0_r, Nat.add_0_r, app_nil_r|].
  apply Forall_cons in Hb as [Hb Hbl]. cbn [length] in *. cbn [Nat.add uuid_loop]. rewrite (proj2 (Nat.ltb_lt i 36)) by lia. cbn [negb]. fold (uuid_dash i).
  pose proof (Hd 0%nat ltac:(lia)) as Hd0. rewrite Nat.mul_0_r, Nat.add_0_r in Hd0. rewrite Hd0. unfold hexes in H. cbn [fmap list_fmap concat] in H. fold (hexes l) in H. unfold hex2 in H. cbn [app] in H.
  destruct (at_read p i _ _ H) as [Ha H1]. destruct (at_read p (S i) _ _ H1) as [Hc H2]. rewrite Ha, Hc. cbn [mbind option_bind].
  destruct (nibbles b Hb) as (Hh & Hlo & Hv). destruct (hex_chr_val _ Hh) as [-> _], (hex_chr_val _ Hlo) as [-> _].
  rewrite !(proj2 (Z.ltb_ge _ 0)) by lia. cbn [orb]. rewrite push16_ok by lia. cbn [mbind option_bind]. rewrite Hv. replace (i + 2)%nat with (S (S i)) by lia. rewrite IH.
  - rewrite <- app_assoc. cbn [app]. f_equal. lia.
  - exact H2.
  - done.
  - rewrite length_app. simpl. lia.
  - lia.
  - intros k Hk. specialize (Hd (S k) ltac:(lia)). by replace (S (S i) + 2 * k)%nat with (i + 2 * S k)%nat by lia.
Qed.

Lemma uuid_over_dash fuel p i out r : drop i p = 45 :: r -> (i < 36)%nat -> uuid_dash i = true -> uuid_loop (S fuel) p i out = uuid_loop fuel p (S i) out.
Proof.
  intros H Hi Hd. cbn [uuid_loop]. rewrite (proj2 (Nat.ltb_lt i 36)) by lia. cbn [negb]. fold (uuid_dash i). rewrite Hd. destruct (at_read p i _ _ H) as [-> _]. done.
Qed.

(** A group of [k] bytes. *)
Lemma uuid_groupk (fuel k : nat) p i out l r : length l = k -> drop i p = hexes l ++ r -> bytes_ok l -> (length out + k <= 16)%nat -> (i + 2 * k <= 36)%nat ->
  forallb (fun j => negb (uuid_dash (i + 2 * j))) (seq 0 k) = true -> uuid_loop (k + fuel) p i out = uuid_loop fuel p (i + 2 * k) (out ++ l).
Proof.
  intros <- H Hb Hn Hi Hd. apply (uuid_group fuel p i out l r); [done|done|done|done|]. rewrite forallb_forall in Hd. intros j Hj.
  apply negb_true_iff, Hd, in_seq. lia.
Qed.

(** A dash and a group. *)
Lemma uuid_dashk (fuel k : nat) p i out l r : length l = k -> drop i p = 45 :: hexes l ++ r -> bytes_ok l -> (length out + k <= 16)%nat -> (S i + 2 * k <= 36)%nat ->
  uuid_dash i = true -> forallb (fun j => negb (uuid_dash (S i + 2 * j))) (seq 0 k) = true ->
  uuid_loop (S (k + fuel)) p i out = uuid_loop fuel p (S i + 2 * k) (out ++ l).
Proof.
  intros Hk H Hb Hn Hi Hd Hds. rewrite (uuid_over_dash _ p i out _ H ltac:(lia) Hd). destruct (at_read p i _ _ H) as [_ H1].
  by apply (uuid_groupk fuel k p (S i) out l r).
Qed.

Lemma uuid_end fuel p out : uuid_loop (S fuel) p 36 out = Some (Some out).
Proof. done. Qed.

Lemma tok_uuid_text b : length b = 16%nat -> bytes_ok b -> q_tok_uuid (guid_text b) = Some (Some b).
Proof.
  intros Hl Hb. destruct (guid_tok_text b 37 Hl ltac:(lia)) as [_ Hlen]. unfold q_tok_uuid. rewrite Hlen. change (36 =? 36)%nat with true. cbn [negb].
  set (p := guid_text b). set (g1 := take 4 b). set (g2 := take 2 (drop 4 b)). set (g3 := take 2 (drop 6 b)). set (g4 := take 2 (drop 8 b)). set (g5 := take 6 (drop 10 b)).
  assert (Hg : length g1 = 4%nat /\ length g2 = 2%nat /\ length g3 = 2%nat /\ length g4 = 2%nat /\ length g5 = 6%nat) by (unfold g1, g2, g3, g4, g5; rewrite !length_take, !length_drop, Hl; done).
  destruct Hg as (L1 & L2 & L3 & L4 & L5).
  assert (Hbs : bytes_ok g1 /\ bytes_ok g2 /\ bytes_ok g3 /\ bytes_ok g4 /\ bytes_ok g5) by (unfold g1, g2, g3, g4, g5, bytes_ok; split_and!; by repeat first [apply Forall_take|apply Forall_drop]).
  destruct Hbs as (B1 & B2 & B3 & B4 & B5).
  assert (P0 : drop 0 p = hexes g1 ++ 45 :: hexes g2 ++ 45 :: hexes g3 ++ 45 :: hexes g4 ++ 45 :: hexes g5 ++ []) by (rewrite app_nil_r; done).
  pose proof (at_app p 0 _ _ P0) as P8. rewrite length_hexes, L1 in P8. destruct (at_read p _ _ _ P8) as [_ P9].
  pose proof (at_app p _ _ _ P9) as P13. rewrite length_hexes, L2 in P13. destruct (at_read p _ _ _ P13) as [_ P14].
  pose proof (at_app p _ _ _ P14) as P18. rewrite length_hexes, L3 in P18. destruct (at_read p _ _ _ P18) as [_ P19].
  pose proof (at_app p _ _ _ P19) as P23. rewrite length_hexes, L4 in P23. destruct (at_read p _ _ _ P23) as [_ P24].
  etransitivity; [exact (f_equal _ (uuid_groupk 36 4 p 0 [] g1 _ L1 P0 B1 ltac:(simpl; lia) ltac:(lia) eq_refl))|].
  etransitivity; [exact (f_equal _ (uuid_dashk 33 2 p 8 g1 g2 _ L2 P8 B2 ltac:(lia) ltac:(lia) eq_refl eq_refl))|].
  etransitivity; [exact (f_equal _ (uuid_dashk 30 2 p 13 (g1 ++ g2) g3 _ L3 P13 B3 ltac:(rewrite length_app; lia) ltac:(lia) eq_refl eq_refl))|].
  etransitivity; [exact (f_equal _ (uuid_dashk 27 2 p 18 ((g1 ++ g2) ++ g3) g4 _ L4 P18 B4 ltac:(rewrite !length_app; lia) ltac:(lia) eq_refl eq_refl))|].
  etransitivity; [exact (f_equal _ (uuid_dashk 20 6 p 23 (((g1 ++ g2) ++ g3) ++ g4) g5 _ L5 P23 B5 ltac:(rewrite !length_app; lia) ltac:(lia) eq_refl eq_refl))|].
  assert (Hall : (((g1 ++ g2) ++ g3) ++ g4) ++ g5 = b).
  { unfold g1, g2, g3, g4, g5. clear - Hl. do 16 (destruct b as [|? b]; [done|]). destruct b; [done|simpl in Hl; lia]. }
  rewrite Hall. etransitivity; [exact (f_equal _ (uuid_end 19 p b))|]. cbn [mbind option_bind]. by rewrite Hl.
Qed.

(** *** Element tokens *)
Lemma sentinel_none32 x n : -2147483647 < x < 2147483647 -> sentinel_tok x 4 [] n = None.
Proof. intros Hx. unfold sentinel_tok. cbn [Nat.eqb]. change (4 =? 2)%nat with false. change (4 =? 4)%nat with true. cbv zeta iota. by rewrite !(proj2 (Z.eqb_neq _ _)) by lia. Qed.

Lemma sentinel_none64 x sfx n : - INT64_MAX < x < INT64_MAX -> sentinel_tok x 8 sfx n = None.
Proof. intros Hx. unfold sentinel_tok. change (8 =? 2)%nat with false. change (8 =? 4)%nat with false. cbv zeta iota. by rewrite !(proj2 (Z.eqb_neq _ _)) by lia. Qed.

Lemma snprintf_fits n t : (length t < n)%nat -> snprintf n t = t.
Proof. intros H. unfold snprintf. apply take_ge. lia. Qed.

Lemma via_atom_fits n t : (length t < n)%nat -> tok_via_atom t n = t.
Proof. intros H. unfold tok_via_atom. rewrite (proj2 (Nat.leb_gt _ _)) by lia. by apply take_ge. Qed.

Lemma month_parts_spec p : -23988 <= p <= 95999 ->
  exists y m, month_parts p = (y, m) /\ 1 <= y <= 9999 /\ 1 <= m <= 12 /\ (y - 2000) * 12 + (m - 1) = p.
Proof. intros Hp. eexists _, _. split; [reflexivity|]. destruct (0 <=? p) eqn:E; bprop; Z.to_euclidean_division_equations; lia. Qed.

(** A month shown with a year of four digits is in the calendar. *)
Lemma month_parts_range z y m : month_parts z = (y, m) -> 1 <= y <= 9999 -> -23988 <= z <= 95999.
Proof. unfold month_parts. intros [= E _] Hy. destruct (0 <=? z) eqn:E0; bprop; revert E; Z.to_euclidean_division_equations; lia. Qed.

(** The atoms of a boolean, integer, temporal or guid type but bytes and
    datetimes. *)
Definition elem_dom (v : lit_val) : Prop :=
  match v with
  | VAtom RAY_BOOL (PInt z) _ => 0 <= z <= 1
  | VAtom RAY_I16 (PInt z) _ => - 2 ^ 15 <= z < 2 ^ 15
  | VAtom (RAY_I32 | RAY_DATE | RAY_MONTH | RAY_TIME | RAY_MINUTE | RAY_SECOND) (PInt z) _ => - 2 ^ 31 <= z < 2 ^ 31
  | VAtom (RAY_I64 | RAY_TIMESTAMP | RAY_TIMESPAN) (PInt z) _ => INT64_MIN <= z <= INT64_MAX
  | VAtom RAY_GUID (PGuid b) _ => guid_ok b
  | _ => False
  end.

(** Those of them whose element form [$] reads. *)
Definition tok_dom (v : lit_val) : Prop :=
  match v with
  | VAtom RAY_BOOL (PInt z) _ => 0 <= z <= 1
  | VAtom RAY_I16 (PInt z) _ => -32767 <= z <= 32767
  | VAtom RAY_I32 (PInt z) _ => - INT32_MAX < z < INT32_MAX
  | VAtom (RAY_I64 | RAY_TIMESTAMP) (PInt z) _ => - INT64_MAX < z < INT64_MAX
  | VAtom RAY_DATE (PInt z) _ => -730119 <= z <= 2921939
  | VAtom RAY_MONTH (PInt z) _ => -23988 <= z <= 95999
  | VAtom (RAY_TIME | RAY_MINUTE | RAY_SECOND) (PInt z) _ => 0 <= z < INT32_MAX
  | VAtom RAY_TIMESPAN (PInt z) _ => 0 <= z < INT64_MAX
  | VAtom RAY_GUID (PGuid b) _ => guid_ok b
  | _ => False
  end.

Definition type_of (v : lit_val) : ray_type_e := match v with VAtom t _ _ | VVec t _ _ => t | VSym _ => RAY_SYM end.

#[export] Instance tok_dom_dec v : Decision (tok_dom v).
Proof.
  destruct v as [t [z|x|b] null| |]; cbn; try (apply _); destruct t; cbn; apply _.
Defined.

(** The same atom, its null bit off. *)
Definition unmarked (v : lit_val) : lit_val := match v with VAtom t p _ => VAtom t p false | _ => v end.

(** A temporal token is the text of its row. *)
Lemma temporal_tok (n : nat) t r z null sfx text : ttok_find t = Some r -> (tt_width r = 4%nat /\ -2147483647 < z < 2147483647 \/ tt_width r = 8%nat /\ - INT64_MAX < z < INT64_MAX) ->
  tt_lettered r && sfx = false -> tt_text r z n = text -> atom_tok (VAtom t (PInt z) null) sfx n = Some text.
Proof.
  intros Hr Hw Hs Ht. unfold atom_tok. rewrite Hr. unfold ttok_elem.
  assert (He : (if (tt_width r =? 4)%nat then i32 z else z) = z /\ sentinel_tok z (tt_width r) [] n = None).
  { destruct Hw as [ [-> Hz]|[-> Hz] ]; [change (4 =? 4)%nat with true; cbv iota; split; [apply i32_small; lia|by apply sentinel_none32]|].
    change (8 =? 4)%nat with false. cbv iota. split; [done|by apply sentinel_none64]. }
  destruct He as [-> ->]. rewrite Ht. revert Hs. by destruct t, (tt_lettered r), sfx.
Qed.

Lemma clock_text_length hd ms fr : clock_ok hd ms fr -> (length (clock_text hd ms fr) <= length hd + 16)%nat.
Proof.
  intros [_ _ _ Hms _ Hfr]. unfold clock_text. rewrite !length_app, length_fields. unfold frac_text. destruct fr as [ds|]; [destruct Hfr|]; simpl length; lia.
Qed.

Lemma last_digit_clock hd ms f k : (0 < k)%nat -> exists c, last (clock_text hd ms (Some (fixed k f))) = Some c /\ 48 <= c <= 57.
Proof.
  intros Hk. destruct k as [|k]; [lia|]. exists (48 + f mod 10). split; [|lia]. unfold clock_text. cbn [frac_text fixed].
  rewrite !app_assoc. change (46 :: fixed k (f / 10) ++ [48 + f mod 10]) with ((46 :: fixed k (f / 10)) ++ [48 + f mod 10]). rewrite app_assoc. apply last_snoc.
Qed.

Section element.
Context (ord : bool) (strtod : list Z -> nat * spec_float) (pow10 : Z -> spec_float) (buf_ok : nat -> bool) (n : nat) (Hn : (64 <= n)%nat).
Abbreviation tok t := (q_tok ord strtod pow10 buf_ok t).

Lemma read_int t z null : t ∈ [RAY_I64; RAY_I32; RAY_I16] -> tok_dom (VAtom t (PInt z) null) ->
  exists text, atom_tok (VAtom t (PInt z) null) false n = Some text /\ tok t text = Some (Some (VAtom t (PInt z) false)).
Proof using Hn.
  intros Ht Hd. exists (int_text z).
  assert (Hz : INT64_MIN < z < INT64_MAX) by (set_unfold in Ht; unfold INT64_MIN, INT64_MAX, INT32_MAX in *; destruct_or?; subst; cbn in Hd; unfold INT64_MAX, INT32_MAX in *; lia).
  pose proof (int_text_length z ltac:(lia)) as Hl. split.
  - assert (Hi : forall x w, x = z -> sentinel_tok z w [] n = None -> int_tok x w [] n = int_text z).
    { intros x w -> Hs. unfold int_tok. rewrite Hs. cbn [default]. rewrite app_nil_r, print_int. apply snprintf_fits. lia. }
    assert (Hsg : forall bits, - 2 ^ (bits - 1) <= z < 2 ^ (bits - 1) -> 0 < bits -> sgn bits z = z).
    { intros bits Hb H0. unfold sgn. assert (2 ^ bits = 2 * 2 ^ (bits - 1)) by (rewrite <- Z.pow_succ_r by lia; f_equal; lia). unfold wrap.
      destruct (Z.le_gt_cases 0 z); [rewrite Z.mod_small by lia; bif; lia|]. rewrite <- (Z.mod_add z 1) by lia. rewrite Z.mod_small by lia. bif; lia. }
    set_unfold in Ht. destruct_or?; subst; cbn in Hd; unfold atom_tok; cbn [ttok_find]; (change (ttok_find _) with (@None q_ttok); cbv iota; f_equal).
    + apply Hi; [done|]. apply sentinel_none64. unfold INT64_MIN in Hz. lia.
    + apply Hi; [apply (Hsg 32); unfold INT32_MAX in *; lia|]. apply sentinel_none32. unfold INT32_MAX in *. lia.
    + apply Hi; [apply (Hsg 16); lia|]. unfold sentinel_tok. change (2 =? 2)%nat with true. cbv zeta iota. by rewrite (proj2 (Z.eqb_neq _ _)) by lia.
  - assert (Htrim : trim (int_text z) = int_text z).
    { apply trim_id, token_not; [apply int_text_chars; lia|lia|done]. }
    unfold q_tok. rewrite Htrim. cbv zeta.
    assert (Hq : q_tok_int t (int_text z) = Some (int_atom t z)).
    { apply tok_int_text; [done|]. set_unfold in Ht. destruct_or?; subst; cbn in Hd; unfold INT32_MAX, INT64_MAX, INT64_MIN in *; lia. }
    set_unfold in Ht. destruct_or?; subst; rewrite Hq; done.
Qed.

Lemma read_clock t z null : t ∈ [RAY_TIME; RAY_MINUTE; RAY_SECOND] -> 0 <= z < INT32_MAX ->
  exists text, atom_tok (VAtom t (PInt z) null) false n = Some text /\ tok t text = Some (Some (VAtom t (PInt z) false)).
Proof using Hn.
  intros Ht Hz. unfold INT32_MAX in Hz. assert (Hs : sign_of z = []) by (unfold sign_of; by rewrite (proj2 (Z.ltb_ge _ _)) by lia).
  assert (Htrim : forall hd ms fr, clock_ok hd ms fr -> trim (clock_text hd ms fr) = clock_text hd ms fr) by (intros hd ms fr Hok; apply trim_id, token_not; [by apply clock_chars|lia|done]).
  assert (Hhd : forall h, 0 <= h < 10 ^ 8 -> (length (print_u 2 h) <= 20)%nat /\ dv (print_u 2 h) = h) by (intros h Hh; destruct (print_hd 2 h) as (_ & Hl & Hv & _); [lia|lia|]; lia).
  set_unfold in Ht. destruct Ht as [->|[->|[->|[] ] ] ].
  - destruct (time_text z ltac:(lia)) as (h & m & s & f & Hf & Hok & Hv & Hh & Hm & Hsec & Hfr). rewrite Hs in Hf. cbn [app] in Hf. destruct (Hhd h ltac:(lia)) as [Hl Hdv].
    pose proof (clock_text_length _ _ _ Hok). eexists. split; [eapply (temporal_tok n RAY_TIME); [reflexivity|left; split; [done|lia]|done|cbn [tt_text]; rewrite Hf; apply via_atom_fits; lia]|].
    unfold q_tok. rewrite Htrim by done. cbv zeta. rewrite tok_time_text by (rewrite ?Hdv; unfold INT32_MAX; done || lia). cbn [mbind option_bind or_null]. rewrite Hdv. unfold int_atom. repeat f_equal. lia.
  - destruct (minute_text z ltac:(lia)) as (h & m & Hf & Hok & Hv & Hh & Hm). rewrite Hs in Hf. cbn [app] in Hf. destruct (Hhd h ltac:(lia)) as [Hl Hdv].
    pose proof (clock_text_length _ _ _ Hok). eexists. split; [eapply (temporal_tok n RAY_MINUTE); [reflexivity|left; split; [done|lia]|done|cbn [tt_text]; rewrite Hf; apply via_atom_fits; lia]|].
    unfold q_tok. rewrite Htrim by done. cbv zeta. unfold q_tok_minute.
    assert (Hlong : (2 < length (clock_text (print_u 2 h) [m] None))%nat) by (destruct Hok as [_ Hl1 _ _ _ _]; unfold clock_text; rewrite !length_app, length_fields; simpl; lia).
    rewrite (proj2 (Nat.leb_gt _ 2)), andb_false_r by lia. cbn [mbind option_bind]. rewrite tok_clock_text by (done || by left). cbn [mbind option_bind]. rewrite secs1, Hdv.
    assert (Hq : Z.quot (h * 3600 + m * 60) 60 = z) by (Z.to_euclidean_division_equations; lia). rewrite Hq. rewrite (proj2 (Z.ltb_ge _ _)) by (unfold INT32_MAX; lia). done.
  - destruct (second_text z ltac:(lia)) as (h & m & s & Hf & Hok & Hv & Hh & Hm & Hsec). rewrite Hs in Hf. cbn [app] in Hf. destruct (Hhd h ltac:(lia)) as [Hl Hdv].
    pose proof (clock_text_length _ _ _ Hok). eexists. split; [eapply (temporal_tok n RAY_SECOND); [reflexivity|left; split; [done|lia]|done|cbn [tt_text]; rewrite Hf; apply via_atom_fits; lia]|].
    unfold q_tok. rewrite Htrim by done. cbv zeta. rewrite tok_clock_text by (done || by left). cbn [mbind option_bind]. rewrite secs2, Hdv.
    replace (h * 3600 + (m * 60 + s)) with z by lia. rewrite (proj2 (Z.ltb_ge _ _)) by (unfold INT32_MAX; lia). done.
Qed.

Lemma read_date z null : -730119 <= z <= 2921939 ->
  exists text, atom_tok (VAtom RAY_DATE (PInt z) null) false n = Some text /\ tok RAY_DATE text = Some (Some (VAtom RAY_DATE (PInt z) false)).
Proof using Hn.
  intros Hz. destruct (ymd_text_day z Hz) as (y & m & d & E & Ht & Hv & Hc). pose proof (date_valid_range y m d Hv) as Hr. exists (date_text y m d). split.
  - eapply temporal_tok; [reflexivity|left; split; [done|lia]|done|]. cbn [tt_text]. unfold date_payload. change (q_calendar_days_from_civil 1 1 1) with (-730119).
    change (q_calendar_days_from_civil 9999 12 31) with 2921939. rewrite !(proj2 (Z.ltb_ge _ _)) by lia. cbn [orb]. unfold fmt_date. rewrite E, Ht. apply via_atom_fits. rewrite length_date. lia.
  - unfold q_tok. rewrite trim_id by (apply token_not; [apply date_chars|lia|done]). cbv zeta. rewrite tok_date_text by lia. cbn [mbind option_bind]. rewrite Hv, Hc. done.
Qed.

Lemma read_month z null : -23988 <= z <= 95999 ->
  exists text, atom_tok (VAtom RAY_MONTH (PInt z) null) false n = Some text /\ tok RAY_MONTH text = Some (Some (VAtom RAY_MONTH (PInt z) false)).
Proof using Hn.
  intros Hz. destruct (month_parts_spec z Hz) as (y & m & E & Hy & Hm & Hv). exists (fixed 4 y ++ [46] ++ fixed 2 m). split.
  - eapply temporal_tok; [reflexivity|left; split; [done|lia]|done|]. cbn [tt_text]. unfold month_payload. rewrite E, !(proj2 (Z.ltb_ge _ _)) by lia. cbn [orb].
    rewrite !print_d_fixed by lia. apply snprintf_fits. cbn. lia.
  - unfold q_tok. rewrite trim_id.
    2: { apply token_not; [|lia|done]. apply app_chars; [apply digs_chars, fixed_digs|]. apply app_chars; [apply one_char; lia|apply digs_chars, fixed_digs]. }
    cbv zeta. rewrite tok_month_text by lia. cbn [mbind option_bind or_null]. unfold int_atom. by rewrite Hv.
Qed.

Lemma read_timespan z null : 0 <= z < INT64_MAX ->
  exists text, atom_tok (VAtom RAY_TIMESPAN (PInt z) null) false n = Some text /\ tok RAY_TIMESPAN text = Some (Some (VAtom RAY_TIMESPAN (PInt z) false)).
Proof using Hn.
  intros Hz. assert (Hs : sign_of z = []) by (unfold sign_of; by rewrite (proj2 (Z.ltb_ge _ _)) by lia).
  destruct (timespan_text z) as (d & h & m & s & f & Hf & Hv & Hd & Hh & Hm & Hsec & Hfr); [unfold INT64_MIN; lia|]. rewrite Hs, app_nil_l in Hf.
  destruct (print_hd 1 d) as (Hds & Hl & _); [lia|lia|]. pose proof (day_clock h m s f Hh Hm Hsec Hfr) as Hok. pose proof (clock_text_length _ _ _ Hok) as Hcl. rewrite length_fixed in Hcl.
  eexists. split; [eapply (temporal_tok n RAY_TIMESPAN); [reflexivity|right; split; [done|unfold INT64_MAX in *; lia]|done|cbn [tt_text]; rewrite Hf; apply via_atom_fits; rewrite length_app; rewrite length_app; change (length [68%Z]) with 1%nat; lia]|].
  unfold q_tok. rewrite trim_id.
  2: { apply token_not; [|lia|done]. apply app_chars; [by apply digs_chars|]. apply (app_chars [68]); [apply one_char; lia|by apply clock_chars]. }
  cbv zeta. rewrite (tok_timespan_text d h m s f) by (done || lia). cbn [mbind option_bind or_null]. unfold int_atom. repeat f_equal. lia.
Qed.

Lemma read_timestamp z null : - INT64_MAX < z < INT64_MAX ->
  exists text, atom_tok (VAtom RAY_TIMESTAMP (PInt z) null) false n = Some text /\ tok RAY_TIMESTAMP text = Some (Some (VAtom RAY_TIMESTAMP (PInt z) false)).
Proof using Hn.
  intros Hz. destruct (timestamp_text z) as (y & mo & d & h & m & s & f & Hf & Hval & Hv & Hh & Hm & Hsec & Hfr); [unfold INT64_MIN, INT64_MAX in *; lia|].
  pose proof (day_clock h m s f Hh Hm Hsec Hfr) as Hok. pose proof (clock_text_length _ _ _ Hok) as Hcl. rewrite length_fixed in Hcl.
  eexists. split; [eapply (temporal_tok n RAY_TIMESTAMP); [reflexivity|right; split; [done|unfold INT64_MAX in *; lia]|done|cbn [tt_text]; rewrite Hf; apply via_atom_fits; rewrite length_app, length_date; cbn [length app]; lia]|].
  unfold q_tok. rewrite trim_id.
  2: { apply token_not; [|lia|done]. apply app_chars; [apply date_chars|]. apply (app_chars [68]); [apply one_char; lia|by apply clock_chars]. }
  cbv zeta. destruct (last_digit_clock (fixed 2 h) [m; s] f 9 ltac:(lia)) as (c & Hc & Hcr).
  rewrite (tok_bare_d_id ord _ c); [|rewrite !last_app, Hc; done|lia]. rewrite tok_ts_text by (try done; unfold INT64_MAX in *; lia). cbn [mbind option_bind or_null]. unfold int_atom. repeat f_equal. lia.
Qed.

(** *** Element tokens that are none of the type *)
(** The token of the atom, of which [$] makes the null. *)
Definition reads_null (t : ray_type_e) (z : Z) (null : bool) : Prop :=
  exists text, atom_tok (VAtom t (PInt z) null) false n = Some text /\ tok t text = Some (Some (ray_typed_null t)).

Definition width_of (t : ray_type_e) : Z :=
  match t with RAY_I16 => 16 | RAY_I64 | RAY_TIMESPAN | RAY_TIMESTAMP => 64 | _ => 32 end.

Lemma null_sentinel t z null :
  t ∈ [RAY_I32; RAY_I64; RAY_DATE; RAY_MONTH; RAY_TIME; RAY_MINUTE; RAY_SECOND; RAY_TIMESPAN; RAY_TIMESTAMP] ->
  z ∈ [- 2 ^ (width_of t - 1); 2 ^ (width_of t - 1) - 1; - (2 ^ (width_of t - 1) - 1)] -> reads_null t z null.
Proof using Hn.
  unfold reads_null. assert (exists k, n = (64 + k)%nat) as [k ->] by (exists (n - 64)%nat; lia). clear Hn.
  intros Ht Hz. apply list_elem_of_In in Ht. cbn in Ht.
  repeat (destruct Ht as [<-|Ht]; [cbn in Hz; apply list_elem_of_In in Hz; cbn in Hz; destruct_or?; try done; subst z; eexists; (split; reflexivity)|]). done.
Qed.

Lemma null_short null : reads_null RAY_I16 (- 2 ^ 15) null.
Proof using Hn.
  unfold reads_null. assert (exists k, n = (64 + k)%nat) as [k ->] by (exists (n - 64)%nat; lia). eexists. split; reflexivity.
Qed.

(** A minus is no clock. *)
Lemma scan_minus r len : tok_clock_scan (45 :: r) len 0 = Some (0%nat, Clock 0 0 0 0 0 false 0 true).
Proof.
  unfold tok_clock_scan. rewrite drop_0. cbn [clock_hour]. change (tok_digit 45) with false. cbv iota.
  replace (if len - 0%nat <=? 0 then Some (0, true, 0%nat) else Some (0, true, 0%nat)) with (Some (0, true, 0%nat)) by (by destruct (_ <=? _)).
  unfold clock_dot, char_is, and_then. simpl. by destruct (_ <? len).
Qed.

Lemma minus_clock r : has_char 58 r = true -> q_tok_time (45 :: r) = Some None /\ q_tok_clock (45 :: r) = Some None.
Proof.
  intros Hr. assert (Hc : has_char 58 (45 :: r) = true) by exact Hr. unfold q_tok_time, q_tok_clock. cbv zeta. rewrite Hc, scan_minus. cbn [mbind option_bind length].
  change (0 =? S (length r))%nat with false. done.
Qed.

Lemma minus_text z : z < 0 -> sign_of z = [45].
Proof. intros Hz. unfold sign_of. by rewrite (proj2 (Z.ltb_lt _ _)). Qed.

Lemma null_clock t z null : t ∈ [RAY_TIME; RAY_MINUTE; RAY_SECOND] -> - INT32_MAX < z < 0 -> reads_null t z null.
Proof using Hn.
  intros Ht Hz. unfold INT32_MAX in Hz. pose proof (minus_text z ltac:(lia)) as Hs. unfold reads_null.
  assert (Htrim : forall hd ms fr, clock_ok hd ms fr -> trim ([45] ++ clock_text hd ms fr) = 45 :: clock_text hd ms fr).
  { intros hd ms fr Hok. apply trim_id, token_not; [|lia|done]. apply (app_chars [45]); [apply one_char; lia|by apply clock_chars]. }
  assert (Hhd : forall h, 0 <= h < 10 ^ 8 -> (length (print_u 2 h) <= 20)%nat) by (intros h Hh; destruct (print_hd 2 h) as (_ & Hl & _); [lia|lia|]; lia).
  set_unfold in Ht. destruct Ht as [->|[->|[->|[] ] ] ].
  - destruct (time_text z ltac:(lia)) as (h & m & s & f & Hf & Hok & _ & Hh & _). rewrite Hs in Hf. pose proof (clock_text_length _ _ _ Hok). specialize (Hhd h ltac:(lia)).
    eexists. split; [eapply (temporal_tok n RAY_TIME); [reflexivity|left; split; [done|lia]|done|cbn [tt_text]; rewrite Hf; apply via_atom_fits; rewrite length_app; change (length [45%Z]) with 1%nat; lia]|].
    unfold q_tok. rewrite Htrim by done. cbv zeta. by rewrite (proj1 (minus_clock _ (clock_colon _ _ _ _))).
  - destruct (minute_text z ltac:(lia)) as (h & m & Hf & Hok & _ & Hh & _). rewrite Hs in Hf. pose proof (clock_text_length _ _ _ Hok). specialize (Hhd h ltac:(lia)).
    eexists. split; [eapply (temporal_tok n RAY_MINUTE); [reflexivity|left; split; [done|lia]|done|cbn [tt_text]; rewrite Hf; apply via_atom_fits; rewrite length_app; change (length [45%Z]) with 1%nat; lia]|].
    unfold q_tok. rewrite Htrim by done. cbv zeta. unfold q_tok_minute.
    assert (Hlong : (2 < length (45%Z :: clock_text (print_u 2 h) [m] None))%nat) by (destruct Hok as [_ Hl1 _ _ _ _]; unfold clock_text; cbn [length]; rewrite !length_app, length_fields; simpl; lia).
    rewrite (proj2 (Nat.leb_gt _ 2)), andb_false_r by lia. cbn [mbind option_bind]. by rewrite (proj2 (minus_clock _ (clock_colon _ _ _ _))).
  - destruct (second_text z ltac:(lia)) as (h & m & s & Hf & Hok & _ & Hh & _). rewrite Hs in Hf. pose proof (clock_text_length _ _ _ Hok). specialize (Hhd h ltac:(lia)).
    eexists. split; [eapply (temporal_tok n RAY_SECOND); [reflexivity|left; split; [done|lia]|done|cbn [tt_text]; rewrite Hf; apply via_atom_fits; rewrite length_app; change (length [45%Z]) with 1%nat; lia]|].
    unfold q_tok. rewrite Htrim by done. cbv zeta. by rewrite (proj2 (minus_clock _ (clock_colon _ _ _ _))).
Qed.

Lemma null_timespan z null : - INT64_MAX < z < 0 -> reads_null RAY_TIMESPAN z null.
Proof using Hn.
  intros Hz. pose proof (minus_text z ltac:(lia)) as Hs. unfold reads_null.
  destruct (timespan_text z) as (d & h & m & s & f & Hf & Hv & Hd & Hh & Hm & Hsec & Hfr); [unfold INT64_MIN, INT64_MAX in *; lia|]. rewrite Hs in Hf.
  destruct (print_hd 1 d) as (Hds & Hl & _); [lia|lia|]. pose proof (day_clock h m s f Hh Hm Hsec Hfr) as Hok. pose proof (clock_text_length _ _ _ Hok) as Hcl. rewrite length_fixed in Hcl.
  eexists. split; [eapply (temporal_tok n RAY_TIMESPAN); [reflexivity|right; split; [done|unfold INT64_MAX in *; lia]|done|cbn [tt_text]; rewrite Hf; apply via_atom_fits; rewrite !length_app; change (length [68%Z]) with 1%nat; change (length [45%Z]) with 1%nat; lia]|].
  unfold q_tok. rewrite trim_id.
  2: { apply token_not; [|lia|done]. apply (app_chars [45]); [apply one_char; lia|]. apply app_chars; [by apply digs_chars|]. apply (app_chars [68]); [apply one_char; lia|by apply clock_chars]. }
  cbv zeta. unfold q_tok_timespan_ns. cbn [app prefix_while]. change (tok_digit 45) with false. cbv iota. cbn [length Nat.ltb Nat.leb andb mbind option_bind].
  assert (Hcol : has_char 58 (print_u 1 d ++ 68 :: clock_text (fixed 2 h) [m; s] (Some (fixed 9 f))) = true).
  { unfold has_char. rewrite existsb_app. cbn [existsb]. apply orb_true_iff. right. apply orb_true_iff. right. apply clock_colon. }
  unfold q_tok_clock_ns. by rewrite (proj2 (minus_clock _ Hcol)).
Qed.

Lemma null_calendar t z null : t ∈ [RAY_DATE; RAY_MONTH] -> - INT32_MAX < z < INT32_MAX -> ~ tok_dom (VAtom t (PInt z) null) -> reads_null t z null.
Proof using Hn.
  intros Ht Hz Hd. unfold INT32_MAX in Hz. unfold reads_null. set_unfold in Ht. destruct Ht as [->|[->|[] ] ]; cbn in Hd.
  - exists [48; 48; 48; 48; 46; 48; 48; 46; 48; 48]. split; [|reflexivity].
    eapply temporal_tok; [reflexivity|left; split; [done|lia]|done|]. cbn [tt_text]. unfold date_payload. change (q_calendar_days_from_civil 1 1 1) with (-730119).
    change (q_calendar_days_from_civil 9999 12 31) with 2921939. destruct (_ || _) eqn:E; [apply snprintf_fits; simpl; lia|bprop; lia].
  - exists [48; 48; 48; 48; 46; 48; 48]. split; [|reflexivity].
    eapply temporal_tok; [reflexivity|left; split; [done|lia]|done|]. cbn [tt_text]. unfold month_payload. destruct (month_parts z) as [y m] eqn:E.
    destruct (_ || _) eqn:Ey; [apply snprintf_fits; simpl; lia|bprop]. exfalso. by apply Hd, (month_parts_range z y m).
Qed.

(** Whatever [$] does not read back it reads as the null. *)
Lemma null_elsewhere t z null : elem_dom (VAtom t (PInt z) null) -> ~ tok_dom (VAtom t (PInt z) null) -> reads_null t z null.
Proof using Hn.
  intros He Hd.
  assert (H32 : z ∈ [- 2 ^ 31; 2 ^ 31 - 1; - (2 ^ 31 - 1)] \/ ~ (- 2 ^ 31 <= z < 2 ^ 31) \/ - INT32_MAX < z < INT32_MAX) by (unfold INT32_MAX; set_unfold; lia).
  assert (H64 : z ∈ [- 2 ^ 63; 2 ^ 63 - 1; - (2 ^ 63 - 1)] \/ ~ (INT64_MIN <= z <= INT64_MAX) \/ - INT64_MAX < z < INT64_MAX) by (unfold INT64_MAX, INT64_MIN; set_unfold; lia).
  destruct t; try done; cbn in He, Hd; unfold INT64_MAX, INT64_MIN, INT32_MAX in *.
  - replace z with (- 2 ^ 15) by lia. apply null_short.
  - apply null_sentinel; [set_solver|]. destruct H32 as [H|[H|H] ]; [exact H|lia|lia].
  - apply null_sentinel; [set_solver|]. destruct H64 as [H|[H|H] ]; [exact H|lia|lia].
  - apply null_sentinel; [set_solver|]. destruct H64 as [H|[H|H] ]; [exact H|lia|lia].
  - destruct H32 as [H|[H|H] ]; [apply null_sentinel; [set_solver|exact H]|lia|]. apply null_calendar; [set_solver|exact H|exact Hd].
  - destruct H32 as [H|[H|H] ]; [apply null_sentinel; [set_solver|exact H]|lia|]. apply null_calendar; [set_solver|exact H|exact Hd].
  - destruct H64 as [H|[H|H] ]; [apply null_sentinel; [set_solver|exact H]|lia|]. apply null_timespan. unfold INT64_MAX in *. lia.
  - destruct H32 as [H|[H|H] ]; [apply null_sentinel; [set_solver|exact H]|lia|]. apply null_clock; [set_solver|unfold INT32_MAX in *; lia].
  - destruct H32 as [H|[H|H] ]; [apply null_sentinel; [set_solver|exact H]|lia|]. apply null_clock; [set_solver|unfold INT32_MAX in *; lia].
  - destruct H32 as [H|[H|H] ]; [apply null_sentinel; [set_solver|exact H]|lia|]. apply null_clock; [set_solver|unfold INT32_MAX in *; lia].
Qed.

Lemma read_guid b null : guid_ok b ->
  exists text, atom_tok (VAtom RAY_GUID (PGuid b) null) false n = Some text /\ tok RAY_GUID text = Some (Some (VAtom RAY_GUID (PGuid b) false)).
Proof using Hn.
  intros [Hl Hb]. destruct (guid_tok_text b n Hl ltac:(lia)) as [Ht _]. exists (guid_text b). split; [cbn [atom_tok]; by rewrite Ht|].
  assert (Hh : forall l, bytes_ok l -> 32 ∉ hexes l).
  { unfold hexes. induction 1 as [|x l Hx _ IH]; [apply not_elem_of_nil|]. cbn [fmap list_fmap concat]. destruct (nibbles x Hx) as (H1 & H2 & _).
    destruct (hex_chr_val _ H1) as [_ N1], (hex_chr_val _ H2) as [_ N2]. unfold hex2. set_solver. }
  unfold q_tok. rewrite trim_id.
  2: { unfold guid_text. assert (Hp : forall i k, 32 ∉ hexes (take k (drop i b))) by (intros i k; by apply Hh, Forall_take, Forall_drop). pose proof (Hp 0%nat 4%nat) as H0.
       rewrite drop_0 in H0. rewrite !not_elem_of_app. split_and!; auto; by apply not_elem_of_cons; split; [|apply not_elem_of_nil]. }
  cbv zeta. by rewrite tok_uuid_text.
Qed.
End element.

(** *** The elements that read back *)
Lemma read_element ord strtod pow10 buf_ok (v : lit_val) (n : nat) :
  tok_dom v -> (64 <= n)%nat ->
  exists text, atom_tok v false n = Some text /\ q_tok ord strtod pow10 buf_ok (type_of v) text = Some (Some (unmarked v)).
Proof.
  intros Hd Hn. destruct v as [t p null| |]; [|done|done]. cbn [type_of unmarked]. destruct t, p as [z|x|b]; try done; cbn in Hd.
  - exists [48 + z]. assert (z = 0 \/ z = 1) as [-> | ->] by lia; (split; [|done]); cbn [atom_tok]; (change (ttok_find _) with (@None q_ttok); cbv iota; f_equal); by apply snprintf_fits; cbn; lia.
  - by apply read_guid.
  - apply read_int; [done|set_solver|done].
  - apply read_int; [done|set_solver|done].
  - apply read_int; [done|set_solver|done].
  - by apply read_timestamp.
  - by apply read_month.
  - by apply read_date.
  - by apply read_timespan.
  - apply read_clock; [done|set_solver|done].
  - apply read_clock; [done|set_solver|done].
  - apply read_clock; [done|set_solver|done].
Qed.

(** C9. What the console prints for an element - an atom of a boolean, integer,
    temporal or guid type, bytes and datetimes aside - and [$] of its type, for
    every payload in the width of the type and whatever the day order of the
    slash forms.  The same atom comes back, unmarked, exactly in [tok_dom]: a
    boolean, a guid, any short, int, long or timestamp but the sentinels, a date
    or month of the years 1 to 9999, a time, minute, second or timespan that is
    not negative nor a sentinel.  Every other element - the nulls, the
    infinities, the negative clocks and timespans, the dates and months
    outside those years - comes back as the null of its type. *)
Theorem element_roundtrip ord strtod pow10 buf_ok (v : lit_val) (n : nat) :
  elem_dom v -> (64 <= n)%nat ->
  exists text, atom_tok v false n = Some text /\
    (tok_dom v -> q_tok ord strtod pow10 buf_ok (type_of v) text = Some (Some (unmarked v))) /\
    (~ tok_dom v -> q_tok ord strtod pow10 buf_ok (type_of v) text = Some (Some (ray_typed_null (type_of v)))).
Proof.
  intros He Hn. destruct (decide (tok_dom v)) as [Hd|Hd].
  - destruct (read_element ord strtod pow10 buf_ok v n Hd Hn) as (text & Ht & Hr). by exists text.
  - destruct v as [t [z|x|b] null| |]; [|by destruct t|by destruct t|done|done].
    destruct (null_elsewhere ord strtod pow10 buf_ok n Hn t z null He Hd) as (text & Ht & Hr). by exists text.
Qed.

(** 2000.01.01D00:00:00.000000001, a guid, and the time -00:00:01.000. *)
Lemma element_roundtrip_witness :
  (exists text, atom_tok (VAtom RAY_TIMESTAMP (PInt 1) false) false 64 = Some text /\
    q_tok true no_float (fun _ => zero) (fun _ => true) RAY_TIMESTAMP text = Some (Some (VAtom RAY_TIMESTAMP (PInt 1) false))) /\
  (exists text, atom_tok (VAtom RAY_GUID (PGuid (replicate 16 255)) true) false 64 = Some text /\
    q_tok false no_float (fun _ => zero) (fun _ => true) RAY_GUID text = Some (Some (VAtom RAY_GUID (PGuid (replicate 16 255)) false))) /\
  exists text, atom_tok (VAtom RAY_TIME (PInt (-1000)) false) false 64 = Some text /\
    q_tok false no_float (fun _ => zero) (fun _ => true) RAY_TIME text = Some (Some (VAtom RAY_TIME (PInt (- 2 ^ 31)) true)).
Proof.
  split; [|split].
  - destruct (element_roundtrip true no_float (fun _ => zero) (fun _ => true) (VAtom RAY_TIMESTAMP (PInt 1) false) 64) as (text & Ht & Hr & _);
      [cbn; unfold INT64_MIN, INT64_MAX; lia|lia|]. exists text. split; [exact Ht|]. apply Hr. cbn. unfold INT64_MAX. lia.
  - assert (Hg : guid_ok (replicate 16 255)) by (split; [reflexivity|]; apply Forall_replicate; unfold byte_ok; lia).
    destruct (element_roundtrip false no_float (fun _ => zero) (fun _ => true) (VAtom RAY_GUID (PGuid (replicate 16 255)) true) 64) as (text & Ht & Hr & _);
      [exact Hg|lia|]. exists text. split; [exact Ht|]. by apply Hr.
  - destruct (element_roundtrip false no_float (fun _ => zero) (fun _ => true) (VAtom RAY_TIME (PInt (-1000)) false) 64) as (text & Ht & _ & Hr);
      [cbn; lia|lia|]. exists text. split; [exact Ht|]. apply Hr. cbn. lia.
Defined.
