(* ===== verification/LitTrip.v ===== *)
(** * Value tokens are literals ([src/qlang/q_fmt.c] and [src/qlang/parse/q_tok.c])

    The value form of an atom, with its letter, read by the literal scanner. *)
From Stdlib Require Import ZArith Lia String Floats.SpecFloat.
From S2P Require Import Prelude WireLz WireVal NumParse Calendar Tok TokStr TokSafe TokLit TokStrSafe Fmt TokScan TokTrip.

(** ** A source that is one token *)
(** No letter that makes a byte, a boolean or a special of it. *)
Definition plain (text : list Z) : Prop := Forall (fun c => c <> 0 /\ c ∉ [98; 120; 78; 110; 87; 119]) text.

Lemma chars_plain text : token_chars text -> plain text.
Proof. intros H. eapply Forall_impl; [exact H|]. cbn. intros c Hc. split; [lia|]. set_unfold. lia. Qed.

Lemma plain_app a b : plain a -> plain b -> plain (a ++ b).
Proof. intros. by apply Forall_app. Qed.

Lemma plain_read text i : plain text -> (i <= length text)%nat ->
  exists c, (text ++ [0]) !! i = Some c /\ (c ∉ [98; 120; 78; 110; 87; 119]) /\ (c <> 0 -> (i < length text)%nat).
Proof.
  intros H Hi. destruct (decide (i = length text)) as [->|].
  - exists 0. rewrite list_lookup_middle by done. split; [done|]. split; [set_solver|done].
  - destruct (lookup_lt_is_Some_2 text i ltac:(lia)) as [c Hc]. exists c. rewrite lookup_app_l by lia. split; [done|]. split; [|lia].
    unfold plain in H. rewrite Forall_forall in H. apply (H c). by eapply list_elem_of_lookup_2.
Qed.

Lemma sign_text z c r : 48 <= c <= 57 -> glued_sign (sign_of z ++ c :: r) 0 = Some (z <? 0, length (sign_of z)).
Proof.
  intros Hc. unfold glued_sign, sign_of, char_is. destruct (z <? 0); cbn; [done|]. by rewrite (proj2 (Z.eqb_neq c 45)) by lia.
Qed.

Lemma cstr_text text : 0 ∉ text -> cstr (text ++ [0]) = Some text.
Proof.
  induction text as [|c l IH]; intros H; [done|]. apply not_elem_of_cons in H as [Hc Hl]. cbn [cstr app]. rewrite (proj2 (Z.eqb_neq c 0)) by lia. by rewrite IH.
Qed.

Lemma run_while_end (f : Z -> bool) text r : f 0 = false -> run_while f (text ++ [0]) = Some r -> (r <= length text)%nat.
Proof. intros H0 Hr. destruct (run_while_ok f text H0) as (r' & Hr' & Hl & _). assert (r = r') as -> by congruence. done. Qed.

Lemma special_plain text : plain text -> lit_special (text ++ [0]) 0 = Some Miss.
Proof.
  intros H. unfold lit_special, glued_sign, char_is. destruct (plain_read text 0 H ltac:(lia)) as (c0 & H0 & _ & L0). rewrite H0. cbn [mbind option_bind].
  set (q := if c0 =? 45 then 1%nat else 0%nat). assert (Hq : (q <= length text)%nat).
  { unfold q. destruct (c0 =? 45) eqn:E; bprop; [|lia]. specialize (L0 ltac:(lia)). lia. }
  destruct (plain_read text q H Hq) as (c1 & H1 & _ & L1). rewrite H1. cbn [mbind option_bind]. destruct (c1 =? 48) eqn:E1; cbn [negb]; bprop; [|done].
  specialize (L1 ltac:(lia)). destruct (plain_read text (S q) H ltac:(lia)) as (k & Hk & Hin & _). rewrite Hk. cbn [mbind option_bind]. set_unfold in Hin.
  rewrite (proj2 (Z.eqb_neq k 78)), (proj2 (Z.eqb_neq k 110)), (proj2 (Z.eqb_neq k 87)), (proj2 (Z.eqb_neq k 119)) by (intros ->; naive_solver). done.
Qed.

(** A token without a letter is the value of its element. *)
Lemma letter_end text x : q_tok_type_letter (text ++ [0]) (length text) 0 x = Some (length text, 0).
Proof. unfold q_tok_type_letter. rewrite list_lookup_middle by done. done. Qed.

Lemma strand_time (s : list Z) p k t v :
  (k, t) ∈ [(Q_TOK_EL_TS, RAY_TIMESTAMP); (Q_TOK_EL_DATE, RAY_DATE); (Q_TOK_EL_TIME, RAY_TIME); (Q_TOK_EL_MINUTE, RAY_MINUTE); (Q_TOK_EL_SECOND, RAY_SECOND); (Q_TOK_EL_TIMESPAN, RAY_TIMESPAN)] ->
  lit_strand s 0 p [el_int k v] 0 = Some (inr (VAtom t (PInt v) false)).
Proof. intros H. set_unfold in H. destruct_or?; simplify_eq; reflexivity. Qed.

(** *** Shapes that are not dates *)
Lemma and_then_false a : (Some false &&& a) = Some false.
Proof. done. Qed.

(** Digits and then no dot: neither a date nor a month. *)
Lemma no_date_shape s q ds c r : drop q s = ds ++ c :: r -> digs ds -> tok_digit c = false -> c <> 46 -> q + length ds < SIZE_MAX ->
  (run_is s q 4 &&& char_is s (q + 4) 46) = Some false.
Proof.
  intros H Hds Hc H46 Hn. unfold run_is, tok_dig_run, and_then. rewrite (run_at s SIZE_MAX q ds (c :: r) H Hds); [|lia|right; split; [lia|by exists c, r] ].
  cbn [mbind option_bind]. destruct (length ds =? 4)%nat eqn:E; bprop; [|done]. pose proof (at_app s q ds (c :: r) H) as H1. destruct (at_read s _ _ _ H1) as [Hr _].
  rewrite E in Hr. unfold char_is. rewrite Hr. cbn [mbind option_bind]. by rewrite (proj2 (Z.eqb_neq c 46)).
Qed.

Lemma scan_digits s q ds c r : drop q s = ds ++ c :: r -> digs ds -> (0 < length ds)%nat -> clock_bad c = false -> length s < SIZE_MAX -> last s = Some 0 ->
  exists x ok, tok_clock_scan s SIZE_MAX q = Some ((q + length ds)%nat, Clock x 0 (length ds) 1 0 false 0 ok).
Proof.
  intros H Hds Hl Hc Hlen H0. assert (Hc' : tok_digit c = false /\ (c =? 58) = false /\ (c =? 46) = false).
  { unfold clock_bad in Hc. apply orb_false_iff in Hc as [Hc ?]. by apply orb_false_iff in Hc as [? ?]. }
  destruct Hc' as (Hd & H58 & H46). pose proof (at_app s q ds (c :: r) H) as H1. pose proof (at_length s q ds (c :: r) H Hl) as Hls. cbn [length] in Hls.
  assert (Hst : stops s SIZE_MAX (length s - 1)).
  { split; [lia|]. right. split; [|unfold SIZE_MAX in *; lia]. rewrite last_lookup in H0. by replace (length s - 1)%nat with (pred (length s)) by lia. }
  unfold tok_clock_scan. destruct (hour_ok s SIZE_MAX (length s - 1) q Hst ltac:(lia)) as (f & ok & hd & -> & Hrun & _).
  assert (hd = length ds) as ->.
  { destruct (Nat.lt_trichotomy hd (length ds)) as [Hlt|[Heq|Hlt]]; [|done|].
    - destruct (run_stop _ _ _ _ _ Hrun) as (c' & Hc' & Hb'); [lia|]. rewrite (at_lookup s q _ hd H), lookup_app_l in Hc' by done.
      apply list_elem_of_lookup_2 in Hc'. unfold digs in Hds. rewrite Forall_forall in Hds. specialize (Hds c' Hc'). by rewrite (proj2 (tok_digit_ok c')) in Hb'.
    - destruct (run_digits _ _ _ _ _ Hrun (length ds) Hlt) as (c' & Hc' & Hb'). destruct (at_read s _ _ _ H1) as [Hr _]. congruence. }
  cbn [mbind option_bind]. rewrite (proj2 (Nat.ltb_lt 0 (length ds))) by done. replace (q + length ds)%Z with (Z.of_nat (q + length ds)) by lia.
  rewrite (field_stop 2 s SIZE_MAX (q + length ds) [f] ok (c :: r) H1) by (right; right; split; [lia|by exists c, r]). cbn [mbind option_bind].
  rewrite (fourth_at s SIZE_MAX (q + length ds) _ (c :: r) H1) by (right; split; [lia|by exists c, r]). cbn [mbind option_bind].
  rewrite (dot_at s SIZE_MAX (q + length ds) _ None (c :: r)); [|simpl; lia|done|exact H1|cbn [frac_text length]; lia|].
  2: { cbn [frac_text length]. rewrite Nat.add_0_r. right. split; [lia|by exists c, r]. }
  cbn [mbind option_bind frac_ns frac_len frac_text length]. rewrite Nat.add_0_r. by eexists _, _.
Qed.
Lemma end_ends (k : nat) f : k < SIZE_MAX -> f 0 = false -> ends SIZE_MAX k [0] f.
Proof. intros Hk Hf. right. split; [done|]. by exists 0, []. Qed.

Lemma float_shape_digs ds c r : digs ds -> tok_digit c = false -> c <> 46 -> c <> 101 -> c <> 69 -> forall saw, float_shape (ds ++ c :: r) false saw = Some (false, saw || (0 <? length ds)%nat).
Proof.
  intros Hds Hc H46 He HE. induction ds as [|d ds IH]; intros saw; cbn [app float_shape].
  - rewrite Hc, (proj2 (Z.eqb_neq c 46)), (proj2 (Z.eqb_neq c 101)), (proj2 (Z.eqb_neq c 69)) by done. cbn. by rewrite orb_false_r.
  - apply Forall_cons in Hds as [Hd Hds]. rewrite (proj2 (tok_digit_ok d)) by done. rewrite IH by done. cbn. by rewrite orb_true_r.
Qed.

Lemma strand_int (s : list Z) p t bits letter z : (t, bits, letter) ∈ [(RAY_I16, 16, 104); (RAY_I32, 32, 105); (RAY_I64, 64, 0)] ->
  lit_strand s 0 p [el_int Q_TOK_EL_INT z] letter = Some (inr (VAtom t (PInt (sgn bits z)) false)).
Proof. intros H. set_unfold in H. destruct_or?; simplify_eq; reflexivity. Qed.

Lemma date_shape y m d c r : 0 <= y -> (c = 0 \/ c = 68) -> length (date_text y m d ++ c :: r) < SIZE_MAX ->
  let s := date_text y m d ++ c :: r in
  glued_sign s 0 = Some (false, 0%nat) /\
  (run_is s 0 4 &&& char_is s (0 + 4) 46 &&& run_is s (0 + 5) 2 &&& char_is s (0 + 7) 46 &&& run_is s (0 + 8) 2
    &&& (c ← s !! (0 + 10)%nat; Some (negb (tok_digit c) && negb (c =? 46)))) = Some true.
Proof.
  intros Hy Hc Hl s. split.
  - unfold s, date_text. rewrite <- app_assoc. destruct (digs_not_sign (fixed 4 y) (([46] ++ fixed 2 m ++ [46] ++ fixed 2 d) ++ c :: r) (fixed_digs 4 y)) as (x & l & E & Hx); [rewrite length_fixed; lia|].
    rewrite E. pose proof (sign_text 0 x l Hx) as Hs. done.
  - rewrite length_app, length_date in Hl. cbn [length] in Hl.
    assert (P0 : drop 0 s = fixed 4 y ++ [46] ++ fixed 2 m ++ [46] ++ fixed 2 d ++ c :: r) by done.
    assert (P5 : drop 5 s = fixed 2 m ++ [46] ++ fixed 2 d ++ c :: r) by done. assert (P8 : drop 8 s = fixed 2 d ++ c :: r) by done.
    assert (Hr : forall i (k : nat) v r', drop i s = fixed k v ++ r' -> i + k < SIZE_MAX -> (exists x l, r' = x :: l /\ tok_digit x = false) -> run_is s i k = Some true).
    { intros i k v r' H Hi (x & l & -> & Hx). unfold run_is, tok_dig_run. rewrite (run_at s SIZE_MAX i (fixed k v) (x :: l) H (fixed_digs k v)); rewrite ?length_fixed; [|lia|right; split; [lia|by exists x, l] ].
      cbn [mbind option_bind]. by rewrite Nat.eqb_refl. }
    unfold and_then. rewrite (Hr 0%nat 4%nat y _ P0) by (done || by eexists _, _). rewrite (Hr (0 + 5)%nat 2%nat m _ P5) by (done || by eexists _, _).
    rewrite (Hr (0 + 8)%nat 2%nat d _ P8) by (first [done|eexists _, _; split; [reflexivity|destruct Hc as [->| ->]; done] ]).
    unfold char_is. change (s !! (0 + 4)%nat) with (Some 46). change (s !! (0 + 7)%nat) with (Some 46). change (s !! (0 + 10)%nat) with (Some c).
    cbn [mbind option_bind]. change (46 =? 46) with true. cbv iota. cbn [mbind option_bind]. by destruct Hc as [->| ->].
Qed.

Lemma date_parts y m d c r : 0 <= y < 10000 -> 0 <= m < 100 -> 0 <= d < 100 -> let s := date_text y m d ++ c :: r in
  num4 s 0 = Some y /\ num2 s (0 + 5) = Some m /\ num2 s (0 + 8) = Some d /\ s !! (0 + 10)%nat = Some c.
Proof.
  intros Hy Hm Hd s. split; [by apply (num4_at s 0 y ([46] ++ fixed 2 m ++ [46] ++ fixed 2 d ++ c :: r))|].
  split; [by apply (num2_at s 5 m ([46] ++ fixed 2 d ++ c :: r))|]. split; [by apply (num2_at s 8 d (c :: r))|done].
Qed.

(** A clock behind a D, at the end of the source. *)
Lemma clock_tail s q h m sec f r : drop q s = clock_text (fixed 2 h) [m; sec] (Some (fixed 9 f)) ++ 0 :: r -> length s < SIZE_MAX ->
  0 <= h < 24 -> 0 <= m < 60 -> 0 <= sec < 60 -> 0 <= f < 10 ^ 9 -> exists c,
  tok_clock_tail s q = Some (Some ((q + length (clock_text (fixed 2 h) [m; sec] (Some (fixed 9 f))))%nat, c)) /\
  tok_clock_ns c = Some ((h * 3600 + m * 60 + sec) * 1000000000 + f) /\ k_fields c = 3%nat /\ k_fd c = 9%nat /\
  s !! (q + length (clock_text (fixed 2 h) [m; sec] (Some (fixed 9 f))))%nat = Some 0.
Proof.
  intros H Hlen Hh Hm Hs Hf. pose proof (day_clock h m sec f Hh Hm Hs Hf) as Hok. set (ck := clock_text (fixed 2 h) [m; sec] (Some (fixed 9 f))) in *.
  assert (Hck : (0 < length ck)%nat) by (unfold ck, clock_text; rewrite length_app, length_fixed; lia). pose proof (at_length s q ck _ H Hck) as Hls. cbn [length] in Hls.
  unfold tok_clock_tail. rewrite (scan_at s SIZE_MAX q (fixed 2 h) [m; sec] (Some (fixed 9 f)) (0 :: r) Hok H).
  2: { fold ck. lia. }
  2: { fold ck. right. split; [lia|by exists 0, r]. }
  fold ck. cbn [mbind option_bind k_ok k_hd k_fields k_dot]. rewrite length_fixed. cbn [negb orb length andb]. change (2 <? 2)%nat with false. change (1 <? 3)%nat with true.
  change (2 =? 2)%nat with true. change (3 <? 3)%nat with false. cbn [andb negb orb]. change (0 <? 3)%nat with true. cbn [andb mbind option_bind orb].
  unfold tok_clock_frac9. cbn [k_dot k_fd frac_len]. rewrite length_fixed. change (9 =? 0)%nat with false. rewrite andb_false_r. change (9 <=? 9)%nat with true. cbn [negb andb mbind option_bind].
  eexists. split; [reflexivity|]. split; [|split; [done|split; [done|] ] ].
  - unfold tok_clock_ns. cbn [k_secs k_frac frac_ns]. rewrite secs2, length_fixed, !dv_fixed by (simpl; lia). change (10 ^ (9 - 9%nat)) with 1.
    rewrite chk_ok by (unfold INT64_MIN, INT64_MAX; lia). cbn [mbind option_bind]. rewrite chk_ok by (unfold INT64_MIN, INT64_MAX; lia). f_equal. lia.
  - pose proof (at_app s q ck _ H) as H1. by destruct (at_read s _ _ _ H1).
Qed.

(** ** Clocks *)
(** The clock arm on a clock of two hour digits, at the end of the source. *)
Lemma clock_arm_text z hd ms fr k v : clock_ok hd ms fr -> length hd = 2%nat -> let s := sign_of z ++ clock_text hd ms fr ++ [0] in length s < SIZE_MAX ->
  - INT64_MAX <= v <= INT64_MAX ->
  (length ms = 1%nat /\ fr = None /\ k = Q_TOK_EL_MINUTE /\ v = Z.quot (clock_secs hd ms) 60 \/
   length ms = 2%nat /\ fr = None /\ k = Q_TOK_EL_SECOND /\ v = clock_secs hd ms \/
   length ms = 2%nat /\ (exists f, fr = Some (fixed 3 f)) /\ k = Q_TOK_EL_TIME /\ v = clock_secs hd ms * 1000 + Z.quot (frac_ns fr) 1000000) ->
  tok_clock_arm s 0 = Some (Hit (length (sign_of z ++ clock_text hd ms fr)) (el_int k (if z <? 0 then - v else v))).
Proof.
  intros Hok H2 s Hlen Hv Hcase. assert (Hg : glued_sign s 0 = Some (z <? 0, length (sign_of z))).
  { destruct (digs_not_sign hd ((fields_text ms ++ frac_text fr) ++ [0]) (ck_hd _ _ _ Hok) ltac:(lia)) as (d & l & E & Hd). unfold s, clock_text. rewrite <- app_assoc, E. by apply sign_text. }
  assert (Hd : drop (length (sign_of z)) s = clock_text hd ms fr ++ [0]) by (unfold s; by rewrite drop_app_length).
  assert (Hl : length (sign_of z) + length (clock_text hd ms fr) < SIZE_MAX) by (unfold s in Hlen; rewrite !length_app in Hlen; lia).
  unfold tok_clock_arm. rewrite Hg. cbn [mbind option_bind]. rewrite (scan_at s SIZE_MAX _ hd ms fr [0] Hok Hd); [|lia|right; split; [lia|by exists 0, [] ] ].
  cbn [mbind option_bind k_hd k_dot k_fd k_fields k_secs k_frac k_ok]. rewrite H2. change (2 =? 2)%nat with true. cbn [andb].
  assert (Hend : s !! (length (sign_of z) + length (clock_text hd ms fr))%nat = Some 0).
  { pose proof (at_app s _ _ _ Hd) as H1. by destruct (at_read s _ _ _ H1). }
  rewrite length_app. assert (Hneg : negate (z <? 0) v = Some (if z <? 0 then - v else v)).
  { unfold negate. destruct (z <? 0); [|done]. apply chk_ok. unfold INT64_MIN, INT64_MAX in *. lia. }
  destruct Hcase as [(Hms & -> & -> & ->)|[(Hms & -> & -> & ->)|(Hms & (f & ->) & -> & ->)] ]; rewrite Hms; cbn [frac_len].
  - rewrite bool_decide_eq_false_2 by (intros []; done). change (0 =? 0)%nat with true. cbn [negb andb]. rewrite Hend. cbn [mbind option_bind]. change (negb (0 =? 58)) with true. change (2 =? 2)%nat with true. cbn [andb negb mbind option_bind]. by rewrite Hneg.
  - rewrite bool_decide_eq_false_2 by (intros []; done). change (0 =? 0)%nat with true. cbn [negb andb]. rewrite Hend. cbn [mbind option_bind]. change (negb (0 =? 58)) with true. change (3 =? 2)%nat with false. change (3 =? 3)%nat with true. cbn [andb negb mbind option_bind]. by rewrite Hneg.
  - rewrite bool_decide_eq_true_2 by (by eexists). cbn [negb andb mbind option_bind]. rewrite length_fixed. change (3 =? 3)%nat with true. change (1 <=? 3)%nat with true. change (3 <=? 3)%nat with true. cbn [andb].
    rewrite chk_ok by (unfold INT64_MIN, INT64_MAX in *; lia). cbn [mbind option_bind negb]. by rewrite Hneg.
Qed.

(** The days of a span. *)
Lemma span_days_text s q ds r : drop q s = ds ++ r -> digs ds -> (length ds <= 9)%nat -> span_days s q (length ds) = Some (dv ds).
Proof.
  intros H Hds Hl. unfold span_days.
  assert (Hlk : forall k, (k < length ds)%nat -> s !! (q + k)%nat = ds !! k) by (intros k Hk; rewrite (at_lookup s q _ k H); by apply lookup_app_l).
  enough (Hg : forall k, (k <= length ds)%nat -> fold_opt (fun days k => c ← s !! (q + k)%nat; t ← chk (days * 10); chk (t + (c - 48))) 0 (seq 0 k) = Some (dv (take k ds))).
  { rewrite Hg by lia. by rewrite take_ge by lia. }
  induction k as [|k IH]; intros Hk; [done|]. rewrite seq_S, fold_opt_snoc, IH by lia. cbn [mbind option_bind Nat.add]. rewrite Hlk by lia.
  destruct (lookup_lt_is_Some_2 ds k ltac:(lia)) as [c Hc]. rewrite Hc. cbn [mbind option_bind]. rewrite (take_S_r _ _ _ Hc), dv_app.
  assert (Hb : 0 <= dv (take k ds) < 10 ^ 9).
  { assert (Ht : digs (take k ds)) by (by apply Forall_take). pose proof (dv_bounds _ (digs_IS _ Ht)) as Hd. rewrite length_take in Hd. split; [lia|]. eapply Z.lt_le_trans; [apply Hd|]. apply Z.pow_le_mono_r; lia. }
  assert (Hcd : 48 <= c <= 57) by (unfold digs in Hds; rewrite Forall_forall in Hds; apply Hds; by eapply list_elem_of_lookup_2).
  rewrite chk_ok by (unfold INT64_MIN, INT64_MAX; lia). cbn [mbind option_bind]. rewrite chk_ok by (unfold INT64_MIN, INT64_MAX; lia).
  change (10 ^ Z.of_nat (length [c])) with 10. rewrite dv_cons. change (dv []) with 0. change (10 ^ Z.of_nat (length (@nil Z))) with 1. unfold dval. f_equal. lia.
Qed.

Lemma sign_value z v : v = Z.abs z -> (if z <? 0 then - v else v) = z.
Proof. intros ->. destruct (z <? 0) eqn:E; bprop; lia. Qed.

Lemma print_hundred h : 100 <= h < 10 ^ 8 -> print_u 2 h = print_u 1 h /\ (3 <= length (print_u 2 h))%nat.
Proof.
  intros Hh. assert (Hn : (3 <= ndig 19 h)%nat).
  { cbn [ndig]. rewrite (proj2 (Z.ltb_ge h 10)), (proj2 (Z.ltb_ge (h / 10) 10)) by (try apply Z.div_le_lower_bound; lia). destruct (_ <? 10); lia. }
  unfold print_u. rewrite length_fixed. rewrite !Nat.max_r by lia. done.
Qed.

Section source.
Context (strtod : list Z -> nat * spec_float) (pow10 : Z -> spec_float) (buf_ok : nat -> bool).
Abbreviation magnitude := (q_tok_magnitude strtod pow10 buf_ok).
Abbreviation literal_at := (q_tok_literal strtod pow10 buf_ok).

Lemma literal_upto text q x p letter v c l : plain text -> text <> [] -> magnitude (text ++ [0]) 0 = Some (Hit q x) ->
  q_tok_type_letter (text ++ [0]) q 0 x = Some (p, letter) -> drop p (text ++ [0]) = c :: l -> lit_ws c = false ->
  lit_strand (text ++ [0]) 0 p [x] letter = Some (inr v) -> literal_at (text ++ [0]) 0 = Some (inr (p, v)).
Proof using Type.
  intros Hp Hne Hm Hl Hdp Hws Hv. unfold q_tok_literal.
  assert (Hb : q_tok_byte_lit_starts (text ++ [0]) 0 = Some false).
  { unfold q_tok_byte_lit_starts, and_then, char_is. destruct (plain_read text 0 Hp ltac:(lia)) as (c0 & -> & _ & L). cbn [mbind option_bind].
    destruct (c0 =? 48) eqn:E; bprop; [|done]. specialize (L ltac:(lia)). destruct (plain_read text (0 + 1) Hp ltac:(lia)) as (c1 & -> & Hc1 & _). cbn [mbind option_bind].
    set_unfold in Hc1. by rewrite (proj2 (Z.eqb_neq c1 120)) by (intros ->; naive_solver). }
  rewrite Hb. cbn [mbind option_bind]. rewrite drop_0. destruct (run_while_ok (fun c => (c =? 48) || (c =? 49)) text eq_refl) as (nb & -> & Hnb & _). cbn [mbind option_bind].
  destruct (plain_read text (0 + nb) Hp ltac:(lia)) as (x1 & -> & Hx1 & _). cbn [mbind option_bind]. set_unfold in Hx1.
  rewrite (proj2 (Z.eqb_neq x1 98)) by (intros ->; naive_solver). rewrite andb_false_r, Hm. cbn [mbind option_bind]. rewrite Hl. cbn [mbind option_bind].
  rewrite length_app. cbn [length]. rewrite Nat.add_1_r. cbn [strand]. rewrite Hdp. cbn [run_while]. rewrite Hws. cbv iota. cbn [mbind option_bind].
  change (0 =? 0)%nat with true. cbv iota zeta. cbn [mbind option_bind]. by rewrite Hv.
Qed.

Lemma literal_of text q x letter v : plain text -> text <> [] -> magnitude (text ++ [0]) 0 = Some (Hit q x) ->
  q_tok_type_letter (text ++ [0]) q 0 x = Some (length text, letter) -> lit_strand (text ++ [0]) 0 (length text) [x] letter = Some (inr v) ->
  literal_at (text ++ [0]) 0 = Some (inr (length text, v)).
Proof using Type. intros. eapply (literal_upto text q x (length text) letter v 0 []); try done. by rewrite drop_app_length. Qed.

Lemma literal_time text k t v : (k, t) ∈ [(Q_TOK_EL_TS, RAY_TIMESTAMP); (Q_TOK_EL_DATE, RAY_DATE); (Q_TOK_EL_TIME, RAY_TIME); (Q_TOK_EL_MINUTE, RAY_MINUTE); (Q_TOK_EL_SECOND, RAY_SECOND); (Q_TOK_EL_TIMESPAN, RAY_TIMESPAN)] ->
  token_chars text -> text <> [] -> q_tok_temporal strtod pow10 buf_ok (text ++ [0]) 0 = Some (Hit (length text) (el_int k v)) ->
  literal_at (text ++ [0]) 0 = Some (inr (length text, VAtom t (PInt v) false)).
Proof using Type.
  intros Hk Hc Hne Ht. apply (literal_of text (length text) (el_int k v) 0); [by apply chars_plain|done| |apply letter_end|by apply strand_time].
  unfold q_tok_magnitude. rewrite special_plain by (by apply chars_plain). unfold or_else at 1. cbn [mbind option_bind]. rewrite Ht. done.
Qed.

Lemma not_date z s ds c r : s = sign_of z ++ ds ++ c :: r -> digs ds -> (0 < length ds)%nat -> tok_digit c = false -> c <> 46 -> length s < SIZE_MAX ->
  glued_sign s 0 = Some (z <? 0, length (sign_of z)) /\ drop (length (sign_of z)) s = ds ++ c :: r /\ tok_date_arm s 0 = Some Miss /\ tok_month_arm strtod pow10 buf_ok s 0 = Some Miss.
Proof using Type.
  intros Hs Hds Hl Hc H46 Hlen. assert (Hg : glued_sign s 0 = Some (z <? 0, length (sign_of z))).
  { destruct (digs_not_sign ds (c :: r) Hds Hl) as (d & l & E & Hd). rewrite Hs, E. by apply sign_text. }
  assert (Hd : drop (length (sign_of z)) s = ds ++ c :: r) by (rewrite Hs; by rewrite drop_app_length).
  assert (Hq : length (sign_of z) + length ds < SIZE_MAX).
  { rewrite Hs, !length_app in Hlen. lia. }
  pose proof (no_date_shape s _ ds c r Hd Hds Hc H46 Hq) as Hsh. split; [done|]. split; [done|]. unfold tok_date_arm, tok_month_arm. rewrite Hg. cbn [mbind option_bind].
  rewrite !Hsh, !and_then_false. done.
Qed.


(** ** Integers *)
(** Digits and then neither a colon, a dot nor a D: no temporal. *)
Lemma not_temporal z s ds c r : s = sign_of z ++ ds ++ c :: r -> digs ds -> (0 < length ds)%nat -> clock_bad c = false -> c <> 68 -> length s < SIZE_MAX -> last s = Some 0 ->
  q_tok_temporal strtod pow10 buf_ok s 0 = Some Miss.
Proof using Type.
  intros Hs Hds Hl Hc H68 Hlen H0. assert (Hc' : tok_digit c = false /\ c <> 46).
  { clear - Hc. unfold clock_bad in Hc. bprop. done. }
  destruct Hc' as [Hd H46]. destruct (not_date z s ds c r Hs Hds Hl Hd H46 Hlen) as (Hg & Hdr & Hda & Hmo). unfold q_tok_temporal, or_else. rewrite Hda, Hmo. cbn [mbind option_bind].
  destruct (scan_digits s _ ds c r Hdr Hds Hl Hc Hlen H0) as (x & ok & Hsc).
  assert (Hclk : tok_clock_arm s 0 = Some Miss).
  { unfold tok_clock_arm. rewrite Hg. cbn [mbind option_bind]. rewrite Hsc. cbn [mbind option_bind k_hd k_dot k_fd k_fields k_secs k_frac k_ok].
    pose proof (at_app s _ ds (c :: r) Hdr) as H1. destruct (at_read s _ _ _ H1) as [Hr _]. rewrite Hr. cbn [mbind option_bind negb].
    change (1 =? 2)%nat with false. change (1 =? 3)%nat with false. change (0 =? 0)%nat with true. rewrite !andb_false_r. cbn [andb].
    destruct (length ds =? 2)%nat; cbn [andb mbind option_bind]; by rewrite ?andb_false_r. }
  rewrite Hclk. cbn [mbind option_bind]. unfold tok_span_arm. rewrite Hg. cbn [mbind option_bind]. unfold tok_dig_run.
  pose proof (at_length s _ ds (c :: r) Hdr Hl) as Hls. cbn [length] in Hls.
  rewrite (run_at s SIZE_MAX _ ds (c :: r) Hdr Hds); [|lia|right; split; [lia|by exists c, r] ]. cbn [mbind option_bind]. rewrite (proj2 (Nat.leb_le 1 _)) by lia.
  pose proof (at_app s _ ds (c :: r) Hdr) as H1. destruct (at_read s _ _ _ H1) as [Hr _]. unfold char_is, and_then. rewrite Hr. cbn [mbind option_bind].
  by rewrite (proj2 (Z.eqb_neq c 68)).
Qed.

(** An integer and what stops it. *)
Lemma number_text z sfx c r : INT64_MIN <= z <= INT64_MAX -> sfx ++ [0] = c :: r -> 0 ∉ sfx -> bytes_ok sfx ->
  tok_digit c = false -> c <> 46 -> c <> 101 -> c <> 69 ->
  tok_number strtod pow10 buf_ok ((int_text z ++ sfx) ++ [0]) 0 = Some (Hit (length (int_text z)) (el_int Q_TOK_EL_INT z)).
Proof using Type.
  intros Hz E H0 Hb Hcd H46 He HE. destruct (print_hd 1 (Z.abs z)) as (Hds & Hl & _); [lia|unfold INT64_MIN, INT64_MAX in Hz; lia|].
  set (s := (int_text z ++ sfx) ++ [0]). assert (Hs : s = sign_of z ++ print_u 1 (Z.abs z) ++ c :: r) by (unfold s, int_text; by rewrite <- !app_assoc, E).
  unfold tok_number.
  assert (Hk : exists c0, s !! 0%nat = Some c0 /\ drop (if (c0 =? 45) || (c0 =? 43) then 1%nat else 0%nat) s = print_u 1 (Z.abs z) ++ c :: r).
  { rewrite Hs. unfold sign_of. destruct (z <? 0).
    - exists 45. done.
    - destruct (digs_not_sign _ (c :: r) Hds ltac:(lia)) as (d & l & Ed & Hd). cbn [app]. rewrite Ed. exists d. split; [done|].
      by rewrite (proj2 (Z.eqb_neq d 45)), (proj2 (Z.eqb_neq d 43)) by lia. }
  destruct Hk as (c0 & H00 & Hdrop). rewrite H00. cbn [mbind option_bind]. rewrite Hdrop, float_shape_digs by done. cbn [mbind option_bind orb].
  rewrite (proj2 (Nat.ltb_lt _ _)) by lia. cbn [negb]. rewrite drop_0. unfold s. rewrite cstr_text.
  2: { apply not_elem_of_app. split; [|done]. eapply token_not; [by apply int_text_chars|lia|done]. }
  cbn [mbind option_bind]. rewrite (parse_int_text z sfx Hz Hb).
  - by rewrite (proj2 (Nat.eqb_neq _ _)) by (pose proof (int_text_length z Hz); lia).
  - destruct sfx as [|c' l]; [by left|right]. injection E as -> _. by exists c, l.
Qed.

Lemma magnitude_int z sfx : INT64_MIN <= z <= INT64_MAX -> sfx ∈ [ []; [104]; [105] ] ->
  magnitude ((int_text z ++ sfx) ++ [0]) 0 = Some (Hit (length (int_text z)) (el_int Q_TOK_EL_INT z)).
Proof using Type.
  intros Hz Hsfx. pose proof (int_text_chars z Hz) as Hch. destruct (print_hd 1 (Z.abs z)) as (Hds & Hl & _); [lia|unfold INT64_MIN, INT64_MAX in Hz; lia|].
  assert (Hp : plain (int_text z ++ sfx)).
  { apply plain_app; [by apply chars_plain|]. set_unfold in Hsfx. destruct_or?; subst; repeat constructor; try lia; set_solver. }
  assert (Hend : exists c r, sfx ++ [0] = c :: r /\ (c = 0 \/ c = 104 \/ c = 105)) by (set_unfold in Hsfx; destruct_or?; subst; eexists _, _; (split; [reflexivity|]); auto).
  destruct Hend as (c & r & E & Hc). unfold q_tok_magnitude. rewrite special_plain by done. unfold or_else at 1. cbn [mbind option_bind].
  set (s := (int_text z ++ sfx) ++ [0]). assert (Hs : s = sign_of z ++ print_u 1 (Z.abs z) ++ c :: r) by (unfold s, int_text; by rewrite <- !app_assoc, E).
  assert (Hlen : length s < SIZE_MAX).
  { unfold s. rewrite !length_app. pose proof (int_text_length z Hz). assert (length sfx <= 1)%nat by (set_unfold in Hsfx; destruct_or?; subst; simpl; lia). unfold SIZE_MAX. simpl length. lia. }
  assert (H0 : last s = Some 0) by apply last_snoc.
  assert (Hcb : clock_bad c = false /\ tok_digit c = false) by (destruct_or?; subst; done). destruct Hcb as [Hcb Hcd].
  rewrite (not_temporal z s _ c r Hs Hds ltac:(lia) Hcb ltac:(lia) Hlen H0). unfold or_else. cbn [mbind option_bind].
  apply (number_text z sfx c r); try done; try lia; clear Hc Hcb Hcd E; set_unfold in Hsfx; destruct_or?; subst; try set_solver; repeat constructor; unfold byte_ok; lia.
Qed.

(** The letter of an integer, and its text. *)
Lemma literal_int t bits sfx z : (t, bits, sfx) ∈ [(RAY_I16, 16, [104]); (RAY_I32, 32, [105]); (RAY_I64, 64, [])] -> - 2 ^ (bits - 1) <= z < 2 ^ (bits - 1) ->
  literal_at ((int_text z ++ sfx) ++ [0]) 0 = Some (inr (length (int_text z ++ sfx), VAtom t (PInt z) false)).
Proof using Type.
  intros Hin Hz. assert (Hzz : INT64_MIN <= z <= INT64_MAX) by (set_unfold in Hin; unfold INT64_MIN, INT64_MAX; destruct_or?; simplify_eq; lia).
  assert (Hsg : sgn bits z = z) by (set_unfold in Hin; destruct_or?; simplify_eq; unfold sgn, wrap; (destruct (Z.le_gt_cases 0 z); [rewrite Z.mod_small by lia; bif; lia|rewrite <- (Z.mod_add z 1) by lia; rewrite Z.mod_small by lia; bif; lia])).
  assert (Hsfx : sfx ∈ [ []; [104]; [105] ]) by (set_unfold in Hin; destruct_or?; simplify_eq; set_solver).
  pose proof (int_text_length z Hzz) as Hl.
  apply (literal_of _ (length (int_text z)) (el_int Q_TOK_EL_INT z) (match sfx with [c] => c | _ => 0 end)).
  - apply plain_app; [by apply chars_plain, int_text_chars|]. set_unfold in Hsfx. destruct_or?; subst; repeat constructor; try lia; set_solver.
  - intros E. apply (f_equal length) in E. rewrite length_app in E. simpl in E. lia.
  - by apply magnitude_int.
  - unfold q_tok_type_letter. rewrite <- app_assoc, lookup_app_r, Nat.sub_diag by lia. rewrite length_app. set_unfold in Hin. destruct_or?; simplify_eq; cbn [app length lookup list_lookup mbind option_bind]; repeat f_equal; lia.
  - rewrite (strand_int _ _ t bits) by (set_unfold in Hin; destruct_or?; simplify_eq; set_solver). by rewrite Hsg.
Qed.

(** ** Dates and timestamps *)
Lemma literal_date z : -730119 <= z <= 2921939 -> forall y m d, date_to_ymd z = (y, m, d) -> ymd_text (y, m, d) = date_text y m d ->
  q_calendar_date_valid y m d = true -> q_calendar_days_from_civil y m d = z ->
  literal_at (date_text y m d ++ [0]) 0 = Some (inr (10%nat, VAtom RAY_DATE (PInt z) false)).
Proof using Type.
  intros Hz y m d E Ht Hv Hc. pose proof (date_valid_range y m d Hv) as Hr. change 10%nat with (length (date_text y m d)).
  apply (literal_time _ Q_TOK_EL_DATE); [set_solver|apply date_chars|done|].
  destruct (date_shape y m d 0 [] ltac:(lia) ltac:(by left) ltac:(done)) as [Hg Hsh]. destruct (date_parts y m d 0 []) as (Hn4 & Hn2 & Hn2' & H10); [lia..|].
  unfold q_tok_temporal, or_else. unfold tok_date_arm at 1. rewrite Hg. cbn [mbind option_bind]. rewrite Hsh. cbn [mbind option_bind negb]. rewrite Hn4, Hn2, Hn2'. cbn [mbind option_bind].
  rewrite Hv. cbn [negb]. cbv zeta. rewrite H10. cbn [mbind option_bind]. change (0 =? 68) with false. change (0 =? 84) with false. cbv iota. rewrite Hc. done.
Qed.

Lemma literal_timestamp z : - INT64_MAX < z < INT64_MAX -> literal_at (fmt_timestamp z ++ [0]) 0 = Some (inr (length (fmt_timestamp z), VAtom RAY_TIMESTAMP (PInt z) false)).
Proof using Type.
  intros Hz. destruct (timestamp_text z) as (y & mo & d & h & m & s & f & Hf & Hval & Hv & Hh & Hm & Hsec & Hfr); [unfold INT64_MIN, INT64_MAX in *; lia|].
  pose proof (day_clock h m s f Hh Hm Hsec Hfr) as Hok. pose proof (clock_text_length _ _ _ Hok) as Hcl. rewrite length_fixed in Hcl. pose proof (date_valid_range y mo d Hval) as Hr.
  set (ck := clock_text (fixed 2 h) [m; s] (Some (fixed 9 f))) in *. rewrite Hf. apply (literal_time _ Q_TOK_EL_TS); [set_solver| |done|].
  { apply app_chars; [apply date_chars|]. apply app_chars; [apply one_char; lia|by apply clock_chars]. }
  rewrite <- !app_assoc. cbn [app]. set (src := date_text y mo d ++ 68 :: ck ++ [0]). assert (Hlen : length src < SIZE_MAX).
  { unfold src. rewrite length_app, length_date. cbn [length]. rewrite length_app. unfold SIZE_MAX. simpl length. lia. }
  destruct (date_shape y mo d 68 (ck ++ [0]) ltac:(lia) ltac:(by right) Hlen) as [Hg Hsh]. destruct (date_parts y mo d 68 (ck ++ [0])) as (Hn4 & Hn2 & Hn2' & H10); [lia..|]. fold src in Hg, Hsh, Hn4, Hn2, Hn2', H10.
  unfold q_tok_temporal, or_else. unfold tok_date_arm at 1. rewrite Hg. cbn [mbind option_bind]. rewrite Hsh. cbn [mbind option_bind negb]. rewrite Hn4, Hn2, Hn2'. cbn [mbind option_bind].
  rewrite Hval. cbn [negb]. cbv zeta. rewrite H10. cbn [mbind option_bind]. change (68 =? 68) with true. cbv iota.
  destruct (clock_tail src (0 + 11) h m s f [] ltac:(done) Hlen Hh Hm Hsec Hfr) as (c & Hct & Hns & _ & _ & Hz0). fold ck in Hct, Hz0. rewrite Hct. cbn [mbind option_bind].
  unfold char_is. rewrite Hz0. cbn [mbind option_bind]. change (0 =? 46) with false. cbv iota. unfold ts_el. rewrite Hns. cbn [mbind option_bind negate].
  unfold q_calendar_ts_compose. rewrite compose_small by (unfold INT64_MAX in *; lia).
  replace (q_calendar_days_from_civil y mo d * 86400000000000 + ((h * 3600 + m * 60 + s) * 1000000000 + f)) with z by lia. cbn [mbind option_bind].
  rewrite length_app, length_date. cbn [length]. by replace (0 + 11 + length ck)%nat with (10 + S (length ck))%nat by lia.
Qed.

(** A clock is no date. *)
Lemma literal_clock z hd m ms fr k t v : clock_ok hd (m :: ms) fr -> length hd = 2%nat -> length (sign_of z ++ clock_text hd (m :: ms) fr ++ [0]) < SIZE_MAX ->
  (k, t) ∈ [(Q_TOK_EL_TS, RAY_TIMESTAMP); (Q_TOK_EL_DATE, RAY_DATE); (Q_TOK_EL_TIME, RAY_TIME); (Q_TOK_EL_MINUTE, RAY_MINUTE); (Q_TOK_EL_SECOND, RAY_SECOND); (Q_TOK_EL_TIMESPAN, RAY_TIMESPAN)] ->
  tok_clock_arm (sign_of z ++ clock_text hd (m :: ms) fr ++ [0]) 0 = Some (Hit (length (sign_of z ++ clock_text hd (m :: ms) fr)) (el_int k v)) ->
  literal_at ((sign_of z ++ clock_text hd (m :: ms) fr) ++ [0]) 0 = Some (inr (length (sign_of z ++ clock_text hd (m :: ms) fr), VAtom t (PInt v) false)).
Proof using Type.
  intros Hok H2 Hlen Hk Harm. apply (literal_time _ k t v Hk); [apply app_chars; [apply sign_chars|by apply clock_chars]| |].
  { intros E. apply (f_equal length) in E. unfold clock_text in E. rewrite !length_app, H2 in E. simpl in E. lia. }
  rewrite <- app_assoc. unfold q_tok_temporal, or_else.
  destruct (not_date z (sign_of z ++ clock_text hd (m :: ms) fr ++ [0]) hd 58 (fixed 2 m ++ fields_text ms ++ frac_text fr ++ [0])) as (_ & _ & -> & ->); [|apply (ck_hd _ _ _ Hok)|lia|done|done|done|].
  - unfold clock_text, fields_text. cbn [fmap list_fmap concat]. rewrite <- !app_assoc. done.
  - cbn [mbind option_bind]. by rewrite Harm.
Qed.

Lemma literal_time_atom z : -360000000 < z < 360000000 -> literal_at (fmt_time z ++ [0]) 0 = Some (inr (length (fmt_time z), VAtom RAY_TIME (PInt z) false)).
Proof using Type.
  intros Hz. destruct (time_text z ltac:(lia)) as (h & m & s & f & Hf & Hok & Hv & Hh & Hm & Hs & Hfr). destruct (print_hd 2 h) as (_ & _ & Hdv & Hl2 & _); [lia|lia|].
  specialize (Hl2 ltac:(lia)). pose proof (clock_text_length _ _ _ Hok) as Hcl. rewrite Hf. assert (Hlen : length (sign_of z ++ clock_text (print_u 2 h) [m; s] (Some (fixed 3 f)) ++ [0]) < SIZE_MAX).
  { rewrite !length_app. unfold sign_of, SIZE_MAX. destruct (z <? 0); simpl length in *; lia. }
  assert (Hval : clock_secs (print_u 2 h) [m; s] * 1000 + Z.quot (frac_ns (Some (fixed 3 f))) 1000000 = Z.abs z).
  { rewrite secs2, Hdv. cbn [frac_ns]. rewrite length_fixed, dv_fixed by (simpl; lia). change (10 ^ (9 - 3%nat)) with 1000000. rewrite Z.quot_mul by done. lia. }
  apply (literal_clock z _ m [s] _ Q_TOK_EL_TIME); [done|done|done|set_solver|].
  rewrite (clock_arm_text z _ _ _ Q_TOK_EL_TIME (Z.abs z) Hok Hl2 Hlen); [by rewrite sign_value|unfold INT64_MAX; lia|right; right; rewrite Hval; split; [done|]; split; [by eexists|done] ].
Qed.

Lemma literal_minute_atom z : -6000 < z < 6000 -> literal_at (fmt_minute z ++ [0]) 0 = Some (inr (length (fmt_minute z), VAtom RAY_MINUTE (PInt z) false)).
Proof using Type.
  intros Hz. destruct (minute_text z ltac:(lia)) as (h & m & Hf & Hok & Hv & Hh & Hm). destruct (print_hd 2 h) as (_ & _ & Hdv & Hl2 & _); [lia|lia|].
  specialize (Hl2 ltac:(lia)). pose proof (clock_text_length _ _ _ Hok) as Hcl. rewrite Hf. assert (Hlen : length (sign_of z ++ clock_text (print_u 2 h) [m] None ++ [0]) < SIZE_MAX).
  { rewrite !length_app. unfold sign_of, SIZE_MAX. destruct (z <? 0); simpl length in *; lia. }
  assert (Hval : Z.quot (clock_secs (print_u 2 h) [m]) 60 = Z.abs z) by (rewrite secs1, Hdv; Z.to_euclidean_division_equations; lia).
  apply (literal_clock z _ m [] _ Q_TOK_EL_MINUTE); [done|done|done|set_solver|].
  rewrite (clock_arm_text z _ _ _ Q_TOK_EL_MINUTE (Z.abs z) Hok Hl2 Hlen); [by rewrite sign_value|unfold INT64_MAX; lia|left; by rewrite Hval].
Qed.

Lemma literal_second_atom z : -360000 < z < 360000 -> literal_at (fmt_second z ++ [0]) 0 = Some (inr (length (fmt_second z), VAtom RAY_SECOND (PInt z) false)).
Proof using Type.
  intros Hz. destruct (second_text z ltac:(lia)) as (h & m & s & Hf & Hok & Hv & Hh & Hm & Hs). destruct (print_hd 2 h) as (_ & _ & Hdv & Hl2 & _); [lia|lia|].
  specialize (Hl2 ltac:(lia)). pose proof (clock_text_length _ _ _ Hok) as Hcl. rewrite Hf. assert (Hlen : length (sign_of z ++ clock_text (print_u 2 h) [m; s] None ++ [0]) < SIZE_MAX).
  { rewrite !length_app. unfold sign_of, SIZE_MAX. destruct (z <? 0); simpl length in *; lia. }
  assert (Hval : clock_secs (print_u 2 h) [m; s] = Z.abs z) by (rewrite secs2, Hdv; lia).
  apply (literal_clock z _ m [s] _ Q_TOK_EL_SECOND); [done|done|done|set_solver|].
  rewrite (clock_arm_text z _ _ _ Q_TOK_EL_SECOND (Z.abs z) Hok Hl2 Hlen); [by rewrite sign_value|unfold INT64_MAX; lia|right; left; by rewrite Hval].
Qed.

Lemma literal_timespan z : - INT64_MAX < z < INT64_MAX -> literal_at (fmt_timespan z ++ [0]) 0 = Some (inr (length (fmt_timespan z), VAtom RAY_TIMESPAN (PInt z) false)).
Proof using Type.
  intros Hz. destruct (timespan_text z) as (d & h & m & s & f & Hf & Hv & Hd & Hh & Hm & Hsec & Hfr); [unfold INT64_MIN, INT64_MAX in *; lia|].
  destruct (print_hd 1 d) as (Hds & Hl & Hdv & _); [lia|lia|]. pose proof (day_clock h m s f Hh Hm Hsec Hfr) as Hok. pose proof (clock_text_length _ _ _ Hok) as Hcl. rewrite length_fixed in Hcl.
  assert (Hl9 : (length (print_u 1 d) <= 9)%nat) by (unfold print_u; rewrite length_fixed; pose proof (ndig_max 19 6 d ltac:(lia) ltac:(simpl; lia)); lia).
  set (ds := print_u 1 d) in *. set (ck := clock_text (fixed 2 h) [m; s] (Some (fixed 9 f))) in *. rewrite Hf. apply (literal_time _ Q_TOK_EL_TIMESPAN); [set_solver| | |].
  { apply app_chars; [apply sign_chars|]. apply app_chars; [by apply digs_chars|]. apply app_chars; [apply one_char; lia|by apply clock_chars]. }
  { intros E. apply (f_equal length) in E. rewrite !length_app in E. simpl in E. lia. }
  rewrite <- !app_assoc. set (src := sign_of z ++ ds ++ [68] ++ ck ++ [0]).
  assert (Hlen : length src < SIZE_MAX) by (unfold src; rewrite !length_app; unfold sign_of, SIZE_MAX; destruct (z <? 0); simpl length in *; lia).
  assert (H0 : last src = Some 0) by (unfold src; rewrite !app_assoc; apply last_snoc).
  destruct (not_date z src ds 68 (ck ++ [0]) eq_refl Hds ltac:(lia) eq_refl ltac:(done) Hlen) as (Hg & Hdr & Hda & Hmo). unfold q_tok_temporal, or_else. rewrite Hda, Hmo. cbn [mbind option_bind].
  destruct (scan_digits src _ ds 68 (ck ++ [0]) Hdr Hds ltac:(lia) eq_refl Hlen H0) as (x & ok & Hsc).
  pose proof (at_app src _ ds _ Hdr) as H1. destruct (at_read src _ _ _ H1) as [H68 Hck]. rewrite <- Nat.add_1_r in Hck.
  assert (Hclk : tok_clock_arm src 0 = Some Miss).
  { unfold tok_clock_arm. rewrite Hg. cbn [mbind option_bind]. rewrite Hsc. cbn [mbind option_bind k_hd k_dot k_fd k_fields k_secs k_frac k_ok]. rewrite H68. cbn [mbind option_bind negb].
    change (1 =? 2)%nat with false. change (1 =? 3)%nat with false. change (0 =? 0)%nat with true. rewrite !andb_false_r. cbn [andb].
    destruct (length ds =? 2)%nat; cbn [andb mbind option_bind]; by rewrite ?andb_false_r. }
  rewrite Hclk. cbn [mbind option_bind]. unfold tok_span_arm. rewrite Hg. cbn [mbind option_bind]. pose proof (at_length src _ ds _ Hdr ltac:(lia)) as Hls. cbn [length] in Hls.
  assert (Hdd : tok_dig_run src (length (sign_of z)) = Some (length ds)) by (apply (run_at src SIZE_MAX _ ds _ Hdr Hds); [lia|right; split; [lia|by eexists _, _] ]).
  rewrite Hdd. cbn [mbind option_bind]. rewrite (proj2 (Nat.leb_le 1 _)) by lia. unfold char_is at 1, and_then. rewrite H68. cbn [mbind option_bind]. change (68 =? 68) with true. cbv iota.
  assert (Hsg : (length (sign_of z) <= 1)%nat) by (unfold sign_of; destruct (z <? 0); simpl; lia).
  assert (Hh2 : tok_dig_run src (length (sign_of z) + length ds + 1) = Some 2%nat).
  { apply (run_at src SIZE_MAX _ (fixed 2 h) (fields_text [m; s] ++ frac_text (Some (fixed 9 f)) ++ [0])); [|apply fixed_digs|rewrite length_fixed; unfold SIZE_MAX; lia|].
    - rewrite Hck. unfold ck, clock_text. by rewrite <- !app_assoc.
    - right. rewrite length_fixed. split; [unfold SIZE_MAX; lia|by eexists 58, _]. }
  rewrite Hh2. cbn [mbind option_bind]. change (2 <=? 2)%nat with true. cbn [negb].
  destruct (clock_tail src _ h m s f [] Hck Hlen Hh Hm Hsec Hfr) as (c & Hct & Hns & Hkf & Hkd & Hend). fold ck in Hct, Hend. rewrite Hct. cbn [mbind option_bind]. cbv zeta.
  rewrite Hend. cbn [mbind option_bind]. change (lit_temporal_letter 0 (el_int Q_TOK_EL_TIMESPAN 0)) with false. cbv iota. cbn [mbind option_bind]. change (tok_name_byte 0) with false. cbn [negb orb].
  rewrite Hkf. change (3 =? 0)%nat with false. cbn [andb negb]. rewrite (span_days_text src _ ds _ Hdr Hds Hl9), Hdv. cbn [mbind option_bind]. rewrite Hns. cbn [mbind option_bind].
  rewrite chk_ok by (unfold INT64_MIN, INT64_MAX; lia). cbn [mbind option_bind]. rewrite chk_ok by (unfold INT64_MIN, INT64_MAX in *; lia). cbn [mbind option_bind].
  unfold negate. assert (Hneg : (if z <? 0 then chk (- (d * 86400000000000 + ((h * 3600 + m * 60 + s) * 1000000000 + f))) else Some (d * 86400000000000 + ((h * 3600 + m * 60 + s) * 1000000000 + f))) = Some z).
  { destruct (z <? 0) eqn:E; bprop; [rewrite chk_ok by (unfold INT64_MIN, INT64_MAX in *; lia)|]; f_equal; lia. }
  rewrite Hneg. cbn [mbind option_bind]. rewrite !length_app. change (length [68%Z]) with 1%nat. by replace (length (sign_of z) + length ds + 1 + length ck)%nat with (length (sign_of z) + (length ds + (1 + length ck)))%nat by lia.
Qed.

(** ** Months *)
(** The float reader stops at the letter. *)
Lemma parse_month y m : exists v, ray_parse_f64 strtod pow10 buf_ok (fixed 4 y ++ [46] ++ fixed 2 m ++ [109]) = Some (7%nat, v).
Proof using Type.
  pose proof (fixed_digs 4 y) as Hy. pose proof (fixed_digs 2 m) as Hm. set (src := fixed 4 y ++ [46] ++ fixed 2 m ++ [109]).
  assert (Hok : bytes_ok src).
  { unfold src. apply Forall_app. split; [eapply Forall_impl; [exact Hy|]; cbn; unfold byte_ok; lia|]. constructor; [unfold byte_ok; lia|].
    apply Forall_app. split; [eapply Forall_impl; [exact Hm|]; cbn; unfold byte_ok; lia|]. repeat constructor; unfold byte_ok; lia. }
  assert (Hd : f64_digits src 0 = (fixed 4 y, fixed 2 m, 7%nat)).
  { assert (Hp : prefix_while IS_DIGIT src = fixed 4 y).
    { unfold src. rewrite prefix_while_app by (by apply digs_IS). cbn [app prefix_while]. change (IS_DIGIT 46) with false. apply app_nil_r. }
    unfold f64_digits. rewrite drop_0, Hp, length_fixed. cbv zeta. change (src.[0 + 4]) with 46. change (length src) with 8%nat. change ((0 + 4 <? 8)%nat && (46 =? 46)) with true. cbv iota zeta.
    change (drop (S (0 + 4)) src) with (fixed 2 m ++ [109]). rewrite prefix_while_app by (by apply digs_IS). cbn [app prefix_while]. change (IS_DIGIT 109) with false. cbv iota.
    by rewrite app_nil_r, length_fixed. }
  assert (Hscan : exists st, f64_scan_number src 0 = Some st /\ fs_i st = 7%nat).
  { rewrite f64_scan_number_spec by (done || lia). rewrite Hd. cbv zeta. rewrite length_app, !length_fixed. change ((4 + 2 =? 0)%nat) with false. cbv iota.
    change (f64_exp_ref src 7) with (0, 7%nat). cbv iota. by eexists. }
  destruct Hscan as (st & Hst & Hi).
  assert (Hhd : exists c0 c1 c2 l, src = c0 :: c1 :: c2 :: l /\ (48 <= c0 <= 57) /\ 48 <= c1 <= 57).
  { unfold src. destruct (fixed 4 y) as [|c0 [|c1 [|c2 l] ] ] eqn:E; try (apply (f_equal length) in E; rewrite length_fixed in E; done).
    apply Forall_cons in Hy as [H0 Hy]. apply Forall_cons in Hy as [H1 _]. by eexists c0, c1, c2, _. }
  destruct Hhd as (c0 & c1 & c2 & l & E & H0 & H1).
  unfold ray_parse_f64. change (length src) with 8%nat. change (8 =? 0)%nat with false. cbv iota zeta.
  assert (G0 : src.[0] = c0) by (by rewrite E). assert (G1 : src.[0 + 1] = c1) by (by rewrite E). rewrite G0.
  unfold chMinus, chPlus. rewrite (proj2 (Z.eqb_neq c0 45)), (proj2 (Z.eqb_neq c0 43)) by lia. rewrite G0, G1, drop_0.
  assert (Hi3 : forall b c, icmp3 src 110 b c = false /\ icmp3 src 105 b c = false).
  { intros b c. unfold icmp3. rewrite G0. change (Z.lxor 110 32) with 78. change (Z.lxor 105 32) with 73.
    rewrite (proj2 (Z.eqb_neq c0 110)), (proj2 (Z.eqb_neq c0 78)), (proj2 (Z.eqb_neq c0 105)), (proj2 (Z.eqb_neq c0 73)) by lia. done. }
  rewrite !(proj1 (Hi3 _ _)), !(proj2 (Hi3 _ _)), !andb_false_r.
  rewrite (proj2 (Z.eqb_neq c1 119)), (proj2 (Z.eqb_neq c1 87)) by lia. cbn [orb]. rewrite andb_false_r. change (0 =? 8)%nat with false. cbv iota.
  rewrite Hst. destruct (f64_finalize _ _ _ _ _); rewrite Hi; by eexists.
Qed.

Lemma literal_month y m : 1 <= y <= 9999 -> 1 <= m <= 12 ->
  literal_at ((fixed 4 y ++ [46] ++ fixed 2 m ++ [109]) ++ [0]) 0 = Some (inr (8%nat, VAtom RAY_MONTH (PInt ((y - 2000) * 12 + (m - 1))) false)).
Proof using Type.
  intros Hy Hm. set (text := fixed 4 y ++ [46] ++ fixed 2 m ++ [109]). destruct (parse_month y m) as [v Hv]. fold text in Hv.
  assert (Hpl : plain text).
  { apply plain_app; [apply chars_plain, digs_chars, fixed_digs|]. apply plain_app; [apply chars_plain, one_char; lia|].
    apply plain_app; [apply chars_plain, digs_chars, fixed_digs|]. repeat constructor; [lia|set_solver]. }
  apply (literal_of text 7 (El Q_TOK_EL_MONTH ((y - 2000) * 12 + (m - 1)) v true) 109); [done|done| |reflexivity|reflexivity].
  unfold q_tok_magnitude. rewrite special_plain by done. unfold or_else at 1. cbn [mbind option_bind]. set (s := text ++ [0]).
  assert (Hg : glued_sign s 0 = Some (false, 0%nat)).
  { unfold s, text. rewrite <- app_assoc. destruct (digs_not_sign (fixed 4 y) (([46] ++ fixed 2 m ++ [109]) ++ [0]) (fixed_digs 4 y)) as (x & l & E & Hx); [rewrite length_fixed; lia|].
    rewrite E. by pose proof (sign_text 0 x l Hx). }
  assert (Hr : forall i (k : nat) u x l, drop i s = fixed k u ++ x :: l -> tok_digit x = false -> (i + k < 100)%nat -> run_is s i k = Some true).
  { intros i k u x l H Hx Hi. unfold run_is, tok_dig_run. rewrite (run_at s SIZE_MAX i (fixed k u) (x :: l) H (fixed_digs k u)); rewrite ?length_fixed; [|unfold SIZE_MAX; lia|right; split; [unfold SIZE_MAX; lia|by exists x, l] ].
    cbn [mbind option_bind]. by rewrite Nat.eqb_refl. }
  pose proof (Hr 0%nat 4%nat y 46 (fixed 2 m ++ [109; 0]) eq_refl eq_refl ltac:(lia)) as R0. pose proof (Hr 5%nat 2%nat m 109 [0] eq_refl eq_refl ltac:(lia)) as R5.
  assert (Hdate : tok_date_arm s 0 = Some Miss).
  { unfold tok_date_arm. rewrite Hg. cbn [mbind option_bind Nat.add]. unfold and_then. rewrite R0, R5. unfold char_is.
    change (s !! 4%nat) with (Some 46). change (s !! 7%nat) with (Some 109). cbn [mbind option_bind]. change (46 =? 46) with true. change (109 =? 46) with false. done. }
  unfold q_tok_temporal, or_else. rewrite Hdate. cbn [mbind option_bind]. unfold tok_month_arm. rewrite Hg. cbn [mbind option_bind Nat.add]. unfold and_then. rewrite R0, R5. unfold char_is.
  change (s !! 4%nat) with (Some 46). change (s !! 7%nat) with (Some 109). cbn [mbind option_bind].
  change (46 =? 46) with true. change (109 =? 46) with false. change ((109 =? 101) || (109 =? 69)) with false. cbv iota. cbn [mbind option_bind negb].
  rewrite (num4_at s 0 y ([46] ++ fixed 2 m ++ [109; 0]) eq_refl), (num2_at s 5 m [109; 0] eq_refl) by lia. cbn [mbind option_bind]. cbv zeta.
  rewrite (proj2 (Z.leb_le 1 y)), (proj2 (Z.leb_le 1 m)), (proj2 (Z.leb_le m 12)) by lia. cbn [andb negb mbind option_bind].
  rewrite drop_0. unfold s. rewrite cstr_text by (intros Hin; unfold plain in Hpl; rewrite Forall_forall in Hpl; by destruct (Hpl 0 Hin)). cbn [mbind option_bind].
  rewrite Hv. done.
Qed.

(** ** Clocks of a hundred hours *)
(** The scanner takes the hours for a long and stops at the colon. *)
Lemma literal_hours z h m ms fr : clock_ok (print_u 2 h) (m :: ms) fr -> 100 <= h < 10 ^ 8 ->
  literal_at ((sign_of z ++ clock_text (print_u 2 h) (m :: ms) fr) ++ [0]) 0 =
  Some (inr (length (sign_of z ++ print_u 2 h), VAtom RAY_I64 (PInt (if z <? 0 then - h else h)) false)).
Proof using Type.
  intros Hok Hh. destruct (print_hundred h Hh) as [E1 E3]. set (hd := print_u 2 h) in *. set (x := if z <? 0 then - h else h).
  set (sfx := fields_text (m :: ms) ++ frac_text fr). set (text := sign_of z ++ clock_text hd (m :: ms) fr).
  assert (Hx : int_text x = sign_of z ++ hd).
  { unfold int_text. rewrite E1. unfold x, sign_of. destruct (z <? 0) eqn:E; bprop; [rewrite (proj2 (Z.ltb_lt (- h) 0)), Z.abs_neq, Z.opp_involutive by lia|rewrite (proj2 (Z.ltb_ge h 0)), Z.abs_eq by lia]; done. }
  assert (Et : text = int_text x ++ sfx) by (unfold text, sfx, clock_text; by rewrite Hx, <- !app_assoc).
  assert (Hsfx : sfx ++ [0] = 58 :: (fixed 2 m ++ fields_text ms ++ frac_text fr ++ [0])) by (unfold sfx, fields_text; cbn [fmap list_fmap concat]; cbn [app]; by rewrite <- !app_assoc).
  assert (Hch : token_chars text) by (apply app_chars; [apply sign_chars|by apply clock_chars]).
  assert (Hchs : token_chars sfx) by (unfold token_chars in *; rewrite Et in Hch; by apply Forall_app in Hch as [_ ?]).
  pose proof (clock_text_length _ _ _ Hok) as Hcl. pose proof (ck_hd _ _ _ Hok) as Hds.
  assert (Hhl : (length hd <= 20)%nat) by (unfold hd; destruct (print_hd 2 h) as (_ & Hl & _); [lia|lia|]; lia).
  assert (Hsl : (length (sign_of z) <= 1)%nat) by (unfold sign_of; destruct (z <? 0); simpl; lia).
  assert (Hlen : length (text ++ [0]) < SIZE_MAX) by (unfold text; rewrite !length_app; unfold SIZE_MAX; simpl length; lia).
  assert (Hs : text ++ [0] = sign_of z ++ hd ++ 58 :: (fixed 2 m ++ fields_text ms ++ frac_text fr ++ [0])) by (rewrite Et, Hx, <- !app_assoc; by rewrite Hsfx).
  destruct (not_date z (text ++ [0]) hd 58 _ Hs Hds ltac:(lia) eq_refl ltac:(done) Hlen) as (Hg & Hdr & Hda & Hmo).
  assert (Hdc : drop (length (sign_of z)) (text ++ [0]) = clock_text hd (m :: ms) fr ++ [0]) by (unfold text; rewrite <- app_assoc; by rewrite drop_app_length).
  pose proof (at_app _ _ _ _ Hdr) as H1. destruct (at_read _ _ _ _ H1) as [H58 _].
  assert (Hclk : tok_clock_arm (text ++ [0]) 0 = Some Miss).
  { unfold tok_clock_arm. rewrite Hg. cbn [mbind option_bind].
    rewrite (scan_at (text ++ [0]) SIZE_MAX _ hd (m :: ms) fr [0] Hok Hdc); [|unfold SIZE_MAX; lia|right; split; [unfold SIZE_MAX; lia|by exists 0, [] ] ].
    cbn [mbind option_bind k_hd k_dot k_fd k_fields k_secs k_frac k_ok]. by rewrite (proj2 (Nat.eqb_neq (length hd) 2)) by lia. }
  assert (Hspan : tok_span_arm (text ++ [0]) 0 = Some Miss).
  { assert (Hdd : tok_dig_run (text ++ [0]) (length (sign_of z)) = Some (length hd)).
    { apply (run_at (text ++ [0]) SIZE_MAX _ hd _ Hdr Hds); [unfold SIZE_MAX; lia|right; split; [unfold SIZE_MAX; lia|by eexists 58, _] ]. }
    unfold tok_span_arm. rewrite Hg. cbn [mbind option_bind]. rewrite Hdd. cbn [mbind option_bind]. rewrite (proj2 (Nat.leb_le 1 _)) by lia. unfold char_is, and_then. rewrite H58. done. }
  apply (literal_upto text (length (int_text x)) (el_int Q_TOK_EL_INT x) _ 0 _ 58 (fixed 2 m ++ fields_text ms ++ frac_text fr ++ [0])).
  - by apply chars_plain.
  - rewrite Et, Hx. intros E. apply (f_equal length) in E. rewrite !length_app in E. simpl in E. lia.
  - unfold q_tok_magnitude. rewrite special_plain by (by apply chars_plain). unfold or_else at 1. cbn [mbind option_bind].
    unfold q_tok_temporal, or_else. rewrite Hda, Hmo. cbn [mbind option_bind]. rewrite Hclk. cbn [mbind option_bind]. rewrite Hspan. cbn [mbind option_bind].
    rewrite Et. apply (number_text x sfx 58 (fixed 2 m ++ fields_text ms ++ frac_text fr ++ [0])); try done.
    + unfold x, INT64_MIN, INT64_MAX. destruct (z <? 0); lia.
    + eapply token_not; [exact Hchs|lia|done].
    + eapply Forall_impl; [exact Hchs|]. cbn. unfold byte_ok. lia.
  - rewrite Hx, length_app. unfold q_tok_type_letter. rewrite H58. done.
  - rewrite length_app. exact H1.
  - done.
  - assert (Hsg : sgn 64 x = x).
    { assert (Hb : - 2 ^ 31 <= x < 2 ^ 31) by (unfold x; destruct (z <? 0); lia). unfold sgn, wrap.
      destruct (Z.le_gt_cases 0 x); [rewrite Z.mod_small by lia; bif; lia|rewrite <- (Z.mod_add x 1) by lia; rewrite Z.mod_small by lia; bif; lia]. }
    rewrite (strand_int _ _ RAY_I64 64) by set_solver. by rewrite Hsg.
Qed.

(** ** Booleans, bytes and sentinels *)
Lemma literal_bool z : 0 <= z <= 1 -> literal_at ([48 + z; 98] ++ [0]) 0 = Some (inr (2%nat, VAtom RAY_BOOL (PInt z) false)).
Proof using Type. intros Hz. assert (z = 0 \/ z = 1) as [-> | ->] by lia; reflexivity. Qed.

Lemma literal_byte b : byte_ok b -> literal_at (([48; 120] ++ hex2 b) ++ [0]) 0 = Some (inr (4%nat, VAtom RAY_U8 (PInt b) false)).
Proof using Type.
  intros Hb. destruct (nibbles b Hb) as (Hh & Hl & Hv).
  assert (Hhex : forall d, 0 <= d < 16 -> lit_hex_digit (hex_chr d) = true /\ lit_hex_val (hex_chr d) = d).
  { intros d Hd. assert (H : forallb (fun d => lit_hex_digit (hex_chr d) && (lit_hex_val (hex_chr d) =? d)) (seqZ 0 16) = true) by (vm_compute; reflexivity).
    rewrite forallb_forall in H. specialize (H d ltac:(apply list_elem_of_In, elem_of_seqZ; lia)). bprop. done. }
  unfold hex2. set (h := Z.shiftr b 4) in *. set (l := Z.land b 15) in *. destruct (Hhex h Hh) as [Dh Vh], (Hhex l Hl) as [Dl Vl].
  unfold q_tok_literal. change (q_tok_byte_lit_starts _ _) with (Some true). cbn [mbind option_bind]. unfold lit_byte. cbn [app drop Nat.add run_while].
  rewrite Dh, Dl. change (lit_hex_digit 0) with false. cbv iota. cbn [mbind option_bind Nat.add lookup list_lookup]. change (_ || _ || _ || _) with false. cbv iota.
  change (2 * MAX_VEC <? 2)%nat with false. cbv iota zeta. change (Nat.odd 2) with false. cbv iota. cbn [take hex_pairs]. rewrite push_ok by (unfold MAX_VEC; simpl; lia).
  cbn [mbind option_bind app]. rewrite Vh, Vl. f_equal. f_equal. f_equal. f_equal. f_equal.
  assert (Hr : 0 <= Z.lor (Z.shiftl h 4) l < 256) by (by apply hex_pair_range). rewrite u8_small in Hv by done. first [exact Hv|by rewrite Hv].
Qed.

(** The sentinels of the type, with their texts. *)
Definition sentinels (t : ray_type_e) : list (Z * list Z) :=
  let sfx := if bool_decide (t = RAY_I64) then [] else [q_type_char t] in
  let w := if bool_decide (t ∈ [RAY_I64; RAY_TIMESPAN; RAY_TIMESTAMP]) then 64 else 32 in
  match t with
  | RAY_I16 => [(- 2 ^ 15, [48; 78; 104])]
  | _ => [(- 2 ^ (w - 1), [48; 78] ++ sfx); (2 ^ (w - 1) - 1, [48; 87] ++ sfx); (- (2 ^ (w - 1) - 1), [45; 48; 87] ++ sfx)]
  end.

Definition has_sentinels : list ray_type_e := [RAY_I16; RAY_I32; RAY_I64; RAY_DATE; RAY_MONTH; RAY_TIME; RAY_MINUTE; RAY_SECOND; RAY_TIMESPAN; RAY_TIMESTAMP].

(** The null bit of what is read: set on the null of a temporal type, and not
    on that of an integer. *)
Definition lit_null (t : ray_type_e) (z : Z) : bool :=
  bool_decide (t ∈ [RAY_DATE; RAY_MONTH; RAY_TIME; RAY_MINUTE; RAY_SECOND; RAY_TIMESPAN; RAY_TIMESTAMP]) &&
  match null_payload t with PInt w => z =? w | _ => false end.

Lemma literal_sentinel t z text : t ∈ has_sentinels -> (z, text) ∈ sentinels t -> literal_at (text ++ [0]) 0 = Some (inr (length text, VAtom t (PInt z) (lit_null t z))).
Proof using Type.
  intros Ht. apply list_elem_of_In in Ht. cbn in Ht. repeat (destruct Ht as [<-|Ht]; [intros H; apply list_elem_of_In in H; vm_compute in H; destruct_or?; try done; injection H as <- <-; reflexivity|]). done.
Qed.
End source.

Lemma sentinel_token t z text null n : t ∈ has_sentinels -> (z, text) ∈ sentinels t -> (64 <= n)%nat -> atom_tok (VAtom t (PInt z) null) true n = Some text.
Proof.
  intros Ht Hin Hn. assert (exists k, n = (64 + k)%nat) as [k ->] by (exists (n - 64)%nat; lia). clear Hn.
  apply list_elem_of_In in Ht. cbn in Ht.
  repeat (destruct Ht as [<-|Ht]; [apply list_elem_of_In in Hin; vm_compute in Hin; destruct_or?; try done; injection Hin as <- <-; reflexivity|]). done.
Qed.

(** ** The theorem *)
(** The atoms of the boolean, integer and temporal types but datetimes. *)
Definition val_dom (t : ray_type_e) (z : Z) : Prop :=
  match t with
  | RAY_BOOL => 0 <= z <= 1
  | RAY_U8 => byte_ok z
  | RAY_I16 => - 2 ^ 15 <= z < 2 ^ 15
  | RAY_I32 | RAY_DATE | RAY_MONTH | RAY_TIME | RAY_MINUTE | RAY_SECOND => - 2 ^ 31 <= z < 2 ^ 31
  | RAY_I64 | RAY_TIMESPAN | RAY_TIMESTAMP => INT64_MIN <= z <= INT64_MAX
  | _ => False
  end.

(** Those of them whose value form is a literal of it. *)
Definition lit_dom (t : ray_type_e) (z : Z) : Prop :=
  match t with
  | RAY_BOOL => 0 <= z <= 1
  | RAY_U8 => byte_ok z
  | RAY_I16 => - 2 ^ 15 <= z < 2 ^ 15
  | RAY_I32 => - 2 ^ 31 <= z < 2 ^ 31
  | RAY_I64 | RAY_TIMESPAN | RAY_TIMESTAMP => INT64_MIN <= z <= INT64_MAX
  | RAY_DATE => -730119 <= z <= 2921939 \/ z ∈ (sentinels t).*1
  | RAY_TIME => -360000000 < z < 360000000 \/ z ∈ (sentinels t).*1
  | RAY_MINUTE => -6000 < z < 6000 \/ z ∈ (sentinels t).*1
  | RAY_SECOND => -360000 < z < 360000 \/ z ∈ (sentinels t).*1
  | RAY_MONTH => -23988 <= z <= 95999 \/ z ∈ (sentinels t).*1
  | _ => False
  end.

#[export] Instance lit_dom_dec t z : Decision (lit_dom t z).
Proof. destruct t; cbn; unfold byte_ok; apply _. Defined.

(** What the scanner makes of the others: an error of the impossible date or
    month, or the hours of a clock of a hundred hours or more, up to the colon. *)
Definition per_hour (t : ray_type_e) : Z := match t with RAY_TIME => 3600000 | RAY_SECOND => 3600 | _ => 60 end.
Definition misread (t : ray_type_e) (z : Z) (len : nat) (r : option literal) : Prop :=
  match t with
  | RAY_DATE => r = lit_err "bad date"
  | RAY_MONTH => r = lit_err "bad number"
  | _ => exists p, r = Some (inr (p, VAtom RAY_I64 (PInt (Z.quot z (per_hour t))) false)) /\ (p < len)%nat
  end.

Lemma lit_null_int t z : t ∈ [RAY_BOOL; RAY_U8; RAY_I16; RAY_I32; RAY_I64] -> lit_null t z = false.
Proof. intros Ht. set_unfold in Ht. by destruct_or?; subst. Qed.

Lemma lit_null_not t z w : null_payload t = PInt w -> z <> w -> lit_null t z = false.
Proof. intros Hw Hz. unfold lit_null. rewrite Hw, (proj2 (Z.eqb_neq z w)) by done. apply andb_false_r. Qed.

Lemma sign_length z : (length (sign_of z) <= 1)%nat.
Proof. unfold sign_of. destruct (z <? 0); simpl; lia. Qed.

Lemma wide_sentinel t z : t ∈ [RAY_I64; RAY_TIMESPAN; RAY_TIMESTAMP] -> INT64_MIN <= z <= INT64_MAX -> z ∈ (sentinels t).*1 \/ - INT64_MAX < z < INT64_MAX.
Proof.
  unfold INT64_MIN, INT64_MAX. intros Ht Hz. assert (Hs : (sentinels t).*1 = [-9223372036854775808; 9223372036854775807; -9223372036854775807]) by (set_unfold in Ht; destruct_or?; subst; reflexivity).
  rewrite Hs. set_unfold. lia.
Qed.

(** A month shows its letter. *)
Lemma month_tok n z null text : -2147483647 < z < 2147483647 -> month_payload z n = text -> (length text + 1 < n)%nat ->
  atom_tok (VAtom RAY_MONTH (PInt z) null) true n = Some (text ++ [109]).
Proof.
  intros Hz Ht Hl. unfold atom_tok. change (ttok_find RAY_MONTH) with (Some (Ttok RAY_MONTH true 4 month_payload)). cbv iota.
  unfold ttok_elem. cbn [tt_width tt_text tt_lettered]. change (4 =? 4)%nat with true. cbv iota. rewrite i32_small, sentinel_none32 by lia. rewrite Ht.
  unfold tok_append. change (q_type_char RAY_MONTH) with 109. by rewrite (proj2 (Nat.ltb_lt _ _)).
Qed.

Section value.
Context (strtod : list Z -> nat * spec_float) (pow10 : Z -> spec_float) (buf_ok : nat -> bool) (n : nat) (Hn : (64 <= n)%nat).

(** The token of the atom is the literal of it. *)
Definition reads_back (t : ray_type_e) (z : Z) (null : bool) : Prop :=
  exists text, atom_tok (VAtom t (PInt z) null) true n = Some text /\
    q_tok_literal strtod pow10 buf_ok (text ++ [0]) 0 = Some (inr (length text, VAtom t (PInt z) (lit_null t z))).

Lemma reads_sentinel t z null : t ∈ has_sentinels -> z ∈ (sentinels t).*1 -> reads_back t z null.
Proof using Hn.
  intros Ht Hz. apply list_elem_of_fmap in Hz as ([z' text] & -> & Hin). cbn [fst].
  exists text. split; [by apply (sentinel_token t z')|by apply literal_sentinel].
Qed.

Lemma reads_int t bits sfx w z null : (t, bits, sfx) ∈ [(RAY_I16, 16, [104]); (RAY_I32, 32, [105]); (RAY_I64, 64, [])] -> - 2 ^ (bits - 1) <= z < 2 ^ (bits - 1) ->
  atom_tok (VAtom t (PInt z) null) true n = Some (int_tok (sgn bits z) w sfx n) -> sentinel_tok z w sfx n = None -> reads_back t z null.
Proof using Hn.
  intros Hin Hz Ht Hs. assert (Hsg : sgn bits z = z).
  { set_unfold in Hin; destruct_or?; simplify_eq; unfold sgn, wrap; (destruct (Z.le_gt_cases 0 z); [rewrite Z.mod_small by lia; bif; lia|rewrite <- (Z.mod_add z 1) by lia; rewrite Z.mod_small by lia; bif; lia]). }
  assert (Hzz : INT64_MIN <= z <= INT64_MAX) by (set_unfold in Hin; unfold INT64_MIN, INT64_MAX; destruct_or?; simplify_eq; lia).
  pose proof (int_text_length z Hzz) as Hl. assert (Hsl : (length sfx <= 1)%nat) by (set_unfold in Hin; destruct_or?; simplify_eq; simpl; lia).
  exists (int_text z ++ sfx). rewrite lit_null_int by (set_unfold in Hin; destruct_or?; simplify_eq; set_solver). split.
  - rewrite Ht. f_equal. unfold int_tok. rewrite Hsg, Hs. cbn [default]. rewrite print_int. apply snprintf_fits. rewrite length_app. lia.
  - by apply (literal_int strtod pow10 buf_ok t bits).
Qed.

Lemma reads_temporal t r w z null text : ttok_find t = Some r -> tt_lettered r = false -> null_payload t = PInt w -> z <> w ->
  (tt_width r = 4%nat /\ -2147483647 < z < 2147483647 \/ tt_width r = 8%nat /\ - INT64_MAX < z < INT64_MAX) -> tt_text r z n = text ->
  q_tok_literal strtod pow10 buf_ok (text ++ [0]) 0 = Some (inr (length text, VAtom t (PInt z) false)) -> reads_back t z null.
Proof using Type.
  intros Hr Hlt Hnp Hz Hw Ht Hl. exists text. rewrite (lit_null_not t z w) by done. split; [|done]. apply (temporal_tok n t r); [done|done|by rewrite Hlt|done].
Qed.

Lemma reads_date z null : lit_dom RAY_DATE z -> reads_back RAY_DATE z null.
Proof using Hn.
  intros [Hz|Hz]; [|apply reads_sentinel; [set_solver|done] ]. destruct (ymd_text_day z Hz) as (y & m & d & E & Ht & Hv & Hc).
  eapply (reads_temporal RAY_DATE _ (- 2 ^ 31) z null (date_text y m d)); [reflexivity|done|done|lia|left; split; [done|lia]| |by eapply literal_date].
  cbn [tt_text]. unfold date_payload. change (q_calendar_days_from_civil 1 1 1) with (-730119). change (q_calendar_days_from_civil 9999 12 31) with 2921939.
  rewrite !(proj2 (Z.ltb_ge _ _)) by lia. cbn [orb]. unfold fmt_date. rewrite E, Ht. apply via_atom_fits. rewrite length_date. lia.
Qed.

Lemma reads_month z null : lit_dom RAY_MONTH z -> reads_back RAY_MONTH z null.
Proof using Hn.
  intros [Hz|Hz]; [|apply reads_sentinel; [set_solver|done] ]. destruct (month_parts_spec z Hz) as (y & m & E & Hy & Hm & Hv).
  exists ((fixed 4 y ++ [46] ++ fixed 2 m) ++ [109]). rewrite (lit_null_not RAY_MONTH z (- 2 ^ 31)) by (done || lia). split.
  - apply month_tok; [lia| |cbn; lia]. unfold month_payload. rewrite E, !(proj2 (Z.ltb_ge _ _)) by lia. cbn [orb].
    rewrite !print_d_fixed by lia. apply snprintf_fits. cbn. lia.
  - rewrite <- Hv, <- !app_assoc. by apply (literal_month strtod pow10 buf_ok).
Qed.

Lemma reads_clock t z null : t ∈ [RAY_TIME; RAY_MINUTE; RAY_SECOND] -> lit_dom t z -> reads_back t z null.
Proof using Hn.
  intros Ht Hd. assert (Hs : z ∈ (sentinels t).*1 -> reads_back t z null) by (intros Hz; apply reads_sentinel; [set_unfold in Ht; destruct_or?; subst; set_solver|done]).
  pose proof (sign_length z) as Hsl.
  assert (Hhd : forall h, 0 <= h < 10 ^ 8 -> (length (print_u 2 h) <= 20)%nat) by (intros h Hh; destruct (print_hd 2 h) as (_ & Hl & _); [lia|lia|]; lia).
  set_unfold in Ht. destruct Ht as [->|[->|[->|[] ] ] ]; destruct Hd as [Hz|Hz]; auto.
  - destruct (time_text z ltac:(lia)) as (h & m & s & f & Hf & Hok & _ & Hh & _). pose proof (clock_text_length _ _ _ Hok). specialize (Hhd h ltac:(lia)).
    eapply (reads_temporal RAY_TIME _ (- 2 ^ 31) z null (fmt_time z)); [reflexivity|done|done|lia|left; split; [done|lia]|cbn [tt_text]; apply via_atom_fits; rewrite Hf, length_app; lia|by apply literal_time_atom].
  - destruct (minute_text z ltac:(lia)) as (h & m & Hf & Hok & _ & Hh & _). pose proof (clock_text_length _ _ _ Hok). specialize (Hhd h ltac:(lia)).
    eapply (reads_temporal RAY_MINUTE _ (- 2 ^ 31) z null (fmt_minute z)); [reflexivity|done|done|lia|left; split; [done|lia]|cbn [tt_text]; apply via_atom_fits; rewrite Hf, length_app; lia|by apply literal_minute_atom].
  - destruct (second_text z ltac:(lia)) as (h & m & s & Hf & Hok & _ & Hh & _). pose proof (clock_text_length _ _ _ Hok). specialize (Hhd h ltac:(lia)).
    eapply (reads_temporal RAY_SECOND _ (- 2 ^ 31) z null (fmt_second z)); [reflexivity|done|done|lia|left; split; [done|lia]|cbn [tt_text]; apply via_atom_fits; rewrite Hf, length_app; lia|by apply literal_second_atom].
Qed.

Lemma reads_wide t z null : t ∈ [RAY_TIMESPAN; RAY_TIMESTAMP] -> INT64_MIN <= z <= INT64_MAX -> reads_back t z null.
Proof using Hn.
  intros Ht Hz. destruct (wide_sentinel t z) as [Hs|Hr]; [set_solver|done|apply reads_sentinel; [set_unfold in Ht; destruct_or?; subst; set_solver|done]|].
  assert (Hr' : INT64_MIN < z <= INT64_MAX) by (unfold INT64_MIN, INT64_MAX in *; lia). pose proof (sign_length z) as Hsl.
  set_unfold in Ht. destruct Ht as [->|[->|[] ] ].
  - destruct (timespan_text z Hr') as (d & h & m & s & f & Hf & _ & Hd & Hh & Hm & Hsec & Hfr). pose proof (clock_text_length _ _ _ (day_clock h m s f Hh Hm Hsec Hfr)) as Hcl. rewrite length_fixed in Hcl.
    destruct (print_hd 1 d) as (_ & Hl & _); [lia|lia|].
    eapply (reads_temporal RAY_TIMESPAN _ INT64_MIN z null (fmt_timespan z)); [reflexivity|done|done|unfold INT64_MIN, INT64_MAX in *; lia|by right|cbn [tt_text]; apply via_atom_fits; rewrite Hf, !length_app; change (length [68%Z]) with 1%nat; lia|by apply literal_timespan].
  - destruct (timestamp_text z Hr') as (y & mo & d & h & m & s & f & Hf & _ & _ & Hh & Hm & Hsec & Hfr). pose proof (clock_text_length _ _ _ (day_clock h m s f Hh Hm Hsec Hfr)) as Hcl. rewrite length_fixed in Hcl.
    eapply (reads_temporal RAY_TIMESTAMP _ INT64_MIN z null (fmt_timestamp z)); [reflexivity|done|done|unfold INT64_MIN, INT64_MAX in *; lia|by right|cbn [tt_text]; apply via_atom_fits; rewrite Hf, !length_app, length_date; change (length [68%Z]) with 1%nat; lia|by apply literal_timestamp].
Qed.

Lemma reads_small t z null : t ∈ [RAY_BOOL; RAY_U8] -> lit_dom t z -> reads_back t z null.
Proof using Hn.
  intros Ht Hd. set_unfold in Ht. destruct Ht as [->|[->|[] ] ]; cbn in Hd.
  - exists [48 + z; 98]. rewrite lit_null_int by set_solver. split; [|by apply literal_bool]. assert (z = 0 \/ z = 1) as [-> | ->] by lia; unfold atom_tok; (change (ttok_find _) with (@None q_ttok); cbv iota; f_equal; by apply snprintf_fits; cbn; lia).
  - exists ([48; 120] ++ hex2 z). rewrite lit_null_int by set_solver. split; [|by apply (literal_byte strtod pow10 buf_ok)]. unfold atom_tok. change (ttok_find _) with (@None q_ttok). cbv iota. rewrite u8_small by done. f_equal. apply snprintf_fits. cbn. lia.
Qed.

Lemma reads_ints t z null : t ∈ [RAY_I16; RAY_I32; RAY_I64] -> lit_dom t z -> reads_back t z null.
Proof using Hn.
  intros Ht Hd. set_unfold in Ht. destruct Ht as [->|[->|[->|[] ] ] ]; cbn in Hd.
  - destruct (decide (z = - 2 ^ 15)) as [->|Hne]; [apply reads_sentinel; [set_solver|apply list_elem_of_fmap; exists (- 2 ^ 15, [48; 78; 104]); split; [done|left] ]|].
    apply (reads_int RAY_I16 16 [104] 2); [set_solver|lia|reflexivity|]. unfold sentinel_tok. change (2 =? 2)%nat with true. cbv zeta iota. by rewrite (proj2 (Z.eqb_neq _ _)) by lia.
  - assert (Hs : (sentinels RAY_I32).*1 = [-2147483648; 2147483647; -2147483647]) by reflexivity.
    destruct (decide (z ∈ (sentinels RAY_I32).*1)) as [Hin|Hnin]; [apply reads_sentinel; [set_solver|done]|]. rewrite Hs in Hnin. set_unfold in Hnin.
    apply (reads_int RAY_I32 32 [105] 4); [set_solver|lia|reflexivity|]. unfold sentinel_tok. change (4 =? 2)%nat with false. change (4 =? 4)%nat with true. cbv zeta iota. by rewrite !(proj2 (Z.eqb_neq _ _)) by lia.
  - destruct (wide_sentinel RAY_I64 z) as [Hs|Hr]; [set_solver|done|apply reads_sentinel; [set_solver|done]|].
    apply (reads_int RAY_I64 64 [] 8); [set_solver|unfold INT64_MIN, INT64_MAX in *; lia| |by apply sentinel_none64].
    unfold atom_tok. change (ttok_find _) with (@None q_ttok). cbv iota. f_equal. f_equal. unfold sgn, wrap, INT64_MIN, INT64_MAX in *.
    destruct (Z.le_gt_cases 0 z); [rewrite Z.mod_small by lia; bif; lia|rewrite <- (Z.mod_add z 1) by lia; rewrite Z.mod_small by lia; bif; lia].
Qed.
(** *** The values that are not read back *)
Lemma misread_calendar t z null : t ∈ [RAY_DATE; RAY_MONTH] -> -2147483647 < z < 2147483647 -> ~ lit_dom t z ->
  exists text, atom_tok (VAtom t (PInt z) null) true n = Some text /\ misread t z (length text) (q_tok_literal strtod pow10 buf_ok (text ++ [0]) 0).
Proof using Hn.
  intros Ht Hz Hd. set_unfold in Ht. destruct Ht as [->|[->|[] ] ]; cbn in Hd.
  - exists [48; 48; 48; 48; 46; 48; 48; 46; 48; 48]. split; [|reflexivity].
    eapply temporal_tok; [reflexivity|left; split; [done|lia]|done|]. cbn [tt_text]. unfold date_payload. change (q_calendar_days_from_civil 1 1 1) with (-730119).
    change (q_calendar_days_from_civil 9999 12 31) with 2921939. destruct (_ || _) eqn:E; [apply snprintf_fits; simpl; lia|]. bprop. exfalso. apply Hd. left. lia.
  - exists ([48; 48; 48; 48; 46; 48; 48] ++ [109]). split; [|reflexivity]. apply month_tok; [lia| |simpl; lia].
    unfold month_payload. destruct (month_parts z) as [y m] eqn:E. destruct (_ || _) eqn:Ey; [apply snprintf_fits; simpl; lia|]. bprop.
    exfalso. apply Hd. left. by apply (month_parts_range z y m).
Qed.

Lemma misread_clock t z null : t ∈ [RAY_TIME; RAY_MINUTE; RAY_SECOND] -> -2147483647 < z < 2147483647 -> ~ lit_dom t z ->
  exists text, atom_tok (VAtom t (PInt z) null) true n = Some text /\ misread t z (length text) (q_tok_literal strtod pow10 buf_ok (text ++ [0]) 0).
Proof using Hn.
  intros Ht Hz Hd. pose proof (sign_length z) as Hsl.
  assert (Hhd : forall h, 0 <= h < 10 ^ 8 -> (length (print_u 2 h) <= 20)%nat) by (intros h Hh; destruct (print_hd 2 h) as (_ & Hl & _); [lia|lia|]; lia).
  set_unfold in Ht. destruct Ht as [->|[->|[->|[] ] ] ]; cbn in Hd.
  - destruct (time_text z ltac:(lia)) as (h & m & s & f & Hf & Hok & Hv & Hh & Hm & Hs & Hfr). pose proof (clock_text_length _ _ _ Hok). specialize (Hhd h ltac:(lia)).
    assert (100 <= h) by (destruct (Z.le_gt_cases 100 h); [done|exfalso; apply Hd; left; lia]).
    exists (fmt_time z). split; [eapply (temporal_tok n RAY_TIME); [reflexivity|left; split; [done|lia]|done|cbn [tt_text]; apply via_atom_fits; rewrite Hf, length_app; lia]|].
    rewrite Hf. rewrite (literal_hours strtod pow10 buf_ok z h m [s] (Some (fixed 3 f)) Hok) by lia. exists (length (sign_of z ++ print_u 2 h)). split; [|unfold clock_text; rewrite !length_app, length_fields; cbn [length]; lia].
    cbn [per_hour]. repeat f_equal. destruct (z <? 0) eqn:E; bprop; Z.to_euclidean_division_equations; lia.
  - destruct (minute_text z ltac:(lia)) as (h & m & Hf & Hok & Hv & Hh & Hm). pose proof (clock_text_length _ _ _ Hok). specialize (Hhd h ltac:(lia)).
    assert (100 <= h) by (destruct (Z.le_gt_cases 100 h); [done|exfalso; apply Hd; left; lia]).
    exists (fmt_minute z). split; [eapply (temporal_tok n RAY_MINUTE); [reflexivity|left; split; [done|lia]|done|cbn [tt_text]; apply via_atom_fits; rewrite Hf, length_app; lia]|].
    rewrite Hf. rewrite (literal_hours strtod pow10 buf_ok z h m [] None Hok) by lia. exists (length (sign_of z ++ print_u 2 h)). split; [|unfold clock_text; rewrite !length_app, length_fields; cbn [length]; lia].
    cbn [per_hour]. repeat f_equal. destruct (z <? 0) eqn:E; bprop; Z.to_euclidean_division_equations; lia.
  - destruct (second_text z ltac:(lia)) as (h & m & s & Hf & Hok & Hv & Hh & Hm & Hs). pose proof (clock_text_length _ _ _ Hok). specialize (Hhd h ltac:(lia)).
    assert (100 <= h) by (destruct (Z.le_gt_cases 100 h); [done|exfalso; apply Hd; left; lia]).
    exists (fmt_second z). split; [eapply (temporal_tok n RAY_SECOND); [reflexivity|left; split; [done|lia]|done|cbn [tt_text]; apply via_atom_fits; rewrite Hf, length_app; lia]|].
    rewrite Hf. rewrite (literal_hours strtod pow10 buf_ok z h m [s] None Hok) by lia. exists (length (sign_of z ++ print_u 2 h)). split; [|unfold clock_text; rewrite !length_app, length_fields; cbn [length]; lia].
    cbn [per_hour]. repeat f_equal. destruct (z <? 0) eqn:E; bprop; Z.to_euclidean_division_equations; lia.
Qed.

Lemma misread_ok t z null : val_dom t z -> ~ lit_dom t z ->
  exists text, atom_tok (VAtom t (PInt z) null) true n = Some text /\ misread t z (length text) (q_tok_literal strtod pow10 buf_ok (text ++ [0]) 0).
Proof using Hn.
  intros Hv Hd.
  assert (H32 : t ∈ [RAY_DATE; RAY_MONTH; RAY_TIME; RAY_MINUTE; RAY_SECOND] -> - 2 ^ 31 <= z < 2 ^ 31 -> -2147483647 < z < 2147483647).
  { intros Ht Hz. assert (Hs : ~ z ∈ (sentinels t).*1) by (intros Hs; apply Hd; set_unfold in Ht; destruct_or?; subst; by right).
    assert (Es : (sentinels t).*1 = [-2147483648; 2147483647; -2147483647]) by (set_unfold in Ht; destruct_or?; subst; reflexivity).
    rewrite Es in Hs. set_unfold in Hs. lia. }
  destruct t; try done; cbn in Hv.
  - apply misread_calendar; [set_solver|apply H32; [set_solver|done]|done].
  - apply misread_calendar; [set_solver|apply H32; [set_solver|done]|done].
  - apply misread_clock; [set_solver|apply H32; [set_solver|done]|done].
  - apply misread_clock; [set_solver|apply H32; [set_solver|done]|done].
  - apply misread_clock; [set_solver|apply H32; [set_solver|done]|done].
Qed.

Lemma read_back_ok t z null : lit_dom t z -> reads_back t z null.
Proof using Hn.
  intros Hd. destruct t; try done; cbn in Hd.
  - apply reads_small; [set_solver|done].
  - apply reads_small; [set_solver|done].
  - apply reads_ints; [set_solver|done].
  - apply reads_ints; [set_solver|done].
  - apply reads_ints; [set_solver|done].
  - apply reads_wide; [set_solver|done].
  - by apply reads_month.
  - by apply reads_date.
  - apply reads_wide; [set_solver|done].
  - apply reads_clock; [set_solver|done].
  - apply reads_clock; [set_solver|done].
  - apply reads_clock; [set_solver|done].
Qed.
End value.

(** C8. What the console prints for a value - an atom of a boolean, integer or
    temporal type but a datetime, of any payload in the width of the type - and
    the literal scanner.  The token is read, to its end, as an atom of the same
    type and payload exactly in [lit_dom]: every boolean, byte, short, int,
    long, timespan and timestamp, the dates and months of the years 1 to
    9999, the times, minutes and seconds of fewer than a hundred hours in size,
    each with its null and infinities; the atom has its null bit set if it is the
    null of a temporal type, and not otherwise.  Outside it a date or a month is
    an error of the scanner, and of a clock of a hundred hours or more only the
    hours are read, as a long, with the rest of the token left. *)
Theorem value_roundtrip strtod pow10 buf_ok (t : ray_type_e) (z : Z) (null : bool) (n : nat) :
  val_dom t z -> (64 <= n)%nat ->
  exists text, atom_tok (VAtom t (PInt z) null) true n = Some text /\
    let r := q_tok_literal strtod pow10 buf_ok (text ++ [0]) 0 in
    (lit_dom t z -> r = Some (inr (length text, VAtom t (PInt z) (lit_null t z)))) /\
    (~ lit_dom t z -> misread t z (length text) r).
Proof.
  intros Hv Hn. destruct (decide (lit_dom t z)) as [Hd|Hd].
  - destruct (read_back_ok strtod pow10 buf_ok n Hn t z null Hd) as (text & Ht & Hr). by exists text.
  - destruct (misread_ok strtod pow10 buf_ok n Hn t z null Hv Hd) as (text & Ht & Hr). by exists text.
Qed.

(** -1D02:03:04.000000005, the null month, and 100:00:00.000. *)
Lemma value_roundtrip_witness :
  (exists text, atom_tok (VAtom RAY_TIMESPAN (PInt (-93784000000005)) false) true 64 = Some text /\
    q_tok_literal no_float (fun _ => zero) (fun _ => true) (text ++ [0]) 0 = Some (inr (length text, VAtom RAY_TIMESPAN (PInt (-93784000000005)) false))) /\
  (exists text, atom_tok (VAtom RAY_MONTH (PInt (- 2 ^ 31)) true) true 64 = Some text /\
    q_tok_literal no_float (fun _ => zero) (fun _ => true) (text ++ [0]) 0 = Some (inr (length text, VAtom RAY_MONTH (PInt (- 2 ^ 31)) true))) /\
  exists text p, atom_tok (VAtom RAY_TIME (PInt 360000000) false) true 64 = Some text /\
    q_tok_literal no_float (fun _ => zero) (fun _ => true) (text ++ [0]) 0 = Some (inr (p, VAtom RAY_I64 (PInt 100) false)) /\ (p < length text)%nat.
Proof.
  split; [|split].
  - destruct (value_roundtrip no_float (fun _ => zero) (fun _ => true) RAY_TIMESPAN (-93784000000005) false 64) as (text & Ht & Hr & _); [cbn; unfold INT64_MIN, INT64_MAX; lia|lia|].
    exists text. split; [exact Ht|]. apply Hr. cbn. unfold INT64_MIN, INT64_MAX. lia.
  - destruct (value_roundtrip no_float (fun _ => zero) (fun _ => true) RAY_MONTH (- 2 ^ 31) true 64) as (text & Ht & Hr & _); [cbn; lia|lia|].
    exists text. split; [exact Ht|]. apply Hr. right. vm_compute. set_solver.
  - destruct (value_roundtrip no_float (fun _ => zero) (fun _ => true) RAY_TIME 360000000 false 64) as (text & Ht & _ & Hr); [cbn; lia|lia|].
    destruct Hr as (p & Hr & Hp); [intros [H|H]; [lia|vm_compute in H; set_unfold in H; destruct_or?; lia]|]. exists text, p. split; [exact Ht|]. split; [exact Hr|exact Hp].
Defined.
